(* ===== verification/_CoqProject ===== *)
-Q . S2P
Prelude.v
GoStrings.v
Regex.v
DeviceID.v
SchemaTypes.v
Endpoints.v
InterfaceParse.v
EndpointTrie.v
Compile.v
Compat.v
Broker.v
Topics.v
Float64.v
PayloadValue.v
PayloadBson.v
BsonReader.v
PayloadJson.v
PayloadCodec.v
Rows.v
Batch.v
Policy.v
Triggers.v
Executor.v
Cache.v
Pipeline.v
Router.v
Events.v
Stream.v
Introspect.v
Control.v
ServerData.v
FlowGraph.v
FlowRun.v
FlowCompose.v
FlowMessage.v
FlowService.v
FlowLifecycle.v
FlowRouter.v
FlowBlocks.v
ByteOrder.v
Auth.v
TriggerDefs.v
Channels.v
Query.v
MetaStore.v
MetaWorld.v
AppEngine.v
Pages.v
Pairing.v
RealmMgmt.v
RealmRules.v
Housekeeping.v
Sessions.v
SessionStore.v
Config.v
