(* ===== verification/Prelude.v ===== *)
(** * Astrate: a verification development

    Astrate is an IoT platform in Go: devices connect to an embedded MQTT
    broker, declare the interfaces they implement (introspection), and publish
    data on them; an engine validates every message against the installed
    interface definitions, persists it in micro-batches, and hands committed
    operations to triggers, whose actions are delivered under policies. This
    library models the Go code of that path as executable definitions and
    proves what makes each part correct. Source paths below are relative to
    [src/].

    ** The parts, in the order a message meets them

    - A device is named by a 128-bit identifier ([pkg/deviceid]); its
      certificate name, MQTT client ID and base topic are the same string, and
      the broker decides each PUBLISH and SUBSCRIBE from it
      ([internal/broker/identity.go], [aclhook.go]).
    - A realm holds interface documents. A document is parsed and validated
      ([pkg/interfaceschema/parse.go]), may replace an installed one only as an
      additive upgrade ([compat.go]), and is compiled to an endpoint trie
      ([trie.go], [compile.go]).
    - The engine takes a topic apart, resolves the interface among those the
      device declared ([internal/engine/topics.go], [introspection.go]),
      matches the path in the trie and decodes the payload, BSON or JSON, to a
      value of the mapping's declared type ([pkg/payload]).
    - Accepted operations are batched, converted to rows and committed;
      acknowledgements are released after the commit
      ([internal/engine/data.go], [batch.go]).
    - Trigger conditions select the events that fire
      ([internal/engine/triggers/match.go]); a bounded executor delivers the
      actions, with retries decided by a delivery policy ([actions.go],
      [policy.go]).
    - Devices are registered and given certificates by pairing
      ([internal/pairing]); the broker lets them in by those certificates,
      keeps a session per device and persists sessions and offline queues
      ([internal/broker]).
    - Applications read and write through the AppEngine API, watch events on
      the channels socket, and administer realms ([internal/appengine],
      [internal/realm], [internal/housekeeping]); requests are authorized by
      tokens ([internal/auth]) and work on the metadata tables
      ([internal/store]).
    - Flows process messages through graphs of blocks ([internal/flow],
      [internal/flowapi]).

    ** Files

    - [Prelude] (this file): byte strings and their literals, the error monad
      [result] with its [let?] notation, Go's fixed-width wrap-around ([wrap]),
      the hint databases and the generic list and option lemmas.
    - [GoStrings]: the functions of [strings] and [strconv] the sources call.
    - [Regex]: anchored regular expressions, matched by derivatives.
    - [DeviceID]: [pkg/deviceid/deviceid.go] with base64url and hexadecimal.
    - [SchemaTypes]: the enumerations of [types.go], with the class [WireEnum]
      of enumerations that have a wire string.
    - [Endpoints], [InterfaceParse]: [parse.go] and [violations.go]. The model
      starts from the decoded JSON document ([interfaceJSON]).
    - [EndpointTrie], [Compile]: [trie.go] and [compile.go].
    - [Compat]: [compat.go].
    - [Broker]: [identity.go] (module [Identity]) and the access decision of
      [aclhook.go] (module [ACL]).
    - [Topics]: [topics.go] (module [Topics]) and the introspection text
      format (module [Introspection]).
    - [Float64]: IEEE 754 doubles as bit patterns.
    - [PayloadValue], [PayloadBson], [PayloadJson], [PayloadCodec]:
      [pkg/payload]. The class [PayloadDecoder] of [PayloadCodec] is what the
      engine may assume of the package; its instance is the pair of codecs.
      [BsonReader]: the law that a driver reads the BSON format, a parser of
      that format as its instance, and the round trip through the bytes.
    - [Rows]: the persisted operation, its rendering as canonical JSON and as
      table rows ([engine/batch.go], [data.go], [store/datastreams.go],
      [properties.go]).
    - [Batch]: the micro-batch flush of [engine/batch.go]: commit, retries with
      backoff, the one-by-one path for a poisoned batch, acknowledgements and
      observers, as a function of the database's answers.
    - [Cache]: the schema cache and device cache of [engine/cache.go] and the
      outbound format hint.
    - [Pipeline]: the handling of one message and of a batch of publishes
      ([engine/data.go]).
    - [Router]: the shard router of [engine/router.go] as a state machine:
      queues with blocking senders, the flush timer, panics of handlers and
      flushes with the restart of the loop, cancellation, and the drain.
    - [Events]: the observers of [engine/engine.go] and the event bodies of
      [triggers/events.go]: which events an operation, a rejection or a
      lifecycle change raises and which triggers receive them.
    - [Stream]: the in-process bus of [engine/stream/bus.go].
    - [Introspect]: the store retry loop, the introspection handler and the
      capabilities handler ([engine/introspection.go], [capabilities.go],
      [UpdateIntrospection] of [store/devices.go]).
    - [Control]: the control messages of [engine/control.go]: property lists,
      the purge, the empty-cache resync; and [payload.Encode].
    - [ServerData]: the publishes of the server side ([engine/serverdata.go]).
    - [Policy]: [triggers/policy.go].
    - [Triggers]: the condition compiler and matchers of [triggers/match.go],
      [transient.go] and [errorname.go].
    - [Executor]: [triggers/actions.go] as a state machine whose steps are the
      critical sections of the code, and the webhook retry loop.
    - [TriggerDefs]: whole trigger definitions: [triggers/validation.go], the
      actions and their templates' fields, and [Compile].
    - [FlowGraph], [FlowRun], [FlowCompose], [FlowMessage], [FlowRouter]: the
      pipelines of [internal/flow]: validation and ordering, instantiation and
      execution, composites and configuration substitution, the message on the
      wire, and the keyed router as a state machine.
    - [FlowBlocks]: the pure blocks of [flow/blocks]: filter, map,
      update_metadata, split_map, sort, to_json, json_path_map.
    - [FlowService], [FlowLifecycle]: [flowapi/service.go]: the dry run and
      build, and the life of a flow as interleaving critical sections.
    - [ByteOrder]: byte strings in [uuid] and bbolt key order.
    - [Auth]: [internal/auth]: claims, tokens, the token cache and the guard.
    - [Channels]: [appengine/channels]: frames, watches, rooms and sessions as
      an interleaving state machine.
    - [Query]: the data queries of [appengine/data.go] and [downsample.go].
    - [MetaStore]: the metadata tables (realms, devices, groups, interfaces,
      triggers, policies) and every store method on them, with what deletions
      sweep of the data and flow tables. [MetaWorld]: programs
      of store calls, their interleaving with failures, and integrity.
    - [AppEngine], [Pages]: [appengine/service.go] and its page walks.
    - [Pairing]: [internal/pairing] and [store/crypto.go].
    - [RealmMgmt], [RealmRules]: [internal/realm] and the rules it keeps.
    - [Housekeeping]: [internal/housekeeping].
    - [Sessions]: the hooks of the broker ([authhook.go], [aclhook.go],
      [lifecycle.go], [broker.go], [publisher.go]) as programs whose store calls
      and critical sections interleave.
    - [SessionStore]: [broker/sessionstore.go] on bbolt buckets, and the queue
      it implements.
    - [Config]: [internal/config/config.go] and [internal/httpx/cors.go].

    ** What the theorems show

    - Interface documents: the parser accepts exactly the documents the rules
      describe, reports violations in order, and its result determines the
      document up to defaults; the endpoint conflict check is exact; a parsed
      interface compiles under a stated condition, and the compiled trie
      resolves a path to the declared mapping whose endpoint it matches, and to
      nothing otherwise; upgrades are accepted exactly when additive, and keep
      every path the installed version resolved.
    - Identifiers, identities, topics: parsing and printing are inverse; the
      access matrix is exactly the documented one and confines a device to its
      own subtree; interface resolution is the longest declared prefix.
    - Payloads: an accepted payload carries a value of the declared type within
      the caps, BSON encoding is the BSON format byte for byte, and both codecs
      decode what they encode.
    - Ingestion: a publish is decided exactly by declaration, installation,
      ownership, path and payload; a batch is acknowledged only after it is
      stored, each message once; retries neither lose nor reorder property
      writes, datastream rows are written once; the flush ends when the outage
      does; operations of one batch see each other's values; the schema
      snapshot always holds validated interfaces under their own names.
    - Concurrency of the engine: each lane keeps the order of its messages and
      operations within its bounds, so one device's messages are flushed in the
      order they were accepted; a drain uses up its work; the message handler
      is one of the actions the router is proved for.
    - Observers: change events describe the change of the stored property
      wherever the previous value could be read, a
      rejection is always reported with its reason, a live viewer sees its
      events in order.
    - Handlers: an introspection is reported exactly, a property list deletes
      exactly the unlisted rows, the resync republishes the stored values, and
      a server publish is persisted before it is delivered, as the batcher
      would persist it.
    - Triggers: conditions match exactly the events they describe, a policy has
      one decision per outcome, the executor never exceeds its queue and
      capacity bounds, releases every slot it takes and drains, and a webhook
      is attempted at most the configured number of times and only after
      failures the policy retries; a definition compiles exactly when every
      rule holds, and its errors name the fields.
    - Broker: in every interleaving a live session belongs to a connection that
      proved its device, messages carry that device, a replaced connection never
      evicts its successor, QoS 1 messages are acknowledged only after the
      engine; a certificate pairing issues gets its device in until it expires
      or is superseded; the session file is a queue: after any hooks and
      restarts each client gets its unexpired messages in order.
    - Metadata: integrity of the tables in every interleaving of requests and
      failures; endpoint ids are never reused; aliases stay unique, patches,
      pages and groups do exactly what they say; realms are created whole and
      deleted whole; the registration limit holds one request at a time (the
      races that break it, and other races, are stated as theorems).
    - Realms: the rules of installed interfaces hold after any requests served
      one after the other; an upgrade run alone replaces the document by an
      additive one or changes nothing, and what the service's check refuses is
      answered as a conflict.
    - Access: a request is served only with a valid token whose claims cover it,
      the token cache decides like a fresh verification, a channel viewer gets
      only events its token allows.
    - Flows: an accepted pipeline has one order that respects its edges,
      composites expand to valid pipelines, messages of a key keep their order,
      every graph of blocks of a flow is accounted for, and left running only
      by a refused start, a failed drain or an overtaken stop; the sort block is
      a stable sort within its window.
    - Configuration: loading succeeds exactly when the file decodes, the
      variables are well formed and the outcome is usable, with the environment
      over the file over the defaults; a database and the broker's certificate
      are enough; only listed origins are answered.

    ** Fuel

    Four loops of the sources are not structural and take fuel: the segment
    loop of [splitEndpoint] and the trie descent [matchNode] (one step per '/'
    of the text; fuel is its length plus one), [matchInterface] (the end index
    decreases; fuel is the length plus one), the decimal digits of [Itoa] (20,
    enough for 64 bits) and the webhook loop (the attempt limit plus one). Each
    is proved to give its result with the fuel its caller supplies.
    The flush loop takes [n + 2] attempts, where [n] bounds the requests until
    the outage or the process ends; [flush_terminates] shows that this is
    enough. The store retry loop of the handlers takes the fuel of its
    environment, and the theorems ask for one more than the number of attempts
    until a final answer or the shutdown. Kahn's loop of [FlowGraph] takes one
    round per node, composite expansion the depth limit of the source plus one
    (33), the text scans of [TriggerDefs], [Auth], [FlowCompose] and [FlowBlocks]
    the length of the text, page walks one page per device plus one, and the
    decimal serial of [Pairing] 39 digits, enough for 128 bits; each with its
    theorem or lemma. The template loop of the map block has no such bound:
    [template_expansion_ends] says when it ends, [template_expansion_diverges]
    that it need not. [sort.Search] takes the length of the range.

    ** Concurrency

    [Router], [Executor], [Stream], [Channels], [FlowRouter], [FlowLifecycle],
    [MetaWorld] and [Sessions] are step relations: a step is one critical
    section, channel operation or store call, and invariants hold in every
    reachable state. A store method is one step, as its statement or transaction
    is; a transaction that reads and then writes is taken as serializable. A
    failed call may have taken effect.

    ** Interfaces to code outside the repository

    The MongoDB BSON driver ([BSONDriver], with the law [BSONReader]), Go's JSON, decimal, time and base64
    text layer ([JSONText], [FlowTime], [FlowText]), zlib ([Zlib]), the JWT,
    regular-expression, X.509 and LRU libraries of [Auth], cryptography and PEM
    ([Pairing.Crypto]), certificate chains ([Sessions.Net]), the TOML decoder,
    the URL parser and the files of [Config] ([Config.Platform]) and the collation
    of the database ([Collation]) are type classes; the laws used of them are
    the named classes of hypotheses next to them, and every property that needs
    a law has a witness with a concrete instance. SHA-1, the entropy source,
    the HTTP responses and elapsed time seen by a delivery, and the database's
    answers are arguments of the definitions that use them.

    ** Not modelled

    The routes and the JSON text of answers of the HTTP front ends, websocket
    and MQTT libraries, SQL text, the query planner and the data tables' reads,
    the LISTEN loop, the network forwarders, the MQTT, HTTP and random flow
    blocks, start-up wiring, metrics and logging: they are I/O, data or calls
    into libraries. The rate limiter of pairing computes on
    floating-point time and is left out. Strict JSON decoding of documents is
    [encoding/json]; documents are taken as their decoded view. Log texts and
    human-readable error details are dropped; the error's kind and its position
    are kept.

    ** Plan

    Everything listed under Files is in place. What would come next: the storage
    of pipelines and user blocks ([flowapi/userblocks.go], [store/pipelines.go]),
    the routes of the AppEngine API, the reads of the data tables, and the
    network forwarders. *)

From Stdlib Require Export Ascii ZArith Lia.
From stdpp Require Export strings numbers base sets gmap list_relations list.

(** ** Go strings and byte slices

    A Go [string] and a Go [[]byte] are both finite sequences of bytes; the
    development uses one type for both, so a conversion [string(b)] or
    [[]byte(s)] is the identity. *)
Abbreviation gostring := (list ascii).

Declare Scope go_scope.
Delimit Scope go_scope with go.

(** Literals: ["foo"%go] is the byte sequence of the Go literal. *)
Inductive go_literal :=
| GoNil
| GoCons (c : ascii) (s : go_literal).

Fixpoint go_literal_of (l : list Byte.byte) : go_literal :=
  match l with
  | [] => GoNil
  | b :: l => GoCons (ascii_of_byte b) (go_literal_of l)
  end.

Fixpoint go_literal_to (s : go_literal) : list Byte.byte :=
  match s with
  | GoNil => []
  | GoCons c s => byte_of_ascii c :: go_literal_to s
  end.

#[warnings="-via-type-mismatch"]
String Notation list go_literal_of go_literal_to
  (via go_literal mapping [[nil] => GoNil, [cons] => GoCons]) : go_scope.

(** Bytes as numbers. *)
Definition byte_val (c : ascii) : Z := Z.of_N (N_of_ascii c).
Definition chr (z : Z) : ascii := ascii_of_N (Z.to_N z).

#[global] Arguments byte_val : simpl never.
#[global] Arguments chr : simpl never.

(** [between lo hi c] is Go's [c >= lo && c <= hi] on bytes. *)
Definition between (lo hi c : ascii) : bool :=
  (byte_val lo <=? byte_val c)%Z && (byte_val c <=? byte_val hi)%Z.

(** ** Fallible code *)
Inductive result (E A : Type) : Type :=
| Ok (a : A)
| Err (e : E).
Arguments Ok {E A} a.
Arguments Err {E A} e.

#[global] Instance result_eq_dec `{EqDecision E, EqDecision A} :
  EqDecision (result E A).
Proof. solve_decision. Defined.

Definition bindR {E A B} (r : result E A) (k : A -> result E B) : result E B :=
  match r with
  | Ok a => k a
  | Err e => Err e
  end.

Definition mapErr {E F A} (f : E -> F) (r : result E A) : result F A :=
  match r with
  | Ok a => Ok a
  | Err e => Err (f e)
  end.

Definition is_ok {E A} (r : result E A) : bool :=
  match r with
  | Ok _ => true
  | Err _ => false
  end.

(** An optional result as a result with the given error. *)
Definition or_err {E A} (o : option A) (e : E) : result E A :=
  match o with
  | Some a => Ok a
  | None => Err e
  end.

(** A guard of the source, [if !cond { return err }]. *)
Definition guard_err {E} (cond : bool) (e : E) : result E () :=
  if cond then Ok () else Err e.

Declare Scope result_scope.
Delimit Scope result_scope with res.
Notation "'let?' p := r 'in' k" := (bindR r (fun x => match x with p => k end))
  (at level 10, p pattern at level 0, r at level 100, k at level 200)
  : result_scope.
Notation "r ;;? k" := (bindR r (fun _ => k))
  (at level 100, k at level 200, right associativity) : result_scope.
Open Scope result_scope.

Lemma bindR_Ok {E A B} (r : result E A) (k : A -> result E B) b :
  bindR r k = Ok b <-> exists a, r = Ok a /\ k a = Ok b.
Proof. destruct r; simpl; naive_solver. Qed.

Lemma bindR_Err {E A B} (r : result E A) (k : A -> result E B) e :
  bindR r k = Err e <-> r = Err e \/ exists a, r = Ok a /\ k a = Err e.
Proof. destruct r; simpl; naive_solver. Qed.

Lemma guard_err_Ok {E} (b : bool) (e : E) u : guard_err b e = Ok u <-> b = true.
Proof. destruct b, u; simpl; naive_solver. Qed.

Lemma or_err_Ok {E A} (o : option A) (e : E) a : or_err o e = Ok a <-> o = Some a.
Proof. destruct o; simpl; naive_solver. Qed.

Lemma mapErr_Ok {E F A} (f : E -> F) (r : result E A) a :
  mapErr f r = Ok a <-> r = Ok a.
Proof. destruct r; simpl; naive_solver. Qed.

Lemma is_ok_spec {E A} (r : result E A) : is_ok r = true <-> exists a, r = Ok a.
Proof. destruct r; simpl; naive_solver. Qed.

(** [inv_ok H] inverts a chain of binds that succeeded. *)
Ltac inv_ok H :=
  repeat match type of H with
  | bindR _ _ = Ok _ =>
      let a := fresh "a" in let E := fresh "Hok" in
      apply bindR_Ok in H as (a & E & H); try inv_ok E
  | guard_err _ _ = Ok _ => apply guard_err_Ok in H
  | or_err _ _ = Ok _ => apply or_err_Ok in H
  | mapErr _ _ = Ok _ => apply mapErr_Ok in H
  | Ok _ = Ok _ => injection H as H
  | Err _ = Ok _ => discriminate H
  end.

(** Case analysis on every boolean or option a goal or hypothesis branches on. *)
Ltac split_match :=
  match goal with
  | |- context [match ?x with _ => _ end] => destruct x eqn:?
  | |- context [if ?x then _ else _] => destruct x eqn:?
  end.

Ltac bool_hyps :=
  repeat match goal with
  | H : (_ && _) = true |- _ => apply andb_true_iff in H as [? ?]
  | H : (_ || _) = false |- _ => apply orb_false_iff in H as [? ?]
  | H : negb _ = true |- _ => apply negb_true_iff in H
  | H : negb _ = false |- _ => apply negb_false_iff in H
  | H : bool_decide _ = true |- _ => apply bool_decide_eq_true in H
  | H : bool_decide _ = false |- _ => apply bool_decide_eq_false in H
  | H : (_ <=? _)%Z = true |- _ => apply Z.leb_le in H
  | H : (_ <=? _)%Z = false |- _ => apply Z.leb_gt in H
  | H : (_ <? _)%Z = true |- _ => apply Z.ltb_lt in H
  | H : (_ <? _)%Z = false |- _ => apply Z.ltb_ge in H
  | H : (_ =? _)%Z = true |- _ => apply Z.eqb_eq in H
  | H : (_ =? _)%Z = false |- _ => apply Z.eqb_neq in H
  | H : (_ <=? _)%nat = true |- _ => apply Nat.leb_le in H
  | H : (_ <=? _)%nat = false |- _ => apply Nat.leb_gt in H
  | H : (_ <? _)%nat = true |- _ => apply Nat.ltb_lt in H
  | H : (_ <? _)%nat = false |- _ => apply Nat.ltb_ge in H
  | H : (_ =? _)%nat = true |- _ => apply Nat.eqb_eq in H
  | H : (_ =? _)%nat = false |- _ => apply Nat.eqb_neq in H
  end.

(** ** Bytes *)
Lemma byte_val_range c : (0 <= byte_val c < 256)%Z.
Proof. unfold byte_val. pose proof (N_ascii_bounded c). lia. Qed.

Lemma chr_byte_val c : chr (byte_val c) = c.
Proof. unfold chr, byte_val. rewrite N2Z.id. apply ascii_N_embedding. Qed.

Lemma byte_val_chr z : (0 <= z < 256)%Z -> byte_val (chr z) = z.
Proof.
  intros ?. unfold chr, byte_val. rewrite N_ascii_embedding; lia.
Qed.

Lemma byte_val_inj c d : byte_val c = byte_val d -> c = d.
Proof. intros H. rewrite <- (chr_byte_val c), H. apply chr_byte_val. Qed.

(** A property of every byte, decided by evaluation. *)
Definition all_bytes : list ascii := map chr (seqZ 0 256).

Lemma all_bytes_elem c : c ∈ all_bytes.
Proof.
  apply list_elem_of_In, in_map_iff. exists (byte_val c). split; [apply chr_byte_val|].
  apply list_elem_of_In, elem_of_seqZ. pose proof (byte_val_range c). lia.
Qed.

Lemma all_bytes_forall (P : ascii -> bool) :
  forallb P all_bytes = true -> forall c, P c = true.
Proof.
  intros H c. rewrite forallb_forall in H. apply H, list_elem_of_In, all_bytes_elem.
Qed.

Lemma seqZ_forall (P : Z -> bool) n :
  forallb P (seqZ 0 n) = true -> forall v, (0 <= v < n)%Z -> P v = true.
Proof.
  intros H v Hv. rewrite forallb_forall in H.
  apply H, list_elem_of_In, elem_of_seqZ. lia.
Qed.

(** A property of the value of a known option, without taking the value apart. *)
Lemma some_elim {A} (P : A -> Prop) x : P x -> forall y, Some x = Some y -> P y.
Proof. intros Hx y Hy. by rewrite <- (inj Some _ _ Hy). Qed.

(** ** Lists *)
Lemma filter_all {A} (P : A -> Prop) `{forall x, Decision (P x)} l :
  Forall P l -> filter P l = l.
Proof.
  induction 1 as [|x l Hx _ IH]; [done|]. rewrite filter_cons_True by done. by f_equal.
Qed.

Lemma filter_length_eq {A} (P : A -> Prop) `{forall x, Decision (P x)} l :
  length (filter P l) = length l -> Forall P l.
Proof.
  intros Hl. apply Forall_forall. intros x Hx. destruct (decide (P x)) as [|Hn]; [done|].
  pose proof (length_filter_lt P l x Hx Hn). lia.
Qed.

Lemma Forall2_impl_valid {A B} (P : A -> Prop) (Q R : A -> B -> Prop) l k :
  Forall P l -> Forall2 Q l k -> (forall x y, P x -> Q x y -> R x y) -> Forall2 R l k.
Proof.
  intros HP HQ H. induction HQ as [|x y l k Hxy _ IH]; [constructor|].
  apply Forall_cons in HP as [Hx HP]. constructor; auto.
Qed.

Lemma lookup_map {A B} (f : A -> B) (l : list A) k : map f l !! k = option_map f (l !! k).
Proof. revert k. induction l as [|x l IH]; intros [|k]; simpl; [done..|apply IH]. Qed.

(** ** Machine integers

    Go's [int] is 64 bits wide on the supported platforms; a signed value
    is kept as the [Z] it denotes and wraps after each operation that can
    overflow. *)
Definition wrap (w : Z) (z : Z) : Z :=
  ((z + 2 ^ (w - 1)) mod 2 ^ w - 2 ^ (w - 1))%Z.
Definition int64_min : Z := - 2 ^ 63.
Definition int64_max : Z := 2 ^ 63 - 1.
Definition int32_min : Z := - 2 ^ 31.
Definition int32_max : Z := 2 ^ 31 - 1.
Definition in_int64 (z : Z) : Prop := (int64_min <= z <= int64_max)%Z.
Definition in_int32 (z : Z) : Prop := (int32_min <= z <= int32_max)%Z.

Lemma wrap_small w z : (0 < w)%Z -> (- 2 ^ (w - 1) <= z < 2 ^ (w - 1))%Z -> wrap w z = z.
Proof.
  intros Hw Hz. unfold wrap.
  assert (2 ^ w = 2 * 2 ^ (w - 1))%Z as E.
  { replace w with (Z.succ (w - 1)) at 1 by lia. apply Z.pow_succ_r. lia. }
  rewrite Z.mod_small; lia.
Qed.

(** [time.Duration(n) * time.Second], an int64 product. *)
Definition seconds (n : Z) : Z := wrap 64 (n * 1000000000).

Lemma wrap_range w z : (0 < w)%Z -> (- 2 ^ (w - 1) <= wrap w z < 2 ^ (w - 1))%Z.
Proof.
  intros Hw. unfold wrap.
  assert (2 ^ w = 2 * 2 ^ (w - 1))%Z as E.
  { replace w with (Z.succ (w - 1)) at 1 by lia. apply Z.pow_succ_r. lia. }
  pose proof (Z.mod_pos_bound (z + 2 ^ (w - 1)) (2 ^ w)). lia.
Qed.

Lemma seconds_exact n : (0 <= n)%Z -> seconds n = (n * 1000000000)%Z <-> (n <= 9223372036)%Z.
Proof.
  intros Hn. unfold seconds. split.
  - intros E. pose proof (wrap_range 64 (n * 1000000000) ltac:(lia)) as Hr. rewrite E in Hr. lia.
  - intros Hle. apply wrap_small; lia.
Qed.

Create HintDb astrate.
Create Rewrite HintDb astrate.
#[export] Hint Resolve byte_val_range all_bytes_elem : astrate.
#[export] Hint Rewrite chr_byte_val : astrate.
