(* ===== verification/GoStrings.v ===== *)
(** * Go's string library, as far as the sources use it

    [strings.IndexByte], [LastIndexByte], [Cut], [CutPrefix], [HasPrefix],
    [Split], [Join], [ContainsAny], [Contains] and [strconv.ParseInt]/[Atoi]/
    [Itoa], on the byte sequences of {!Prelude}. *)

From S2P Require Import Prelude.

Module Strings.

(** [strings.IndexByte(s, c)]; [None] is Go's -1. *)
Fixpoint IndexByte (s : gostring) (c : ascii) : option nat :=
  match s with
  | [] => None
  | x :: s' => if decide (x = c) then Some 0 else S <$> IndexByte s' c
  end.

(** [strings.LastIndexByte(s, c)]. *)
Fixpoint LastIndexByte (s : gostring) (c : ascii) : option nat :=
  match s with
  | [] => None
  | x :: s' =>
      match LastIndexByte s' c with
      | Some i => Some (S i)
      | None => if decide (x = c) then Some 0 else None
      end
  end.

(** [strings.Cut(s, sep)] for a one-byte separator: (before, after, found). *)
Fixpoint Cut (s : gostring) (c : ascii) : gostring * gostring * bool :=
  match s with
  | [] => ([], [], false)
  | x :: s' =>
      if decide (x = c) then ([], s', true)
      else let '(before, after, found) := Cut s' c in (x :: before, after, found)
  end.

(** [strings.CutPrefix(s, p)]; [None] when [p] is not a prefix. *)
Fixpoint CutPrefix (s p : gostring) {struct p} : option gostring :=
  match p, s with
  | [], _ => Some s
  | x :: p', y :: s' => if decide (x = y) then CutPrefix s' p' else None
  | _ :: _, [] => None
  end.

Definition HasPrefix (s p : gostring) : bool :=
  match CutPrefix s p with Some _ => true | None => false end.

Definition HasSuffix (s p : gostring) : bool := HasPrefix (rev s) (rev p).

(** [strings.Split(s, sep)] for a one-byte separator: never empty. *)
Fixpoint Split (s : gostring) (c : ascii) : list gostring :=
  match s with
  | [] => [[]]
  | x :: s' =>
      if decide (x = c) then [] :: Split s' c
      else match Split s' c with
           | seg :: rest => (x :: seg) :: rest
           | [] => [[x]]
           end
  end.

(** [strings.Join(l, sep)] for a one-byte separator. *)
Fixpoint Join (l : list gostring) (c : ascii) : gostring :=
  match l with
  | [] => []
  | [s] => s
  | s :: l' => s ++ c :: Join l' c
  end.

(** [strings.ContainsAny(s, chars)]. *)
Definition ContainsAny (s chars : gostring) : bool :=
  existsb (fun x => bool_decide (x ∈ chars)) s.

(** [strings.Contains(s, sub)]. *)
Fixpoint Contains (s sub : gostring) : bool :=
  HasPrefix s sub ||
  match s with
  | [] => false
  | _ :: s' => Contains s' sub
  end.

(** ** Characterisations *)

Lemma IndexByte_None s c : IndexByte s c = None <-> c ∉ s.
Proof.
  induction s as [|x s IH]; simpl; [set_solver|].
  case_decide; subst; [set_solver|].
  destruct (IndexByte s c); simpl; set_solver.
Qed.

Lemma IndexByte_Some s c i :
  IndexByte s c = Some i <-> exists a b, s = a ++ c :: b /\ c ∉ a /\ length a = i.
Proof.
  revert i. induction s as [|x s IH]; intros i; simpl.
  { split; [done|]. intros (a & b & H & _). by destruct a. }
  case_decide as Hx; subst.
  - split.
    + intros [= <-]. exists [], s. set_solver.
    + intros ([|y a] & b & H & Hn & Hl); simpl in *; [by subst|].
      injection H as -> ->. set_solver.
  - split.
    + intros H. apply fmap_Some in H as (j & Hj & ->).
      apply IH in Hj as (a & b & -> & Hn & Hl). exists (x :: a), b.
      simpl. rewrite Hl. set_solver.
    + intros ([|y a] & b & H & Hn & Hl); simpl in *; injection H as ? ?; subst.
      { done. }
      assert (IndexByte (a ++ c :: b) c = Some (length a)) as E.
      { apply IH. exists a, b. set_solver. }
      by rewrite E.
Qed.

Lemma Cut_spec s c a b f :
  Cut s c = (a, b, f) <->
  (if f then s = a ++ c :: b /\ c ∉ a else s = a /\ b = [] /\ c ∉ s).
Proof.
  revert a b f. induction s as [|x s IH]; intros a b f; simpl.
  - destruct f; split; intros H; simplify_eq.
    + destruct H as [H _]. by destruct a.
    + set_solver.
    + destruct H as (<- & -> & _). done.
  - case_decide as Hx; subst.
    + destruct f; split.
      * intros [= <- <-]. set_solver.
      * intros [H Hn]. destruct a as [|y a]; simpl in *; simplify_eq; [done|set_solver].
      * done.
      * intros (_ & _ & Hn). set_solver.
    + destruct (Cut s c) as [[a' b'] f'] eqn:E.
      pose proof (proj1 (IH a' b' f') eq_refl) as H'.
      split.
      * intros [= <- <- <-]. destruct f'; set_solver.
      * destruct f.
        -- intros [H Hn]. destruct a as [|y a]; simpl in *; simplify_eq.
           assert ((a', b', f') = (a, b, true)) as E' by (apply IH; set_solver).
           by simplify_eq.
        -- intros (<- & -> & Hn).
           assert ((a', b', f') = (s, [], false)) as E' by (apply IH; set_solver).
           by simplify_eq.
Qed.

Lemma Cut_app a b c : c ∉ a -> Cut (a ++ c :: b) c = (a, b, true).
Proof. intros. by apply Cut_spec. Qed.

Lemma Cut_none s c : c ∉ s -> Cut s c = (s, [], false).
Proof. intros. by apply Cut_spec. Qed.

Lemma CutPrefix_spec s p r : CutPrefix s p = Some r <-> s = p ++ r.
Proof.
  revert s. induction p as [|x p IH]; intros s; simpl; [split; congruence|].
  destruct s as [|y s]; [split; congruence|]. case_decide; subst; [|split; congruence].
  rewrite IH. split; congruence.
Qed.

Lemma HasPrefix_spec s p : HasPrefix s p = true <-> exists r, s = p ++ r.
Proof.
  unfold HasPrefix. destruct (CutPrefix s p) as [r|] eqn:E.
  - apply CutPrefix_spec in E. naive_solver.
  - split; [done|]. intros [r Hr]. apply CutPrefix_spec in Hr. congruence.
Qed.

Lemma LastIndexByte_None s c : LastIndexByte s c = None <-> c ∉ s.
Proof.
  induction s as [|x s IH]; simpl; [set_solver|].
  destruct (LastIndexByte s c) eqn:E.
  - split; [done|]. intros Hn. assert (c ∉ s) as Hs by set_solver.
    apply IH in Hs. congruence.
  - assert (c ∉ s) by by apply IH. case_decide; set_solver.
Qed.

Lemma LastIndexByte_app a b c : c ∉ b -> LastIndexByte (a ++ c :: b) c = Some (length a).
Proof.
  intros Hn. induction a as [|x a IH]; simpl.
  - apply LastIndexByte_None in Hn. by rewrite Hn, decide_True.
  - by rewrite IH.
Qed.

Lemma LastIndexByte_Some s c i :
  LastIndexByte s c = Some i <-> exists a b, s = a ++ c :: b /\ c ∉ b /\ length a = i.
Proof.
  split; [|intros (a & b & -> & Hn & <-); by apply LastIndexByte_app].
  revert i. induction s as [|x s IH]; intros i; simpl; [done|].
  destruct (LastIndexByte s c) as [j|] eqn:E.
  - intros [= <-]. destruct (IH j eq_refl) as (a & b & -> & Hn & <-).
    by exists (x :: a), b.
  - apply LastIndexByte_None in E. case_decide as Hx; [|done].
    intros [= <-]. subst. by exists [], s.
Qed.

Lemma Split_nonempty s c : Split s c <> [].
Proof.
  induction s as [|x s IH]; simpl; [done|].
  case_decide; [done|]. by destruct (Split s c).
Qed.

Lemma Join_cons x l c : l <> [] -> Join (x :: l) c = x ++ c :: Join l c.
Proof. destruct l; done. Qed.

(** Splitting and joining are inverse. *)
Lemma Join_Split s c : Join (Split s c) c = s.
Proof.
  induction s as [|x s IH]; simpl; [done|].
  pose proof (Split_nonempty s c) as Hne.
  case_decide; subst.
  - rewrite Join_cons by done. simpl. by rewrite IH.
  - destruct (Split s c) as [|seg rest]; [done|].
    destruct rest as [|r rest]; simpl in *; by rewrite <- IH.
Qed.

Lemma Split_app a b c : c ∉ a -> Split (a ++ c :: b) c = a :: Split b c.
Proof.
  induction a as [|x a IH]; intros Hn; simpl; [by rewrite decide_True|].
  rewrite decide_False by set_solver. rewrite IH by set_solver. done.
Qed.

Lemma Split_none a c : c ∉ a -> Split a c = [a].
Proof.
  induction a as [|x a IH]; intros Hn; simpl; [done|].
  rewrite decide_False by set_solver. rewrite IH by set_solver. done.
Qed.

Lemma Split_snoc a b c : c ∉ b -> Split (a ++ c :: b) c = Split a c ++ [b].
Proof.
  intros Hb. induction a as [|x a IH]; simpl; [by rewrite decide_True, Split_none|].
  rewrite IH. case_decide; [done|]. pose proof (Split_nonempty a c). by destruct (Split a c).
Qed.

Lemma Split_Join l c :
  l <> [] -> Forall (fun s => c ∉ s) l -> Split (Join l c) c = l.
Proof.
  intros Hne HF. induction HF as [|s l Hs HF IH]; [done|].
  destruct l as [|s' l]; [by apply Split_none|].
  rewrite Join_cons by done. rewrite Split_app by done. f_equal. by apply IH.
Qed.

Lemma Split_no_sep s c : Forall (fun seg => c ∉ seg) (Split s c).
Proof.
  induction s as [|x s IH]; simpl; [repeat constructor; set_solver|].
  case_decide; [constructor; [set_solver|done]|].
  destruct (Split s c) as [|seg rest]; [constructor; set_solver|].
  inversion IH; subst. constructor; [set_solver|done].
Qed.

Lemma ContainsAny_spec s chars :
  ContainsAny s chars = true <-> exists x, x ∈ s /\ x ∈ chars.
Proof.
  unfold ContainsAny. rewrite existsb_exists. split.
  - intros (x & Hx & Hb). apply bool_decide_eq_true in Hb.
    exists x. by rewrite list_elem_of_In.
  - intros (x & Hx & Hb). exists x. rewrite <- list_elem_of_In. split; [done|].
    by apply bool_decide_eq_true.
Qed.

Lemma Contains_spec s sub : Contains s sub = true <-> exists a b, s = a ++ sub ++ b.
Proof.
  induction s as [|x s IH]; simpl; rewrite orb_true_iff, HasPrefix_spec.
  - split; [intros [[r Hr]|]; [by exists [], r|done]|].
    intros (a & b & H). left. symmetry in H.
    apply app_eq_nil in H as [-> [-> ->]%app_eq_nil]. by exists [].
  - rewrite IH. split.
    + intros [[r Hr]|(a & b & ->)]; [by exists [], r|by exists (x :: a), b].
    + intros ([|y a] & b & H); simpl in *; [left; by exists b|].
      right. injection H as -> ->. by exists a, b.
Qed.

End Strings.

(** * [strconv]: decimal integers *)
Module Strconv.

(** [strconv.ErrSyntax] and [strconv.ErrRange]. *)
Inductive num_error := ErrSyntax | ErrRange.

#[global] Instance num_error_eq_dec : EqDecision num_error.
Proof. solve_decision. Defined.

Definition digit_val (c : ascii) : option Z :=
  if between "0" "9" c then Some (byte_val c - 48)%Z else None.

Definition max_uint64 : Z := 2 ^ 64 - 1.
(** Smallest number such that [n * 10] overflows 64 bits. *)
Definition cutoff10 : Z := max_uint64 / 10 + 1.

(** The digit loop of [strconv.ParseUint(s, 10, 64)]: a bad byte is a syntax
    error, an overflow detected first is a range error. *)
Fixpoint parse_digits (s : gostring) (n : Z) : result num_error Z :=
  match s with
  | [] => Ok n
  | c :: s' =>
      match digit_val c with
      | None => Err ErrSyntax
      | Some d =>
          if (cutoff10 <=? n)%Z then Err ErrRange
          else if (max_uint64 <? n * 10 + d)%Z then Err ErrRange
          else parse_digits s' (n * 10 + d)%Z
      end
  end.

Definition ParseUint (s : gostring) : result num_error Z :=
  match s with
  | [] => Err ErrSyntax
  | _ => parse_digits s 0
  end.

(** [strconv.ParseInt(s, 10, 64)], and [strconv.Atoi(s)], which computes the
    same function on a 64-bit platform. *)
Definition ParseInt (s : gostring) : result num_error Z :=
  match s with
  | [] => Err ErrSyntax
  | c :: s' =>
      let '(neg, body) :=
        if decide (c = "+"%char) then (false, s')
        else if decide (c = "-"%char) then (true, s')
        else (false, s) in
      match ParseUint body with
      | Err ErrSyntax => Err ErrSyntax
      | Err ErrRange => Err ErrRange
      | Ok un =>
          if neg then if (2 ^ 63 <? un)%Z then Err ErrRange else Ok (- un)%Z
          else if (2 ^ 63 <=? un)%Z then Err ErrRange else Ok un
      end
  end.
Definition Atoi := ParseInt.

(** Decimal digits of a non-negative number; 20 digits hold every 64-bit value. *)
Fixpoint format_digits (fuel : nat) (n : Z) : gostring :=
  match fuel with
  | O => []
  | S f =>
      if (n <? 10)%Z then [chr (48 + n)]
      else format_digits f (n / 10) ++ [chr (48 + n mod 10)]
  end.

(** [strconv.Itoa(n)] and [strconv.FormatInt(n, 10)]. *)
Definition Itoa (n : Z) : gostring :=
  if (n <? 0)%Z then "-"%char :: format_digits 20 (- n) else format_digits 20 n.

Lemma digit_val_chr d : (0 <= d < 10)%Z -> digit_val (chr (48 + d)) = Some d.
Proof.
  intros Hd. unfold digit_val, between. rewrite byte_val_chr by lia.
  change (byte_val "0") with 48%Z. change (byte_val "9") with 57%Z.
  rewrite (proj2 (Z.leb_le _ _)), (proj2 (Z.leb_le _ _)) by lia. simpl. f_equal. lia.
Qed.

Lemma digit_val_Some c d :
  digit_val c = Some d -> (0 <= d < 10)%Z /\ c = chr (48 + d).
Proof.
  unfold digit_val, between. change (byte_val "0") with 48%Z.
  change (byte_val "9") with 57%Z.
  destruct (_ && _) eqn:E; [|done]. bool_hyps. intros [= <-]. split; [lia|].
  replace (48 + (byte_val c - 48))%Z with (byte_val c) by lia. by rewrite chr_byte_val.
Qed.

Lemma parse_digits_app a b n m :
  parse_digits a n = Ok m -> parse_digits (a ++ b) n = parse_digits b m.
Proof.
  revert n. induction a as [|c a IH]; intros n; simpl; [by intros [= ->]|].
  destruct (digit_val c); [|done].
  destruct (cutoff10 <=? n)%Z; [done|].
  destruct (max_uint64 <? _)%Z; [done|]. apply IH.
Qed.

Lemma parse_digits_snoc a m d :
  parse_digits a 0 = Ok m -> (0 <= d < 10)%Z -> (0 <= m)%Z ->
  (m * 10 + d <= max_uint64)%Z ->
  parse_digits (a ++ [chr (48 + d)]) 0 = Ok (m * 10 + d)%Z.
Proof.
  intros Ha Hd Hm Hle. rewrite (parse_digits_app _ _ _ _ Ha). simpl.
  rewrite digit_val_chr by done.
  change max_uint64 with 18446744073709551615%Z in *.
  change cutoff10 with 1844674407370955162%Z.
  rewrite (proj2 (Z.leb_gt _ _)) by lia.
  rewrite (proj2 (Z.ltb_ge _ _)) by lia. done.
Qed.

Lemma parse_format fuel n :
  (0 <= n < 10 ^ Z.of_nat fuel)%Z -> (0 < fuel)%nat -> (n <= max_uint64)%Z ->
  parse_digits (format_digits fuel n) 0 = Ok n.
Proof.
  revert n. induction fuel as [|f IH]; intros n Hn Hf Hmax; [lia|]. simpl.
  destruct (n <? 10)%Z eqn:E; bool_hyps.
  - pose proof (parse_digits_snoc [] 0 n eq_refl) as H. apply H; unfold max_uint64; lia.
  - rewrite Nat2Z.inj_succ, Z.pow_succ_r in Hn by lia.
    pose proof (Z.div_mod n 10) as Hdm. pose proof (Z.mod_pos_bound n 10) as Hb.
    replace n with (n / 10 * 10 + n mod 10)%Z at 3 by lia.
    apply parse_digits_snoc; [|lia|apply Z.div_pos; lia|lia].
    apply IH; [|destruct f; [simpl in Hn; lia|lia]|].
    + split; [apply Z.div_pos; lia|]. apply Z.div_lt_upper_bound; lia.
    + assert (n / 10 <= n)%Z by (apply Z.div_le_upper_bound; lia). lia.
Qed.

Lemma format_digits_all fuel n :
  (0 <= n)%Z -> Forall (fun c => is_Some (digit_val c)) (format_digits fuel n).
Proof.
  revert n. induction fuel as [|f IH]; intros n Hn; simpl; [constructor|].
  destruct (n <? 10)%Z eqn:E; bool_hyps.
  - repeat constructor. rewrite digit_val_chr by lia. by eexists.
  - apply Forall_app. split; [apply IH, Z.div_pos; lia|].
    repeat constructor. pose proof (Z.mod_pos_bound n 10).
    rewrite digit_val_chr by lia. by eexists.
Qed.

Lemma format_digits_nonempty fuel n : (0 < fuel)%nat -> format_digits fuel n <> [].
Proof.
  destruct fuel; [lia|]. intros _. simpl. destruct (n <? 10)%Z; [done|].
  intros [_ ?]%app_eq_nil. done.
Qed.

(** [Atoi] reads back what [Itoa] writes, over the whole int64 range. *)
Lemma ParseInt_Itoa n : in_int64 n -> ParseInt (Itoa n) = Ok n.
Proof.
  unfold in_int64, int64_min, int64_max. intros Hn. unfold Itoa.
  destruct (n <? 0)%Z eqn:E; bool_hyps.
  - unfold ParseInt. case_decide; [done|]. case_decide; [|done]. unfold ParseUint.
    pose proof (format_digits_nonempty 20 (- n) ltac:(lia)).
    destruct (format_digits 20 (- n)) eqn:Ef; [done|]. rewrite <- Ef.
    rewrite parse_format by (unfold max_uint64; simpl; lia).
    rewrite (proj2 (Z.ltb_ge (2 ^ 63) (- n))) by lia. f_equal. lia.
  - pose proof (format_digits_nonempty 20 n ltac:(lia)).
    pose proof (format_digits_all 20 n ltac:(lia)) as Hd.
    assert (parse_digits (format_digits 20 n) 0 = Ok n) as Hp
      by (apply parse_format; unfold max_uint64; simpl; lia).
    destruct (format_digits 20 n) as [|c l] eqn:Ef; [done|].
    apply Forall_cons in Hd as [[d Hc] _].
    unfold ParseInt. rewrite !decide_False by (intros ->; by vm_compute in Hc).
    unfold ParseUint. rewrite Hp. rewrite (proj2 (Z.leb_gt _ _)) by lia. done.
Qed.

(** What [ParseInt] accepts fits in 64 bits. *)
Lemma parse_digits_bounds s n m :
  (0 <= n)%Z -> parse_digits s n = Ok m -> (0 <= m)%Z.
Proof.
  revert n. induction s as [|c s IH]; intros n Hn; simpl; [by intros [= <-]|].
  destruct (digit_val c) as [d|] eqn:Ed; [|done].
  apply digit_val_Some in Ed as [Ed _].
  destruct (cutoff10 <=? n)%Z; [done|].
  destruct (max_uint64 <? _)%Z; [done|]. apply IH. lia.
Qed.

Lemma ParseUint_nonneg s n : ParseUint s = Ok n -> (0 <= n)%Z.
Proof. destruct s; [done|]. by apply parse_digits_bounds. Qed.

Lemma ParseInt_range s n : ParseInt s = Ok n -> in_int64 n.
Proof.
  unfold ParseInt, in_int64, int64_min, int64_max.
  destruct s as [|c s]; [done|]. repeat case_decide;
  match goal with |- context [ParseUint ?b] => destruct (ParseUint b) as [un|[]] eqn:Eu end;
  try done.
  all: apply ParseUint_nonneg in Eu.
  all: match goal with |- context [if ?b then _ else _] => destruct b eqn:Eb end;
    bool_hyps; intros [= <-]; lia.
Qed.

(** The characters of a formatted number. *)
Lemma Itoa_chars n c : (0 <= n)%Z -> c ∈ Itoa n -> is_Some (digit_val c).
Proof.
  intros Hn. unfold Itoa. rewrite (proj2 (Z.ltb_ge _ _)) by lia.
  pose proof (format_digits_all 20 n Hn) as H. rewrite Forall_forall in H. apply H.
Qed.

Lemma Itoa_nonempty n : Itoa n <> [].
Proof. unfold Itoa. destruct (n <? 0)%Z; [done|]. apply format_digits_nonempty. lia. Qed.

End Strconv.
