(* ===== verification/Regex.v ===== *)
(** * Regular expressions

    The sources validate names with anchored regular expressions
    ([regexp.MustCompile]): interface names ([src/pkg/interfaceschema/parse.go],
    [src/internal/engine/triggers/match.go]), trigger paths and policy names.
    This file gives an executable matcher by derivatives and its language,
    so that the expressions are written down as the sources spell them. *)

From S2P Require Import Prelude GoStrings.

Module Regex.

Inductive re :=
| Eps
| Chr (p : ascii -> bool)
| Cat (r1 r2 : re)
| Alt (r1 r2 : re)
| Star (r : re)
| Void.

(** [r+], [r?], [r{m,n}] and literals. *)
Definition Plus (r : re) : re := Cat r (Star r).
Definition Opt (r : re) : re := Alt r Eps.
Fixpoint Rep (r : re) (m n : nat) : re :=
  match m, n with
  | S m, S n => Cat r (Rep r m n)
  | O, S n => Opt (Cat r (Rep r O n))
  | O, O => Eps
  | S _, O => Void
  end.
Definition Lit (c : ascii) : re := Chr (fun x => bool_decide (x = c)).
Fixpoint Str (s : gostring) : re :=
  match s with
  | [] => Eps
  | c :: s => Cat (Lit c) (Str s)
  end.

(** ** The language of an expression *)
Inductive lang : re -> gostring -> Prop :=
| lang_eps : lang Eps []
| lang_chr p c : p c = true -> lang (Chr p) [c]
| lang_cat r1 r2 s1 s2 : lang r1 s1 -> lang r2 s2 -> lang (Cat r1 r2) (s1 ++ s2)
| lang_alt_l r1 r2 s : lang r1 s -> lang (Alt r1 r2) s
| lang_alt_r r1 r2 s : lang r2 s -> lang (Alt r1 r2) s
| lang_star_nil r : lang (Star r) []
| lang_star_app r s1 s2 : lang r s1 -> lang (Star r) s2 -> lang (Star r) (s1 ++ s2).

(** ** The matcher *)
Fixpoint nullable (r : re) : bool :=
  match r with
  | Eps | Star _ => true
  | Chr _ | Void => false
  | Cat r1 r2 => nullable r1 && nullable r2
  | Alt r1 r2 => nullable r1 || nullable r2
  end.

Fixpoint deriv (c : ascii) (r : re) : re :=
  match r with
  | Eps | Void => Void
  | Chr p => if p c then Eps else Void
  | Cat r1 r2 =>
      if nullable r1 then Alt (Cat (deriv c r1) r2) (deriv c r2)
      else Cat (deriv c r1) r2
  | Alt r1 r2 => Alt (deriv c r1) (deriv c r2)
  | Star r => Cat (deriv c r) (Star r)
  end.

(** [re.MatchString(s)] for an expression anchored at both ends. *)
Fixpoint MatchString (r : re) (s : gostring) : bool :=
  match s with
  | [] => nullable r
  | c :: s => MatchString (deriv c r) s
  end.

Lemma nullable_spec r : nullable r = true <-> lang r [].
Proof.
  induction r; simpl.
  - split; [constructor|done].
  - split; [done|]. inversion 1.
  - rewrite andb_true_iff, IHr1, IHr2. split.
    + intros [H1 H2]. by apply (lang_cat _ _ [] []).
    + inversion 1 as [| |? ? s1 s2 H1 H2 Heq Hnil| | | |]; subst.
      apply app_eq_nil in Hnil as [-> ->]. done.
  - rewrite orb_true_iff, IHr1, IHr2. split.
    + intros [?|?]; [by apply lang_alt_l|by apply lang_alt_r].
    + inversion 1; auto.
  - split; [constructor|done].
  - split; [done|]. inversion 1.
Qed.

Lemma lang_star_cons r c s :
  lang (Star r) (c :: s) -> exists s1 s2, s = s1 ++ s2 /\ lang r (c :: s1) /\ lang (Star r) s2.
Proof.
  intros H. remember (Star r) as r' eqn:Er. remember (c :: s) as s' eqn:Es.
  revert c s Es. induction H as [| | | | | |r0 s1 s2 H1 _ H2 IH2]; try done.
  injection Er as ->. intros c s Es. destruct s1 as [|x s1]; simpl in Es.
  - by apply IH2.
  - injection Es as -> <-. by exists s1, s2.
Qed.

Lemma deriv_spec r c s : lang (deriv c r) s <-> lang r (c :: s).
Proof.
  revert s. induction r as [|p|r1 IH1 r2 IH2|r1 IH1 r2 IH2|r IH|]; intros s; simpl.
  - split; inversion 1.
  - destruct (p c) eqn:E.
    + split; inversion 1; subst; by constructor.
    + split; inversion 1; subst; congruence.
  - assert (lang (Cat (deriv c r1) r2) s \/ (lang r1 [] /\ lang (deriv c r2) s)
            <-> lang (Cat r1 r2) (c :: s)) as H.
    { split.
      - intros [H|[Hn H]].
        + inversion H as [| |? ? s1 s2 H1 H2| | | |]; subst.
          apply IH1 in H1. by apply (lang_cat _ _ (c :: s1) s2).
        + apply IH2 in H. by apply (lang_cat _ _ [] (c :: s)).
      - inversion 1 as [| |? ? s1 s2 H1 H2 Heq Hs| | | |]; subst.
        destruct s1 as [|x s1]; simpl in Hs; simplify_eq.
        + right. split; [done|]. by apply IH2.
        + left. constructor; [by apply IH1|done]. }
    rewrite <- H. destruct (nullable r1) eqn:E.
    + split.
      * inversion 1; subst; [by left|right]. split; [by apply nullable_spec|done].
      * intros [H1|[_ H1]]; [by apply lang_alt_l|by apply lang_alt_r].
    + split; [by left|]. intros [H1|[Hn _]]; [done|].
      apply nullable_spec in Hn. congruence.
  - split; inversion 1; subst.
    + apply lang_alt_l. by apply IH1.
    + apply lang_alt_r. by apply IH2.
    + apply lang_alt_l. by apply IH1.
    + apply lang_alt_r. by apply IH2.
  - split.
    + inversion 1 as [| |? ? s1 s2 H1 H2| | | |]; subst.
      apply (lang_star_app _ (c :: s1) s2); [by apply IH|done].
    + intros H. apply lang_star_cons in H as (s1 & s2 & -> & H1 & H2).
      constructor; [by apply IH|done].
  - split; inversion 1.
Qed.

(** The matcher decides the language. *)
Lemma MatchString_spec r s : MatchString r s = true <-> lang r s.
Proof.
  revert r. induction s as [|c s IH]; intros r; simpl; [apply nullable_spec|].
  rewrite IH. apply deriv_spec.
Qed.

(** ** Inversion of the combinators *)
Lemma lang_chr_inv p s : lang (Chr p) s <-> exists c, s = [c] /\ p c = true.
Proof.
  split; [inversion 1; subst; eauto|]. intros (c & -> & H). by constructor.
Qed.

Lemma lang_cat_inv r1 r2 s :
  lang (Cat r1 r2) s <-> exists s1 s2, s = s1 ++ s2 /\ lang r1 s1 /\ lang r2 s2.
Proof.
  split; [inversion 1; subst; eauto|]. intros (s1 & s2 & -> & ? & ?). by constructor.
Qed.

Lemma lang_alt_inv r1 r2 s : lang (Alt r1 r2) s <-> lang r1 s \/ lang r2 s.
Proof.
  split; [inversion 1; subst; eauto|]. intros [?|?]; [by apply lang_alt_l|by apply lang_alt_r].
Qed.

Lemma lang_eps_inv s : lang Eps s <-> s = [].
Proof. split; [by inversion 1|]. intros ->. constructor. Qed.

Lemma lang_lit_inv c s : lang (Lit c) s <-> s = [c].
Proof.
  unfold Lit. rewrite lang_chr_inv. split.
  - intros (x & -> & H). bool_hyps. by subst.
  - intros ->. exists c. by rewrite bool_decide_eq_true.
Qed.

(** Iterating a character class. *)
Lemma lang_star_chr p s : lang (Star (Chr p)) s <-> Forall (fun c => p c = true) s.
Proof.
  split.
  - intros H. remember (Star (Chr p)) as r eqn:Er.
    induction H as [| | | | | |r0 s1 s2 H1 _ H2 IH2]; try done.
    injection Er as ->. apply lang_chr_inv in H1 as (c & -> & Hc).
    simpl. constructor; [done|by apply IH2].
  - induction 1 as [|c s Hc _ IH]; [constructor|].
    apply (lang_star_app _ [c] s); [by constructor|done].
Qed.

Lemma lang_str_inv s x : lang (Str s) x <-> x = s.
Proof.
  revert x. induction s as [|c s IH]; intros x; simpl; [apply lang_eps_inv|].
  rewrite lang_cat_inv. split.
  - by intros (a & b & -> & ->%lang_lit_inv & ->%IH).
  - intros ->. exists [c], s. split_and!; [done|by apply lang_lit_inv|by apply IH].
Qed.

(** A bounded repetition: a concatenation of as many words. *)
Lemma lang_rep r m n s : lang (Rep r m n) s <->
  exists l, s = concat l /\ m <= length l <= n /\ Forall (lang r) l.
Proof.
  revert m s. induction n as [|n IH]; intros [|m] s; simpl.
  - rewrite lang_eps_inv. split; [intros ->; by exists []|].
    intros (l & -> & Hl & _). destruct l; simpl in *; [done|lia].
  - split; [by inversion 1|]. intros (l & _ & Hl & _). lia.
  - unfold Opt. rewrite lang_alt_inv, lang_cat_inv, lang_eps_inv. split.
    + intros [(a & b & -> & Ha & (l & -> & Hl & HF)%IH) | ->].
      * exists (a :: l). split; [done|]. simpl. split; [lia|by constructor].
      * exists []. simpl. split; [done|]. split; [lia|done].
    + intros (l & -> & Hl & HF). destruct HF as [|a l Ha HF]; [by right|left].
      exists a, (concat l). split_and!; [done..|]. apply IH. exists l. simpl in Hl. split; [done|]. split; [lia|done].
  - rewrite lang_cat_inv. split.
    + intros (a & b & -> & Ha & (l & -> & Hl & HF)%IH).
      exists (a :: l). split; [done|]. simpl. split; [lia|by constructor].
    + intros (l & -> & Hl & HF). destruct HF as [|a l Ha HF]; simpl in Hl; [lia|].
      exists a, (concat l). split_and!; [done..|]. apply IH. exists l. split; [done|]. split; [lia|done].
Qed.

Lemma lang_rep_chr p m n s : lang (Rep (Chr p) m n) s <->
  m <= length s <= n /\ Forall (fun c => p c = true) s.
Proof.
  rewrite lang_rep. split.
  - intros (l & -> & Hl & HF).
    assert (length (concat l) = length l /\ Forall (fun c => p c = true) (concat l)) as [E ?].
    { clear Hl. induction HF as [|a l (c & -> & Hc)%lang_chr_inv HF [IH1 IH2]]; [done|].
      simpl. split; [lia|by constructor]. }
    by rewrite E.
  - intros [Hl HF]. exists (map (fun c => [c]) s). rewrite length_map. split_and!; [|lia|lia|].
    + clear. induction s; simpl; congruence.
    + apply Forall_map. eapply Forall_impl; [exact HF|]. intros c Hc. apply lang_chr_inv. eauto.
Qed.

(** Iterating any expression: a concatenation of words of it. *)
Lemma lang_star_concat r s :
  lang (Star r) s <-> exists l, s = concat l /\ Forall (lang r) l.
Proof.
  split.
  - intros H. remember (Star r) as r' eqn:Er.
    induction H as [| | | | | |r0 s1 s2 H1 _ H2 IH2]; try done.
    + exists []. by split.
    + injection Er as ->. destruct (IH2 eq_refl) as (l & -> & Hl).
      exists (s1 :: l). split; [done|by constructor].
  - intros (l & -> & Hl). induction Hl as [|s1 l H1 _ IH]; simpl; [constructor|].
    by apply lang_star_app.
Qed.

(** Every byte of a word belongs to a class when every class of the
    expression is inside it. *)
Fixpoint within (q : ascii -> bool) (r : re) : bool :=
  match r with
  | Eps | Void => true
  | Chr p => forallb (fun c => implb (p c) (q c)) all_bytes
  | Cat r1 r2 | Alt r1 r2 => within q r1 && within q r2
  | Star r => within q r
  end.

Lemma within_spec q r s : within q r = true -> lang r s -> Forall (fun c => q c = true) s.
Proof.
  intros Hw H. induction H; cbn [within] in Hw; bool_hyps; auto.
  - pose proof (all_bytes_forall _ Hw c) as Hc. simpl in Hc. rewrite H in Hc. auto.
  - apply Forall_app. auto.
  - apply Forall_app. auto.
Qed.

End Regex.
