(* ===== verification/DeviceID.v ===== *)
(** * Device identifiers ([src/pkg/deviceid/deviceid.go])

    The 128-bit Astarte device ID and its two textual forms: the
    22-character strict unpadded base64url wire form ([Parse], [String]) and
    the canonical UUID form ([FromUUID], [UUID]); the version-4 and
    version-5 constructors ([Random], [FromNamespace]). The Go packages
    [encoding/base64] and [encoding/hex] are modelled as far as they are
    used; the entropy source and SHA-1 are arguments. *)

From S2P Require Import Prelude GoStrings.

(** ** [encoding/base64]: [RawURLEncoding.Strict()] *)
Module Base64.

Definition alphabet : gostring :=
  "ABCDEFGHIJKLMNOPQRSTUVWXYZabcdefghijklmnopqrstuvwxyz0123456789-_"%go.

Definition enc_char (v : Z) : ascii := nth (Z.to_nat v) alphabet "A"%char.
Definition dec_char (c : ascii) : option Z := Z.of_nat <$> Strings.IndexByte alphabet c.

#[global] Arguments enc_char : simpl never.
#[global] Arguments dec_char : simpl never.

(** [EncodeToString] without padding: three bytes become four characters, a
    trailing byte two and two trailing bytes three. *)
Fixpoint encode (bs : gostring) : gostring :=
  match bs with
  | b0 :: b1 :: b2 :: rest =>
      let v := (byte_val b0 * 65536 + byte_val b1 * 256 + byte_val b2)%Z in
      enc_char (v / 262144) :: enc_char (v / 4096 mod 64)
        :: enc_char (v / 64 mod 64) :: enc_char (v mod 64) :: encode rest
  | [b0; b1] =>
      let v := (byte_val b0 * 65536 + byte_val b1 * 256)%Z in
      [enc_char (v / 262144); enc_char (v / 4096 mod 64); enc_char (v / 64 mod 64)]
  | [b0] =>
      let v := (byte_val b0 * 65536)%Z in
      [enc_char (v / 262144); enc_char (v / 4096 mod 64)]
  | [] => []
  end.

(** The decoder skips carriage returns and line feeds, in strict mode too. *)
Definition is_newline (c : ascii) : bool :=
  bool_decide (c = chr 10) || bool_decide (c = chr 13).

(** [decodeQuantum] over the remaining characters: four characters give three
    bytes; a short final quantum must have its unused bits zero (strict). *)
Fixpoint decode_quanta (s : gostring) : option gostring :=
  match s with
  | [] => Some []
  | c0 :: c1 :: c2 :: c3 :: rest =>
      v0 ← dec_char c0; v1 ← dec_char c1; v2 ← dec_char c2; v3 ← dec_char c3;
      let v := (v0 * 262144 + v1 * 4096 + v2 * 64 + v3)%Z in
      tl ← decode_quanta rest;
      Some (chr (v / 65536) :: chr (v / 256 mod 256) :: chr (v mod 256) :: tl)
  | [c0; c1; c2] =>
      v0 ← dec_char c0; v1 ← dec_char c1; v2 ← dec_char c2;
      let v := (v0 * 262144 + v1 * 4096 + v2 * 64)%Z in
      if (v mod 256 =? 0)%Z then Some [chr (v / 65536); chr (v / 256 mod 256)] else None
  | [c0; c1] =>
      v0 ← dec_char c0; v1 ← dec_char c1;
      let v := (v0 * 262144 + v1 * 4096)%Z in
      if (v mod 65536 =? 0)%Z then Some [chr (v / 65536)] else None
  | [_] => None
  end.

Definition decode (s : gostring) : option gostring :=
  decode_quanta (filter (fun c => is_newline c = false) s).

Lemma dec_enc_char v : (0 <= v < 64)%Z -> dec_char (enc_char v) = Some v.
Proof.
  intros Hv. apply (bool_decide_eq_true (dec_char (enc_char v) = Some v)).
  revert v Hv. apply seqZ_forall. vm_compute. reflexivity.
Qed.

Lemma enc_dec_char c v : dec_char c = Some v -> enc_char v = c /\ (0 <= v < 64)%Z.
Proof.
  assert (forallb (fun c => match dec_char c with
      | Some v => bool_decide (enc_char v = c) && (0 <=? v)%Z && (v <? 64)%Z
      | None => true end) all_bytes = true) as H by (vm_compute; reflexivity).
  intros Hc. pose proof (all_bytes_forall _ H c) as Hp. simpl in Hp. rewrite Hc in Hp.
  clear H. bool_hyps. done.
Qed.

Lemma enc_char_not_newline v : (0 <= v < 64)%Z -> is_newline (enc_char v) = false.
Proof.
  intros Hv. apply negb_true_iff. revert v Hv.
  apply (seqZ_forall (fun v => negb (is_newline (enc_char v)))). vm_compute. reflexivity.
Qed.

(** Induction three bytes, or four characters, at a time. *)
Lemma chunk3_ind (P : gostring -> Prop) :
  P [] -> (forall a, P [a]) -> (forall a b, P [a; b]) ->
  (forall a b c l, P l -> P (a :: b :: c :: l)) -> forall l, P l.
Proof.
  intros H0 H1 H2 H3 l.
  enough (P l /\ (forall a, P (a :: l)) /\ (forall a b, P (a :: b :: l))) by tauto.
  induction l as [|x l (IH1 & IH2 & IH3)]; auto.
Qed.

Lemma chunk4_ind (P : gostring -> Prop) :
  P [] -> (forall a, P [a]) -> (forall a b, P [a; b]) -> (forall a b c, P [a; b; c]) ->
  (forall a b c d l, P l -> P (a :: b :: c :: d :: l)) -> forall l, P l.
Proof.
  intros H0 H1 H2 H3 H4 l.
  enough (P l /\ (forall a, P (a :: l)) /\ (forall a b, P (a :: b :: l))
    /\ (forall a b c, P (a :: b :: c :: l))) by tauto.
  induction l as [|x l (IH1 & IH2 & IH3 & IH4)]; auto.
Qed.

Ltac bytes_pos :=
  repeat match goal with
  | b : ascii |- _ =>
      lazymatch goal with
      | _ : (0 <= byte_val b < 256)%Z |- _ => fail
      | _ => pose proof (byte_val_range b)
      end
  end.

Ltac arith := Z.to_euclidean_division_equations; lia.

(** The two views of a 24-bit quantum: three bytes and four sextets. *)
Lemma quantum_bytes b0 b1 b2 :
  (0 <= b0 < 256)%Z -> (0 <= b1 < 256)%Z -> (0 <= b2 < 256)%Z ->
  let v := (b0 * 65536 + b1 * 256 + b2)%Z in
  (0 <= v < 16777216)%Z /\ (v / 65536 = b0)%Z /\ (v / 256 mod 256 = b1)%Z
  /\ (v mod 256 = b2)%Z.
Proof. intros ??? v. subst v. repeat split; arith. Qed.

Lemma quantum_sextets v0 v1 v2 v3 :
  (0 <= v0 < 64)%Z -> (0 <= v1 < 64)%Z -> (0 <= v2 < 64)%Z -> (0 <= v3 < 64)%Z ->
  let v := (v0 * 262144 + v1 * 4096 + v2 * 64 + v3)%Z in
  (0 <= v < 16777216)%Z /\ (v / 262144 = v0)%Z /\ (v / 4096 mod 64 = v1)%Z
  /\ (v / 64 mod 64 = v2)%Z /\ (v mod 64 = v3)%Z.
Proof. intros ???? v. subst v. repeat split; arith. Qed.

Lemma quantum_split v :
  (0 <= v < 16777216)%Z ->
  (v / 262144 * 262144 + v / 4096 mod 64 * 4096 + v / 64 mod 64 * 64 + v mod 64 = v)%Z
  /\ (v / 65536 * 65536 + v / 256 mod 256 * 256 + v mod 256 = v)%Z
  /\ (0 <= v / 262144 < 64)%Z /\ (0 <= v / 65536 < 256)%Z.
Proof. intros ?. repeat split; arith. Qed.

Lemma decode_quanta_encode bs : decode_quanta (encode bs) = Some bs.
Proof.
  induction bs as [|b0|b0 b1|b0 b1 b2 bs IH] using chunk3_ind; [done|..];
    cbn -[Z.mul Z.div Z.modulo Z.eqb];
    pose proof (byte_val_range b0) as H0; try pose proof (byte_val_range b1) as H1;
    try pose proof (byte_val_range b2) as H2.
  - destruct (quantum_bytes (byte_val b0) 0 0) as (Hv & E0 & E1 & E2); [lia..|].
    replace (byte_val b0 * 65536 + 0 * 256 + 0)%Z with (byte_val b0 * 65536)%Z in * by lia.
    set (v := (byte_val b0 * 65536)%Z) in *.
    destruct (quantum_split v Hv) as (Hs & _ & Hr & _).
    rewrite !dec_enc_char by (try apply Z.mod_pos_bound; lia). simpl.
    replace (v / 262144 * 262144 + v / 4096 mod 64 * 4096)%Z with v by (subst v; arith).
    rewrite (proj2 (Z.eqb_eq (v mod 65536) 0)) by (subst v; arith).
    by rewrite E0, chr_byte_val.
  - destruct (quantum_bytes (byte_val b0) (byte_val b1) 0) as (Hv & E0 & E1 & E2); [lia..|].
    rewrite Z.add_0_r in *.
    set (v := (byte_val b0 * 65536 + byte_val b1 * 256)%Z) in *.
    destruct (quantum_split v Hv) as (Hs & _ & Hr & _).
    rewrite !dec_enc_char by (try apply Z.mod_pos_bound; lia). simpl.
    replace (v / 262144 * 262144 + v / 4096 mod 64 * 4096 + v / 64 mod 64 * 64)%Z
      with v by (subst v; arith).
    rewrite E2, E0, E1, !chr_byte_val. done.
  - destruct (quantum_bytes (byte_val b0) (byte_val b1) (byte_val b2))
      as (Hv & E0 & E1 & E2); [lia..|].
    set (v := (byte_val b0 * 65536 + byte_val b1 * 256 + byte_val b2)%Z) in *.
    destruct (quantum_split v Hv) as (Hs & _ & Hr & _).
    rewrite !dec_enc_char by (try apply Z.mod_pos_bound; lia). simpl.
    rewrite Hs, E0, E1, E2, !chr_byte_val, IH. done.
Qed.

(** Every character sequence the strict decoder accepts is the encoding of
    what it decodes to. *)
Lemma encode_decode_quanta s bs : decode_quanta s = Some bs -> encode bs = s.
Proof.
  revert bs. induction s as [|c0|c0 c1|c0 c1 c2|c0 c1 c2 c3 s IH] using chunk4_ind;
    intros bs; cbn -[Z.mul Z.div Z.modulo Z.eqb]; intros H; [by injection H as <-|done|..];
    apply bind_Some in H as (v0 & [<- H0]%enc_dec_char & H);
    apply bind_Some in H as (v1 & [<- H1]%enc_dec_char & H);
    [|apply bind_Some in H as (v2 & [<- H2]%enc_dec_char & H)..].
  - destruct (quantum_sextets v0 v1 0 0) as (Hv & E0 & E1 & E2 & E3); [lia..|].
    replace (v0 * 262144 + v1 * 4096 + 0 * 64 + 0)%Z
      with (v0 * 262144 + v1 * 4096)%Z in * by lia.
    set (v := (v0 * 262144 + v1 * 4096)%Z) in *. clearbody v.
    destruct (_ =? _)%Z eqn:E; [|done]. bool_hyps. injection H as <-.
    cbn -[Z.mul Z.div Z.modulo]. destruct (quantum_split v Hv) as (_ & _ & _ & Hr).
    rewrite byte_val_chr by done.
    replace (v / 65536 * 65536)%Z with v by arith. by rewrite E0, E1.
  - destruct (quantum_sextets v0 v1 v2 0) as (Hv & E0 & E1 & E2 & E3); [lia..|].
    rewrite Z.add_0_r in *.
    set (v := (v0 * 262144 + v1 * 4096 + v2 * 64)%Z) in *. clearbody v.
    destruct (_ =? _)%Z eqn:E; [|done]. bool_hyps. injection H as <-.
    cbn -[Z.mul Z.div Z.modulo]. destruct (quantum_split v Hv) as (_ & Hs & _ & Hr).
    rewrite !byte_val_chr by (try apply Z.mod_pos_bound; lia).
    replace (v / 65536 * 65536 + v / 256 mod 256 * 256)%Z with v by lia.
    by rewrite E0, E1, E2.
  - apply bind_Some in H as (v3 & [<- H3]%enc_dec_char & H).
    apply bind_Some in H as (tl & Htl & [= <-]). apply IH in Htl as <-.
    destruct (quantum_sextets v0 v1 v2 v3) as (Hv & E0 & E1 & E2 & E3); [lia..|].
    set (v := (v0 * 262144 + v1 * 4096 + v2 * 64 + v3)%Z) in *. clearbody v.
    cbn -[Z.mul Z.div Z.modulo]. destruct (quantum_split v Hv) as (_ & Hs & _ & Hr).
    rewrite !byte_val_chr by (try apply Z.mod_pos_bound; lia).
    by rewrite Hs, E0, E1, E2, E3.
Qed.

Lemma length_encode16 bs : length bs = 16 -> length (encode bs) = 22.
Proof. intros H. do 17 (destruct bs as [|? bs]; try done). Qed.

Lemma length_decode_quanta s bs :
  decode_quanta s = Some bs -> (length s * 3 = length bs * 4)%nat
    \/ (length s * 3 = length bs * 4 + 2)%nat \/ (length s * 3 = length bs * 4 + 1)%nat.
Proof.
  intros H. apply encode_decode_quanta in H as <-.
  induction bs as [|b0|b0 b1|b0 b1 b2 bs IH] using chunk3_ind; simpl in *; lia.
Qed.

Lemma encode_no_newline bs : Forall (fun c => is_newline c = false) (encode bs).
Proof.
  induction bs as [|b0|b0 b1|b0 b1 b2 bs IH] using chunk3_ind;
    cbn -[Z.mul Z.div Z.modulo Z.add]; [constructor|..];
    pose proof (byte_val_range b0) as H0; try pose proof (byte_val_range b1) as H1;
    try pose proof (byte_val_range b2) as H2;
    repeat first [exact IH | constructor];
    apply enc_char_not_newline; first [apply Z.mod_pos_bound; lia | arith].
Qed.

(** Every character of an encoding belongs to the alphabet. *)
Lemma enc_char_alphabet v : enc_char v ∈ alphabet.
Proof.
  unfold enc_char. destruct (nth_in_or_default (Z.to_nat v) alphabet "A"%char) as [H| ->].
  - by apply list_elem_of_In.
  - left.
Qed.

Lemma encode_alphabet bs : Forall (fun c => c ∈ alphabet) (encode bs).
Proof.
  induction bs as [|b0|b0 b1|b0 b1 b2 bs IH] using chunk3_ind;
    cbn -[Z.mul Z.div Z.modulo Z.add alphabet];
    repeat first [exact IH | apply enc_char_alphabet | constructor].
Qed.

Lemma decode_encode bs : decode (encode bs) = Some bs.
Proof.
  unfold decode. rewrite filter_all by apply encode_no_newline.
  apply decode_quanta_encode.
Qed.

End Base64.

(** ** [encoding/hex] *)
Module Hex.

Definition digits : gostring := "0123456789abcdef"%go.
Definition enc_nibble (v : Z) : ascii := nth (Z.to_nat v) digits "0"%char.

(** [reverseHexTable]: both cases are accepted. *)
Definition dec_nibble (c : ascii) : option Z :=
  if between "0" "9" c then Some (byte_val c - 48)%Z
  else if between "a" "f" c then Some (byte_val c - 87)%Z
  else if between "A" "F" c then Some (byte_val c - 55)%Z
  else None.

#[global] Arguments enc_nibble : simpl never.
#[global] Arguments dec_nibble : simpl never.

Fixpoint encode (bs : gostring) : gostring :=
  match bs with
  | [] => []
  | b :: bs => enc_nibble (byte_val b / 16) :: enc_nibble (byte_val b mod 16) :: encode bs
  end.

(** [hex.Decode]: an odd number of digits or a bad digit is an error. *)
Fixpoint decode (s : gostring) : option gostring :=
  match s with
  | [] => Some []
  | [_] => None
  | h :: l :: s =>
      vh ← dec_nibble h; vl ← dec_nibble l; tl ← decode s;
      Some (chr (vh * 16 + vl) :: tl)
  end.

(** The lower-case form of a hexadecimal digit. *)
Definition lower (c : ascii) : ascii :=
  if between "A" "F" c then chr (byte_val c + 32) else c.

Lemma dec_enc_nibble v : (0 <= v < 16)%Z -> dec_nibble (enc_nibble v) = Some v.
Proof.
  intros Hv. apply (bool_decide_eq_true (dec_nibble (enc_nibble v) = Some v)).
  revert v Hv. apply seqZ_forall. vm_compute. reflexivity.
Qed.

Lemma enc_dec_nibble c v :
  dec_nibble c = Some v -> enc_nibble v = lower c /\ (0 <= v < 16)%Z /\ c <> "-"%char.
Proof.
  assert (forallb (fun c => match dec_nibble c with
      | Some v => bool_decide (enc_nibble v = lower c) && (0 <=? v)%Z && (v <? 16)%Z
                  && negb (bool_decide (c = "-"%char))
      | None => true end) all_bytes = true) as H by (vm_compute; reflexivity).
  intros Hc. pose proof (all_bytes_forall _ H c) as Hp. simpl in Hp. rewrite Hc in Hp.
  clear H. bool_hyps. done.
Qed.

Lemma hex_decode_encode bs : decode (encode bs) = Some bs.
Proof.
  induction bs as [|b bs IH]; [done|]. cbn -[Z.mul Z.div Z.modulo].
  pose proof (byte_val_range b).
  rewrite !dec_enc_nibble by (try apply Z.mod_pos_bound; Base64.arith). simpl.
  rewrite IH. simpl. do 2 f_equal. apply byte_val_inj.
  rewrite byte_val_chr; Base64.arith.
Qed.

Lemma encode_decode s bs : decode s = Some bs -> encode bs = map lower s.
Proof.
  revert bs.
  enough (forall n s bs, length s <= n -> decode s = Some bs -> encode bs = map lower s)
    as H by (intros bs; eauto).
  clear s. induction n as [|n IH]; intros s bs Hl.
  { destruct s; simpl in *; [by intros [= <-]|lia]. }
  destruct s as [|h [|l s]]; simpl in *; [by intros [= <-]|done|].
  intros H. apply bind_Some in H as (vh & (Eh & Hh & _)%enc_dec_nibble & H).
  apply bind_Some in H as (vl & (El & Hv & _)%enc_dec_nibble & H).
  apply bind_Some in H as (tl & Htl & [= <-]).
  cbn -[Z.mul Z.div Z.modulo]. rewrite byte_val_chr by lia.
  replace ((vh * 16 + vl) / 16)%Z with vh by Base64.arith.
  replace ((vh * 16 + vl) mod 16)%Z with vl by Base64.arith.
  rewrite Eh, El. do 2 f_equal. apply IH; [lia|done].
Qed.

Lemma length_encode bs : length (encode bs) = 2 * length bs.
Proof. induction bs; simpl; lia. Qed.

Lemma length_decode s bs : decode s = Some bs -> length s = 2 * length bs.
Proof.
  intros H. apply encode_decode in H. rewrite <- length_encode, H. by rewrite length_map.
Qed.

End Hex.

(** ** The package *)
Module DeviceID.

(** [type ID [16]byte]: sixteen bytes. *)
Abbreviation ID := (list ascii).
Definition wf_id (id : ID) : Prop := length id = 16.

Definition EncodedLen : nat := 22.

(** Every error wraps [ErrInvalid]; the constructors are the causes. *)
Inductive id_error :=
| ErrCharacters (got : nat)
| ErrNotBase64
| ErrDecodedBytes (got : nat)
| ErrNotUUID.

#[global] Instance id_error_eq_dec : EqDecision id_error.
Proof. solve_decision. Defined.

Definition Parse (s : gostring) : result id_error ID :=
  if negb (length s =? EncodedLen)%nat then Err (ErrCharacters (length s))
  else match Base64.decode s with
       | None => Err ErrNotBase64
       | Some bs =>
           if negb (length bs =? 16)%nat then Err (ErrDecodedBytes (length bs)) else Ok bs
       end.

Definition String (id : ID) : gostring := Base64.encode id.

(** Go's [s[i:j]] within range. *)
Definition slice (s : gostring) (i j : nat) : gostring := take (j - i) (drop i s).

Definition dash_at (s : gostring) (i : nat) : bool := bool_decide (s !! i = Some "-"%char).

(** The loop over the five groups: each is decoded after the previous. *)
Fixpoint decode_groups (groups : list gostring) : option gostring :=
  match groups with
  | [] => Some []
  | g :: groups =>
      bs ← Hex.decode g; rest ← decode_groups groups; Some (bs ++ rest)
  end.

Definition uuid_groups (s : gostring) : list gostring :=
  [slice s 0 8; slice s 9 13; slice s 14 18; slice s 19 23; slice s 24 36].

Definition FromUUID (s : gostring) : result id_error ID :=
  if negb (length s =? 36)%nat || negb (dash_at s 8) || negb (dash_at s 13)
     || negb (dash_at s 18) || negb (dash_at s 23)
  then Err ErrNotUUID
  else or_err (decode_groups (uuid_groups s)) ErrNotUUID.

Definition UUID (id : ID) : gostring :=
  Hex.encode (slice id 0 4) ++ "-"%char :: Hex.encode (slice id 4 6) ++ "-"%char
    :: Hex.encode (slice id 6 8) ++ "-"%char :: Hex.encode (slice id 8 10) ++ "-"%char
    :: Hex.encode (slice id 10 16).

(** [id[6] = (id[6] & 0x0f) | version] and [id[8] = (id[8] & 0x3f) | 0x80]. *)
Definition set_byte (f : Z -> Z) (c : ascii) : ascii := chr (f (byte_val c)).
Definition stamp (version : Z) (id : ID) : ID :=
  alter (set_byte (fun b => Z.lor (Z.land b 63) 128)) 8
    (alter (set_byte (fun b => Z.lor (Z.land b 15) version)) 6 id).

(** [Random] with the bytes [rand.Read] delivered; [None] is its failure. *)
Definition Random (entropy : option (list ascii)) : option ID :=
  bs ← entropy; Some (stamp 64 bs).

(** [FromNamespace] for the digest function [sha1]. *)
Definition FromNamespace (sha1 : gostring -> gostring) (ns : ID) (payload : gostring) : ID :=
  stamp 80 (take 16 (sha1 (ns ++ payload))).

(** *** Properties *)

Lemma Parse_length s id : Parse s = Ok id -> wf_id id.
Proof.
  unfold Parse, wf_id. destruct (_ =? _)%nat; [|done].
  destruct (Base64.decode s) as [bs|]; [|done].
  destruct (_ =? _)%nat eqn:E; simpl; [|done]. intros [= <-]. by apply Nat.eqb_eq.
Qed.

Lemma Parse_iff s id :
  Parse s = Ok id <-> wf_id id /\ s = String id.
Proof.
  split.
  - intros H. pose proof (Parse_length _ _ H) as Hw. split; [done|].
    unfold Parse in H. destruct (length s =? EncodedLen)%nat eqn:El; [|done].
    destruct (Base64.decode s) as [bs|] eqn:Ed; [|done].
    destruct (length bs =? 16)%nat; [|done]. injection H as <-. bool_hyps.
    unfold Base64.decode in Ed.
    pose proof (Base64.length_decode_quanta _ _ Ed) as Hlen.
    pose proof (length_filter (fun c => Base64.is_newline c = false) s) as Hle.
    unfold wf_id, EncodedLen in *.
    rewrite filter_all in Ed; [symmetry; by apply Base64.encode_decode_quanta|].
    apply (filter_length_eq (fun c => Base64.is_newline c = false)). lia.
  - intros [Hw ->]. unfold Parse, String.
    rewrite Base64.length_encode16, Base64.decode_encode, Hw by done. done.
Qed.

(** The wire form round-trips in both directions: [Parse] accepts exactly
    the strings [String] produces, so the accepted texts and the device IDs
    are in bijection although the decoder skips line breaks. *)
Theorem parse_string_bijection s id :
  Parse s = Ok id <-> wf_id id /\ s = String id.
Proof. apply Parse_iff. Qed.

Lemma decode_groups_spec gs bs :
  decode_groups gs = Some bs ->
  exists bss, bs = concat bss /\ Forall2 (fun g b => Hex.decode g = Some b) gs bss.
Proof.
  revert bs. induction gs as [|g gs IH]; simpl; intros bs.
  { intros [= <-]. by exists []. }
  intros H. apply bind_Some in H as (b & Hb & H).
  apply bind_Some in H as (r & Hr & [= <-]).
  destruct (IH _ Hr) as (bss & -> & HF). exists (b :: bss). split; [done|by constructor].
Qed.

Lemma length_slice s i j : i <= j <= length s -> length (slice s i j) = j - i.
Proof. intros ?. unfold slice. rewrite length_take, length_drop. lia. Qed.

(** Lower-casing a UUID text touches only its hexadecimal digits. *)
Definition lowercase (s : gostring) : gostring := map Hex.lower s.

Lemma uuid_shape s :
  length s = 36 -> dash_at s 8 = true -> dash_at s 13 = true ->
  dash_at s 18 = true -> dash_at s 23 = true ->
  s = slice s 0 8 ++ "-"%char :: slice s 9 13 ++ "-"%char :: slice s 14 18
      ++ "-"%char :: slice s 19 23 ++ "-"%char :: slice s 24 36.
Proof.
  intros Hl. do 37 (destruct s as [|? s]; try done). clear Hl. unfold dash_at. simpl.
  intros H1 H2 H3 H4. bool_hyps. by simplify_eq.
Qed.

Lemma uuid_groups_UUID id :
  length id = 16 ->
  uuid_groups (UUID id) = [Hex.encode (slice id 0 4); Hex.encode (slice id 4 6);
    Hex.encode (slice id 6 8); Hex.encode (slice id 8 10); Hex.encode (slice id 10 16)].
Proof. intros Hl. do 17 (destruct id as [|? id]; try done). Qed.

Lemma UUID_concat b1 b2 b3 b4 b5 :
  length b1 = 4 -> length b2 = 2 -> length b3 = 2 -> length b4 = 2 -> length b5 = 6 ->
  UUID (b1 ++ b2 ++ b3 ++ b4 ++ b5) =
  Hex.encode b1 ++ "-"%char :: Hex.encode b2 ++ "-"%char :: Hex.encode b3
    ++ "-"%char :: Hex.encode b4 ++ "-"%char :: Hex.encode b5.
Proof.
  intros. do 5 (destruct b1 as [|? b1]; try done). do 3 (destruct b2 as [|? b2]; try done).
  do 3 (destruct b3 as [|? b3]; try done). do 3 (destruct b4 as [|? b4]; try done).
  do 7 (destruct b5 as [|? b5]; try done).
Qed.

Lemma FromUUID_UUID id : wf_id id -> FromUUID (UUID id) = Ok id.
Proof.
  intros Hw. unfold wf_id in Hw. do 17 (destruct id as [|? id]; try done).
  unfold FromUUID. rewrite uuid_groups_UUID by done.
  cbn -[Hex.decode Hex.encode uuid_groups]. simpl decode_groups.
  by rewrite !Hex.hex_decode_encode.
Qed.

(** [FromUUID] accepts every case variant of what [UUID] prints and nothing
    else; [UUID] normalises to lower case. *)
Theorem uuid_round_trip :
  (forall id, wf_id id -> FromUUID (UUID id) = Ok id) /\
  (forall s id, FromUUID s = Ok id -> wf_id id /\ UUID id = lowercase s).
Proof.
  split.
  - apply FromUUID_UUID.
  - intros s id. unfold FromUUID.
    destruct (_ || _) eqn:E; [done|]. bool_hyps. intros Hd. inv_ok Hd.
    destruct (decode_groups_spec _ _ Hd) as (bss & -> & HF). clear Hd.
    unfold uuid_groups in HF.
    apply Forall2_cons_inv_l in HF as (b1 & ? & G1 & HF & ->).
    apply Forall2_cons_inv_l in HF as (b2 & ? & G2 & HF & ->).
    apply Forall2_cons_inv_l in HF as (b3 & ? & G3 & HF & ->).
    apply Forall2_cons_inv_l in HF as (b4 & ? & G4 & HF & ->).
    apply Forall2_cons_inv_l in HF as (b5 & ? & G5 & HF & ->).
    apply Forall2_nil_inv_l in HF as ->. simpl. rewrite app_nil_r.
    pose proof (Hex.length_decode _ _ G1) as L1. pose proof (Hex.length_decode _ _ G2) as L2.
    pose proof (Hex.length_decode _ _ G3) as L3. pose proof (Hex.length_decode _ _ G4) as L4.
    pose proof (Hex.length_decode _ _ G5) as L5.
    rewrite !length_slice in * by lia.
    split; [unfold wf_id; rewrite !length_app; lia|].
    rewrite UUID_concat by lia.
    rewrite (Hex.encode_decode _ _ G1), (Hex.encode_decode _ _ G2),
      (Hex.encode_decode _ _ G3), (Hex.encode_decode _ _ G4), (Hex.encode_decode _ _ G5).
    unfold lowercase. rewrite (uuid_shape s) at 6 by done.
    by rewrite !map_app, !map_cons, !map_app, !map_cons, !map_app, !map_cons, !map_app.
Qed.

(** The guard on the decoded length is live: twenty characters and two line
    breaks have the right length and decode to fifteen bytes. *)
Theorem decoded_length_guard_reachable :
  exists s, length s = EncodedLen /\ Base64.decode s <> None
            /\ Parse s = Err (ErrDecodedBytes 15).
Proof.
  exists (replicate 20 "A"%char ++ [chr 10; chr 10]). vm_compute. done.
Qed.

Lemma stamped_nibble c :
  (byte_val (set_byte (fun b => Z.lor (Z.land b 15) 80) c) / 16 = 5)%Z.
Proof.
  apply Z.eqb_eq. revert c. apply (all_bytes_forall (fun c =>
    (byte_val (set_byte (fun b => Z.lor (Z.land b 15) 80) c) / 16 =? 5)%Z)).
  vm_compute. reflexivity.
Qed.

Lemma stamped_variant c :
  (byte_val (set_byte (fun b => Z.lor (Z.land b 63) 128) c) / 64 = 2)%Z.
Proof.
  apply Z.eqb_eq. revert c. apply (all_bytes_forall (fun c =>
    (byte_val (set_byte (fun b => Z.lor (Z.land b 63) 128) c) / 64 =? 2)%Z)).
  vm_compute. reflexivity.
Qed.

Lemma stamp_lookup version bs i :
  stamp version bs !! i =
    if decide (i = 8) then set_byte (fun b => Z.lor (Z.land b 63) 128) <$> bs !! 8
    else if decide (i = 6) then set_byte (fun b => Z.lor (Z.land b 15) version) <$> bs !! 6
    else bs !! i.
Proof.
  unfold stamp. repeat case_decide; subst.
  - rewrite list_lookup_alter_eq, list_lookup_alter_ne by done. done.
  - rewrite list_lookup_alter_ne, list_lookup_alter_eq by done. done.
  - by rewrite !list_lookup_alter_ne by done.
Qed.

(** The shape of a name-based ID (RFC 4122 version 5): sixteen bytes, version
    nibble 5, variant bits 10, every other byte from the SHA-1 digest of the
    namespace followed by the payload. *)
Theorem from_namespace_shape (sha1 : gostring -> gostring) ns payload :
  (forall x, length (sha1 x) = 20) ->
  let id := FromNamespace sha1 ns payload in
  wf_id id /\
  (exists b, id !! 6 = Some b /\ (byte_val b / 16 = 5)%Z) /\
  (exists b, id !! 8 = Some b /\ (byte_val b / 64 = 2)%Z) /\
  (forall i, i < 16 -> i <> 6 -> i <> 8 -> id !! i = sha1 (ns ++ payload) !! i).
Proof.
  intros Hlen id. subst id. unfold FromNamespace.
  set (d := sha1 (ns ++ payload)). pose proof (Hlen (ns ++ payload) : length d = 20) as Hd.
  assert (length (take 16 d) = 16) as H16 by (rewrite length_take; lia).
  destruct (lookup_lt_is_Some_2 (take 16 d) 6) as [b6 H6]; [lia|].
  destruct (lookup_lt_is_Some_2 (take 16 d) 8) as [b8 H8]; [lia|].
  repeat split.
  - unfold wf_id, stamp. by rewrite !length_alter.
  - eexists. rewrite stamp_lookup, H6. split; [done|]. apply stamped_nibble.
  - eexists. rewrite stamp_lookup, H8. split; [done|]. apply stamped_variant.
  - intros i Hi ??. rewrite stamp_lookup, !decide_False by done.
    rewrite lookup_take, decide_True by lia. done.
Qed.

Lemma from_namespace_shape_witness :
  (forall x, length ((fun _ : gostring => replicate 20 (chr 255)) x) = 20) /\
  byte_val (default (chr 0) (FromNamespace (fun _ => replicate 20 (chr 255)) [] [] !! 6)) = 95%Z.
Proof.
  split; [by intros|].
  destruct (from_namespace_shape (fun _ => replicate 20 (chr 255)) [] [])
    as (_ & (b & Hb & Hv) & _); [by intros|]. reflexivity.
Defined.

End DeviceID.
