(* ===== verification/SchemaTypes.v ===== *)
(** * Interface schema enumerations ([src/pkg/interfaceschema/types.go])

    The seven enumerations of an interface definition with their wire
    strings. A Go enumeration is a [uint8] restricted to its declared
    constants; here each is an inductive type with those constants, and the
    numeric value is kept where the code computes with it ([QoS], [IsArray],
    [Elem]). *)

From S2P Require Import Prelude GoStrings.

(** ** The contract of a wire enumeration

    Parsing and printing are inverse, so no two constants share a wire
    string and nothing else is accepted. *)
Class WireEnum (E : Type) := {
  parse_wire : gostring -> option E;
  wire_string : E -> gostring;
  parse_wire_iff s e : parse_wire s = Some e <-> s = wire_string e;
}.

Module Schema.

Inductive InterfaceType := Datastream | Properties.
Inductive Ownership := OwnershipDevice | OwnershipServer.
Inductive Aggregation := AggregationIndividual | AggregationObject.
Inductive Reliability := ReliabilityUnreliable | ReliabilityGuaranteed | ReliabilityUnique.
Inductive Retention := RetentionDiscard | RetentionVolatile | RetentionStored.
Inductive DatabaseRetentionPolicy := NoTTL | UseTTL.
Inductive ValueType :=
| Double | Integer | Boolean | LongInteger | StringT | BinaryBlob | DateTime
| DoubleArray | IntegerArray | BooleanArray | LongIntegerArray | StringArray
| BinaryBlobArray | DateTimeArray.

#[global] Instance InterfaceType_eq_dec : EqDecision InterfaceType.
Proof. solve_decision. Defined.
#[global] Instance Ownership_eq_dec : EqDecision Ownership.
Proof. solve_decision. Defined.
#[global] Instance Aggregation_eq_dec : EqDecision Aggregation.
Proof. solve_decision. Defined.
#[global] Instance Reliability_eq_dec : EqDecision Reliability.
Proof. solve_decision. Defined.
#[global] Instance Retention_eq_dec : EqDecision Retention.
Proof. solve_decision. Defined.
#[global] Instance DatabaseRetentionPolicy_eq_dec : EqDecision DatabaseRetentionPolicy.
Proof. solve_decision. Defined.
#[global] Instance ValueType_eq_dec : EqDecision ValueType.
Proof. solve_decision. Defined.

Definition ParseInterfaceType (s : gostring) : option InterfaceType :=
  if decide (s = "datastream"%go) then Some Datastream
  else if decide (s = "properties"%go) then Some Properties
  else None.
Definition InterfaceType_String (t : InterfaceType) : gostring :=
  match t with Datastream => "datastream"%go | Properties => "properties"%go end.

Definition ParseOwnership (s : gostring) : option Ownership :=
  if decide (s = "device"%go) then Some OwnershipDevice
  else if decide (s = "server"%go) then Some OwnershipServer
  else None.
Definition Ownership_String (o : Ownership) : gostring :=
  match o with OwnershipDevice => "device"%go | OwnershipServer => "server"%go end.

Definition ParseAggregation (s : gostring) : option Aggregation :=
  if decide (s = "individual"%go) then Some AggregationIndividual
  else if decide (s = "object"%go) then Some AggregationObject
  else None.
Definition Aggregation_String (a : Aggregation) : gostring :=
  match a with
  | AggregationIndividual => "individual"%go
  | AggregationObject => "object"%go
  end.

Definition ParseReliability (s : gostring) : option Reliability :=
  if decide (s = "unreliable"%go) then Some ReliabilityUnreliable
  else if decide (s = "guaranteed"%go) then Some ReliabilityGuaranteed
  else if decide (s = "unique"%go) then Some ReliabilityUnique
  else None.
Definition Reliability_String (r : Reliability) : gostring :=
  match r with
  | ReliabilityUnreliable => "unreliable"%go
  | ReliabilityGuaranteed => "guaranteed"%go
  | ReliabilityUnique => "unique"%go
  end.

(** The numeric value of a reliability is its MQTT QoS. *)
Definition QoS (r : Reliability) : Z :=
  match r with
  | ReliabilityUnreliable => 0
  | ReliabilityGuaranteed => 1
  | ReliabilityUnique => 2
  end.

Definition ParseRetention (s : gostring) : option Retention :=
  if decide (s = "discard"%go) then Some RetentionDiscard
  else if decide (s = "volatile"%go) then Some RetentionVolatile
  else if decide (s = "stored"%go) then Some RetentionStored
  else None.
Definition Retention_String (r : Retention) : gostring :=
  match r with
  | RetentionDiscard => "discard"%go
  | RetentionVolatile => "volatile"%go
  | RetentionStored => "stored"%go
  end.

Definition ParseDatabaseRetentionPolicy (s : gostring) : option DatabaseRetentionPolicy :=
  if decide (s = "no_ttl"%go) then Some NoTTL
  else if decide (s = "use_ttl"%go) then Some UseTTL
  else None.
Definition DatabaseRetentionPolicy_String (p : DatabaseRetentionPolicy) : gostring :=
  match p with NoTTL => "no_ttl"%go | UseTTL => "use_ttl"%go end.

(** *** Value types *)

(** The [uint8] value ([iota + 1]). *)
Definition vt_code (v : ValueType) : Z :=
  match v with
  | Double => 1 | Integer => 2 | Boolean => 3 | LongInteger => 4 | StringT => 5
  | BinaryBlob => 6 | DateTime => 7 | DoubleArray => 8 | IntegerArray => 9
  | BooleanArray => 10 | LongIntegerArray => 11 | StringArray => 12
  | BinaryBlobArray => 13 | DateTimeArray => 14
  end.

Definition all_value_types : list ValueType :=
  [Double; Integer; Boolean; LongInteger; StringT; BinaryBlob; DateTime; DoubleArray;
   IntegerArray; BooleanArray; LongIntegerArray; StringArray; BinaryBlobArray; DateTimeArray].

(** The conversion [ValueType(n)], [None] outside the declared constants. *)
Definition vt_of_code (n : Z) : option ValueType := all_value_types !! Z.to_nat (n - 1).

Definition valueTypeNames : list gostring :=
  ["double"%go; "integer"%go; "boolean"%go; "longinteger"%go; "string"%go; "binaryblob"%go;
   "datetime"%go; "doublearray"%go; "integerarray"%go; "booleanarray"%go;
   "longintegerarray"%go; "stringarray"%go; "binaryblobarray"%go; "datetimearray"%go].

(** The scan of [valueTypeNames] from index [i]. *)
Fixpoint scan_names (names : list gostring) (i : Z) (s : gostring) : option ValueType :=
  match names with
  | [] => None
  | name :: names => if decide (s = name) then vt_of_code (i + 1) else scan_names names (i + 1) s
  end.
Definition ParseValueType (s : gostring) : option ValueType := scan_names valueTypeNames 0 s.

Definition ValueType_String (v : ValueType) : gostring :=
  nth (Z.to_nat (vt_code v - 1)) valueTypeNames []%list.

Definition IsArray (v : ValueType) : bool :=
  (vt_code DoubleArray <=? vt_code v)%Z && (vt_code v <=? vt_code DateTimeArray)%Z.

Definition Elem (v : ValueType) : ValueType :=
  if IsArray v then default v (vt_of_code (vt_code v - vt_code DoubleArray + vt_code Double))
  else v.

(** *** The contract holds of every enumeration *)
Ltac wire_enum :=
  intros s e; split;
  [ intros H; repeat (case_decide; [vm_compute in H; simplify_eq; done|]); done
  | intros ->; destruct e; reflexivity ].

#[global] Instance InterfaceType_wire : WireEnum InterfaceType.
Proof.
  refine {| parse_wire := ParseInterfaceType; wire_string := InterfaceType_String |}.
  unfold ParseInterfaceType. wire_enum.
Defined.
#[global] Instance Ownership_wire : WireEnum Ownership.
Proof.
  refine {| parse_wire := ParseOwnership; wire_string := Ownership_String |}.
  unfold ParseOwnership. wire_enum.
Defined.
#[global] Instance Aggregation_wire : WireEnum Aggregation.
Proof.
  refine {| parse_wire := ParseAggregation; wire_string := Aggregation_String |}.
  unfold ParseAggregation. wire_enum.
Defined.
#[global] Instance Reliability_wire : WireEnum Reliability.
Proof.
  refine {| parse_wire := ParseReliability; wire_string := Reliability_String |}.
  unfold ParseReliability. wire_enum.
Defined.
#[global] Instance Retention_wire : WireEnum Retention.
Proof.
  refine {| parse_wire := ParseRetention; wire_string := Retention_String |}.
  unfold ParseRetention. wire_enum.
Defined.
#[global] Instance DatabaseRetentionPolicy_wire : WireEnum DatabaseRetentionPolicy.
Proof.
  refine {| parse_wire := ParseDatabaseRetentionPolicy;
            wire_string := DatabaseRetentionPolicy_String |}.
  unfold ParseDatabaseRetentionPolicy. wire_enum.
Defined.
#[global] Instance ValueType_wire : WireEnum ValueType.
Proof.
  refine {| parse_wire := ParseValueType; wire_string := ValueType_String |}.
  unfold ParseValueType, valueTypeNames. cbn [scan_names]. wire_enum.
Defined.

Lemma wire_string_inj `{WireEnum E} (a b : E) : wire_string a = wire_string b -> a = b.
Proof.
  intros Hab. pose proof (proj2 (parse_wire_iff (wire_string a) a) eq_refl) as Ha.
  pose proof (proj2 (parse_wire_iff (wire_string a) b) Hab) as Hb. congruence.
Qed.

(** Every enumeration of an interface definition parses exactly its own wire
    strings, back to the constant that prints them; an array type's element
    type is a scalar, and a scalar is its own element type. *)
Theorem schema_enums_round_trip :
  (forall s t, ParseInterfaceType s = Some t <-> s = InterfaceType_String t) /\
  (forall s o, ParseOwnership s = Some o <-> s = Ownership_String o) /\
  (forall s a, ParseAggregation s = Some a <-> s = Aggregation_String a) /\
  (forall s r, ParseReliability s = Some r <-> s = Reliability_String r) /\
  (forall s r, ParseRetention s = Some r <-> s = Retention_String r) /\
  (forall s p, ParseDatabaseRetentionPolicy s = Some p <-> s = DatabaseRetentionPolicy_String p) /\
  (forall s v, ParseValueType s = Some v <-> s = ValueType_String v) /\
  (forall v, IsArray (Elem v) = false /\
             (if IsArray v then ValueType_String v = ValueType_String (Elem v) ++ "array"%go
              else Elem v = v)).
Proof.
  split; [exact (parse_wire_iff (E := InterfaceType))|].
  split; [exact (parse_wire_iff (E := Ownership))|].
  split; [exact (parse_wire_iff (E := Aggregation))|].
  split; [exact (parse_wire_iff (E := Reliability))|].
  split; [exact (parse_wire_iff (E := Retention))|].
  split; [exact (parse_wire_iff (E := DatabaseRetentionPolicy))|].
  split; [exact (parse_wire_iff (E := ValueType))|].
  intros v. destruct v; split; reflexivity.
Qed.

End Schema.
