(* ===== verification/Endpoints.v ===== *)
(** * Endpoint patterns ([src/pkg/interfaceschema/parse.go], second half)

    The syntax of a mapping's endpoint ([splitEndpoint], [parseSegment],
    [validIdentifier]), the placeholder-erased key ([normalizeEndpoint]) and
    the pairwise conflict check ([checkEndpointUniqueness]). *)

From S2P Require Import Prelude GoStrings.

Module Endpoint.

(** [type endpointSegment struct]. *)
Record endpointSegment := Seg {
  literal : gostring;
  param : bool;
}.

#[global] Instance endpointSegment_eq_dec : EqDecision endpointSegment.
Proof. solve_decision. Defined.

Definition MaxEndpointDepth : nat := 64.

Inductive endpoint_error :=
| EpMustStartWithSlash (endpoint : gostring)
| EpEmptySegment (endpoint : gostring)
| EpMalformedPlaceholder (endpoint raw : gostring)
| EpPlaceholderName (endpoint name : gostring)
| EpPlaceholderPartial (endpoint : gostring)
| EpInvalidSegment (endpoint raw : gostring)
| EpTooDeep (endpoint : gostring)
| EpOutOfFuel.

#[global] Instance endpoint_error_eq_dec : EqDecision endpoint_error.
Proof. solve_decision. Defined.

(** ** Identifiers *)

Definition is_alpha (c : ascii) : bool :=
  between "a" "z" c || between "A" "Z" c || bool_decide (c = "_"%char).
Definition is_digit (c : ascii) : bool := between "0" "9" c.

(** The loop of [validIdentifier] from byte [i]. *)
Fixpoint valid_from (i : nat) (s : gostring) : bool :=
  match s with
  | [] => true
  | c :: s =>
      if is_alpha c then valid_from (S i) s
      else if is_digit c then if (i =? 0)%nat then false else valid_from (S i) s
      else false
  end.
Definition validIdentifier (s : gostring) : bool :=
  match s with
  | [] => false
  | _ => valid_from 0 s
  end.

(** ** Segments *)

Definition parseSegment (endpoint raw : gostring) : result endpoint_error endpointSegment :=
  match raw with
  | [] => Err (EpEmptySegment endpoint)
  | c :: _ =>
      if decide (c = "%"%char) then
        if (length raw <? 4)%nat || negb (bool_decide (raw !! 1 = Some "{"%char))
           || negb (bool_decide (last raw = Some "}"%char))
        then Err (EpMalformedPlaceholder endpoint raw)
        else
          let name := take (length raw - 3) (drop 2 raw) in
          if negb (validIdentifier name) then Err (EpPlaceholderName endpoint name)
          else Ok (Seg name true)
      else if negb (validIdentifier raw) then
        if Strings.ContainsAny raw "%{}"%go then Err (EpPlaceholderPartial endpoint)
        else Err (EpInvalidSegment endpoint raw)
      else Ok (Seg raw false)
  end.

Definition endsWithSlash (endpoint : gostring) : bool :=
  bool_decide (last endpoint = Some "/"%char).

(** The segment loop; every iteration consumes a '/' so [length rest + 1]
    iterations are enough. *)
Fixpoint split_loop (fuel : nat) (endpoint rest : gostring)
    : result endpoint_error (list endpointSegment) :=
  match fuel with
  | O => Err EpOutOfFuel
  | S fuel =>
      let '(raw, rest') :=
        match Strings.IndexByte rest "/" with
        | Some i => (take i rest, drop (S i) rest)
        | None => (rest, [])
        end in
      let? seg := parseSegment endpoint raw in
      match rest' with
      | [] => if endsWithSlash endpoint then Err (EpEmptySegment endpoint) else Ok [seg]
      | _ =>
          let? segs := split_loop fuel endpoint rest' in
          Ok (seg :: segs)
      end
  end.

Definition splitEndpoint (endpoint : gostring) : result endpoint_error (list endpointSegment) :=
  match endpoint with
  | c :: rest =>
      if decide (c = "/"%char) then
        let? segs := split_loop (S (length rest)) endpoint rest in
        if (MaxEndpointDepth <? length segs)%nat then Err (EpTooDeep endpoint) else Ok segs
      else Err (EpMustStartWithSlash endpoint)
  | [] => Err (EpMustStartWithSlash endpoint)
  end.

(** The textual form of a segment and of a whole endpoint. *)
Definition render (seg : endpointSegment) : gostring :=
  if param seg then "%{"%go ++ literal seg ++ "}"%go else literal seg.
Definition render_endpoint (segs : list endpointSegment) : gostring :=
  concat (map (fun seg => "/"%char :: render seg) segs).
Definition valid_seg (seg : endpointSegment) : Prop := validIdentifier (literal seg) = true.

(** [normalizeEndpoint]: placeholder names erased. *)
Definition normalizeEndpoint (segs : list endpointSegment) : gostring :=
  concat (map (fun seg => "/"%char :: (if param seg then "%{}"%go else literal seg)) segs).

(** ** Conflicts *)

(** The level loop: (overlap, identical), left at the first disjoint level. *)
Fixpoint compare_levels (a b : list endpointSegment) (identical : bool) : bool * bool :=
  match a, b with
  | x :: a, y :: b =>
      if param x && param y then compare_levels a b identical
      else if negb (Bool.eqb (param x) (param y)) then compare_levels a b false
      else if negb (bool_decide (literal x = literal y)) then (false, false)
      else compare_levels a b identical
  | _, _ => (true, identical)
  end.

Inductive conflict_error :=
| DuplicateEndpoint (second first : gostring)
| ConflictingEndpoints (first second : gostring).

#[global] Instance conflict_error_eq_dec : EqDecision conflict_error.
Proof. solve_decision. Defined.

(** One endpoint against the later ones. An endpoint comes with its text. *)
Fixpoint check_against (a : gostring * list endpointSegment)
    (later : list (gostring * list endpointSegment)) : result conflict_error () :=
  match later with
  | [] => Ok ()
  | b :: later =>
      if negb (length a.2 =? length b.2)%nat then check_against a later
      else
        let '(overlap, identical) := compare_levels a.2 b.2 true in
        if identical then Err (DuplicateEndpoint b.1 a.1)
        else if overlap then Err (ConflictingEndpoints a.1 b.1)
        else check_against a later
  end.

Fixpoint checkEndpointUniqueness (endpoints : list (gostring * list endpointSegment))
    : result conflict_error () :=
  match endpoints with
  | [] => Ok ()
  | a :: later => check_against a later ;;? checkEndpointUniqueness later
  end.

(** Two levels overlap when some concrete path segment could be matched by
    both; two patterns of the same depth overlap when every level does. *)
Definition level_overlap (x y : endpointSegment) : Prop :=
  param x = true \/ param y = true \/ literal x = literal y.
Definition overlapping (a b : list endpointSegment) : Prop := Forall2 level_overlap a b.

(** ** Identifiers and segments *)

Definition ident_char (c : ascii) : bool := is_alpha c || is_digit c.

Lemma valid_from_chars i s : valid_from i s = true -> Forall (fun c => ident_char c = true) s.
Proof.
  revert i. induction s as [|c s IH]; intros i; simpl; [constructor|].
  unfold ident_char. destruct (is_alpha c) eqn:Ea.
  { intros H. constructor; [by rewrite Ea|eauto]. }
  destruct (is_digit c) eqn:Ed; [|done]. destruct (i =? 0)%nat; [done|].
  intros H. constructor; [by rewrite Ea, Ed|eauto].
Qed.

Lemma validIdentifier_chars s c : validIdentifier s = true -> c ∈ s -> ident_char c = true.
Proof.
  destruct s; [done|]. intros H. apply valid_from_chars in H. rewrite Forall_forall in H. apply H.
Qed.

Lemma validIdentifier_nonempty s : validIdentifier s = true -> s <> [].
Proof. by destruct s. Qed.

Lemma validIdentifier_no c s : ident_char c = false -> validIdentifier s = true -> c ∉ s.
Proof. intros Hc Hs Hin. pose proof (validIdentifier_chars _ _ Hs Hin). congruence. Qed.

Lemma render_nonempty seg : valid_seg seg -> render seg <> [].
Proof.
  intros H%validIdentifier_nonempty. unfold render. by destruct (param seg).
Qed.

Lemma render_no_slash seg : valid_seg seg -> "/"%char ∉ render seg.
Proof.
  intros H. apply (validIdentifier_no "/" _ eq_refl) in H. unfold render.
  destruct (param seg); [|done]. rewrite !not_elem_of_app. set_solver.
Qed.

Lemma ident_char_not_percent c : ident_char c = true -> c <> "%"%char.
Proof. by intros H ->. Qed.

Lemma placeholder_name name :
  let raw := "%"%char :: "{"%char :: name ++ ["}"%char] in
  take (length raw - 3) (drop 2 raw) = name.
Proof.
  simpl. rewrite length_app. simpl.
  replace (length name + 1 - 1) with (length name) by lia. apply take_app_length.
Qed.

(** A segment is what it prints as: the parser accepts exactly the renderings
    of well-formed segments. *)
Lemma parseSegment_spec e raw seg :
  parseSegment e raw = Ok seg <-> valid_seg seg /\ raw = render seg.
Proof.
  unfold valid_seg. split.
  - unfold parseSegment. destruct raw as [|c raw]; [done|]. case_decide as Hc.
    + subst c. destruct (_ || _) eqn:E; [done|].
      apply orb_false_iff in E as [[El E1]%orb_false_iff E2].
      apply Nat.ltb_ge in El. apply negb_false_iff, bool_decide_eq_true in E1, E2.
      destruct raw as [|c1 [|c2 raw]]; [simpl in El; lia..|].
      injection E1 as ->. change (last (c2 :: raw) = Some "}"%char) in E2.
      apply last_Some in E2 as [name ->].
      rewrite placeholder_name.
      destruct (validIdentifier name) eqn:Hv; simpl; [|done]. intros [= <-]. done.
    + destruct (validIdentifier (c :: raw)) eqn:Hv; cbn [negb]; [|by destruct (Strings.ContainsAny _ _)].
      intros [= <-]. done.
  - intros [Hv ->]. destruct seg as [name [|]]; unfold render; cbn [literal param] in *.
    + change ("%{"%go ++ name ++ "}"%go) with ("%"%char :: "{"%char :: name ++ ["}"%char]).
      unfold parseSegment.
      rewrite decide_True, (bool_decide_eq_true_2 (last _ = _)), placeholder_name, Hv by
        first [done | change (last (("%"%char :: "{"%char :: name) ++ ["}"%char]) = Some "}"%char);
                      apply last_snoc].
      rewrite (proj2 (Nat.ltb_ge _ _)); [done|].
      destruct name; [done|]. simpl. rewrite length_app. simpl. lia.
    + unfold parseSegment. destruct name as [|c name]; [done|].
      rewrite decide_False.
      2: { apply ident_char_not_percent. eapply validIdentifier_chars; [done|]. left. }
      by rewrite Hv.
Qed.

(** ** Whole endpoints *)

(** One iteration of the loop, by the shape of the remaining text. *)
Lemma split_loop_last fuel e rest :
  "/"%char ∉ rest ->
  split_loop (S fuel) e rest =
  (let? seg := parseSegment e rest in
   if endsWithSlash e then Err (EpEmptySegment e) else Ok [seg]).
Proof. intros Hn. simpl. by rewrite (proj2 (Strings.IndexByte_None _ _) Hn). Qed.

Lemma split_loop_more fuel e a b :
  "/"%char ∉ a ->
  split_loop (S fuel) e (a ++ "/"%char :: b) =
  (let? seg := parseSegment e a in
   match b with
   | [] => if endsWithSlash e then Err (EpEmptySegment e) else Ok [seg]
   | _ => let? segs := split_loop fuel e b in Ok (seg :: segs)
   end).
Proof.
  intros Hn. simpl.
  assert (Strings.IndexByte (a ++ "/"%char :: b) "/" = Some (length a)) as ->.
  { apply Strings.IndexByte_Some. by exists a, b. }
  rewrite take_app_length. rewrite drop_app_ge by lia.
  replace (S (length a) - length a) with 1 by lia. done.
Qed.

(** Case analysis on the first separator. *)
Lemma slash_cases (s : gostring) :
  "/"%char ∉ s \/ exists a b, s = a ++ "/"%char :: b /\ "/"%char ∉ a.
Proof.
  destruct (Strings.IndexByte s "/") as [i|] eqn:E.
  - apply Strings.IndexByte_Some in E as (a & b & -> & Hn & _). right. eauto.
  - left. by apply Strings.IndexByte_None.
Qed.

Lemma endsWithSlash_spec e : endsWithSlash e = true <-> last e = Some "/"%char.
Proof. unfold endsWithSlash. by rewrite bool_decide_eq_true. Qed.

Lemma map_render_cons segs x l :
  Forall valid_seg segs /\ map render segs = x :: l <->
  exists seg segs', segs = seg :: segs' /\ valid_seg seg /\ x = render seg
    /\ Forall valid_seg segs' /\ map render segs' = l.
Proof.
  split.
  - intros [HF Hm]. destruct segs as [|seg segs]; [done|]. inversion HF; subst.
    simplify_eq/=. naive_solver.
  - intros (seg & segs' & -> & Hv & -> & HF & <-). by split; [constructor|].
Qed.

Lemma split_loop_spec fuel e rest segs :
  length rest < fuel -> (rest <> [] -> last e = last rest) ->
  split_loop fuel e rest = Ok segs <->
  Forall valid_seg segs /\ map render segs = Strings.Split rest "/".
Proof.
  revert rest segs. induction fuel as [|fuel IH]; intros rest segs Hf Hl; [lia|].
  destruct (slash_cases rest) as [Hn|(a & b & -> & Hn)].
  - rewrite split_loop_last, (Strings.Split_none _ _ Hn), map_render_cons, bindR_Ok by done.
    setoid_rewrite parseSegment_spec. split.
    + intros (seg & [Hv Hr] & Hs). destruct (endsWithSlash e); naive_solver.
    + intros (seg & segs' & -> & Hv & Hr & HF & Hm). apply map_eq_nil in Hm as ->.
      exists seg. split; [done|]. destruct (endsWithSlash e) eqn:E; [|done].
      apply endsWithSlash_spec in E. exfalso. apply Hn.
      pose proof (render_nonempty _ Hv). rewrite Hl in E by congruence.
      apply last_Some in E as [l ->]. set_solver.
  - rewrite split_loop_more, (Strings.Split_app _ _ _ Hn), map_render_cons, bindR_Ok by done.
    setoid_rewrite parseSegment_spec. rewrite length_app in Hf. simpl in Hf.
    destruct b as [|x b].
    + rewrite (proj2 (endsWithSlash_spec e)); [split|].
      * naive_solver.
      * intros (seg & segs' & -> & Hv & Hr & HF & Hm). exfalso. simpl in Hm.
        destruct segs' as [|s2 [|]]; try done. injection Hm as Hm. inversion HF; subst.
        by eapply render_nonempty.
      * rewrite Hl by (by destruct a). apply last_snoc.
    + setoid_rewrite bindR_Ok. setoid_rewrite IH; [naive_solver|simpl in *; lia|].
      intros _. rewrite Hl by (by destruct a). rewrite last_app_cons. done.
Qed.

Lemma split_loop_fuel fuel e rest : length rest < fuel -> split_loop fuel e rest <> Err EpOutOfFuel.
Proof.
  revert rest. induction fuel as [|fuel IH]; intros rest Hf; [lia|].
  assert (forall raw, parseSegment e raw <> Err EpOutOfFuel) as Hp.
  { intros [|c raw]; unfold parseSegment; repeat case_decide; repeat case_match; done. }
  destruct (slash_cases rest) as [Hn|(a & b & -> & Hn)].
  - rewrite split_loop_last by done. intros [?|(? & ? & ?)]%bindR_Err; [naive_solver|].
    by destruct (endsWithSlash e).
  - rewrite split_loop_more by done. rewrite length_app in Hf. simpl in Hf.
    intros [?|(s1 & _ & H)]%bindR_Err; [naive_solver|]. destruct b as [|x b].
    + by destruct (endsWithSlash e).
    + apply bindR_Err in H as [H|(s2 & _ & ?)]; [|done]. eapply IH; [|done]. simpl in *. lia.
Qed.

Lemma render_endpoint_join segs :
  segs <> [] -> render_endpoint segs = "/"%char :: Strings.Join (map render segs) "/".
Proof.
  unfold render_endpoint. induction segs as [|seg segs IH]; [done|]. intros _.
  destruct segs as [|seg' segs]; [simpl; by rewrite app_nil_r|].
  cbn [map concat]. cbn [map] in *. rewrite Strings.Join_cons by done.
  cbn [concat] in IH. rewrite IH by done. done.
Qed.

(** The parser accepts exactly the renderings of between 1 and 64 well-formed
    segments and returns those segments, and its loop always terminates. *)
Lemma splitEndpoint_spec :
  (forall e segs,
     splitEndpoint e = Ok segs <->
     segs <> [] /\ length segs <= MaxEndpointDepth /\ Forall valid_seg segs /\
     e = render_endpoint segs) /\
  (forall e, splitEndpoint e <> Err EpOutOfFuel).
Proof.
  split.
  - intros e segs. transitivity
      (exists rest, e = "/"%char :: rest /\ length segs <= MaxEndpointDepth /\
         Forall valid_seg segs /\ map render segs = Strings.Split rest "/").
    + unfold splitEndpoint. destruct e as [|c rest]; [naive_solver|]. case_decide as Hc.
      2: naive_solver.
      subst c. rewrite bindR_Ok.
      setoid_rewrite split_loop_spec; [|lia|by destruct rest].
      split.
      * intros (segs' & [HF Hm] & Hs). destruct (_ <? _)%nat eqn:E; [done|]. bool_hyps.
        naive_solver.
      * intros (rest' & [= <-] & Hd & HF & Hm). exists segs. split; [done|].
        rewrite (proj2 (Nat.ltb_ge _ _)); done.
    + split.
      * intros (rest & -> & Hd & HF & Hm).
        assert (segs <> []) by (intros ->; by eapply Strings.Split_nonempty).
        repeat split; [done..|]. rewrite render_endpoint_join by done.
        by rewrite Hm, Strings.Join_Split.
      * intros (Hne & Hd & HF & ->). rewrite render_endpoint_join by done.
        eexists. repeat split; [done..|]. symmetry. apply Strings.Split_Join.
        { by destruct segs. }
        rewrite Forall_forall. intros s (seg & -> & Hin)%list_elem_of_fmap.
        rewrite Forall_forall in HF. by apply render_no_slash, HF.
  - intros [|c rest]; unfold splitEndpoint; [done|]. case_decide as Hc; [|done].
    intros [H|(segs & _ & H)]%bindR_Err.
    + eapply split_loop_fuel; [|done]. lia.
    + by destruct (_ <? _)%nat.
Qed.

(** ** Conflicts *)

Lemma compare_levels_spec a b i :
  length a = length b ->
  (fst (compare_levels a b i) = true <-> overlapping a b) /\
  (snd (compare_levels a b i) = true -> fst (compare_levels a b i) = true).
Proof.
  unfold overlapping. revert b i. induction a as [|x a IH]; intros [|y b] i Hl; try done.
  injection Hl as Hl. rewrite Forall2_cons. unfold level_overlap at 1. simpl.
  assert (forall j, (level_overlap x y) ->
    ((compare_levels a b j).1 = true <-> level_overlap x y /\ Forall2 level_overlap a b) /\
    ((compare_levels a b j).2 = true -> (compare_levels a b j).1 = true)) as IH'.
  { intros j Hxy. destruct (IH b j Hl) as [H1 H2]. rewrite H1. tauto. }
  unfold level_overlap at 1 2 in IH'. clear IH.
  destruct (param x), (param y); simpl; try (apply IH'; auto).
  destruct (decide (literal x = literal y)) as [E|E].
  - rewrite bool_decide_eq_true_2 by done. simpl. apply IH'. auto.
  - rewrite bool_decide_eq_false_2 by done. simpl. clear IH'. naive_solver.
Qed.

#[global] Instance level_overlap_dec x y : Decision (level_overlap x y).
Proof. unfold level_overlap. apply _. Defined.
#[global] Instance overlapping_dec a b : Decision (overlapping a b).
Proof. unfold overlapping. apply _. Defined.

Lemma overlapping_sym a b : overlapping a b -> overlapping b a.
Proof.
  unfold overlapping, level_overlap. intros H. apply Forall2_flip.
  eapply Forall2_impl; [done|]. simpl. naive_solver.
Qed.

Lemma check_against_spec a later :
  check_against a later = Ok () <-> Forall (fun b => ~ overlapping a.2 b.2) later.
Proof.
  induction later as [|b later IH]; simpl; [naive_solver|]. rewrite Forall_cons.
  destruct (length a.2 =? length b.2)%nat eqn:El; bool_hyps; simpl.
  - destruct (compare_levels a.2 b.2 true) as [o i] eqn:E.
    pose proof (compare_levels_spec a.2 b.2 true El) as [Ho Hi]. rewrite E in *. simpl in *.
    rewrite <- Ho. destruct i, o; naive_solver.
  - rewrite IH. split; [|naive_solver]. intros H. split; [|done].
    by intros ?%Forall2_length.
Qed.

(** The conflict check accepts a list of endpoints exactly when no two of
    them could match the same concrete path. *)
Lemma checkEndpointUniqueness_spec eps :
  checkEndpointUniqueness eps = Ok () <->
  ForallOrdPairs (fun a b => ~ overlapping a.2 b.2) eps.
Proof.
  induction eps as [|a eps IH]; simpl; [split; [constructor|done]|].
  rewrite bindR_Ok. split.
  - intros (u & H & ?). destruct u. constructor; [by apply check_against_spec|by apply IH].
  - inversion 1; subst. exists (). split; [by apply check_against_spec|by apply IH].
Qed.

(** An endpoint matches a concrete path, given as its segments, when every
    literal level is spelled exactly and every placeholder has some value. *)
Definition matches_level (seg : endpointSegment) (p : gostring) : Prop :=
  if param seg then p <> [] else literal seg = p.
Definition matches_path (segs : list endpointSegment) (path : list gostring) : Prop :=
  Forall2 matches_level segs path.

#[global] Instance matches_level_dec seg p : Decision (matches_level seg p).
Proof. unfold matches_level. destruct (param seg); apply _. Defined.
#[global] Instance matches_path_dec segs path : Decision (matches_path segs path).
Proof. unfold matches_path. apply _. Defined.

(** Overlap, as the check computes it, is the existence of a path both
    endpoints match. *)
Lemma overlapping_matches a b :
  Forall valid_seg a -> Forall valid_seg b ->
  overlapping a b <-> exists path, matches_path a path /\ matches_path b path.
Proof.
  intros Ha. revert b. unfold overlapping, matches_path.
  induction Ha as [|x a Hx Ha IH]; intros b Hb.
  - split.
    + intros ->%Forall2_nil_inv_l. by exists [].
    + intros (p & ->%Forall2_nil_inv_l & ->%Forall2_nil_inv_r). done.
  - destruct b as [|y b].
    { split; [by intros ?%Forall2_cons_nil_inv|].
      intros (p & H & ->%Forall2_nil_inv_l). by apply Forall2_cons_nil_inv in H. }
    apply Forall_cons in Hb as [Hy Hb]. rewrite Forall2_cons, (IH b Hb).
    apply validIdentifier_nonempty in Hx, Hy. split.
    + intros [Ho (p & Hp1 & Hp2)].
      exists ((if param x then literal y else literal x) :: p).
      rewrite !Forall2_cons. unfold matches_level, level_overlap in *.
      destruct (param x), (param y); naive_solver.
    + intros (p & H1 & H2). destruct p as [|q p]; [by apply Forall2_cons_nil_inv in H1|].
      rewrite Forall2_cons in H1, H2. destruct H1 as [H1 ?], H2 as [H2 ?].
      split; [|eauto]. unfold matches_level, level_overlap in *.
      destruct (param x), (param y); naive_solver congruence.
Qed.

(** ** The placeholder-erased key *)

(** Two patterns of the same shape: equal literals and placeholders at the
    same levels, whatever their names. *)
Definition same_shape : list endpointSegment -> list endpointSegment -> Prop :=
  Forall2 (fun x y => param x = param y /\ (param x = false -> literal x = literal y)).

Definition erased (seg : endpointSegment) : gostring :=
  if param seg then "%{}"%go else literal seg.

Lemma erased_inj x y :
  valid_seg x -> valid_seg y -> erased x = erased y ->
  param x = param y /\ (param x = false -> literal x = literal y).
Proof.
  unfold valid_seg, erased. intros Hx Hy.
  destruct (param x), (param y); intros E; [done| | |done]; exfalso.
  - by rewrite <- E in Hy.
  - by rewrite E in Hx.
Qed.

Lemma erased_no_slash x : valid_seg x -> "/"%char ∉ erased x.
Proof.
  intros H. unfold erased. destruct (param x); [set_solver|].
  by apply (validIdentifier_no "/").
Qed.

Lemma normalizeEndpoint_join segs :
  segs <> [] -> normalizeEndpoint segs = "/"%char :: Strings.Join (map erased segs) "/".
Proof.
  unfold normalizeEndpoint. induction segs as [|seg segs IH]; [done|]. intros _.
  destruct segs as [|seg' segs]; [simpl; by rewrite app_nil_r|].
  cbn [map concat]. cbn [map] in *. rewrite Strings.Join_cons by done.
  cbn [concat] in IH. rewrite IH by done. done.
Qed.

Lemma Forall_erased_no_slash segs :
  Forall valid_seg segs -> Forall (fun s => "/"%char ∉ s) (map erased segs).
Proof. intros H. apply Forall_fmap. eapply Forall_impl; [done|]. apply erased_no_slash. Qed.

(** The key identifies endpoints exactly up to the placeholder names. *)
Lemma normalizeEndpoint_inj a b :
  Forall valid_seg a -> Forall valid_seg b ->
  normalizeEndpoint a = normalizeEndpoint b <-> same_shape a b.
Proof.
  intros Ha Hb. split.
  - destruct (decide (a = [])) as [->|Hna].
    { destruct b; [constructor|done]. }
    destruct (decide (b = [])) as [->|Hnb]; [by destruct a|].
    rewrite !normalizeEndpoint_join by done. intros [= E].
    apply (f_equal (fun s => Strings.Split s "/")) in E.
    rewrite !Strings.Split_Join in E; try (by apply Forall_erased_no_slash).
    2-3: by destruct a, b.
    clear Hna Hnb. revert b Hb E. induction Ha as [|x a Hx Ha IH]; intros [|y b] Hb E; try done.
    { constructor. }
    apply Forall_cons in Hb as [Hy Hb]. injection E as E1 E2. constructor; [|by apply IH].
    by apply erased_inj.
  - unfold same_shape, normalizeEndpoint. clear.
    induction 1 as [|x y a b [Hp Hl] H IH]; [done|]. simpl. rewrite IH, <- Hp.
    destruct (param x); [done|]. by rewrite Hl.
Qed.

(** ** The endpoint theorems *)

(** [splitEndpoint] accepts exactly the renderings of 1 to 64 well-formed
    segments, returns those segments, and its loop never runs out. *)
Theorem endpoint_syntax_exact e :
  (forall segs,
     splitEndpoint e = Ok segs <->
     segs <> [] /\ length segs <= MaxEndpointDepth /\ Forall valid_seg segs /\
     e = render_endpoint segs) /\
  splitEndpoint e <> Err EpOutOfFuel.
Proof. split; [apply (proj1 splitEndpoint_spec)|apply (proj2 splitEndpoint_spec)]. Qed.

(** [checkEndpointUniqueness] accepts a list of parsed endpoints exactly when
    no concrete path is matched by two of them. *)
Theorem endpoint_conflicts_exact eps :
  Forall (fun e => Forall valid_seg e.2) eps ->
  checkEndpointUniqueness eps = Ok () <->
  forall i j a b path, eps !! i = Some a -> eps !! j = Some b -> i < j ->
    matches_path a.2 path -> ~ matches_path b.2 path.
Proof.
  intros Hv. rewrite checkEndpointUniqueness_spec. split.
  - intros H. induction H as [|x l Hx H IH]; [done|]. apply Forall_cons in Hv as [Hvx Hv].
    intros [|i] [|j] a b path Ha Hb Hij; try lia; simpl in *.
    + simplify_eq. intros H1 H2. apply (Forall_lookup_1 _ _ _ _ Hx Hb).
      apply overlapping_matches; [done|exact (Forall_lookup_1 _ _ _ _ Hv Hb)|eauto].
    + eapply (IH Hv i j); [done..|lia].
  - intros H. induction eps as [|x l IH]; [constructor|]. apply Forall_cons in Hv as [Hvx Hv].
    constructor.
    + apply Forall_forall. intros y [j Hj]%list_elem_of_lookup Ho.
      apply overlapping_matches in Ho as (path & H1 & H2); [|done|exact (Forall_lookup_1 _ _ _ _ Hv Hj)].
      eapply (H 0 (S j)); [done..|lia|exact H1|exact H2].
    + apply IH; [done|]. intros i j a b path Hi Hj Hij. apply (H (S i) (S j)); [done..|lia].
Qed.

Lemma endpoint_conflicts_exact_witness :
  checkEndpointUniqueness
    [("/a/%{x}"%go, [Seg "a"%go false; Seg "x"%go true]); ("/b/c"%go, [Seg "b"%go false; Seg "c"%go false])]
    = Ok () /\
  ~ matches_path [Seg "b"%go false; Seg "c"%go false] ["a"%go; "c"%go].
Proof.
  split; [reflexivity|].
  refine (proj1 (endpoint_conflicts_exact
    [("/a/%{x}"%go, [Seg "a"%go false; Seg "x"%go true]);
     ("/b/c"%go, [Seg "b"%go false; Seg "c"%go false])] _) eq_refl 0 1 _ _ _ eq_refl eq_refl _ _).
  - repeat constructor.
  - lia.
  - repeat constructor. done.
Defined.

End Endpoint.
