(* ===== verification/InterfaceParse.v ===== *)
(** * Parsing an interface definition
      ([src/pkg/interfaceschema/parse.go], [violations.go])

    [buildInterface] turns a decoded JSON document into an [Interface]: alias
    normalisation, defaults and every validation rule, collecting the
    field-shaped violations and stopping at the first plain error. The
    decoding of the JSON text itself is not modelled: the model starts from
    [interfaceJSON], the decoder's target, whose pointers are options. *)

From S2P Require Import Prelude GoStrings Regex SchemaTypes Endpoints.

Module Parse.
Import Schema Endpoint.

Definition MaxNameLength : nat := 128.
Definition MaxMappings : nat := 1024.
Definition MaxDescriptionLength : nat := 1000.
Definition MaxDocLength : Z := 100000.
Definition MinDatabaseRetentionTTL : Z := 60.
Definition MaxDatabaseRetentionTTL : Z := 630720000.

(** ** Data *)

Record Mapping := MkMapping {
  Endpoint : gostring;
  Type_ : ValueType;
  Reliability_ : Reliability;
  Retention_ : Retention;
  Expiry : Z;
  DatabaseRetentionPolicy_ : DatabaseRetentionPolicy;
  DatabaseRetentionTTL : Z;
  AllowUnset : bool;
  ExplicitTimestamp : bool;
  Required : bool;
  Encrypted : bool;
  Description : gostring;
  Doc : gostring;
}.

Record Interface := MkInterface {
  Name : gostring;
  Major : Z;
  Minor : Z;
  IType : InterfaceType;
  IOwnership : Ownership;
  IAggregation : Aggregation;
  IDescription : gostring;
  IDoc : gostring;
  Mappings : list Mapping;
}.

Record mappingJSON := MkMappingJSON {
  jEndpoint : option gostring;
  jPath : option gostring;
  jType : option ValueType;
  jReliability : option Reliability;
  jRetention : option Retention;
  jExpiry : option Z;
  jDatabaseRetentionPolicy : option DatabaseRetentionPolicy;
  jDatabaseRetentionTTL : option Z;
  jAllowUnset : option bool;
  jExplicitTimestamp : option bool;
  jRequired : option bool;
  jEncrypted : option bool;
  jmDescription : gostring;
  jmDoc : gostring;
}.

Record interfaceJSON := MkInterfaceJSON {
  jInterfaceName : option gostring;
  jVersionMajor : option Z;
  jVersionMinor : option Z;
  jIType : option InterfaceType;
  jOwnership : option Ownership;
  jQuality : option Ownership;
  jAggregate : option bool;
  jAggregation : option Aggregation;
  jDescription : gostring;
  jDoc : gostring;
  jMappings : list mappingJSON;
  aliases : bool;
}.

#[global] Instance Mapping_eq_dec : EqDecision Mapping.
Proof. solve_decision. Defined.
#[global] Instance Interface_eq_dec : EqDecision Interface.
Proof. solve_decision. Defined.

(** ** Collected violations *)

Record Violation := MkViolation {
  Field : gostring;
  Messages : list gostring;
  MappingIndex : Z;
}.

Record ViolationsError := MkViolations {
  Violations : list Violation;
  MappingCount : Z;
}.

Definition add (vc : ViolationsError) (field : gostring) (msgs : list gostring) : ViolationsError :=
  MkViolations (Violations vc ++ [MkViolation field msgs (-1)]) (MappingCount vc).

Definition addMapping (vc : ViolationsError) (index : nat) (field : gostring)
    (msgs : list gostring) : ViolationsError :=
  MkViolations (Violations vc ++ [MkViolation field msgs (Z.of_nat index)]) (MappingCount vc).

Definition empty (vc : ViolationsError) : bool := (length (Violations vc) =? 0)%nat.

(** The plain rejections, one constructor per message of the source. *)
Inductive build_error :=
| MissingField (name : gostring)
| NameTooLong
| InvalidName (name : gostring)
| NegativeMajor
| NegativeMinor
| BothVersionsZero
| PropertiesObject
| NoMappings
| TooManyMappings (n : nat)
| MappingMissingEndpoint
| MappingMissingType (endpoint : gostring)
| BadEndpoint (e : endpoint_error)
| NotAllowedOnProperties (endpoint attr : gostring)
| OnlyOnProperties (endpoint attr : gostring)
| NegativeExpiry (endpoint : gostring)
| TTLMissing (endpoint : gostring)
| TTLWithoutPolicy (endpoint : gostring)
| Conflict (e : conflict_error)
| ObjectDepth (endpoint ref : gostring)
| ObjectPrefix (endpoint ref : gostring)
| ObjectParametricLeaf (endpoint : gostring)
| ObjectAttribute (attr endpoint ref : gostring)
| Violated (vc : ViolationsError).

(** [errOrNil]. *)
Definition errOrNil (vc : ViolationsError) : result build_error () :=
  if empty vc then Ok () else Err (Violated vc).

Definition tooLongMessage (bound : Z) : gostring :=
  "should be at most "%go ++ Strconv.Itoa bound ++ " character(s)"%go.

(** [if len(s) > bound { vc.add... }], on a byte length. *)
Definition too_long (s : gostring) (bound : Z) : bool := (bound <? Z.of_nat (length s))%Z.

(** ** Interface names *)

Definition is_letter (c : ascii) : bool := between "a" "z" c || between "A" "Z" c.
Definition is_alnum (c : ascii) : bool := is_letter c || is_digit c.
Definition is_alnum_dash (c : ascii) : bool := is_alnum c || bool_decide (c = "-"%char).

(** A label is a letter then alphanumerics; a middle label is an alphanumeric
    then alphanumerics and hyphens; the name is
    [(label "." (middle ".")* )? label], anchored at both ends. *)
Definition interfaceNameRe : Regex.re :=
  let label := Regex.Cat (Regex.Chr is_letter) (Regex.Star (Regex.Chr is_alnum)) in
  let middle := Regex.Cat (Regex.Chr is_alnum) (Regex.Star (Regex.Chr is_alnum_dash)) in
  let dot := Regex.Lit "." in
  Regex.Cat
    (Regex.Opt (Regex.Cat (Regex.Cat label dot) (Regex.Star (Regex.Cat middle dot))))
    label.

(** ** One mapping *)

Definition opt_default {A} (o : option A) (d : A) : A := default d o.

(** The first field of [fields] that is present, by name. *)
Definition first_present (fields : list (bool * gostring)) : option gostring :=
  match filter (fun f => f.1 = true) fields with
  | f :: _ => Some f.2
  | [] => None
  end.

Definition present {A} (o : option A) : bool := match o with Some _ => true | None => false end.

(** The datastream-only attributes in the order the [switch] tests them. *)
Definition datastream_only (raw : mappingJSON) : list (bool * gostring) :=
  [(present (jReliability raw), "reliability"%go);
   (present (jRetention raw), "retention"%go);
   (present (jExpiry raw), "expiry"%go);
   (present (jExplicitTimestamp raw), "explicit_timestamp"%go);
   (present (jDatabaseRetentionPolicy raw), "database_retention_policy"%go);
   (present (jDatabaseRetentionTTL raw), "database_retention_ttl"%go);
   (present (jRequired raw), "required"%go);
   (present (jEncrypted raw), "encrypted"%go)].

(** The TTL [switch] of a datastream mapping: the stored TTL and the
    violations so far. *)
Definition build_ttl (endpoint : gostring) (policy : DatabaseRetentionPolicy) (rawTTL : option Z)
    (index : nat) (vc : ViolationsError) : result build_error (Z * ViolationsError) :=
  match policy, rawTTL with
  | UseTTL, None => Err (TTLMissing endpoint)
  | UseTTL, Some ttl =>
      if (ttl <? MinDatabaseRetentionTTL)%Z then
        Ok (0%Z, addMapping vc index "database_retention_ttl"%go
              ["must be greater than or equal to "%go ++ Strconv.Itoa MinDatabaseRetentionTTL])
      else if (MaxDatabaseRetentionTTL <=? ttl)%Z then
        Ok (0%Z, addMapping vc index "database_retention_ttl"%go
              ["must be less than "%go ++ Strconv.Itoa MaxDatabaseRetentionTTL])
      else Ok (ttl, vc)
  | NoTTL, Some _ => Err (TTLWithoutPolicy endpoint)
  | NoTTL, None => Ok (0%Z, vc)
  end.

(** [buildMapping], on a mapping whose path alias was resolved. *)
Definition buildMapping (raw : mappingJSON) (ifaceType : InterfaceType) (index : nat)
    (vc : ViolationsError)
    : result build_error (Mapping * list endpointSegment * ViolationsError) :=
  let? endpoint := or_err (jEndpoint raw) MappingMissingEndpoint in
  let? type := or_err (jType raw) (MappingMissingType endpoint) in
  let? segs := mapErr BadEndpoint (splitEndpoint endpoint) in
  let vc := if too_long (jmDescription raw) (Z.of_nat MaxDescriptionLength)
            then addMapping vc index "description"%go [tooLongMessage (Z.of_nat MaxDescriptionLength)]
            else vc in
  let vc := if too_long (jmDoc raw) MaxDocLength
            then addMapping vc index "doc"%go [tooLongMessage MaxDocLength] else vc in
  match ifaceType with
  | Properties =>
      match first_present (datastream_only raw) with
      | Some attr => Err (NotAllowedOnProperties endpoint attr)
      | None =>
          Ok (MkMapping endpoint type ReliabilityUnreliable RetentionDiscard 0 NoTTL 0
                (opt_default (jAllowUnset raw) false) false false false
                (jmDescription raw) (jmDoc raw), segs, vc)
      end
  | Datastream =>
      guard_err (negb (present (jAllowUnset raw))) (OnlyOnProperties endpoint "allow_unset"%go) ;;?
      guard_err (match jExpiry raw with Some e => (0 <=? e)%Z | None => true end)
        (NegativeExpiry endpoint) ;;?
      let policy := opt_default (jDatabaseRetentionPolicy raw) NoTTL in
      let? (ttl, vc) := build_ttl endpoint policy (jDatabaseRetentionTTL raw) index vc in
      Ok (MkMapping endpoint type
            (opt_default (jReliability raw) ReliabilityUnreliable)
            (opt_default (jRetention raw) RetentionDiscard)
            (opt_default (jExpiry raw) 0%Z) policy ttl false
            (opt_default (jExplicitTimestamp raw) false)
            (opt_default (jRequired raw) false)
            (opt_default (jEncrypted raw) false)
            (jmDescription raw) (jmDoc raw), segs, vc)
  end.

(** The path alias of one mapping: whether it was used, and the mapping
    without it. *)
Definition resolve_path (mj : mappingJSON) : bool * mappingJSON :=
  match jPath mj with
  | None => (false, mj)
  | Some path =>
      (true,
       MkMappingJSON
         (match jEndpoint mj with None => Some path | Some e => Some e end) None
         (jType mj) (jReliability mj) (jRetention mj) (jExpiry mj)
         (jDatabaseRetentionPolicy mj) (jDatabaseRetentionTTL mj) (jAllowUnset mj)
         (jExplicitTimestamp mj) (jRequired mj) (jEncrypted mj) (jmDescription mj) (jmDoc mj))
  end.

(** The loop over the mappings from index [i]: the parsed mappings with their
    segments, the violations, the alias flag and the rewritten documents. *)
Fixpoint build_mappings (raws : list mappingJSON) (ifaceType : InterfaceType) (i : nat)
    (vc : ViolationsError) (used : bool)
    : result build_error
        (list (Mapping * list endpointSegment) * ViolationsError * bool * list mappingJSON) :=
  match raws with
  | [] => Ok ([], vc, used, [])
  | raw :: raws =>
      let '(alias, mj) := resolve_path raw in
      let? (m, segs, vc) := buildMapping mj ifaceType i vc in
      let? (ms, vc, used, mjs) := build_mappings raws ifaceType (S i) vc (used || alias) in
      Ok ((m, segs) :: ms, vc, used, mj :: mjs)
  end.

(** ** Object aggregation *)

Definition sameObjectAttributes (ref m : Mapping) : result build_error () :=
  let attr :=
    if decide (Reliability_ m = Reliability_ ref) then
    if decide (Retention_ m = Retention_ ref) then
    if decide (Expiry m = Expiry ref) then
    if decide (ExplicitTimestamp m = ExplicitTimestamp ref) then
    if decide (DatabaseRetentionPolicy_ m = DatabaseRetentionPolicy_ ref) then
    if decide (DatabaseRetentionTTL m = DatabaseRetentionTTL ref) then []
    else "database_retention_ttl"%go
    else "database_retention_policy"%go
    else "explicit_timestamp"%go
    else "expiry"%go
    else "retention"%go
    else "reliability"%go in
  if decide (attr = []) then Ok ()
  else Err (ObjectAttribute attr (Endpoint m) (Endpoint ref)).

(** The prefix loop [for k := 0; k < len(segs)-1; k++]. *)
Definition same_prefix (segs first : list endpointSegment) : bool :=
  bool_decide (take (length segs - 1) segs = take (length segs - 1) first).

Definition check_object_mapping (ref : Mapping) (first : list endpointSegment)
    (m : Mapping) (segs : list endpointSegment) : result build_error () :=
  guard_err (length segs =? length first)%nat (ObjectDepth (Endpoint m) (Endpoint ref)) ;;?
  guard_err (same_prefix segs first) (ObjectPrefix (Endpoint m) (Endpoint ref)) ;;?
  guard_err (match last segs with Some s => negb (param s) | None => true end)
    (ObjectParametricLeaf (Endpoint m)) ;;?
  sameObjectAttributes ref m.

Fixpoint check_object_all (ref : Mapping) (first : list endpointSegment)
    (ms : list (Mapping * list endpointSegment)) : result build_error () :=
  match ms with
  | [] => Ok ()
  | (m, segs) :: ms => check_object_mapping ref first m segs ;;? check_object_all ref first ms
  end.

Definition checkObjectAggregation (ms : list (Mapping * list endpointSegment))
    : result build_error () :=
  match ms with
  | [] => Ok ()
  | (ref, first) :: _ => check_object_all ref first ms
  end.

(** ** The whole interface *)

(** The legacy [quality] and [aggregate] aliases. *)
Definition resolve_quality (raw : interfaceJSON) (vc : ViolationsError)
    : option Ownership * bool * ViolationsError :=
  match jQuality raw with
  | None => (jOwnership raw, aliases raw, vc)
  | Some q =>
      match jOwnership raw with
      | Some o => (Some o, true,
                   add vc "ownership"%go ["ownership and quality are mutually exclusive"%go])
      | None => (Some q, true, vc)
      end
  end.

Definition resolve_aggregate (raw : interfaceJSON) (used : bool) (vc : ViolationsError)
    : option Aggregation * bool * ViolationsError :=
  match jAggregate raw with
  | None => (jAggregation raw, used, vc)
  | Some b =>
      match jAggregation raw with
      | Some a => (Some a, true,
                   add vc "aggregation"%go ["aggregation and aggregate are mutually exclusive"%go])
      | None => (Some (if b : bool then AggregationObject else AggregationIndividual), true, vc)
      end
  end.

Definition check_versions (major minor : Z) : result build_error () :=
  guard_err (negb (major <? 0)%Z) NegativeMajor ;;?
  guard_err (negb (minor <? 0)%Z) NegativeMinor ;;?
  guard_err (negb ((major =? 0)%Z && (minor =? 0)%Z)) BothVersionsZero.

(** [buildInterface]: the interface and the document with its aliases
    resolved (the pointer argument is rewritten in place). *)
Definition buildInterface (raw : interfaceJSON)
    : result build_error (Interface * interfaceJSON) :=
  let vc := MkViolations [] 0 in
  let '(ownership, used, vc) := resolve_quality raw vc in
  let '(aggregation, used, vc) := resolve_aggregate raw used vc in
  let? name := or_err (jInterfaceName raw) (MissingField "interface_name"%go) in
  let? major := or_err (jVersionMajor raw) (MissingField "version_major"%go) in
  let? minor := or_err (jVersionMinor raw) (MissingField "version_minor"%go) in
  let? type := or_err (jIType raw) (MissingField "type"%go) in
  let? own := or_err ownership (MissingField "ownership"%go) in
  guard_err (length name <=? MaxNameLength)%nat NameTooLong ;;?
  guard_err (Regex.MatchString interfaceNameRe name) (InvalidName name) ;;?
  check_versions major minor ;;?
  let agg := opt_default aggregation AggregationIndividual in
  guard_err (negb (bool_decide (type = Properties) && bool_decide (agg = AggregationObject)))
    PropertiesObject ;;?
  guard_err (negb (length (jMappings raw) =? 0)%nat) NoMappings ;;?
  guard_err (length (jMappings raw) <=? MaxMappings)%nat
    (TooManyMappings (length (jMappings raw))) ;;?
  let vc := MkViolations (Violations vc) (Z.of_nat (length (jMappings raw))) in
  let vc := if too_long (jDescription raw) (Z.of_nat MaxDescriptionLength)
            then add vc "description"%go [tooLongMessage (Z.of_nat MaxDescriptionLength)] else vc in
  let vc := if too_long (jDoc raw) MaxDocLength
            then add vc "doc"%go [tooLongMessage MaxDocLength] else vc in
  let? (ms, vc, used, mjs) := build_mappings (jMappings raw) type 0 vc used in
  errOrNil vc ;;?
  mapErr Conflict (checkEndpointUniqueness (map (fun m => (Endpoint m.1, m.2)) ms)) ;;?
  (if decide (agg = AggregationObject) then checkObjectAggregation ms else Ok ()) ;;?
  Ok (MkInterface name major minor type own agg (jDescription raw) (jDoc raw) (map fst ms),
      MkInterfaceJSON (Some name) (Some major) (Some minor) (Some type) (Some own) None None
        aggregation (jDescription raw) (jDoc raw) mjs used).

(** [ParseInterfaceCanonical] after decoding: the canonical document is
    returned only when an alias was consumed. *)
Definition ParseInterfaceCanonical (raw : interfaceJSON)
    : result build_error (Interface * option interfaceJSON) :=
  let? (iface, raw') := buildInterface raw in
  if negb (aliases raw') then Ok (iface, None) else Ok (iface, Some raw').

(** ** What an accepted interface promises *)

(** The dot-separated labels of a name. *)
Definition plain_label (l : gostring) : bool :=
  match l with
  | [] => false
  | c :: l => is_letter c && forallb is_alnum l
  end.
Definition middle_label (l : gostring) : bool :=
  match l with
  | [] => false
  | c :: l => is_alnum c && forallb is_alnum_dash l
  end.
Definition name_labels_ok (labels : list gostring) : Prop :=
  (exists l, labels = [l] /\ plain_label l = true) \/
  (exists first middles lst, labels = first :: middles ++ [lst] /\ plain_label first = true /\
     Forall (fun l => middle_label l = true) middles /\ plain_label lst = true).

Definition wf_ttl (m : Mapping) : Prop :=
  match DatabaseRetentionPolicy_ m with
  | UseTTL => (MinDatabaseRetentionTTL <= DatabaseRetentionTTL m < MaxDatabaseRetentionTTL)%Z
  | NoTTL => DatabaseRetentionTTL m = 0%Z
  end.

Definition wf_mapping (t : InterfaceType) (m : Mapping) : Prop :=
  too_long (Description m) (Z.of_nat MaxDescriptionLength) = false /\
  too_long (Doc m) MaxDocLength = false /\
  match t with
  | Properties =>
      Reliability_ m = ReliabilityUnreliable /\ Retention_ m = RetentionDiscard /\
      Expiry m = 0%Z /\ DatabaseRetentionPolicy_ m = NoTTL /\ DatabaseRetentionTTL m = 0%Z /\
      ExplicitTimestamp m = false /\ Required m = false /\ Encrypted m = false
  | Datastream => AllowUnset m = false /\ (0 <= Expiry m)%Z /\ wf_ttl m
  end.

(** Attributes an object's mappings share. *)
Definition object_attrs (m : Mapping) :=
  (Reliability_ m, Retention_ m, Expiry m, ExplicitTimestamp m,
   DatabaseRetentionPolicy_ m, DatabaseRetentionTTL m).

(** One prefix, a literal leaf per mapping, uniform attributes. *)
Definition object_shape (ms : list (Mapping * list endpointSegment)) : Prop :=
  exists prefix attrs,
    Forall (fun m => (exists leaf, m.2 = prefix ++ [Seg leaf false]) /\ object_attrs m.1 = attrs) ms.

Record wf_interface (iface : Interface) : Prop := {
  wf_name_length : length (Name iface) <= MaxNameLength;
  wf_name : name_labels_ok (Strings.Split (Name iface) ".");
  wf_versions : (0 <= Major iface /\ 0 <= Minor iface /\ 0 < Major iface + Minor iface)%Z;
  wf_properties : IType iface = Properties -> IAggregation iface = AggregationIndividual;
  wf_count : 1 <= length (Mappings iface) <= MaxMappings;
  wf_description : too_long (IDescription iface) (Z.of_nat MaxDescriptionLength) = false;
  wf_doc : too_long (IDoc iface) MaxDocLength = false;
  wf_mappings : Forall (wf_mapping (IType iface)) (Mappings iface);
  wf_endpoints : exists segss,
    Forall2 (fun m segs => splitEndpoint (Endpoint m) = Ok segs) (Mappings iface) segss /\
    ForallOrdPairs (fun a b => ~ overlapping a b) segss /\
    (IAggregation iface = AggregationObject -> object_shape (zip (Mappings iface) segss));
}.

(** ** Names *)

Lemma lang_label p q s :
  Regex.lang (Regex.Cat (Regex.Chr p) (Regex.Star (Regex.Chr q))) s <->
  exists c l, s = c :: l /\ p c = true /\ forallb q l = true.
Proof.
  rewrite Regex.lang_cat_inv. setoid_rewrite Regex.lang_chr_inv.
  setoid_rewrite Regex.lang_star_chr.
  split.
  - intros (s1 & s2 & -> & (c & -> & Hc) & Hs). exists c, s2. repeat split; [done|].
    apply forallb_forall. intros x Hx. rewrite Forall_forall in Hs.
    by apply Hs, list_elem_of_In.
  - intros (c & l & -> & Hc & Hl). exists [c], l. repeat split; [by exists c|].
    rewrite Forall_forall. rewrite forallb_forall in Hl. intros x Hx.
    by apply Hl, list_elem_of_In.
Qed.

Lemma lang_plain s :
  Regex.lang (Regex.Cat (Regex.Chr is_letter) (Regex.Star (Regex.Chr is_alnum))) s <->
  plain_label s = true.
Proof.
  rewrite lang_label. unfold plain_label. split.
  - intros (c & l & -> & -> & ->). done.
  - destruct s as [|c l]; [done|]. intros [? ?]%andb_true_iff. eauto.
Qed.

Lemma lang_middle s :
  Regex.lang (Regex.Cat (Regex.Chr is_alnum) (Regex.Star (Regex.Chr is_alnum_dash))) s <->
  middle_label s = true.
Proof.
  rewrite lang_label. unfold middle_label. split.
  - intros (c & l & -> & -> & ->). done.
  - destruct s as [|c l]; [done|]. intros [? ?]%andb_true_iff. eauto.
Qed.

Lemma label_no_dot s :
  plain_label s = true \/ middle_label s = true -> "."%char ∉ s.
Proof.
  assert (forall c l, (is_letter c && forallb is_alnum l = true \/
                       is_alnum c && forallb is_alnum_dash l = true) -> "."%char ∉ c :: l) as H.
  { intros c l H Hin.
    apply list_elem_of_In in Hin as [->|Hin]; [by destruct H|].
    destruct H as [[_ H]%andb_true_iff|[_ H]%andb_true_iff];
      rewrite forallb_forall in H; by apply H in Hin. }
  destruct s as [|c l]; [set_solver|]. simpl. auto.
Qed.

(** A word of [(middle "." )*] is a list of middle labels, each followed by a
    dot. *)
Lemma dotted_concat l :
  Forall (Regex.lang (Regex.Cat
    (Regex.Cat (Regex.Chr is_alnum) (Regex.Star (Regex.Chr is_alnum_dash))) (Regex.Lit "."))) l <->
  exists ms, l = map (fun m => m ++ ["."%char]) ms /\ Forall (fun m => middle_label m = true) ms.
Proof.
  split.
  - induction 1 as [|s l Hs _ (ms & -> & Hms)]; [by exists []|].
    apply Regex.lang_cat_inv in Hs as (s1 & s2 & -> & H1%lang_middle & ->%Regex.lang_lit_inv).
    exists (s1 :: ms). by split; [|constructor].
  - intros (ms & -> & Hms). apply Forall_fmap. eapply Forall_impl; [done|]. intros m Hm.
    simpl. apply Regex.lang_cat_inv. exists m, ["."%char].
    split; [done|]. split; [by apply lang_middle|by apply Regex.lang_lit_inv].
Qed.

Lemma Split_dotted ms s :
  Forall (fun m => middle_label m = true) ms ->
  "."%char ∉ s ->
  Strings.Split (concat (map (fun m => m ++ ["."%char]) ms) ++ s) "." = ms ++ [s].
Proof.
  intros Hms Hs. induction Hms as [|m ms Hm _ IH]; simpl; [by apply Strings.Split_none|].
  rewrite <- !app_assoc. simpl. rewrite Strings.Split_app by (apply label_no_dot; auto).
  by rewrite IH.
Qed.

Lemma interface_name_split name :
  Regex.MatchString interfaceNameRe name = true <-> name_labels_ok (Strings.Split name ".").
Proof.
  rewrite Regex.MatchString_spec. unfold interfaceNameRe, Regex.Opt, name_labels_ok.
  rewrite Regex.lang_cat_inv. setoid_rewrite Regex.lang_alt_inv.
  setoid_rewrite lang_plain. split.
  - intros (s1 & s2 & -> & [H1| ->%Regex.lang_eps_inv] & H2).
    + apply Regex.lang_cat_inv in H1 as (p & q & -> & Hp & Hq).
      apply Regex.lang_cat_inv in Hp as (f & d & -> & Hf%lang_plain & ->%Regex.lang_lit_inv).
      apply Regex.lang_star_concat in Hq as (l & -> & (ms & -> & Hms)%dotted_concat).
      right. exists f, ms, s2. repeat split; [|done..].
      rewrite <- !app_assoc. simpl.
      rewrite Strings.Split_app by (apply label_no_dot; auto).
      by rewrite Split_dotted by (try apply label_no_dot; auto).
    + left. exists s2. split; [|done]. apply Strings.Split_none, label_no_dot. auto.
  - intros H. rewrite <- (Strings.Join_Split name ".").
    destruct H as [(l & -> & Hl)|(f & ms & lst & -> & Hf & Hms & Hl)].
    + exists [], l. repeat split; [|done]. right. by apply Regex.lang_eps_inv.
    + exists ((f ++ ["."%char]) ++ concat (map (fun m => m ++ ["."%char]) ms)), lst.
      split; [|split; [left|done]].
      * rewrite Strings.Join_cons by (by destruct ms). rewrite <- !app_assoc. simpl. do 2 f_equal.
        clear. induction ms as [|m ms IH]; cbn [app map concat]; [done|].
        rewrite Strings.Join_cons by (by destruct ms). rewrite IH, <- !app_assoc. done.
      * apply Regex.lang_cat_inv. do 2 eexists. split; [done|]. split.
        { apply Regex.lang_cat_inv. exists f, ["."%char]. split; [done|].
          split; [by apply lang_plain|by apply Regex.lang_lit_inv]. }
        apply Regex.lang_star_concat. eexists. split; [done|]. apply dotted_concat. eauto.
Qed.

(** ** Violations only accumulate *)

(** [vc'] is [vc] with more violations, all of them against mapping [i]. *)
Definition extends (i : nat) (vc vc' : ViolationsError) : Prop :=
  MappingCount vc' = MappingCount vc /\
  exists new, Violations vc' = Violations vc ++ new /\
    Forall (fun v => MappingIndex v = Z.of_nat i /\ Messages v <> []) new.

Lemma extends_refl i vc : extends i vc vc.
Proof. split; [done|]. exists []. by rewrite app_nil_r. Qed.

Lemma extends_add i vc vc' f msg :
  extends i vc vc' -> extends i vc (addMapping vc' i f [msg]).
Proof.
  intros [Hc (new & Hn & HF)]. split; [done|]. simpl. rewrite Hn, <- app_assoc.
  eexists. split; [done|]. apply Forall_app. split; [done|]. by repeat constructor.
Qed.

Lemma extends_if (b : bool) i vc vc' f msg :
  extends i vc vc' -> extends i vc (if b then addMapping vc' i f [msg] else vc').
Proof. intros H. destruct b; [by apply extends_add|done]. Qed.

Lemma empty_nil vc : empty vc = true <-> Violations vc = [].
Proof. unfold empty. destruct (Violations vc); simpl; split; done. Qed.

Lemma empty_add vc i f msgs : empty (addMapping vc i f msgs) = false.
Proof. unfold empty. simpl. rewrite length_app. simpl. apply Nat.eqb_neq. lia. Qed.

Lemma empty_extends i vc vc' : extends i vc vc' -> empty vc' = true -> empty vc = true.
Proof.
  intros [_ (new & Hn & _)]. rewrite !empty_nil, Hn. by intros [-> _]%app_eq_nil.
Qed.

#[local] Hint Resolve extends_refl extends_add : astrate.

Lemma build_ttl_spec e p raw i vc ttl vc' :
  build_ttl e p raw i vc = Ok (ttl, vc') ->
  extends i vc vc' /\
  (empty vc' = true ->
   vc' = vc /\
   match p with
   | UseTTL => (MinDatabaseRetentionTTL <= ttl < MaxDatabaseRetentionTTL)%Z
   | NoTTL => ttl = 0%Z
   end).
Proof.
  unfold build_ttl. destruct p, raw as [t|]; try done.
  - intros [= <- <-]. auto with astrate.
  - destruct (_ <? _)%Z eqn:E1; [|destruct (_ <=? _)%Z eqn:E2]; intros [= <- <-];
      rewrite ?empty_add; (split; [auto with astrate|]); try done.
    bool_hyps. done.
Qed.

Lemma first_present_None l : first_present l = None <-> Forall (fun f => f.1 = false) l.
Proof.
  unfold first_present. induction l as [|[b n] l IH]; [split; [constructor|done]|].
  rewrite Forall_cons. destruct b; simpl; [naive_solver|]. rewrite <- IH.
  rewrite filter_cons_False by done. naive_solver.
Qed.

Lemma present_false {A} (o : option A) : present o = false <-> o = None.
Proof. by destruct o. Qed.

(** One mapping: its endpoint is parsed, only violations against it are
    added, and if none is, it is well formed. *)
Lemma buildMapping_sound raw t i vc m segs vc' :
  buildMapping raw t i vc = Ok (m, segs, vc') ->
  splitEndpoint (Endpoint m) = Ok segs /\ extends i vc vc' /\
  (empty vc' = true -> vc' = vc /\ wf_mapping t m).
Proof.
  unfold buildMapping. intros H. inv_ok H.
  set (vc1 := if too_long (jmDescription raw) _ then _ else vc) in *.
  set (vc2 := if too_long (jmDoc raw) _ then _ else vc1) in *.
  assert (extends i vc vc1) as He1 by (apply extends_if, extends_refl).
  assert (extends i vc vc2) as He2 by (by apply extends_if).
  assert (empty vc2 = true -> vc2 = vc /\
    too_long (jmDescription raw) (Z.of_nat MaxDescriptionLength) = false /\
    too_long (jmDoc raw) MaxDocLength = false) as Hlen.
  { subst vc1 vc2. destruct (too_long (jmDoc raw) _); [by rewrite empty_add|].
    destruct (too_long (jmDescription raw) _); [by rewrite empty_add|]. done. }
  clearbody vc1 vc2. destruct t.
  - inv_ok H. destruct a4 as [ttl vc3]. simplify_eq/=.
    match goal with Ht : build_ttl _ _ _ _ _ = _ |- _ =>
      pose proof (build_ttl_spec _ _ _ _ _ _ _ Ht) as [[Hc (n2 & Hn2 & HF2)] Hempty] end.
    destruct He2 as [Hc2 (n1 & Hn1 & HF1)].
    split; [done|]. split.
    + split; [congruence|]. exists (n1 ++ n2). rewrite Hn2, Hn1, <- app_assoc. split; [done|].
      by apply Forall_app.
    + intros He. destruct (Hempty He) as [-> Httl]. destruct (Hlen He) as (-> & ? & ?).
      split; [done|]. unfold wf_mapping, wf_ttl. simpl. repeat split; try done.
      destruct (jExpiry raw); simpl; bool_hyps; [done|lia].
  - destruct (first_present _) eqn:Hp; [done|]. simplify_eq/=.
    split; [done|]. split; [done|]. intros He. destruct (Hlen He) as (-> & ? & ?).
    split; [done|]. unfold wf_mapping. simpl. done.
Qed.

Lemma build_mappings_sound raws t i vc used ms vc' used' mjs :
  build_mappings raws t i vc used = Ok (ms, vc', used', mjs) ->
  length ms = length raws /\
  Forall (fun m => splitEndpoint (Endpoint m.1) = Ok m.2) ms /\
  MappingCount vc' = MappingCount vc /\
  (exists new, Violations vc' = Violations vc ++ new /\
    Forall (fun v => (Z.of_nat i <= MappingIndex v < Z.of_nat (i + length raws))%Z /\
                     Messages v <> []) new) /\
  (empty vc' = true -> vc' = vc /\ Forall (fun m => wf_mapping t m.1) ms).
Proof.
  revert i vc used ms vc' used' mjs.
  induction raws as [|raw raws IH]; intros i vc used ms vc' used' mjs; simpl.
  { intros [= <- <- <- <-]. repeat split; [constructor| |constructor].
    exists []. rewrite app_nil_r. split; [done|constructor]. }
  destruct (resolve_path raw) as [alias mj]. intros H.
  apply bindR_Ok in H as ([[m segs] vc1] & Hm & H).
  apply bindR_Ok in H as ([[[ms2 vc2] u2] mjs2] & Hms & H). injection H as <- <- <- <-.
  apply buildMapping_sound in Hm as (Hs & [Hc (n1 & Hn1 & HF1)] & He1).
  apply IH in Hms as (Hl & HF & Hc2 & (n2 & Hn2 & HF2) & He2).
  split; [simpl; congruence|]. split; [by constructor|]. split; [congruence|]. split.
  - exists (n1 ++ n2). rewrite Hn2, Hn1, <- app_assoc. split; [done|]. apply Forall_app. split.
    + eapply Forall_impl; [exact HF1|]. simpl. intros v [-> ?]. split; [lia|done].
    + eapply Forall_impl; [exact HF2|]. simpl. intros v [? ?]. split; [lia|done].
  - intros He. destruct (He2 He) as [-> HF']. destruct (He1 He) as [-> Hw].
    split; [done|]. by constructor.
Qed.

(** ** Object aggregation *)

Lemma sameObjectAttributes_spec ref m :
  sameObjectAttributes ref m = Ok () <-> object_attrs m = object_attrs ref.
Proof.
  unfold sameObjectAttributes, object_attrs.
  repeat case_decide; split; try done; try congruence; naive_solver congruence.
Qed.

Lemma take_last {A} (l : list A) x : last l = Some x -> l = take (length l - 1) l ++ [x].
Proof.
  intros [l' ->]%last_Some. rewrite length_app. simpl.
  replace (length l' + 1 - 1) with (length l') by lia. by rewrite take_app_length.
Qed.

Lemma check_object_mapping_spec ref first m segs :
  segs <> [] ->
  check_object_mapping ref first m segs = Ok () <->
  length segs = length first /\
  (exists leaf, segs = take (length first - 1) first ++ [Seg leaf false]) /\
  object_attrs m = object_attrs ref.
Proof.
  intros Hne. unfold check_object_mapping, same_prefix. rewrite <- sameObjectAttributes_spec.
  destruct (last segs) as [s|] eqn:El; [|by apply last_None in El].
  split.
  - intros H. inv_ok H. bool_hyps. split; [done|]. split; [|by destruct u || done].
    pose proof (take_last _ _ El) as E. exists (literal s).
    rewrite E. replace (length first) with (length segs) by done.
    match goal with Ht : take _ segs = take _ first |- _ => rewrite Ht end.
    destruct s as [lit []]; done.
  - intros (Hl & (leaf & Hs) & Ha).
    assert (s = Seg leaf false) as ->.
    { rewrite Hs, last_snoc in El. congruence. }
    assert (take (length segs - 1) segs = take (length first - 1) first) as Ht.
    { rewrite Hs at 2. rewrite Hl. apply take_app_length'. rewrite length_take. lia. }
    rewrite (proj2 (Nat.eqb_eq _ _) Hl), (bool_decide_eq_true_2 _) by (by rewrite Ht, Hl). done.
Qed.

Lemma check_object_all_spec ref first ms :
  Forall (fun m => m.2 <> []) ms ->
  check_object_all ref first ms = Ok () <->
  Forall (fun m => length m.2 = length first /\
    (exists leaf, m.2 = take (length first - 1) first ++ [Seg leaf false]) /\
    object_attrs m.1 = object_attrs ref) ms.
Proof.
  induction 1 as [|[m segs] ms Hne _ IH]; simpl; [split; [constructor|done]|].
  rewrite Forall_cons, bindR_Ok. simpl. rewrite <- IH, <- check_object_mapping_spec by done.
  split; [intros ([] & ? & ?); done|]. intros [? ?]. by exists ().
Qed.

Lemma checkObjectAggregation_spec ms :
  Forall (fun m => m.2 <> []) ms -> checkObjectAggregation ms = Ok () <-> object_shape ms.
Proof.
  intros Hne. unfold checkObjectAggregation, object_shape. destruct ms as [|[ref first] ms].
  { split; [|done]. intros _. exists [], (object_attrs (MkMapping [] Double
      ReliabilityUnreliable RetentionDiscard 0 NoTTL 0 false false false false [] [])).
    constructor. }
  rewrite (check_object_all_spec _ _ _ Hne). split.
  - intros H. eexists _, _. eapply Forall_impl; [exact H|]. simpl. naive_solver.
  - intros (prefix & attrs & H). pose proof H as [[(leaf & Hf) Ha] _]%Forall_cons. simpl in *.
    assert (take (length first - 1) first = prefix) as ->.
    { subst first. rewrite length_app. simpl. apply take_app_length'. lia. }
    eapply Forall_impl; [exact H|]. simpl. intros m [(lf & ->) Hm].
    split; [|split; [eauto|congruence]]. subst first. by rewrite !length_app.
Qed.

(** ** Accepted interfaces are exactly the well-formed ones *)

Lemma check_versions_spec major minor u :
  check_versions major minor = Ok u <-> (0 <= major /\ 0 <= minor /\ 0 < major + minor)%Z.
Proof.
  unfold check_versions. split.
  - intros H. inv_ok H. bool_hyps.
    destruct (major =? 0)%Z eqn:E; simpl in *; bool_hyps; lia.
  - intros (? & ? & ?). destruct u.
    rewrite (proj2 (Z.ltb_ge major 0)), (proj2 (Z.ltb_ge minor 0)) by lia. simpl.
    destruct (major =? 0)%Z eqn:E1, (minor =? 0)%Z eqn:E2; bool_hyps; simpl; try done. lia.
Qed.

Lemma splitEndpoint_nonempty e segs : splitEndpoint e = Ok segs -> segs <> [].
Proof. intros H. by apply (proj1 splitEndpoint_spec) in H as [? _]. Qed.

(** The alias steps leave the violations empty only when they add none. *)
Lemma resolve_quality_empty raw vc o u vc' :
  resolve_quality raw vc = (o, u, vc') -> empty vc' = true -> vc' = vc /\
  (forall q, jQuality raw = Some q -> jOwnership raw = None /\ o = Some q /\ u = true) /\
  (jQuality raw = None -> o = jOwnership raw /\ u = aliases raw).
Proof.
  unfold resolve_quality. destruct (jQuality raw) as [q|], (jOwnership raw) as [o'|];
    intros [= <- <- <-]; try naive_solver.
  unfold empty, add. simpl. rewrite length_app. simpl. intros E. bool_hyps. lia.
Qed.

Lemma resolve_aggregate_empty raw used vc a u vc' :
  resolve_aggregate raw used vc = (a, u, vc') -> empty vc' = true -> vc' = vc /\
  (jAggregate raw <> None -> jAggregation raw = None /\ u = true) /\
  (jAggregate raw = None -> a = jAggregation raw /\ u = used).
Proof.
  unfold resolve_aggregate. destruct (jAggregate raw) as [q|], (jAggregation raw) as [o'|];
    intros [= <- <- <-]; try naive_solver.
  unfold empty, add. simpl. rewrite length_app. simpl. intros E. bool_hyps. lia.
Qed.

Lemma empty_add_if (b : bool) vc f msgs :
  empty (if b then add vc f msgs else vc) = true -> b = false /\ empty vc = true.
Proof.
  destruct b; [|done]. unfold empty, add. simpl. rewrite length_app. simpl.
  intros E. bool_hyps. lia.
Qed.

Lemma errOrNil_Ok vc u : errOrNil vc = Ok u <-> empty vc = true.
Proof. unfold errOrNil. destruct (empty vc), u; naive_solver. Qed.

Lemma endpoints_of ms :
  Forall (fun m : Mapping * list endpointSegment => splitEndpoint (Endpoint m.1) = Ok m.2) ms ->
  Forall2 (fun m segs => splitEndpoint (Endpoint m) = Ok segs) (map fst ms) (map snd ms).
Proof. induction 1; simpl; constructor; done. Qed.

Lemma ForallOrdPairs_map {A B} (f : A -> B) (R : B -> B -> Prop) l :
  ForallOrdPairs (fun a b => R (f a) (f b)) l <-> ForallOrdPairs R (map f l).
Proof.
  induction l as [|x l IH]; simpl; [split; constructor|]. split; inversion 1; subst.
  - constructor; [by apply Forall_fmap|by apply IH].
  - constructor; [|by apply IH]. by eapply Forall_fmap.
Qed.

Lemma zip_fst_snd {A B} (l : list (A * B)) : zip (map fst l) (map snd l) = l.
Proof. induction l as [|[] l IH]; simpl; [done|]. by rewrite IH. Qed.

Lemma buildInterface_sound raw iface raw' :
  buildInterface raw = Ok (iface, raw') -> wf_interface iface.
Proof.
  unfold buildInterface. destruct (resolve_quality raw _) as [[own0 u1] vc1] eqn:Eq.
  destruct (resolve_aggregate raw u1 vc1) as [[agg0 u2] vc2] eqn:Ea. intros H. inv_ok H.
  destruct a10 as [[[ms vc3] u3] mjs]. inv_ok H. simplify_eq.
  match goal with Hm : build_mappings _ _ _ _ _ = Ok _ |- _ => rename Hm into Hms end.
  match goal with Hm : errOrNil _ = Ok _ |- _ => rename Hm into Herr end.
  apply errOrNil_Ok in Herr.
  apply build_mappings_sound in Hms as (Hl & HF & _ & _ & He).
  destruct (He Herr) as [-> Hwf]. clear He.
  apply empty_add_if in Herr as [Hdoc Herr]. apply empty_add_if in Herr as [Hdesc Herr].
  match goal with Hm : check_versions _ _ = Ok _ |- _ => apply check_versions_spec in Hm end.
  bool_hyps. constructor; simpl; try done.
  - by apply interface_name_split.
  - intros ->. destruct (opt_default agg0 _); [done|].
    rewrite !bool_decide_eq_true_2 in * by done. done.
  - rewrite length_map. split; [lia|congruence].
  - by apply Forall_fmap.
  - exists (map snd ms). split; [by apply endpoints_of|]. split.
    + apply ForallOrdPairs_map.
      match goal with Hu : checkEndpointUniqueness _ = Ok ?u |- _ => destruct u;
        apply checkEndpointUniqueness_spec in Hu;
        apply (ForallOrdPairs_map _ (fun a b => ~ overlapping a.2 b.2)) in Hu; exact Hu end.
    + intros Ho. rewrite zip_fst_snd. apply checkObjectAggregation_spec.
      { eapply Forall_impl; [exact HF|]. intros m Hm. exact (splitEndpoint_nonempty _ _ Hm). }
      match goal with Hu : (if decide _ then _ else _) = Ok ?u |- _ =>
        destruct u; by rewrite decide_True in Hu end.
Qed.

(** The document of an interface, every field spelled out. *)
Definition mapping_document (t : InterfaceType) (m : Mapping) : mappingJSON :=
  let ds {A} (x : A) : option A := match t with Datastream => Some x | Properties => None end in
  MkMappingJSON (Some (Endpoint m)) None (Some (Type_ m))
    (ds (Reliability_ m)) (ds (Retention_ m)) (ds (Expiry m)) (ds (DatabaseRetentionPolicy_ m))
    (match t, DatabaseRetentionPolicy_ m with
     | Datastream, UseTTL => Some (DatabaseRetentionTTL m)
     | _, _ => None
     end)
    (match t with Datastream => None | Properties => Some (AllowUnset m) end)
    (ds (ExplicitTimestamp m)) (ds (Required m)) (ds (Encrypted m)) (Description m) (Doc m).

Definition document (iface : Interface) : interfaceJSON :=
  MkInterfaceJSON (Some (Name iface)) (Some (Major iface)) (Some (Minor iface))
    (Some (IType iface)) (Some (IOwnership iface)) None None (Some (IAggregation iface))
    (IDescription iface) (IDoc iface) (map (mapping_document (IType iface)) (Mappings iface)) false.

Lemma buildMapping_document t m segs i vc :
  wf_mapping t m -> splitEndpoint (Endpoint m) = Ok segs ->
  buildMapping (mapping_document t m) t i vc = Ok (m, segs, vc).
Proof.
  intros (Hd & Hdoc & Ht) Hs. destruct m as [e ty rel ret ex pol ttl au et rq en de do].
  unfold wf_ttl in Ht. cbn in *. unfold buildMapping. cbn [jEndpoint jType mapping_document or_err bindR].
  rewrite Hs. cbn [bindR mapErr jmDescription jmDoc Description Doc mapping_document]. rewrite Hd, Hdoc.
  destruct t; simpl.
  - destruct Ht as (-> & Hx & Hp). rewrite (proj2 (Z.leb_le 0 ex)) by done. simpl.
    destruct pol; simpl; [by subst ttl|].
    destruct (ttl <? _)%Z eqn:E1; bool_hyps; [lia|].
    destruct (_ <=? ttl)%Z eqn:E2; bool_hyps; [lia|]. done.
  - destruct Ht as (-> & -> & -> & -> & -> & -> & -> & ->). done.
Qed.

Lemma build_mappings_document t ms segss i vc used :
  Forall (wf_mapping t) ms ->
  Forall2 (fun m segs => splitEndpoint (Endpoint m) = Ok segs) ms segss ->
  build_mappings (map (mapping_document t) ms) t i vc used =
  Ok (zip ms segss, vc, used, map (mapping_document t) ms).
Proof.
  intros Hw H2. revert i. induction H2 as [|m segs ms segss Hs H2 IH]; intros i; [done|].
  apply Forall_cons in Hw as [Hm Hw]. cbn [map build_mappings].
  change (resolve_path (mapping_document t m)) with (false, mapping_document t m).
  cbn [bindR]. rewrite (buildMapping_document _ _ _ _ _ Hm Hs). cbn [bindR].
  rewrite orb_false_r, IH by done. done.
Qed.

Lemma buildInterface_complete iface :
  wf_interface iface -> buildInterface (document iface) = Ok (iface, document iface).
Proof.
  intros [Hnl Hn Hv Hp Hc Hd Hdoc Hm (segss & H2 & Hu & Ho)].
  unfold buildInterface, document. cbn -[Nat.leb length check_versions].
  apply interface_name_split in Hn. rewrite Hn, (proj2 (Nat.leb_le _ _) Hnl).
  rewrite (proj2 (check_versions_spec _ _ ()) Hv). cbn -[Nat.leb length].
  assert (bool_decide (IType iface = Properties) &&
          bool_decide (IAggregation iface = AggregationObject) = false) as ->.
  { destruct (decide (IType iface = Properties)) as [E|E].
    - rewrite Hp by done. apply andb_false_r.
    - by rewrite (bool_decide_eq_false_2 _ E). }
  rewrite length_map. rewrite (proj2 (Nat.eqb_neq _ _)) by lia. rewrite (proj2 (Nat.leb_le _ _)) by lia.
  cbn [guard_err negb bindR]. rewrite Hd, Hdoc.
  rewrite (build_mappings_document _ _ _ _ _ _ Hm H2). cbn [bindR errOrNil empty Violations length].
  assert (map fst (zip (Mappings iface) segss) = Mappings iface) as Hfst.
  { apply fst_zip. apply Forall2_length in H2. lia. }
  assert (map snd (zip (Mappings iface) segss) = segss) as Hsnd.
  { apply snd_zip. apply Forall2_length in H2. lia. }
  assert (checkEndpointUniqueness
    (map (fun m : Mapping * list endpointSegment => (Endpoint m.1, m.2)) (zip (Mappings iface) segss))
    = Ok ()) as ->.
  { apply checkEndpointUniqueness_spec. apply ForallOrdPairs_map.
    by rewrite <- Hsnd, <- ForallOrdPairs_map in Hu. }
  cbn [bindR mapErr].
  assert ((if decide (IAggregation iface = AggregationObject)
           then checkObjectAggregation (zip (Mappings iface) segss) else Ok ()) = Ok ()) as ->.
  { case_decide as E; [|done]. apply checkObjectAggregation_spec; [|by apply Ho].
    apply Forall_forall. intros [m segs] Hin. simpl.
    apply list_elem_of_lookup in Hin as [k Hk]. apply lookup_zip_with_Some in Hk as (? & ? & [= -> ->] & Hk1 & Hk2).
    eapply splitEndpoint_nonempty. eapply (Forall2_lookup_lr _ _ _ _ _ _ H2); done. }
  cbn [bindR]. rewrite Hfst. by destruct iface.
Qed.

(** C17. The parser accepts a decoded document only with a well-formed interface,
    and every well-formed interface is the parse of its own document. *)
Theorem parse_interface_exact :
  (forall raw iface raw', buildInterface raw = Ok (iface, raw') -> wf_interface iface) /\
  (forall iface, wf_interface iface <->
                 buildInterface (document iface) = Ok (iface, document iface)).
Proof.
  split; [apply buildInterface_sound|]. intros iface.
  split; [apply buildInterface_complete|apply buildInterface_sound].
Qed.

(** ** Aliases and the canonical document *)

(** A document that spells nothing with a legacy field. *)
Definition alias_free (raw : interfaceJSON) : Prop :=
  jQuality raw = None /\ jAggregate raw = None /\ Forall (fun mj => jPath mj = None) (jMappings raw).

(** Reading back the re-encoded document: the [aliases] flag is not part of
    the wire format. *)
Definition reread (raw : interfaceJSON) : interfaceJSON :=
  MkInterfaceJSON (jInterfaceName raw) (jVersionMajor raw) (jVersionMinor raw) (jIType raw)
    (jOwnership raw) (jQuality raw) (jAggregate raw) (jAggregation raw) (jDescription raw)
    (jDoc raw) (jMappings raw) false.

Lemma resolve_path_spec mj alias mj' :
  resolve_path mj = (alias, mj') ->
  jPath mj' = None /\ (alias = false <-> jPath mj = None) /\ resolve_path mj' = (false, mj').
Proof.
  unfold resolve_path. destruct (jPath mj) eqn:E; intros [= <- <-]; simpl; [done|].
  by rewrite E.
Qed.

Lemma build_mappings_resolved raws t i vc used ms vc' used' mjs :
  build_mappings raws t i vc used = Ok (ms, vc', used', mjs) ->
  Forall (fun mj => jPath mj = None) mjs /\
  (used' = false <-> used = false /\ Forall (fun mj => jPath mj = None) raws) /\
  (forall u, build_mappings mjs t i vc u = Ok (ms, vc', u, mjs)).
Proof.
  revert i vc used ms vc' used' mjs.
  induction raws as [|raw raws IH]; intros i vc used ms vc' used' mjs; simpl.
  { intros [= <- <- <- <-]. split; [constructor|]. split; [|done].
    split; [intros ->; split; [done|constructor]|by intros [-> _]]. }
  destruct (resolve_path raw) as [alias mj] eqn:Er. intros H.
  apply bindR_Ok in H as ([[m segs] vc1] & Hm & H).
  apply bindR_Ok in H as ([[[ms2 vc2] u2] mjs2] & Hms & H). injection H as <- <- <- <-.
  apply resolve_path_spec in Er as (Hp & Ha & Hr).
  apply IH in Hms as (HF & Hu & Hb). split; [by constructor|]. split.
  - rewrite Hu, orb_false_iff, Forall_cons, Ha. tauto.
  - intros u. cbn [build_mappings]. rewrite Hr, Hm. cbn [bindR].
    by rewrite orb_false_r, Hb.
Qed.

Lemma buildInterface_reread raw iface raw' :
  aliases raw = false ->
  buildInterface raw = Ok (iface, raw') ->
  alias_free raw' /\ (aliases raw' = false <-> alias_free raw) /\
  buildInterface (reread raw') = Ok (iface, reread raw').
Proof.
  intros Hal. unfold buildInterface.
  destruct (resolve_quality raw _) as [[own0 u1] vc1] eqn:Eq.
  destruct (resolve_aggregate raw u1 vc1) as [[agg0 u2] vc2] eqn:Ea. intros H. inv_ok H.
  destruct a10 as [[[ms vc3] u3] mjs]. inv_ok H. simplify_eq/=.
  match goal with Hm : build_mappings _ _ _ _ _ = Ok _ |- _ => rename Hm into Hms end.
  match goal with Hm : errOrNil _ = Ok _ |- _ => rename Hm into Herr end.
  pose proof Herr as He. apply errOrNil_Ok in He.
  pose proof (build_mappings_sound _ _ _ _ _ _ _ _ _ Hms) as (Hl & _ & _ & _ & Hsame).
  destruct (Hsame He) as [-> _]. pose proof He as He0.
  apply empty_add_if in He0 as [Hdoc He0]. apply empty_add_if in He0 as [Hdesc He0].
  change (empty vc2 = true) in He0.
  destruct (resolve_aggregate_empty _ _ _ _ _ _ Ea He0) as (-> & Ha1 & Ha2).
  destruct (resolve_quality_empty _ _ _ _ _ Eq He0) as (-> & Hq1 & Hq2).
  apply build_mappings_resolved in Hms as (HF & Hu & Hb). unfold alias_free.
  split; [done|]. split.
  - rewrite Hu. destruct (jAggregate raw) eqn:E1, (jQuality raw) eqn:E2; naive_solver.
  - assert (length mjs = length (jMappings raw)) as Hlm.
    { pose proof (build_mappings_sound _ _ _ _ _ _ _ _ _ (Hb true)) as [Hl2 _]. congruence. }
    unfold reread. cbn -[Nat.leb length check_versions build_mappings too_long errOrNil add
      Regex.MatchString checkEndpointUniqueness checkObjectAggregation].
    rewrite Hlm.
    repeat match goal with
    | Hx : ?lhs = Ok ?u |- context [bindR ?lhs _] => rewrite Hx; cbn [bindR guard_err]
    | Hx : ?b = true |- context [guard_err ?b _] => rewrite Hx; cbn [bindR guard_err]
    end.
    rewrite Hdesc, Hdoc in *. cbn [Violations] in *. rewrite (Hb false). cbn [bindR]. rewrite Herr. cbn [bindR].
    repeat match goal with
    | Hx : checkEndpointUniqueness _ = Ok _ |- _ => rewrite Hx; clear Hx; cbn [bindR mapErr]
    | Hx : (if decide _ then _ else _) = Ok _ |- _ => rewrite Hx; clear Hx; cbn [bindR]
    end. done.
Qed.

(** The canonical document is produced exactly when a legacy field was used;
    it uses none, and parses to the same interface. *)
Theorem canonical_document raw iface canon :
  aliases raw = false ->
  ParseInterfaceCanonical raw = Ok (iface, canon) ->
  (canon = None <-> alias_free raw) /\
  (forall c, canon = Some c ->
     alias_free c /\ ParseInterfaceCanonical (reread c) = Ok (iface, None)).
Proof.
  intros Hal. unfold ParseInterfaceCanonical. intros ([i raw'] & Hb & H)%bindR_Ok.
  destruct (buildInterface_reread _ _ _ Hal Hb) as (Hf & Hiff & Hr).
  destruct (aliases raw') eqn:E; simpl in H; simplify_eq.
  - split; [split; [done|]; intros Hx; by apply Hiff in Hx|].
    intros c [= <-]. split; [done|]. by rewrite Hr.
  - split; [|done]. split; [|done]. intros _. by apply Hiff.
Qed.

(** *** Rejections *)

(** A step that never rejects with the collected violations. *)
Definition plain {A} (r : result build_error A) : Prop := forall vc, r <> Err (Violated vc).

Lemma plain_bind {A B} (r : result build_error A) (k : A -> result build_error B) :
  plain r -> (forall a, r = Ok a -> plain (k a)) -> plain (bindR r k).
Proof. intros Hr Hk vc [H|(a & Ha & H)]%bindR_Err; [by apply Hr in H|by eapply Hk in H]. Qed.
Lemma plain_guard b e : (forall vc, e <> Violated vc) -> plain (guard_err b e).
Proof. intros He vc. destruct b; [done|]. intros [= H]. by apply He in H. Qed.
Lemma plain_or_err {A} (o : option A) e : (forall vc, e <> Violated vc) -> plain (or_err o e).
Proof. intros He vc. destruct o; [done|]. intros [= H]. by apply He in H. Qed.
Lemma plain_mapErr {E A} (f : E -> build_error) (r : result E A) :
  (forall e vc, f e <> Violated vc) -> plain (mapErr f r).
Proof. intros He vc. destruct r; [done|]. intros [= H]. by apply He in H. Qed.
Lemma plain_Ok {A} (a : A) : plain (Ok a).
Proof. done. Qed.

Create HintDb plain_db.
#[local] Hint Resolve plain_guard plain_or_err plain_mapErr plain_Ok : plain_db.
Ltac plain_steps :=
  repeat (intros; first
    [ apply plain_bind | apply plain_Ok
    | apply plain_guard; done | apply plain_or_err; done | apply plain_mapErr; done
    | match goal with |- plain (match ?x with _ => _ end) => destruct x end
    | done ]).

Lemma buildMapping_plain raw t i vc : plain (buildMapping raw t i vc).
Proof.
  unfold buildMapping, build_ttl. plain_steps.
Qed.

Lemma build_mappings_plain raws t i vc used : plain (build_mappings raws t i vc used).
Proof.
  revert i vc used. induction raws as [|raw raws IH]; intros i vc used; cbn [build_mappings];
    [done|]. destruct (resolve_path raw). apply plain_bind; [apply buildMapping_plain|].
  intros [[m0 segs0] vc1] _. apply plain_bind; [apply IH|]. by intros [[[? ?] ?] ?].
Qed.

Lemma checkObject_plain ms : plain (checkObjectAggregation ms).
Proof.
  destruct ms as [|[ref first] ms]; [done|]. unfold checkObjectAggregation.
  generalize ((ref, first) :: ms). intros l. induction l as [|[m segs] l IH]; [done|].
  simpl. apply plain_bind; [|by intros _ _]. unfold check_object_mapping, sameObjectAttributes.
  plain_steps.
Qed.

Lemma resolve_aliases_violations raw o u vc1 a u2 vc2 :
  resolve_quality raw (MkViolations [] 0) = (o, u, vc1) ->
  resolve_aggregate raw u vc1 = (a, u2, vc2) ->
  Forall (fun v => MappingIndex v = (-1)%Z /\ Messages v <> []) (Violations vc2).
Proof.
  unfold resolve_quality, resolve_aggregate.
  destruct (jQuality raw), (jOwnership raw), (jAggregate raw), (jAggregation raw);
    intros [= <- <- <-] [= <- <- <-]; simpl; repeat constructor; done.
Qed.

Lemma add_if_violations (P : Violation -> Prop) (b : bool) vc f msgs :
  P (MkViolation f msgs (-1)) -> Forall P (Violations vc) ->
  Forall P (Violations (if b then add vc f msgs else vc)).
Proof. intros HP HF. destruct b; [|done]. apply Forall_app. by repeat constructor. Qed.

(** A violations rejection reports at least one violation, counts the
    declared mappings, and every violation is interface-level or points at a
    declared mapping. *)
Theorem violations_aligned raw vc :
  buildInterface raw = Err (Violated vc) ->
  Violations vc <> [] /\ MappingCount vc = Z.of_nat (length (jMappings raw)) /\
  Forall (fun v => (-1 <= MappingIndex v < MappingCount vc)%Z /\ Messages v <> []) (Violations vc).
Proof.
  unfold buildInterface. destruct (resolve_quality raw _) as [[own0 u1] vc1] eqn:Eq.
  destruct (resolve_aggregate raw u1 vc1) as [[agg0 u2] vc2] eqn:Ea.
  pose proof (resolve_aliases_violations _ _ _ _ _ _ _ Eq Ea) as H0. clear Eq Ea.
  do 11 (intros [H|(? & _ & H)]%bindR_Err;
    [exfalso; revert vc H; unfold check_versions;
     match goal with |- forall vc, ?r = _ -> False => change (plain r) end; solve [plain_steps]
    |revert H]).
  match goal with |- context [build_mappings _ _ _ ?v _] => set (vc3 := v) end.
  assert (Forall (fun v => MappingIndex v = (-1)%Z /\ Messages v <> []) (Violations vc3) /\
          MappingCount vc3 = Z.of_nat (length (jMappings raw))) as [H3 Hc3].
  { subst vc3. split; [|by do 2 destruct (too_long _ _)].
    do 2 (apply add_if_violations; [done|]). done. }
  intros [H|([[[ms vc4] u4] mjs] & Hm & H)]%bindR_Err; [by apply build_mappings_plain in H|].
  apply build_mappings_sound in Hm as (_ & _ & Hc & (new & Hn & HF) & _).
  apply bindR_Err in H as [H|(u & _ & H)].
  - unfold errOrNil in H. destruct (empty vc4) eqn:E; [done|]. injection H as <-.
    split; [intros Hnil; unfold empty in E; by rewrite Hnil in E|]. rewrite Hc, Hc3.
    split; [done|]. rewrite Hn. apply Forall_app. split.
    + eapply Forall_impl; [exact H3|]. simpl. intros v [-> ?]. split; [lia|done].
    + eapply Forall_impl; [exact HF|]. simpl. intros v [? ?]. split; [lia|done].
  - exfalso. revert H. apply plain_bind; [by apply plain_mapErr|]. intros _ _.
    apply plain_bind; [|done]. case_decide; [apply checkObject_plain|done].
Qed.

(** The interface-name pattern accepts exactly the dot-separated lists of
    labels whose first and last are letters-first alphanumeric and whose
    middle ones may carry hyphens; so a name holds no topic, endpoint or
    introspection separator. *)
Theorem interface_name_grammar name :
  (Regex.MatchString interfaceNameRe name = true <-> name_labels_ok (Strings.Split name ".")) /\
  (Regex.MatchString interfaceNameRe name = true ->
   Forall (fun c => c ∉ ["/"%char; ";"%char; ":"%char; "+"%char; "#"%char; "%"%char]) name).
Proof.
  split; [apply interface_name_split|]. intros H%Regex.MatchString_spec.
  apply (Regex.within_spec (fun c => is_alnum_dash c || bool_decide (c = "."%char))) in H.
  2: by vm_compute.
  eapply Forall_impl; [exact H|]. intros c Hc Hin. cbv beta in Hc.
  repeat (apply elem_of_cons in Hin as [Hin|Hin]; [subst c; by vm_compute in Hc|]).
  by apply elem_of_nil in Hin.
Qed.

(** *** Concrete documents *)

Definition sample_mapping (path : option gostring) (ep : option gostring) (ttl : option Z) : mappingJSON :=
  MkMappingJSON ep path (Some Double) None None None
    (match ttl with Some _ => Some UseTTL | None => None end) ttl None None None None [] [].

Definition sample_document (m : mappingJSON) (q : option Ownership) : interfaceJSON :=
  MkInterfaceJSON (Some "org.astrate-demo.Sensors"%go) (Some 0%Z) (Some 1%Z) (Some Datastream)
    (match q with Some _ => None | None => Some OwnershipDevice end) q None None [] [] [m] false.

Definition aliased_document : interfaceJSON :=
  sample_document (sample_mapping (Some "/%{id}/value"%go) None None) (Some OwnershipDevice).

Definition built (raw : interfaceJSON) : Interface :=
  match ParseInterfaceCanonical raw with
  | Ok (iface, _) => iface
  | Err _ => MkInterface [] 0 0 Datastream OwnershipDevice AggregationIndividual [] [] []
  end.

Lemma canonical_document_witness :
  aliases aliased_document = false /\
  exists canon,
    ParseInterfaceCanonical aliased_document = Ok (built aliased_document, Some canon) /\
    alias_free canon /\
    ParseInterfaceCanonical (reread canon) = Ok (built aliased_document, None).
Proof.
  split; [reflexivity|].
  destruct (ParseInterfaceCanonical aliased_document) as [[iface [canon|]]|e] eqn:E;
    [|vm_compute in E; discriminate E..].
  exists canon. unfold built. rewrite E. split; [reflexivity|].
  apply (canonical_document aliased_document iface (Some canon) eq_refl E). reflexivity.
Defined.

Lemma violations_aligned_witness :
  exists vc,
    buildInterface (sample_document (sample_mapping None (Some "/a"%go) (Some 59%Z)) None)
      = Err (Violated vc) /\
    Violations vc <> [].
Proof.
  destruct (buildInterface (sample_document (sample_mapping None (Some "/a"%go) (Some 59%Z)) None))
    as [?|[]] eqn:E; try (vm_compute in E; discriminate E).
  exists vc. split; [reflexivity|]. exact (proj1 (violations_aligned _ _ E)).
Defined.

End Parse.
