(* ===== verification/EndpointTrie.v ===== *)
(** * The endpoint trie and compiled interfaces
      ([src/pkg/interfaceschema/trie.go], [compile.go])

    [EndpointTrie] resolves a concrete path to the mapping whose pattern it
    matches; [Compile] builds one from a validated interface. The abstract
    view of a trie is the finite map from pattern shapes to mappings
    ([lookup_pat]): [Add] extends it by one entry, and [Match] answers with
    an entry whose shape accepts the path. *)

From S2P Require Import Prelude GoStrings Regex SchemaTypes Endpoints InterfaceParse.

Module Trie.
Import Schema Endpoint Parse.

Definition MaxPlaceholderValueLen : nat := 256.

Record CompiledMapping := MkCompiled {
  EndpointID : Z;
  cValueType : ValueType;
  cReliability : Z;
  cRetention : Retention;
  cExpiry : Z;
  cExplicitTimestamp : bool;
  cAllowUnset : bool;
  cDBRetentionTTL : Z;
  cRequired : bool;
  cEncrypted : bool;
}.

#[global] Instance CompiledMapping_eq_dec : EqDecision CompiledMapping.
Proof. solve_decision. Defined.

(** [type trieNode struct]: children by literal, the parametric child with
    its name, and the mapping that ends here. *)
Inductive trieNode := Node {
  children : gmap gostring trieNode;
  paramChild : option trieNode;
  paramName : gostring;
  mapping : option CompiledMapping;
}.

Definition NewEndpointTrie : trieNode := Node ∅ None [] None.

Inductive trie_error :=
| NilMapping (endpoint : gostring)
| TrieBadEndpoint (e : endpoint_error)
| ConflictingPlaceholder (endpoint name declared : gostring)
| DuplicateTrieEndpoint (endpoint : gostring).

(** The walk of [Add] below one node. The nodes on the way are created or
    kept even when the walk ends in an error. *)
Fixpoint add_walk (endpoint : gostring) (m : CompiledMapping) (segs : list endpointSegment)
    (node : trieNode) {struct segs} : trieNode * option trie_error :=
  match segs with
  | [] =>
      match mapping node with
      | Some _ => (node, Some (DuplicateTrieEndpoint endpoint))
      | None => (Node (children node) (paramChild node) (paramName node) (Some m), None)
      end
  | seg :: segs =>
      if param seg then
        match paramChild node with
        | None =>
            let '(c, err) := add_walk endpoint m segs NewEndpointTrie in
            (Node (children node) (Some c) (literal seg) (mapping node), err)
        | Some c =>
            if decide (paramName node = literal seg) then
              let '(c, err) := add_walk endpoint m segs c in
              (Node (children node) (Some c) (paramName node) (mapping node), err)
            else (node, Some (ConflictingPlaceholder endpoint (literal seg) (paramName node)))
        end
      else
        let child := default NewEndpointTrie (children node !! literal seg) in
        let '(c, err) := add_walk endpoint m segs child in
        (Node (<[literal seg := c]> (children node)) (paramChild node) (paramName node)
           (mapping node), err)
  end.

(** [Add], with the trie it leaves behind. *)
Definition Add (t : trieNode) (endpoint : gostring) (m : option CompiledMapping)
    : trieNode * option trie_error :=
  match m with
  | None => (t, Some (NilMapping endpoint))
  | Some m =>
      match splitEndpoint endpoint with
      | Err e => (t, Some (TrieBadEndpoint e))
      | Ok segs => add_walk endpoint m segs t
      end
  end.

Definition placeholderValueOK (seg : gostring) : bool :=
  if (MaxPlaceholderValueLen <? length seg)%nat then false
  else match Strings.IndexByte seg "+" with
       | Some _ => false
       | None => match Strings.IndexByte seg "#" with Some _ => false | None => true end
       end.

(** [matchNode]; every recursive call is on a shorter [rest]. [None] is the
    nil result. *)
Fixpoint matchNode (fuel : nat) (n : trieNode) (rest : gostring) : option CompiledMapping :=
  match fuel with
  | O => None
  | S fuel =>
      let '(seg, tl, last) :=
        match Strings.IndexByte rest "/" with
        | None => (rest, [], true)
        | Some i => (take i rest, drop (S i) rest, false)
        end in
      if decide (seg = []) then None
      else
        let literal_branch :=
          match children n !! seg with
          | Some child => if (last : bool) then mapping child else matchNode fuel child tl
          | None => None
          end in
        match literal_branch with
        | Some m => Some m
        | None =>
            match paramChild n with
            | Some p =>
                if placeholderValueOK seg then
                  if (last : bool) then mapping p else matchNode fuel p tl
                else None
            | None => None
            end
        end
  end.

Definition Match (t : option trieNode) (path : gostring) : option CompiledMapping :=
  match t with
  | None => None
  | Some t =>
      match path with
      | c :: rest =>
          if (length path <? 2)%nat || negb (bool_decide (c = "/"%char)) then None
          else matchNode (S (length rest)) t rest
      | [] => None
      end
  end.

(** ** Patterns *)

(** The shape of an endpoint: its literals, [None] for a placeholder. *)
Definition pattern := list (option gostring).
Definition shape (segs : list endpointSegment) : pattern :=
  map (fun s => if param s then None else Some (literal s)) segs.

(** The abstract contents of a trie. *)
Fixpoint lookup_pat (n : trieNode) (p : pattern) : option CompiledMapping :=
  match p with
  | [] => mapping n
  | Some l :: p => child ← children n !! l; lookup_pat child p
  | None :: p => child ← paramChild n; lookup_pat child p
  end.

Definition accepts_level (s : option gostring) (q : gostring) : Prop :=
  q <> [] /\
  match s with
  | Some l => l = q
  | None => placeholderValueOK q = true
  end.
Definition accepts (p : pattern) (path : list gostring) : Prop := Forall2 accepts_level p path.

(** [matchNode] on the list of segments. *)
Fixpoint match_segs (n : trieNode) (path : list gostring) : option CompiledMapping :=
  match path with
  | [] => mapping n
  | q :: path =>
      if decide (q = []) then None
      else
        match (child ← children n !! q; match_segs child path) with
        | Some m => Some m
        | None =>
            p ← paramChild n;
            if placeholderValueOK q then match_segs p path else None
        end
  end.

(** ** [Match] is matching on the segments *)

Lemma matchNode_segs fuel n rest :
  length rest < fuel -> matchNode fuel n rest = match_segs n (Strings.Split rest "/").
Proof.
  revert n rest. induction fuel as [|fuel IH]; intros n rest Hf; [lia|].
  destruct (slash_cases rest) as [Hn|(a & b & -> & Hn)].
  - rewrite (Strings.Split_none _ _ Hn). simpl.
    rewrite (proj2 (Strings.IndexByte_None _ _) Hn). case_decide; [done|].
    destruct (children n !! rest); simpl; done.
  - rewrite (Strings.Split_app _ _ _ Hn). simpl.
    assert (Strings.IndexByte (a ++ "/"%char :: b) "/" = Some (length a)) as ->.
    { apply Strings.IndexByte_Some. by exists a, b. }
    rewrite take_app_length. rewrite drop_app_ge by lia.
    replace (S (length a) - length a) with 1 by lia. cbn [drop]. rewrite drop_0.
    case_decide; [done|].
    rewrite length_app in Hf. simpl in Hf.
    destruct (children n !! a); simpl; [rewrite IH by lia; destruct (match_segs _ _); [done|]|];
      (destruct (paramChild n); simpl; [|done]; rewrite IH by lia; done).
Qed.

Lemma Match_segs t path m :
  Match (Some t) path = Some m <->
  exists rest, path = "/"%char :: rest /\ match_segs t (Strings.Split rest "/") = Some m.
Proof.
  unfold Match. destruct path as [|c rest]; [naive_solver|].
  destruct (_ || _) eqn:E.
  - split; [done|]. intros (r & [= -> <-] & H). exfalso.
    apply orb_true_iff in E as [E|E]; [|by bool_hyps].
    bool_hyps. simpl in E. destruct rest; [|simpl in E; lia]. simpl in H. done.
  - bool_hyps. subst c. rewrite matchNode_segs by lia. naive_solver.
Qed.

Lemma match_segs_sound n path m :
  match_segs n path = Some m -> exists p, lookup_pat n p = Some m /\ accepts p path.
Proof.
  revert n. induction path as [|q path IH]; intros n; simpl.
  { intros H. exists []. split; [done|constructor]. }
  case_decide as Hq; [done|].
  destruct (_ ≫= _) as [m'|] eqn:E.
  - intros [= ->]. apply bind_Some in E as (c & Hc & Hm). apply IH in Hm as (p & Hp & Ha).
    exists (Some q :: p). simpl. rewrite Hc. split; [done|]. by constructor.
  - intros (c & Hc & Hm)%bind_Some. destruct (placeholderValueOK q) eqn:Ho; [|done].
    apply IH in Hm as (p & Hp & Ha). exists (None :: p). simpl. rewrite Hc.
    split; [done|]. by constructor.
Qed.

Lemma match_segs_complete n path p m :
  lookup_pat n p = Some m -> accepts p path -> is_Some (match_segs n path).
Proof.
  intros Hl Ha. revert n m Hl. induction Ha as [|s q p path [Hq Hs] Ha IH]; intros n m Hl; simpl.
  { by exists m. }
  rewrite decide_False by done.
  destruct (_ ≫= _) as [m'|] eqn:E; [by exists m'|].
  destruct s as [l|]; simpl in Hl.
  - subst l. apply bind_Some in Hl as (c & Hc & Hm). rewrite Hc in E. simpl in E.
    apply IH in Hm as [? Hm]. congruence.
  - apply bind_Some in Hl as (c & Hc & Hm). rewrite Hc. simpl. rewrite Hs. eauto.
Qed.

(** ** [Add] extends the contents by one pattern *)

Lemma lookup_pat_empty p : lookup_pat NewEndpointTrie p = None.
Proof. destruct p as [|[l|] p]; simpl; [done| |done]. by rewrite lookup_empty. Qed.

Lemma add_walk_ok e m segs n n' :
  add_walk e m segs n = (n', None) ->
  lookup_pat n (shape segs) = None /\
  forall p, lookup_pat n' p = if decide (p = shape segs) then Some m else lookup_pat n p.
Proof.
  revert n n'. induction segs as [|seg segs IH]; intros n n'; simpl.
  { destruct (mapping n) eqn:E; [done|]. intros [= <-]. split; [done|].
    intros [|[l|] p]; simpl; done. }
  destruct (param seg).
  - destruct (paramChild n) as [c|] eqn:Ec; [case_decide; [|done]|];
      destruct (add_walk _ _ _ _) as [c' err] eqn:Ea; intros [= <- ->];
      apply IH in Ea as [Hnone Hall].
    + rewrite ?Ec. simpl. split; [done|]. intros [|[l|] p]; simpl; [done|done|].
      rewrite Hall, ?Ec. simpl. repeat case_decide; naive_solver.
    + simpl. rewrite ?Ec. simpl. split; [done|]. intros [|[l|] p]; simpl; [done|done|].
      rewrite Hall, ?Ec. simpl. rewrite lookup_pat_empty. repeat case_decide; naive_solver.
  - destruct (add_walk _ _ _ _) as [c' err] eqn:Ea. intros [= <- ->].
    apply IH in Ea as [Hnone Hall]. split.
    { destruct (children n !! literal seg); simpl in *; done. }
    intros [|[l|] p]; simpl; [done| |done].
    destruct (decide (l = literal seg)) as [->|Hne].
    + rewrite lookup_insert. simpl. rewrite decide_True by done. simpl. rewrite Hall.
      destruct (children n !! literal seg); simpl; rewrite ?lookup_pat_empty;
        repeat case_decide; naive_solver.
    + rewrite lookup_insert_ne by done. rewrite decide_False by naive_solver. done.
Qed.

Lemma add_walk_err e m segs n n' err :
  add_walk e m segs n = (n', Some err) -> forall p, lookup_pat n' p = lookup_pat n p.
Proof.
  revert n n'. induction segs as [|seg segs IH]; intros n n'; simpl.
  { destruct (mapping n) eqn:E; [|done]. by intros [= <- _]. }
  destruct (param seg).
  - destruct (paramChild n) as [c|] eqn:Ec; [case_decide; [|by intros [= <- _]]|];
      destruct (add_walk _ _ _ _) as [c' err'] eqn:Ea; intros [= <- ->];
      intros [|[l|] p]; simpl; try done; rewrite ?Ec; simpl; rewrite (IH _ _ Ea); try done.
    apply lookup_pat_empty.
  - destruct (add_walk _ _ _ _) as [c' err'] eqn:Ea. intros [= <- ->].
    intros [|[l|] p]; simpl; [done| |done].
    destruct (decide (l = literal seg)) as [->|Hne].
    + rewrite lookup_insert. rewrite decide_True by done. simpl. rewrite (IH _ _ Ea).
      destruct (children n !! literal seg); simpl; [done|]. apply lookup_pat_empty.
    + by rewrite lookup_insert_ne.
Qed.

(** ** Placeholder names *)

(** The placeholder name declared below the node that a pattern reaches. *)
Fixpoint param_at (n : trieNode) (p : pattern) : option gostring :=
  match p with
  | [] => paramChild n ≫= fun _ => Some (paramName n)
  | Some l :: p => child ← children n !! l; param_at child p
  | None :: p => child ← paramChild n; param_at child p
  end.

Lemma param_at_empty p : param_at NewEndpointTrie p = None.
Proof. destruct p as [|[l|] p]; simpl; [done| |done]. by rewrite lookup_empty. Qed.

(** [segs] declares placeholder [nm] right below prefix [p]. *)
Definition declares (segs : list endpointSegment) (p : pattern) (nm : gostring) : Prop :=
  exists k, segs !! k = Some (Seg nm true) /\ p = shape (take k segs).

Lemma declares_nil p nm : ~ declares [] p nm.
Proof. by intros (k & H & _). Qed.

Lemma declares_cons seg segs p nm :
  declares (seg :: segs) p nm <->
  (p = [] /\ seg = Seg nm true) \/
  (exists p', p = (if param seg then None else Some (literal seg)) :: p' /\ declares segs p' nm).
Proof.
  unfold declares. split.
  - intros ([|k] & Hk & ->); simpl in *; [left; naive_solver|right; eauto].
  - intros [[-> ->]|(p' & -> & k & Hk & ->)]; [by exists 0|by exists (S k)].
Qed.

Lemma add_walk_params e m segs n n' :
  add_walk e m segs n = (n', None) ->
  forall p nm, param_at n' p = Some nm <-> param_at n p = Some nm \/ declares segs p nm.
Proof.
  revert n n'. induction segs as [|seg segs IH]; intros n n'; simpl.
  { destruct (mapping n) eqn:E; [done|]. intros [= <-] p nm.
    pose proof (declares_nil p nm). destruct p as [|[l|] p]; simpl; naive_solver. }
  destruct seg as [lit [|]]; simpl.
  - destruct (paramChild n) as [c|] eqn:Ec; [case_decide as Hn; [|done]|];
      destruct (add_walk _ _ _ _) as [c' err] eqn:Ea; intros [= <- ->] p nm;
      pose proof (fun p => IH _ _ Ea p nm) as Hp; rewrite declares_cons; simpl;
      destruct p as [|[l|] p]; simpl; rewrite ?Ec; simpl; rewrite ?Hp, ?param_at_empty; naive_solver.
  - destruct (add_walk _ _ _ _) as [c' err] eqn:Ea. intros [= <- ->] p nm.
    pose proof (fun p => IH _ _ Ea p nm) as Hp. rewrite declares_cons. simpl.
    destruct p as [|[l|] p]; simpl; [naive_solver| |naive_solver].
    destruct (decide (l = lit)) as [->|Hne].
    + rewrite lookup_insert, decide_True by done. simpl. rewrite Hp.
      destruct (children n !! lit); simpl; rewrite ?param_at_empty; naive_solver.
    + rewrite lookup_insert_ne by done. naive_solver.
Qed.

(** The walk fails only on a name conflict or a duplicate. *)
Lemma add_walk_total e m segs n :
  lookup_pat n (shape segs) = None ->
  (forall p nm nm', declares segs p nm -> param_at n p = Some nm' -> nm' = nm) ->
  exists n', add_walk e m segs n = (n', None).
Proof.
  revert n. induction segs as [|seg segs IH]; intros n Hl Hc; simpl in *.
  { rewrite Hl. eauto. }
  assert (forall c (key : option gostring),
    lookup_pat c (shape segs) = None ->
    key = (if param seg then None else Some (literal seg)) ->
    (forall p nm, param_at c p = Some nm -> param_at n (key :: p) = Some nm) ->
    exists c', add_walk e m segs c = (c', None)) as Hsub.
  { intros c key Hlc -> Hpc. apply IH; [done|]. intros p nm nm' Hd Hp.
    eapply Hc; [apply declares_cons; right; eauto|by apply Hpc]. }
  destruct seg as [lit [|]]; simpl in *.
  - destruct (paramChild n) as [c|] eqn:Ec; simpl in *.
    + rewrite decide_True.
      2: { eapply (Hc []); [apply declares_cons; by left|]. simpl. by rewrite Ec. }
      destruct (Hsub c None) as [c' ->]; [done..| |eauto]. intros p nm Hp. done.
    + destruct (Hsub NewEndpointTrie None) as [c' ->]; [apply lookup_pat_empty|done| |eauto].
      intros p nm Hp. by rewrite param_at_empty in Hp.
  - destruct (Hsub (default NewEndpointTrie (children n !! lit)) (Some lit)) as [c' ->];
      [|done| |eauto].
    + destruct (children n !! lit); simpl in *; [done|apply lookup_pat_empty].
    + intros p nm Hp. destruct (children n !! lit); simpl in *; [done|by rewrite param_at_empty in Hp].
Qed.

End Trie.
