(* ===== verification/Compile.v ===== *)
(** * Compiled interfaces ([src/pkg/interfaceschema/compile.go])

    [Compile] stamps the storage identifiers and builds the endpoint trie
    and, for object aggregation, the table of leaves. The theorems say which
    parsed interfaces compile, and that matching a path in the result finds
    exactly the declared mapping whose endpoint it matches. *)

From S2P Require Import Prelude GoStrings Regex SchemaTypes Endpoints InterfaceParse EndpointTrie.

Module Compile.
Import Schema Endpoint Parse Trie.

(** The store's resolver; it is an interface of the package, implemented
    elsewhere, so it stays a parameter. *)
Record EndpointIDResolver := MkResolver {
  ResolveInterface : gostring -> Z -> result gostring Z;
  ResolveEndpoint : gostring -> result gostring Z;
}.

Record CompiledInterface := MkCompiledInterface {
  ID : Z;
  cName : gostring;
  cMajor : Z;
  cMinor : Z;
  cType : InterfaceType;
  cOwnership : Ownership;
  cAggregation : Aggregation;
  cTrie : trieNode;
  ObjectLeaves : option (gmap gostring CompiledMapping);
}.

Inductive compile_error :=
| NilInterface
| ResolvingInterface (name : gostring) (major : Z) (err : gostring)
| ResolvingEndpoint (endpoint : gostring) (err : gostring)
| TrieError (e : trie_error)
| LeafBadEndpoint (e : endpoint_error)
| LeafParametric (endpoint : gostring)
| DuplicateLeaf (leaf name : gostring).

Definition compile_mapping (id : Z) (m : Mapping) : CompiledMapping :=
  MkCompiled id (Type_ m) (QoS (Reliability_ m)) (Retention_ m) (seconds (Expiry m))
    (ExplicitTimestamp m) (AllowUnset m) (seconds (DatabaseRetentionTTL m))
    (Required m) (Encrypted m).

Definition lastLiteralSegment (endpoint : gostring) : result compile_error gostring :=
  let? segs := mapErr LeafBadEndpoint (splitEndpoint endpoint) in
  match last segs with
  | Some seg => if param seg then Err (LeafParametric endpoint) else Ok (literal seg)
  | None => Ok [] (* not reached: an endpoint has at least one segment *)
  end.

Definition endpoint_id (ids : option EndpointIDResolver) (endpoint : gostring)
    : result compile_error Z :=
  match ids with
  | None => Ok 0%Z
  | Some r => mapErr (ResolvingEndpoint endpoint) (ResolveEndpoint r endpoint)
  end.

Definition add_leaf (name endpoint : gostring) (cm : CompiledMapping)
    (leaves : option (gmap gostring CompiledMapping))
    : result compile_error (option (gmap gostring CompiledMapping)) :=
  match leaves with
  | None => Ok None
  | Some table =>
      let? leaf := lastLiteralSegment endpoint in
      match table !! leaf with
      | Some _ => Err (DuplicateLeaf leaf name)
      | None => Ok (Some (<[leaf := cm]> table))
      end
  end.

(** The loop over the mappings. *)
Fixpoint compile_loop (name : gostring) (ids : option EndpointIDResolver) (ms : list Mapping)
    (t : trieNode) (leaves : option (gmap gostring CompiledMapping))
    : result compile_error (trieNode * option (gmap gostring CompiledMapping)) :=
  match ms with
  | [] => Ok (t, leaves)
  | m :: ms =>
      let? id := endpoint_id ids (Endpoint m) in
      let cm := compile_mapping id m in
      let? t :=
        match Add t (Endpoint m) (Some cm) with
        | (t, None) => Ok t
        | (_, Some e) => Err (TrieError e)
        end in
      let? leaves := add_leaf name (Endpoint m) cm leaves in
      compile_loop name ids ms t leaves
  end.

Definition Compile (iface : option Interface) (ids : option EndpointIDResolver)
    : result compile_error CompiledInterface :=
  match iface with
  | None => Err NilInterface
  | Some iface =>
      let? id :=
        match ids with
        | None => Ok 0%Z
        | Some r => mapErr (ResolvingInterface (Name iface) (Major iface))
                      (ResolveInterface r (Name iface) (Major iface))
        end in
      let leaves := if decide (IAggregation iface = AggregationObject) then Some ∅ else None in
      let? (t, leaves) := compile_loop (Name iface) ids (Mappings iface) NewEndpointTrie leaves in
      Ok (MkCompiledInterface id (Name iface) (Major iface) (Minor iface) (IType iface)
            (IOwnership iface) (IAggregation iface) t leaves)
  end.

(** ** What the loop builds *)

(** A mapping with its parsed endpoint and the identifier it is stamped with. *)
Abbreviation stamped := (Mapping * list endpointSegment * Z)%type.
Definition stamp_of (ids : option EndpointIDResolver) (m : Mapping) (x : stamped) : Prop :=
  x.1.1 = m /\ splitEndpoint (Endpoint m) = Ok x.1.2 /\ endpoint_id ids (Endpoint m) = Ok x.2.
Definition cm_of (x : stamped) : CompiledMapping := compile_mapping x.2 x.1.1.

(** The trie holds exactly the stamped mappings, under their shapes, and the
    placeholder names their endpoints declare. *)
Definition trie_holds (t : trieNode) (xs : list stamped) : Prop :=
  (forall p cm, lookup_pat t p = Some cm <-> exists x, x ∈ xs /\ p = shape x.1.2 /\ cm = cm_of x) /\
  (forall p nm, param_at t p = Some nm <-> exists x, x ∈ xs /\ declares x.1.2 p nm).

(** The table holds exactly the leaves. *)
Definition leaf_of (x : stamped) (leaf : gostring) : Prop :=
  last x.1.2 = Some (Seg leaf false).
Definition leaves_hold (leaves : option (gmap gostring CompiledMapping)) (xs : list stamped) : Prop :=
  match leaves with
  | None => True
  | Some table =>
      (forall leaf cm, table !! leaf = Some cm <-> exists x, x ∈ xs /\ leaf_of x leaf /\ cm = cm_of x) /\
      Forall (fun x => exists leaf, leaf_of x leaf) xs
  end.

Lemma trie_holds_nil : trie_holds NewEndpointTrie [].
Proof.
  split; intros; rewrite ?lookup_pat_empty, ?param_at_empty; set_solver.
Qed.

Lemma trie_holds_add t xs x t' :
  trie_holds t xs -> add_walk (Endpoint x.1.1) (cm_of x) x.1.2 t = (t', None) ->
  trie_holds t' (xs ++ [x]) /\ Forall (fun y => shape y.1.2 <> shape x.1.2) xs.
Proof.
  intros [Hl Hp] Hadd. pose proof (add_walk_ok _ _ _ _ _ Hadd) as [Hnone Hall].
  pose proof (add_walk_params _ _ _ _ _ Hadd) as Hpar. split; [split|].
  - intros p cm. rewrite Hall. setoid_rewrite elem_of_app. setoid_rewrite list_elem_of_singleton.
    case_decide as E.
    + split; [intros [= <-]; eauto 10|]. intros (y & [Hy| ->] & Hs & ->); [|done].
      exfalso. assert (lookup_pat t p = Some (cm_of y)) as Hc by (apply Hl; eauto).
      rewrite E, Hnone in Hc. done.
    + rewrite Hl. naive_solver.
  - intros p nm. rewrite Hpar, Hp. setoid_rewrite elem_of_app. setoid_rewrite list_elem_of_singleton.
    naive_solver.
  - apply Forall_forall. intros y Hy E.
    assert (lookup_pat t (shape y.1.2) = Some (cm_of y)) as Hc by (apply Hl; eauto).
    rewrite E, Hnone in Hc. done.
Qed.

Lemma lastLiteralSegment_spec e segs leaf :
  splitEndpoint e = Ok segs ->
  lastLiteralSegment e = Ok leaf <-> last segs = Some (Seg leaf false).
Proof.
  intros Hs. unfold lastLiteralSegment. rewrite Hs. simpl.
  pose proof (splitEndpoint_nonempty _ _ Hs).
  destruct (last segs) as [[lit [|]]|] eqn:E; simpl; [naive_solver..|].
  by apply last_None in E.
Qed.

Lemma leaves_hold_add name leaves xs x leaves' :
  splitEndpoint (Endpoint x.1.1) = Ok x.1.2 ->
  leaves_hold leaves xs ->
  add_leaf name (Endpoint x.1.1) (cm_of x) leaves = Ok leaves' ->
  leaves_hold leaves' (xs ++ [x]) /\ (leaves' = None <-> leaves = None).
Proof.
  intros Hs. unfold add_leaf, leaves_hold. destruct leaves as [table|]; [|naive_solver].
  intros [Ht Hf] (leaf & Hleaf & H)%bindR_Ok.
  apply (lastLiteralSegment_spec _ _ _ Hs) in Hleaf.
  destruct (table !! leaf) eqn:E; [done|]. injection H as <-. split; [|done]. split.
  - intros l cm. setoid_rewrite elem_of_app. setoid_rewrite list_elem_of_singleton.
    destruct (decide (l = leaf)) as [->|Hne].
    + rewrite lookup_insert, decide_True by done. split; [intros [= <-]; eauto 10|].
      intros (y & [Hy| ->] & Hl & ->); [|done].
      assert (table !! leaf = Some (cm_of y)) as Hc by (apply Ht; eauto). congruence.
    + rewrite lookup_insert_ne by done. rewrite Ht. split; [naive_solver|].
      intros (y & [Hy| ->] & Hl & ->); [eauto|]. unfold leaf_of in Hl. congruence.
  - apply Forall_app. split; [done|]. apply Forall_singleton. by exists leaf.
Qed.

Lemma compile_loop_spec name ids ms t leaves xs t' leaves' :
  trie_holds t xs -> leaves_hold leaves xs ->
  compile_loop name ids ms t leaves = Ok (t', leaves') ->
  exists ys, Forall2 (stamp_of ids) ms ys /\ trie_holds t' (xs ++ ys) /\
    leaves_hold leaves' (xs ++ ys) /\ (leaves' = None <-> leaves = None).
Proof.
  revert t leaves xs. induction ms as [|m ms IH]; intros t leaves xs Ht Hlv; simpl.
  { intros [= <- <-]. exists []. rewrite app_nil_r. split; [constructor|]. done. }
  intros (id & Hid & H)%bindR_Ok. apply bindR_Ok in H as (t1 & Hadd & H).
  apply bindR_Ok in H as (leaves1 & Hleaf & H).
  destruct (splitEndpoint (Endpoint m)) as [segs|] eqn:Es; [|done].
  destruct (add_walk _ _ segs t) as [t2 [|]] eqn:Ea; [done|]. injection Hadd as ->.
  set (x := (m, segs, id) : stamped).
  destruct (trie_holds_add t xs x t1 Ht Ea) as [Ht1 _].
  destruct (leaves_hold_add name leaves xs x leaves1 Es Hlv Hleaf) as [Hlv1 Hiff].
  pose proof (IH _ _ _ Ht1 Hlv1 H) as (ys & HF & Ht' & Hlv' & Hiff').
  exists (x :: ys). rewrite (assoc_L (++) xs [x] ys : xs ++ x :: ys = _).
  split; [by constructor|]. repeat split; try apply Ht'; tauto.
Qed.

(** ** Matching in a compiled interface *)

Lemma accepts_matches segs path : accepts (shape segs) path -> matches_path segs path.
Proof.
  unfold accepts, matches_path. revert path. induction segs as [|[lit b] segs IH]; intros path H.
  { apply Forall2_nil_inv_l in H as ->. constructor. }
  simpl in H. destruct path as [|q path]; [by apply Forall2_cons_nil_inv in H|].
  apply Forall2_cons in H as [[Hq Hs] H]. constructor; [|by apply IH].
  unfold matches_level. by destruct b.
Qed.

(** No two endpoints of a well-formed interface match the same path. *)
Definition pairwise_disjoint (segss : list (list endpointSegment)) : Prop :=
  forall i j a b, segss !! i = Some a -> segss !! j = Some b -> i <> j -> ~ overlapping a b.

Lemma ForallOrdPairs_lookup {A} (R : A -> A -> Prop) l i j a b :
  ForallOrdPairs R l -> l !! i = Some a -> l !! j = Some b -> i < j -> R a b.
Proof.
  intros H. revert i j. induction H as [|x l Hx _ IH]; intros i j Hi Hj Hij; [done|].
  destruct i as [|i], j as [|j]; try lia; simpl in *.
  - simplify_eq. eapply Forall_lookup_1; [exact Hx|exact Hj].
  - eapply (IH i j); [done..|lia].
Qed.

Lemma wf_disjoint segss :
  ForallOrdPairs (fun a b => ~ overlapping a b) segss -> pairwise_disjoint segss.
Proof.
  intros H i j a b Hi Hj Hij Ho. destruct (decide (i < j)).
  - exact (ForallOrdPairs_lookup _ _ i j _ _ H Hi Hj ltac:(lia) Ho).
  - exact (ForallOrdPairs_lookup _ _ j i _ _ H Hj Hi ltac:(lia) (overlapping_sym _ _ Ho)).
Qed.

Lemma stamped_segss ids ms ys segss :
  Forall2 (stamp_of ids) ms ys ->
  Forall2 (fun m segs => splitEndpoint (Endpoint m) = Ok segs) ms segss ->
  segss = map (fun x => x.1.2) ys.
Proof.
  intros H. revert segss. induction H as [|m y ms ys (Hm & Hs & _) H IH]; intros segss H2.
  { by apply Forall2_nil_inv_l in H2. }
  destruct segss as [|segs segss]; [by apply Forall2_cons_nil_inv in H2|].
  apply Forall2_cons in H2 as [He H2]. simpl. rewrite (IH _ H2). f_equal. congruence.
Qed.

(** In a well-formed interface, two stamped mappings whose endpoints match
    the same path are the same mapping. *)
Lemma stamped_unique ys path x y :
  ForallOrdPairs (fun a b => ~ overlapping a b) (map (fun x : stamped => x.1.2) ys) ->
  Forall (fun x : stamped => Forall valid_seg x.1.2) ys ->
  x ∈ ys -> y ∈ ys -> matches_path x.1.2 path -> matches_path y.1.2 path -> x = y.
Proof.
  intros Hd Hv [i Hi]%list_elem_of_lookup [j Hj]%list_elem_of_lookup Hx Hy.
  destruct (decide (i = j)) as [->|Hne]; [congruence|]. exfalso.
  assert (forall k z, ys !! k = Some z -> map (fun x : stamped => x.1.2) ys !! k = Some z.1.2) as Hmap.
  { intros k z Hz. by rewrite lookup_map, Hz. }
  apply (wf_disjoint _ Hd i j x.1.2 y.1.2); [by apply Hmap..|done|].
  apply overlapping_matches; [..|by exists path].
  - exact (Forall_lookup_1 _ _ _ _ Hv Hi).
  - exact (Forall_lookup_1 _ _ _ _ Hv Hj).
Qed.

Lemma stamp_valid ids ms ys :
  Forall2 (stamp_of ids) ms ys -> Forall (fun x : stamped => Forall valid_seg x.1.2) ys.
Proof.
  intros H. induction H as [|m y ms ys (Hm & Hs & _) H IH]; constructor; [|done].
  by apply (proj1 splitEndpoint_spec) in Hs as (_ & _ & ? & _).
Qed.

(** [path] is matched by the endpoint of mapping [m]: the separators are at
    the same places, literals are equal and placeholder values are allowed. *)
Definition endpoint_accepts (m : Mapping) (path : gostring) : Prop :=
  exists segs rest, splitEndpoint (Endpoint m) = Ok segs /\ path = "/"%char :: rest /\
    accepts (shape segs) (Strings.Split rest "/").

(** What matching in [ci] must answer, for every path: the compiled form of
    the declared mapping whose endpoint accepts it; and at most one mapping's
    endpoint does. *)
Definition match_contract (iface : Interface) (ids : option EndpointIDResolver)
    (ci : CompiledInterface) : Prop :=
  (forall path cm, Match (Some (cTrie ci)) path = Some cm <->
     exists m id, m ∈ Mappings iface /\ endpoint_accepts m path /\
       endpoint_id ids (Endpoint m) = Ok id /\ cm = compile_mapping id m) /\
  (forall path i j m m', Mappings iface !! i = Some m -> Mappings iface !! j = Some m' ->
     endpoint_accepts m path -> endpoint_accepts m' path -> i = j).

Lemma compile_match_contract iface ids ci :
  wf_interface iface -> Compile (Some iface) ids = Ok ci -> match_contract iface ids ci.
Proof.
  intros [_ _ _ _ _ _ _ _ (segss & H2 & Hd & _)] H. simpl in H.
  apply bindR_Ok in H as (id0 & _ & H). apply bindR_Ok in H as ([t leaves] & Hloop & H).
  injection H as <-. unfold match_contract. cbn [cTrie].
  apply (compile_loop_spec _ _ _ _ _ []) in Hloop as (ys & HF & [Ht _] & _);
    [|apply trie_holds_nil|by case_decide; [split; [set_solver|constructor]|]].
  pose proof (stamped_segss _ _ _ _ HF H2) as ->.
  pose proof (stamp_valid _ _ _ HF) as Hv. split.
  - intros path cm. rewrite Match_segs. split.
    + intros (rest & -> & Hm). apply match_segs_sound in Hm as (p & Hp & Ha).
      apply Ht in Hp as (x & Hx & -> & ->). apply list_elem_of_lookup in Hx as [i Hi].
      destruct (Forall2_lookup_r _ _ _ _ _ HF Hi) as (m & Hm & <- & Hs & Hid).
      exists x.1.1, x.2. split; [by eapply list_elem_of_lookup_2|]. split; [|done].
      by exists x.1.2, rest.
    + intros (m & id & Hm & (segs & rest & Hs & -> & Ha) & Hid & ->). exists rest. split; [done|].
      apply list_elem_of_lookup in Hm as [i Hi].
      destruct (Forall2_lookup_l _ _ _ _ _ HF Hi) as (x & Hx & Hxm & Hxs & Hxid).
      assert (x.1.2 = segs) as Hsegs by congruence. rewrite <- Hsegs in Ha. clear Hsegs.
      destruct (match_segs_complete t (Strings.Split rest "/") (shape x.1.2) (cm_of x)) as [cm Hcm];
        [apply Ht; exists x; split; [by eapply list_elem_of_lookup_2|done]|done|].
      rewrite Hcm. apply match_segs_sound in Hcm as (p & Hp & Hap).
      apply Ht in Hp as (y & Hy & -> & ->).
      assert (y = x) as ->.
      { eapply (stamped_unique ys (Strings.Split rest "/"));
          [done|done|done|by eapply list_elem_of_lookup_2|by apply accepts_matches|
           by apply accepts_matches]. }
      unfold cm_of. congruence.
  - intros path i j m m' Hi Hj (s1 & r1 & Hs1 & -> & Ha1) (s2 & r2 & Hs2 & [= <-] & Ha2).
    destruct (decide (i = j)) as [|Hne]; [done|]. exfalso.
    destruct (Forall2_lookup_l _ _ _ _ _ H2 Hi) as (x & Hx & Hsx).
    destruct (Forall2_lookup_l _ _ _ _ _ H2 Hj) as (y & Hy & Hsy).
    apply (wf_disjoint _ Hd i j x y Hx Hy Hne).
    assert (x = s1) as -> by congruence. assert (y = s2) as -> by congruence.
    apply overlapping_matches; [..|exists (Strings.Split r1 "/"); split; by apply accepts_matches].
    + by apply (proj1 splitEndpoint_spec) in Hs1 as (_ & _ & ? & _).
    + by apply (proj1 splitEndpoint_spec) in Hs2 as (_ & _ & ? & _).
Qed.

(** A compiled interface resolved the identifier of each of its mappings. *)
Lemma compile_ids iface ids ci m :
  Compile (Some iface) ids = Ok ci -> m ∈ Mappings iface ->
  exists id, endpoint_id ids (Endpoint m) = Ok id.
Proof.
  simpl. intros (id0 & _ & H)%bindR_Ok [i Hi]%list_elem_of_lookup.
  apply bindR_Ok in H as ([t leaves] & Hloop & _).
  apply (compile_loop_spec _ _ _ _ _ []) in Hloop as (ys & HF & _);
    [|apply trie_holds_nil|by case_decide; [split; [set_solver|constructor]|]].
  destruct (Forall2_lookup_l _ _ _ _ _ HF Hi) as (x & _ & _ & _ & Hid). eauto.
Qed.

(** C9. Matching a path in a compiled interface answers with the compiled form of
    the one declared mapping whose endpoint accepts it, and with nothing when
    no endpoint does. *)
Theorem compile_match iface ids ci :
  wf_interface iface -> Compile (Some iface) ids = Ok ci ->
  (forall path cm, Match (Some (cTrie ci)) path = Some cm <->
     exists m id, m ∈ Mappings iface /\ endpoint_accepts m path /\
       endpoint_id ids (Endpoint m) = Ok id /\ cm = compile_mapping id m) /\
  (forall path i j m m', Mappings iface !! i = Some m -> Mappings iface !! j = Some m' ->
     endpoint_accepts m path -> endpoint_accepts m' path -> i = j).
Proof. exact (compile_match_contract iface ids ci). Qed.

(** ** Which interfaces compile *)

(** Two endpoints that declare a placeholder below the same prefix call it by
    the same name. *)
Definition consistent_names (segss : list (list endpointSegment)) : Prop :=
  forall a b p nm nm', a ∈ segss -> b ∈ segss -> declares a p nm -> declares b p nm' -> nm = nm'.

(** The resolver knows the interface and each of its endpoints. *)
Definition resolves (ids : option EndpointIDResolver) (iface : Interface) : Prop :=
  match ids with
  | None => True
  | Some r =>
      (exists id, ResolveInterface r (Name iface) (Major iface) = Ok id) /\
      Forall (fun m => exists id, ResolveEndpoint r (Endpoint m) = Ok id) (Mappings iface)
  end.

(** [x] comes before [y]: different shapes, and different leaves when the
    table is built. *)
Definition apart (object : Prop) (x y : stamped) : Prop :=
  shape x.1.2 <> shape y.1.2 /\ (object -> forall l, leaf_of x l -> ~ leaf_of y l).

Lemma ForallOrdPairs_app_cons {A} (R : A -> A -> Prop) xs y ys :
  ForallOrdPairs R (xs ++ y :: ys) -> Forall (fun x => R x y) xs.
Proof.
  induction xs as [|x xs IH]; simpl; [constructor|]. inversion 1; subst.
  constructor; [|by apply IH]. rewrite Forall_forall in H2. apply H2. set_solver.
Qed.

Lemma add_leaf_total name ids leaves xs x :
  stamp_of ids x.1.1 x -> leaves_hold leaves xs ->
  (leaves <> None -> (exists l, leaf_of x l) /\
     Forall (fun y => forall l, leaf_of y l -> ~ leaf_of x l) xs) ->
  exists leaves', add_leaf name (Endpoint x.1.1) (cm_of x) leaves = Ok leaves'.
Proof.
  intros (_ & Hs & _) Hlv Hx. unfold add_leaf. destruct leaves as [table|]; [|eauto].
  destruct (Hx ltac:(done)) as [[l Hl] Hd]. rewrite (proj2 (lastLiteralSegment_spec _ _ _ Hs) Hl).
  simpl. destruct (table !! l) as [cm|] eqn:E; [|eauto]. exfalso.
  apply (proj1 Hlv) in E as (y & Hy & Hyl & _). rewrite Forall_forall in Hd. by eapply Hd.
Qed.

Lemma compile_loop_total (object : Prop) name ids ms t leaves xs ys :
  trie_holds t xs -> leaves_hold leaves xs -> (leaves <> None -> object) ->
  Forall2 (stamp_of ids) ms ys ->
  ForallOrdPairs (apart object) (xs ++ ys) ->
  (object -> Forall (fun y => exists l, leaf_of y l) ys) ->
  consistent_names (map (fun x => x.1.2) (xs ++ ys)) ->
  exists r, compile_loop name ids ms t leaves = Ok r.
Proof.
  intros Ht Hlv Hobj HF. revert t leaves xs Ht Hlv Hobj.
  induction HF as [|m x ms ys Hst HF IH];
    intros t leaves xs Ht Hlv Hobj Hap Hleaf Hcons; simpl; [eauto|].
  pose proof Hst as (Hm & Hs & Hid). subst m. rewrite Hid, Hs. simpl. fold (cm_of x).
  pose proof (ForallOrdPairs_app_cons _ _ _ _ Hap) as Hbefore.
  destruct (add_walk_total (Endpoint x.1.1) (cm_of x) x.1.2 t) as [t1 Ha].
  { destruct (lookup_pat t (shape x.1.2)) eqn:E; [|done]. exfalso.
    apply (proj1 Ht) in E as (y & Hy & Hsh & _). rewrite Forall_forall in Hbefore.
    by destruct (Hbefore y Hy). }
  { intros p nm nm' Hd Hp. apply (proj2 Ht) in Hp as (y & Hy & Hdy).
    eapply (Hcons y.1.2 x.1.2); [| |done..];
      apply list_elem_of_fmap; [exists y|exists x]; set_solver. }
  rewrite Ha. simpl.
  destruct (add_leaf_total name ids leaves xs x Hst Hlv) as [leaves1 Hl1].
  { intros Hne. specialize (Hobj Hne). specialize (Hleaf Hobj). apply Forall_cons in Hleaf as [Hl _].
    split; [done|]. eapply Forall_impl; [exact Hbefore|]. intros y [_ Hy]. by apply Hy. }
  rewrite Hl1. simpl.
  destruct (trie_holds_add t xs x t1 Ht Ha) as [Ht1 _].
  destruct (leaves_hold_add name leaves xs x leaves1 Hs Hlv Hl1) as [Hlv1 Hiff].
  replace (xs ++ x :: ys) with ((xs ++ [x]) ++ ys) in * by (by rewrite <- app_assoc).
  apply (IH t1 leaves1 (xs ++ [x])); [done..|tauto|done| |done].
  intros Ho. specialize (Hleaf Ho). by apply Forall_cons in Hleaf as [_ ?].
Qed.

Lemma shape_overlapping a b : shape a = shape b -> overlapping a b.
Proof.
  unfold overlapping, level_overlap. revert b. induction a as [|x a IH]; intros [|y b] H; try done.
  simpl in H. injection H as Hx H. constructor; [|by apply IH].
  destruct (param x), (param y); naive_solver.
Qed.

Lemma overlapping_refl a : overlapping a a.
Proof. by apply shape_overlapping. Qed.

(** Distinct endpoints of a well-formed object have distinct leaves. *)
Lemma object_leaves_apart prefix (x y : stamped) :
  (exists l, x.1.2 = prefix ++ [Seg l false]) -> (exists l, y.1.2 = prefix ++ [Seg l false]) ->
  ~ overlapping x.1.2 y.1.2 -> forall l, leaf_of x l -> ~ leaf_of y l.
Proof.
  intros [lx Hx] [ly Hy] Hn l Hlx Hly. unfold leaf_of in *. rewrite Hx, last_snoc in Hlx.
  rewrite Hy, last_snoc in Hly. apply Hn. rewrite Hx, Hy. unfold overlapping.
  apply Forall2_app; [apply overlapping_refl|]. constructor; [|constructor].
  right. right. simpl. congruence.
Qed.

Lemma ForallOrdPairs_impl_in {A} (R S : A -> A -> Prop) l :
  (forall x y, x ∈ l -> y ∈ l -> R x y -> S x y) -> ForallOrdPairs R l -> ForallOrdPairs S l.
Proof.
  intros Himpl H. induction H as [|x l Hx _ IH]; constructor.
  - rewrite Forall_forall in Hx |- *. intros y Hy. apply Himpl; [set_solver..|by apply Hx].
  - apply IH. intros ????. apply Himpl; set_solver.
Qed.

Lemma stamp_exists ids iface segss :
  resolves ids iface ->
  Forall2 (fun m segs => splitEndpoint (Endpoint m) = Ok segs) (Mappings iface) segss ->
  exists ys, Forall2 (stamp_of ids) (Mappings iface) ys /\ map (fun x : stamped => x.1.2) ys = segss /\
             map (fun x : stamped => x.1.1) ys = Mappings iface.
Proof.
  intros Hr H2. assert (Forall (fun m => exists id, endpoint_id ids (Endpoint m) = Ok id) (Mappings iface)) as Hids.
  { destruct ids as [r|]; simpl in *.
    - destruct Hr as [_ Hr]. eapply Forall_impl; [exact Hr|]. simpl. intros m [id ->]. by exists id.
    - apply Forall_true. intros. by exists 0%Z. }
  clear Hr. induction H2 as [|m segs ms segss Hs H2 IH].
  { exists []. by repeat constructor. }
  apply Forall_cons in Hids as [[id Hid] Hids]. destruct (IH Hids) as (ys & HF & <- & <-).
  exists ((m, segs, id) :: ys). split; [|done]. constructor; done.
Qed.

Lemma object_prefix (ys : list stamped) :
  object_shape (zip (map (fun x : stamped => x.1.1) ys) (map (fun x : stamped => x.1.2) ys)) ->
  exists prefix, Forall (fun x : stamped => exists l, x.1.2 = prefix ++ [Seg l false]) ys.
Proof.
  intros (prefix & attrs & H). exists prefix. induction ys as [|y ys IH]; [constructor|].
  simpl in H. apply Forall_cons in H as [[Hl _] H]. constructor; [done|by apply IH].
Qed.

(** A well-formed interface whose identifiers resolve compiles if and only if
    its placeholder names are consistent. *)
Theorem compile_succeeds_iff iface ids segss :
  wf_interface iface -> resolves ids iface ->
  Forall2 (fun m segs => splitEndpoint (Endpoint m) = Ok segs) (Mappings iface) segss ->
  is_ok (Compile (Some iface) ids) = true <-> consistent_names segss.
Proof.
  intros Hwf Hr H2. destruct (stamp_exists ids iface segss Hr H2) as (ys & HF & Hsegs & Hms).
  simpl. assert (exists id0, match ids with
    | None => Ok 0%Z
    | Some r => mapErr (ResolvingInterface (Name iface) (Major iface))
                  (ResolveInterface r (Name iface) (Major iface))
    end = Ok id0) as [id0 ->].
  { destruct ids as [r|]; [|eauto]. destruct Hr as [[id ->] _]. simpl. eauto. }
  simpl. set (leaves := if decide (IAggregation iface = AggregationObject) then Some ∅ else None).
  assert (leaves_hold leaves []) as Hlv.
  { unfold leaves. case_decide; simpl; [|done]. split; [set_solver|constructor]. }
  split.
  - intros (ci & H)%is_ok_spec. apply bindR_Ok in H as ([t lv] & Hloop & _).
    destruct (compile_loop_spec _ _ _ _ _ [] _ _ trie_holds_nil Hlv Hloop)
      as (ys' & HF' & [_ Hp] & _). simpl in Hp.
    pose proof (stamped_segss _ _ _ _ HF' H2) as Hsegs'. rewrite Hsegs'.
    intros a b p nm nm' (x & -> & Hx)%list_elem_of_fmap (y & -> & Hy)%list_elem_of_fmap Ha Hb.
    assert (param_at t p = Some nm) by (apply Hp; eauto).
    assert (param_at t p = Some nm') by (apply Hp; eauto). congruence.
  - intros Hcons. destruct Hwf as [_ _ _ _ _ _ _ _ (segss' & H2' & Hd & Hobj)].
    assert (segss' = segss) as ->.
    { rewrite (stamped_segss _ _ _ _ HF H2'). done. }
    destruct (compile_loop_total (IAggregation iface = AggregationObject) (Name iface) ids
      (Mappings iface) NewEndpointTrie leaves [] ys trie_holds_nil Hlv) as [[t lv] Hloop].
    + unfold leaves. by case_decide.
    + done.
    + rewrite <- Hsegs, <- ForallOrdPairs_map in Hd. eapply ForallOrdPairs_impl_in; [|exact Hd].
      intros x y Hx Hy Hn. split; [by intros ?%shape_overlapping|].
      intros Ho. apply Hobj in Ho. rewrite <- Hsegs, <- Hms in Ho.
      apply object_prefix in Ho as [prefix Ho]. rewrite Forall_forall in Ho.
      apply (object_leaves_apart prefix); auto.
    + intros Ho. apply Hobj in Ho. rewrite <- Hsegs, <- Hms in Ho.
      apply object_prefix in Ho as [prefix Ho]. eapply Forall_impl; [exact Ho|].
      intros x [l Hl]. exists l. unfold leaf_of. rewrite Hl. apply last_snoc.
    + simpl. by rewrite Hsegs.
    + rewrite Hloop. done.
Qed.

(** ** Object leaves *)

(** The table of leaves of [ci], read from the interface it was compiled from. *)
Definition leaves_contract (iface : Interface) (ids : option EndpointIDResolver)
    (ci : CompiledInterface) : Prop :=
  match ObjectLeaves ci with
  | None => IAggregation iface = AggregationIndividual
  | Some table =>
      IAggregation iface = AggregationObject /\
      (forall leaf cm, table !! leaf = Some cm <->
        exists m id, m ∈ Mappings iface /\ lastLiteralSegment (Endpoint m) = Ok leaf /\
          endpoint_id ids (Endpoint m) = Ok id /\ cm = compile_mapping id m) /\
      (forall i j m m' leaf, Mappings iface !! i = Some m -> Mappings iface !! j = Some m' ->
        lastLiteralSegment (Endpoint m) = Ok leaf -> lastLiteralSegment (Endpoint m') = Ok leaf ->
        i = j)
  end.

Lemma compile_leaves_contract iface ids ci :
  wf_interface iface -> Compile (Some iface) ids = Ok ci -> leaves_contract iface ids ci.
Proof.
  intros [_ _ _ _ _ _ _ _ (segss & H2 & Hd & Hobj)] H. simpl in H.
  apply bindR_Ok in H as (id0 & _ & H). apply bindR_Ok in H as ([t leaves] & Hloop & H).
  injection H as <-. unfold leaves_contract. cbn [ObjectLeaves].
  apply (compile_loop_spec _ _ _ _ _ []) in Hloop as (ys & HF & _ & Hlv & Hiff);
    [|apply trie_holds_nil|by case_decide; [split; [set_solver|constructor]|]].
  destruct leaves as [table|].
  2: { destruct (IAggregation iface); [done|]. rewrite decide_True in Hiff by done. naive_solver. }
  destruct (decide (IAggregation iface = AggregationObject)) as [Ho|Ho]; [|naive_solver].
  split; [done|]. destruct Hlv as [Hlv _]. simpl in Hlv. split.
  - intros leaf cm. rewrite Hlv. split.
    + intros (x & [i Hi]%list_elem_of_lookup & Hl & ->).
      destruct (Forall2_lookup_r _ _ _ _ _ HF Hi) as (m & Hm & <- & Hs & Hid).
      exists x.1.1, x.2. split; [by eapply list_elem_of_lookup_2|].
      by rewrite (lastLiteralSegment_spec _ _ _ Hs).
    + intros (m & id & [i Hi]%list_elem_of_lookup & Hl & Hid & ->).
      destruct (Forall2_lookup_l _ _ _ _ _ HF Hi) as (x & Hx & <- & Hs & Hid').
      apply (lastLiteralSegment_spec _ _ _ Hs) in Hl. exists x.
      split; [by eapply list_elem_of_lookup_2|]. split; [done|]. unfold cm_of. congruence.
  - intros i j m m' leaf Hi Hj Hl Hl'. destruct (decide (i = j)) as [|Hne]; [done|]. exfalso.
    destruct (Forall2_lookup_l _ _ _ _ _ HF Hi) as (x & Hx & <- & Hs & _).
    destruct (Forall2_lookup_l _ _ _ _ _ HF Hj) as (y & Hy & <- & Hs' & _).
    apply (lastLiteralSegment_spec _ _ _ Hs) in Hl.
    apply (lastLiteralSegment_spec _ _ _ Hs') in Hl'.
    pose proof (stamped_segss _ _ _ _ HF H2) as ->. apply Hobj in Ho.
    assert (map (fun x : stamped => x.1.1) ys = Mappings iface) as Hms.
    { clear -HF. induction HF as [|m y ms ys (<- & _) _ IH]; simpl; congruence. }
    rewrite <- Hms in Ho. apply object_prefix in Ho as [prefix Ho].
    eapply (object_leaves_apart prefix x y); [exact (Forall_lookup_1 _ _ _ _ Ho Hx)|
      exact (Forall_lookup_1 _ _ _ _ Ho Hy)| |exact Hl|exact Hl'].
    apply (wf_disjoint _ Hd i j); [by rewrite lookup_map, Hx|by rewrite lookup_map, Hy|done].
Qed.

(** ** Publish paths of an object interface *)

(** [prefix] is matched by the levels [P]: the empty path by no level. *)
Definition prefix_accepts (P : list endpointSegment) (prefix : gostring) : Prop :=
  match prefix with
  | [] => P = []
  | c :: p => c = "/"%char /\ accepts (shape P) (Strings.Split p "/")
  end.

Lemma accepts_leaf P l prefix leaf rest :
  "/"%char ∉ leaf -> leaf <> [] -> prefix ++ "/"%char :: leaf = "/"%char :: rest ->
  accepts (shape (P ++ [Seg l false])) (Strings.Split rest "/") <-> prefix_accepts P prefix /\ l = leaf.
Proof.
  intros Hl Hne Heq. unfold accepts, shape. rewrite map_app. cbn [map param literal].
  assert (accepts_level (Some l) leaf <-> l = leaf) as Hlev by (unfold accepts_level; naive_solver).
  destruct prefix as [|c p]; simpl in Heq.
  - injection Heq as <-. rewrite Strings.Split_none by done. simpl. split.
    + intros H2. pose proof (Forall2_length _ _ _ H2) as Hlen. rewrite length_app in Hlen. simpl in Hlen.
      destruct P; [|simpl in Hlen; lia]. apply Forall2_cons in H2 as [H2 _]. naive_solver.
    + intros [-> ->]. constructor; [by apply Hlev|constructor].
  - injection Heq as -> <-. rewrite Strings.Split_snoc by done. split.
    + intros H2. apply Forall2_app_inv in H2 as [H2 H3].
      * apply Forall2_cons in H3 as [H3 _]. simpl. naive_solver.
      * apply Forall2_length in H2. rewrite !length_app in H2. simpl in H2. lia.
    + intros [[_ HP] ->]. apply Forall2_app; [done|]. constructor; [by apply Hlev|constructor].
Qed.

(** The mappings of an object interface share their levels and attributes. *)
Lemma object_mappings iface :
  wf_interface iface -> IAggregation iface = AggregationObject ->
  exists P attrs, Forall (fun m => object_attrs m = attrs /\
    exists l, splitEndpoint (Endpoint m) = Ok (P ++ [Seg l false])) (Mappings iface).
Proof.
  intros Hwf Hagg. destruct (wf_endpoints _ Hwf) as (segss & H2 & _ & Hobj). destruct (Hobj Hagg) as (P & attrs & HP).
  exists P, attrs.
  clear -H2 HP. revert segss H2 HP. induction (Mappings iface) as [|m ms IH]; intros segss H2 HP; [constructor|].
  destruct segss as [|segs segss]; [inversion H2|].
  apply Forall2_cons in H2 as [Hs H2]. simpl in HP. apply Forall_cons in HP as [[[l Hl] Ha] HP].
  simpl in *. subst. constructor; [eauto|by eapply IH].
Qed.

(** So do its compiled leaves. *)
Lemma object_leaves_uniform iface ids ci table l1 l2 c1 c2 :
  wf_interface iface -> Compile (Some iface) ids = Ok ci -> ObjectLeaves ci = Some table ->
  table !! l1 = Some c1 -> table !! l2 = Some c2 ->
  cReliability c1 = cReliability c2 /\ cExpiry c1 = cExpiry c2 /\
  cExplicitTimestamp c1 = cExplicitTimestamp c2 /\ cDBRetentionTTL c1 = cDBRetentionTTL c2.
Proof.
  intros Hwf Hc Ht H1 H2. pose proof (compile_leaves_contract _ _ _ Hwf Hc) as Hlv. unfold leaves_contract in Hlv.
  rewrite Ht in Hlv. destruct Hlv as (Hagg & Htab & _). destruct (object_mappings _ Hwf Hagg) as (P & attrs & Hms).
  rewrite Forall_forall in Hms.
  apply Htab in H1 as (m1 & i1 & Hm1 & _ & _ & ->). apply Htab in H2 as (m2 & i2 & Hm2 & _ & _ & ->).
  destruct (Hms _ Hm1) as [<- _]. destruct (Hms _ Hm2) as [E _]. unfold object_attrs in E. simpl.
  injection E as -> _ -> -> _ ->. done.
Qed.

(** The levels above the leaves, and when a leaf below a path resolves: for
    every leaf of the table the same condition, on the path alone. *)
Lemma object_paths iface ids ci table :
  wf_interface iface -> Compile (Some iface) ids = Ok ci -> ObjectLeaves ci = Some table ->
  exists P attrs,
    Forall (fun m => object_attrs m = attrs /\
              exists l, splitEndpoint (Endpoint m) = Ok (P ++ [Seg l false])) (Mappings iface) /\
    forall leaf prefix, is_Some (table !! leaf) ->
      is_Some (Match (Some (cTrie ci)) (prefix ++ "/"%char :: leaf)) <-> prefix_accepts P prefix.
Proof.
  intros Hwf Hc Ht. pose proof (compile_match_contract _ _ _ Hwf Hc) as [Hmatch _].
  pose proof (compile_leaves_contract _ _ _ Hwf Hc) as Hlv. unfold leaves_contract in Hlv.
  rewrite Ht in Hlv. destruct Hlv as (Hagg & Htab & _).
  destruct (object_mappings _ Hwf Hagg) as (P & attrs & Hms).
  exists P, attrs. split; [done|]. intros leaf prefix [cm Hcm].
  apply Htab in Hcm as (m & id & Hm & Hlast & Hid & ->).
  rewrite Forall_forall in Hms. destruct (Hms m Hm) as [_ [l Hl]].
  apply (lastLiteralSegment_spec _ _ _ Hl) in Hlast. rewrite last_snoc in Hlast. injection Hlast as ->.
  assert ("/"%char ∉ leaf /\ leaf <> []) as [Hns Hne].
  { apply (proj1 splitEndpoint_spec) in Hl as (_ & _ & Hv & _). apply Forall_app in Hv as [_ Hv].
    rewrite Forall_singleton in Hv.
    split; [exact (render_no_slash _ Hv)|exact (render_nonempty _ Hv)]. }
  split.
  - intros [cm Hx]. apply Hmatch in Hx as (m' & id' & Hm' & (segs & rest & Hs & Heq & Ha) & _).
    destruct (Hms m' Hm') as [_ [l' Hl']]. rewrite Hl' in Hs. injection Hs as <-.
    by apply (accepts_leaf P l' prefix leaf rest) in Ha as [? _].
  - intros Hp. exists (compile_mapping id m). apply Hmatch. exists m, id. split; [done|]. split; [|done].
    assert (exists rest, prefix ++ "/"%char :: leaf = "/"%char :: rest) as [rest Heq].
    { destruct prefix as [|c p]; [by eexists|]. destruct Hp as [-> _]. by eexists. }
    exists (P ++ [Seg leaf false]), rest. split; [done|]. split; [done|].
    by apply (accepts_leaf P leaf prefix leaf rest).
Qed.

(** For an object interface the table of leaves is present and maps exactly
    the last level of each endpoint to its compiled mapping, and no two
    mappings share a leaf; an individual interface has no table. *)
Theorem compile_object_leaves iface ids ci :
  wf_interface iface -> Compile (Some iface) ids = Ok ci ->
  match ObjectLeaves ci with
  | None => IAggregation iface = AggregationIndividual
  | Some table =>
      IAggregation iface = AggregationObject /\
      (forall leaf cm, table !! leaf = Some cm <->
        exists m id, m ∈ Mappings iface /\ lastLiteralSegment (Endpoint m) = Ok leaf /\
          endpoint_id ids (Endpoint m) = Ok id /\ cm = compile_mapping id m) /\
      (forall i j m m' leaf, Mappings iface !! i = Some m -> Mappings iface !! j = Some m' ->
        lastLiteralSegment (Endpoint m) = Ok leaf -> lastLiteralSegment (Endpoint m') = Ok leaf ->
        i = j)
  end.
Proof. exact (compile_leaves_contract iface ids ci). Qed.

(** ** Durations *)

(** The stored TTL of a parsed mapping never overflows [time.Duration]; its
    expiry is exact up to 9223372036 seconds and wraps to another value
    beyond that bound. *)
Theorem compile_durations t m id :
  wf_mapping t m ->
  cDBRetentionTTL (compile_mapping id m) = (DatabaseRetentionTTL m * 1000000000)%Z /\
  (cExpiry (compile_mapping id m) = (Expiry m * 1000000000)%Z <-> (Expiry m <= 9223372036)%Z).
Proof.
  intros (_ & _ & H). simpl.
  assert (0 <= Expiry m /\ 0 <= DatabaseRetentionTTL m <= 9223372036)%Z as [He Ht].
  { destruct t.
    - destruct H as (_ & He & Ht). split; [done|]. unfold wf_ttl in Ht.
      destruct (DatabaseRetentionPolicy_ m);
        unfold MinDatabaseRetentionTTL, MaxDatabaseRetentionTTL in *; lia.
    - destruct H as (_ & _ & -> & _ & -> & _). lia. }
  split; [by apply seconds_exact; lia|by apply seconds_exact].
Qed.

(** *** Concrete interfaces *)

Definition datastream_mapping (endpoint : gostring) (expiry : Z) : Mapping :=
  MkMapping endpoint Double ReliabilityGuaranteed RetentionStored expiry NoTTL 0 false false false
    false [] [].
Definition sample_interface (agg : Aggregation) (endpoints : list gostring) : Interface :=
  MkInterface "org.astrate.Sensors"%go 1 0 Datastream OwnershipDevice agg [] []
    (map (fun e => datastream_mapping e 0) endpoints).

(** Two endpoints that differ in their last level but name the same
    placeholder level differently are accepted by the parser, and rejected
    by the compiler. *)
Theorem parsed_interface_does_not_compile :
  let iface := sample_interface AggregationIndividual ["/%{a}/x"%go; "/%{b}/y"%go] in
  buildInterface (document iface) = Ok (iface, document iface) /\
  forall ids, is_ok (Compile (Some iface) ids) = false.
Proof.
  split; [vm_compute; reflexivity|]. intros ids. simpl.
  destruct ids as [r|]; simpl; [|by vm_compute].
  destruct (ResolveInterface r _ _); simpl; [|done].
  destruct (ResolveEndpoint r "/%{a}/x"%go); simpl; [|done].
  destruct (ResolveEndpoint r "/%{b}/y"%go); simpl; [|done].
  by vm_compute.
Qed.

Lemma sample_wf agg endpoints :
  buildInterface (document (sample_interface agg endpoints)) =
    Ok (sample_interface agg endpoints, document (sample_interface agg endpoints)) ->
  wf_interface (sample_interface agg endpoints).
Proof. apply buildInterface_sound. Qed.

Lemma compile_match_witness :
  exists ci,
    Compile (Some (sample_interface AggregationIndividual ["/%{a}/x"%go; "/%{a}/y/z"%go])) None = Ok ci /\
    is_Some (Match (Some (cTrie ci)) "/4/x"%go).
Proof.
  destruct (Compile (Some (sample_interface AggregationIndividual ["/%{a}/x"%go; "/%{a}/y/z"%go])) None)
    as [ci|] eqn:E; [|vm_compute in E; discriminate E].
  exists ci. split; [reflexivity|]. exists (compile_mapping 0 (datastream_mapping "/%{a}/x"%go 0)).
  eapply (compile_match _ _ _ (sample_wf AggregationIndividual ["/%{a}/x"%go; "/%{a}/y/z"%go] ltac:(vm_compute; reflexivity)) E).
  eexists _, 0%Z. split; [left|]. split; [|split; reflexivity].
  exists [Seg "a"%go true; Seg "x"%go false], "4/x"%go.
  split; [by vm_compute|]. split; [done|]. repeat constructor; done.
Defined.

Lemma compile_object_leaves_witness :
  exists ci table,
    Compile (Some (sample_interface AggregationObject ["/%{a}/x"%go; "/%{a}/y"%go])) None = Ok ci /\
    ObjectLeaves ci = Some table /\ is_Some (table !! "y"%go).
Proof.
  destruct (Compile (Some (sample_interface AggregationObject ["/%{a}/x"%go; "/%{a}/y"%go])) None)
    as [ci|] eqn:E; [|vm_compute in E; discriminate E].
  pose proof (compile_object_leaves _ _ _ (sample_wf AggregationObject ["/%{a}/x"%go; "/%{a}/y"%go]
    ltac:(vm_compute; reflexivity)) E) as H.
  destruct (ObjectLeaves ci) as [table|] eqn:EL; [|discriminate H]. exists ci, table.
  split; [reflexivity|]. split; [exact EL|]. destruct H as (_ & H & _).
  exists (compile_mapping 0 (datastream_mapping "/%{a}/y"%go 0)). apply H.
  eexists _, 0%Z. split; [right; left|]. split; [by vm_compute|]. split; reflexivity.
Defined.

Lemma compile_succeeds_iff_witness :
  is_ok (Compile (Some (sample_interface AggregationIndividual ["/%{a}/x"%go])) None) = true.
Proof.
  apply (compile_succeeds_iff _ None [[Seg "a"%go true; Seg "x"%go false]]
           (sample_wf AggregationIndividual ["/%{a}/x"%go] ltac:(vm_compute; reflexivity)) I).
  - repeat constructor.
  - intros a b p nm nm' Ha Hb. apply list_elem_of_singleton in Ha, Hb. subst a b.
    intros (k & Hk & ->) (k' & Hk' & Hp).
    destruct k as [|[|k]]; [|discriminate Hk..]. destruct k' as [|[|k']]; [|discriminate Hk'..].
    congruence.
Defined.

Lemma compile_durations_witness :
  cExpiry (compile_mapping 7 (datastream_mapping "/x"%go 9223372036)) = 9223372036000000000%Z.
Proof.
  apply (compile_durations Datastream (datastream_mapping "/x"%go 9223372036) 7).
  - repeat split; done.
  - done.
Defined.

End Compile.
