(* ===== verification/Compat.v ===== *)
(** * Minor-version upgrades ([src/pkg/interfaceschema/compat.go])

    [CheckMinorUpgrade] decides whether a new interface document may replace
    an installed one under the same major version. *)

From S2P Require Import Prelude GoStrings Regex SchemaTypes Endpoints InterfaceParse EndpointTrie Compile.

Module Compat.
Import Schema Endpoint Parse Trie.

(** The rejections; every one wraps [ErrIncompatibleUpgrade]. *)
Inductive upgrade_error :=
| UpgradeNil
| NameChanged (old next : gostring)
| MajorChanged (old next : Z)
| MinorNotIncreased
| DowngradeNotAllowed
| TypeChanged
| OwnershipChanged
| AggregationChanged
| UpgradeBadEndpoint (e : endpoint_error)
| MissingEndpoint (endpoint : gostring)
| AttributeChanged (endpoint attr : gostring).

Definition normalizedKey (endpoint : gostring) : result upgrade_error gostring :=
  let? segs := mapErr UpgradeBadEndpoint (splitEndpoint endpoint) in
  Ok (normalizeEndpoint segs).

Definition sameMappingAttributes (om nm : Mapping) : result upgrade_error () :=
  let attr :=
    if decide (Type_ nm = Type_ om) then
    if decide (Reliability_ nm = Reliability_ om) then
    if decide (Retention_ nm = Retention_ om) then
    if decide (Expiry nm = Expiry om) then
    if decide (DatabaseRetentionPolicy_ nm = DatabaseRetentionPolicy_ om) then
    if decide (DatabaseRetentionTTL nm = DatabaseRetentionTTL om) then
    if decide (AllowUnset nm = AllowUnset om) then
    if decide (ExplicitTimestamp nm = ExplicitTimestamp om) then
    if decide (Required nm = Required om) then
    if decide (Encrypted nm = Encrypted om) then []
    else "encrypted"%go
    else "required"%go
    else "explicit_timestamp"%go
    else "allow_unset"%go
    else "database_retention_ttl"%go
    else "database_retention_policy"%go
    else "expiry"%go
    else "retention"%go
    else "reliability"%go
    else "type"%go in
  if decide (attr = []) then Ok () else Err (AttributeChanged (Endpoint om) attr).

(** The map of the next version's mappings by key; a later mapping with the
    same key replaces an earlier one. *)
Fixpoint index_mappings (ms : list Mapping) (acc : gmap gostring Mapping)
    : result upgrade_error (gmap gostring Mapping) :=
  match ms with
  | [] => Ok acc
  | m :: ms =>
      let? key := normalizedKey (Endpoint m) in
      index_mappings ms (<[key := m]> acc)
  end.

Fixpoint check_mappings (nextByEndpoint : gmap gostring Mapping) (ms : list Mapping)
    : result upgrade_error () :=
  match ms with
  | [] => Ok ()
  | om :: ms =>
      let? key := normalizedKey (Endpoint om) in
      let? nm := or_err (nextByEndpoint !! key) (MissingEndpoint (Endpoint om)) in
      sameMappingAttributes om nm ;;?
      check_mappings nextByEndpoint ms
  end.

Definition CheckMinorUpgrade (old next : option Interface) : result upgrade_error () :=
  match old, next with
  | Some old, Some next =>
      guard_err (bool_decide (Name next = Name old)) (NameChanged (Name old) (Name next)) ;;?
      guard_err (Major next =? Major old)%Z (MajorChanged (Major old) (Major next)) ;;?
      guard_err (negb (Minor next =? Minor old)%Z) MinorNotIncreased ;;?
      guard_err (negb (Minor next <? Minor old)%Z) DowngradeNotAllowed ;;?
      guard_err (bool_decide (IType next = IType old)) TypeChanged ;;?
      guard_err (bool_decide (IOwnership next = IOwnership old)) OwnershipChanged ;;?
      guard_err (bool_decide (IAggregation next = IAggregation old)) AggregationChanged ;;?
      let? nextByEndpoint := index_mappings (Mappings next) ∅ in
      check_mappings nextByEndpoint (Mappings old)
  | _, _ => Err UpgradeNil
  end.

(** ** The rule it implements *)

(** What must not change of a mapping: everything but its texts. *)
Definition semantic (m : Mapping) :=
  (Type_ m, Reliability_ m, Retention_ m, Expiry m, DatabaseRetentionPolicy_ m,
   DatabaseRetentionTTL m, AllowUnset m, ExplicitTimestamp m, Required m, Encrypted m).

(** The same endpoint up to placeholder names. *)
Definition same_endpoint (m m' : Mapping) : Prop :=
  exists segs segs', splitEndpoint (Endpoint m) = Ok segs /\ splitEndpoint (Endpoint m') = Ok segs' /\
    same_shape segs segs'.

Record additive (old next : Interface) : Prop := {
  add_name : Name next = Name old;
  add_major : Major next = Major old;
  add_minor : (Minor old < Minor next)%Z;
  add_type : IType next = IType old;
  add_ownership : IOwnership next = IOwnership old;
  add_aggregation : IAggregation next = IAggregation old;
  add_mappings : forall om, om ∈ Mappings old ->
    exists nm, nm ∈ Mappings next /\ same_endpoint om nm /\ semantic nm = semantic om;
}.

Lemma sameMappingAttributes_spec om nm u :
  sameMappingAttributes om nm = Ok u <-> semantic nm = semantic om.
Proof.
  destruct u. unfold sameMappingAttributes, semantic.
  repeat case_decide; split; try done; try congruence; intros H'; exfalso; simplify_eq; done.
Qed.

(** The key of an endpoint that parses. *)
Definition has_key (m : Mapping) (key : gostring) : Prop :=
  exists segs, splitEndpoint (Endpoint m) = Ok segs /\ key = normalizeEndpoint segs.

Lemma normalizedKey_spec m key : normalizedKey (Endpoint m) = Ok key <-> has_key m key.
Proof.
  unfold normalizedKey, has_key. destruct (splitEndpoint (Endpoint m)); simpl; naive_solver.
Qed.

Lemma same_endpoint_key m m' key :
  has_key m key -> (same_endpoint m m' <-> has_key m' key).
Proof.
  intros (segs & Hs & ->). pose proof (proj1 (proj1 splitEndpoint_spec _ _) Hs) as (_ & _ & Hv & _).
  split.
  - intros (s1 & s2 & H1 & H2 & Hsame). exists s2. split; [done|].
    pose proof (proj1 (proj1 splitEndpoint_spec _ _) H2) as (_ & _ & Hv2 & _).
    apply normalizeEndpoint_inj; [done..|]. congruence.
  - intros (s2 & H2 & Hk). exists segs, s2. repeat split; [done..|].
    pose proof (proj1 (proj1 splitEndpoint_spec _ _) H2) as (_ & _ & Hv2 & _).
    by apply normalizeEndpoint_inj.
Qed.

(** No two mappings have the same key. *)
Definition distinct_keys (ms : list Mapping) : Prop :=
  ForallOrdPairs (fun m m' => forall key, has_key m key -> ~ has_key m' key) ms.

Lemma index_mappings_spec ms acc :
  Forall (fun m => exists key, has_key m key) ms -> distinct_keys ms ->
  exists table, index_mappings ms acc = Ok table /\
    forall key m, table !! key = Some m <->
      (m ∈ ms /\ has_key m key) \/
      (acc !! key = Some m /\ Forall (fun m' => ~ has_key m' key) ms).
Proof.
  intros Hk Hd. revert acc. induction Hd as [|m ms Hm Hd IH]; intros acc; simpl.
  { exists acc. split; [done|]. intros key m. split; [right; split; [done|constructor]|].
    intros [[H _]|[H _]]; [by apply elem_of_nil in H|done]. }
  apply Forall_cons in Hk as [[key Hkey] Hk].
  rewrite (proj2 (normalizedKey_spec m key) Hkey). simpl.
  destruct (IH Hk (<[key := m]> acc)) as (table & Htab & Hspec). exists table.
  split; [done|]. intros k m'. rewrite Hspec, Forall_cons, elem_of_cons.
  assert (forall k', has_key m k' -> k' = key) as Hinj.
  { intros k' (s & Hs & ->). destruct Hkey as (s2 & Hs2 & ->). congruence. }
  assert (Forall (fun m' => ~ has_key m' key) ms) as Hnot.
  { eapply Forall_impl; [exact Hm|]. simpl. intros x Hx. by apply Hx. }
  destruct (decide (k = key)) as [->|Hne].
  - rewrite lookup_insert, decide_True by done. naive_solver.
  - rewrite lookup_insert_ne by done. naive_solver.
Qed.

Lemma check_mappings_spec table ms u :
  check_mappings table ms = Ok u <->
  Forall (fun om => exists key nm, has_key om key /\ table !! key = Some nm /\
                                   semantic nm = semantic om) ms.
Proof.
  destruct u. induction ms as [|om ms IH]; simpl; [split; [constructor|done]|].
  rewrite Forall_cons, <- IH. split.
  - intros H. inv_ok H. split; [|done]. apply normalizedKey_spec in Hok.
    apply sameMappingAttributes_spec in Hok1. eauto.
  - intros [(key & nm & Hk & Ht & Hs) H]. rewrite (proj2 (normalizedKey_spec om key) Hk). simpl.
    rewrite Ht. simpl. by rewrite (proj2 (sameMappingAttributes_spec om nm ()) Hs).
Qed.

Lemma wf_has_key iface m : wf_interface iface -> m ∈ Mappings iface -> exists key, has_key m key.
Proof.
  intros [_ _ _ _ _ _ _ _ (segss & H2 & _)] [i Hi]%list_elem_of_lookup.
  destruct (Forall2_lookup_l _ _ _ _ _ H2 Hi) as (segs & _ & Hs). by exists (normalizeEndpoint segs), segs.
Qed.

Lemma same_shape_overlapping a b : same_shape a b -> overlapping a b.
Proof.
  unfold same_shape, overlapping, level_overlap. intros H.
  eapply Forall2_impl; [exact H|]. simpl. intros x y [Hp Hl]. destruct (param x); auto.
Qed.

Lemma wf_distinct_keys iface : wf_interface iface -> distinct_keys (Mappings iface).
Proof.
  intros [_ _ _ _ _ _ _ _ (segss & H2 & Hd & _)]. unfold distinct_keys.
  revert segss H2 Hd. induction (Mappings iface) as [|m ms IH]; intros segss H2 Hd; [constructor|].
  destruct segss as [|segs segss]; [by apply Forall2_cons_nil_inv in H2|].
  apply Forall2_cons in H2 as [Hs H2]. inversion Hd as [|? ? Hn Hd']; subst.
  constructor; [|by eapply IH]. apply Forall_forall.
  intros m' [j Hj]%list_elem_of_lookup key Hk Hk'.
  destruct (Forall2_lookup_l _ _ _ _ _ H2 Hj) as (segs' & Hj' & Hs').
  pose proof (proj2 (same_endpoint_key m m' key Hk) Hk') as (s1 & s2 & H1 & H2' & Hsame).
  apply (Forall_lookup_1 _ _ _ _ Hn Hj'). apply same_shape_overlapping. congruence.
Qed.

Lemma check_upgrade_additive old next :
  wf_interface old -> wf_interface next ->
  CheckMinorUpgrade (Some old) (Some next) = Ok () <-> additive old next.
Proof.
  intros Hwo Hwn. unfold CheckMinorUpgrade.
  destruct (index_mappings_spec (Mappings next) ∅) as (table & Htab & Hspec).
  { apply Forall_forall. intros m. by apply wf_has_key. }
  { by apply wf_distinct_keys. }
  assert (check_mappings table (Mappings old) = Ok () <->
    forall om, om ∈ Mappings old ->
      exists nm, nm ∈ Mappings next /\ same_endpoint om nm /\ semantic nm = semantic om) as Hcheck.
  { rewrite check_mappings_spec, Forall_forall. split.
    - intros H om Hom. destruct (H om Hom) as (key & nm & Hk & Ht & Hs).
      apply Hspec in Ht as [[Hin Hkn]|[Hx _]]; [|by rewrite lookup_empty in Hx].
      exists nm. split; [done|]. split; [by eapply same_endpoint_key|done].
    - intros H om Hom. destruct (H om Hom) as (nm & Hin & Hse & Hs).
      destruct (wf_has_key _ _ Hwo Hom) as [key Hk]. exists key, nm. split; [done|].
      split; [|done]. apply Hspec. left. split; [done|]. by eapply same_endpoint_key. }
  split.
  - intros H. inv_ok H. bool_hyps.
    match goal with Hi : index_mappings _ _ = Ok _ |- _ => rewrite Htab in Hi; injection Hi as <- end.
    constructor; [done|done|lia|done..|]. by apply Hcheck.
  - intros [Hn Hma Hmi Ht Ho Ha Hm]. apply Hcheck in Hm.
    rewrite !bool_decide_eq_true_2, Hma, Z.eqb_refl by done.
    rewrite (proj2 (Z.eqb_neq _ _)), (proj2 (Z.ltb_ge _ _)) by lia. simpl. by rewrite Htab.
Qed.

(** C35. On validated interfaces the check accepts exactly the additive upgrades:
    same identity, a higher minor, and every old endpoint kept with all its
    semantic attributes. *)
Theorem minor_upgrade_iff old next :
  wf_interface old -> wf_interface next ->
  CheckMinorUpgrade (Some old) (Some next) = Ok () <-> additive old next.
Proof. exact (check_upgrade_additive old next). Qed.

(** ** Upgrades preserve what old paths mean *)

(** The compiled attributes of a mapping, without its storage identifier. *)
Definition attributes (cm : CompiledMapping) :=
  (cValueType cm, cReliability cm, cRetention cm, cExpiry cm, cExplicitTimestamp cm,
   cAllowUnset cm, cDBRetentionTTL cm, cRequired cm, cEncrypted cm).

Lemma same_shape_shape a b : same_shape a b -> shape a = shape b.
Proof.
  unfold same_shape, shape. induction 1 as [|x y a b [Hp Hl] H IH]; simpl; [done|].
  rewrite IH, <- Hp. destruct (param x); [done|]. by rewrite Hl.
Qed.

Lemma same_endpoint_accepts m m' path :
  same_endpoint m m' -> Compile.endpoint_accepts m path -> Compile.endpoint_accepts m' path.
Proof.
  intros (s1 & s2 & H1 & H2 & Hs) (segs & rest & Hsegs & -> & Ha). exists s2, rest.
  split; [done|]. split; [done|]. rewrite <- (same_shape_shape _ _ Hs). congruence.
Qed.

(** Every path the old version resolves, the new version resolves to a
    mapping with the same attributes. *)
Theorem upgrade_preserves_paths old next ids ids' co cn path cm :
  wf_interface old -> wf_interface next ->
  CheckMinorUpgrade (Some old) (Some next) = Ok () ->
  Compile.Compile (Some old) ids = Ok co -> Compile.Compile (Some next) ids' = Ok cn ->
  Match (Some (Compile.cTrie co)) path = Some cm ->
  exists cm', Match (Some (Compile.cTrie cn)) path = Some cm' /\ attributes cm' = attributes cm.
Proof.
  intros Hwo Hwn Hup Hco Hcn Hm.
  apply (check_upgrade_additive _ _ Hwo Hwn) in Hup as [_ _ _ _ _ _ Hadd].
  apply (proj1 (Compile.compile_match_contract _ _ _ Hwo Hco)) in Hm as (om & id & Hin & Hacc & _ & ->).
  destruct (Hadd om Hin) as (nm & Hnin & Hse & Hsem).
  destruct (Compile.compile_ids _ _ _ _ Hcn Hnin) as [id' Hid'].
  exists (Compile.compile_mapping id' nm). split.
  - apply (proj1 (Compile.compile_match_contract _ _ _ Hwn Hcn)). exists nm, id'.
    split; [done|]. split; [by eapply same_endpoint_accepts|done].
  - unfold attributes, Compile.compile_mapping, semantic in *. simpl. simplify_eq.
    by repeat match goal with H : _ nm = _ om |- _ => rewrite H; clear H end.
Qed.

Definition version (minor : Z) (endpoints : list gostring) : Interface :=
  MkInterface "org.astrate.Sensors"%go 1 minor Datastream OwnershipDevice AggregationIndividual [] []
    (map (fun e => Compile.datastream_mapping e 0) endpoints).

Lemma version_wf minor endpoints :
  buildInterface (document (version minor endpoints)) =
    Ok (version minor endpoints, document (version minor endpoints)) ->
  wf_interface (version minor endpoints).
Proof. apply buildInterface_sound. Qed.

Lemma minor_upgrade_iff_witness :
  additive (version 0 ["/%{a}/x"%go]) (version 3 ["/%{b}/x"%go; "/y"%go]).
Proof.
  apply (minor_upgrade_iff _ _ (version_wf 0 ["/%{a}/x"%go] ltac:(vm_compute; reflexivity))
    (version_wf 3 ["/%{b}/x"%go; "/y"%go] ltac:(vm_compute; reflexivity))).
  vm_compute. reflexivity.
Defined.

Lemma upgrade_preserves_paths_witness :
  exists cn cm',
    Compile.Compile (Some (version 3 ["/%{b}/x"%go; "/y"%go])) None = Ok cn /\
    Match (Some (Compile.cTrie cn)) "/4/x"%go = Some cm'.
Proof.
  destruct (Compile.Compile (Some (version 0 ["/%{a}/x"%go])) None) as [co|] eqn:Eo;
    [|vm_compute in Eo; discriminate Eo].
  destruct (Compile.Compile (Some (version 3 ["/%{b}/x"%go; "/y"%go])) None) as [cn|] eqn:En;
    [|vm_compute in En; discriminate En].
  destruct (Match (Some (Compile.cTrie co)) "/4/x"%go) as [cm|] eqn:Em;
    [|vm_compute in Eo; injection Eo as <-; vm_compute in Em; discriminate Em].
  destruct (upgrade_preserves_paths _ _ None None co cn "/4/x"%go cm
    (version_wf 0 ["/%{a}/x"%go] ltac:(vm_compute; reflexivity))
    (version_wf 3 ["/%{b}/x"%go; "/y"%go] ltac:(vm_compute; reflexivity))
    ltac:(vm_compute; reflexivity) Eo En Em) as (cm' & Hm & _).
  exists cn, cm'. split; [reflexivity|exact Hm].
Defined.

End Compat.
