(* ===== verification/Broker.v ===== *)
(** * Broker identities and access control
      ([src/internal/broker/identity.go], [aclhook.go])

    A device's certificate CN, its MQTT client ID and its base topic are the
    same string, "<realm>/<device_id>". [checkACL] decides every PUBLISH,
    SUBSCRIBE and delivery from that base. *)

From S2P Require Import Prelude GoStrings DeviceID SchemaTypes.

Module Identity.
Import DeviceID.

Definition maxRealmNameLen : nat := 48.

Inductive identity_error :=
| BadCN (cn : gostring)
| BadTopic (topic : gostring).

Record Identity := MkIdentity {
  Realm : gostring;
  DeviceID_ : ID;
}.

Definition CN (i : Identity) : gostring := Realm i ++ "/"%go ++ String (DeviceID_ i).
Definition BaseTopic (i : Identity) : gostring := CN i.

(** The loop of [validRealmName] from byte [i]. *)
Fixpoint realm_from (i : nat) (s : gostring) : bool :=
  match s with
  | [] => true
  | c :: s =>
      if between "a" "z" c then realm_from (S i) s
      else if between "0" "9" c then if (i =? 0)%nat then false else realm_from (S i) s
      else false
  end.
Definition validRealmName (s : gostring) : bool :=
  if (length s =? 0)%nat || (maxRealmNameLen <? length s)%nat then false else realm_from 0 s.

Definition ParseCN (cn : gostring) : result identity_error Identity :=
  let '(realm, dev, ok) := Strings.Cut cn "/" in
  if negb ok then Err (BadCN cn)
  else if negb (validRealmName realm) then Err (BadCN cn)
  else
    let? id := mapErr (fun _ => BadCN cn) (Parse dev) in
    Ok (MkIdentity realm id).

Definition SplitTopic (topic : gostring) : result identity_error (gostring * gostring * gostring) :=
  let '(realm, tl, ok) := Strings.Cut topic "/" in
  if negb ok || negb (validRealmName realm) then Err (BadTopic topic)
  else
    let '(device, rest, _) := Strings.Cut tl "/" in
    if negb (length device =? EncodedLen)%nat then Err (BadTopic topic)
    else Ok (realm, device, rest).

(** An identity the broker can hold. *)
Definition wf_identity (i : Identity) : Prop :=
  validRealmName (Realm i) = true /\ wf_id (DeviceID_ i).

(** ** Characters *)

Lemma realm_from_chars n s c :
  realm_from n s = true -> c ∈ s -> between "a" "z" c || between "0" "9" c = true.
Proof.
  revert n. induction s as [|x s IH]; intros n; simpl; [by intros _ ?%elem_of_nil|].
  destruct (between "a" "z" x) eqn:Ea.
  - intros H [ -> | Hin]%elem_of_cons; [by rewrite Ea|by eapply IH].
  - destruct (between "0" "9" x) eqn:Ed; [|done]. destruct (n =? 0)%nat; [done|].
    intros H [ -> | Hin]%elem_of_cons; [by rewrite Ea, Ed|by eapply IH].
Qed.

Lemma realm_no s c :
  between "a" "z" c || between "0" "9" c = false -> validRealmName s = true -> c ∉ s.
Proof.
  unfold validRealmName. destruct ((length s =? 0)%nat || _); [done|]. intros Hc H Hin.
  pose proof (realm_from_chars _ _ _ H Hin). congruence.
Qed.

Lemma realm_nonempty s : validRealmName s = true -> s <> [].
Proof. by destruct s. Qed.

Lemma String_no id c : c ∉ Base64.alphabet -> c ∉ String id.
Proof.
  intros Hc Hin. pose proof (Base64.encode_alphabet id) as HF. rewrite Forall_forall in HF.
  by apply Hc, HF.
Qed.

Lemma String_no_slash id : "/"%char ∉ String id.
Proof. apply String_no. by apply (bool_decide_unpack _). Qed.

Lemma String_length id : wf_id id -> length (String id) = EncodedLen.
Proof. apply Base64.length_encode16. Qed.

(** No MQTT wildcard occurs in a base topic. *)
Lemma CN_no_wildcard i c :
  wf_identity i -> c = "+"%char \/ c = "#"%char -> c ∉ CN i.
Proof.
  intros [Hr _] Hc. unfold CN. rewrite !not_elem_of_app. repeat split.
  - apply realm_no; [|done]. by destruct Hc as [-> | ->].
  - destruct Hc as [-> | ->]; set_solver.
  - apply String_no. destruct Hc as [-> | ->]; by apply (bool_decide_unpack _).
Qed.

(** ** Round trips *)

Lemma ParseCN_iff cn i : ParseCN cn = Ok i <-> wf_identity i /\ cn = CN i.
Proof.
  unfold ParseCN, wf_identity, CN. split.
  - destruct (Strings.Cut cn "/") as [[realm dev] ok] eqn:Ec.
    destruct ok; simpl; [|done]. apply Strings.Cut_spec in Ec.
    destruct (validRealmName realm) eqn:Er; simpl; [|done].
    intros (id & [Hw Hid]%mapErr_Ok%Parse_iff & [= <-])%bindR_Ok. simpl.
    split; [done|]. destruct Ec as [Hcn _]. by rewrite Hcn, Hid.
  - intros [[Hr Hw] ->]. simpl.
    rewrite Strings.Cut_app by (by apply realm_no). simpl. rewrite Hr. simpl.
    rewrite (proj2 (Parse_iff _ (DeviceID_ i))) by done. simpl. by destruct i.
Qed.

Lemma SplitTopic_spec i rest :
  wf_identity i ->
  SplitTopic (CN i) = Ok (Realm i, String (DeviceID_ i), []) /\
  SplitTopic (CN i ++ "/"%char :: rest) = Ok (Realm i, String (DeviceID_ i), rest).
Proof.
  intros [Hr Hw]. unfold SplitTopic, CN. rewrite <- !app_assoc. simpl.
  rewrite !Strings.Cut_app by (by apply realm_no). simpl. rewrite Hr. simpl.
  rewrite Strings.Cut_none, Strings.Cut_app by apply String_no_slash.
  by rewrite (String_length _ Hw).
Qed.

(** A CN parses exactly when it is the rendering of a valid realm name and a
    128-bit device ID, and it parses to them; splitting any topic of that
    device gives the same two segments and the rest verbatim. *)
Theorem identity_round_trip cn i :
  (ParseCN cn = Ok i <-> wf_identity i /\ cn = CN i) /\
  (wf_identity i -> forall rest,
     SplitTopic (CN i) = Ok (Realm i, String (DeviceID_ i), []) /\
     SplitTopic (CN i ++ "/"%char :: rest) = Ok (Realm i, String (DeviceID_ i), rest)).
Proof. split; [apply ParseCN_iff|]. intros Hw rest. by apply SplitTopic_spec. Qed.

End Identity.

Module ACL.
Import Schema Identity.

Definition maxTopicBytes : nat := 512.

(** The ownership of an introspected interface, if it is known. *)
Definition ownershipFn := gostring -> option Ownership.

Definition checkACL (base topic : gostring) (write : bool) (ownership : ownershipFn) : bool :=
  if bool_decide (topic = []) || (maxTopicBytes <? length topic)%nat then false
  else if write then
    if decide (topic = base) then true
    else
      match Strings.CutPrefix topic (base ++ "/"%go) with
      | None => false
      | Some rest =>
          if bool_decide (rest = "capabilities"%go) || bool_decide (rest = "control/emptyCache"%go)
             || bool_decide (rest = "control/producer/properties"%go)
          then true
          else
            let '(iface, path, found) := Strings.Cut rest "/" in
            if negb found || bool_decide (path = []) then false
            else bool_decide (ownership iface = Some OwnershipDevice)
      end
  else
    match Strings.CutPrefix topic (base ++ "/"%go) with
    | None => false
    | Some rest =>
        if Strings.ContainsAny topic "+#"%go then true
        else if decide (rest = "control/consumer/properties"%go) then true
        else
          let '(iface, _, _) := Strings.Cut rest "/" in
          bool_decide (ownership iface = Some OwnershipServer)
    end.

(** ** The decision, branch by branch *)

Definition publishable (ownership : ownershipFn) (rest : gostring) : Prop :=
  rest ∈ ["capabilities"%go; "control/emptyCache"%go; "control/producer/properties"%go] \/
  exists iface path, rest = iface ++ "/"%char :: path /\ "/"%char ∉ iface /\ path <> [] /\
    ownership iface = Some OwnershipDevice.

Definition deliverable (ownership : ownershipFn) (rest : gostring) : Prop :=
  rest = "control/consumer/properties"%go \/
  exists iface, ownership iface = Some OwnershipServer /\ "/"%char ∉ iface /\
    (rest = iface \/ exists path, rest = iface ++ "/"%char :: path).

Lemma publishable_spec ownership rest :
  (if bool_decide (rest = "capabilities"%go) || bool_decide (rest = "control/emptyCache"%go)
             || bool_decide (rest = "control/producer/properties"%go)
   then true
   else let '(iface, path, found) := Strings.Cut rest "/" in
        if negb found || bool_decide (path = []) then false
        else bool_decide (ownership iface = Some OwnershipDevice)) = true
  <-> publishable ownership rest.
Proof.
  unfold publishable. rewrite !elem_of_cons, elem_of_nil.
  destruct (_ || _ || bool_decide (rest = "control/producer/properties"%go)) eqn:E.
  - rewrite !orb_true_iff, !bool_decide_eq_true in E. split; [intros _; left; tauto|done].
  - bool_hyps. destruct (Strings.Cut rest "/") as [[iface path] found] eqn:Ec.
    apply Strings.Cut_spec in Ec. destruct found; simpl.
    + destruct Ec as [-> Hn]. destruct (bool_decide (path = [])) eqn:Ep; bool_hyps.
      * subst path. split; [done|]. intros [?|(i & p & Hr & Hi & Hp & _)]; [tauto|].
        exfalso. pose proof (Strings.Cut_app _ p _ Hi) as E1. rewrite <- Hr in E1.
        rewrite Strings.Cut_app in E1 by done. naive_solver.
      * rewrite bool_decide_eq_true. split; [intros ?; right; eauto 10|].
        intros [?|(i & p & Hr & Hi & Hp & Ho)]; [tauto|].
        pose proof (Strings.Cut_app _ p _ Hi) as E1. rewrite <- Hr in E1.
        rewrite Strings.Cut_app in E1 by done. naive_solver.
    + destruct Ec as (-> & -> & Hn). split; [done|]. intros [?|(i & p & Hr & _)]; [tauto|].
      subst iface. set_solver.
Qed.

Lemma deliverable_spec ownership rest :
  (if decide (rest = "control/consumer/properties"%go) then true
   else let '(iface, _, _) := Strings.Cut rest "/" in
        bool_decide (ownership iface = Some OwnershipServer)) = true
  <-> deliverable ownership rest.
Proof.
  unfold deliverable. case_decide as E; [split; [by left|done]|].
  destruct (Strings.Cut rest "/") as [[iface path] found] eqn:Ec.
  rewrite bool_decide_eq_true. split.
  - intros Ho. right. exists iface. split; [done|]. apply Strings.Cut_spec in Ec.
    destruct found; [destruct Ec as [-> ?]; eauto|destruct Ec as (-> & -> & ?); eauto].
  - intros [?|(i & Ho & Hi & [->|[p ->]])]; [done| |].
    + rewrite Strings.Cut_none in Ec by done. congruence.
    + rewrite Strings.Cut_app in Ec by done. congruence.
Qed.

Lemma checkACL_write base topic ownership :
  base <> [] ->
  checkACL base topic true ownership = true <->
  length topic <= maxTopicBytes /\
  (topic = base \/ exists rest, topic = base ++ "/"%char :: rest /\ publishable ownership rest).
Proof.
  intros Hb. unfold checkACL. destruct (_ || _) eqn:E.
  - split; [done|]. intros [Hl H]. exfalso. apply orb_true_iff in E as [E|E]; bool_hyps; [|lia].
    destruct H as [->|(rest & -> & _)]; [done|]. by destruct base.
  - bool_hyps. case_decide as Ht; [split; [auto|done]|].
    destruct (Strings.CutPrefix topic (base ++ "/"%go)) as [rest|] eqn:Ec.
    + apply Strings.CutPrefix_spec in Ec as ->. rewrite publishable_spec.
      rewrite <- app_assoc in *. simpl in *. split; [intros; split; [done|eauto]|].
      intros [_ [?|(r & Hr & Hp)]]; [done|]. by simplify_list_eq.
    + split; [done|]. intros [_ [?|(r & -> & Hp)]]; [done|].
      assert (Strings.CutPrefix (base ++ "/"%char :: r) (base ++ "/"%go) = Some r) as Hx; [|congruence].
      apply Strings.CutPrefix_spec. by rewrite <- app_assoc.
Qed.

Lemma checkACL_read base topic ownership :
  checkACL base topic false ownership = true <->
  length topic <= maxTopicBytes /\
  exists rest, topic = base ++ "/"%char :: rest /\
    ("+"%char ∈ topic \/ "#"%char ∈ topic \/ deliverable ownership rest).
Proof.
  unfold checkACL. destruct (_ || _) eqn:E.
  - split; [done|]. intros (Hl & rest & Hr & _). exfalso.
    apply orb_true_iff in E as [E|E]; bool_hyps; [|lia]. subst topic. by destruct base.
  - bool_hyps. destruct (Strings.CutPrefix topic (base ++ "/"%go)) as [rest|] eqn:Ec.
    + apply Strings.CutPrefix_spec in Ec. rewrite <- app_assoc in Ec. simpl in Ec.
      destruct (Strings.ContainsAny topic "+#"%go) eqn:Ew.
      * apply Strings.ContainsAny_spec in Ew as (c & Hc & Hin).
        split; [|done]. intros _. split; [done|]. exists rest. split; [done|].
        apply elem_of_cons in Hin as [->|[->|?%elem_of_nil]%elem_of_cons]; tauto.
      * rewrite deliverable_spec. split; [intros; split; [done|]; exists rest; tauto|].
        intros (_ & r & Hr & Hx).
        assert (forall c, c ∈ "+#"%go -> c ∉ topic) as Hno.
        { intros c Hc Hin. assert (Strings.ContainsAny topic "+#"%go = true); [|congruence].
          apply Strings.ContainsAny_spec. eauto. }
        destruct Hx as [Hx|[Hx|Hx]]; [by apply Hno in Hx; [|set_solver]..|].
        subst topic. by simplify_list_eq.
    + split; [done|]. intros (_ & r & -> & _).
      assert (Strings.CutPrefix (base ++ "/"%char :: r) (base ++ "/"%go) = Some r) as Hx; [|congruence].
      apply Strings.CutPrefix_spec. by rewrite <- app_assoc.
Qed.

(** ** Confinement to the device's own subtree *)

(** MQTT topic-filter matching on levels: '+' is any one level, a final '#'
    any number of levels, the parent included. *)
Fixpoint filter_matches (f t : list gostring) {struct f} : bool :=
  match f with
  | [] => match t with [] => true | _ => false end
  | x :: f' =>
      if bool_decide (x = "#"%go) && bool_decide (f' = []) then true
      else match t with
           | [] => false
           | y :: t' => (bool_decide (x = "+"%go) || bool_decide (x = y)) && filter_matches f' t'
           end
  end.
Definition levels (topic : gostring) : list gostring := Strings.Split topic "/".

(** [topic] is the device's base topic or below it. *)
Definition own_subtree (i : Identity) (topic : gostring) : Prop :=
  topic = BaseTopic i \/ exists rest, topic = BaseTopic i ++ "/"%char :: rest.

Lemma filter_matches_literal x f t :
  "+"%char ∉ x -> "#"%char ∉ x -> filter_matches (x :: f) t = true ->
  exists t', t = x :: t' /\ filter_matches f t' = true.
Proof.
  intros Hp Hh. simpl.
  rewrite (bool_decide_eq_false_2 (x = "#"%go)) by (intros ->; apply Hh; left).
  rewrite (bool_decide_eq_false_2 (x = "+"%go)) by (intros ->; apply Hp; left).
  simpl. destruct t as [|y t]; [done|]. intros H. bool_hyps. subst y. eauto.
Qed.

Lemma levels_base i rest :
  wf_identity i ->
  levels (BaseTopic i ++ "/"%char :: rest) = Realm i :: DeviceID.String (DeviceID_ i) :: levels rest.
Proof.
  intros [Hr _]. unfold levels, BaseTopic, CN. rewrite <- !app_assoc. simpl.
  rewrite Strings.Split_app by (by apply realm_no). f_equal.
  apply Strings.Split_app, String_no_slash.
Qed.

Lemma levels_base_only i :
  wf_identity i -> levels (BaseTopic i) = [Realm i; DeviceID.String (DeviceID_ i)].
Proof.
  intros [Hr _]. unfold levels, BaseTopic, CN. simpl.
  rewrite Strings.Split_app by (by apply realm_no). f_equal.
  apply Strings.Split_none, String_no_slash.
Qed.

Lemma levels_own i t tl :
  levels t = Realm i :: DeviceID.String (DeviceID_ i) :: tl -> own_subtree i t.
Proof.
  intros H. unfold own_subtree, BaseTopic, CN. rewrite <- (Strings.Join_Split t "/").
  unfold levels in H. rewrite H. destruct tl as [|x tl]; [by left|]. right.
  exists (Strings.Join (x :: tl) "/"). rewrite !Strings.Join_cons by done.
  rewrite <- !app_assoc. done.
Qed.

Lemma filter_own i rest t :
  wf_identity i ->
  filter_matches (Realm i :: DeviceID.String (DeviceID_ i) :: rest) (levels t) = true -> own_subtree i t.
Proof.
  intros Hw H. pose proof (CN_no_wildcard i "+" Hw) as Hp. pose proof (CN_no_wildcard i "#" Hw) as Hh.
  unfold CN in *. rewrite !not_elem_of_app in *.
  apply filter_matches_literal in H as (t1 & Ht & H); [|tauto..].
  apply filter_matches_literal in H as (t2 & -> & _); [|tauto..]. by apply levels_own in Ht.
Qed.

(** What a device may publish or subscribe to is its own base topic or below
    it, whatever its introspection says; and a filter it may subscribe with
    matches no topic outside that subtree. *)
Theorem acl_confines_device i topic write ownership :
  wf_identity i -> checkACL (BaseTopic i) topic write ownership = true ->
  own_subtree i topic /\
  (forall t, filter_matches (levels topic) (levels t) = true -> own_subtree i t).
Proof.
  intros Hw H. assert (own_subtree i topic) as Ho.
  { destruct write.
    - apply checkACL_write in H as (_ & [->|(rest & -> & _)]); [by left|right; eauto|].
      unfold BaseTopic, CN. by destruct Hw as [?%realm_nonempty _], (Realm i).
    - apply checkACL_read in H as (_ & rest & -> & _). right. eauto. }
  split; [done|]. intros t. destruct Ho as [->|[rest ->]].
  - rewrite levels_base_only by done. by apply filter_own.
  - rewrite levels_base by done. by apply filter_own.
Qed.

(** The publish and delivery decisions are exactly the access matrix: a write
    is allowed on the base topic, on the three control topics and on a
    non-empty path of an introspected device-owned interface; a read on any
    wildcard filter of the subtree, on the consumer-properties topic and under
    an introspected server-owned interface. *)
Theorem acl_matrix_exact i topic ownership :
  wf_identity i ->
  (checkACL (BaseTopic i) topic true ownership = true <->
   length topic <= maxTopicBytes /\
   (topic = BaseTopic i \/
    exists rest, topic = BaseTopic i ++ "/"%char :: rest /\ publishable ownership rest)) /\
  (checkACL (BaseTopic i) topic false ownership = true <->
   length topic <= maxTopicBytes /\
   exists rest, topic = BaseTopic i ++ "/"%char :: rest /\
     ("+"%char ∈ topic \/ "#"%char ∈ topic \/ deliverable ownership rest)).
Proof.
  intros [Hr _]. split; [apply checkACL_write|apply checkACL_read].
  apply realm_nonempty in Hr. unfold BaseTopic, CN. by destruct (Realm i).
Qed.

(** *** A concrete device *)
Definition sample_identity : Identity := MkIdentity "acme"%go (repeat "a"%char 16).
Definition sample_ownership : ownershipFn := fun iface =>
  if decide (iface = "org.acme.Sensors"%go) then Some OwnershipDevice else None.
Definition sample_topic : gostring :=
  BaseTopic sample_identity ++ "/org.acme.Sensors/1/value"%go.

Lemma acl_confines_device_witness :
  own_subtree sample_identity sample_topic /\
  checkACL (BaseTopic sample_identity) sample_topic true sample_ownership = true.
Proof.
  assert (wf_identity sample_identity) as Hw by (split; vm_compute; reflexivity).
  assert (checkACL (BaseTopic sample_identity) sample_topic true sample_ownership = true) as H
    by (vm_compute; reflexivity).
  split; [|exact H]. exact (proj1 (acl_confines_device _ _ _ _ Hw H)).
Defined.

Lemma acl_matrix_exact_witness :
  checkACL (BaseTopic sample_identity) (BaseTopic sample_identity) true (fun _ => None) = true.
Proof.
  apply (acl_matrix_exact sample_identity); [split; vm_compute; reflexivity|].
  split; [vm_compute; lia|]. left. reflexivity.
Defined.

End ACL.
