(* ===== verification/Topics.v ===== *)
(** * Inbound topics, introspection and control payloads
      ([src/internal/engine/topics.go], [introspection.go], [control.go],
       [capabilities.go])

    The pure parsing layer of the engine: how a device topic is taken apart,
    how an introspection string becomes a version map, how a control frame is
    inflated within its bounds. *)

From S2P Require Import Prelude GoStrings Regex DeviceID SchemaTypes Endpoints InterfaceParse Broker.

Module Topics.
Import DeviceID Identity.

Inductive topicKind := kindIntrospection | kindCapabilities | kindControl | kindData.

#[global] Instance topicKind_eq_dec : EqDecision topicKind.
Proof. solve_decision. Defined.

Definition controlPrefix : gostring := "control/"%go.
Definition deviceIDStringLen : nat := 22.

(** [splitDeviceTopic]; the guards are tested in order, so no index is out of
    range. *)
Definition splitDeviceTopic (topic realm : gostring) (id : ID) : option gostring :=
  let root := length realm + 1 + deviceIDStringLen in
  if (length topic <? root)%nat
     || negb (bool_decide (take (length realm) topic = realm))
     || negb (bool_decide (topic !! length realm = Some "/"%char))
     || negb (bool_decide (slice topic (length realm + 1) root = String id))
  then None
  else if (length topic =? root)%nat then Some []
  else if negb (bool_decide (topic !! root = Some "/"%char)) then None
  else Some (drop (root + 1) topic).

Definition classify (rest : gostring) : topicKind * gostring :=
  if decide (rest = []) then (kindIntrospection, [])
  else if decide (rest = "capabilities"%go) then (kindCapabilities, [])
  else if decide (rest = "control"%go) then (kindControl, [])
  else if Strings.HasPrefix rest controlPrefix then (kindControl, drop (length controlPrefix) rest)
  else (kindData, []).

(** [matchInterface] over the declared versions; [end_] shrinks to a '/'
    boundary on every iteration. *)
Fixpoint match_interface_loop {V} (fuel : nat) (rest : gostring) (end_ : nat)
    (declares : gostring -> option V) : option (gostring * gostring * V) :=
  match fuel with
  | O => None
  | S fuel =>
      match declares (take end_ rest) with
      | Some v => Some (take end_ rest, drop end_ rest, v)
      | None =>
          match Strings.LastIndexByte (take end_ rest) "/" with
          | None => None
          | Some i => match_interface_loop fuel rest i declares
          end
      end
  end.
Definition matchInterface {V} (rest : gostring) (declares : gostring -> option V)
    : option (gostring * gostring * V) :=
  match_interface_loop (S (length rest)) rest (length rest) declares.

(** [deviceTopic] of control.go. *)
Definition deviceTopic (realm : gostring) (id : ID) (rest : gostring) : gostring :=
  realm ++ "/"%go ++ String id ++ "/"%go ++ rest.

(** ** Taking a device topic apart *)

Lemma device_root_guards topic realm id :
  length (String id) = deviceIDStringLen ->
  let root := length realm + 1 + deviceIDStringLen in
  (length topic <? root)%nat
     || negb (bool_decide (take (length realm) topic = realm))
     || negb (bool_decide (topic !! length realm = Some "/"%char))
     || negb (bool_decide (slice topic (length realm + 1) root = String id)) = false
  <-> exists t, topic = realm ++ "/"%char :: String id ++ t.
Proof.
  intros Hlen root. unfold root, slice.
  replace (length realm + 1 + deviceIDStringLen - (length realm + 1)) with deviceIDStringLen by lia.
  replace (length realm + 1) with (S (length realm)) by lia. split.
  - intros E. bool_hyps. exists (drop deviceIDStringLen (drop (S (length realm)) topic)).
    match goal with Hs : take _ (drop _ _) = String id |- _ => rewrite <- Hs end.
    rewrite take_drop. rewrite <- (drop_S topic "/"%char) by done.
    match goal with Hr : take _ _ = realm |- _ => rewrite <- Hr at 1 end. by rewrite take_drop.
  - intros [t ->]. rewrite !orb_false_iff, !negb_false_iff, !bool_decide_eq_true, Nat.ltb_ge.
    split; [split; [split|]|].
    + rewrite !length_app. simpl. rewrite length_app. lia.
    + apply take_app_length.
    + by rewrite lookup_app_r, Nat.sub_diag by lia.
    + rewrite drop_app_ge by lia. replace (S (length realm) - length realm) with 1 by lia. simpl.
      rewrite drop_0, <- Hlen. apply take_app_length.
Qed.

Lemma splitDeviceTopic_spec topic realm id rest :
  wf_id id ->
  splitDeviceTopic topic realm id = Some rest <->
  (topic = realm ++ "/"%char :: String id /\ rest = []) \/
  topic = realm ++ "/"%char :: String id ++ "/"%char :: rest.
Proof.
  intros Hw. pose proof (String_length id Hw : length (String id) = deviceIDStringLen) as Hlen.
  unfold splitDeviceTopic. cbv zeta. destruct (_ || _ || _ || _) eqn:E.
  - split; [done|]. intros H. exfalso.
    assert (exists t, topic = realm ++ "/"%char :: String id ++ t) as Ht.
    { destruct H as [[-> _]| ->]; [exists []; by rewrite app_nil_r|eauto]. }
    apply (device_root_guards _ _ _ Hlen) in Ht. congruence.
  - apply (device_root_guards _ _ _ Hlen) in E as [t ->].
    assert (length (realm ++ "/"%char :: String id) = length realm + 1 + deviceIDStringLen) as Hroot.
    { rewrite length_app. simpl. lia. }
    rewrite <- Hroot.
    assert (realm ++ "/"%char :: String id ++ t = (realm ++ "/"%char :: String id) ++ t) as ->.
    { by rewrite <- app_assoc. }
    assert (forall r, realm ++ "/"%char :: String id ++ "/"%char :: r
                      = (realm ++ "/"%char :: String id) ++ "/"%char :: r) as Hassoc.
    { intros r. by rewrite <- app_assoc. }
    rewrite Hassoc. generalize (realm ++ "/"%char :: String id). intros P.
    destruct t as [|c t].
    + rewrite app_nil_r, Nat.eqb_refl. split; [naive_solver|].
      intros [[_ ->]|H]; [done|]. exfalso. apply (f_equal length) in H.
      rewrite length_app in H. simpl in H. lia.
    + rewrite length_app. simpl. rewrite (proj2 (Nat.eqb_neq _ _)) by lia.
      rewrite lookup_app_r, Nat.sub_diag by lia. simpl.
      rewrite drop_app_ge by lia. replace (length P + 1 - length P) with 1 by lia. simpl.
      rewrite drop_0. split.
      * destruct (bool_decide _) eqn:Ec; simpl; [|done]. bool_hyps. intros [= <-]. right. congruence.
      * intros [[H _]|H].
        { exfalso. apply (f_equal length) in H. rewrite length_app in H. simpl in H. lia. }
        apply app_inv_head in H. injection H as -> ->. by rewrite bool_decide_eq_true_2.
Qed.

(** ** Finding the interface *)

(** Position [k] of [rest] ends a run of whole segments. *)
Definition boundary (rest : gostring) (k : nat) : Prop :=
  k = length rest \/ rest !! k = Some "/"%char.

(** [k] is the last boundary up to [end_] whose prefix is declared. *)
Definition best_prefix {V} (rest : gostring) (end_ : nat) (declares : gostring -> option V)
    (k : nat) (v : V) : Prop :=
  k <= end_ /\ boundary rest k /\ declares (take k rest) = Some v /\
  forall k', boundary rest k' -> k < k' <= end_ -> declares (take k' rest) = None.

Lemma last_slash_before rest end_ i :
  end_ <= length rest -> Strings.LastIndexByte (take end_ rest) "/" = Some i ->
  i < end_ /\ rest !! i = Some "/"%char /\ forall k, i < k < end_ -> rest !! k <> Some "/"%char.
Proof.
  intros He (a & b & Hab & Hn & Hi)%Strings.LastIndexByte_Some.
  assert (length (take end_ rest) = end_) as Hl by (rewrite length_take; lia).
  assert (forall k, k < end_ -> rest !! k = (a ++ "/"%char :: b) !! k) as Hk.
  { intros k Hk. rewrite <- Hab. by rewrite lookup_take_lt. }
  rewrite Hab, length_app in Hl. simpl in Hl. split; [lia|]. split.
  - rewrite Hk by lia. rewrite lookup_app_r by lia. by rewrite Hi, Nat.sub_diag.
  - intros k Hik. rewrite Hk by lia. rewrite lookup_app_r by lia.
    destruct (k - length a) as [|j] eqn:Ej; [lia|]. simpl. intros Hj.
    apply Hn. by eapply list_elem_of_lookup_2.
Qed.

Lemma no_slash_before rest end_ :
  end_ <= length rest -> Strings.LastIndexByte (take end_ rest) "/" = None ->
  forall k, k < end_ -> rest !! k <> Some "/"%char.
Proof.
  intros He Hn%Strings.LastIndexByte_None k Hk Hl. apply Hn.
  apply (list_elem_of_lookup_2 _ k). by rewrite lookup_take_lt.
Qed.

Lemma match_interface_loop_spec {V} fuel rest end_ (declares : gostring -> option V) n p v :
  end_ < fuel -> end_ <= length rest -> boundary rest end_ ->
  match_interface_loop fuel rest end_ declares = Some (n, p, v) <->
  exists k, best_prefix rest end_ declares k v /\ n = take k rest /\ p = drop k rest.
Proof.
  revert end_. induction fuel as [|fuel IH]; intros end_ Hf He Hb; [lia|]. simpl.
  destruct (declares (take end_ rest)) as [w|] eqn:Ed.
  - split.
    + intros [= <- <- <-]. exists end_. repeat split; [lia|done|done|]. intros k' _ ?. lia.
    + intros (k & (Hk & Hbk & Hv & Hbest) & -> & ->). destruct (decide (k = end_)) as [->|Hne].
      * congruence.
      * exfalso. rewrite (Hbest end_ Hb) in Ed by lia. done.
  - destruct (Strings.LastIndexByte (take end_ rest) "/") as [i|] eqn:El.
    + destruct (last_slash_before _ _ _ He El) as (Hi & Hs & Hgap).
      rewrite IH by (first [lia | by right]). split; intros (k & (Hk & Hbk & Hv & Hbest) & Hn & Hp);
        exists k; (split; [|done]).
      * repeat split; [lia|done|done|]. intros k' Hb' Hkk'.
        destruct (decide (k' <= i)); [by apply Hbest; [|lia]|].
        destruct (decide (k' = end_)) as [->|]; [done|].
        exfalso. destruct Hb' as [->|Hb']; [lia|]. by apply (Hgap k'); [lia|].
      * assert (k <= i).
        { destruct (decide (k <= i)); [done|]. exfalso.
          destruct (decide (k = end_)) as [->|]; [congruence|].
          destruct Hbk as [->|Hbk]; [lia|]. by apply (Hgap k); [lia|]. }
        repeat split; [done|done|done|]. intros k' Hb' Hkk'. apply Hbest; [done|lia].
    + pose proof (no_slash_before _ _ He El) as Hno. split; [done|].
      intros (k & (Hk & Hbk & Hv & _) & _). destruct (decide (k = end_)) as [->|]; [congruence|].
      exfalso. destruct Hbk as [->|Hbk]; [lia|]. by apply (Hno k); [lia|].
Qed.

(** A data topic resolves to the longest declared run of whole segments; when
    declared names hold no '/', that is the first segment. *)
Theorem match_interface_longest {V} rest (declares : gostring -> option V) :
  (forall n p v,
     matchInterface rest declares = Some (n, p, v) <->
     exists k, best_prefix rest (length rest) declares k v /\ n = take k rest /\ p = drop k rest) /\
  ((forall n v, declares n = Some v -> "/"%char ∉ n) ->
   matchInterface rest declares =
   (let '(n, _, _) := Strings.Cut rest "/" in
    v ← declares n; Some (n, drop (length n) rest, v))).
Proof.
  assert (forall n p v,
     matchInterface rest declares = Some (n, p, v) <->
     exists k, best_prefix rest (length rest) declares k v /\ n = take k rest /\ p = drop k rest) as Hspec.
  { intros n p v. apply match_interface_loop_spec; [lia|lia|by left]. }
  split; [done|]. intros Hno.
  destruct (Strings.Cut rest "/") as [[n p] f] eqn:Ec. apply Strings.Cut_spec in Ec.
  assert (take (length n) rest = n /\ "/"%char ∉ n /\ boundary rest (length n)) as (Ht & Hnn & Hb).
  { unfold boundary. destruct f.
    - destruct Ec as [-> Hn]. split; [apply take_app_length|]. split; [done|]. right.
      by rewrite lookup_app_r, Nat.sub_diag by lia.
    - destruct Ec as (-> & -> & Hn). rewrite firstn_all. auto. }
  assert (forall k w, boundary rest k -> declares (take k rest) = Some w -> k <= length rest -> k = length n) as Huniq.
  { intros k w Hbk Hd Hk. apply Hno in Hd.
    assert (forall j, j < length n -> rest !! j <> Some "/"%char) as Hbefore.
    { intros j Hj Hl. apply Hnn. rewrite <- Ht. apply (list_elem_of_lookup_2 _ j).
      by rewrite lookup_take_lt. }
    destruct (decide (k < length n)) as [Hlt|].
    - destruct Hbk as [->|Hbk]; [|by apply Hbefore in Hbk].
      pose proof (length_take rest (length n)) as Hlen. rewrite Ht in Hlen. lia.
    - destruct (decide (k = length n)) as [|Hne]; [done|]. exfalso.
      destruct Hb as [Hb|Hb]; [lia|]. apply Hd. apply (list_elem_of_lookup_2 _ (length n)).
      by rewrite lookup_take_lt by lia. }
  assert (length n <= length rest) as Hle.
  { pose proof (length_take rest (length n)) as Hlen. rewrite Ht in Hlen. lia. }
  destruct (declares n) as [v|] eqn:Ed; simpl.
  - apply Hspec. exists (length n). split; [|by rewrite Ht].
    split; [done|]. split; [done|]. split; [by rewrite Ht|]. intros k' Hbk' Hk'.
    destruct (declares (take k' rest)) eqn:E; [|done]. apply Huniq in E; [lia|done|lia].
  - destruct (matchInterface rest declares) as [[[n' p'] v']|] eqn:E; [|done]. exfalso.
    destruct (proj1 (Hspec n' p' v') eq_refl) as (k & (Hk & Hbk & Hv & _) & _).
    assert (k = length n) as -> by eauto. rewrite Ht in Hv. congruence.
Qed.

(** ** What the broker lets through is what the engine can route *)

Lemma classify_data rest :
  fst (classify rest) = kindData ->
  rest <> [] /\ rest <> "capabilities"%go /\ rest <> "control"%go /\
  forall r, rest <> "control/"%go ++ r.
Proof.
  unfold classify. repeat case_decide; try done.
  destruct (Strings.HasPrefix rest controlPrefix) eqn:E; [done|]. intros _.
  repeat split; try done. intros r Hr. assert (Strings.HasPrefix rest controlPrefix = true); [|congruence].
  apply Strings.HasPrefix_spec. eauto.
Qed.

Lemma classify_control iface path :
  "/"%char ∉ iface ->
  classify (iface ++ "/"%char :: path) =
  if decide (iface = "control"%go) then (kindControl, path) else (kindData, []).
Proof.
  intros Hn. unfold classify.
  rewrite decide_False by (by destruct iface).
  rewrite decide_False by (intros H; apply (f_equal (fun s => Strings.IndexByte s "/")) in H;
    assert (Strings.IndexByte (iface ++ "/"%char :: path) "/" = Some (length iface)) as E by
      (apply Strings.IndexByte_Some; eauto); rewrite E in H; discriminate H).
  rewrite decide_False by (intros H; apply (f_equal (fun s => Strings.IndexByte s "/")) in H;
    assert (Strings.IndexByte (iface ++ "/"%char :: path) "/" = Some (length iface)) as E by
      (apply Strings.IndexByte_Some; eauto); rewrite E in H; discriminate H).
  case_decide as Hc.
  - subst iface. rewrite (proj2 (Strings.HasPrefix_spec _ _)) by (by exists path). done.
  - destruct (Strings.HasPrefix _ _) eqn:E; [|done]. exfalso.
    apply Strings.HasPrefix_spec in E as [r E].
    change (controlPrefix ++ r) with ("control"%go ++ "/"%char :: r) in E.
    apply (f_equal (fun s => Strings.Cut s "/")) in E.
    rewrite !Strings.Cut_app in E by (first [done | set_solver]). congruence.
Qed.

(** A publish the broker allows carries the device's root, and the engine
    classifies it as the broker meant it: introspection on the base topic,
    the capabilities and control topics, or data of a device-owned interface.
    Only an interface named "control" is taken for the control channel. *)
Theorem acl_write_routes i topic ownership :
  wf_identity i -> ACL.checkACL (BaseTopic i) topic true ownership = true ->
  exists rest, splitDeviceTopic topic (Realm i) (DeviceID_ i) = Some rest /\
  match classify rest with
  | (kindIntrospection, _) => topic = BaseTopic i
  | (kindCapabilities, _) => rest = "capabilities"%go
  | (kindControl, sub) =>
      sub = "emptyCache"%go \/ sub = "producer/properties"%go \/
      ownership "control"%go = Some Schema.OwnershipDevice
  | (kindData, _) =>
      exists iface path, rest = iface ++ "/"%char :: path /\ "/"%char ∉ iface /\ path <> [] /\
        ownership iface = Some Schema.OwnershipDevice
  end.
Proof.
  intros Hw H. apply ACL.checkACL_write in H as (_ & [->|(rest & -> & Hp)]).
  - exists []. split; [|done]. apply splitDeviceTopic_spec; [apply Hw|]. by left.
  - exists rest. split.
    + apply splitDeviceTopic_spec; [apply Hw|]. right. unfold BaseTopic, CN.
      by rewrite <- !app_assoc.
    + destruct Hp as [Hp|(iface & path & -> & Hn & Hne & Ho)].
      * rewrite !elem_of_cons, elem_of_nil in Hp.
        destruct Hp as [->|[->|[->|[]]]]; vm_compute; auto.
      * rewrite classify_control by done. case_decide as Hc; [subst; auto|eauto 10].
  - destruct Hw as [Hr _]. apply realm_nonempty in Hr. unfold BaseTopic, CN. by destruct (Realm i).
Qed.

Lemma acl_write_routes_witness :
  exists rest,
    splitDeviceTopic ACL.sample_topic (Realm ACL.sample_identity) (DeviceID_ ACL.sample_identity) = Some rest /\
    fst (classify rest) = kindData.
Proof.
  destruct (acl_write_routes ACL.sample_identity ACL.sample_topic ACL.sample_ownership) as (rest & Hs & _).
  - split; vm_compute; reflexivity.
  - vm_compute. reflexivity.
  - exists rest. split; [exact Hs|]. vm_compute in Hs. injection Hs as <-. vm_compute. reflexivity.
Defined.

End Topics.

Module Introspection.

(** [store.InterfaceVersion]. *)
Record InterfaceVersion := MkVersion {
  vMajor : Z;
  vMinor : Z;
}.

#[global] Instance InterfaceVersion_eq_dec : EqDecision InterfaceVersion.
Proof. solve_decision. Defined.

Definition maxIntrospectionBytes : nat := 65536.

Inductive introspection_error :=
| MalformedEntry (entry : gostring)
| NameMetacharacters (name : gostring)
| InvalidMajor (entry : gostring)
| InvalidMinor (entry : gostring).

(** A non-negative [strconv.Atoi]. *)
Definition parse_version (s : gostring) (e : introspection_error) : result introspection_error Z :=
  match Strconv.Atoi s with
  | Ok v => if (v <? 0)%Z then Err e else Ok v
  | Err _ => Err e
  end.

Definition parse_entry (entry : gostring)
    : result introspection_error (gostring * InterfaceVersion) :=
  let '(name, versions, ok) := Strings.Cut entry ":" in
  if negb ok || bool_decide (name = []) then Err (MalformedEntry entry)
  else if Strings.ContainsAny name "/+#"%go then Err (NameMetacharacters name)
  else
    let '(majorStr, minorStr, ok) := Strings.Cut versions ":" in
    if negb ok then Err (MalformedEntry entry)
    else
      let? major := parse_version majorStr (InvalidMajor entry) in
      let? minor := parse_version minorStr (InvalidMinor entry) in
      Ok (name, MkVersion major minor).

Fixpoint parse_entries (entries : list gostring) (intro : gmap gostring InterfaceVersion)
    : result introspection_error (gmap gostring InterfaceVersion) :=
  match entries with
  | [] => Ok intro
  | entry :: entries =>
      let? (name, v) := parse_entry entry in
      parse_entries entries (<[name := v]> intro)
  end.

Definition parseIntrospection (s : gostring)
    : result introspection_error (gmap gostring InterfaceVersion) :=
  if decide (s = []) then Ok ∅ else parse_entries (Strings.Split s ";") ∅.

(** The text a device publishes for a set of versions. *)
Definition render_entry (e : gostring * InterfaceVersion) : gostring :=
  e.1 ++ ":"%char :: Strconv.Itoa (vMajor e.2) ++ ":"%char :: Strconv.Itoa (vMinor e.2).
Definition render (l : list (gostring * InterfaceVersion)) : gostring :=
  Strings.Join (map render_entry l) ";".

Definition wf_version (v : InterfaceVersion) : Prop :=
  (0 <= vMajor v <= int64_max)%Z /\ (0 <= vMinor v <= int64_max)%Z.
(** An interface name an introspection may declare. *)
Definition wf_name (name : gostring) : Prop :=
  name <> [] /\ forall c, c ∈ name -> c ∉ ["/"%char; "+"%char; "#"%char; ":"%char].

Lemma parse_version_Ok s e v : parse_version s e = Ok v -> (0 <= v <= int64_max)%Z.
Proof.
  unfold parse_version. destruct (Strconv.Atoi s) as [w|] eqn:E; [|done].
  destruct (w <? 0)%Z eqn:Ew; [done|]. intros [= <-]. bool_hyps.
  apply Strconv.ParseInt_range in E. unfold in_int64 in E. lia.
Qed.

Lemma parse_version_Itoa v e : (0 <= v <= int64_max)%Z -> parse_version (Strconv.Itoa v) e = Ok v.
Proof.
  intros Hv. unfold parse_version, Strconv.Atoi. rewrite Strconv.ParseInt_Itoa.
  - by rewrite (proj2 (Z.ltb_ge _ _)) by lia.
  - unfold in_int64, int64_min, int64_max in *. lia.
Qed.

Lemma parse_entry_Ok entry name v :
  parse_entry entry = Ok (name, v) -> wf_name name /\ wf_version v.
Proof.
  unfold parse_entry. destruct (Strings.Cut entry ":") as [[n vs] ok] eqn:Ec.
  apply Strings.Cut_spec in Ec. destruct ok; simpl; [|done]. destruct Ec as [_ Hn].
  destruct (bool_decide (n = [])) eqn:Ene; [done|]. bool_hyps.
  destruct (Strings.ContainsAny n "/+#"%go) eqn:Em; [done|].
  destruct (Strings.Cut vs ":") as [[maj min] ok]. destruct ok; simpl; [|done].
  intros (ma & Hma & H)%bindR_Ok. apply bindR_Ok in H as (mi & Hmi & [= <- <-]).
  apply parse_version_Ok in Hma, Hmi. split; [|done]. split; [done|].
  intros c Hc Hin.
  assert (Strings.ContainsAny n "/+#"%go = false) as Hf by done.
  apply not_true_iff_false in Hf. apply Hf. apply Strings.ContainsAny_spec.
  rewrite !elem_of_cons, elem_of_nil in Hin.
  destruct Hin as [->|[->|[->|[->|[]]]]]; [..|done]; eexists; (split; [exact Hc|]); set_solver.
Qed.

Lemma Itoa_no_colon v c : (0 <= v)%Z -> Strconv.digit_val c = None -> c ∉ Strconv.Itoa v.
Proof. intros Hv Hc Hin. apply Strconv.Itoa_chars in Hin as [? ?]; [congruence|done]. Qed.

Lemma parse_entry_render name v :
  wf_name name -> wf_version v -> parse_entry (render_entry (name, v)) = Ok (name, v).
Proof.
  intros [Hne Hc] [Hma Hmi]. unfold parse_entry, render_entry. simpl.
  rewrite Strings.Cut_app by (intros Hin; apply (Hc _ Hin); set_solver). simpl.
  rewrite bool_decide_eq_false_2 by done.
  destruct (Strings.ContainsAny name "/+#"%go) eqn:Em.
  { apply Strings.ContainsAny_spec in Em as (c & Hin & Hbad). exfalso. apply (Hc c Hin). set_solver. }
  rewrite Strings.Cut_app by (by apply Itoa_no_colon; [lia|]). simpl.
  rewrite !parse_version_Itoa by done. simpl. by destruct v.
Qed.

Lemma parse_entries_render l acc :
  Forall (fun e => wf_name e.1 /\ wf_version e.2) l ->
  parse_entries (map render_entry l) acc = Ok (foldl (fun m e => <[e.1 := e.2]> m) acc l).
Proof.
  intros H. revert acc. induction H as [|[name v] l [Hn Hv] _ IH]; intros acc; [done|].
  cbn [map parse_entries]. rewrite parse_entry_render by done. simpl. apply IH.
Qed.

Lemma parse_entries_sound entries acc intro :
  map_Forall (fun n v => wf_name n /\ wf_version v) acc ->
  parse_entries entries acc = Ok intro ->
  map_Forall (fun n v => wf_name n /\ wf_version v) intro.
Proof.
  revert acc. induction entries as [|e entries IH]; intros acc Hacc; simpl; [by intros [= <-]|].
  intros ([name v] & Hp & H)%bindR_Ok. apply parse_entry_Ok in Hp.
  eapply IH; [|exact H]. apply map_Forall_insert_2; done.
Qed.

Lemma render_entry_no_semicolon e :
  ";"%char ∉ e.1 -> wf_version e.2 -> ";"%char ∉ render_entry e.
Proof.
  intros Hn [Hma Hmi]. unfold render_entry.
  rewrite not_elem_of_app, not_elem_of_cons, not_elem_of_app, not_elem_of_cons.
  repeat split; try done; apply Itoa_no_colon; (lia || done).
Qed.

(** Inserting the entries of a map one by one rebuilds it. *)
Lemma foldl_insert_lookup (l : list (gostring * InterfaceVersion))
    (acc : gmap gostring InterfaceVersion) k :
  NoDup l.*1 ->
  foldl (fun m e => <[e.1 := e.2]> m) acc l !! k =
  match (list_to_map l : gmap gostring InterfaceVersion) !! k with
  | Some v => Some v
  | None => acc !! k
  end.
Proof.
  revert acc. induction l as [|[n v] l IH]; intros acc Hnd; simpl; [by rewrite lookup_empty|].
  apply NoDup_cons in Hnd as [Hn Hnd]. rewrite IH by done.
  destruct (decide (k = n)) as [->|Hne].
  - rewrite (not_elem_of_list_to_map_1 l n) by done.
    by rewrite !lookup_insert, !decide_True.
  - by rewrite !lookup_insert_ne by done.
Qed.

Lemma foldl_insert_map_to_list (m : gmap gostring InterfaceVersion) :
  foldl (fun (acc : gmap gostring InterfaceVersion) e => <[e.1 := e.2]> acc) ∅ (map_to_list m) = m.
Proof.
  apply map_eq. intros k. rewrite foldl_insert_lookup by apply NoDup_fst_map_to_list.
  rewrite list_to_map_to_list, lookup_empty. by destruct (m !! k).
Qed.

(** Whatever text a device sends, an accepted introspection only holds names
    without topic metacharacters and versions in range; and publishing the
    list of a version map (names without ';') parses back to that map. *)
Theorem introspection_round_trip :
  (forall s intro, parseIntrospection s = Ok intro ->
     map_Forall (fun n v => wf_name n /\ wf_version v) intro) /\
  (forall intro : gmap gostring InterfaceVersion,
     map_Forall (fun n v => wf_name n /\ ";"%char ∉ n /\ wf_version v) intro ->
     parseIntrospection (render (map_to_list intro)) = Ok intro).
Proof.
  split.
  - intros s intro. unfold parseIntrospection. case_decide; [intros [= <-]; apply map_Forall_empty|].
    apply parse_entries_sound, map_Forall_empty.
  - intros intro Hwf.
    assert (Forall (fun e : gostring * InterfaceVersion => wf_name e.1 /\ ";"%char ∉ e.1 /\ wf_version e.2)
      (map_to_list intro)) as HF.
    { apply Forall_forall. intros [n v] Hin%elem_of_map_to_list. by apply Hwf in Hin. }
    destruct (decide (intro = ∅)) as [->|Hne].
    { by rewrite map_to_list_empty. }
    assert (map_to_list intro <> []) as Hl by (by intros ?%map_to_list_empty_iff).
    unfold parseIntrospection. rewrite decide_False.
    2: { unfold render. destruct (map_to_list intro) as [|[n v] l]; [done|].
         apply Forall_cons in HF as [[[Hn _] _] _]. simpl in Hn. destruct l; simpl; by destruct n. }
    unfold render. rewrite Strings.Split_Join.
    + rewrite parse_entries_render.
      * f_equal. apply foldl_insert_map_to_list.
      * eapply Forall_impl; [exact HF|]. simpl. tauto.
    + by destruct (map_to_list intro).
    + apply Forall_fmap. eapply Forall_impl; [exact HF|]. simpl. intros e (_ & ? & ?).
      by apply render_entry_no_semicolon.
Qed.

End Introspection.
