(* ===== verification/Float64.v ===== *)
(** * IEEE 754 doubles as bit patterns

    A Go [float64] is kept as its 64-bit pattern, so [math.Float64bits] is the
    identity and the coercions of [src/pkg/payload/value.go] are written on
    the sign, exponent and fraction fields: classification, integrality
    ([f == math.Trunc(f)]), conversion to an integer and the rounding
    conversion from one. *)

From S2P Require Import Prelude.

Module Float64.
Local Open Scope Z_scope.

Abbreviation float64 := Z.

Definition wf (f : float64) : Prop := 0 <= f < 2 ^ 64.
Definition sign (f : float64) : bool := 2 ^ 63 <=? f.
Definition exponent (f : float64) : Z := f / 2 ^ 52 mod 2 ^ 11.
Definition fraction (f : float64) : Z := f mod 2 ^ 52.

Definition IsNaN (f : float64) : bool := (exponent f =? 2047) && negb (fraction f =? 0).
Definition IsInf (f : float64) : bool := (exponent f =? 2047) && (fraction f =? 0).
Definition finite (f : float64) : bool := negb (exponent f =? 2047).

(** A finite double is [±mantissa * 2^shift]. *)
Definition mantissa (f : float64) : Z :=
  if exponent f =? 0 then fraction f else 2 ^ 52 + fraction f.
Definition shift (f : float64) : Z :=
  if exponent f =? 0 then -1074 else exponent f - 1075.

(** [f == math.Trunc(f)] on a finite double. *)
Definition integral (f : float64) : bool :=
  if 0 <=? shift f then true else mantissa f mod 2 ^ (- shift f) =? 0.

(** [math.Trunc(f)] of a finite double, as an integer. *)
Definition trunc (f : float64) : Z :=
  let a := if 0 <=? shift f then mantissa f * 2 ^ shift f else mantissa f / 2 ^ (- shift f) in
  if sign f then - a else a.

(** Assembling a normal double from its fields. *)
Definition pack (s : bool) (e m : Z) : float64 :=
  (if s then 2 ^ 63 else 0) + e * 2 ^ 52 + m.

(** [float64(i)], rounding to nearest, ties to even: the 53 leading bits of
    the magnitude and the biased exponent. *)
Definition of_int (i : Z) : float64 :=
  let a := Z.abs i in
  if a =? 0 then 0
  else
    let l := Z.log2 a in
    let '(q, l) :=
      if l <=? 52 then (a * 2 ^ (52 - l), l)
      else
        let d := l - 52 in
        let q := a / 2 ^ d in
        let r := a mod 2 ^ d in
        let half := 2 ^ (d - 1) in
        let q := if (half <? r) || ((half =? r) && Z.odd q) then q + 1 else q in
        if q =? 2 ^ 53 then (2 ^ 52, l + 1) else (q, l) in
    pack (i <? 0) (l + 1023) (q - 2 ^ 52).

(** ** Fields of an assembled double *)

Lemma pack_fields s e m :
  0 <= e < 2 ^ 11 -> 0 <= m < 2 ^ 52 ->
  sign (pack s e m) = s /\ exponent (pack s e m) = e /\ fraction (pack s e m) = m /\ wf (pack s e m).
Proof.
  intros He Hm. unfold sign, exponent, fraction, wf, pack.
  assert (forall x, x = e * 2 ^ 52 + m -> (x / 2 ^ 52 = e /\ x mod 2 ^ 52 = m)) as Hdm.
  { intros x ->. split.
    - rewrite Z.div_add_l by lia. rewrite (Z.div_small m) by lia. lia.
    - rewrite Z.add_comm, Z.mod_add by lia. apply Z.mod_small. lia. }
  destruct s.
  - assert (2 ^ 63 + e * 2 ^ 52 + m = (2 ^ 11 + e) * 2 ^ 52 + m) as -> by lia.
    rewrite Z.div_add_l by lia. rewrite (Z.div_small m) by lia.
    rewrite (Z.add_comm (_ * 2 ^ 52)), Z.mod_add by lia. rewrite (Z.mod_small m) by lia.
    replace (2 ^ 11 + e + 0) with (e + 1 * 2 ^ 11) by lia. rewrite Z.mod_add by lia.
    rewrite Z.mod_small by lia. split; [apply Z.leb_le; lia|]. split; [done|]. split; [done|lia].
  - destruct (Hdm (0 + e * 2 ^ 52 + m) ltac:(lia)) as [-> ->].
    rewrite Z.mod_small by lia. split; [apply Z.leb_gt; lia|]. split; [done|]. split; [done|lia].
Qed.

(** A normal double whose value [q * 2^(l-52)] is an integer. *)
Lemma pack_normal s l q :
  0 <= l <= 1000 -> 2 ^ 52 <= q < 2 ^ 53 ->
  let f := pack s (l + 1023) (q - 2 ^ 52) in
  finite f = true /\ sign f = s /\ mantissa f = q /\ shift f = l - 52 /\ wf f.
Proof.
  intros Hl Hq f. destruct (pack_fields s (l + 1023) (q - 2 ^ 52)) as (Hs & He & Hm & Hw); [lia|lia|].
  unfold finite, mantissa, shift. fold f in Hs, He, Hm, Hw. rewrite He, Hm.
  rewrite (proj2 (Z.eqb_neq (l + 1023) 2047)), (proj2 (Z.eqb_neq (l + 1023) 0)) by lia.
  repeat split; try done; try lia; apply Hw.
Qed.

(** The leading-bits decomposition. *)
Lemma log2_bounds a : 0 < a -> 2 ^ Z.log2 a <= a < 2 * 2 ^ Z.log2 a.
Proof. intros Ha. pose proof (Z.log2_spec a Ha). rewrite Z.pow_succ_r in * by apply Z.log2_nonneg. lia. Qed.

(** ** [float64(i)] of a 64-bit integer *)

(** [i] is a multiple of a power of two with a 53-bit quotient. *)
Definition representable (i : Z) : Prop :=
  exists m k, 0 <= k /\ Z.abs m < 2 ^ 53 /\ i = m * 2 ^ k.

(** What a normal double with an integer value truncates to. *)
Lemma pack_trunc (neg : bool) l q v :
  0 <= l <= 1000 -> 2 ^ 52 <= q < 2 ^ 53 -> 0 <= v ->
  (if 52 <=? l then v = q * 2 ^ (l - 52) else q = v * 2 ^ (52 - l)) ->
  let f := pack neg (l + 1023) (q - 2 ^ 52) in
  finite f = true /\ wf f /\ integral f = true /\ trunc f = if neg then - v else v.
Proof.
  intros Hl Hq Hv Hval f. destruct (pack_normal neg l q Hl Hq) as (Hf & Hs & Hm & Hsh & Hw).
  fold f in Hf, Hs, Hm, Hsh, Hw. unfold integral, trunc. rewrite Hs, Hm, Hsh.
  destruct (52 <=? l) eqn:E; bool_hyps.
  - rewrite (proj2 (Z.leb_le 0 (l - 52))) by lia. rewrite <- Hval. done.
  - rewrite (proj2 (Z.leb_gt 0 (l - 52))) by lia. replace (- (l - 52)) with (52 - l) by lia.
    rewrite Hval, Z.mod_mul, Z.div_mul by (apply Z.pow_nonzero; lia). done.
Qed.

(** The rounded 53-bit quotient of a magnitude above 2^53. *)
Definition round_quotient (a d : Z) : Z :=
  let q := a / 2 ^ d in
  let r := a mod 2 ^ d in
  if (2 ^ (d - 1) <? r) || ((2 ^ (d - 1) =? r) && Z.odd q) then q + 1 else q.

Lemma round_quotient_spec a d :
  0 < d -> 2 ^ 52 <= a / 2 ^ d < 2 ^ 53 ->
  2 ^ 52 <= round_quotient a d <= 2 ^ 53 /\
  (round_quotient a d * 2 ^ d = a <-> a mod 2 ^ d = 0).
Proof.
  intros Hd Hq. unfold round_quotient.
  assert (0 < 2 ^ d) as Hp by (apply Z.pow_pos_nonneg; lia).
  assert (0 < 2 ^ (d - 1)) as Hh by (apply Z.pow_pos_nonneg; lia).
  pose proof (Z.div_mod a (2 ^ d) ltac:(lia)) as Hdm.
  pose proof (Z.mod_pos_bound a (2 ^ d) Hp) as Hr.
  destruct ((2 ^ (d - 1) <? a mod 2 ^ d) || _) eqn:E.
  - assert (a mod 2 ^ d <> 0).
    { apply orb_true_iff in E as [E|E]; bool_hyps; lia. }
    split; [lia|]. split; [nia|lia].
  - split; [lia|]. split; intros; nia.
Qed.

Lemma representable_divides i l d :
  2 ^ l <= Z.abs i -> 0 <= l -> d = l - 52 -> 0 <= d -> representable i -> Z.abs i mod 2 ^ d = 0.
Proof.
  intros Hl Hl0 Hd Hd0 (m & k & Hk & Hm & ->).
  rewrite Z.abs_mul, (Z.abs_eq (2 ^ k)) in * by (apply Z.pow_nonneg; lia).
  assert (d <= k) as Hdk.
  { destruct (Z.le_gt_cases d k) as [|Hgt]; [done|]. exfalso.
    assert (2 ^ l = 2 ^ 53 * 2 ^ (l - 53)) as E1.
    { rewrite <- Z.pow_add_r by lia. f_equal. lia. }
    assert (2 ^ k <= 2 ^ (l - 53)) by (apply Z.pow_le_mono_r; lia).
    assert (0 < 2 ^ k) by (apply Z.pow_pos_nonneg; lia). nia. }
  replace k with ((k - d) + d) by lia. rewrite Z.pow_add_r by lia.
  rewrite Z.mul_assoc. apply Z.mod_mul. apply Z.pow_nonzero; lia.
Qed.

Lemma of_int_large a l :
  l = Z.log2 a -> 52 < l -> 2 ^ 53 <= a ->
  forall neg i, Z.abs i = a -> neg = (i <? 0) ->
  of_int i =
    (let q := round_quotient a (l - 52) in
     if q =? 2 ^ 53 then pack neg (l + 1 + 1023) (2 ^ 52 - 2 ^ 52)
     else pack neg (l + 1023) (q - 2 ^ 52)).
Proof.
  intros -> Hl Ha neg i Hi ->. unfold of_int, round_quotient. rewrite Hi.
  rewrite (proj2 (Z.eqb_neq a 0)) by lia. rewrite (proj2 (Z.leb_gt (Z.log2 a) 52)) by lia.
  cbv zeta. destruct (_ =? 2 ^ 53); done.
Qed.

(** What [of_int] computes: a finite integral double; its truncation is the
    integer itself exactly when the integer is representable. *)
Lemma of_int_spec i :
  Z.abs i <= 2 ^ 63 ->
  finite (of_int i) = true /\ wf (of_int i) /\ integral (of_int i) = true /\
  (trunc (of_int i) = i <-> representable i).
Proof.
  intros Hi. destruct (Z.eq_dec i 0) as [->|Hne].
  { split; [done|]. split; [done|]. split; [done|]. split; [|done]. intros _. by exists 0, 0. }
  assert (0 < Z.abs i) as Ha by lia. pose proof (log2_bounds (Z.abs i) Ha) as Hlog.
  pose proof (Z.log2_nonneg (Z.abs i)) as Hl0.
  assert (Z.log2 (Z.abs i) <= 63) as Hl63.
  { pose proof (Z.log2_le_mono _ _ Hi) as Hx. rewrite Z.log2_pow2 in Hx by lia. lia. }
  assert (forall neg v, neg = (i <? 0) -> v = Z.abs i -> (if neg then - v else v) = i) as Hsign.
  { intros neg v -> ->. destruct (i <? 0) eqn:E; bool_hyps; lia. }
  destruct (Z.leb_spec (Z.log2 (Z.abs i)) 52) as [Hle|Hgt].
  - assert (of_int i = pack (i <? 0) (Z.log2 (Z.abs i) + 1023)
      (Z.abs i * 2 ^ (52 - Z.log2 (Z.abs i)) - 2 ^ 52)) as ->.
    { unfold of_int. rewrite (proj2 (Z.eqb_neq (Z.abs i) 0)) by lia.
      by rewrite (proj2 (Z.leb_le _ 52)) by lia. }
    assert (2 ^ Z.log2 (Z.abs i) * 2 ^ (52 - Z.log2 (Z.abs i)) = 2 ^ 52) as Hp.
    { rewrite <- Z.pow_add_r by lia. f_equal. lia. }
    assert (0 < 2 ^ (52 - Z.log2 (Z.abs i))) by (apply Z.pow_pos_nonneg; lia).
    destruct (pack_trunc (i <? 0) (Z.log2 (Z.abs i))
      (Z.abs i * 2 ^ (52 - Z.log2 (Z.abs i))) (Z.abs i)) as (Hf & Hw & Hint & Ht); [lia|nia|lia| |].
    { destruct (52 <=? Z.log2 (Z.abs i)) eqn:E; [|done]. bool_hyps.
      replace (Z.log2 (Z.abs i)) with 52 by lia. lia. }
    repeat split; [done|apply Hw|apply Hw|done| |].
    + intros _. exists i, 0. split; [lia|]. split; [|lia].
      assert (2 * 2 ^ Z.log2 (Z.abs i) <= 2 ^ 53).
      { rewrite <- Z.pow_succ_r by lia. apply Z.pow_le_mono_r; lia. } lia.
    + intros _. rewrite Ht. by apply Hsign.
  - set (l := Z.log2 (Z.abs i)) in *.
    assert (2 ^ l = 2 ^ 52 * 2 ^ (l - 52)) as Hp.
    { rewrite <- Z.pow_add_r by lia. f_equal. lia. }
    assert (0 < 2 ^ (l - 52)) as Hp0 by (apply Z.pow_pos_nonneg; lia).
    assert (2 ^ 52 <= Z.abs i / 2 ^ (l - 52) < 2 ^ 53) as Hq.
    { split; [apply Z.div_le_lower_bound; lia|apply Z.div_lt_upper_bound; lia]. }
    destruct (round_quotient_spec (Z.abs i) (l - 52) ltac:(lia) Hq) as [Hr Hexact].
    assert (2 ^ 53 <= 2 ^ l) as H53 by (apply Z.pow_le_mono_r; lia).
    rewrite (of_int_large (Z.abs i) l eq_refl ltac:(lia) ltac:(lia) (i <? 0) i eq_refl eq_refl).
    cbv zeta. set (q := round_quotient (Z.abs i) (l - 52)) in *.
    assert (exists f, (if q =? 2 ^ 53 then pack (i <? 0) (l + 1 + 1023) (2 ^ 52 - 2 ^ 52)
                       else pack (i <? 0) (l + 1023) (q - 2 ^ 52)) = f /\
      finite f = true /\ wf f /\ integral f = true /\
      trunc f = if i <? 0 then - (q * 2 ^ (l - 52)) else q * 2 ^ (l - 52)) as (f & -> & Hf & Hw & Hint & Ht).
    { eexists. split; [reflexivity|]. destruct (q =? 2 ^ 53) eqn:Eq; bool_hyps.
      - apply (pack_trunc (i <? 0) (l + 1) (2 ^ 52)); [lia|lia|nia|].
        rewrite (proj2 (Z.leb_le 52 (l + 1))) by lia. rewrite Eq.
        replace (l + 1 - 52) with (Z.succ (l - 52)) by lia. rewrite Z.pow_succ_r by lia. lia.
      - apply pack_trunc; [lia|lia|nia|]. by rewrite (proj2 (Z.leb_le 52 l)) by lia. }
    repeat split; [done|apply Hw|apply Hw|done| |].
    + intros E. rewrite Ht in E. exists (if i <? 0 then - q else q), (l - 52).
      assert (q * 2 ^ (l - 52) = Z.abs i) as E' by (destruct (i <? 0) eqn:En; bool_hyps; lia).
      assert (q <> 2 ^ 53).
      { intros Hq53. rewrite Hq53 in E'.
        assert (2 ^ 53 * 2 ^ (l - 52) = 2 * 2 ^ l) by lia. lia. }
      split; [lia|]. split; [destruct (i <? 0); lia|]. destruct (i <? 0) eqn:En; bool_hyps; lia.
    + intros Hrep. rewrite Ht. apply Hsign; [done|]. apply Hexact.
      by apply (representable_divides i l); [lia|lia|lia|lia|].
Qed.

(** Every integer up to 2^53 in magnitude is representable. *)
Lemma representable_small i : Z.abs i <= 2 ^ 53 -> representable i.
Proof.
  intros Hi. destruct (Z.eq_dec (Z.abs i) (2 ^ 53)) as [E|E].
  - exists (if i <? 0 then - 2 ^ 52 else 2 ^ 52), 1. split; [lia|].
    destruct (i <? 0) eqn:En; bool_hyps; split; lia.
  - exists i, 0. split; [lia|]. split; lia.
Qed.

(** ** Comparison *)

(** The bit pattern as a sign-magnitude integer: on non-NaN doubles it orders
    as the values do, and the two zeros coincide. *)
Definition key (f : float64) : Z := if sign f then - (f - 2 ^ 63) else f.

Definition comparable (a b : float64) : bool := negb (IsNaN a) && negb (IsNaN b).
Definition eqb (a b : float64) : bool := comparable a b && (key a =? key b).
Definition ltb (a b : float64) : bool := comparable a b && (key a <? key b).
Definition leb (a b : float64) : bool := comparable a b && (key a <=? key b).

Lemma finite_not_NaN f : finite f = true -> IsNaN f = false.
Proof. unfold finite, IsNaN. destruct (exponent f =? 2047); done. Qed.

Lemma comparable_finite a b : finite a = true -> finite b = true -> comparable a b = true.
Proof. intros Ha Hb. unfold comparable. by rewrite !finite_not_NaN. Qed.

(** The magnitude key of a small integer. *)
Definition small_key (a : Z) : Z :=
  if a =? 0 then 0 else (Z.log2 a + 1023) * 2 ^ 52 + (a * 2 ^ (53 - Z.log2 a) / 2 - 2 ^ 52).

Lemma of_int_small i : Z.abs i <= 2 ^ 53 ->
  of_int i = (if i <? 0 then 2 ^ 63 else 0) + small_key (Z.abs i).
Proof.
  intros Hi. unfold of_int, small_key. destruct (Z.abs i =? 0) eqn:E0; bool_hyps.
  { rewrite (proj2 (Z.ltb_ge i 0)) by lia. done. }
  destruct (Z.leb_spec (Z.log2 (Z.abs i)) 52) as [Hl|Hl].
  - unfold pack. replace (53 - Z.log2 (Z.abs i)) with (Z.succ (52 - Z.log2 (Z.abs i))) by lia.
    rewrite Z.pow_succ_r by lia.
    rewrite (Z.mul_comm 2), Z.mul_assoc, Z.div_mul by lia. destruct (i <? 0); lia.
  - assert (Z.abs i = 2 ^ 53) as ->.
    { destruct (Z.eq_dec (Z.abs i) (2 ^ 53)); [done|].
      assert (Z.log2 (Z.abs i) < 53) by (apply Z.log2_lt_pow2; lia). lia. }
    destruct (i <? 0); reflexivity.
Qed.

Lemma small_key_bounds a : 0 < a <= 2 ^ 53 ->
  (Z.log2 a + 1023) * 2 ^ 52 <= small_key a < (Z.log2 a + 1024) * 2 ^ 52.
Proof.
  intros Ha. unfold small_key. rewrite (proj2 (Z.eqb_neq a 0)) by lia.
  pose proof (log2_bounds a ltac:(lia)) as Hl. pose proof (Z.log2_nonneg a) as H0.
  assert (Z.log2 a <= 53).
  { pose proof (Z.log2_le_mono a (2 ^ 53) ltac:(lia)) as H. by rewrite Z.log2_pow2 in H by lia. }
  assert (2 ^ Z.log2 a * 2 ^ (53 - Z.log2 a) = 2 ^ 53) as Hp.
  { rewrite <- Z.pow_add_r by lia. f_equal. lia. }
  assert (0 < 2 ^ (53 - Z.log2 a)) by (apply Z.pow_pos_nonneg; lia).
  assert (2 ^ 52 <= a * 2 ^ (53 - Z.log2 a) / 2 < 2 ^ 53).
  { split; [apply Z.div_le_lower_bound|apply Z.div_lt_upper_bound]; nia. }
  lia.
Qed.

Lemma small_key_pos a : 0 < a <= 2 ^ 53 -> 0 < small_key a.
Proof.
  intros Ha. pose proof (small_key_bounds a Ha). pose proof (Z.log2_nonneg a). lia.
Qed.

Lemma small_key_lt a b : 0 <= a -> a < b -> b <= 2 ^ 53 -> small_key a < small_key b.
Proof.
  intros Ha Hab Hb. pose proof (small_key_bounds b ltac:(lia)) as Kb.
  pose proof (Z.log2_nonneg b) as Hlb.
  destruct (Z.eq_dec a 0) as [-> |Hne]; [unfold small_key at 1; cbn; lia|].
  pose proof (small_key_bounds a ltac:(lia)) as Ka.
  pose proof (Z.log2_le_mono a b ltac:(lia)) as Hle.
  destruct (Z.eq_dec (Z.log2 a) (Z.log2 b)) as [E|E]; [|nia].
  unfold small_key. rewrite (proj2 (Z.eqb_neq a 0)), (proj2 (Z.eqb_neq b 0)), E by lia.
  destruct (Z.le_gt_cases (Z.log2 b) 52) as [Hl|Hl].
  - replace (53 - Z.log2 b) with (Z.succ (52 - Z.log2 b)) by lia. rewrite Z.pow_succ_r by lia.
    rewrite !(Z.mul_comm 2), !Z.mul_assoc, !Z.div_mul by lia.
    assert (0 < 2 ^ (52 - Z.log2 b)) by (apply Z.pow_pos_nonneg; lia). nia.
  - pose proof (log2_bounds a ltac:(lia)) as H.
    assert (2 ^ 53 <= 2 ^ Z.log2 a) by (apply Z.pow_le_mono_r; lia). lia.
Qed.

Lemma key_of_int i : Z.abs i <= 2 ^ 53 ->
  key (of_int i) = if i <? 0 then - small_key (Z.abs i) else small_key (Z.abs i).
Proof.
  intros Hi. rewrite of_int_small by done.
  assert (0 <= small_key (Z.abs i) < 2 ^ 63) as Hk.
  { destruct (Z.eq_dec (Z.abs i) 0) as [-> |]; [done|].
    pose proof (small_key_bounds (Z.abs i) ltac:(lia)). pose proof (Z.log2_nonneg (Z.abs i)).
    assert (Z.log2 (Z.abs i) <= 53); [|lia].
    pose proof (Z.log2_le_mono (Z.abs i) (2 ^ 53) ltac:(lia)) as H1. by rewrite Z.log2_pow2 in H1 by lia. }
  unfold key, sign. destruct (i <? 0) eqn:E.
  - rewrite (proj2 (Z.leb_le _ _)) by lia. lia.
  - rewrite (proj2 (Z.leb_gt _ _)) by lia. lia.
Qed.

Lemma key_of_int_lt i j : Z.abs i <= 2 ^ 53 -> Z.abs j <= 2 ^ 53 -> i < j ->
  key (of_int i) < key (of_int j).
Proof.
  intros Hi Hj Hlt. rewrite !key_of_int by done.
  destruct (Z.ltb_spec i 0), (Z.ltb_spec j 0); [|..|].
  - pose proof (small_key_lt (Z.abs j) (Z.abs i)). lia.
  - pose proof (small_key_pos (Z.abs i)).
    destruct (Z.eq_dec j 0) as [-> |]; [change (small_key (Z.abs 0)) with 0; lia|].
    pose proof (small_key_pos (Z.abs j)). lia.
  - lia.
  - pose proof (small_key_lt (Z.abs i) (Z.abs j)). lia.
Qed.

(** Up to 2^53 the widened comparison is the integer comparison. *)
Lemma of_int_compare i j : Z.abs i <= 2 ^ 53 -> Z.abs j <= 2 ^ 53 ->
  eqb (of_int i) (of_int j) = (i =? j) /\ ltb (of_int i) (of_int j) = (i <? j) /\
  leb (of_int i) (of_int j) = (i <=? j).
Proof.
  intros Hi Hj. unfold eqb, ltb, leb.
  rewrite comparable_finite by (apply of_int_spec; lia). cbn [andb].
  destruct (Z.lt_trichotomy i j) as [H|[-> |H]].
  - pose proof (key_of_int_lt i j Hi Hj H). lia.
  - lia.
  - pose proof (key_of_int_lt j i Hj Hi H). lia.
Qed.

End Float64.
