(* ===== verification/PayloadValue.v ===== *)
(** * Payload values and coercions ([src/pkg/payload/value.go], [sniff.go])

    The closed set of decoded values, the format sniffing and the coercion
    table every decoder shares. A rejection is kept as its [RejectReason];
    the human-readable detail is not modelled. *)

From S2P Require Import Prelude GoStrings SchemaTypes Float64.

Module Payload.
Import Schema.

(** ** Formats *)

Inductive Format := FormatInvalid | FormatEmpty | FormatBSON | FormatJSON.

#[global] Instance Format_eq_dec : EqDecision Format.
Proof. solve_decision. Defined.

Definition Format_String (f : Format) : gostring :=
  match f with
  | FormatInvalid => "invalid"%go
  | FormatEmpty => "empty"%go
  | FormatBSON => "bson"%go
  | FormatJSON => "json"%go
  end.

(** Little-endian integers on the wire: [binary.LittleEndian.Uint32] of the
    first four bytes, [AppendUint32] and [AppendUint64]. *)
Fixpoint le_bytes (n : nat) (z : Z) : gostring :=
  match n with
  | O => []
  | S n => chr (z mod 256) :: le_bytes n (z / 256)
  end.
Fixpoint le_value (bs : gostring) : Z :=
  match bs with
  | [] => 0
  | b :: bs => (byte_val b + 256 * le_value bs)%Z
  end.

Definition MaxInt32 : Z := 2147483647.

(** The scan for the first byte that is not white space. *)
Fixpoint sniff_json (p : gostring) : Format :=
  match p with
  | [] => FormatInvalid
  | c :: p =>
      if (byte_val c =? 32)%Z || (byte_val c =? 9)%Z || (byte_val c =? 13)%Z || (byte_val c =? 10)%Z
      then sniff_json p
      else if decide (c = "{"%char) then FormatJSON
      else FormatInvalid
  end.

Definition DetectFormat (p : gostring) : Format :=
  if (length p =? 0)%nat then FormatEmpty
  else if (5 <=? length p)%nat && (Z.of_nat (length p) <=? MaxInt32)%Z
          && (le_value (take 4 p) =? Z.of_nat (length p))%Z
          && bool_decide (last p = Some (chr 0))
  then FormatBSON
  else sniff_json p.

(** ** Values *)

(** Scalars: [float64], [int32], [int64], [bool], [string], [[]byte] and
    [time.Time] (nanoseconds since the Unix epoch). *)
Inductive Scalar :=
| SDouble (f : Z)
| SInteger (i : Z)
| SLong (i : Z)
| SBool (b : bool)
| SString (s : gostring)
| SBlob (b : gostring)
| STime (ns : Z).

(** [[]T] of each scalar type. *)
Inductive Slice :=
| ADouble (xs : list Z)
| AInteger (xs : list Z)
| ALong (xs : list Z)
| ABool (xs : list bool)
| AString (xs : list gostring)
| ABlob (xs : list gostring)
| ATime (xs : list Z).

Inductive Value :=
| VScalar (s : Scalar)
| VSlice (a : Slice)
| VObject (o : gmap gostring Value).

Definition slice_elems (a : Slice) : list Scalar :=
  match a with
  | ADouble xs => map SDouble xs
  | AInteger xs => map SInteger xs
  | ALong xs => map SLong xs
  | ABool xs => map SBool xs
  | AString xs => map SString xs
  | ABlob xs => map SBlob xs
  | ATime xs => map STime xs
  end.

Definition DefaultMaxSize : nat := 65536.
Definition MaxStringLen : nat := 65536.
Definition MaxArrayLen : nat := 1024.

Definition minDateTimeMillis : Z := -62135596800000.
Definition maxDateTimeMillis : Z := 253402300799999.
Definition millis (ms : Z) : Z := ms * 1000000.
Definition MinDateTime : Z := millis minDateTimeMillis.
Definition MaxDateTime : Z := millis maxDateTimeMillis.

(** ** Rejections *)

Inductive RejectReason :=
| ReasonTooLarge | ReasonUnknownFormat | ReasonMalformed | ReasonNoValue | ReasonBadTimestamp
| ReasonTypeMismatch | ReasonValueTooLarge | ReasonBadObject | ReasonUnsetNotAllowed
| ReasonMissingRequired.

#[global] Instance RejectReason_eq_dec : EqDecision RejectReason.
Proof. solve_decision. Defined.

Definition RejectReason_String (r : RejectReason) : gostring :=
  match r with
  | ReasonTooLarge => "too_large"%go
  | ReasonUnknownFormat => "unknown_format"%go
  | ReasonMalformed => "malformed"%go
  | ReasonNoValue => "no_value"%go
  | ReasonBadTimestamp => "bad_timestamp"%go
  | ReasonTypeMismatch => "type_mismatch"%go
  | ReasonValueTooLarge => "value_too_large"%go
  | ReasonBadObject => "bad_object"%go
  | ReasonUnsetNotAllowed => "unset_not_allowed"%go
  | ReasonMissingRequired => "missing_required"%go
  end.

(** An error of the package: a payload rejection, a caller bug, or a panic
    (a failed type assertion). *)
Inductive payload_error :=
| Reject (r : RejectReason)
| CallerBug
| AssertPanic.

#[global] Instance payload_error_eq_dec : EqDecision payload_error.
Proof. solve_decision. Defined.

Definition ReasonOf (e : payload_error) : option RejectReason :=
  match e with
  | Reject r => Some r
  | _ => None
  end.

(** ** The coercion table *)

Definition checkDouble (f : Z) : result payload_error Z :=
  if Float64.IsNaN f || Float64.IsInf f then Err (Reject ReasonTypeMismatch) else Ok f.

(** [f < -maxInt64Float || f >= maxInt64Float || int64(f) != i], on the double
    of an int64. *)
Definition doubleFromInt64 (i : Z) : result payload_error Z :=
  let f := Float64.of_int i in
  if (Float64.trunc f <? - 2 ^ 63)%Z || (2 ^ 63 <=? Float64.trunc f)%Z
     || negb (Float64.trunc f =? i)%Z
  then Err (Reject ReasonTypeMismatch)
  else Ok f.

Definition int32FromInt64 (i : Z) : result payload_error Z :=
  if (i <? int32_min)%Z || (int32_max <? i)%Z then Err (Reject ReasonTypeMismatch) else Ok i.

(** [f != math.Trunc(f)]: true of a NaN, false of an infinity, which the
    range test then refuses. *)
Definition not_integral (f : Z) : bool :=
  if Float64.IsNaN f then true else if Float64.IsInf f then false else negb (Float64.integral f).
(** [f < lo || f > hi] for an integral [f]. *)
Definition out_of_range (f lo hi : Z) : bool :=
  if Float64.IsInf f then true else (Float64.trunc f <? lo)%Z || (hi <? Float64.trunc f)%Z.

Definition int32FromFloat64 (f : Z) : result payload_error Z :=
  if not_integral f || out_of_range f int32_min int32_max then Err (Reject ReasonTypeMismatch)
  else Ok (Float64.trunc f).

Definition int64FromFloat64 (f : Z) : result payload_error Z :=
  if not_integral f || out_of_range f int64_min int64_max then Err (Reject ReasonTypeMismatch)
  else Ok (Float64.trunc f).

(** [utf8.ValidString]. *)
Definition in_range (lo hi : Z) (c : ascii) : bool :=
  (lo <=? byte_val c)%Z && (byte_val c <=? hi)%Z.
Definition cont : ascii -> bool := in_range 128 191.
Fixpoint ValidString (s : gostring) : bool :=
  match s with
  | [] => true
  | c :: s' =>
      if in_range 0 127 c then ValidString s'
      else match s' with
      | [] => false
      | c1 :: s2 =>
          if in_range 194 223 c then cont c1 && ValidString s2
          else match s2 with
          | [] => false
          | c2 :: s3 =>
              if in_range 224 239 c then
                in_range (if (byte_val c =? 224)%Z then 160 else 128)
                         (if (byte_val c =? 237)%Z then 159 else 191) c1
                && cont c2 && ValidString s3
              else match s3 with
              | [] => false
              | c3 :: s4 =>
                  if in_range 240 244 c then
                    in_range (if (byte_val c =? 240)%Z then 144 else 128)
                             (if (byte_val c =? 244)%Z then 143 else 191) c1
                    && cont c2 && cont c3 && ValidString s4
                  else false
              end
          end
      end
  end.

Definition checkString (s : gostring) : result payload_error gostring :=
  if (MaxStringLen <? length s)%nat then Err (Reject ReasonValueTooLarge)
  else if negb (ValidString s) then Err (Reject ReasonTypeMismatch)
  else Ok s.

Definition dateTimeFromMillis (ms : Z) : result payload_error Z :=
  if (ms <? minDateTimeMillis)%Z || (maxDateTimeMillis <? ms)%Z
  then Err (Reject ReasonBadTimestamp) else Ok (millis ms).

(** [ts.UTC().Truncate(time.Millisecond)]: down to the millisecond, on
    instants after year 1. *)
Definition truncate_millis (ns : Z) : Z := millis (ns / 1000000).
Definition UnixMilli (ns : Z) : Z := ns / 1000000.

Definition checkDateTime (ts : Z) : result payload_error Z :=
  if (ts <? MinDateTime)%Z || (MaxDateTime <? ts)%Z then Err (Reject ReasonBadTimestamp)
  else Ok (truncate_millis ts).

(** ** Arrays *)

(** [v.(T)] for each scalar type. *)
Definition assert_double (s : Scalar) : result payload_error Z :=
  match s with SDouble f => Ok f | _ => Err AssertPanic end.
Definition assert_int32 (s : Scalar) : result payload_error Z :=
  match s with SInteger i => Ok i | _ => Err AssertPanic end.
Definition assert_int64 (s : Scalar) : result payload_error Z :=
  match s with SLong i => Ok i | _ => Err AssertPanic end.
Definition assert_bool (s : Scalar) : result payload_error bool :=
  match s with SBool b => Ok b | _ => Err AssertPanic end.
Definition assert_string (s : Scalar) : result payload_error gostring :=
  match s with SString b => Ok b | _ => Err AssertPanic end.
Definition assert_blob (s : Scalar) : result payload_error gostring :=
  match s with SBlob b => Ok b | _ => Err AssertPanic end.
Definition assert_time (s : Scalar) : result payload_error Z :=
  match s with STime t => Ok t | _ => Err AssertPanic end.

Fixpoint collect_elems {R T} (conv : Scalar -> result payload_error T)
    (elem : R -> result payload_error Scalar) (raws : list R) : result payload_error (list T) :=
  match raws with
  | [] => Ok []
  | r :: raws =>
      let? v := elem r in
      let? x := conv v in
      let? xs := collect_elems conv elem raws in
      Ok (x :: xs)
  end.

Definition collectArray {R T} (conv : Scalar -> result payload_error T) (raws : list R)
    (elem : R -> result payload_error Scalar) : result payload_error (list T) :=
  if (MaxArrayLen <? length raws)%nat then Err (Reject ReasonValueTooLarge)
  else collect_elems conv elem raws.

Definition mapR {E A B} (f : A -> B) (r : result E A) : result E B := let? a := r in Ok (f a).

Definition decodeArray {R} (vt : ValueType) (raws : list R)
    (elem : R -> result payload_error Scalar) : result payload_error Slice :=
  match vt with
  | DoubleArray => mapR ADouble (collectArray assert_double raws elem)
  | IntegerArray => mapR AInteger (collectArray assert_int32 raws elem)
  | BooleanArray => mapR ABool (collectArray assert_bool raws elem)
  | LongIntegerArray => mapR ALong (collectArray assert_int64 raws elem)
  | StringArray => mapR AString (collectArray assert_string raws elem)
  | BinaryBlobArray => mapR ABlob (collectArray assert_blob raws elem)
  | DateTimeArray => mapR ATime (collectArray assert_time raws elem)
  | _ => Err CallerBug
  end.

(** ** What a decoded value promises *)

(** A scalar of the declared type, within the caps. *)
Definition valid_scalar (vt : ValueType) (s : Scalar) : Prop :=
  match vt, s with
  | Double, SDouble f => Float64.finite f = true
  | Integer, SInteger i => in_int32 i
  | LongInteger, SLong i => in_int64 i
  | Boolean, SBool _ => True
  | StringT, SString x => length x <= MaxStringLen /\ ValidString x = true
  | BinaryBlob, SBlob _ => True
  | DateTime, STime t => (MinDateTime <= t <= MaxDateTime)%Z /\ truncate_millis t = t
  | _, _ => False
  end.

Definition slice_type (a : Slice) : ValueType :=
  match a with
  | ADouble _ => DoubleArray
  | AInteger _ => IntegerArray
  | ALong _ => LongIntegerArray
  | ABool _ => BooleanArray
  | AString _ => StringArray
  | ABlob _ => BinaryBlobArray
  | ATime _ => DateTimeArray
  end.

Definition valid_slice (vt : ValueType) (a : Slice) : Prop :=
  vt = slice_type a /\ length (slice_elems a) <= MaxArrayLen /\
  Forall (valid_scalar (Elem vt)) (slice_elems a).

(** A non-object value of the declared type. *)
Definition valid_value (vt : ValueType) (v : Value) : Prop :=
  match v with
  | VScalar s => IsArray vt = false /\ valid_scalar vt s
  | VSlice a => valid_slice vt a
  | VObject _ => False
  end.

(** ** Coercions are exact *)

Lemma checkDouble_Ok f g : checkDouble f = Ok g <-> g = f /\ Float64.finite f = true.
Proof.
  unfold checkDouble, Float64.IsNaN, Float64.IsInf, Float64.finite.
  destruct (Float64.exponent f =? 2047)%Z, (Float64.fraction f =? 0)%Z; simpl; naive_solver.
Qed.

Lemma int64_abs i : in_int64 i -> (Z.abs i <= 2 ^ 63)%Z.
Proof. unfold in_int64, int64_min, int64_max. lia. Qed.

(** A double made from an int64 is that integer; it exists exactly when the
    integer has a 53-bit mantissa. *)
Lemma doubleFromInt64_spec i :
  in_int64 i ->
  (forall f, doubleFromInt64 i = Ok f ->
     f = Float64.of_int i /\ Float64.finite f = true /\ Float64.integral f = true /\ Float64.trunc f = i) /\
  (is_ok (doubleFromInt64 i) = true <-> Float64.representable i).
Proof.
  intros Hi. destruct (Float64.of_int_spec i (int64_abs i Hi)) as (Hf & Hw & Hint & Hrep).
  unfold doubleFromInt64. unfold in_int64, int64_min, int64_max in Hi.
  destruct (Float64.trunc (Float64.of_int i) =? i)%Z eqn:E; bool_hyps.
  - rewrite E. rewrite (proj2 (Z.ltb_ge i _)), (proj2 (Z.leb_gt _ i)) by lia. simpl.
    split; [intros f [= <-]; done|]. tauto.
  - rewrite !orb_true_r. split; [done|]. split; [done|]. tauto.
Qed.

Lemma int32FromInt64_Ok i j : int32FromInt64 i = Ok j <-> j = i /\ in_int32 i.
Proof.
  unfold int32FromInt64, in_int32. destruct (_ || _) eqn:E.
  - split; [done|]. intros [_ H]. apply orb_true_iff in E as [E|E]; bool_hyps; lia.
  - bool_hyps. naive_solver lia.
Qed.

Lemma float_to_int_Ok lo hi f j :
  (if not_integral f || out_of_range f lo hi then Err (Reject ReasonTypeMismatch)
   else Ok (Float64.trunc f)) = Ok j <->
  Float64.finite f = true /\ Float64.integral f = true /\ j = Float64.trunc f /\ (lo <= j <= hi)%Z.
Proof.
  unfold not_integral, out_of_range, Float64.IsNaN, Float64.IsInf, Float64.finite.
  destruct (Float64.exponent f =? 2047)%Z, (Float64.fraction f =? 0)%Z; simpl;
    try (split; [done|]; by intros [? _]);
    (destruct (Float64.integral f); simpl; [|split; [done|]; by intros (_ & ? & _)]);
    (destruct (_ || _) eqn:E;
      [split; [done|]; intros (_ & _ & -> & H); apply orb_true_iff in E as [E|E]; bool_hyps; lia
      |bool_hyps; naive_solver lia]).
Qed.

Lemma int32FromFloat64_Ok f j :
  int32FromFloat64 f = Ok j <->
  Float64.finite f = true /\ Float64.integral f = true /\ j = Float64.trunc f /\ in_int32 j.
Proof. apply float_to_int_Ok. Qed.

Lemma int64FromFloat64_Ok f j :
  int64FromFloat64 f = Ok j <->
  Float64.finite f = true /\ Float64.integral f = true /\ j = Float64.trunc f /\ in_int64 j.
Proof. apply float_to_int_Ok. Qed.

Lemma checkString_Ok s t :
  checkString s = Ok t <-> t = s /\ length s <= MaxStringLen /\ ValidString s = true.
Proof.
  unfold checkString. destruct (_ <? _)%nat eqn:E; bool_hyps; [naive_solver lia|].
  destruct (ValidString s); simpl; naive_solver.
Qed.

Lemma millis_floor ms : (millis ms / 1000000 = ms)%Z.
Proof. unfold millis. apply Z.div_mul. lia. Qed.

Lemma truncate_millis_idem ns : truncate_millis (truncate_millis ns) = truncate_millis ns.
Proof. unfold truncate_millis. by rewrite millis_floor. Qed.

Lemma dateTimeFromMillis_Ok ms t :
  dateTimeFromMillis ms = Ok t <-> t = millis ms /\ (minDateTimeMillis <= ms <= maxDateTimeMillis)%Z.
Proof.
  unfold dateTimeFromMillis. destruct (_ || _) eqn:E.
  - split; [done|]. intros [_ H]. apply orb_true_iff in E as [E|E]; bool_hyps; lia.
  - bool_hyps. naive_solver lia.
Qed.

Lemma dateTimeFromMillis_valid ms t : dateTimeFromMillis ms = Ok t -> valid_scalar DateTime (STime t).
Proof.
  intros [-> H]%dateTimeFromMillis_Ok. simpl. split.
  - unfold MinDateTime, MaxDateTime, millis. lia.
  - unfold truncate_millis. by rewrite millis_floor.
Qed.

Lemma checkDateTime_Ok ts t :
  checkDateTime ts = Ok t <-> t = truncate_millis ts /\ (MinDateTime <= ts <= MaxDateTime)%Z.
Proof.
  unfold checkDateTime. destruct (_ || _) eqn:E.
  - split; [done|]. intros [_ H]. apply orb_true_iff in E as [E|E]; bool_hyps; lia.
  - bool_hyps. naive_solver lia.
Qed.

Lemma checkDateTime_valid ts t : checkDateTime ts = Ok t -> valid_scalar DateTime (STime t).
Proof.
  intros [-> H]%checkDateTime_Ok. simpl. split; [|apply truncate_millis_idem].
  unfold truncate_millis, millis, MinDateTime, MaxDateTime, millis in *.
  pose proof (Z.div_mod ts 1000000 ltac:(lia)). pose proof (Z.mod_pos_bound ts 1000000 ltac:(lia)).
  unfold minDateTimeMillis, maxDateTimeMillis in *. lia.
Qed.

(** ** Arrays *)

(** [conv] projects exactly the scalars of type [vt], through [inj]. *)
Definition projects {T} (vt : ValueType) (conv : Scalar -> result payload_error T) (inj : T -> Scalar) : Prop :=
  forall s, valid_scalar vt s -> exists x, s = inj x /\ conv s = Ok x.

Lemma collect_elems_valid {R T} vt conv (inj : T -> Scalar) (elem : R -> result payload_error Scalar) raws :
  projects vt conv inj -> (forall r s, r ∈ raws -> elem r = Ok s -> valid_scalar vt s) ->
  (forall xs, collect_elems conv elem raws = Ok xs ->
     length xs = length raws /\ Forall (valid_scalar vt) (map inj xs)) /\
  (forall e, collect_elems conv elem raws = Err e -> exists r, r ∈ raws /\ elem r = Err e).
Proof.
  intros Hp He. induction raws as [|r raws IH]; simpl.
  { split; [intros xs [= <-]; split; [done|constructor]|done]. }
  destruct IH as [IH1 IH2]; [intros; eapply He; [by right|done]|].
  destruct (elem r) as [s|e] eqn:Er; simpl.
  - pose proof (He r s ltac:(left) Er) as Hs. destruct (Hp _ Hs) as (x & -> & ->). simpl. split.
    + intros xs (ys & Hys & [= <-])%bindR_Ok. destruct (IH1 _ Hys) as [Hl HF]. simpl.
      split; [congruence|]. by constructor.
    + intros e [H|(? & _ & ?)]%bindR_Err; [|done]. destruct (IH2 _ H) as (r' & Hr & He').
      exists r'. split; [by right|done].
  - split; [done|]. intros e' [= <-]. exists r. split; [left|done].
Qed.

Lemma collectArray_valid {R T} vt conv (inj : T -> Scalar) (mk : list T -> Slice)
    (elem : R -> result payload_error Scalar) raws :
  projects vt conv inj -> (forall r s, r ∈ raws -> elem r = Ok s -> valid_scalar vt s) ->
  (forall xs, slice_elems (mk xs) = map inj xs) ->
  (forall a, mapR mk (collectArray conv raws elem) = Ok a ->
     (exists xs, a = mk xs) /\ length (slice_elems a) <= MaxArrayLen /\
     Forall (valid_scalar vt) (slice_elems a)) /\
  (forall e, mapR mk (collectArray conv raws elem) = Err e ->
     e = Reject ReasonValueTooLarge \/ exists r, r ∈ raws /\ elem r = Err e).
Proof.
  intros Hp He Hmk. unfold collectArray, mapR.
  destruct (collect_elems_valid vt conv inj elem raws Hp He) as [H1 H2].
  destruct (_ <? _)%nat eqn:El; bool_hyps.
  - split; [done|]. intros e [= <-]. by left.
  - split.
    + intros a (xs & Hxs & [= <-])%bindR_Ok. destruct (H1 _ Hxs) as [Hl HF].
      rewrite Hmk, length_map. split; [eauto|]. split; [lia|done].
    + intros e [H|(? & _ & ?)]%bindR_Err; [|done]. right. eauto.
Qed.

(** An array of elements that decode to valid scalars of the element type
    decodes to a valid slice of the array type; it fails only on the element
    cap or with an element's own error, never in a type assertion. *)
Lemma decodeArray_valid {R} vt (elem : R -> result payload_error Scalar) raws :
  IsArray vt = true -> (forall r s, r ∈ raws -> elem r = Ok s -> valid_scalar (Elem vt) s) ->
  (forall a, decodeArray vt raws elem = Ok a -> valid_slice vt a) /\
  (forall e, decodeArray vt raws elem = Err e ->
     e = Reject ReasonValueTooLarge \/ exists r, r ∈ raws /\ elem r = Err e).
Proof.
  intros Ha He. unfold valid_slice.
  destruct vt; try discriminate Ha; simpl in He;
    match goal with
    | |- context [decodeArray ?t] =>
        match t with
        | DoubleArray => pose proof (collectArray_valid Double assert_double SDouble ADouble elem raws) as H
        | IntegerArray => pose proof (collectArray_valid Integer assert_int32 SInteger AInteger elem raws) as H
        | BooleanArray => pose proof (collectArray_valid Boolean assert_bool SBool ABool elem raws) as H
        | LongIntegerArray => pose proof (collectArray_valid LongInteger assert_int64 SLong ALong elem raws) as H
        | StringArray => pose proof (collectArray_valid StringT assert_string SString AString elem raws) as H
        | BinaryBlobArray => pose proof (collectArray_valid BinaryBlob assert_blob SBlob ABlob elem raws) as H
        | DateTimeArray => pose proof (collectArray_valid DateTime assert_time STime ATime elem raws) as H
        end
    end;
    (destruct H as [H1 H2]; [intros s Hs; destruct s; try done; eexists; split; reflexivity
                            |exact He|reflexivity|]);
    (split; [intros a Hd; destruct (H1 a Hd) as [[xs ->] ?]; done|exact H2]).
Qed.

End Payload.
