(* ===== verification/PayloadBson.v ===== *)
(** * The BSON codec ([src/pkg/payload/bson.go])

    Decoding reads documents through the MongoDB driver, which is not part of
    the repository: the driver is the parameter [BSONDriver], a function from
    bytes to the parsed document. Encoding is written by hand in the source
    and is modelled byte for byte. [serialize] is the BSON format itself
    (bsonspec.org), against which the encoder is proved correct. *)

From S2P Require Import Prelude GoStrings SchemaTypes Endpoints InterfaceParse EndpointTrie Float64 PayloadValue.
From stdpp Require Import sorting.

Module Bson.
Import Schema Payload Trie.

(** ** Documents *)

(** [bson.RawValue] by type: the ones the codec distinguishes, embedded
    documents and arrays whose own bytes do not parse ([raw.Validate] looks at
    their length only), and the rest. *)
Inductive RawValue :=
| RDouble (f : Z)
| RString (s : gostring)
| RDocument (elems : list (gostring * RawValue))
| RArray (vals : list RawValue)
| RBinary (subtype : Z) (data : gostring)
| RBoolean (b : bool)
| RDateTime (ms : Z)
| RInt32 (i : Z)
| RInt64 (i : Z)
| RBadDocument
| RBadArray
| ROther (typ : Z).

Abbreviation document := (list (gostring * RawValue)).

(** The driver: [raw.Validate] with the elements of a valid document. *)
Class BSONDriver := { parse_document : gostring -> option document }.

(** [raw.LookupErr(key)]: the first element with that key. *)
Fixpoint LookupErr (d : document) (key : gostring) : option RawValue :=
  match d with
  | [] => None
  | (k, v) :: d => if decide (k = key) then Some v else LookupErr d key
  end.

(** ** Decoding *)

Section Decode.
Context `{BSONDriver}.

Definition decodeBSONEnvelope (p : gostring) : result payload_error (RawValue * option Z) :=
  if (length p <? 5)%nat || negb (le_value (take 4 p) =? Z.of_nat (length p))%Z
  then Err (Reject ReasonMalformed)
  else
    let? raw := or_err (parse_document p) (Reject ReasonMalformed) in
    let? v := or_err (LookupErr raw "v"%go) (Reject ReasonNoValue) in
    match LookupErr raw "t"%go with
    | None => Ok (v, None)
    | Some (RDateTime ms) =>
        let? ts := dateTimeFromMillis ms in
        Ok (v, Some ts)
    | Some _ => Err (Reject ReasonBadTimestamp)
    end.
End Decode.

(** [decodeBSONValue] on a scalar type. *)
Definition decode_scalar (rv : RawValue) (vt : ValueType) : result payload_error Scalar :=
  match vt, rv with
  | Double, RDouble f => mapR SDouble (checkDouble f)
  | Double, RInt32 i => Ok (SDouble (Float64.of_int i))
  | Double, RInt64 i => mapR SDouble (doubleFromInt64 i)
  | Integer, RInt32 i => Ok (SInteger i)
  | Integer, RInt64 i => mapR SInteger (int32FromInt64 i)
  | Integer, RDouble f => mapR SInteger (int32FromFloat64 f)
  | LongInteger, RInt64 i => Ok (SLong i)
  | LongInteger, RInt32 i => Ok (SLong i)
  | Boolean, RBoolean b => Ok (SBool b)
  | StringT, RString s => mapR SString (checkString s)
  | BinaryBlob, RBinary _ data => Ok (SBlob data)
  | DateTime, RDateTime ms => mapR STime (dateTimeFromMillis ms)
  | _, _ => Err (Reject ReasonTypeMismatch)
  end.

Definition decodeBSONValue (rv : RawValue) (vt : ValueType) : result payload_error Value :=
  if IsArray vt then
    match rv with
    | RArray vals => mapR VSlice (decodeArray vt vals (fun r => decode_scalar r (Elem vt)))
    | RBadArray => Err (Reject ReasonMalformed)
    | _ => Err (Reject ReasonTypeMismatch)
    end
  else mapR VScalar (decode_scalar rv vt).

(** The element loop of [decodeBSONObject]. *)
Fixpoint decode_elems (elems : document) (leaves : gmap gostring CompiledMapping)
    (out : gmap gostring Value) : result payload_error (gmap gostring Value) :=
  match elems with
  | [] => Ok out
  | (key, ev) :: elems =>
      let? leaf := or_err (leaves !! key) (Reject ReasonBadObject) in
      match out !! key with
      | Some _ => Err (Reject ReasonBadObject)
      | None =>
          let? val := decodeBSONValue ev (cValueType leaf) in
          decode_elems elems leaves (<[key := val]> out)
      end
  end.

Definition decodeBSONObject (rv : RawValue) (leaves : gmap gostring CompiledMapping)
    : result payload_error Value :=
  match rv with
  | RDocument elems =>
      if (length elems =? 0)%nat then Err (Reject ReasonBadObject)
      else mapR VObject (decode_elems elems leaves ∅)
  | RBadDocument => Err (Reject ReasonMalformed)
  | _ => Err (Reject ReasonBadObject)
  end.

(** ** Encoding *)

Definition TypeDouble : Z := 1.
Definition TypeString : Z := 2.
Definition TypeEmbeddedDocument : Z := 3.
Definition TypeArray : Z := 4.
Definition TypeBinary : Z := 5.
Definition TypeBoolean : Z := 8.
Definition TypeDateTime : Z := 9.
Definition TypeInt32 : Z := 16.
Definition TypeInt64 : Z := 18.

(** [uint32(x)] and [uint64(x)] are the low bits, which [le_bytes] keeps. *)
Definition AppendUint32 (dst : gostring) (x : Z) : gostring := dst ++ le_bytes 4 x.
Definition AppendUint64 (dst : gostring) (x : Z) : gostring := dst ++ le_bytes 8 x.

Definition appendBSONHeader (dst : gostring) (typ : Z) (key : gostring) : gostring :=
  (dst ++ [chr typ]) ++ key ++ [chr 0].

Definition appendBSONMillis (dst : gostring) (ms : Z) : gostring := AppendUint64 dst ms.

(** The length prefix at [start] is overwritten once the document ends. *)
Definition put_uint32 (doc : gostring) (start : nat) (x : Z) : gostring :=
  take start doc ++ le_bytes 4 x ++ drop (start + 4) doc.

Definition finishBSONDoc (doc : gostring) (start : nat) : result payload_error gostring :=
  let doc := doc ++ [chr 0] in
  let size := Z.of_nat (length doc - start) in
  if (MaxInt32 <? size)%Z then Err CallerBug else Ok (put_uint32 doc start size).

Definition append_scalar (dst : gostring) (key : gostring) (s : Scalar)
    : result payload_error gostring :=
  match s with
  | SDouble f =>
      let? _ := checkDouble f in
      Ok (AppendUint64 (appendBSONHeader dst TypeDouble key) f)
  | SInteger i => Ok (AppendUint32 (appendBSONHeader dst TypeInt32 key) i)
  | SLong i => Ok (AppendUint64 (appendBSONHeader dst TypeInt64 key) i)
  | SBool b =>
      let dst := appendBSONHeader dst TypeBoolean key in
      Ok (dst ++ [if b then chr 1 else chr 0])
  | SString x =>
      let? _ := checkString x in
      let dst := appendBSONHeader dst TypeString key in
      let dst := AppendUint32 dst (Z.of_nat (length x) + 1) in
      Ok ((dst ++ x) ++ [chr 0])
  | SBlob x =>
      if (MaxInt32 <? Z.of_nat (length x))%Z then Err (Reject ReasonValueTooLarge)
      else
        let dst := appendBSONHeader dst TypeBinary key in
        let dst := AppendUint32 dst (Z.of_nat (length x)) in
        Ok ((dst ++ [chr 0]) ++ x)
  | STime x =>
      let? t := checkDateTime x in
      Ok (appendBSONMillis (appendBSONHeader dst TypeDateTime key) (UnixMilli t))
  end.

Fixpoint append_elems (dst : gostring) (i : nat) (xs : list Scalar) : result payload_error gostring :=
  match xs with
  | [] => Ok dst
  | x :: xs =>
      let? dst := append_scalar dst (Strconv.Itoa (Z.of_nat i)) x in
      append_elems dst (S i) xs
  end.

Definition appendBSONSlice (dst : gostring) (key : gostring) (a : Slice)
    : result payload_error gostring :=
  let xs := slice_elems a in
  if (MaxArrayLen <? length xs)%nat then Err (Reject ReasonValueTooLarge)
  else
    let dst := appendBSONHeader dst TypeArray key in
    let start := length dst in
    let? dst := append_elems (dst ++ repeat (chr 0) 4) 0 xs in
    finishBSONDoc dst start.

(** Byte-wise string order, and [slices.Sort] of the keys. *)
Fixpoint key_leb (a b : gostring) : bool :=
  match a, b with
  | [], _ => true
  | _, [] => false
  | x :: a, y :: b =>
      if (byte_val x <? byte_val y)%Z then true
      else if (byte_val y <? byte_val x)%Z then false
      else key_leb a b
  end.
Definition key_le (a b : gostring) : Prop := key_leb a b = true.
#[global] Instance key_le_dec a b : Decision (key_le a b).
Proof. unfold key_le. apply _. Defined.

Definition sorted_keys (o : gmap gostring Value) : list gostring :=
  merge_sort key_le (map_to_list o).*1.

(** The key loop of [appendBSONObject]; a nested object is refused before the
    recursive call, so the call below never reaches the object case. *)
Fixpoint append_keys (dst : gostring) (keys : list gostring) (o : gmap gostring Value)
    : result payload_error gostring :=
  match keys with
  | [] => Ok dst
  | k :: keys =>
      if bool_decide (k = []) || bool_decide (chr 0 ∈ k) then Err (Reject ReasonBadObject)
      else
        let? dst :=
          match o !! k with
          | Some (VObject _) => Err (Reject ReasonBadObject)
          | Some (VScalar s) => append_scalar dst k s
          | Some (VSlice a) => appendBSONSlice dst k a
          | None => Err (Reject ReasonTypeMismatch) (* nil interface value *)
          end in
        append_keys dst keys o
  end.

Definition appendBSONObject (dst : gostring) (key : gostring) (o : gmap gostring Value)
    : result payload_error gostring :=
  if (size o =? 0)%nat then Err (Reject ReasonBadObject)
  else
    let dst := appendBSONHeader dst TypeEmbeddedDocument key in
    let start := length dst in
    let? dst := append_keys (dst ++ repeat (chr 0) 4) (sorted_keys o) o in
    finishBSONDoc dst start.

Definition appendBSONElement (dst : gostring) (key : gostring) (v : Value)
    : result payload_error gostring :=
  match v with
  | VScalar s => append_scalar dst key s
  | VSlice a => appendBSONSlice dst key a
  | VObject o => appendBSONObject dst key o
  end.

Definition encodeBSON (v : Value) (ts : option Z) : result payload_error gostring :=
  let doc := repeat (chr 0) 4 in
  let? doc := appendBSONElement doc "v"%go v in
  let? doc :=
    match ts with
    | None => Ok doc
    | Some ts =>
        let? t := checkDateTime ts in
        Ok (appendBSONMillis (appendBSONHeader doc TypeDateTime "t"%go) (UnixMilli t))
    end in
  finishBSONDoc doc 0.

(** ** The format *)

Definition type_byte (rv : RawValue) : Z :=
  match rv with
  | RDouble _ => TypeDouble
  | RString _ => TypeString
  | RDocument _ => TypeEmbeddedDocument
  | RArray _ => TypeArray
  | RBinary _ _ => TypeBinary
  | RBoolean _ => TypeBoolean
  | RDateTime _ => TypeDateTime
  | RInt32 _ => TypeInt32
  | RInt64 _ => TypeInt64
  | RBadDocument => TypeEmbeddedDocument
  | RBadArray => TypeArray
  | ROther t => t
  end.

(** A document's bytes around its elements' bytes. *)
Definition frame (body : gostring) : gostring :=
  le_bytes 4 (Z.of_nat (length body + 5)) ++ body ++ [chr 0].

Fixpoint serialize_value (rv : RawValue) : gostring :=
  match rv with
  | RDouble f => le_bytes 8 f
  | RString s => le_bytes 4 (Z.of_nat (length s) + 1) ++ s ++ [chr 0]
  | RDocument elems =>
      frame (concat (map (fun e => chr (type_byte e.2) :: e.1 ++ [chr 0] ++ serialize_value e.2) elems))
  | RArray vals =>
      frame (concat (imap (fun i bs => bs i)
        (map (fun v i => chr (type_byte v) :: Strconv.Itoa (Z.of_nat i) ++ [chr 0] ++ serialize_value v) vals)))
  | RBinary st data => le_bytes 4 (Z.of_nat (length data)) ++ [chr st] ++ data
  | RBoolean b => [if b then chr 1 else chr 0]
  | RDateTime ms => le_bytes 8 ms
  | RInt32 i => le_bytes 4 i
  | RInt64 i => le_bytes 8 i
  | RBadDocument | RBadArray | ROther _ => []
  end.

Definition serialize_element (key : gostring) (rv : RawValue) : gostring :=
  chr (type_byte rv) :: key ++ [chr 0] ++ serialize_value rv.
Definition serialize (d : document) : gostring :=
  frame (concat (map (fun e => serialize_element e.1 e.2) d)).

(** The document a value is meant to be. *)
Definition raw_scalar (s : Scalar) : RawValue :=
  match s with
  | SDouble f => RDouble f
  | SInteger i => RInt32 i
  | SLong i => RInt64 i
  | SBool b => RBoolean b
  | SString x => RString x
  | SBlob x => RBinary 0 x
  | STime t => RDateTime (UnixMilli t)
  end.
Definition raw_slice (a : Slice) : RawValue := RArray (map raw_scalar (slice_elems a)).
Definition raw_plain (v : Value) : RawValue :=
  match v with
  | VScalar s => raw_scalar s
  | VSlice a => raw_slice a
  | VObject _ => RDocument []
  end.
Definition raw_value (v : Value) : RawValue :=
  match v with
  | VObject o => RDocument (omap (fun k => v ← o !! k; Some (k, raw_plain v)) (sorted_keys o))
  | _ => raw_plain v
  end.
Definition envelope (v : Value) (ts : option Z) : document :=
  ("v"%go, raw_value v) ::
  match ts with
  | None => []
  | Some t => [("t"%go, RDateTime (UnixMilli t))]
  end.

(** ** The encoder writes the format *)

Lemma length_le_bytes n z : length (le_bytes n z) = n.
Proof. revert z. induction n as [|n IH]; intros z; cbn [le_bytes length]; [done|]. by rewrite IH. Qed.

Lemma le_value_bytes n z : (0 <= z < 256 ^ Z.of_nat n)%Z -> le_value (le_bytes n z) = z.
Proof.
  revert z. induction n as [|n IH]; intros z Hz; cbn [le_bytes le_value].
  { change (256 ^ Z.of_nat 0)%Z with 1%Z in Hz. lia. }
  pose proof (Z.mod_pos_bound z 256 ltac:(lia)). rewrite byte_val_chr by lia.
  replace (Z.of_nat (S n)) with (Z.succ (Z.of_nat n)) in Hz by lia.
  rewrite Z.pow_succ_r in Hz by lia. rewrite IH.
  - pose proof (Z.div_mod z 256 ltac:(lia)). lia.
  - split; [apply Z.div_pos; lia|apply Z.div_lt_upper_bound; lia].
Qed.

#[local] Arguments le_bytes : simpl never.

Lemma length_frame body : length (frame body) = length body + 5.
Proof. unfold frame. rewrite !length_app, length_le_bytes. simpl. lia. Qed.

(** Patching the prefix of a nested document leaves what came before it. *)
Lemma finishBSONDoc_frame pre body :
  finishBSONDoc (pre ++ repeat (chr 0) 4 ++ body) (length pre) =
  if (MaxInt32 <? Z.of_nat (length (frame body)))%Z then Err CallerBug else Ok (pre ++ frame body).
Proof.
  unfold finishBSONDoc, put_uint32. rewrite length_frame. rewrite !length_app, repeat_length.
  cbn [length].
  replace (length pre + (4 + length body) + 1 - length pre) with (length body + 5) by lia.
  destruct (_ <? _)%Z; [done|]. f_equal.
  rewrite <- !app_assoc, take_app_length. f_equal. unfold frame. f_equal.
  rewrite drop_app_add. by rewrite (drop_app_length' (repeat (chr 0) 4)).
Qed.

Lemma header_app dst typ key : appendBSONHeader dst typ key = dst ++ chr typ :: key ++ [chr 0].
Proof. unfold appendBSONHeader. rewrite <- app_assoc. done. Qed.

(** The caps a scalar must meet to be encoded. *)
Definition encodable_scalar (s : Scalar) : Prop :=
  match s with
  | SDouble f => Float64.finite f = true
  | SString x => length x <= MaxStringLen /\ ValidString x = true
  | SBlob x => (Z.of_nat (length x) <= MaxInt32)%Z
  | STime t => (MinDateTime <= t <= MaxDateTime)%Z
  | _ => True
  end.

Lemma UnixMilli_truncate t : UnixMilli (truncate_millis t) = UnixMilli t.
Proof. unfold UnixMilli, truncate_millis. apply millis_floor. Qed.

Lemma append_scalar_spec dst key s out :
  append_scalar dst key s = Ok out <->
  encodable_scalar s /\ out = dst ++ serialize_element key (raw_scalar s).
Proof.
  unfold serialize_element.
  destruct s; simpl; unfold appendBSONMillis, AppendUint32, AppendUint64; rewrite ?header_app, <- ?app_assoc; simpl;
    rewrite <- ?app_assoc; simpl; try naive_solver.
  - destruct (checkDouble f) eqn:E; simpl.
    + apply checkDouble_Ok in E as [-> ?]. naive_solver.
    + split; [done|]. intros [Hf _]. assert (checkDouble f = Ok f) by (by apply checkDouble_Ok). congruence.
  - destruct (checkString s) eqn:E; simpl.
    + apply checkString_Ok in E as [-> ?]. naive_solver.
    + split; [done|]. intros [Hf _]. assert (checkString s = Ok s) by (by apply checkString_Ok). congruence.
  - destruct (_ <? _)%Z eqn:E; bool_hyps; naive_solver lia.
  - destruct (checkDateTime ns) eqn:E; simpl.
    + apply checkDateTime_Ok in E as [-> ?]. rewrite UnixMilli_truncate.
      rewrite <- app_assoc. simpl. rewrite <- app_assoc. simpl.
      split; [by intros [= <-]|by intros [_ ->]].
    + split; [done|]. intros [Hf _].
      assert (checkDateTime ns = Ok (truncate_millis ns)) by (by apply checkDateTime_Ok). congruence.
Qed.

Lemma imap_ext_from {A B} (f g : nat -> A -> B) (l : list A) :
  (forall i x, f i x = g i x) -> imap f l = imap g l.
Proof. intros. by apply imap_ext. Qed.

(** The bytes of array elements numbered from [i]. *)
Fixpoint array_body (i : nat) (vals : list RawValue) : gostring :=
  match vals with
  | [] => []
  | v :: vals => serialize_element (Strconv.Itoa (Z.of_nat i)) v ++ array_body (S i) vals
  end.

Lemma serialize_array vals : serialize_value (RArray vals) = frame (array_body 0 vals).
Proof.
  cbn [serialize_value]. f_equal.
  assert (forall i, concat (imap (fun j bs => bs (i + j))
    (map (fun v i => chr (type_byte v) :: Strconv.Itoa (Z.of_nat i) ++ [chr 0] ++ serialize_value v) vals))
    = array_body i vals) as H; [|apply (H 0)].
  induction vals as [|v vals IH]; intros i; [done|]. cbn [map imap array_body concat].
  rewrite Nat.add_0_r. unfold serialize_element at 1. f_equal. rewrite <- IH. f_equal.
  apply imap_ext. intros j x _. simpl. f_equal. lia.
Qed.

Lemma append_elems_spec dst i xs out :
  append_elems dst i xs = Ok out <->
  Forall encodable_scalar xs /\ out = dst ++ array_body i (map raw_scalar xs).
Proof.
  revert dst i out.
  induction xs as [|x xs IH]; intros dst i out; cbn [append_elems array_body map].
  { rewrite app_nil_r. split; [intros [= <-]; split; [constructor|done]|naive_solver]. }
  rewrite bindR_Ok, Forall_cons. setoid_rewrite append_scalar_spec. split.
  - intros (d & [Hx ->] & H). apply IH in H as [HF ->]. split; [done|]. by rewrite <- app_assoc.
  - intros [[Hx HF] ->]. eexists. split; [done|]. apply IH. split; [done|].
    by rewrite <- app_assoc.
Qed.

Definition encodable_slice (a : Slice) : Prop :=
  length (slice_elems a) <= MaxArrayLen /\ Forall encodable_scalar (slice_elems a) /\
  (Z.of_nat (length (serialize_value (raw_slice a))) <= MaxInt32)%Z.

Lemma appendBSONSlice_spec dst key a out :
  appendBSONSlice dst key a = Ok out <->
  encodable_slice a /\ out = dst ++ serialize_element key (raw_slice a).
Proof.
  unfold appendBSONSlice, encodable_slice, raw_slice, serialize_element. rewrite serialize_array.
  destruct (_ <? _)%nat eqn:El; bool_hyps; [naive_solver lia|].
  rewrite bindR_Ok. setoid_rewrite append_elems_spec. rewrite header_app.
  assert (forall rest, dst ++ chr (type_byte (RArray (map raw_scalar (slice_elems a)))) :: key ++ [chr 0] ++ rest
    = (dst ++ chr TypeArray :: key ++ [chr 0]) ++ rest) as Hassoc.
  { intros rest. rewrite <- app_assoc. simpl. by rewrite <- app_assoc. }
  rewrite Hassoc. generalize (dst ++ chr TypeArray :: key ++ [chr 0]) as pre. intros pre. split.
  - intros (d & [HF ->] & H). rewrite <- app_assoc, finishBSONDoc_frame in H.
    destruct (_ <? _)%Z eqn:E; bool_hyps; naive_solver.
  - intros [(Hl & HF & Hsz) ->]. eexists. split; [done|].
    rewrite <- app_assoc, finishBSONDoc_frame. rewrite (proj2 (Z.ltb_ge _ _)) by lia. done.
Qed.

(** *** Objects *)

Definition encodable_plain (v : Value) : Prop :=
  match v with
  | VScalar s => encodable_scalar s
  | VSlice a => encodable_slice a
  | VObject _ => False
  end.

Definition entry_of (o : gmap gostring Value) (k : gostring) : option (gostring * RawValue) :=
  v ← o !! k; Some (k, raw_plain v).
Definition object_body (elems : document) : gostring :=
  concat (map (fun e => serialize_element e.1 e.2) elems).

Definition encodable_key (o : gmap gostring Value) (k : gostring) : Prop :=
  k <> [] /\ chr 0 ∉ k /\ exists v, o !! k = Some v /\ encodable_plain v.

Lemma append_keys_spec dst keys o out :
  append_keys dst keys o = Ok out <->
  Forall (encodable_key o) keys /\ out = dst ++ object_body (omap (entry_of o) keys).
Proof.
  revert dst out. induction keys as [|k keys IH]; intros dst out; cbn [append_keys].
  { simpl. rewrite app_nil_r. split; [intros [= <-]; split; [constructor|done]|naive_solver]. }
  rewrite Forall_cons. unfold encodable_key at 1.
  destruct (_ || _) eqn:E.
  { split; [done|]. intros [[(Hne & Hz & _) _] _]. exfalso.
    apply orb_true_iff in E as [E|E]; bool_hyps; done. }
  bool_hyps. cbn [omap list_omap]. unfold entry_of at 1.
  destruct (o !! k) as [v|] eqn:Ek; simpl.
  2: { split; [done|]. intros [[(_ & _ & v & Hv & _) _] _]. done. }
  assert (forall (r : result payload_error gostring),
    (forall d, r = Ok d <-> encodable_plain v /\ d = dst ++ serialize_element k (raw_plain v)) ->
    (bindR r (fun d => append_keys d keys o) = Ok out <->
     ((k <> [] /\ chr 0 ∉ k /\ exists w, Some v = Some w /\ encodable_plain w) /\
      Forall (encodable_key o) keys) /\
     out = dst ++ object_body ((k, raw_plain v) :: omap (entry_of o) keys))) as Hstep.
  { intros r Hr. rewrite bindR_Ok. setoid_rewrite Hr. setoid_rewrite IH.
    unfold object_body at 2. cbn [map concat fst snd]. fold (object_body (omap (entry_of o) keys)).
    rewrite app_assoc. split; [|naive_solver].
    intros (d & [Hv ->] & HF & ->). eauto 10. }
  destruct v as [s|a|o']; apply Hstep.
  - intros d. apply append_scalar_spec.
  - intros d. apply appendBSONSlice_spec.
  - intros d. simpl. naive_solver.
Qed.

Definition encodable_object (o : gmap gostring Value) : Prop :=
  o <> ∅ /\ Forall (encodable_key o) (sorted_keys o) /\
  (Z.of_nat (length (serialize_value (raw_value (VObject o)))) <= MaxInt32)%Z.

Lemma appendBSONObject_spec dst key o out :
  appendBSONObject dst key o = Ok out <->
  encodable_object o /\ out = dst ++ serialize_element key (raw_value (VObject o)).
Proof.
  unfold appendBSONObject, encodable_object, serialize_element.
  change (serialize_value (raw_value (VObject o)))
    with (frame (object_body (omap (entry_of o) (sorted_keys o)))).
  destruct (size o =? 0)%nat eqn:E; bool_hyps.
  { apply map_size_empty_iff in E as ->. naive_solver. }
  assert (o <> ∅) by (intros ->; by rewrite map_size_empty in E).
  rewrite bindR_Ok. setoid_rewrite append_keys_spec. rewrite header_app.
  assert (forall rest, dst ++ chr (type_byte (raw_value (VObject o))) :: key ++ [chr 0] ++ rest
    = (dst ++ chr TypeEmbeddedDocument :: key ++ [chr 0]) ++ rest) as Hassoc.
  { intros rest. rewrite <- app_assoc. simpl. by rewrite <- app_assoc. }
  rewrite Hassoc. generalize (dst ++ chr TypeEmbeddedDocument :: key ++ [chr 0]) as pre. intros pre.
  split.
  - intros (d & [HF ->] & H'). rewrite <- app_assoc, finishBSONDoc_frame in H'.
    destruct (_ <? _)%Z eqn:E'; bool_hyps; naive_solver.
  - intros [(Hne & HF & Hsz) ->]. eexists. split; [done|].
    rewrite <- app_assoc, finishBSONDoc_frame. rewrite (proj2 (Z.ltb_ge _ _)) by lia. done.
Qed.

(** *** Whole documents *)

Definition encodable (v : Value) : Prop :=
  match v with
  | VObject o => encodable_object o
  | _ => encodable_plain v
  end.

Lemma appendBSONElement_spec dst key v out :
  appendBSONElement dst key v = Ok out <->
  encodable v /\ out = dst ++ serialize_element key (raw_value v).
Proof.
  destruct v as [s|a|o]; [apply append_scalar_spec|apply appendBSONSlice_spec|apply appendBSONObject_spec].
Qed.

Lemma Ok_inj {E A} (a b : A) : @Ok E A a = Ok b -> a = b.
Proof. congruence. Qed.

Lemma encodeBSON_spec v ts bs :
  encodeBSON v ts = Ok bs <->
  encodable v /\
  (forall t, ts = Some t -> (MinDateTime <= t <= MaxDateTime)%Z) /\
  (Z.of_nat (length (serialize (envelope v ts))) <= MaxInt32)%Z /\
  bs = serialize (envelope v ts).
Proof.
  unfold encodeBSON, serialize, envelope. cbn [map concat fst snd].
  assert (forall body, finishBSONDoc (repeat (chr 0) 4 ++ body) 0 = Ok bs <->
    (Z.of_nat (length (frame body)) <= MaxInt32)%Z /\ bs = frame body) as Hfin.
  { intros body. pose proof (finishBSONDoc_frame [] body) as E. simpl in E. simpl. rewrite E.
    destruct (_ <? _)%Z eqn:E'; bool_hyps; naive_solver lia. }
  rewrite bindR_Ok. setoid_rewrite appendBSONElement_spec. destruct ts as [t|].
  - destruct (checkDateTime t) as [t'|] eqn:Et.
    + apply checkDateTime_Ok in Et as [-> Ht]. setoid_rewrite bindR_Ok.
      unfold appendBSONMillis, AppendUint64.
      cbn [bindR map concat fst snd]. setoid_rewrite UnixMilli_truncate. rewrite app_nil_r.
      assert (forall d, (appendBSONHeader (repeat (chr 0) 4 ++ d) TypeDateTime "t"%go) ++ le_bytes 8 (UnixMilli t)
        = repeat (chr 0) 4 ++ d ++ serialize_element "t"%go (RDateTime (UnixMilli t))) as Hd.
      { intros d. rewrite header_app. rewrite <- !app_assoc. done. }
      split.
      * intros (d & [Hv ->] & d1 & <-%Ok_inj & Hfinal). rewrite Hd in Hfinal. apply Hfin in Hfinal.
        naive_solver.
      * intros (Hv & _ & Hsz & Hbs). eexists. split; [done|]. eexists. split; [reflexivity|].
        rewrite Hd. by apply Hfin.
    + split; [by intros (d & _ & Hx)|]. intros (_ & Hr & _).
      assert (checkDateTime t = Ok (truncate_millis t)); [|congruence].
      apply checkDateTime_Ok. split; [done|]. by apply Hr.
  - cbn [bindR map concat]. rewrite app_nil_r. split.
    + intros (d & [Hv ->] & Hfinal). apply Hfin in Hfinal. naive_solver.
    + intros (Hv & _ & Hsz & Hbs). eexists. split; [done|]. by apply Hfin.
Qed.

(** *** The document is sniffed as BSON *)

Lemma frame_detected body :
  (Z.of_nat (length (frame body)) <= MaxInt32)%Z -> DetectFormat (frame body) = FormatBSON.
Proof.
  intros Hsz. pose proof (length_frame body) as Hl. unfold DetectFormat.
  rewrite (proj2 (Nat.eqb_neq _ _)) by lia. rewrite (proj2 (Nat.leb_le _ _)) by lia.
  rewrite (proj2 (Z.leb_le _ _)) by lia.
  assert (take 4 (frame body) = le_bytes 4 (Z.of_nat (length body + 5))) as ->.
  { unfold frame. by rewrite take_app_length' by (by rewrite length_le_bytes). }
  unfold MaxInt32 in Hsz. rewrite le_value_bytes by (change (256 ^ Z.of_nat 4)%Z with 4294967296%Z; lia).
  rewrite Hl, Z.eqb_refl. rewrite bool_decide_eq_true_2; [done|].
  unfold frame. rewrite app_assoc. apply last_snoc.
Qed.

(** *** Reading a document back *)

Lemma decode_raw_scalar vt s : valid_scalar vt s -> decode_scalar (raw_scalar s) vt = Ok s.
Proof.
  destruct vt, s; simpl; try done.
  - intros H. by rewrite (proj2 (checkDouble_Ok f f)).
  - intros H. by rewrite (proj2 (checkString_Ok s s)).
  - intros [H Ht]. unfold UnixMilli.
    rewrite (proj2 (dateTimeFromMillis_Ok (ns / 1000000) ns)); [done|].
    unfold truncate_millis in Ht. split; [done|].
    unfold MinDateTime, MaxDateTime, millis, minDateTimeMillis, maxDateTimeMillis in *. lia.
Qed.

Lemma decode_raw_elems {T} vt (conv : Scalar -> result payload_error T) (inj : T -> Scalar) xs :
  (forall x, conv (inj x) = Ok x) -> Forall (valid_scalar vt) (map inj xs) ->
  collect_elems conv (fun r => decode_scalar r vt) (map raw_scalar (map inj xs)) = Ok xs.
Proof.
  intros Hc. induction xs as [|x xs IH]; intros HF; [done|]. apply Forall_cons in HF as [Hx HF].
  cbn [map collect_elems]. rewrite decode_raw_scalar by done. cbn [bindR]. rewrite Hc. cbn [bindR].
  by rewrite IH.
Qed.

Lemma decode_raw_value vt v : valid_value vt v -> decodeBSONValue (raw_value v) vt = Ok v.
Proof.
  unfold decodeBSONValue. destruct v as [s|a|o]; simpl; [| |done].
  - intros [-> H]. by rewrite decode_raw_scalar.
  - intros (-> & Hl & HF). unfold raw_slice, decodeArray, collectArray, mapR.
    assert ((MaxArrayLen <? length (map raw_scalar (slice_elems a)))%nat = false) as Hcap.
    { apply Nat.ltb_ge. by rewrite length_map. }
    destruct a; cbn [slice_type IsArray]; cbn [slice_elems] in *; rewrite Hcap;
      rewrite (decode_raw_elems _ _ _ _ (fun x => eq_refl) HF); done.
Qed.

(** ** Decoded values are valid *)

(** Integers of a parsed document are machine integers. *)
Definition wf_leaf (rv : RawValue) : Prop :=
  match rv with
  | RInt32 i => in_int32 i
  | RInt64 i => in_int64 i
  | _ => True
  end.
Definition wf_raw (rv : RawValue) : Prop :=
  match rv with
  | RArray vals => Forall wf_leaf vals
  | _ => wf_leaf rv
  end.
Definition wf_elems (d : document) : Prop := Forall (fun e => wf_raw e.2) d.

Lemma mapR_Ok {E A B} (f : A -> B) (r : result E A) b :
  mapR f r = Ok b <-> exists a, r = Ok a /\ b = f a.
Proof. unfold mapR. destruct r; simpl; naive_solver. Qed.

Lemma int32_representable i : in_int32 i -> Float64.finite (Float64.of_int i) = true.
Proof.
  intros Hi. apply Float64.of_int_spec. unfold in_int32, int32_min, int32_max in Hi. lia.
Qed.

Lemma decode_scalar_valid rv vt s :
  wf_leaf rv -> decode_scalar rv vt = Ok s -> valid_scalar vt s.
Proof.
  intros Hw. unfold decode_scalar.
  destruct vt; try (by destruct rv); destruct rv; try done; simpl in Hw |- *.
  - intros (g & [-> Hg]%checkDouble_Ok & ->)%mapR_Ok. done.
  - intros [= <-]. by apply int32_representable.
  - intros (g & Hg & ->)%mapR_Ok. by apply (proj1 (doubleFromInt64_spec i Hw)) in Hg as (_ & ? & _).
  - intros (g & (_ & _ & _ & Hr)%int32FromFloat64_Ok & ->)%mapR_Ok. done.
  - by intros [= <-].
  - intros (g & [-> Hr]%int32FromInt64_Ok & ->)%mapR_Ok. done.
  - by intros [= <-].
  - intros [= <-]. simpl. unfold in_int32, in_int64, int32_min, int32_max, int64_min, int64_max in *. lia.
  - by intros [= <-].
  - intros (g & [-> Hr]%checkString_Ok & ->)%mapR_Ok. done.
  - by intros [= <-].
  - intros (g & Hg & ->)%mapR_Ok. by apply dateTimeFromMillis_valid in Hg.
Qed.

Lemma decode_scalar_no_panic rv vt : decode_scalar rv vt <> Err AssertPanic.
Proof.
  assert (forall A (f : A -> Scalar) r, r <> Err AssertPanic -> mapR f r <> Err AssertPanic) as Hm.
  { intros A f r Hr. unfold mapR. intros [Hx|(? & _ & ?)]%bindR_Err; done. }
  destruct vt; try (by destruct rv); destruct rv; try done; apply Hm;
    unfold checkDouble, doubleFromInt64, int32FromInt64, int32FromFloat64, checkString, dateTimeFromMillis;
    cbv zeta; repeat case_match; done.
Qed.

Lemma decodeBSONValue_valid rv vt v :
  wf_raw rv -> decodeBSONValue rv vt = Ok v -> valid_value vt v.
Proof.
  intros Hw. unfold decodeBSONValue. destruct (IsArray vt) eqn:Ha.
  - destruct rv; try done. intros (a & Hd & ->)%mapR_Ok. simpl. simpl in Hw.
    eapply (decodeArray_valid vt (fun r => decode_scalar r (Elem vt)) vals Ha); [|exact Hd].
    intros r s Hr. apply decode_scalar_valid. rewrite Forall_forall in Hw. by apply Hw.
  - intros (s & Hs & ->)%mapR_Ok. split; [done|]. eapply decode_scalar_valid; [|done].
    by destruct rv.
Qed.

Lemma decodeBSONValue_no_panic rv vt : wf_raw rv -> decodeBSONValue rv vt <> Err AssertPanic.
Proof.
  intros Hw. unfold decodeBSONValue. destruct (IsArray vt) eqn:Ha.
  - destruct rv; try done. unfold mapR. intros [Hx|(? & _ & ?)]%bindR_Err; [|done].
    eapply (decodeArray_valid vt (fun r => decode_scalar r (Elem vt)) vals Ha) in Hx
      as [?|(r & _ & Hr)]; [done|by apply decode_scalar_no_panic in Hr|].
    intros r s Hr. apply decode_scalar_valid. simpl in Hw. rewrite Forall_forall in Hw. by apply Hw.
  - unfold mapR. intros [Hx|(? & _ & ?)]%bindR_Err; [|done]. by apply decode_scalar_no_panic in Hx.
Qed.

(** What a decoded object holds: declared leaves only, each with a value of
    its declared type. *)
Definition valid_object (leaves : gmap gostring CompiledMapping) (o : gmap gostring Value) : Prop :=
  map_Forall (fun k v => exists leaf, leaves !! k = Some leaf /\ valid_value (cValueType leaf) v) o.

Lemma decode_elems_valid elems leaves out o :
  wf_elems elems -> valid_object leaves out -> decode_elems elems leaves out = Ok o ->
  valid_object leaves o /\ size o = size out + length elems.
Proof.
  intros Hw. revert out. induction Hw as [|[key ev] elems Hev Hw IH]; intros out Hout; simpl.
  { intros [= <-]. split; [done|lia]. }
  intros (leaf & Hleaf%or_err_Ok & H)%bindR_Ok. destruct (out !! key) eqn:Ek; [done|].
  apply bindR_Ok in H as (val & Hval & H). apply decodeBSONValue_valid in Hval; [|done].
  apply IH in H as [Ho Hs].
  - split; [done|]. rewrite map_size_insert_None in Hs by done. lia.
  - apply map_Forall_insert_2; [eauto|done].
Qed.

(** An object entry's raw form is a valid element of the document. *)
Lemma decode_elems_raw leaves o keys out :
  NoDup keys -> Forall (fun k => is_Some (o !! k)) keys ->
  (forall k, k ∈ keys -> out !! k = None) -> valid_object leaves o ->
  decode_elems (omap (entry_of o) keys) leaves out =
  Ok (foldl (fun acc k => match o !! k with Some v => <[k := v]> acc | None => acc end) out keys).
Proof.
  intros Hnd Hall Hout Hv. revert out Hout.
  induction Hnd as [|k keys Hk Hnd IH]; intros out Hout; [done|].
  apply Forall_cons in Hall as [[v Hkv] Hall].
  cbn [omap list_omap]. unfold entry_of at 1. rewrite Hkv. cbn [mbind option_bind decode_elems].
  destruct (Hv k v Hkv) as (leaf & Hleaf & Hval). rewrite Hleaf. cbn [or_err bindR].
  rewrite (Hout k) by left.
  assert (raw_plain v = raw_value v) as -> by (by destruct v).
  rewrite decode_raw_value by done. cbn [bindR foldl]. rewrite Hkv.
  apply IH; [done|]. intros k' Hk'. rewrite lookup_insert_ne by (intros ->; done).
  apply Hout. by right.
Qed.

Lemma foldl_insert_keys (o out : gmap gostring Value) keys k :
  NoDup keys -> Forall (fun k => is_Some (o !! k)) keys ->
  foldl (fun acc k => match o !! k with Some v => <[k := v]> acc | None => acc end) out keys !! k
  = if decide (k ∈ keys) then o !! k else out !! k.
Proof.
  intros Hnd. revert out. induction Hnd as [|x keys Hx Hnd IH]; intros out Hall; cbn [foldl].
  { by rewrite decide_False by set_solver. }
  apply Forall_cons in Hall as [[v Hv] Hall]. rewrite Hv, IH by done.
  destruct (decide (k ∈ keys)) as [Hin|Hin].
  - by rewrite decide_True by (by right).
  - destruct (decide (k = x)) as [->|Hne].
    + rewrite decide_True by left. by rewrite lookup_insert, decide_True.
    + rewrite lookup_insert_ne by done. by rewrite decide_False by set_solver.
Qed.

#[global] Instance key_le_total : Total key_le.
Proof.
  intros a. unfold key_le. induction a as [|x a IH]; intros [|y b]; simpl; auto.
  destruct (byte_val x <? byte_val y)%Z eqn:E1, (byte_val y <? byte_val x)%Z eqn:E2; auto.
Qed.

Lemma sorted_keys_perm o : sorted_keys o ≡ₚ (map_to_list o).*1.
Proof. apply merge_sort_Permutation. Qed.

Lemma sorted_keys_elem o k : k ∈ sorted_keys o <-> is_Some (o !! k).
Proof.
  rewrite sorted_keys_perm, list_elem_of_fmap. split.
  - intros ([k' v] & -> & Hin%elem_of_map_to_list). by exists v.
  - intros [v Hv]. exists (k, v). split; [done|]. by apply elem_of_map_to_list.
Qed.

Lemma decode_raw_object leaves o :
  o <> ∅ -> valid_object leaves o ->
  decodeBSONObject (raw_value (VObject o)) leaves = Ok (VObject o).
Proof.
  intros Hne Hv. simpl. fold (entry_of o).
  assert (Forall (fun k => is_Some (o !! k)) (sorted_keys o)) as Hall.
  { apply Forall_forall. intros k. apply sorted_keys_elem. }
  assert (NoDup (sorted_keys o)) as Hnd.
  { rewrite sorted_keys_perm. apply NoDup_fst_map_to_list. }
  rewrite (proj2 (Nat.eqb_neq _ _)).
  - change (omap (fun k => v ← o !! k; Some (k, raw_plain v)) (sorted_keys o))
      with (omap (entry_of o) (sorted_keys o)).
    rewrite decode_elems_raw by (try done; intros; apply lookup_empty).
    unfold mapR. cbn [bindR]. do 2 f_equal. apply map_eq. intros k.
    rewrite foldl_insert_keys by done. rewrite lookup_empty. case_decide as Hk; [done|].
    destruct (o !! k) eqn:E; [|done]. exfalso. apply Hk, sorted_keys_elem. by exists v.
  - destruct (map_choose o Hne) as (k & v & Hkv).
    assert (k ∈ sorted_keys o) as Hin by (apply sorted_keys_elem; by exists v).
    assert ((k, raw_plain v) ∈ omap (entry_of o) (sorted_keys o)) as He.
    { apply list_elem_of_omap. exists k. split; [done|]. unfold entry_of. by rewrite Hkv. }
    intros Hl. apply length_zero_iff_nil in Hl. rewrite Hl in He.
    by apply elem_of_nil in He.
Qed.

(** ** The codec theorems *)

(** The encoder succeeds exactly on values within the caps, with an in-window
    timestamp and a document that fits the int32 length; what it writes is
    the BSON serialisation of the envelope, and it is sniffed as BSON. *)
Theorem bson_encoder_exact v ts :
  (forall bs, encodeBSON v ts = Ok bs <->
     encodable v /\ (forall t, ts = Some t -> (MinDateTime <= t <= MaxDateTime)%Z) /\
     (Z.of_nat (length (serialize (envelope v ts))) <= MaxInt32)%Z /\
     bs = serialize (envelope v ts)) /\
  (forall bs, encodeBSON v ts = Ok bs -> DetectFormat bs = FormatBSON).
Proof.
  split; [intros bs; apply encodeBSON_spec|].
  intros bs (_ & _ & Hsz & ->)%encodeBSON_spec. by apply frame_detected.
Qed.

(** An encoded value decodes to itself, with its timestamp, once the driver
    reads the bytes as the document they are meant to be. *)
Lemma bson_document_decodes `{BSONDriver} v ts bs :
  encodeBSON v ts = Ok bs ->
  (forall t, ts = Some t -> truncate_millis t = t) ->
  parse_document bs = Some (envelope v ts) ->
  decodeBSONEnvelope bs = Ok (raw_value v, ts) /\
  (forall vt, valid_value vt v -> decodeBSONValue (raw_value v) vt = Ok v) /\
  (forall o leaves, v = VObject o -> valid_object leaves o ->
     decodeBSONObject (raw_value v) leaves = Ok v).
Proof.
  intros (Henc & Hwin & Hsz & ->)%encodeBSON_spec Htr Hparse.
  split; [|split; [intros vt; apply decode_raw_value|]].
  - unfold decodeBSONEnvelope. rewrite Hparse. unfold serialize in *.
    assert ((length (frame (concat (map (fun e => serialize_element e.1 e.2) (envelope v ts)))) <? 5)%nat = false
      /\ (le_value (take 4 (frame (concat (map (fun e => serialize_element e.1 e.2) (envelope v ts)))))
          =? Z.of_nat (length (frame (concat (map (fun e => serialize_element e.1 e.2) (envelope v ts))))))%Z = true)
      as [-> ->].
    { clear Hparse. generalize dependent (concat (map (fun e => serialize_element e.1 e.2) (envelope v ts))).
      intros body Hsz. rewrite length_frame in *. split; [apply Nat.ltb_ge; lia|].
      apply Z.eqb_eq. unfold frame. rewrite take_app_length' by (by rewrite length_le_bytes).
      apply le_value_bytes. unfold MaxInt32 in Hsz. change (256 ^ Z.of_nat 4)%Z with 4294967296%Z. lia. }
    cbn [negb orb or_err bindR]. unfold envelope. cbn [LookupErr].
    rewrite decide_True by done. cbn [or_err bindR]. rewrite decide_False by done.
    destruct ts as [t|]; cbn [LookupErr]; [|done]. rewrite decide_True by done.
    rewrite (proj2 (dateTimeFromMillis_Ok (UnixMilli t) t)); [done|].
    specialize (Hwin t eq_refl). specialize (Htr t eq_refl). unfold truncate_millis in Htr.
    unfold UnixMilli. split; [done|].
    unfold MinDateTime, MaxDateTime, millis, minDateTimeMillis, maxDateTimeMillis in *. lia.
  - intros o leaves -> Hv. apply decode_raw_object; [|done].
    by destruct Henc as [? _].
Qed.

(** Whatever document the driver returns, a value the decoder accepts is a
    value of the mapping's declared type within every cap, an accepted object
    has only declared leaves and as many entries as the document, and no type
    assertion fails. *)
Theorem bson_decode_typed rv vt :
  wf_raw rv ->
  (forall v, decodeBSONValue rv vt = Ok v -> valid_value vt v) /\
  decodeBSONValue rv vt <> Err AssertPanic /\
  (forall elems leaves o, rv = RDocument elems -> wf_elems elems ->
     decodeBSONObject rv leaves = Ok (VObject o) ->
     valid_object leaves o /\ size o = length elems /\ o <> ∅).
Proof.
  intros Hw. split; [intros v; by apply decodeBSONValue_valid|].
  split; [by apply decodeBSONValue_no_panic|].
  intros elems leaves o -> He. simpl. destruct (length elems =? 0)%nat eqn:El; [done|]. bool_hyps.
  intros (o' & Ho & [= <-])%mapR_Ok. apply decode_elems_valid in Ho as [Hv Hs];
    [|done|apply map_Forall_empty]. rewrite map_size_empty in Hs. split; [done|]. split; [done|].
  intros ->. rewrite map_size_empty in Hs. simpl in Hs. lia.
Qed.

(** *** A driver that reads one document *)
Definition one_document_driver (bs : gostring) (d : document) : BSONDriver :=
  {| parse_document p := if decide (p = bs) then Some d else None |}.

Lemma bson_decode_typed_witness : valid_value Integer (VScalar (SInteger 42)).
Proof.
  apply (bson_decode_typed (RInt32 42) Integer); [vm_compute; split; discriminate|reflexivity].
Defined.

End Bson.
