(* ===== verification/BsonReader.v ===== *)
(** * Reading BSON back

    What the MongoDB driver is relied on for: it reads every document of the
    BSON format (bsonspec.org, as [serialize] of {!PayloadBson} writes it) as
    that document. The class [BSONReader] states this of a driver, and
    [parse_bson], a reader of the format, is an instance of it. Through any such
    driver the codec decodes what its encoder wrote. *)

From S2P Require Import Prelude GoStrings SchemaTypes Endpoints InterfaceParse EndpointTrie Float64 PayloadValue PayloadBson.

Module BsonReader.
Import Schema Payload Trie Bson.

(** ** Documents of the format *)

(** Machine integers, keys without NUL, the binary subtypes with a plain body;
    of the element types only those the codec distinguishes. *)
Fixpoint storable (rv : RawValue) : bool :=
  match rv with
  | RDouble f => (0 <=? f)%Z && (f <? 2 ^ 64)%Z
  | RInt32 i => (int32_min <=? i)%Z && (i <=? int32_max)%Z
  | RInt64 i | RDateTime i => (int64_min <=? i)%Z && (i <=? int64_max)%Z
  | RString _ | RBoolean _ => true
  | RBinary st _ => (0 <=? st)%Z && (st <? 256)%Z && negb (st =? 2)%Z
  | RDocument elems => forallb (fun e => negb (bool_decide (chr 0 ∈ e.1)) && storable e.2) elems
  | RArray vals => forallb storable vals
  | RBadDocument | RBadArray | ROther _ => false
  end.
Definition storable_document (d : document) : bool := storable (RDocument d).

Class BSONReader `{BSONDriver} := {
  reads_format d : storable_document d = true -> (Z.of_nat (length (serialize d)) <= MaxInt32)%Z ->
    parse_document (serialize d) = Some d;
}.

(** ** A reader *)

Definition take_n (n : nat) (s : gostring) : option (gostring * gostring) :=
  if (length s <? n)%nat then None else Some (take n s, drop n s).

Fixpoint cut_nul (s : gostring) : option (gostring * gostring) :=
  match s with
  | [] => None
  | c :: s => if decide (c = chr 0) then Some ([], s) else '(k, s) ← cut_nul s; Some (c :: k, s)
  end.

(** The body of a document at the head of a text, and what follows it. *)
Definition unframe (s : gostring) : option (gostring * gostring) :=
  '(b, _) ← take_n 4 s;
  let n := Z.to_nat (le_value b) in
  if (n <? 5)%nat then None
  else
    '(doc, rest) ← take_n n s;
    if decide (drop (n - 1) doc = [chr 0]) then Some (take (n - 5) (drop 4 doc), rest) else None.

Fixpoint parse_elems (pv : Z -> gostring -> option (RawValue * gostring)) (k : nat) (b : gostring) : option document :=
  match b with
  | [] => Some []
  | c :: b =>
      match k with
      | O => None
      | S k =>
          '(key, b) ← cut_nul b;
          '(v, b) ← pv (byte_val c) b;
          rest ← parse_elems pv k b;
          Some ((key, v) :: rest)
      end
  end.

Fixpoint parse_value (fuel : nat) (typ : Z) (s : gostring) : option (RawValue * gostring) :=
  match fuel with
  | O => None
  | S fuel =>
      let fixed n f := '(b, s) ← take_n n s; Some (f (le_value b), s) in
      let elements s := '(body, s) ← unframe s; d ← parse_elems (parse_value fuel) (length body) body; Some (d, s) in
      if (typ =? TypeDouble)%Z then fixed 8 RDouble
      else if (typ =? TypeInt32)%Z then fixed 4 (fun z => RInt32 (wrap 32 z))
      else if (typ =? TypeInt64)%Z then fixed 8 (fun z => RInt64 (wrap 64 z))
      else if (typ =? TypeDateTime)%Z then fixed 8 (fun z => RDateTime (wrap 64 z))
      else if (typ =? TypeBoolean)%Z then
        match s with
        | c :: s => if decide (c = chr 0) then Some (RBoolean false, s)
                    else if decide (c = chr 1) then Some (RBoolean true, s) else None
        | [] => None
        end
      else if (typ =? TypeString)%Z then
        '(b, s) ← take_n 4 s;
        '(x, s) ← take_n (Z.to_nat (le_value b)) s;
        if decide (drop (length x - 1) x = [chr 0]) then Some (RString (take (length x - 1) x), s) else None
      else if (typ =? TypeBinary)%Z then
        '(b, s) ← take_n 4 s;
        match s with
        | st :: s => if (byte_val st =? 2)%Z then None
                     else '(data, s) ← take_n (Z.to_nat (le_value b)) s; Some (RBinary (byte_val st) data, s)
        | [] => None
        end
      else if (typ =? TypeEmbeddedDocument)%Z then '(d, s) ← elements s; Some (RDocument d, s)
      else if (typ =? TypeArray)%Z then '(d, s) ← elements s; Some (RArray d.*2, s)
      else None
  end.

Definition parse_bson (p : gostring) : option document :=
  '(body, rest) ← unframe p;
  match rest with [] => parse_elems (parse_value (length p)) (length body) body | _ => None end.

(** ** It reads the format *)

Lemma forallb_Forall_true {A} (f : A -> bool) l : forallb f l = true <-> Forall (fun x => f x = true) l.
Proof. rewrite forallb_forall, Forall_forall. by setoid_rewrite <- list_elem_of_In. Qed.

Lemma take_n_app s rest : take_n (length s) (s ++ rest) = Some (s, rest).
Proof.
  unfold take_n. rewrite length_app, (proj2 (Nat.ltb_ge _ _)) by lia.
  by rewrite take_app_length, drop_app_length.
Qed.

Lemma take_le n z rest : take_n n (le_bytes n z ++ rest) = Some (le_bytes n z, rest).
Proof. rewrite <- (length_le_bytes n z) at 1. apply take_n_app. Qed.

Lemma le_value_mod n z : le_value (le_bytes n z) = (z mod 256 ^ Z.of_nat n)%Z.
Proof.
  revert z. induction n as [|n IH]; intros z; cbn [le_bytes le_value].
  { change (256 ^ Z.of_nat 0)%Z with 1%Z. by rewrite Z.mod_1_r. }
  pose proof (Z.mod_pos_bound z 256 ltac:(lia)). rewrite byte_val_chr by lia.
  rewrite IH. replace (Z.of_nat (S n)) with (Z.succ (Z.of_nat n)) by lia. rewrite Z.pow_succ_r by lia.
  rewrite Z.rem_mul_r by lia. lia.
Qed.

Lemma wrap_mod w z : (0 < w)%Z -> wrap w (z mod 2 ^ w) = wrap w z.
Proof. intros Hw. unfold wrap. by rewrite Z.add_mod_idemp_l by (apply Z.pow_nonzero; lia). Qed.

Lemma le_signed32 i : in_int32 i -> wrap 32 (le_value (le_bytes 4 i)) = i.
Proof.
  intros Hi. rewrite le_value_mod. change (256 ^ Z.of_nat 4)%Z with (2 ^ 32)%Z. rewrite wrap_mod by lia.
  apply wrap_small; [lia|]. unfold in_int32, int32_min, int32_max in Hi. simpl. lia.
Qed.

Lemma le_signed64 i : in_int64 i -> wrap 64 (le_value (le_bytes 8 i)) = i.
Proof.
  intros Hi. rewrite le_value_mod. change (256 ^ Z.of_nat 8)%Z with (2 ^ 64)%Z. rewrite wrap_mod by lia.
  apply wrap_small; [lia|]. unfold in_int64, int64_min, int64_max in Hi. simpl. lia.
Qed.

Lemma cut_nul_app k rest : chr 0 ∉ k -> cut_nul (k ++ chr 0 :: rest) = Some (k, rest).
Proof.
  induction k as [|c k IH]; intros Hk; cbn [cut_nul app].
  - by rewrite decide_True.
  - apply not_elem_of_cons in Hk as [Hc Hk]. rewrite decide_False by congruence. by rewrite IH.
Qed.

Lemma unframe_frame body rest :
  (Z.of_nat (length (frame body)) <= MaxInt32)%Z -> unframe (frame body ++ rest) = Some (body, rest).
Proof.
  rewrite length_frame. intros Hl.
  assert (le_value (le_bytes 4 (Z.of_nat (length body + 5))) = Z.of_nat (length body + 5)) as Hv.
  { apply le_value_bytes. change (256 ^ Z.of_nat 4)%Z with 4294967296%Z. unfold MaxInt32 in Hl. lia. }
  unfold unframe.
  assert (take_n 4 (frame body ++ rest) =
    Some (le_bytes 4 (Z.of_nat (length body + 5)), (body ++ [chr 0]) ++ rest)) as ->.
  { unfold frame. rewrite <- app_assoc. rewrite <- (length_le_bytes 4 (Z.of_nat (length body + 5))) at 1. apply take_n_app. }
  cbn [mbind option_bind]. rewrite Hv, Nat2Z.id. rewrite (proj2 (Nat.ltb_ge _ _)) by lia.
  rewrite <- length_frame, take_n_app. cbn [mbind option_bind]. rewrite length_frame. unfold frame.
  replace (length body + 5 - 1) with (4 + length body) by lia. replace (length body + 5 - 5) with (length body) by lia.
  generalize (length_le_bytes 4 (Z.of_nat (length body + 5))). generalize (le_bytes 4 (Z.of_nat (length body + 5))) as pre.
  intros pre Hp. assert (forall n, drop (4 + n) (pre ++ body ++ [chr 0]) = drop n (body ++ [chr 0])) as Hd.
  { intros n. rewrite <- Hp. apply drop_app_add. }
  rewrite Hd, drop_app_length, decide_True by done. rewrite (drop_app_length' pre) by done. by rewrite take_app_length.
Qed.

(** The bytes of the elements of a document. *)
Definition elements_bytes (d : document) : gostring := concat (map (fun e => serialize_element e.1 e.2) d).

Lemma type_byte_range rv : storable rv = true -> (0 <= type_byte rv < 256)%Z.
Proof. by destruct rv. Qed.

Lemma parse_elems_bytes pv d k :
  Forall (fun e => chr 0 ∉ e.1 /\ (0 <= type_byte e.2 < 256)%Z /\
    forall rest, pv (type_byte e.2) (serialize_value e.2 ++ rest) = Some (e.2, rest)) d ->
  length d <= k -> parse_elems pv k (elements_bytes d) = Some d.
Proof.
  intros Hd. revert k. induction Hd as [|[key v] d (Hk & Ht & Hv) _ IH]; intros k Hl; simpl in *; [by destruct k|].
  destruct k as [|k]; [lia|]. unfold elements_bytes. cbn [map concat]. unfold serialize_element at 1. cbn [fst snd].
  cbn [app parse_elems]. rewrite <- app_assoc. cbn [app]. rewrite cut_nul_app by done. cbn [mbind option_bind].
  rewrite byte_val_chr by lia. rewrite Hv. cbn [mbind option_bind].
  change (concat (map (fun e => serialize_element e.1 e.2) d)) with (elements_bytes d). rewrite IH by lia. done.
Qed.

Lemma elements_length d : length d <= length (elements_bytes d).
Proof.
  induction d as [|e d IH]; [done|]. unfold elements_bytes in *. cbn [map concat]. unfold serialize_element at 1.
  cbn [app length]. rewrite length_app. lia.
Qed.

Lemma element_fits e d : e ∈ d -> length (serialize_value e.2) < length (elements_bytes d).
Proof.
  induction 1 as [e d|e x d _ IH]; unfold elements_bytes in *; cbn [map concat]; rewrite length_app.
  - unfold serialize_element. cbn [length]. rewrite !length_app. lia.
  - lia.
Qed.

(** An array is a document numbered from zero. *)
Definition numbered (i : nat) (vals : list RawValue) : document :=
  imap (fun j v => (Strconv.Itoa (Z.of_nat (i + j)), v)) vals.

Lemma numbered_bytes i vals : array_body i vals = elements_bytes (numbered i vals).
Proof.
  revert i. induction vals as [|v vals IH]; intros i; [done|]. cbn [array_body]. unfold numbered, elements_bytes in *.
  cbn [imap map concat fst snd]. rewrite Nat.add_0_r. f_equal. rewrite IH. do 2 f_equal.
  apply imap_ext. intros j x _. simpl. do 2 f_equal. lia.
Qed.

Lemma numbered_snd i vals : (numbered i vals).*2 = vals.
Proof.
  unfold numbered. revert i. induction vals as [|v vals IH]; intros i; [done|]. cbn [imap fmap list_fmap snd]. f_equal.
  etrans; [|apply (IH (S i))]. f_equal. apply imap_ext. intros j x _. simpl. do 2 f_equal. lia.
Qed.

Lemma numbered_elem i vals e : e ∈ numbered i vals -> chr 0 ∉ e.1 /\ e.2 ∈ vals.
Proof.
  unfold numbered. intros (j & Hj)%list_elem_of_lookup. rewrite list_lookup_imap in Hj.
  destruct (vals !! j) as [v|] eqn:Ev; [|done]. injection Hj as <-. simpl. split; [|by eapply list_elem_of_lookup_2].
  intros Hin%Strconv.Itoa_chars; [|lia]. vm_compute in Hin. by destruct Hin.
Qed.

(** One value, given that the nested ones are read. *)
Lemma parse_nested (P : RawValue -> Prop) fuel d rest :
  (forall rv rest, P rv -> length (serialize_value rv) <= fuel -> (Z.of_nat (length (serialize_value rv)) <= MaxInt32)%Z ->
     parse_value fuel (type_byte rv) (serialize_value rv ++ rest) = Some (rv, rest)) ->
  Forall (fun e => chr 0 ∉ e.1 /\ (0 <= type_byte e.2 < 256)%Z /\ P e.2) d ->
  length (frame (elements_bytes d)) <= S fuel -> (Z.of_nat (length (frame (elements_bytes d))) <= MaxInt32)%Z ->
  unframe (frame (elements_bytes d) ++ rest) = Some (elements_bytes d, rest) /\
  parse_elems (parse_value fuel) (length (elements_bytes d)) (elements_bytes d) = Some d.
Proof.
  intros HP Hd Hf Hm. split; [by apply unframe_frame|]. apply parse_elems_bytes; [|apply elements_length].
  rewrite Forall_forall in Hd |- *. intros e He. destruct (Hd e He) as (H1 & H2 & H3). split_and!; [done|lia|lia|].
  intros rest'. rewrite length_frame in *. pose proof (element_fits e d He). apply HP; [done|lia|lia].
Qed.

Lemma parse_serialized fuel rv rest :
  storable rv = true -> length (serialize_value rv) <= fuel ->
  (Z.of_nat (length (serialize_value rv)) <= MaxInt32)%Z ->
  parse_value fuel (type_byte rv) (serialize_value rv ++ rest) = Some (rv, rest).
Proof.
  revert rv rest. induction fuel as [|fuel IH]; intros rv rest Hs Hl Hm.
  { exfalso. destruct rv as [f|s|elems|vals|st data|b|ms|i|i| | |t]; try done; rewrite ?serialize_array in Hl;
      cbn [serialize_value] in Hl; rewrite ?length_frame, ?length_app, ?length_le_bytes in Hl; simpl in Hl; lia. }
  pose proof (parse_nested (fun rv => storable rv = true) fuel) as Hnest. specialize (fun d rest => Hnest d rest IH).
  destruct rv as [f|s|elems|vals|st data|b|ms|i|i| | |t]; cbn [type_byte]; simpl in Hs; try done.
  - cbn [parse_value serialize_value]. change (TypeDouble =? TypeDouble)%Z with true. cbv iota beta zeta.
    rewrite take_le. cbn [mbind option_bind]. rewrite le_value_mod, Z.mod_small; [done|].
    change (256 ^ Z.of_nat 8)%Z with (2 ^ 64)%Z. lia.
  - cbn [serialize_value] in *. rewrite !length_app, length_le_bytes in Hm. cbn [length] in Hm.
    cbn [parse_value]. change (TypeString =? TypeString)%Z with true.
    cbn -[take_n le_bytes take drop length chr le_value]. rewrite <- app_assoc, take_le. cbn [mbind option_bind].
    rewrite le_value_bytes by (change (256 ^ Z.of_nat 4)%Z with 4294967296%Z; unfold MaxInt32 in Hm; lia).
    replace (Z.to_nat (Z.of_nat (length s) + 1)) with (length (s ++ [chr 0])) by (rewrite length_app; simpl; lia).
    rewrite take_n_app. cbn [mbind option_bind]. rewrite length_app. cbn [length]. rewrite Nat.add_sub.
    rewrite drop_app_length, take_app_length. by rewrite decide_True.
  - change (serialize_value (RDocument elems)) with (frame (elements_bytes elems)) in *. apply forallb_Forall_true in Hs.
    destruct (Hnest elems rest) as [Hu Hp]; [|done|done|].
    { eapply Forall_impl; [exact Hs|]. intros e [He1 He2]%andb_true_iff.
      rewrite negb_true_iff, bool_decide_eq_false in He1. split_and!; [done|by apply type_byte_range..|done]. }
    cbn [parse_value]. change (TypeEmbeddedDocument =? TypeEmbeddedDocument)%Z with true.
    cbn -[unframe parse_elems parse_value frame elements_bytes]. rewrite Hu. cbn [mbind option_bind]. by rewrite Hp.
  - rewrite serialize_array, numbered_bytes in *. apply forallb_Forall_true in Hs. rewrite Forall_forall in Hs.
    destruct (Hnest (numbered 0 vals) rest) as [Hu Hp]; [|done|done|].
    { apply Forall_forall. intros e [Hk He%Hs]%numbered_elem.
      split_and!; [done|by apply type_byte_range..|done]. }
    cbn [parse_value]. change (TypeArray =? TypeArray)%Z with true.
    cbn -[unframe parse_elems parse_value frame numbered elements_bytes]. rewrite Hu. cbn [mbind option_bind]. rewrite Hp.
    cbn [mbind option_bind]. by rewrite numbered_snd.
  - cbn [serialize_value] in *. rewrite !length_app, length_le_bytes in Hm. cbn [length] in Hm.
    cbn [parse_value]. change (TypeBinary =? TypeBinary)%Z with true.
    cbn -[take_n le_bytes chr le_value byte_val]. rewrite <- app_assoc, take_le. cbn [mbind option_bind app].
    rewrite !andb_true_iff, negb_true_iff, Z.leb_le, Z.ltb_lt in Hs. destruct Hs as [Hst H2].
    rewrite byte_val_chr by lia. rewrite H2.
    rewrite le_value_bytes by (change (256 ^ Z.of_nat 4)%Z with 4294967296%Z; unfold MaxInt32 in Hm; lia).
    by rewrite Nat2Z.id, take_n_app.
  - by destruct b.
  - rewrite andb_true_iff, !Z.leb_le in Hs. cbn [parse_value serialize_value].
    change (TypeDateTime =? TypeDateTime)%Z with true. cbn -[take_n le_bytes le_value wrap]. rewrite take_le.
    cbn [mbind option_bind]. by rewrite le_signed64.
  - rewrite andb_true_iff, !Z.leb_le in Hs. cbn [parse_value serialize_value].
    change (TypeInt32 =? TypeInt32)%Z with true. cbn -[take_n le_bytes le_value wrap]. rewrite take_le.
    cbn [mbind option_bind]. by rewrite le_signed32.
  - rewrite andb_true_iff, !Z.leb_le in Hs. cbn [parse_value serialize_value].
    change (TypeInt64 =? TypeInt64)%Z with true. cbn -[take_n le_bytes le_value wrap]. rewrite take_le.
    cbn [mbind option_bind]. by rewrite le_signed64.
Qed.

Definition format_driver : BSONDriver := {| parse_document := parse_bson |}.

Lemma format_driver_reads d :
  storable_document d = true -> (Z.of_nat (length (serialize d)) <= MaxInt32)%Z -> parse_bson (serialize d) = Some d.
Proof.
  intros Hs Hm. unfold parse_bson, serialize in *. fold (elements_bytes d) in *.
  pose proof (unframe_frame (elements_bytes d) [] Hm) as Hu. rewrite app_nil_r in Hu. rewrite Hu. cbn [mbind option_bind].
  unfold storable_document in Hs. simpl in Hs. apply forallb_Forall_true in Hs.
  destruct (parse_nested (fun rv => storable rv = true) (length (frame (elements_bytes d))) d []) as [_ Hp];
    [| |lia|done|exact Hp].
  - intros rv rest. apply parse_serialized.
  - eapply Forall_impl; [exact Hs|]. intros e [He1 He2]%andb_true_iff.
    rewrite negb_true_iff, bool_decide_eq_false in He1. split_and!; [done|by apply type_byte_range..|done].
Qed.

#[export] Instance format_reader : @BSONReader format_driver := { reads_format := format_driver_reads }.

(** ** Round trip *)

(** Values of the Go types: an [int32] is a 32-bit integer, and so on. *)
Definition machine_scalar (s : Scalar) : Prop :=
  match s with
  | SDouble f => Float64.wf f
  | SInteger i => in_int32 i
  | SLong i => in_int64 i
  | _ => True
  end.
Definition machine_plain (v : Value) : Prop :=
  match v with
  | VScalar s => machine_scalar s
  | VSlice a => Forall machine_scalar (slice_elems a)
  | VObject _ => True
  end.
Definition machine_value (v : Value) : Prop :=
  match v with VObject o => map_Forall (fun _ x => machine_plain x) o | _ => machine_plain v end.

Lemma scalar_storable s : machine_scalar s -> encodable_scalar s -> storable (raw_scalar s) = true.
Proof.
  destruct s; simpl; intros Hm He; try done; rewrite ?andb_true_iff, ?Z.leb_le, ?Z.ltb_lt; try done.
  unfold UnixMilli, MinDateTime, MaxDateTime, millis, minDateTimeMillis, maxDateTimeMillis, int64_min, int64_max in *.
  split; [apply Z.div_le_lower_bound|apply Z.div_le_upper_bound]; lia.
Qed.

Lemma plain_storable v : machine_plain v -> encodable_plain v -> storable (raw_plain v) = true.
Proof.
  destruct v as [s|a|o]; simpl; [apply scalar_storable| |done].
  intros Hm (_ & He & _). apply forallb_Forall_true, Forall_forall. intros rv (s & -> & Hs)%list_elem_of_fmap.
  rewrite Forall_forall in Hm, He. apply scalar_storable; auto.
Qed.

Lemma envelope_storable v ts :
  machine_value v -> encodable v -> (forall t, ts = Some t -> (MinDateTime <= t <= MaxDateTime)%Z) ->
  storable_document (envelope v ts) = true.
Proof.
  intros Hm He Ht. unfold storable_document, envelope. cbn [storable]. apply forallb_Forall_true.
  constructor; [|destruct ts as [t|]; [|constructor]; constructor; [|constructor]]; cbn [fst snd];
    (apply andb_true_iff; split; [done|]).
  2: { apply (scalar_storable (STime t)); [done|]. by apply Ht. }
  destruct v as [s|a|o]; [by apply (plain_storable (VScalar s))|by apply (plain_storable (VSlice a))|].
  destruct He as (_ & Hk & _). cbn [raw_value storable]. apply forallb_Forall_true, Forall_forall.
  intros [k rv] (k' & Hin & He)%list_elem_of_omap. rewrite Forall_forall in Hk.
  destruct (Hk _ Hin) as (_ & Hz & x & Hx & Hex). rewrite Hx in He. injection He as <- <-. cbn [fst snd].
  apply andb_true_iff. split; [by rewrite bool_decide_eq_false_2|]. apply plain_storable; [|done]. by apply (Hm k').
Qed.

(** C32. What the BSON encoder writes for a value of the Go types, any driver that
    reads the BSON format gives back to the decoder, which answers with the
    timestamp and the value: an individual value under every type it is valid
    for, an object under all leaves it is valid for. *)
Theorem bson_round_trip `{BSONReader} v ts bs :
  machine_value v -> encodeBSON v ts = Ok bs -> (forall t, ts = Some t -> truncate_millis t = t) ->
  exists rv, decodeBSONEnvelope bs = Ok (rv, ts) /\
    (forall vt, valid_value vt v -> decodeBSONValue rv vt = Ok v) /\
    (forall o leaves, v = VObject o -> valid_object leaves o -> decodeBSONObject rv leaves = Ok v).
Proof.
  intros Hm Henc Htr. destruct (proj1 (encodeBSON_spec _ _ _) Henc) as (He & Hw & Hsz & ->). exists (raw_value v).
  apply (bson_document_decodes v ts); [done|done|]. by apply reads_format; [apply envelope_storable|].
Qed.

Definition sample_object : Value :=
  VObject {["name"%go := VScalar (SString "a"%go); "xs"%go := VSlice (AInteger [1; -2]%Z)]}.

Lemma bson_round_trip_witness :
  exists bs rv, encodeBSON sample_object (Some 0%Z) = Ok bs /\ @decodeBSONEnvelope format_driver bs = Ok (rv, Some 0%Z) /\
    parse_bson bs = Some (envelope sample_object (Some 0%Z)).
Proof.
  destruct (encodeBSON sample_object (Some 0%Z)) as [bs|] eqn:E; [|vm_compute in E; discriminate E].
  destruct (@bson_round_trip format_driver format_reader sample_object (Some 0%Z) bs) as (rv & Hrv & _).
  - repeat apply map_Forall_insert_2; [exact I|..|apply map_Forall_empty].
    repeat constructor; vm_compute; discriminate.
  - exact E.
  - intros t [= <-]. reflexivity.
  - exists bs, rv. split; [reflexivity|]. split; [exact Hrv|]. vm_compute in E. injection E as <-. vm_compute. reflexivity.
Defined.
End BsonReader.
