(* ===== verification/PayloadJson.v ===== *)
(** * The JSON payload profile ([src/pkg/payload/json.go])

    A [json.RawMessage] is the text of one JSON value; the model keeps it as
    the token tree [jtoken] (a number keeps its literal text), so the tests
    the source makes on the first byte or by unmarshalling into a Go type are
    case analyses on the token. The text layer below the profile, the JSON
    scanner, the decimal conversions of floats, RFC 3339 and padded base64,
    belongs to Go's standard library and is the parameter [JSONText]. *)

From S2P Require Import Prelude GoStrings SchemaTypes Endpoints InterfaceParse EndpointTrie Float64 PayloadValue PayloadBson.

Module Json.
Import Schema Payload Trie.

Inductive jtoken :=
| JNull
| JBool (b : bool)
| JNum (text : gostring)
| JStr (s : gostring)
| JArr (elems : list jtoken)
| JObj (members : gmap gostring jtoken).

Class JSONText := {
  (** [json.Unmarshal] into the envelope: its [v] and [t] members. *)
  parse_envelope : gostring -> option (option jtoken * option jtoken);
  ParseFloat : gostring -> option Z;
  FormatFloat : Z -> gostring;
  ParseRFC3339 : gostring -> option Z;
  FormatRFC3339 : Z -> gostring;
  DecodeBase64 : gostring -> option gostring;
  EncodeBase64 : gostring -> gostring;
}.

Definition maxSafeJSONInt : Z := 2 ^ 53.

Section Profile.
Context `{JSONText}.

(** ** Decoding *)

Definition jsonNumber (raw : jtoken) : result payload_error gostring :=
  match raw with
  | JNum text => Ok text
  | _ => Err (Reject ReasonTypeMismatch)
  end.

Definition jsonInt64 (num : gostring) : result payload_error Z :=
  match Strconv.ParseInt num with
  | Ok i => Ok i
  | Err Strconv.ErrRange => Err (Reject ReasonTypeMismatch)
  | Err _ =>
      match ParseFloat num with
      | None => Err (Reject ReasonTypeMismatch)
      | Some f =>
          if not_integral f || out_of_range f (- maxSafeJSONInt + 1) (maxSafeJSONInt - 1)
          then Err (Reject ReasonTypeMismatch)
          else Ok (Float64.trunc f)
      end
  end.

Definition decodeJSONDateTime (raw : jtoken) : result payload_error Z :=
  match raw with
  | JNull => Err (Reject ReasonTypeMismatch)
  | JStr s =>
      let? ts := or_err (ParseRFC3339 s) (Reject ReasonTypeMismatch) in
      checkDateTime ts
  | _ =>
      let? num := jsonNumber raw in
      let? ms := jsonInt64 num in
      dateTimeFromMillis ms
  end.

(** [parseJSONTimestamp]: every failure becomes a timestamp failure. *)
Definition parseJSONTimestamp (raw : jtoken) : result payload_error Z :=
  mapErr (fun e => match e with Reject _ => Reject ReasonBadTimestamp | e => e end)
    (decodeJSONDateTime raw).

Definition decodeJSONEnvelope (p : gostring) : result payload_error (jtoken * option Z) :=
  let? (v, t) := or_err (parse_envelope p) (Reject ReasonMalformed) in
  let? v := or_err v (Reject ReasonNoValue) in
  match t with
  | None => Ok (v, None)
  | Some t =>
      let? ts := parseJSONTimestamp t in
      Ok (v, Some ts)
  end.

Definition decode_token (raw : jtoken) (vt : ValueType) : result payload_error Scalar :=
  match raw with
  | JNull => Err (Reject ReasonTypeMismatch)
  | _ =>
      match vt with
      | Double =>
          let? num := jsonNumber raw in
          let? f := or_err (ParseFloat num) (Reject ReasonTypeMismatch) in
          mapR SDouble (checkDouble f)
      | Integer =>
          let? num := jsonNumber raw in
          let? i := jsonInt64 num in
          mapR SInteger (int32FromInt64 i)
      | LongInteger =>
          match raw with
          | JStr s =>
              match Strconv.ParseInt s with
              | Ok i => Ok (SLong i)
              | Err _ => Err (Reject ReasonTypeMismatch)
              end
          | _ =>
              let? num := jsonNumber raw in
              mapR SLong (jsonInt64 num)
          end
      | Boolean => match raw with JBool b => Ok (SBool b) | _ => Err (Reject ReasonTypeMismatch) end
      | StringT =>
          match raw with
          | JStr s => mapR SString (checkString s)
          | _ => Err (Reject ReasonTypeMismatch)
          end
      | BinaryBlob =>
          match raw with
          | JStr s =>
              let? data := or_err (DecodeBase64 s) (Reject ReasonTypeMismatch) in
              Ok (SBlob data)
          | _ => Err (Reject ReasonTypeMismatch)
          end
      | DateTime => mapR STime (decodeJSONDateTime raw)
      | _ => Err (Reject ReasonTypeMismatch)
      end
  end.

Definition decodeJSONValue (raw : jtoken) (vt : ValueType) : result payload_error Value :=
  match raw with
  | JNull => Err (Reject ReasonTypeMismatch)
  | _ =>
      if IsArray vt then
        match raw with
        | JArr elems => mapR VSlice (decodeArray vt elems (fun r => decode_token r (Elem vt)))
        | _ => Err (Reject ReasonTypeMismatch)
        end
      else mapR VScalar (decode_token raw vt)
  end.

(** The member loop of [decodeJSONObject], in some order of the map. *)
Fixpoint decode_members (ms : list (gostring * jtoken)) (leaves : gmap gostring CompiledMapping)
    (out : gmap gostring Value) : result payload_error (gmap gostring Value) :=
  match ms with
  | [] => Ok out
  | (key, eraw) :: ms =>
      let? leaf := or_err (leaves !! key) (Reject ReasonBadObject) in
      let? val := decodeJSONValue eraw (cValueType leaf) in
      decode_members ms leaves (<[key := val]> out)
  end.

Definition decodeJSONObject (raw : jtoken) (leaves : gmap gostring CompiledMapping)
    : result payload_error Value :=
  match raw with
  | JObj obj =>
      if (size obj =? 0)%nat then Err (Reject ReasonBadObject)
      else mapR VObject (decode_members (map_to_list obj) leaves ∅)
  | _ => Err (Reject ReasonBadObject)
  end.

(** ** Encoding *)

Definition jsonifyInt64 (x : Z) : jtoken :=
  if (maxSafeJSONInt <? x)%Z || (x <? - maxSafeJSONInt)%Z then JStr (Strconv.Itoa x)
  else JNum (Strconv.Itoa x).

Definition jsonify_scalar (s : Scalar) : result payload_error jtoken :=
  match s with
  | SDouble f => let? _ := checkDouble f in Ok (JNum (FormatFloat f))
  | SInteger i => Ok (JNum (Strconv.Itoa i))
  | SLong i => Ok (jsonifyInt64 i)
  | SBool b => Ok (JBool b)
  | SString x => let? _ := checkString x in Ok (JStr x)
  | SBlob x => Ok (JStr (EncodeBase64 x))
  | STime x => let? t := checkDateTime x in Ok (JStr (FormatRFC3339 t))
  end.

Fixpoint jsonify_elems (xs : list Scalar) : result payload_error (list jtoken) :=
  match xs with
  | [] => Ok []
  | x :: xs =>
      let? j := jsonify_scalar x in
      let? js := jsonify_elems xs in
      Ok (j :: js)
  end.

Definition jsonifySlice (a : Slice) : result payload_error jtoken :=
  if (MaxArrayLen <? length (slice_elems a))%nat then Err (Reject ReasonValueTooLarge)
  else mapR JArr (jsonify_elems (slice_elems a)).

Fixpoint jsonify_members (ms : list (gostring * Value)) (out : gmap gostring jtoken)
    : result payload_error (gmap gostring jtoken) :=
  match ms with
  | [] => Ok out
  | (k, e) :: ms =>
      let? jv :=
        match e with
        | VObject _ => Err (Reject ReasonBadObject)
        | VScalar s => jsonify_scalar s
        | VSlice a => jsonifySlice a
        end in
      jsonify_members ms (<[k := jv]> out)
  end.

Definition jsonifyValue (v : Value) : result payload_error jtoken :=
  match v with
  | VScalar s => jsonify_scalar s
  | VSlice a => jsonifySlice a
  | VObject o =>
      if (size o =? 0)%nat then Err (Reject ReasonBadObject)
      else mapR JObj (jsonify_members (map_to_list o) ∅)
  end.

(** [encodeJSON] up to the writing of the text: the envelope's members. *)
Definition encodeJSON (v : Value) (ts : option Z) : result payload_error (jtoken * option jtoken) :=
  let? jv := jsonifyValue v in
  match ts with
  | None => Ok (jv, None)
  | Some ts =>
      let? t := checkDateTime ts in
      Ok (jv, Some (JStr (FormatRFC3339 t)))
  end.

(** ** Decoded values are valid *)

Lemma jsonInt64_range num i : jsonInt64 num = Ok i -> in_int64 i.
Proof.
  unfold jsonInt64. destruct (Strconv.ParseInt num) as [j|e] eqn:E.
  - intros [= <-]. by eapply Strconv.ParseInt_range.
  - assert (forall j, match ParseFloat num with
      | None => Err (Reject ReasonTypeMismatch)
      | Some f => if not_integral f || out_of_range f (- maxSafeJSONInt + 1) (maxSafeJSONInt - 1)
                  then Err (Reject ReasonTypeMismatch) else Ok (Float64.trunc f)
      end = Ok j -> in_int64 j) as Hf.
    { intros j. destruct (ParseFloat num) as [f|]; [|done].
      intros (_ & _ & -> & Hr)%float_to_int_Ok.
      unfold maxSafeJSONInt, in_int64, int64_min, int64_max in *. lia. }
    destruct e; [apply Hf|done].
Qed.

Lemma decodeJSONDateTime_valid raw t :
  decodeJSONDateTime raw = Ok t -> valid_scalar DateTime (STime t).
Proof.
  assert (forall r, (let? num := jsonNumber r in let? ms := jsonInt64 num in dateTimeFromMillis ms) = Ok t ->
    valid_scalar DateTime (STime t)) as Hnum.
  { intros r (num & _ & Hx)%bindR_Ok. apply bindR_Ok in Hx as (ms & _ & Hx).
    by eapply dateTimeFromMillis_valid. }
  destruct raw; simpl; try done; try (apply Hnum).
  - apply (Hnum (JNum text)).
  - intros (ts & _ & Hx)%bindR_Ok. by eapply checkDateTime_valid.
Qed.

Lemma decode_token_valid raw vt s : decode_token raw vt = Ok s -> valid_scalar vt s.
Proof.
  unfold decode_token. intros Hx.
  assert (raw <> JNull /\ match vt with
      | Double =>
          (let? num := jsonNumber raw in
           let? f := or_err (ParseFloat num) (Reject ReasonTypeMismatch) in
           mapR SDouble (checkDouble f)) = Ok s
      | Integer =>
          (let? num := jsonNumber raw in
           let? i := jsonInt64 num in
           mapR SInteger (int32FromInt64 i)) = Ok s
      | LongInteger =>
          (exists str i, raw = JStr str /\ Strconv.ParseInt str = Ok i /\ s = SLong i) \/
          (exists num i, jsonNumber raw = Ok num /\ jsonInt64 num = Ok i /\ s = SLong i)
      | Boolean => exists b, s = SBool b
      | StringT => exists str, mapR SString (checkString str) = Ok s
      | BinaryBlob => exists data, s = SBlob data
      | DateTime => mapR STime (decodeJSONDateTime raw) = Ok s
      | _ => False
      end) as [_ Hc].
  { destruct raw as [|b|text|str|elems|members]; [done|..]; (split; [done|]); destruct vt; try done;
      try (by exists b; simplify_eq); try (by exists str).
    - right. apply Bson.mapR_Ok in Hx as (i & Hi & ->). by exists text, i.
    - destruct (Strconv.ParseInt str) as [i|] eqn:E; [|done]. simplify_eq. left. by exists str, i.
    - apply bindR_Ok in Hx as (data & _ & [= <-]). by exists data. }
  clear Hx. destruct vt; try done.
  - apply bindR_Ok in Hc as (num & _ & Hc). apply bindR_Ok in Hc as (f & _ & Hc).
    apply Bson.mapR_Ok in Hc as (g & [-> Hg]%checkDouble_Ok & ->). done.
  - apply bindR_Ok in Hc as (num & _ & Hc). apply bindR_Ok in Hc as (i & _ & Hc).
    apply Bson.mapR_Ok in Hc as (g & [-> Hg]%int32FromInt64_Ok & ->). done.
  - by destruct Hc as [b ->].
  - destruct Hc as [(str & i & _ & Hi & ->)|(num & i & _ & Hi & ->)]; simpl;
      [by eapply Strconv.ParseInt_range|by eapply jsonInt64_range].
  - destruct Hc as [str (g & [-> Hg]%checkString_Ok & ->)%Bson.mapR_Ok]. done.
  - by destruct Hc as [data ->].
  - apply Bson.mapR_Ok in Hc as (t & Ht & ->). by eapply decodeJSONDateTime_valid.
Qed.

Lemma decodeJSONValue_valid raw vt v : decodeJSONValue raw vt = Ok v -> valid_value vt v.
Proof.
  intros Hx.
  assert ((IsArray vt = true /\ exists elems,
             mapR VSlice (decodeArray vt elems (fun r => decode_token r (Elem vt))) = Ok v) \/
          (IsArray vt = false /\ mapR VScalar (decode_token raw vt) = Ok v)) as Hc.
  { unfold decodeJSONValue in Hx. destruct (IsArray vt) eqn:Ha; destruct raw; try done; eauto. }
  destruct Hc as [[Ha (elems & (a & Hd & ->)%Bson.mapR_Ok)]|[Ha (s & Hs & ->)%Bson.mapR_Ok]]; simpl.
  - eapply (decodeArray_valid vt (fun r => decode_token r (Elem vt)) elems Ha); [|exact Hd].
    intros r s _. apply decode_token_valid.
  - split; [done|]. by eapply decode_token_valid.
Qed.

Lemma decode_members_valid ms leaves out o :
  Bson.valid_object leaves out -> decode_members ms leaves out = Ok o -> Bson.valid_object leaves o.
Proof.
  revert out. induction ms as [|[key raw] ms IH]; intros out Hout; simpl; [by intros [= <-]|].
  intros (leaf & Hleaf%or_err_Ok & Hx)%bindR_Ok. apply bindR_Ok in Hx as (val & Hval & Hx).
  apply decodeJSONValue_valid in Hval. eapply IH; [|exact Hx].
  apply map_Forall_insert_2; [eauto|done].
Qed.

Lemma decode_members_keys ms leaves out o :
  decode_members ms leaves out = Ok o ->
  forall k, is_Some (o !! k) <-> is_Some (out !! k) \/ k ∈ ms.*1.
Proof.
  revert out. induction ms as [|[key raw] ms IH]; intros out; simpl.
  { intros [= <-] k. set_solver. }
  intros (leaf & _ & Hx)%bindR_Ok k. apply bindR_Ok in Hx as (val & _ & Hx).
  rewrite (IH _ Hx k), elem_of_cons. destruct (decide (k = key)) as [->|Hne].
  - rewrite lookup_insert, decide_True by done. naive_solver.
  - rewrite lookup_insert_ne by done. naive_solver.
Qed.

Lemma decodeJSONObject_valid raw leaves v :
  decodeJSONObject raw leaves = Ok v -> exists o, v = VObject o /\ o <> ∅ /\ Bson.valid_object leaves o.
Proof.
  destruct raw; simpl; try done. destruct (size members =? 0)%nat eqn:E; [done|]. bool_hyps.
  intros (o & Ho & ->)%Bson.mapR_Ok. exists o. split; [done|]. split.
  - intros ->. pose proof (decode_members_keys _ _ _ _ Ho) as Hk.
    assert (members <> ∅) as Hne by (intros ->; by rewrite map_size_empty in E).
    destruct (map_choose members Hne) as (k & j & Hkj).
    destruct (proj2 (Hk k)) as [v Hv]; [|by rewrite lookup_empty in Hv].
    right. apply list_elem_of_fmap. exists (k, j). split; [done|]. by apply elem_of_map_to_list.
  - eapply decode_members_valid; [|exact Ho]. apply map_Forall_empty.
Qed.

(** ** Round trip *)

(** Documented behaviour of the text layer: printing and parsing are inverse
    on finite floats, on instants of millisecond precision within the window,
    and on byte strings. *)
Class JSONTextLaws := {
  float_text f : Float64.finite f = true -> ParseFloat (FormatFloat f) = Some f;
  time_text t : (MinDateTime <= t <= MaxDateTime)%Z -> truncate_millis t = t ->
    ParseRFC3339 (FormatRFC3339 t) = Some t;
  base64_text b : DecodeBase64 (EncodeBase64 b) = Some b;
}.

Context `{!JSONTextLaws}.

Lemma in_int32_int64 i : in_int32 i -> in_int64 i.
Proof. unfold in_int32, in_int64, int32_min, int32_max, int64_min, int64_max. lia. Qed.

Lemma jsonInt64_Itoa i : in_int64 i -> jsonInt64 (Strconv.Itoa i) = Ok i.
Proof. intros Hi. unfold jsonInt64. by rewrite Strconv.ParseInt_Itoa. Qed.

Lemma jsonify_scalar_round_trip vt s :
  valid_scalar vt s -> exists j, jsonify_scalar s = Ok j /\ decode_token j vt = Ok s.
Proof.
  destruct vt, s; simpl; try done.
  - intros Hf. rewrite (proj2 (checkDouble_Ok f f)) by done. simpl. eexists. split; [done|]. simpl.
    rewrite float_text by done. simpl. by rewrite (proj2 (checkDouble_Ok f f)).
  - intros Hi. eexists. split; [done|]. simpl. rewrite jsonInt64_Itoa by (by apply in_int32_int64).
    simpl. by rewrite (proj2 (int32FromInt64_Ok i i)).
  - intros _. eexists. split; done.
  - intros Hi. eexists. split; [done|]. unfold jsonifyInt64.
    destruct (_ || _); simpl; [by rewrite Strconv.ParseInt_Itoa|by rewrite jsonInt64_Itoa].
  - intros Hs. rewrite (proj2 (checkString_Ok s s)) by done. simpl. eexists. split; [done|]. simpl.
    by rewrite (proj2 (checkString_Ok s s)).
  - intros _. eexists. split; [done|]. simpl. by rewrite base64_text.
  - intros [Ht Htr]. assert (checkDateTime ns = Ok ns) as Hc.
    { apply checkDateTime_Ok. by rewrite Htr. }
    rewrite Hc. simpl. eexists. split; [done|]. simpl. rewrite time_text by done. simpl. by rewrite Hc.
Qed.

(** Tokens that decode to the elements of a slice decode to the slice. *)
Abbreviation decodes_to vt := (Forall2 (fun s j => decode_token j vt = Ok s)).

Lemma collect_tokens {T} vt (conv : Scalar -> result payload_error T) (inj : T -> Scalar) xs js :
  (forall x, conv (inj x) = Ok x) -> decodes_to vt (map inj xs) js ->
  collect_elems conv (fun r => decode_token r vt) js = Ok xs.
Proof.
  intros Hc. revert js. induction xs as [|x xs IH]; intros js HF; inversion HF as [|? j ? js' Hj HF']; subst; [done|].
  cbn [collect_elems]. rewrite Hj. cbn [bindR]. rewrite Hc. cbn [bindR]. by rewrite (IH js' HF').
Qed.

Lemma decode_slice_tokens a js :
  (length (slice_elems a) <= MaxArrayLen)%nat ->
  decodes_to (Elem (slice_type a)) (slice_elems a) js ->
  decodeJSONValue (JArr js) (slice_type a) = Ok (VSlice a).
Proof.
  intros Hl HF. pose proof (Forall2_length _ _ _ HF) as Hlen.
  assert (forall T conv (inj : T -> Scalar) xs (mk : list T -> Slice),
    slice_elems a = map inj xs -> a = mk xs -> (forall x, conv (inj x) = Ok x) ->
    IsArray (slice_type a) = true ->
    (forall js, decodeArray (slice_type a) js (fun r => decode_token r (Elem (slice_type a)))
       = mapR mk (collectArray conv js (fun r => decode_token r (Elem (slice_type a))))) ->
    decodeJSONValue (JArr js) (slice_type a) = Ok (VSlice a)) as Hcase.
  { intros T conv inj xs mk He Ha Hc Harr Hd. unfold decodeJSONValue. rewrite Harr, Hd.
    unfold collectArray. rewrite (proj2 (Nat.ltb_ge _ _)) by lia.
    rewrite He in HF. rewrite (collect_tokens _ conv inj xs js Hc HF). simpl. by rewrite Ha. }
  destruct a as [xs|xs|xs|xs|xs|xs|xs].
  + apply (Hcase _ assert_double SDouble xs ADouble); done.
  + apply (Hcase _ assert_int32 SInteger xs AInteger); done.
  + apply (Hcase _ assert_int64 SLong xs ALong); done.
  + apply (Hcase _ assert_bool SBool xs ABool); done.
  + apply (Hcase _ assert_string SString xs AString); done.
  + apply (Hcase _ assert_blob SBlob xs ABlob); done.
  + apply (Hcase _ assert_time STime xs ATime); done.
Qed.

Lemma jsonify_elems_tokens vt ss :
  Forall (valid_scalar vt) ss -> exists js, jsonify_elems ss = Ok js /\ decodes_to vt ss js.
Proof.
  induction 1 as [|s ss Hs _ (js & Hjs & HF)]; [by exists []|].
  destruct (jsonify_scalar_round_trip _ _ Hs) as (j & Hj & Hdj). exists (j :: js).
  cbn [jsonify_elems]. rewrite Hj. cbn [bindR]. rewrite Hjs. split; [done|by constructor].
Qed.

(** Encoding a valid value in the JSON profile succeeds, and decoding the
    result at the same type gives the value back. *)
Lemma jsonify_round_trip vt v :
  valid_value vt v -> exists j, jsonifyValue v = Ok j /\ decodeJSONValue j vt = Ok v.
Proof.
  destruct v as [s|a|o]; simpl; [| |done].
  - intros [Ha Hs]. destruct (jsonify_scalar_round_trip _ _ Hs) as (j & Hj & Hd).
    exists j. split; [done|]. unfold decodeJSONValue. rewrite Ha, Hd. destruct j; done.
  - intros (-> & Hl & HF). unfold jsonifySlice. rewrite (proj2 (Nat.ltb_ge _ _)) by done.
    destruct (jsonify_elems_tokens _ _ HF) as (js & -> & Hd). exists (JArr js). split; [done|].
    by apply decode_slice_tokens.
Qed.

End Profile.

(** A longinteger beyond ±2^53 travels as a decimal string, a smaller one as a
    number; a valid value of any individual type is encodable in the JSON
    profile and decodes to itself. *)
Theorem json_round_trip `{!JSONText, !JSONTextLaws} vt v :
  valid_value vt v ->
  (exists j, jsonifyValue v = Ok j /\ decodeJSONValue j vt = Ok v) /\
  (forall i, v = VScalar (SLong i) ->
     jsonifyValue v = Ok (if decide (- 2 ^ 53 <= i <= 2 ^ 53)%Z then JNum (Strconv.Itoa i)
                          else JStr (Strconv.Itoa i))).
Proof.
  intros Hv. split; [by apply jsonify_round_trip|]. intros i ->. simpl. f_equal.
  unfold jsonifyInt64, maxSafeJSONInt. case_decide as Hi.
  - by rewrite (proj2 (Z.ltb_ge _ _)), (proj2 (Z.ltb_ge _ _)) by lia.
  - destruct (_ || _) eqn:E; [done|]. bool_hyps. lia.
Qed.

(** Whatever the document, an accepted value is a value of the declared type
    within every cap, and an accepted object is non-empty with declared leaves
    only. *)
Theorem json_decode_typed `{!JSONText} raw vt :
  (forall v, decodeJSONValue raw vt = Ok v -> valid_value vt v) /\
  (forall leaves v, decodeJSONObject raw leaves = Ok v ->
     exists o, v = VObject o /\ o <> ∅ /\ Bson.valid_object leaves o).
Proof.
  split; [intros v; apply decodeJSONValue_valid|]. intros leaves v. apply decodeJSONObject_valid.
Qed.

(** *** A text layer in which the laws hold *)

(** Any reversible spelling of integers will do. *)
Fixpoint spell_pos (p : positive) : gostring :=
  match p with
  | xH => []
  | xO p => "0"%char :: spell_pos p
  | xI p => "1"%char :: spell_pos p
  end.
Fixpoint read_pos (s : gostring) : positive :=
  match s with
  | [] => xH
  | c :: s => if decide (c = "0"%char) then xO (read_pos s) else xI (read_pos s)
  end.
Definition spell (z : Z) : gostring :=
  match z with
  | Z0 => "z"%go
  | Zpos p => "+"%char :: spell_pos p
  | Zneg p => "-"%char :: spell_pos p
  end.
Definition read (s : gostring) : option Z :=
  match s with
  | [] => None
  | c :: s =>
      if decide (c = "z"%char) then Some 0%Z
      else if decide (c = "+"%char) then Some (Zpos (read_pos s)) else Some (Zneg (read_pos s))
  end.

Lemma read_spell z : read (spell z) = Some z.
Proof.
  assert (forall p, read_pos (spell_pos p) = p) as Hp.
  { intros p. induction p as [p IH|p IH|]; simpl; [by rewrite IH..|done]. }
  destruct z; simpl; by rewrite ?Hp.
Qed.

Definition toy_text : JSONText := {|
  parse_envelope _ := None;
  ParseFloat := read;
  FormatFloat := spell;
  ParseRFC3339 := read;
  FormatRFC3339 := spell;
  DecodeBase64 s := Some s;
  EncodeBase64 s := s;
|}.

Lemma toy_laws : @JSONTextLaws toy_text.
Proof. split; intros; simpl; [apply read_spell|apply read_spell|done]. Qed.

Lemma json_round_trip_witness :
  exists j, @jsonifyValue toy_text (VScalar (SLong (2 ^ 53 + 1))) = Ok j /\
    @decodeJSONValue toy_text j LongInteger = Ok (VScalar (SLong (2 ^ 53 + 1))).
Proof.
  refine (proj1 (@json_round_trip toy_text toy_laws LongInteger (VScalar (SLong (2 ^ 53 + 1))) _)).
  split; [reflexivity|]. vm_compute. split; discriminate.
Defined.

End Json.
