(* ===== verification/PayloadCodec.v ===== *)
(** * The payload facade ([src/pkg/payload/payload.go])

    The size cap and format sniff in front of both codecs, the
    explicit-timestamp policy, required object keys, and the outbound
    dispatch. [Decoder] is what the engine sees of the package; its law,
    that an accepted payload carries a value of the declared type, is proved
    here for the two codecs. *)

From S2P Require Import Prelude GoStrings SchemaTypes Endpoints InterfaceParse EndpointTrie Float64 PayloadValue PayloadBson PayloadJson.

Module Codec.
Import Schema Payload Trie.

(** [type DecodedPayload struct]; no value is the unset payload. *)
Record DecodedPayload := MkDecoded {
  dValue : option Value;
  dTimestamp : option Z;
  dFormat : Format;
}.
Definition IsUnset (d : DecodedPayload) : bool :=
  match dValue d with None => true | Some _ => false end.

(** ** The contract of a decoder *)

(** What a client may rely on: a value of the declared type (or the unset of
    a mapping that allows it), a timestamp exactly when the mapping asks for
    one, and within the window. *)
Definition individual_ok (m : CompiledMapping) (d : DecodedPayload) : Prop :=
  match dValue d with
  | None => cAllowUnset m = true /\ dTimestamp d = None
  | Some v =>
      valid_value (cValueType m) v /\
      (if cExplicitTimestamp m
       then exists t, dTimestamp d = Some t /\ valid_scalar DateTime (STime t)
       else dTimestamp d = None)
  end.

Definition object_ok (leaves : gmap gostring CompiledMapping) (d : DecodedPayload) : Prop :=
  exists o, dValue d = Some (VObject o) /\ o <> ∅ /\ Bson.valid_object leaves o /\
    map_Forall (fun k leaf => cRequired leaf = true -> is_Some (o !! k)) leaves /\
    (forall t, dTimestamp d = Some t -> valid_scalar DateTime (STime t)).

(** Every failure is a rejection with its reason. *)
Definition rejecting {A} (r : result payload_error A) : Prop :=
  forall e, r = Err e -> exists reason, e = Reject reason.

(** The interface the engine is written against. *)
Class PayloadDecoder := {
  decode_individual : gostring -> option CompiledMapping -> result payload_error DecodedPayload;
  decode_object : gostring -> gmap gostring CompiledMapping -> result payload_error DecodedPayload;
  decode_individual_ok p m d : decode_individual p (Some m) = Ok d -> individual_ok m d;
  decode_object_ok p leaves d : decode_object p leaves = Ok d -> object_ok leaves d;
  decode_individual_rejects p m : rejecting (decode_individual p (Some m));
  decode_object_rejects p leaves : leaves <> ∅ -> rejecting (decode_object p leaves);
}.

Section Facade.
Context `{Hdrv : Bson.BSONDriver, Htext : Json.JSONText}.
(** [Decoder.MaxSize]. *)
Variable MaxSize : Z.

Definition limit : Z := if (0 <? MaxSize)%Z then MaxSize else Z.of_nat DefaultMaxSize.

Definition gate (p : gostring) : result payload_error Format :=
  if (limit <? Z.of_nat (length p))%Z then Err (Reject ReasonTooLarge)
  else match DetectFormat p with
       | FormatInvalid => Err (Reject ReasonUnknownFormat)
       | f => Ok f
       end.

Definition finishDecode (val : Value) (ts : option Z) (f : Format) (explicit : bool)
    : result payload_error DecodedPayload :=
  if explicit && (match ts with None => true | Some _ => false end)
  then Err (Reject ReasonBadTimestamp)
  else Ok (MkDecoded (Some val) (if explicit then ts else None) f).

Definition Individual (p : gostring) (m : option CompiledMapping)
    : result payload_error DecodedPayload :=
  match m with
  | None => Err CallerBug
  | Some m =>
      let? f := gate p in
      match f with
      | FormatEmpty =>
          if negb (cAllowUnset m) then Err (Reject ReasonUnsetNotAllowed)
          else Ok (MkDecoded None None FormatEmpty)
      | FormatBSON =>
          let? (rv, ts) := Bson.decodeBSONEnvelope p in
          let? val := Bson.decodeBSONValue rv (cValueType m) in
          finishDecode val ts f (cExplicitTimestamp m)
      | FormatJSON =>
          let? (raw, ts) := Json.decodeJSONEnvelope p in
          let? val := Json.decodeJSONValue raw (cValueType m) in
          finishDecode val ts f (cExplicitTimestamp m)
      | FormatInvalid => Err CallerBug (* not reached: refused by gate *)
      end
  end.

(** The keys of required leaves the object lacks. *)
Definition missing_required (leaves : gmap gostring CompiledMapping) (o : gmap gostring Value)
    : list gostring :=
  (filter (fun e : gostring * CompiledMapping =>
             cRequired e.2 = true /\ o !! e.1 = None) (map_to_list leaves)).*1.

(** The policy of any leaf; the source ranges over the map and takes the first. *)
Definition objectExplicitTimestamp (leaves : gmap gostring CompiledMapping) : bool :=
  match map_to_list leaves with
  | (_, m) :: _ => cExplicitTimestamp m
  | [] => false
  end.

Definition finish_object (val : Value) (ts : option Z) (f : Format)
    (leaves : gmap gostring CompiledMapping) : result payload_error DecodedPayload :=
  match val with
  | VObject o =>
      if (0 <? length (missing_required leaves o))%nat then Err (Reject ReasonMissingRequired)
      else finishDecode val ts f (objectExplicitTimestamp leaves)
  | _ => finishDecode val ts f (objectExplicitTimestamp leaves)
  end.

Definition Object (p : gostring) (leaves : gmap gostring CompiledMapping)
    : result payload_error DecodedPayload :=
  if (size leaves =? 0)%nat then Err CallerBug
  else
    let? f := gate p in
    match f with
    | FormatEmpty => Err (Reject ReasonUnsetNotAllowed)
    | FormatBSON =>
        let? (rv, ts) := Bson.decodeBSONEnvelope p in
        let? val := Bson.decodeBSONObject rv leaves in
        finish_object val ts f leaves
    | FormatJSON =>
        let? (raw, ts) := Json.decodeJSONEnvelope p in
        let? val := Json.decodeJSONObject raw leaves in
        finish_object val ts f leaves
    | FormatInvalid => Err CallerBug
    end.

(** ** The law holds *)

(** The driver returns machine integers. *)
Definition driver_wf : Prop :=
  forall p d, Bson.parse_document p = Some d -> Bson.wf_elems d /\
    Forall (fun e => forall elems, e.2 = Bson.RDocument elems -> Bson.wf_elems elems) d.

Hypothesis Hwf : driver_wf.

Lemma LookupErr_elem d key rv : Bson.LookupErr d key = Some rv -> exists k, (k, rv) ∈ d.
Proof.
  induction d as [|[k v] d IH]; simpl; [done|]. case_decide.
  - intros [= <-]. exists k. left.
  - intros [k' Hk]%IH. exists k'. by right.
Qed.

Lemma bson_envelope_ok p rv ts :
  Bson.decodeBSONEnvelope p = Ok (rv, ts) ->
  Bson.wf_raw rv /\ (forall elems, rv = Bson.RDocument elems -> Bson.wf_elems elems) /\
  (forall t, ts = Some t -> valid_scalar DateTime (STime t)).
Proof.
  unfold Bson.decodeBSONEnvelope. destruct (_ || _); [done|].
  intros (d & Hd%or_err_Ok & Hx)%bindR_Ok. apply bindR_Ok in Hx as (v & Hv%or_err_Ok & Hx).
  destruct (Hwf _ _ Hd) as [Hw Hdoc]. destruct (LookupErr_elem _ _ _ Hv) as [k Hk].
  unfold Bson.wf_elems in Hw. rewrite Forall_forall in Hw, Hdoc.
  assert (v = rv /\ forall t, ts = Some t -> valid_scalar DateTime (STime t)) as [-> Ht].
  { destruct (Bson.LookupErr d "t"%go) as [[]|]; try done; [|by injection Hx as -> <-].
    apply bindR_Ok in Hx as (t & Ht & [= -> <-]). split; [done|]. intros t' [= <-].
    by eapply dateTimeFromMillis_valid. }
  split; [exact (Hw _ Hk)|]. split; [exact (Hdoc _ Hk)|done].
Qed.

Lemma json_envelope_ok p raw ts :
  Json.decodeJSONEnvelope p = Ok (raw, ts) ->
  forall t, ts = Some t -> valid_scalar DateTime (STime t).
Proof.
  unfold Json.decodeJSONEnvelope. intros ([v t0] & _ & Hx)%bindR_Ok.
  apply bindR_Ok in Hx as (v' & _ & Hx). destruct t0 as [t0|]; [|by injection Hx as _ <-].
  apply bindR_Ok in Hx as (t1 & Ht1 & [= _ <-]). intros t [= <-].
  unfold Json.parseJSONTimestamp in Ht1. apply mapErr_Ok in Ht1. by eapply Json.decodeJSONDateTime_valid.
Qed.

Lemma finishDecode_ok val ts f explicit d :
  finishDecode val ts f explicit = Ok d ->
  dValue d = Some val /\ dFormat d = f /\
  (if explicit then is_Some ts /\ dTimestamp d = ts else dTimestamp d = None).
Proof.
  unfold finishDecode. destruct explicit, ts; simpl; try done; intros [= <-]; simpl; eauto.
Qed.

Lemma Individual_ok p m d : Individual p (Some m) = Ok d -> individual_ok m d.
Proof.
  unfold Individual. intros (f & Hg & Hx)%bindR_Ok.
  assert (forall val ts, valid_value (cValueType m) val ->
    (forall t, ts = Some t -> valid_scalar DateTime (STime t)) ->
    finishDecode val ts f (cExplicitTimestamp m) = Ok d -> individual_ok m d) as Hfin.
  { intros val ts Hv Ht (H1 & _ & H3)%finishDecode_ok. unfold individual_ok. rewrite H1.
    split; [done|]. destruct (cExplicitTimestamp m); [|done].
    destruct H3 as [[t Hts] ->]. exists t. auto. }
  destruct f.
  - done.
  - destruct (cAllowUnset m) eqn:E; simpl in Hx; [|done]. injection Hx as <-. done.
  - apply bindR_Ok in Hx as ([rv ts] & He & Hx). apply bindR_Ok in Hx as (val & Hv & Hx).
    destruct (bson_envelope_ok _ _ _ He) as (Hw & _ & Ht).
    eapply Hfin; [by eapply Bson.decodeBSONValue_valid|exact Ht|exact Hx].
  - apply bindR_Ok in Hx as ([raw ts] & He & Hx). apply bindR_Ok in Hx as (val & Hv & Hx).
    eapply Hfin; [by eapply Json.decodeJSONValue_valid|by eapply json_envelope_ok|exact Hx].
Qed.

Lemma finish_object_ok o ts f leaves d :
  o <> ∅ -> Bson.valid_object leaves o -> (forall t, ts = Some t -> valid_scalar DateTime (STime t)) ->
  finish_object (VObject o) ts f leaves = Ok d -> object_ok leaves d.
Proof.
  intros Hne Hv Ht. unfold finish_object. destruct (_ <? _)%nat eqn:El; [done|]. bool_hyps.
  intros (H1 & _ & H3)%finishDecode_ok. exists o. split; [done|]. split; [done|]. split; [done|]. split.
  - intros k leaf Hk Hr. destruct (o !! k) eqn:E; [done|]. exfalso.
    assert ((k, leaf) ∈ filter (fun e : gostring * CompiledMapping =>
      cRequired e.2 = true /\ o !! e.1 = None) (map_to_list leaves)) as Hin.
    { apply list_elem_of_filter. split; [done|]. by apply elem_of_map_to_list. }
    unfold missing_required in El. rewrite length_fmap in El.
    destruct (filter _ _); [by apply elem_of_nil in Hin|simpl in El; lia].
  - intros t Hd. destruct (objectExplicitTimestamp leaves); [|congruence].
    destruct H3 as [_ H3]. apply Ht. congruence.
Qed.

Lemma Object_ok p leaves d : Object p leaves = Ok d -> object_ok leaves d.
Proof.
  unfold Object. destruct (_ =? _)%nat; [done|]. intros (f & Hg & Hx)%bindR_Ok.
  destruct f; try done.
  - apply bindR_Ok in Hx as ([rv ts] & He & Hx). apply bindR_Ok in Hx as (val & Hv & Hx).
    destruct (bson_envelope_ok _ _ _ He) as (_ & Hdoc & Ht).
    unfold Bson.decodeBSONObject in Hv. destruct rv as [| |elems| | | | | | | | |]; try done.
    destruct (_ =? _)%nat eqn:El; [done|]. bool_hyps. apply Bson.mapR_Ok in Hv as (o & Ho & ->).
    apply Bson.decode_elems_valid in Ho as [Hvo Hs]; [|by apply Hdoc|apply map_Forall_empty].
    eapply finish_object_ok; [|exact Hvo|exact Ht|exact Hx].
    intros ->. rewrite !map_size_empty in Hs. lia.
  - apply bindR_Ok in Hx as ([raw ts] & He & Hx). apply bindR_Ok in Hx as (val & Hv & Hx).
    apply Json.decodeJSONObject_valid in Hv as (o & -> & Hne & Hvo).
    eapply finish_object_ok; [done|exact Hvo|by eapply json_envelope_ok|exact Hx].
Qed.

(** ** Every failure on a payload is a rejection *)

Lemma rejecting_bind {A B} (r : result payload_error A) (k : A -> result payload_error B) :
  rejecting r -> (forall a, r = Ok a -> rejecting (k a)) -> rejecting (bindR r k).
Proof. intros Hr Hk e [Hx|(a & Ha & Hx)]%bindR_Err; [by apply Hr|by eapply Hk]. Qed.
Lemma rejecting_mapR {A B} (f : A -> B) (r : result payload_error A) :
  rejecting r -> rejecting (mapR f r).
Proof. intros Hr. by apply rejecting_bind. Qed.
Lemma rejecting_or_err {A} (o : option A) reason : rejecting (or_err o (Reject reason)).
Proof. intros e. destruct o; [done|]. intros [= <-]. eauto. Qed.
Lemma rejecting_reject {A} reason : rejecting (A := A) (Err (Reject reason)).
Proof. intros e [= <-]. eauto. Qed.
Lemma rejecting_Ok {A} (a : A) : rejecting (Ok a).
Proof. done. Qed.

Ltac rejects :=
  repeat first
    [ apply rejecting_Ok | apply rejecting_reject | apply rejecting_or_err
    | apply rejecting_mapR | apply rejecting_bind; [|intros ? _]
    | match goal with
      | |- rejecting (if ?b then _ else _) => destruct b
      | |- rejecting (match ?x with _ => _ end) => destruct x
      end ].

Lemma checkDouble_rejects f : rejecting (checkDouble f).
Proof. unfold checkDouble. rejects. Qed.
Lemma doubleFromInt64_rejects i : rejecting (doubleFromInt64 i).
Proof. unfold doubleFromInt64. cbv zeta. rejects. Qed.
Lemma int32FromInt64_rejects i : rejecting (int32FromInt64 i).
Proof. unfold int32FromInt64. rejects. Qed.
Lemma int32FromFloat64_rejects f : rejecting (int32FromFloat64 f).
Proof. unfold int32FromFloat64. rejects. Qed.
Lemma checkString_rejects x : rejecting (checkString x).
Proof. unfold checkString. rejects. Qed.
Lemma dateTimeFromMillis_rejects ms : rejecting (dateTimeFromMillis ms).
Proof. unfold dateTimeFromMillis. rejects. Qed.
Lemma checkDateTime_rejects ms : rejecting (checkDateTime ms).
Proof. unfold checkDateTime. rejects. Qed.

#[local] Hint Resolve checkDouble_rejects doubleFromInt64_rejects int32FromInt64_rejects
  int32FromFloat64_rejects checkString_rejects dateTimeFromMillis_rejects checkDateTime_rejects : astrate.

Lemma bson_scalar_rejects rv vt : rejecting (Bson.decode_scalar rv vt).
Proof.
  destruct vt; try (by destruct rv; apply rejecting_reject); destruct rv; simpl; rejects; auto with astrate.
Qed.

Lemma bson_value_rejects rv vt : Bson.wf_raw rv -> rejecting (Bson.decodeBSONValue rv vt).
Proof.
  intros Hw. unfold Bson.decodeBSONValue. destruct (IsArray vt) eqn:Ha.
  - destruct rv; try apply rejecting_reject. apply rejecting_mapR. intros e He.
    apply (decodeArray_valid vt (fun r => Bson.decode_scalar r (Elem vt)) vals Ha) in He
      as [->|(r & _ & Hr)]; [eauto|by apply bson_scalar_rejects in Hr|].
    intros r x Hr. apply Bson.decode_scalar_valid. simpl in Hw. rewrite Forall_forall in Hw. by apply Hw.
  - apply rejecting_mapR, bson_scalar_rejects.
Qed.

Lemma jsonInt64_rejects num : rejecting (Json.jsonInt64 num).
Proof. unfold Json.jsonInt64. rejects. Qed.
Lemma jsonNumber_rejects raw : rejecting (Json.jsonNumber raw).
Proof. unfold Json.jsonNumber. rejects. Qed.
#[local] Hint Resolve jsonInt64_rejects jsonNumber_rejects : astrate.

Lemma json_datetime_rejects raw : rejecting (Json.decodeJSONDateTime raw).
Proof. unfold Json.decodeJSONDateTime. destruct raw; rejects; auto with astrate. Qed.
#[local] Hint Resolve json_datetime_rejects : astrate.

Lemma json_token_rejects raw vt : rejecting (Json.decode_token raw vt).
Proof.
  unfold Json.decode_token. destruct raw; [apply rejecting_reject|..];
    destruct vt; rejects; auto with astrate.
Qed.

Lemma json_value_rejects raw vt : rejecting (Json.decodeJSONValue raw vt).
Proof.
  unfold Json.decodeJSONValue. destruct raw; [apply rejecting_reject|..]; destruct (IsArray vt) eqn:Ha;
    try apply rejecting_reject; try (apply rejecting_mapR, json_token_rejects).
  apply rejecting_mapR. intros e He.
  apply (decodeArray_valid vt (fun r => Json.decode_token r (Elem vt)) elems Ha) in He
    as [->|(r & _ & Hr)]; [eauto|by apply json_token_rejects in Hr|].
  intros r x _. apply Json.decode_token_valid.
Qed.

Lemma gate_rejects p : rejecting (gate p).
Proof. unfold gate. rejects. Qed.
Lemma gate_Ok p f : gate p = Ok f -> (Z.of_nat (length p) <= limit)%Z /\ f = DetectFormat p /\ f <> FormatInvalid.
Proof.
  unfold gate. destruct (_ <? _)%Z eqn:E; [done|]. bool_hyps.
  destruct (DetectFormat p); try done; intros [= <-]; done.
Qed.

Lemma json_envelope_rejects p : rejecting (Json.decodeJSONEnvelope p).
Proof.
  unfold Json.decodeJSONEnvelope, Json.parseJSONTimestamp. rejects.
  intros e He. destruct (Json.decodeJSONDateTime _) as [|e'] eqn:E; [done|].
  destruct (json_datetime_rejects _ e' E) as [r ->]. injection He as <-. eauto.
Qed.

Lemma bson_envelope_rejects p : rejecting (Bson.decodeBSONEnvelope p).
Proof. unfold Bson.decodeBSONEnvelope. rejects; auto with astrate. Qed.

Lemma finishDecode_rejects val ts f explicit : rejecting (finishDecode val ts f explicit).
Proof. unfold finishDecode. rejects. Qed.

Lemma Individual_rejects p m : rejecting (Individual p (Some m)).
Proof.
  unfold Individual. apply rejecting_bind; [apply gate_rejects|]. intros f (_ & _ & Hf)%gate_Ok.
  destruct f; [done|rejects|..]; (apply rejecting_bind; [first [apply bson_envelope_rejects | apply json_envelope_rejects]|]);
    intros [rv ts] He; (apply rejecting_bind; [|intros; apply finishDecode_rejects]).
  - apply bson_value_rejects. by apply bson_envelope_ok in He as [? _].
  - apply json_value_rejects.
Qed.

Lemma finish_object_rejects val ts f leaves : rejecting (finish_object val ts f leaves).
Proof. unfold finish_object. rejects; apply finishDecode_rejects. Qed.

Lemma decode_elems_rejects elems leaves out :
  Bson.wf_elems elems -> rejecting (Bson.decode_elems elems leaves out).
Proof.
  intros Hw. revert out. induction Hw as [|[key ev] elems Hev Hw IH]; intros out; simpl; [done|].
  apply rejecting_bind; [apply rejecting_or_err|]. intros leaf _.
  destruct (out !! key); [apply rejecting_reject|].
  apply rejecting_bind; [by apply bson_value_rejects|]. intros v _. apply IH.
Qed.

Lemma decode_members_rejects ms leaves out : rejecting (Json.decode_members ms leaves out).
Proof.
  revert out. induction ms as [|[key raw] ms IH]; intros out; simpl; [done|].
  apply rejecting_bind; [apply rejecting_or_err|]. intros leaf _.
  apply rejecting_bind; [apply json_value_rejects|]. intros v _. apply IH.
Qed.

Lemma Object_rejects p leaves : leaves <> ∅ -> rejecting (Object p leaves).
Proof.
  intros Hne. unfold Object. destruct (size leaves =? 0)%nat eqn:Es.
  { bool_hyps. by apply map_size_empty_inv in Es. }
  clear Es.
  apply rejecting_bind; [apply gate_rejects|]. intros f (_ & _ & Hf)%gate_Ok.
  destruct f; [done|rejects|..]; (apply rejecting_bind; [first [apply bson_envelope_rejects | apply json_envelope_rejects]|]);
    intros [rv ts] He; (apply rejecting_bind; [|intros; apply finish_object_rejects]).
  - apply bson_envelope_ok in He as (_ & Hdoc & _). unfold Bson.decodeBSONObject.
    destruct rv; try apply rejecting_reject. destruct (_ =? _)%nat; [apply rejecting_reject|].
    apply rejecting_mapR, decode_elems_rejects. by apply Hdoc.
  - unfold Json.decodeJSONObject. destruct rv; try apply rejecting_reject.
    destruct (_ =? _)%nat; [apply rejecting_reject|]. apply rejecting_mapR, decode_members_rejects.
Qed.

(** The package implements the decoder interface. *)
Definition codec_decoder : PayloadDecoder := {|
  decode_individual := Individual;
  decode_object := Object;
  decode_individual_ok := Individual_ok;
  decode_object_ok := Object_ok;
  decode_individual_rejects := Individual_rejects;
  decode_object_rejects := Object_rejects;
|}.

End Facade.

(** The leaves of one object agree on the explicit-timestamp policy. *)
Definition uniform_timestamp (leaves : gmap gostring CompiledMapping) (explicit : bool) : Prop :=
  map_Forall (fun _ leaf => cExplicitTimestamp leaf = explicit) leaves.

Lemma objectExplicitTimestamp_uniform leaves b :
  leaves <> ∅ -> uniform_timestamp leaves b -> objectExplicitTimestamp leaves = b.
Proof.
  intros Hne Hu. unfold objectExplicitTimestamp. destruct (map_to_list leaves) as [|[k leaf] l] eqn:E.
  - by apply map_to_list_empty_iff in E.
  - apply (Hu k). apply elem_of_map_to_list. rewrite E. left.
Qed.

Lemma Object_gate `{Bson.BSONDriver, Json.JSONText} MaxSize p leaves d :
  Object MaxSize p leaves = Ok d ->
  leaves <> ∅ /\ (Z.of_nat (length p) <= limit MaxSize)%Z /\
  (if objectExplicitTimestamp leaves then is_Some (dTimestamp d) else dTimestamp d = None).
Proof.
  unfold Object. destruct (_ =? _)%nat eqn:Es; [done|]. bool_hyps. intros (f & Hg & Hx)%bindR_Ok.
  split; [by intros ->|]. split; [by apply gate_Ok in Hg as [? _]|].
  assert (forall val ts, finish_object val ts f leaves = Ok d ->
    if objectExplicitTimestamp leaves then is_Some (dTimestamp d) else dTimestamp d = None) as Hfin.
  { intros val ts Hf. assert (finishDecode val ts f (objectExplicitTimestamp leaves) = Ok d) as (_ & _ & Ht)%finishDecode_ok
      by (unfold finish_object in Hf; destruct val; try done; by destruct (_ <? _)%nat).
    destruct (objectExplicitTimestamp leaves); [|done]. destruct Ht as [? ->]. done. }
  destruct f; try done; apply bindR_Ok in Hx as ([? ts] & _ & Hx); apply bindR_Ok in Hx as (val & _ & Hx); by eapply Hfin.
Qed.

(** C5. Whatever bytes a device sends, an accepted payload is within the size
    cap. An individual one carries a value of the declared type, the unset only
    where allowed, and a timestamp exactly when the mapping asks for it; an
    object has only declared leaves with values of their types, every required
    key, and a timestamp exactly when its leaves ask for one. A refused payload
    always has a reject reason, except where the caller gave no leaves. *)
Theorem decoder_contract `{Bson.BSONDriver, Json.JSONText} (MaxSize : Z) :
  driver_wf ->
  (forall p m d, Individual MaxSize p (Some m) = Ok d ->
     (Z.of_nat (length p) <= limit MaxSize)%Z /\ individual_ok m d) /\
  (forall p m e, Individual MaxSize p (Some m) = Err e -> exists reason, ReasonOf e = Some reason) /\
  (forall p leaves d, Object MaxSize p leaves = Ok d ->
     (Z.of_nat (length p) <= limit MaxSize)%Z /\ object_ok leaves d /\
     forall explicit, uniform_timestamp leaves explicit ->
       if explicit then exists t, dTimestamp d = Some t /\ valid_scalar DateTime (STime t) else dTimestamp d = None) /\
  (forall p leaves e, leaves <> ∅ -> Object MaxSize p leaves = Err e -> exists reason, ReasonOf e = Some reason).
Proof.
  intros Hwf. split_and!.
  - intros p m d Hd. split; [|by eapply Individual_ok].
    unfold Individual in Hd. apply bindR_Ok in Hd as (f & Hg & _). by apply gate_Ok in Hg as [? _].
  - intros p m e He. apply (Individual_rejects MaxSize Hwf) in He as [reason ->]. by exists reason.
  - intros p leaves d Hd. destruct (Object_gate _ _ _ _ Hd) as (Hne & Hl & Ht). apply (Object_ok _ Hwf) in Hd.
    split_and!; [done|done|]. intros b Hu. rewrite (objectExplicitTimestamp_uniform _ _ Hne Hu) in Ht.
    destruct b; [|done]. destruct Ht as [t Ht]. destruct Hd as (_ & _ & _ & _ & _ & Hv). eauto.
  - intros p leaves e Hne He. apply (Object_rejects MaxSize Hwf _ _ Hne) in He as [reason ->]. by exists reason.
Qed.

(** *** A concrete payload *)
Definition sample_mapping : CompiledMapping :=
  MkCompiled 1 Integer 0 RetentionDiscard 0 false false 0 false false.
Definition sample_bytes : gostring :=
  Bson.serialize (Bson.envelope (VScalar (SInteger 42)) None).
Definition sample_driver : Bson.BSONDriver :=
  Bson.one_document_driver sample_bytes (Bson.envelope (VScalar (SInteger 42)) None).

Lemma decoder_contract_witness :
  exists d, @Individual sample_driver Json.toy_text 0 sample_bytes (Some sample_mapping) = Ok d /\
    individual_ok sample_mapping d.
Proof.
  assert (@driver_wf sample_driver) as Hwf.
  { intros p d. simpl. case_decide; [|done]. intros [= <-]. split.
    - repeat constructor; vm_compute; discriminate.
    - repeat constructor. intros elems Hx. discriminate Hx. }
  destruct (@Individual sample_driver Json.toy_text 0 sample_bytes (Some sample_mapping)) as [d|] eqn:E;
    [|vm_compute in E; discriminate E].
  exists d. split; [reflexivity|].
  exact (proj2 (proj1 (@decoder_contract sample_driver Json.toy_text 0 Hwf) _ _ _ E)).
Defined.

End Codec.
