(* ===== verification/Rows.v ===== *)
(** * Operations and their rows ([src/internal/engine/batch.go], second half)

    A validated operation ([PersistOp], declared in
    [src/internal/engine/data.go]) is turned into the row the store writes:
    a typed column for a scalar, the canonical JSON rendering for arrays,
    objects and properties. The rendering is kept as the token tree of
    {!PayloadJson}; what [json.Marshal] does with a float or an instant is
    its parameter [JSONText]. The row types and their check are those of
    [src/internal/store/datastreams.go] and [properties.go]. *)

From S2P Require Import Prelude GoStrings SchemaTypes Endpoints InterfaceParse EndpointTrie Compile Float64 PayloadValue PayloadBson PayloadJson PayloadCodec DeviceID.

Module Rows.
Import Schema Payload Trie Compile Json.

(** ** Operations *)

Inductive OpKind := OpIndividual | OpObject | OpPropertySet | OpPropertyUnset.

#[global] Instance OpKind_eq_dec : EqDecision OpKind.
Proof. solve_decision. Defined.

Definition OpKind_String (k : OpKind) : gostring :=
  match k with
  | OpIndividual => "individual"%go
  | OpObject => "object"%go
  | OpPropertySet => "property_set"%go
  | OpPropertyUnset => "property_unset"%go
  end.

(** [type PersistOp struct]. A nil value is the unset of a property; the
    acknowledgement callback is the identity of the message it releases. *)
Record PersistOp := MkOp {
  Kind : OpKind;
  Realm : gostring;
  RealmID : Z;
  DeviceID : gostring;
  Interface_ : CompiledInterface;
  Mapping_ : option CompiledMapping;
  Path : gostring;
  Value_ : option Value;
  Format_ : Format;
  TS : Z;
  ReceptionTS : Z;
  Tracked : bool;
  PrevExists : bool;
  Prev : option jtoken;
  ack : nat;
  broken : bool;
}.

Definition set_broken (op : PersistOp) : PersistOp :=
  MkOp (Kind op) (Realm op) (RealmID op) (DeviceID op) (Interface_ op) (Mapping_ op) (Path op)
    (Value_ op) (Format_ op) (TS op) (ReceptionTS op) (Tracked op) (PrevExists op) (Prev op)
    (ack op) true.

(** ** Canonical JSON *)

Section Render.
Context `{JSONText}.

(** The Go value [jsonable] returns: [nil], a number, a boolean, a string, a
    [json.Number], or a slice or map of such. *)
Inductive jany :=
| AnyNil
| AnyFloat (f : Z)
| AnyInt (i : Z)
| AnyBool (b : bool)
| AnyString (s : gostring)
| AnyNumber (text : gostring)
| AnySlice (xs : list jany)
| AnyMap (m : gmap gostring jany).

Definition maxSafeInt : Z := 2 ^ 53 - 1.

Definition jsonable_scalar (s : Scalar) : jany :=
  match s with
  | SDouble f => AnyFloat f
  | SInteger i => AnyInt i
  | SBool b => AnyBool b
  | SString x => AnyString x
  | SLong x =>
      if (maxSafeInt <? x)%Z || (x <? - maxSafeInt)%Z then AnyString (Strconv.Itoa x)
      else AnyNumber (Strconv.Itoa x)
  | SBlob x => AnyString (EncodeBase64 x)
  | STime t => AnyString (FormatRFC3339 t)
  end.

Definition jsonableSlice (a : Slice) : jany := AnySlice (map jsonable_scalar (slice_elems a)).

(** The default case of the source, a Go type outside the closed set, has no
    counterpart: [Value] is the closed set. *)
Fixpoint jsonable_value (v : Value) : jany :=
  match v with
  | VScalar s => jsonable_scalar s
  | VSlice a => jsonableSlice a
  | VObject o => AnyMap (jsonable_value <$> o)
  end.

Definition jsonable (v : option Value) : jany :=
  match v with
  | None => AnyNil
  | Some v => jsonable_value v
  end.

(** [json.Marshal] on those values fails on a float that is not finite. A
    string of decoded data is valid UTF-8, which [Marshal] keeps as it is. *)
Definition collect_list {A} (xs : list (option A)) : option (list A) := mapM id xs.
Definition collect_map {A} (m : gmap gostring (option A)) : option (gmap gostring A) :=
  if bool_decide (map_Forall (fun _ x => is_Some x) m) then Some (omap id m) else None.

Fixpoint Marshal (a : jany) : option jtoken :=
  match a with
  | AnyNil => Some JNull
  | AnyFloat f => if Float64.finite f then Some (JNum (FormatFloat f)) else None
  | AnyInt i => Some (JNum (Strconv.Itoa i))
  | AnyBool b => Some (JBool b)
  | AnyString s => Some (JStr s)
  | AnyNumber t => Some (JNum t)
  | AnySlice xs => JArr <$> collect_list (map Marshal xs)
  | AnyMap m => JObj <$> collect_map (Marshal <$> m)
  end.

Definition encodeValueJSON (v : option Value) : option jtoken := Marshal (jsonable v).

(** ** Rows *)

(** [store.IndividualRow]; a nil column is [None]. *)
Record IndividualRow := MkIndividualRow {
  rRealmID : Z;
  rDeviceID : gostring;
  rInterfaceID : Z;
  rEndpointID : Z;
  rPath : gostring;
  rTS : Z;
  rReceptionTS : Z;
  ValueDouble : option Z;
  ValueInteger : option Z;
  ValueLonginteger : option Z;
  ValueBoolean : option bool;
  ValueString : option gostring;
  ValueBinaryblob : option gostring;
  ValueDatetime : option Z;
  ValueArray : option jtoken;
}.

Definition count {A} (x : option A) : nat := match x with Some _ => 1 | None => 0 end.

(** The number of value columns a row sets; [validate] wants exactly one. *)
Definition columns (r : IndividualRow) : nat :=
  count (ValueDouble r) + count (ValueInteger r) + count (ValueLonginteger r) +
  count (ValueBoolean r) + count (ValueString r) + count (ValueBinaryblob r) +
  count (ValueDatetime r) + count (ValueArray r).
Definition validate (r : IndividualRow) : bool := (columns r =? 1)%nat.

Record ObjectRow := MkObjectRow {
  oRealmID : Z;
  oDeviceID : gostring;
  oInterfaceID : Z;
  oPath : gostring;
  oTS : Z;
  oReceptionTS : Z;
  oValue : jtoken;
}.

(** [store.Property]; [set_at] is stamped by the database. *)
Record Property := MkProperty {
  pRealmID : Z;
  pDeviceID : gostring;
  pInterfaceID : Z;
  pEndpointID : Z;
  pPath : gostring;
  pValue : jtoken;
  pValueType : ValueType;
}.

(** Why a conversion yields no row: the rendering failed, the value is not of
    the declared type, or a nil mapping was dereferenced (a panic). *)
Inductive row_error := RenderError | Mismatch | NotAnObject | NilMappingPanic.

(** The columns of a row before one of them is set. *)
Definition bare_row (op : PersistOp) (m : CompiledMapping) : IndividualRow :=
  MkIndividualRow (RealmID op) (DeviceID op) (ID (Interface_ op)) (EndpointID m) (Path op)
    (TS op) (ReceptionTS op) None None None None None None None None.

Definition with_columns (r : IndividualRow) (d i l : option Z) (b : option bool)
    (s bl : option gostring) (t : option Z) (a : option jtoken) : IndividualRow :=
  MkIndividualRow (rRealmID r) (rDeviceID r) (rInterfaceID r) (rEndpointID r) (rPath r)
    (rTS r) (rReceptionTS r) d i l b s bl t a.

Definition individualRow (op : PersistOp) : result row_error IndividualRow :=
  match Mapping_ op with
  | None => Err NilMappingPanic
  | Some m =>
      let row := bare_row op m in
      let vt := cValueType m in
      if IsArray vt then
        match encodeValueJSON (Value_ op) with
        | None => Err RenderError
        | Some js => Ok (with_columns row None None None None None None None (Some js))
        end
      else
        match vt, Value_ op with
        | Double, Some (VScalar (SDouble v)) => Ok (with_columns row (Some v) None None None None None None None)
        | Integer, Some (VScalar (SInteger v)) => Ok (with_columns row None (Some v) None None None None None None)
        | LongInteger, Some (VScalar (SLong v)) => Ok (with_columns row None None (Some v) None None None None None)
        | Boolean, Some (VScalar (SBool v)) => Ok (with_columns row None None None (Some v) None None None None)
        | StringT, Some (VScalar (SString v)) => Ok (with_columns row None None None None (Some v) None None None)
        | BinaryBlob, Some (VScalar (SBlob v)) => Ok (with_columns row None None None None None (Some v) None None)
        | DateTime, Some (VScalar (STime v)) => Ok (with_columns row None None None None None None (Some v) None)
        | _, _ => Err Mismatch
        end
  end.

Definition objectRow (op : PersistOp) : result row_error ObjectRow :=
  match Value_ op with
  | Some (VObject _) =>
      match encodeValueJSON (Value_ op) with
      | None => Err RenderError
      | Some js =>
          Ok (MkObjectRow (RealmID op) (DeviceID op) (ID (Interface_ op)) (Path op)
                (TS op) (ReceptionTS op) js)
      end
  | _ => Err NotAnObject
  end.

Definition propertyRow (op : PersistOp) : result row_error Property :=
  match encodeValueJSON (Value_ op) with
  | None => Err RenderError
  | Some js =>
      match Mapping_ op with
      | None => Err NilMappingPanic
      | Some m =>
          Ok (MkProperty (RealmID op) (DeviceID op) (ID (Interface_ op)) (EndpointID m)
                (Path op) js (cValueType m))
      end
  end.

(** The rendering of a stored row; no column set is an error. *)
Definition prevIndividualJSON (r : IndividualRow) : result row_error (jtoken * bool) :=
  let render s := or_err (option_map (fun js => (js, true)) (encodeValueJSON (Some (VScalar s)))) RenderError in
  match ValueDouble r, ValueInteger r, ValueLonginteger r, ValueBoolean r,
        ValueString r, ValueBinaryblob r, ValueDatetime r, ValueArray r with
  | Some v, _, _, _, _, _, _, _ => render (SDouble v)
  | _, Some v, _, _, _, _, _, _ => render (SInteger v)
  | _, _, Some v, _, _, _, _, _ => render (SLong v)
  | _, _, _, Some v, _, _, _, _ => render (SBool v)
  | _, _, _, _, Some v, _, _, _ => render (SString v)
  | _, _, _, _, _, Some v, _, _ => render (SBlob v)
  | _, _, _, _, _, _, Some v, _ => render (STime v)
  | _, _, _, _, _, _, _, Some js => Ok (js, true)
  | _, _, _, _, _, _, _, _ => Err Mismatch
  end.

(** ** Comparing renderings *)

(** The generic form [json.Unmarshal] gives a text: every number a float64. *)
Inductive generic :=
| GNull
| GBool (b : bool)
| GNum (f : Z)
| GStr (s : gostring)
| GArr (xs : list generic)
| GMap (m : gmap gostring generic).

Fixpoint Unmarshal (j : jtoken) : option generic :=
  match j with
  | JNull => Some GNull
  | JBool b => Some (GBool b)
  | JNum t => GNum <$> ParseFloat t
  | JStr s => Some (GStr s)
  | JArr xs => GArr <$> collect_list (map Unmarshal xs)
  | JObj m => GMap <$> collect_map (Unmarshal <$> m)
  end.

Fixpoint DeepEqual (a b : generic) {struct a} : bool :=
  match a, b with
  | GNull, GNull => true
  | GBool x, GBool y => Bool.eqb x y
  | GNum x, GNum y => Float64.eqb x y
  | GStr x, GStr y => bool_decide (x = y)
  | GArr xs, GArr ys =>
      (length xs =? length ys)%nat &&
      forallb (fun e : (generic -> bool) * generic => e.1 e.2) (zip (map DeepEqual xs) ys)
  | GMap m, GMap n =>
      bool_decide (dom m = dom n) &&
      forallb (fun e : gostring * ((generic -> bool) * generic) => e.2.1 e.2.2)
        (map_to_list (map_zip (DeepEqual <$> m) n))
  | _, _ => false
  end.

Definition jsonEqual (a b : jtoken) : bool :=
  match Unmarshal a, Unmarshal b with
  | Some va, Some vb => DeepEqual va vb
  | _, _ => false
  end.

(** ** Validated values have rows *)

(** What the validation pipeline establishes of an operation: a value of the
    mapping's type, or a document of declared leaves. *)
Definition op_typed (op : PersistOp) : Prop :=
  match Kind op with
  | OpIndividual | OpPropertySet =>
      exists m v, Mapping_ op = Some m /\ Value_ op = Some v /\ valid_value (cValueType m) v
  | OpObject => exists leaves o, Value_ op = Some (VObject o) /\ Bson.valid_object leaves o
  | OpPropertyUnset => Value_ op = None
  end.

Lemma Marshal_scalar vt s : valid_scalar vt s -> is_Some (Marshal (jsonable_scalar s)).
Proof.
  destruct vt, s; simpl; try done; try (intros; by eexists).
  - intros ->. by eexists.
  - intros _. destruct (_ || _); by eexists.
Qed.

Lemma collect_list_Some {A} (xs : list (option A)) :
  Forall is_Some xs -> exists ys, collect_list xs = Some ys /\ xs = Some <$> ys.
Proof.
  unfold collect_list. induction 1 as [|x xs [y ->] _ (ys & IH & ->)]; simpl; [by exists []|].
  exists (y :: ys). by rewrite IH.
Qed.

Lemma Marshal_slice vt a : valid_slice vt a -> is_Some (Marshal (jsonableSlice a)).
Proof.
  intros (_ & _ & Hv). simpl.
  destruct (collect_list_Some (map Marshal (map jsonable_scalar (slice_elems a)))) as (ys & -> & _); [|by eexists].
  rewrite map_map. apply Forall_fmap. eapply Forall_impl; [exact Hv|].
  intros s Hs. by eapply Marshal_scalar.
Qed.

Lemma encode_valid vt v : valid_value vt v -> is_Some (encodeValueJSON (Some v)).
Proof.
  destruct v as [s|a|o]; [intros [_ Hs]|intros Ha|done];
    [by eapply Marshal_scalar|by eapply Marshal_slice].
Qed.

Lemma encode_valid_object leaves o :
  Bson.valid_object leaves o -> is_Some (encodeValueJSON (Some (VObject o))).
Proof.
  intros Ho. unfold encodeValueJSON. simpl. unfold collect_map.
  rewrite bool_decide_eq_true_2; [by eexists|]. intros k x Hx.
  rewrite !lookup_fmap in Hx. destruct (o !! k) as [v|] eqn:E; [|done].
  simpl in Hx. injection Hx as <-. destruct (Ho _ _ E) as (leaf & _ & Hv).
  exact (encode_valid _ _ Hv).
Qed.

Lemma individualRow_array op m vt v js :
  Mapping_ op = Some m -> cValueType m = vt -> IsArray vt = true -> Value_ op = Some v ->
  encodeValueJSON (Some v) = Some js ->
  individualRow op = Ok (with_columns (bare_row op m) None None None None None None None (Some js)).
Proof. intros Hm <- Ha Hv Hj. unfold individualRow. by rewrite Hm, Ha, Hv, Hj. Qed.

Lemma individualRow_valid op m v :
  Mapping_ op = Some m -> Value_ op = Some v -> valid_value (cValueType m) v ->
  exists row js, individualRow op = Ok row /\ validate row = true /\
    encodeValueJSON (Value_ op) = Some js /\ prevIndividualJSON row = Ok (js, true) /\
    rEndpointID row = EndpointID m /\ rInterfaceID row = ID (Interface_ op) /\
    rRealmID row = RealmID op /\ rDeviceID row = DeviceID op /\ rPath row = Path op /\
    rTS row = TS op /\ rReceptionTS row = ReceptionTS op.
Proof.
  intros Hm Hv Hval. destruct (encode_valid _ _ Hval) as [js Hjs].
  destruct (IsArray (cValueType m)) eqn:Ha.
  - eexists _, js. rewrite Hv. split; [by eapply individualRow_array|]. done.
  - unfold individualRow. rewrite Hm, Ha, Hv, Hjs.
    destruct v as [s|a|o]; [destruct Hval as [_ Hs]|destruct Hval as [Ht _]; rewrite Ht in Ha; by destruct a|done].
    destruct (cValueType m); try done; destruct s; try done;
      (eexists _, js; split; [reflexivity|]; split; [reflexivity|]; split; [reflexivity|];
       split; [unfold prevIndividualJSON; cbn [ValueDouble ValueInteger ValueLonginteger ValueBoolean
         ValueString ValueBinaryblob ValueDatetime ValueArray with_columns]; by rewrite Hjs|done]).
Qed.

(** Whatever the value, a row that is built sets exactly one column: the
    store's check never refuses it. *)
Lemma individualRow_validate op row : individualRow op = Ok row -> validate row = true.
Proof.
  unfold individualRow. destruct (Mapping_ op) as [m|]; [|done].
  destruct (IsArray (cValueType m)).
  - destruct (encodeValueJSON _); [|done]. by intros [= <-].
  - destruct (cValueType m); try done; destruct (Value_ op) as [[[]| |]|]; try done; by intros [= <-].
Qed.

(** ** What a change is *)

(** The comparison a change event stands for: equal values, where the two
    zeros of a double are one. *)
Definition scalar_same (s t : Scalar) : Prop :=
  match s, t with
  | SDouble f, SDouble g => Float64.eqb f g = true
  | _, _ => s = t
  end.
Definition value_same (v w : Value) : Prop :=
  match v, w with
  | VScalar s, VScalar t => scalar_same s t
  | VSlice a, VSlice b => Forall2 scalar_same (slice_elems a) (slice_elems b)
  | _, _ => False
  end.

(** Documented behaviour of [strconv.ParseFloat]: an integer literal within
    53 bits is read as that integer. *)
Class JSONNumberLaws := {
  integer_text i : (Z.abs i <= maxSafeInt)%Z -> ParseFloat (Strconv.Itoa i) = Some (Float64.of_int i);
}.

Context `{!JSONTextLaws, !JSONNumberLaws}.

Definition safe_int (x : Z) : bool := negb ((maxSafeInt <? x)%Z || (x <? - maxSafeInt)%Z).

Lemma safe_int_true x : safe_int x = true <-> (Z.abs x <= maxSafeInt)%Z.
Proof. unfold safe_int, maxSafeInt. rewrite negb_true_iff, orb_false_iff, !Z.ltb_ge. lia. Qed.

(** The generic form of a valid scalar's rendering. *)
Definition generic_of (s : Scalar) : generic :=
  match s with
  | SDouble f => GNum f
  | SInteger i => GNum (Float64.of_int i)
  | SLong i => if safe_int i then GNum (Float64.of_int i) else GStr (Strconv.Itoa i)
  | SBool b => GBool b
  | SString x => GStr x
  | SBlob x => GStr (EncodeBase64 x)
  | STime t => GStr (FormatRFC3339 t)
  end.

Lemma scalar_generic vt s :
  valid_scalar vt s ->
  exists j, Marshal (jsonable_scalar s) = Some j /\ Unmarshal j = Some (generic_of s).
Proof.
  destruct vt, s; simpl; try done; try (intros _; by eexists).
  - intros Hf. rewrite Hf. eexists. split; [done|]. simpl. by rewrite float_text.
  - intros Hi. eexists. split; [done|]. simpl. rewrite integer_text; [done|].
    unfold in_int32, int32_min, int32_max, maxSafeInt in *. lia.
  - intros _. unfold safe_int. destruct (_ || _) eqn:E; simpl; eexists; split; try done.
    simpl. rewrite integer_text; [done|]. apply safe_int_true. unfold safe_int. by rewrite E.
Qed.

Lemma Itoa_inj i j : in_int64 i -> in_int64 j -> Strconv.Itoa i = Strconv.Itoa j -> i = j.
Proof.
  intros Hi Hj E. pose proof (Strconv.ParseInt_Itoa i Hi) as Hrt.
  rewrite E, Strconv.ParseInt_Itoa in Hrt by done. congruence.
Qed.

Lemma of_int_same i j :
  (Z.abs i <= maxSafeInt)%Z -> (Z.abs j <= maxSafeInt)%Z ->
  Float64.eqb (Float64.of_int i) (Float64.of_int j) = true <-> i = j.
Proof.
  unfold maxSafeInt. intros Hi Hj.
  rewrite (proj1 (Float64.of_int_compare i j ltac:(lia) ltac:(lia))). apply Z.eqb_eq.
Qed.

Lemma generic_same vt s t :
  valid_scalar vt s -> valid_scalar vt t ->
  DeepEqual (generic_of s) (generic_of t) = true <-> scalar_same s t.
Proof.
  destruct vt, s; simpl; try done; destruct t; simpl; try done.
  - intros Hi Hj. rewrite of_int_same; [naive_solver|..];
      unfold in_int32, int32_min, int32_max, maxSafeInt in *; lia.
  - intros _ _. rewrite eqb_true_iff. naive_solver.
  - intros Hi Hj. destruct (safe_int i) eqn:Ei, (safe_int i0) eqn:Ej; simpl.
    + rewrite of_int_same by (by apply safe_int_true). naive_solver.
    + split; [done|]. intros [= ->]. congruence.
    + split; [done|]. intros [= ->]. congruence.
    + rewrite bool_decide_eq_true. split; [by intros ->%Itoa_inj|by intros [= ->]].
  - intros _ _. rewrite bool_decide_eq_true. naive_solver.
  - intros _ _. rewrite bool_decide_eq_true. split; [|by intros [= ->]].
    intros E. f_equal. pose proof (base64_text b) as Hrt. rewrite E, base64_text in Hrt. congruence.
  - intros [Ht Hm] [Ht' Hm']. rewrite bool_decide_eq_true. split; [|by intros [= ->]].
    intros E. f_equal. pose proof (time_text ns Ht Hm) as Hrt. rewrite E, time_text in Hrt by done. congruence.
Qed.

Lemma slice_generic vt ss :
  Forall (valid_scalar vt) ss ->
  exists js, collect_list (map Marshal (map jsonable_scalar ss)) = Some js /\
    collect_list (map Unmarshal js) = Some (map generic_of ss).
Proof.
  unfold collect_list. induction 1 as [|s ss Hs _ (js & IH1 & IH2)]; [by exists []|].
  destruct (scalar_generic _ _ Hs) as (j & Hj & Hu). exists (j :: js). simpl in *.
  by rewrite Hj, IH1, Hu, IH2.
Qed.

Lemma slice_same vt ss ts :
  Forall (valid_scalar vt) ss -> Forall (valid_scalar vt) ts ->
  DeepEqual (GArr (map generic_of ss)) (GArr (map generic_of ts)) = true <->
  Forall2 scalar_same ss ts.
Proof.
  intros Hs. revert ts. induction Hs as [|s ss Hs _ IH]; intros [|t ts]; intros Ht.
  - split; [constructor|done].
  - split; [done|inversion 1].
  - split; [done|inversion 1].
  - apply Forall_cons in Ht as [Ht Hts]. specialize (IH ts Hts). simpl in IH |- *.
    rewrite Forall2_cons, <- IH, <- (generic_same vt) by done. rewrite !andb_true_iff. tauto.
Qed.

Lemma value_generic vt v :
  valid_value vt v ->
  exists j g, encodeValueJSON (Some v) = Some j /\ Unmarshal j = Some g /\
    match v with
    | VScalar s => g = generic_of s
    | VSlice a => g = GArr (map generic_of (slice_elems a))
    | VObject _ => False
    end.
Proof.
  destruct v as [s|a|o]; [intros [_ Hs]|intros (_ & _ & Ha)|done].
  - destruct (scalar_generic _ _ Hs) as (j & Hj & Hu). eauto.
  - destruct (slice_generic _ _ Ha) as (js & Hj & Hu).
    exists (JArr js), (GArr (map generic_of (slice_elems a))).
    unfold encodeValueJSON. simpl. rewrite Hj. simpl. by rewrite Hu.
Qed.

Lemma valid_shapes vt v w :
  valid_value vt v -> valid_value vt w ->
  match v, w with
  | VScalar s, VScalar t => valid_scalar vt s /\ valid_scalar vt t
  | VSlice a, VSlice b =>
      Forall (valid_scalar (Elem vt)) (slice_elems a) /\ Forall (valid_scalar (Elem vt)) (slice_elems b)
  | _, _ => False
  end.
Proof.
  destruct v as [s|a|o], w as [t|b|o']; simpl; try done.
  - by intros [_ ?] [_ ?].
  - intros [Hi _] [-> _]. by destruct b.
  - intros [-> _] [Hi _]. by destruct a.
  - by intros (_ & _ & ?) (_ & _ & ?).
Qed.

End Render.

(** C33. A validated operation never breaks in the batcher: its row exists, names
    the operation's device, interface, endpoint and path, sets exactly one
    value column, and a datastream row renders back to the same canonical
    JSON as the value it was built from. *)
Theorem typed_operation_has_row `{!JSONText} op :
  op_typed op ->
  match Kind op with
  | OpIndividual =>
      exists m row js, Mapping_ op = Some m /\ individualRow op = Ok row /\ validate row = true /\
        encodeValueJSON (Value_ op) = Some js /\ prevIndividualJSON row = Ok (js, true) /\
        rEndpointID row = EndpointID m /\ rInterfaceID row = ID (Interface_ op) /\
        rRealmID row = RealmID op /\ rDeviceID row = DeviceID op /\ rPath row = Path op /\
        rTS row = TS op /\ rReceptionTS row = ReceptionTS op
  | OpPropertySet =>
      exists m js, Mapping_ op = Some m /\ encodeValueJSON (Value_ op) = Some js /\
        propertyRow op = Ok (MkProperty (RealmID op) (DeviceID op) (ID (Interface_ op))
                               (EndpointID m) (Path op) js (cValueType m))
  | OpObject =>
      exists js, encodeValueJSON (Value_ op) = Some js /\
        objectRow op = Ok (MkObjectRow (RealmID op) (DeviceID op) (ID (Interface_ op)) (Path op)
                             (TS op) (ReceptionTS op) js)
  | OpPropertyUnset => encodeValueJSON (Value_ op) = Some JNull
  end.
Proof.
  unfold op_typed. destruct (Kind op).
  - intros (m & v & Hm & Hv & Hval).
    destruct (individualRow_valid op m v Hm Hv Hval) as (row & js & Hrow). eauto.
  - intros (leaves & o & Hv & Ho). destruct (encode_valid_object leaves o Ho) as [js Hjs].
    exists js. unfold objectRow. by rewrite Hv, Hjs.
  - intros (m & v & Hm & Hv & Hval). destruct (encode_valid _ _ Hval) as [js Hjs].
    exists m, js. unfold propertyRow. by rewrite Hv, Hjs, Hm.
  - by intros ->.
Qed.

(** Two values of one declared type have equal canonical renderings, as
    [jsonEqual] compares them, exactly when they are the same value: a change
    event fires on every difference and on nothing else. Long integers beyond
    2^53 - 1, which a float64 would round together, are kept apart by their
    decimal strings. *)
Theorem change_detection_exact `{!JSONText, !JSONTextLaws, !JSONNumberLaws} vt v w :
  valid_value vt v -> valid_value vt w ->
  exists jv jw, encodeValueJSON (Some v) = Some jv /\ encodeValueJSON (Some w) = Some jw /\
    (jsonEqual jv jw = true <-> value_same v w).
Proof.
  intros Hv Hw. pose proof (valid_shapes _ _ _ Hv Hw) as Hs.
  destruct (value_generic _ _ Hv) as (jv & gv & Ejv & Uv & Gv).
  destruct (value_generic _ _ Hw) as (jw & gw & Ejw & Uw & Gw).
  exists jv, jw. split; [done|]. split; [done|]. unfold jsonEqual. rewrite Uv, Uw.
  destruct v, w; try done; destruct Hs; subst; [by eapply generic_same|by eapply slice_same].
Qed.

(** ** Witnesses *)

Definition sample_interface : CompiledInterface :=
  MkCompiledInterface 7 "org.astrate.Sensors"%go 1 0 Datastream OwnershipDevice
    AggregationIndividual NewEndpointTrie None.
Definition sample_op (kind : OpKind) (v : option Value) : PersistOp :=
  MkOp kind "test"%go 1 "0123456789abcdef"%go sample_interface (Some Codec.sample_mapping)
    "/temp"%go v FormatBSON 5 6 false false None 0 false.

Lemma typed_operation_has_row_witness :
  exists row, @individualRow toy_text (sample_op OpIndividual (Some (VScalar (SInteger 42)))) = Ok row /\
    ValueInteger row = Some 42%Z.
Proof.
  pose proof (@typed_operation_has_row toy_text (sample_op OpIndividual (Some (VScalar (SInteger 42))))) as Hw.
  destruct Hw as (m & row & js & _ & Hrow & _).
  - exists Codec.sample_mapping, (VScalar (SInteger 42)). split; [reflexivity|]. split; [reflexivity|].
    split; [reflexivity|]. vm_compute. split; discriminate.
  - exists row. split; [exact Hrow|]. vm_compute in Hrow. injection Hrow as <-. reflexivity.
Defined.

(** A text layer that also reads decimal integers as floats. *)
Definition decimal_text : JSONText := {|
  parse_envelope _ := None;
  ParseFloat s :=
    match s with
    | "f"%char :: s => read s
    | _ => match Strconv.ParseInt s with Ok i => Some (Float64.of_int i) | Err _ => None end
    end;
  FormatFloat f := "f"%char :: spell f;
  ParseRFC3339 := read;
  FormatRFC3339 := spell;
  DecodeBase64 s := Some s;
  EncodeBase64 s := s;
|}.

Lemma decimal_laws : @JSONTextLaws decimal_text.
Proof. split; intros; simpl; [apply read_spell|apply read_spell|done]. Qed.

Lemma Itoa_not_f i : in_int64 i -> forall s, Strconv.Itoa i <> "f"%char :: s.
Proof. intros Hi s E. pose proof (Strconv.ParseInt_Itoa i Hi) as Hp. rewrite E in Hp. discriminate Hp. Qed.

Lemma decimal_numbers : @JSONNumberLaws decimal_text.
Proof.
  split. intros i Hi.
  assert (in_int64 i) as H64 by (unfold in_int64, int64_min, int64_max, maxSafeInt in *; lia).
  cbn [ParseFloat decimal_text]. pose proof (Itoa_not_f i H64) as Hf.
  pose proof (Strconv.ParseInt_Itoa i H64) as Hp.
  destruct (Strconv.Itoa i) as [|c s]; [discriminate Hp|].
  destruct (decide (c = "f"%char)) as [->|Hc]; [by destruct (Hf s)|].
  rewrite Hp. by destruct c as [[] [] [] [] [] [] [] []].
Qed.

Lemma change_detection_exact_witness :
  exists jv jw, @encodeValueJSON decimal_text (Some (VScalar (SLong (2 ^ 53)))) = Some jv /\
    @encodeValueJSON decimal_text (Some (VScalar (SLong (2 ^ 53 + 1)))) = Some jw /\
    @jsonEqual decimal_text jv jw = false.
Proof.
  destruct (@change_detection_exact decimal_text decimal_laws decimal_numbers LongInteger
    (VScalar (SLong (2 ^ 53))) (VScalar (SLong (2 ^ 53 + 1)))) as (jv & jw & Hv & Hw & Heq).
  - split; [reflexivity|]. vm_compute. split; discriminate.
  - split; [reflexivity|]. vm_compute. split; discriminate.
  - exists jv, jw. split; [exact Hv|]. split; [exact Hw|].
    destruct (@jsonEqual decimal_text jv jw); [|reflexivity].
    destruct Heq as [Heq _]. discriminate (Heq eq_refl).
Defined.

End Rows.
