(* ===== verification/Batch.v ===== *)
(** * The micro-batcher ([src/internal/engine/batch.go], first half)

    A shard's batch of validated operations is committed to the store with
    retries, and the broker acknowledgements are released afterwards. The
    history of a flush is the list of its external effects in order: the
    store requests with their answers, the acknowledgements, the observer
    calls. The store and the shutdown signal are functions of that history,
    so every behaviour of the environment is some choice of them; a request
    that fails may still have taken effect (a lost commit). *)

From S2P Require Import Prelude GoStrings SchemaTypes Endpoints InterfaceParse EndpointTrie Compile Float64 PayloadValue PayloadBson PayloadJson PayloadCodec Rows.

Module Batch.
Import Schema Payload Trie Compile Json Rows.

(** [store.DatastreamBatch]. *)
Record DatastreamBatch := MkBatch {
  Individual : list IndividualRow;
  Objects : list ObjectRow;
}.

(** The address of one property. *)
Definition prop_key : Type := Z * gostring * Z * gostring.

Inductive request :=
| UpsertProperty (p : Property)
| UnsetProperty (k : prop_key)
| AppendRows (b : DatastreamBatch).

(** An error of the store: one the database server reports, with its
    SQLSTATE code, or any other (connection loss, timeout, a refused row). *)
Inductive commit_error := PgError (code : gostring) | OtherError.

Inductive answer :=
| Answered
| Failed (e : commit_error) (applied : bool).

Definition isPermanentCommitError (e : commit_error) : bool :=
  match e with
  | PgError code => Strings.HasPrefix code "23"%go || Strings.HasPrefix code "22"%go
  | OtherError => false
  end.

Inductive event :=
| EvRequest (q : request) (a : answer)
| EvAck (id : nat)
| EvObserve (ops : list PersistOp)
| EvDropped (op : PersistOp)
| EvPark (backoff : Z)
| EvAbandon.

Section Flush.
Context `{JSONText}.
(** The database's answer to a request, and whether a parked flush sees the
    shutdown or the cancelled context before its timer, given the history. *)
Variable db : list event -> request -> answer.
Variable quit : list event -> bool.

Definition ask (tr : list event) (q : request) : list event * option commit_error :=
  let a := db tr q in
  (tr ++ [EvRequest q a], match a with Answered => None | Failed e _ => Some e end).

(** [store.AppendDatastreams]: the rows are checked before the transaction. *)
Definition AppendDatastreams (tr : list event) (b : DatastreamBatch)
    : list event * option commit_error :=
  if forallb validate (Individual b) then ask tr (AppendRows b) else (tr, Some OtherError).

(** What [commit] does with one operation. *)
Inductive plan :=
| PlanSkip
| PlanBreak
| PlanPanic
| PlanRequest (q : request)
| PlanIndividual (row : IndividualRow)
| PlanObject (row : ObjectRow).

Definition plan_row {A} (r : result row_error A) (k : A -> plan) : plan :=
  match r with
  | Ok x => k x
  | Err NilMappingPanic => PlanPanic
  | Err _ => PlanBreak
  end.

Definition unset_key (op : PersistOp) : prop_key :=
  (RealmID op, DeviceID op, ID (Interface_ op), Path op).

Definition plan_of (op : PersistOp) : plan :=
  if broken op then PlanSkip
  else match Kind op with
       | OpPropertySet => plan_row (propertyRow op) (fun p => PlanRequest (UpsertProperty p))
       | OpPropertyUnset => PlanRequest (UnsetProperty (unset_key op))
       | OpIndividual => plan_row (individualRow op) PlanIndividual
       | OpObject => plan_row (objectRow op) PlanObject
       end.

(** [markBroken]: the flag, and the acknowledgement. *)
Definition markBroken (tr : list event) (op : PersistOp) : list event * PersistOp :=
  (tr ++ [EvAck (ack op)], set_broken op).

Inductive commit_result := Committed | CommitError (e : commit_error) | CommitPanic.

Definition add_individual (ds : DatastreamBatch) (row : IndividualRow) : DatastreamBatch :=
  MkBatch (Individual ds ++ [row]) (Objects ds).
Definition add_object (ds : DatastreamBatch) (row : ObjectRow) : DatastreamBatch :=
  MkBatch (Individual ds) (Objects ds ++ [row]).

(** The loop of [commit]: the history, the operations with their flags, and
    the datastream rows gathered so far. *)
Fixpoint commit_loop (tr : list event) (ops : list PersistOp) (ds : DatastreamBatch)
    : list event * list PersistOp * DatastreamBatch * commit_result :=
  match ops with
  | [] => (tr, [], ds, Committed)
  | op :: rest =>
      let continue tr op ds :=
        let '(tr, rest, ds, r) := commit_loop tr rest ds in (tr, op :: rest, ds, r) in
      match plan_of op with
      | PlanSkip => continue tr op ds
      | PlanBreak => let '(tr, op) := markBroken tr op in continue tr op ds
      | PlanPanic => (tr, ops, ds, CommitPanic)
      | PlanRequest q =>
          match ask tr q with
          | (tr, Some e) => (tr, ops, ds, CommitError e)
          | (tr, None) => continue tr op ds
          end
      | PlanIndividual row => continue tr op (add_individual ds row)
      | PlanObject row => continue tr op (add_object ds row)
      end
  end.

Definition empty_batch (b : DatastreamBatch) : bool :=
  (length (Individual b) =? 0)%nat && (length (Objects b) =? 0)%nat.

Definition commit (tr : list event) (ops : list PersistOp)
    : list event * list PersistOp * commit_result :=
  let '(tr, ops, ds, r) := commit_loop tr ops (MkBatch [] []) in
  match r with
  | Committed =>
      if empty_batch ds then (tr, ops, Committed)
      else match AppendDatastreams tr ds with
           | (tr, Some e) => (tr, ops, CommitError e)
           | (tr, None) => (tr, ops, Committed)
           end
  | r => (tr, ops, r)
  end.

Definition unbroken (ops : list PersistOp) : list PersistOp :=
  filter (fun op => broken op = false) ops.

Definition finalize (tr : list event) (ops : list PersistOp) : list event :=
  let live := unbroken ops in
  let tr := tr ++ map (fun op => EvAck (ack op)) live in
  if (length live =? 0)%nat then tr else tr ++ [EvObserve live].

(** The outcome of a flush; a panic leaves the batch to the restarted shard. *)
Inductive flush_result := Flushed (tr : list event) | Panicked (tr : list event) | OutOfFuel.

(** The operations one by one, after a poisoned batch was refused. *)
Fixpoint flush_each (flush1 : list event -> PersistOp -> flush_result)
    (tr : list event) (ops : list PersistOp) : flush_result :=
  match ops with
  | [] => Flushed tr
  | op :: ops =>
      match flush1 tr op with
      | Flushed tr => flush_each flush1 tr ops
      | r => r
      end
  end.

(** The retry loop of [flushOps]; the fuel bounds the attempts. *)
Definition parkBackoffStart : Z := 100000000.
Definition parkBackoffCap : Z := 5000000000.

Fixpoint flush_loop (fuel : nat) (tr : list event) (ops : list PersistOp) (backoff : Z)
    : flush_result :=
  match fuel with
  | O => OutOfFuel
  | S fuel =>
      match commit tr ops with
      | (tr, ops, Committed) => Flushed (finalize tr ops)
      | (tr, _, CommitPanic) => Panicked tr
      | (tr, ops, CommitError e) =>
          if isPermanentCommitError e then
            match ops with
            | [op] => Flushed (tr ++ [EvDropped op; EvAck (ack op)])
            | _ => flush_each (fun tr op => flush_loop fuel tr [op] parkBackoffStart) tr ops
            end
          else
            let tr := tr ++ [EvPark backoff] in
            if quit tr then Flushed (tr ++ [EvAbandon])
            else flush_loop fuel tr ops (Z.min (backoff * 2) parkBackoffCap)
      end
  end.

Definition flushOps (fuel : nat) (tr : list event) (ops : list PersistOp) : flush_result :=
  flush_loop fuel tr ops parkBackoffStart.

Definition flush (fuel : nat) (tr : list event) (ops : list PersistOp) : flush_result :=
  if (length ops =? 0)%nat then Flushed tr else flushOps fuel tr ops.

(** ** Reading a history *)

Definition acks (tr : list event) : list nat :=
  omap (fun e => match e with EvAck a => Some a | _ => None end) tr.
Definition observed (tr : list event) : list PersistOp :=
  concat (omap (fun e => match e with EvObserve ops => Some ops | _ => None end) tr).
Definition todo (ops : list PersistOp) : list nat := map ack (unbroken ops).

(** The request [q] writes the operation, alone or among others. *)
Definition carries (q : request) (op : PersistOp) : Prop :=
  match plan_of op with
  | PlanRequest q' => q = q'
  | PlanIndividual row => exists b, q = AppendRows b /\ row ∈ Individual b
  | PlanObject row => exists b, q = AppendRows b /\ row ∈ Objects b
  | _ => False
  end.
Definition alone (q : request) (op : PersistOp) : Prop :=
  match plan_of op with
  | PlanRequest q' => q = q'
  | PlanIndividual row => q = AppendRows (MkBatch [row] [])
  | PlanObject row => q = AppendRows (MkBatch [] [row])
  | _ => False
  end.

(** The operation was written and the store confirmed it. *)
Definition stored (l : list event) (op : PersistOp) : Prop :=
  exists q, carries q op /\ EvRequest q Answered ∈ l.
(** The database refused the operation by itself, for good. *)
Definition refused (l : list event) (op : PersistOp) : Prop :=
  exists q e b, alone q op /\ isPermanentCommitError e = true /\ EvRequest q (Failed e b) ∈ l.
Definition settled (l : list event) (op : PersistOp) : Prop :=
  stored l op \/ refused l op \/ plan_of op = PlanBreak.

(** What may follow the history [l]: an acknowledgement only of a settled
    operation, an observer call only with stored ones. *)
Definition allowed (ops : list PersistOp) (l : list event) (e : event) : Prop :=
  match e with
  | EvAck a => exists op, op ∈ unbroken ops /\ ack op = a /\ settled l op
  | EvObserve os => Forall (fun op => op ∈ unbroken ops /\ stored l op) os
  | _ => True
  end.
Fixpoint disciplined (ops : list PersistOp) (l ext : list event) : Prop :=
  match ext with
  | [] => True
  | e :: ext => allowed ops l e /\ disciplined ops (l ++ [e]) ext
  end.

Lemma disciplined_app ops l x y :
  disciplined ops l (x ++ y) <-> disciplined ops l x /\ disciplined ops (l ++ x) y.
Proof.
  revert l. induction x as [|e x IH]; intros l; simpl; [by rewrite app_nil_r; naive_solver|].
  rewrite IH, <- (assoc_L (++)). simpl. tauto.
Qed.

Lemma stored_mono l0 l op : stored l op -> stored (l0 ++ l) op.
Proof. intros (q & Hc & Hin). exists q. split; [done|]. apply elem_of_app. by right. Qed.

Lemma settled_mono l0 l op : settled l op -> settled (l0 ++ l) op.
Proof.
  intros [Hs|[(q & e & b & Ha & Hp & Hin)|Hb]].
  - left. by apply stored_mono.
  - right. left. exists q, e, b. split; [done|]. split; [done|]. apply elem_of_app. by right.
  - by right; right.
Qed.

Lemma allowed_mono ops ops' l0 l e :
  (forall op, op ∈ unbroken ops' -> op ∈ unbroken ops) ->
  allowed ops' l e -> allowed ops (l0 ++ l) e.
Proof.
  intros Hsub. destruct e; simpl; try done.
  - intros (op & Hin & Ha & Hs). exists op. eauto using settled_mono.
  - intros Hos. eapply Forall_impl; [exact Hos|]. intros op [Hin Hs]. eauto using stored_mono.
Qed.

Lemma disciplined_mono ops ops' l0 l ext :
  (forall op, op ∈ unbroken ops' -> op ∈ unbroken ops) ->
  disciplined ops' l ext -> disciplined ops (l0 ++ l) ext.
Proof.
  intros Hsub. revert l. induction ext as [|e ext IH]; intros l; simpl; [done|].
  intros [He Hext]. split; [by eapply allowed_mono|]. rewrite <- (assoc_L (++)). by apply IH.
Qed.

Lemma disciplined_from ops ops' l ext :
  (forall op, op ∈ unbroken ops' -> op ∈ unbroken ops) ->
  disciplined ops' [] ext -> disciplined ops l ext.
Proof. intros Hsub Hd. rewrite <- (app_nil_r l). by eapply disciplined_mono. Qed.

Lemma acks_app x y : acks (x ++ y) = acks x ++ acks y.
Proof. apply omap_app. Qed.
Lemma observed_app x y : observed (x ++ y) = observed x ++ observed y.
Proof. unfold observed. by rewrite omap_app, concat_app. Qed.

Lemma unbroken_elem ops op : op ∈ unbroken ops <-> op ∈ ops /\ broken op = false.
Proof. unfold unbroken. rewrite list_elem_of_filter. tauto. Qed.

Lemma unbroken_cons op ops :
  unbroken (op :: ops) = if broken op then unbroken ops else op :: unbroken ops.
Proof. unfold unbroken. rewrite filter_cons. by destruct (broken op). Qed.

(** ** One attempt *)

(** After the loop: requests were confirmed, rows are in the batch. *)
Definition secured (l : list event) (ds : DatastreamBatch) (op : PersistOp) : Prop :=
  match plan_of op with
  | PlanRequest q => EvRequest q Answered ∈ l
  | PlanIndividual row => row ∈ Individual ds
  | PlanObject row => row ∈ Objects ds
  | _ => False
  end.

Record loop_spec (ops ops' : list PersistOp) (ds ds' : DatastreamBatch) (ext : list event)
    (r : commit_result) : Prop := {
  loop_length : length ops' = length ops;
  loop_sub : unbroken ops' `sublist_of` unbroken ops;
  loop_todo : todo ops ≡ₚ acks ext ++ todo ops';
  loop_quiet : Forall (fun e => match e with EvAck _ | EvRequest _ _ => True | _ => False end) ext;
  loop_acks a : EvAck a ∈ ext -> exists op, op ∈ unbroken ops /\ ack op = a /\ plan_of op = PlanBreak;
  loop_secured : r = Committed -> Forall (secured ext ds') (unbroken ops');
  loop_rows : Individual ds ⊆ Individual ds' /\ Objects ds ⊆ Objects ds';
  loop_valid : forallb validate (Individual ds) = true -> forallb validate (Individual ds') = true;
}.

Lemma plan_row_inv {A} (r : result row_error A) k p :
  plan_row r k = p -> match p with PlanSkip => exists x, r = Ok x /\ k x = PlanSkip
    | PlanBreak | PlanPanic => True | p => exists x, r = Ok x /\ k x = p end.
Proof. destruct r as [x|[]]; simpl; intros <-; try done. destruct (k x) eqn:E; eauto. Qed.

Lemma plan_individual op row : plan_of op = PlanIndividual row -> validate row = true.
Proof.
  unfold plan_of. destruct (broken op); [done|]. destruct (Kind op); try done; intros Hp%plan_row_inv;
    destruct Hp as (x & Hx & Hk); try done. injection Hk as ->. by eapply individualRow_validate.
Qed.

Lemma plan_skip op : plan_of op = PlanSkip <-> broken op = true.
Proof.
  unfold plan_of. destruct (broken op); [done|]. split; [|done].
  destruct (Kind op); try done; intros Hp%plan_row_inv; destruct Hp as (x & _ & Hk); done.
Qed.

Lemma secured_mono l0 ds ds' op l :
  Individual ds ⊆ Individual ds' -> Objects ds ⊆ Objects ds' ->
  secured l ds op -> secured (l0 ++ l) ds' op.
Proof.
  intros Hi Ho. unfold secured. destruct (plan_of op); try done; [|by apply Hi|by apply Ho].
  intros Hin. apply elem_of_app. by right.
Qed.

(** One operation in front of a loop. *)
Lemma loop_spec_cons op op' rest rest' ds1 ds ds' ext0 ext r :
  loop_spec rest rest' ds1 ds' ext r ->
  (op' = op /\ ext0 = [] \/ op' = op /\ (exists q a, ext0 = [EvRequest q a]) \/
   op' = set_broken op /\ ext0 = [EvAck (ack op)] /\ plan_of op = PlanBreak) ->
  (broken op' = false -> secured ext0 ds1 op') ->
  Individual ds ⊆ Individual ds1 -> Objects ds ⊆ Objects ds1 ->
  (forallb validate (Individual ds) = true -> forallb validate (Individual ds1) = true) ->
  loop_spec (op :: rest) (op' :: rest') ds ds' (ext0 ++ ext) r.
Proof.
  intros [Hl Hs Ht Hq Ha Hsec [Hi Ho] Hv] Hop Hsec0 Hi0 Ho0 Hv0.
  assert (Forall (fun e => match e with EvAck _ | EvRequest _ _ => True | _ => False end) ext0) as Hq0.
  { destruct Hop as [[_ ->]|[[_ (q & a & ->)]|(_ & -> & _)]]; repeat constructor. }
  assert (broken op = true -> op' = op) as Hbr.
  { intros Hb%plan_skip. destruct Hop as [[-> _]|[[-> _]|(_ & _ & Hp)]]; congruence. }
  split.
  - simpl. by rewrite Hl.
  - rewrite !unbroken_cons. destruct Hop as [[-> _]|[[-> _]|(-> & _ & Hp)]]; simpl.
    + destruct (broken op); [done|]. by apply sublist_skip.
    + destruct (broken op); [done|]. by apply sublist_skip.
    + destruct (broken op); [done|]. by apply sublist_cons.
  - unfold todo in *. rewrite acks_app, !unbroken_cons.
    destruct Hop as [[-> ->]|[[-> (q & a & ->)]|(-> & -> & Hp)]]; cbn [acks omap list_omap]; simpl.
    + destruct (broken op); simpl; [done|]. rewrite Ht. by rewrite Permutation_middle.
    + destruct (broken op); simpl; [done|]. rewrite Ht. by rewrite Permutation_middle.
    + destruct (broken op) eqn:Eb; simpl; [|by rewrite Ht]. apply plan_skip in Eb. congruence.
  - by apply Forall_app.
  - intros a [Hin|Hin]%elem_of_app.
    + destruct Hop as [[-> ->]|[[-> (q & x & ->)]|(-> & -> & Hp)]];
        [by apply not_elem_of_nil in Hin|by apply list_elem_of_singleton in Hin|].
      apply list_elem_of_singleton in Hin as [= ->]. exists op. split; [|done].
      rewrite unbroken_elem. split; [left|]. destruct (broken op) eqn:Eb; [|done].
      apply plan_skip in Eb. congruence.
    + destruct (Ha a Hin) as (o & Hu & Hx). exists o. split; [|done].
      rewrite unbroken_elem in Hu |- *. destruct Hu. split; [by right|done].
  - intros ->. specialize (Hsec eq_refl). rewrite unbroken_cons.
    assert (Forall (secured (ext0 ++ ext) ds') (unbroken rest')) as Hrest.
    { eapply Forall_impl; [exact Hsec|]. intros o. by apply secured_mono. }
    destruct (broken op') eqn:E; [done|]. constructor; [|done].
    specialize (Hsec0 eq_refl). unfold secured in Hsec0 |- *. destruct (plan_of op'); try done.
    + apply elem_of_app. by left.
    + by apply Hi.
    + by apply Ho.
  - split; etrans; eauto.
  - auto.
Qed.

Lemma loop_spec_stop ops ds ext r :
  r <> Committed -> Forall (fun e => match e with EvRequest _ _ => True | _ => False end) ext ->
  loop_spec ops ops ds ds ext r.
Proof.
  intros Hr Hext. split; try done.
  - assert (acks ext = []) as ->; [|done].
    induction Hext as [|e ext He _ IH]; [done|]. by destruct e.
  - eapply Forall_impl; [exact Hext|]. by intros [].
  - intros a Hin. rewrite Forall_forall in Hext. by apply Hext in Hin.
Qed.

Lemma commit_loop_spec ops tr ds tr' ops' ds' r :
  commit_loop tr ops ds = (tr', ops', ds', r) ->
  exists ext, tr' = tr ++ ext /\ loop_spec ops ops' ds ds' ext r.
Proof.
  revert tr ds tr' ops' ds'. induction ops as [|op rest IH]; intros tr ds tr' ops' ds'.
  { intros [= <- <- <- <-]. exists []. split; [by rewrite app_nil_r|]. split; try done.
    by intros a Ha%not_elem_of_nil. }
  cbn [commit_loop]. destruct (plan_of op) as [| | |q|row|row] eqn:Ep.
  - destruct (commit_loop tr rest ds) as [[[tr1 rest1] ds1] r1] eqn:E. intros [= <- <- <- <-].
    apply IH in E as (ext & -> & Hs). exists ext. split; [done|].
    apply (loop_spec_cons op op _ _ ds ds ds1 [] ext); auto.
    intros Hb. apply plan_skip in Ep. congruence.
  - cbn [markBroken].
    destruct (commit_loop (tr ++ [EvAck (ack op)]) rest ds) as [[[tr1 rest1] ds1] r1] eqn:E.
    intros [= <- <- <- <-]. apply IH in E as (ext & -> & Hs).
    exists (EvAck (ack op) :: ext). split; [by rewrite <- (assoc_L (++))|].
    apply (loop_spec_cons op (set_broken op) _ _ ds ds ds1 [EvAck (ack op)] ext); auto 10. done.
  - intros [= <- <- <- <-]. exists []. split; [by rewrite app_nil_r|]. by apply loop_spec_stop.
  - destruct (ask tr q) as [tr0 [e|]] eqn:Eq; unfold ask in Eq.
    + intros [= <- <- <- <-]. injection Eq as <- _. eexists. split; [done|].
      apply loop_spec_stop; [done|]. by repeat constructor.
    + destruct (commit_loop tr0 rest ds) as [[[tr1 rest1] ds1] r1] eqn:E. intros [= <- <- <- <-].
      apply IH in E as (ext & -> & Hs). injection Eq as <- Ha.
      exists (EvRequest q (db tr q) :: ext). split; [by rewrite <- (assoc_L (++))|].
      apply (loop_spec_cons op op _ _ ds ds ds1 [EvRequest q (db tr q)] ext); eauto 10.
      intros _. unfold secured. rewrite Ep. destruct (db tr q); [left|done].
  - destruct (commit_loop tr rest (add_individual ds row)) as [[[tr1 rest1] ds1] r1] eqn:E.
    intros [= <- <- <- <-]. apply IH in E as (ext & -> & Hs). exists ext. split; [done|].
    apply (loop_spec_cons op op _ _ (add_individual ds row) ds ds1 [] ext); auto; simpl.
    + intros _. unfold secured. rewrite Ep. simpl. set_solver.
    + set_solver.
    + rewrite forallb_app, andb_true_iff. intros ->. simpl. by rewrite (plan_individual op row).
  - destruct (commit_loop tr rest (add_object ds row)) as [[[tr1 rest1] ds1] r1] eqn:E.
    intros [= <- <- <- <-]. apply IH in E as (ext & -> & Hs). exists ext. split; [done|].
    apply (loop_spec_cons op op _ _ (add_object ds row) ds ds1 [] ext); auto; simpl.
    + intros _. unfold secured. rewrite Ep. simpl. set_solver.
    + set_solver.
Qed.

(** An attempt: what it leaves of the operations, and that after a commit
    every remaining operation is stored. *)
Record commit_spec (ops ops' : list PersistOp) (ext : list event) (r : commit_result) : Prop := {
  commit_length : length ops' = length ops;
  commit_sub : unbroken ops' `sublist_of` unbroken ops;
  commit_todo : todo ops ≡ₚ acks ext ++ todo ops';
  commit_quiet : Forall (fun e => match e with EvAck _ | EvRequest _ _ => True | _ => False end) ext;
  commit_acks a : EvAck a ∈ ext -> exists op, op ∈ unbroken ops /\ ack op = a /\ plan_of op = PlanBreak;
  commit_stored : r = Committed -> Forall (stored ext) (unbroken ops');
}.

Lemma secured_stored l ds op b :
  secured l ds op -> b = Answered ->
  stored (l ++ [EvRequest (AppendRows ds) b]) op.
Proof.
  unfold secured, stored, carries. intros Hs ->. destruct (plan_of op); try done.
  - exists q. split; [done|]. apply elem_of_app. by left.
  - exists (AppendRows ds). split; [by exists ds|]. apply elem_of_app. right. left.
  - exists (AppendRows ds). split; [by exists ds|]. apply elem_of_app. right. left.
Qed.

Lemma secured_empty l ds op : secured l ds op -> empty_batch ds = true -> stored l op.
Proof.
  unfold empty_batch. intros Hs [Hi Ho]%andb_true_iff. bool_hyps.
  apply nil_length_inv in Hi, Ho. unfold secured, stored, carries in *.
  destruct (plan_of op); try done; [by exists q| |].
  - rewrite Hi in Hs. by apply not_elem_of_nil in Hs.
  - rewrite Ho in Hs. by apply not_elem_of_nil in Hs.
Qed.

Lemma commit_ok tr ops tr' ops' r :
  commit tr ops = (tr', ops', r) -> exists ext, tr' = tr ++ ext /\ commit_spec ops ops' ext r.
Proof.
  unfold commit. destruct (commit_loop tr ops (MkBatch [] [])) as [[[tr1 ops1] ds] r1] eqn:E.
  apply commit_loop_spec in E as (ext & -> & [Hl Hs Ht Hq Ha Hsec _ Hv]). specialize (Hv eq_refl).
  destruct r1 as [|e|].
  - specialize (Hsec eq_refl). destruct (empty_batch ds) eqn:Ee.
    + intros [= <- <- <-]. exists ext. split; [done|]. split; try done.
      intros _. eapply Forall_impl; [exact Hsec|]. intros o Ho. by eapply secured_empty.
    + unfold AppendDatastreams, ask. rewrite Hv.
      assert (forall r', (r' = Committed -> db (tr ++ ext) (AppendRows ds) = Answered) ->
        commit_spec ops ops1 (ext ++ [EvRequest (AppendRows ds) (db (tr ++ ext) (AppendRows ds))]) r') as Hfin.
      { intros r' Hr. split; try done.
        - rewrite acks_app, (eq_refl : acks [EvRequest _ _] = []). by rewrite app_nil_r.
        - apply Forall_app. split; [done|]. by repeat constructor.
        - intros a [Hin|Hin]%elem_of_app; [by apply Ha|]. by apply list_elem_of_singleton in Hin.
        - intros Hc. eapply Forall_impl; [exact Hsec|]. intros o Ho. apply secured_stored; auto. }
      destruct (db (tr ++ ext) (AppendRows ds)) as [|e b] eqn:Edb; intros [= <- <- <-];
        (eexists; split; [by rewrite <- (assoc_L (++))|]; by apply Hfin).
  - intros [= <- <- <-]. exists ext. split; [done|]. by split.
  - intros [= <- <- <-]. exists ext. split; [done|]. by split.
Qed.

(** ** A whole flush *)

Definition in_backoff (e : event) : Prop :=
  match e with EvPark b => (parkBackoffStart <= b <= parkBackoffCap)%Z | _ => True end.

(** What a finished flush of [ops] did: acknowledged only settled operations,
    each once, and all of them unless it was abandoned; observed stored ones
    in arrival order. *)
Record flush_spec (ops : list PersistOp) (ext : list event) : Prop := {
  flush_disciplined : disciplined ops [] ext;
  flush_once : acks ext ⊆+ todo ops;
  flush_all : EvAbandon ∉ ext -> acks ext ≡ₚ todo ops;
  flush_order : observed ext `sublist_of` unbroken ops;
  flush_backoff : Forall in_backoff ext;
}.

Lemma disciplined_quiet ops l ext :
  Forall (fun e => match e with EvAck _ | EvRequest _ _ => True | _ => False end) ext ->
  (forall a, EvAck a ∈ ext -> exists op, op ∈ unbroken ops /\ ack op = a /\ settled l op) ->
  disciplined ops l ext.
Proof.
  intros Hq. revert l. induction Hq as [|e ext He _ IH]; intros l Ha; simpl; [done|]. split.
  - destruct e; try done. apply Ha. left.
  - apply IH. intros a Hin. destruct (Ha a) as (op & Hop & Hack & Hs); [by right|].
    exists op. split; [done|]. split; [done|].
    destruct Hs as [(q & Hc & Hi)|[(q & er & b & Hal & Hp & Hi)|Hb]]; [left|right; left|right; right; done].
    + exists q. split; [done|]. apply elem_of_app. by left.
    + exists q, er, b. split; [done|]. split; [done|]. apply elem_of_app. by left.
Qed.

Lemma quiet_facts ext :
  Forall (fun e => match e with EvAck _ | EvRequest _ _ => True | _ => False end) ext ->
  observed ext = [] /\ EvAbandon ∉ ext /\ Forall in_backoff ext.
Proof.
  induction 1 as [|e ext He _ (IH1 & IH2 & IH3)]; [by split_and!; [|apply not_elem_of_nil|]|].
  destruct e; try done; (split_and!; [done|by rewrite not_elem_of_cons|by constructor]).
Qed.

(** An attempt, possibly a pause, and then a flush of what is left. *)
Lemma flush_spec_after ops ops' ext1 r mid ext2 :
  commit_spec ops ops' ext1 r ->
  mid = [] \/ (exists b, mid = [EvPark b] /\ (parkBackoffStart <= b <= parkBackoffCap)%Z) ->
  flush_spec ops' ext2 -> flush_spec ops (ext1 ++ mid ++ ext2).
Proof.
  intros [_ Hs Ht Hq Ha _] Hmid [Hd Ho Hall Hord Hb].
  destruct (quiet_facts _ Hq) as (Hob & Hab & Hpk).
  assert (acks mid = [] /\ observed mid = [] /\ EvAbandon ∉ mid /\ Forall in_backoff mid /\
    disciplined ops ext1 mid) as (Hm1 & Hm2 & Hm3 & Hm4 & Hm5).
  { destruct Hmid as [->|(b & -> & Hb0)]; split_and!; try done.
    - apply not_elem_of_nil.
    - by rewrite list_elem_of_singleton.
    - by apply Forall_singleton. }
  assert (forall op, op ∈ unbroken ops' -> op ∈ unbroken ops) as Hsub.
  { intros op Hin. by eapply elem_of_sublist. }
  split.
  - rewrite !disciplined_app. split_and!; [|done|].
    + apply disciplined_quiet; [done|]. intros a Hin. destruct (Ha a Hin) as (op & Hop & Hk & Hp).
      exists op. split; [done|]. split; [done|]. by right; right.
    + by eapply disciplined_from.
  - rewrite !acks_app, Hm1, Ht. by apply submseteq_app.
  - rewrite !not_elem_of_app. intros (_ & _ & Hn). rewrite !acks_app, Hm1, Ht. by rewrite (Hall Hn).
  - rewrite !observed_app, Hob, Hm2. simpl. by etrans.
  - by rewrite !Forall_app.
Qed.

Lemma flush_spec_cons op ops ext1 ext2 :
  flush_spec [op] ext1 -> flush_spec ops ext2 -> flush_spec (op :: ops) (ext1 ++ ext2).
Proof.
  intros [Hd1 Ho1 Hall1 Hord1 Hb1] [Hd2 Ho2 Hall2 Hord2 Hb2].
  assert (unbroken (op :: ops) = unbroken [op] ++ unbroken ops) as Hu.
  { rewrite !unbroken_cons. by destruct (broken op). }
  assert (todo (op :: ops) = todo [op] ++ todo ops) as Ht by (unfold todo; by rewrite Hu, map_app).
  split.
  - rewrite disciplined_app. split.
    + eapply disciplined_from; [|exact Hd1].
      intros o Hin. rewrite Hu. apply elem_of_app. by left.
    + eapply disciplined_from; [|exact Hd2].
      intros o Hin. rewrite Hu. apply elem_of_app. by right.
  - rewrite acks_app, Ht. by apply submseteq_app.
  - rewrite not_elem_of_app, acks_app, Ht. intros [H1 H2]. by rewrite (Hall1 H1), (Hall2 H2).
  - rewrite observed_app, Hu. by apply sublist_app.
  - by rewrite Forall_app.
Qed.

Lemma flush_each_spec flush1 ops tr tr' :
  (forall tr op tr', flush1 tr op = Flushed tr' -> exists ext, tr' = tr ++ ext /\ flush_spec [op] ext) ->
  flush_each flush1 tr ops = Flushed tr' -> exists ext, tr' = tr ++ ext /\ flush_spec ops ext.
Proof.
  intros H1. revert tr. induction ops as [|op ops IH]; intros tr; simpl.
  { intros [= <-]. exists []. split; [by rewrite app_nil_r|]. by split. }
  destruct (flush1 tr op) as [tr1| |] eqn:E; try done. apply H1 in E as (ext1 & -> & Hs1).
  intros (ext2 & -> & Hs2)%IH. exists (ext1 ++ ext2). split; [by rewrite (assoc_L (++))|].
  by apply flush_spec_cons.
Qed.

Lemma acks_of_ids (ops : list PersistOp) : acks (map (fun op => EvAck (ack op)) ops) = map ack ops.
Proof. induction ops as [|op ops IH]; [done|]. simpl. by f_equal. Qed.

Lemma ids_quiet (ops : list PersistOp) :
  Forall (fun e => match e with EvAck _ | EvRequest _ _ => True | _ => False end)
    (map (fun op => EvAck (ack op)) ops).
Proof. induction ops; by constructor. Qed.

(** The events of [finalize]. *)
Definition closing (ops : list PersistOp) : list event :=
  map (fun op => EvAck (ack op)) (unbroken ops) ++
  (if (length (unbroken ops) =? 0)%nat then [] else [EvObserve (unbroken ops)]).

Lemma finalize_closing tr ops : finalize tr ops = tr ++ closing ops.
Proof.
  unfold finalize, closing. destruct (length (unbroken ops) =? 0)%nat; [by rewrite app_nil_r|].
  by rewrite (assoc_L (++)).
Qed.

Lemma closing_facts ops :
  acks (closing ops) = todo ops /\ observed (closing ops) = unbroken ops /\
  EvAbandon ∉ closing ops /\ Forall in_backoff (closing ops).
Proof.
  unfold closing, todo. destruct (quiet_facts _ (ids_quiet (unbroken ops))) as (Hob & Hab & Hpk).
  destruct (length (unbroken ops) =? 0)%nat eqn:E.
  - bool_hyps. apply nil_length_inv in E. rewrite E in *. by split_and!.
  - rewrite acks_app, observed_app, acks_of_ids, Hob. split_and!.
    + apply app_nil_r.
    + apply app_nil_r.
    + rewrite not_elem_of_app, list_elem_of_singleton. naive_solver.
    + apply Forall_app. split; [done|]. by apply Forall_singleton.
Qed.

Lemma closing_disciplined ops ops' l :
  (forall op, op ∈ unbroken ops' -> op ∈ unbroken ops) ->
  Forall (stored l) (unbroken ops') -> disciplined ops l (closing ops').
Proof.
  intros Hsub Hst. unfold closing. rewrite disciplined_app. split.
  - apply disciplined_quiet; [apply ids_quiet|]. intros a Hin.
    apply list_elem_of_fmap in Hin as (op & [= ->] & Hin).
    exists op. split; [auto|]. split; [done|]. left. rewrite Forall_forall in Hst. auto.
  - destruct (length (unbroken ops') =? 0)%nat; [done|]. split; [|done].
    apply Forall_forall. intros op Hin. split; [auto|]. rewrite Forall_forall in Hst.
    destruct (Hst op Hin) as (q & Hc & Hq). exists q. split; [done|]. apply elem_of_app. by left.
Qed.

Lemma finalize_ok tr ops ext1 ops' r :
  commit_spec ops ops' ext1 r -> r = Committed ->
  exists ext, finalize (tr ++ ext1) ops' = tr ++ ext /\ flush_spec ops ext.
Proof.
  intros [_ Hs Ht Hq Ha Hst] Hr. specialize (Hst Hr). rewrite finalize_closing.
  exists (ext1 ++ closing ops'). split; [by rewrite (assoc_L (++))|].
  destruct (quiet_facts _ Hq) as (Hob & Hab & Hpk).
  destruct (closing_facts ops') as (C1 & C2 & C3 & C4).
  assert (forall op, op ∈ unbroken ops' -> op ∈ unbroken ops) as Hsub.
  { intros op Hin. by eapply elem_of_sublist. }
  split.
  - rewrite disciplined_app. split.
    + apply disciplined_quiet; [done|]. intros a Hin. destruct (Ha a Hin) as (op & Hop & Hk & Hp).
      exists op. split; [done|]. split; [done|]. by right; right.
    + by apply closing_disciplined.
  - by rewrite acks_app, C1, Ht.
  - intros _. by rewrite acks_app, C1, Ht.
  - by rewrite observed_app, Hob, C2.
  - by rewrite Forall_app.
Qed.

(** The only operation of an attempt that fails: it is unbroken, and the
    failed request is its own. *)
Lemma commit_single tr op tr' ops' e :
  commit tr [op] = (tr', ops', CommitError e) ->
  ops' = [op] /\ broken op = false /\ exists q b, tr' = tr ++ [EvRequest q (Failed e b)] /\ alone q op.
Proof.
  unfold commit. cbn [commit_loop]. unfold alone. destruct (plan_of op) as [| | |q|row|row] eqn:Ep; try done.
  - assert (broken op = false) as Hb.
    { destruct (broken op) eqn:Eb; [|done]. apply plan_skip in Eb. congruence. }
    unfold ask. destruct (db tr q) as [|e0 b]; [done|]. intros [= <- <- ->]. eauto 10.
  - assert (broken op = false) as Hb.
    { destruct (broken op) eqn:Eb; [|done]. apply plan_skip in Eb. congruence. }
    unfold empty_batch, AppendDatastreams, ask.
    cbn [add_individual add_object Individual Objects app length Nat.eqb andb forallb]. rewrite (plan_individual op row Ep). cbn [andb].
    destruct (db tr _) as [|e0 b]; [done|]. intros [= <- <- ->]. eauto 10.
  - assert (broken op = false) as Hb.
    { destruct (broken op) eqn:Eb; [|done]. apply plan_skip in Eb. congruence. }
    unfold empty_batch, AppendDatastreams, ask.
    cbn [add_individual add_object Individual Objects app length Nat.eqb andb forallb].
    destruct (db tr _) as [|e0 b]; [done|]. intros [= <- <- ->]. eauto 10.
Qed.

Lemma dropped_ok op q e b :
  broken op = false -> alone q op -> isPermanentCommitError e = true ->
  flush_spec [op] ([EvRequest q (Failed e b)] ++ [EvDropped op; EvAck (ack op)]).
Proof.
  intros Hb Ha Hp.
  assert (unbroken [op] = [op]) as Hu by (rewrite unbroken_cons; by rewrite Hb).
  assert (acks ([EvRequest q (Failed e b)] ++ [EvDropped op; EvAck (ack op)]) = todo [op]) as Hk.
  { unfold todo. by rewrite Hu. }
  split.
  - simpl. split; [done|]. split; [done|]. split; [|done]. exists op. rewrite Hu. split; [left|].
    split; [done|]. right. left. exists q, e, b. split_and!; try done. left.
  - by rewrite Hk.
  - by rewrite Hk.
  - simpl. apply sublist_nil_l.
  - repeat constructor.
Qed.

Lemma start_in_range : (parkBackoffStart <= parkBackoffStart <= parkBackoffCap)%Z.
Proof. unfold parkBackoffStart, parkBackoffCap. lia. Qed.

Lemma next_in_range b :
  (parkBackoffStart <= b <= parkBackoffCap)%Z ->
  (parkBackoffStart <= Z.min (b * 2) parkBackoffCap <= parkBackoffCap)%Z.
Proof. unfold parkBackoffStart, parkBackoffCap. lia. Qed.

Lemma flush_loop_spec fuel tr ops backoff tr' :
  (parkBackoffStart <= backoff <= parkBackoffCap)%Z ->
  flush_loop fuel tr ops backoff = Flushed tr' ->
  exists ext, tr' = tr ++ ext /\ flush_spec ops ext.
Proof.
  revert tr ops backoff tr'. induction fuel as [|fuel IH]; intros tr ops backoff tr' Hbo; [done|].
  cbn [flush_loop]. destruct (commit tr ops) as [[tr1 ops1] r] eqn:E.
  pose proof E as Ec. apply commit_ok in Ec as (ext1 & -> & Hc). destruct r as [|e|]; [| |done].
  - intros [= <-]. by eapply finalize_ok.
  - destruct (isPermanentCommitError e) eqn:Ep.
    + destruct ops1 as [|op1 ops1].
      { intros (ext2 & -> & Hs2)%flush_each_spec; [|intros ???; apply IH, start_in_range].
        exists (ext1 ++ [] ++ ext2). split; [by rewrite <- (assoc_L (++))|].
        eapply flush_spec_after; eauto. }
      destruct ops1 as [|op2 ops1].
      * pose proof (commit_length _ _ _ _ Hc) as Hl. destruct ops as [|op [|]]; try done.
        apply commit_single in E as (Hops & Hb & q & b & Hext & Hal). injection Hops as ->.
        apply app_inv_head in Hext as ->. intros [= <-].
        eexists. split; [by rewrite <- (assoc_L (++))|]. by apply dropped_ok.
      * intros (ext2 & -> & Hs2)%flush_each_spec; [|intros ???; apply IH, start_in_range].
        exists (ext1 ++ [] ++ ext2). split; [by rewrite <- (assoc_L (++))|].
        eapply flush_spec_after; eauto.
    + destruct (quit _).
      * intros [= <-]. exists (ext1 ++ [EvPark backoff] ++ [EvAbandon]).
        split; [by rewrite <- !(assoc_L (++))|]. eapply flush_spec_after; [done|eauto|].
        split; simpl; try done.
        -- apply submseteq_nil_l.
        -- intros Hn. destruct Hn. left.
        -- apply sublist_nil_l.
        -- by repeat constructor.
      * intros (ext2 & -> & Hs2)%IH.
        -- exists (ext1 ++ [EvPark backoff] ++ ext2). split; [by rewrite <- !(assoc_L (++))|].
           eapply flush_spec_after; eauto.
        -- by apply next_in_range.
Qed.

(** ** Termination *)

Definition is_request (e : event) : Prop := match e with EvRequest _ _ => True | _ => False end.
#[local] Instance is_request_dec e : Decision (is_request e).
Proof. destruct e; apply _. Defined.
Definition requests (tr : list event) : nat := length (filter is_request tr).

Lemma requests_app x y : requests (x ++ y) = requests x + requests y.
Proof. unfold requests. by rewrite filter_app, length_app. Qed.

Lemma requests_snoc tr q a : requests (tr ++ [EvRequest q a]) = S (requests tr).
Proof. rewrite requests_app, (eq_refl : requests [EvRequest q a] = 1). lia. Qed.
Lemma requests_park tr b : requests (tr ++ [EvPark b]) = requests tr.
Proof. rewrite requests_app, (eq_refl : requests [EvPark b] = 0). lia. Qed.

(** A failed attempt ends with a request, and the database's answer to it is
    the error. *)
Lemma commit_loop_error ops tr ds tr' ops' ds' e :
  commit_loop tr ops ds = (tr', ops', ds', CommitError e) ->
  exists ext q b, tr' = tr ++ ext ++ [EvRequest q (Failed e b)] /\ db (tr ++ ext) q = Failed e b.
Proof.
  revert tr ds tr' ops' ds'. induction ops as [|op rest IH]; intros tr ds tr' ops' ds'; [done|].
  assert (forall ext0 op1 ds1,
    (let '(tr2, rest2, ds2, r2) := commit_loop (tr ++ ext0) rest ds1 in (tr2, op1 :: rest2, ds2, r2))
      = (tr', ops', ds', CommitError e) ->
    exists ext q b, tr' = tr ++ ext ++ [EvRequest q (Failed e b)] /\ db (tr ++ ext) q = Failed e b) as Hcont.
  { intros ext0 op1 ds1. destruct (commit_loop (tr ++ ext0) rest ds1) as [[[tr2 rest2] ds2] r2] eqn:E.
    intros [= -> _ -> ->]. apply IH in E as (ext & q & b & -> & Hdb).
    exists (ext0 ++ ext), q, b. by rewrite !(assoc_L (++)) in *. }
  cbn [commit_loop]. destruct (plan_of op) as [| | |q|row|row]; try done.
  - rewrite <- (app_nil_r tr) at 1. apply Hcont.
  - cbn [markBroken]. apply Hcont.
  - destruct (ask tr q) as [tr1 [e1|]] eqn:Eq; unfold ask in Eq; injection Eq as <- Ha; [|apply Hcont].
    intros [= <- <- <- <-]. destruct (db tr q) as [|e0 b] eqn:Edb; [done|]. injection Ha as ->.
    exists [], q, b. split; [done|]. by rewrite app_nil_r.
  - rewrite <- (app_nil_r tr) at 1. apply Hcont.
  - rewrite <- (app_nil_r tr) at 1. apply Hcont.
Qed.

Lemma commit_error_request tr ops tr' ops' e :
  commit tr ops = (tr', ops', CommitError e) ->
  exists ext q b, tr' = tr ++ ext ++ [EvRequest q (Failed e b)] /\ db (tr ++ ext) q = Failed e b.
Proof.
  unfold commit. destruct (commit_loop tr ops (MkBatch [] [])) as [[[tr1 ops1] ds] r1] eqn:E.
  destruct r1 as [|e1|]; [|intros [= <- _ ->]; by eapply commit_loop_error|done].
  destruct (empty_batch ds); [done|].
  apply commit_loop_spec in E as (ext & -> & [_ _ _ _ _ _ _ Hv]). specialize (Hv eq_refl).
  unfold AppendDatastreams, ask. rewrite Hv. destruct (db (tr ++ ext) (AppendRows ds)) as [|e0 b] eqn:Edb; [done|].
  intros [= <- _ ->]. exists ext, (AppendRows ds), b. by rewrite <- (assoc_L (++)).
Qed.

(** An operation the code can convert or refuse without a panic. *)
Definition sound (op : PersistOp) : Prop := plan_of op <> PlanPanic.

Lemma commit_loop_sound ops tr ds tr' ops' ds' r :
  Forall sound ops -> commit_loop tr ops ds = (tr', ops', ds', r) ->
  Forall sound ops' /\ r <> CommitPanic.
Proof.
  intros Hs. revert tr ds tr' ops' ds'. induction Hs as [|op rest Hop Hrest IH]; intros tr ds tr' ops' ds'.
  { by intros [= <- <- <- <-]. }
  assert (forall tr1 op1 ds1, sound op1 ->
    (let '(tr2, rest2, ds2, r2) := commit_loop tr1 rest ds1 in (tr2, op1 :: rest2, ds2, r2))
      = (tr', ops', ds', r) -> Forall sound ops' /\ r <> CommitPanic) as Hcont.
  { intros tr1 op1 ds1 Hop1. destruct (commit_loop tr1 rest ds1) as [[[tr2 rest2] ds2] r2] eqn:E.
    intros [= <- <- <- <-]. apply IH in E as [H1 H2]. split; [by constructor|done]. }
  cbn [commit_loop]. destruct (plan_of op) as [| | |q|row|row] eqn:Ep; try (by apply Hcont); [done|].
  destruct (ask tr q) as [tr1 [e|]]; [|by apply Hcont]. intros [= <- <- <- <-]. split; [by constructor|done].
Qed.

Lemma commit_sound tr ops tr' ops' r :
  Forall sound ops -> commit tr ops = (tr', ops', r) -> Forall sound ops' /\ r <> CommitPanic.
Proof.
  intros Hs. unfold commit. destruct (commit_loop tr ops (MkBatch [] [])) as [[[tr1 ops1] ds] r1] eqn:E.
  apply commit_loop_sound in E as [H1 H2]; [|done].
  destruct r1; [|by intros [= <- <- <-]|done]. destruct (empty_batch ds); [by intros [= <- <- <-]|].
  destruct (AppendDatastreams tr1 ds) as [tr2 [e|]]; by intros [= <- <- <-].
Qed.

(** The database stops failing transiently after [n] requests. *)
Definition outage_ends (n : nat) : Prop :=
  forall tr q e b, n <= requests tr -> db tr q = Failed e b -> isPermanentCommitError e = true.
(** The shutdown comes after [n] requests at the latest. *)
Definition shutdown_by (n : nat) : Prop := forall tr, n <= requests tr -> quit tr = true.

(** A retry is one the budget pays for. *)
Lemma retry_budget n tr ops tr' ops' e backoff :
  outage_ends n \/ shutdown_by n ->
  commit tr ops = (tr', ops', CommitError e) -> isPermanentCommitError e = false ->
  quit (tr' ++ [EvPark backoff]) = false ->
  n - requests (tr' ++ [EvPark backoff]) < n - requests tr.
Proof.
  intros Hn (ext & q & b & -> & Hdb)%commit_error_request He Hq.
  assert (requests (tr ++ ext ++ [EvRequest q (Failed e b)]) = S (requests (tr ++ ext)) /\
    requests tr <= requests (tr ++ ext)) as [Hr Hle].
  { rewrite (assoc_L (++)), requests_snoc, requests_app. lia. }
  rewrite requests_park. destruct Hn as [Hn|Hn].
  - destruct (decide (n <= requests (tr ++ ext))) as [Hc|Hc]; [|lia].
    rewrite (Hn _ _ _ _ Hc Hdb) in He. done.
  - destruct (decide (n <= requests ((tr ++ ext ++ [EvRequest q (Failed e b)]) ++ [EvPark backoff]))) as [Hc|Hc].
    + rewrite (Hn _ Hc) in Hq. done.
    + rewrite requests_park in Hc. lia.
Qed.

Lemma flush_each_done flush1 ops tr0 tr :
  (forall tr op, requests tr0 <= requests tr -> sound op ->
     exists ext, flush1 tr op = Flushed (tr ++ ext)) ->
  requests tr0 <= requests tr -> Forall sound ops ->
  exists tr', flush_each flush1 tr ops = Flushed tr'.
Proof.
  intros H1 Hle Hs. revert tr Hle. induction Hs as [|op ops Hop _ IH]; intros tr Hle; simpl; [by exists tr|].
  destruct (H1 tr op Hle Hop) as (ext & ->). apply IH. rewrite requests_app. lia.
Qed.

Lemma flush_loop_single n fuel tr op backoff :
  outage_ends n \/ shutdown_by n -> sound op -> n - requests tr < fuel ->
  exists tr', flush_loop fuel tr [op] backoff = Flushed tr'.
Proof.
  intros Hn. revert tr op backoff. induction fuel as [|fuel IH]; intros tr op backoff Hs Hf; [lia|].
  cbn [flush_loop]. destruct (commit tr [op]) as [[tr1 ops1] r] eqn:E.
  pose proof (commit_sound _ _ _ _ _ (proj2 (Forall_singleton sound op) Hs) E) as [Hs1 Hr].
  destruct r as [|e|]; [by eexists| |done].
  pose proof E as Ec. apply commit_single in Ec as (-> & _).
  destruct (isPermanentCommitError e) eqn:Ep; [by eexists|].
  destruct (quit _) eqn:Eq; [by eexists|].
  pose proof (retry_budget n _ _ _ _ _ _ Hn E Ep Eq). apply IH; [done|lia].
Qed.

Lemma flush_loop_done n fuel tr ops backoff :
  outage_ends n \/ shutdown_by n -> Forall sound ops -> S (n - requests tr) < fuel ->
  exists tr', flush_loop fuel tr ops backoff = Flushed tr'.
Proof.
  intros Hn. revert tr ops backoff. induction fuel as [|fuel IH]; intros tr ops backoff Hs Hf; [lia|].
  cbn [flush_loop]. destruct (commit tr ops) as [[tr1 ops1] r] eqn:E.
  pose proof (commit_sound _ _ _ _ _ Hs E) as [Hs1 Hr].
  destruct r as [|e|]; [by eexists| |done].
  destruct (isPermanentCommitError e) eqn:Ep.
  - assert (exists tr', flush_each (fun tr op => flush_loop fuel tr [op] parkBackoffStart) tr1 ops1
      = Flushed tr') as Heach.
    { apply (flush_each_done _ _ tr1); [|done|done]. intros tr2 op2 Hle Hop2.
      destruct (flush_loop_single n fuel tr2 op2 parkBackoffStart Hn Hop2) as [tr' Htr'].
      - apply commit_error_request in E as (ext & q & b & -> & _). rewrite requests_app in Hle. lia.
      - rewrite Htr'. destruct (flush_loop_spec _ _ _ _ _ start_in_range Htr') as (ext & -> & _).
        by exists ext. }
    destruct ops1 as [|op1 [|]]; [done|by eexists|done].
  - destruct (quit _) eqn:Eq; [by eexists|].
    pose proof (retry_budget n _ _ _ _ _ _ Hn E Ep Eq). apply IH; [done|lia].
Qed.

(** ** The store after a flush *)

Record store := MkStore {
  sProps : gmap prop_key Property;
  sIndividual : list IndividualRow;
  sObjects : list ObjectRow;
}.

Definition property_key (p : Property) : prop_key :=
  (pRealmID p, pDeviceID p, pInterfaceID p, pPath p).

(** [INSERT ... ON CONFLICT DO UPDATE], [DELETE] and the two [COPY]s. *)
Definition apply_request (q : request) (st : store) : store :=
  match q with
  | UpsertProperty p => MkStore (<[property_key p := p]> (sProps st)) (sIndividual st) (sObjects st)
  | UnsetProperty k => MkStore (delete k (sProps st)) (sIndividual st) (sObjects st)
  | AppendRows b => MkStore (sProps st) (sIndividual st ++ Individual b) (sObjects st ++ Objects b)
  end.
Definition took_effect (a : answer) : bool := match a with Answered => true | Failed _ b => b end.
Definition apply_event (st : store) (e : event) : store :=
  match e with
  | EvRequest q a => if took_effect a then apply_request q st else st
  | _ => st
  end.
Definition replay (st : store) (tr : list event) : store := foldl apply_event st tr.

(** The abstract effect of an operation on the properties: last value wins. *)
Definition apply_prop (m : gmap prop_key Property) (op : PersistOp) : gmap prop_key Property :=
  match plan_of op with
  | PlanRequest (UpsertProperty p) => <[property_key p := p]> m
  | PlanRequest (UnsetProperty k) => delete k m
  | _ => m
  end.
Definition op_row (op : PersistOp) : option IndividualRow :=
  match plan_of op with PlanIndividual row => Some row | _ => None end.
Definition op_object (op : PersistOp) : option ObjectRow :=
  match plan_of op with PlanObject row => Some row | _ => None end.

Definition prop_target (op : PersistOp) : option prop_key :=
  match plan_of op with
  | PlanRequest (UpsertProperty p) => Some (property_key p)
  | PlanRequest (UnsetProperty k) => Some k
  | _ => None
  end.

Lemma apply_prop_lookup m op k :
  apply_prop m op !! k =
  if decide (prop_target op = Some k)
  then match plan_of op with PlanRequest (UpsertProperty p) => Some p | _ => None end
  else m !! k.
Proof.
  unfold apply_prop, prop_target.
  destruct (plan_of op) as [| | |[p|k0|b]| |]; case_decide as E; try done.
  - injection E as <-. by rewrite lookup_insert_eq.
  - rewrite lookup_insert_ne; [done|]. congruence.
  - injection E as <-. by rewrite lookup_delete_eq.
  - rewrite lookup_delete_ne; [done|]. congruence.
Qed.

(** Two stores that agree outside the keys a sequence of operations writes
    are the same after it: a replay of any part of the sequence is harmless. *)
Definition agree_outside (ops : list PersistOp) (m n : gmap prop_key Property) : Prop :=
  forall k, (forall op, op ∈ ops -> prop_target op <> Some k) -> m !! k = n !! k.

Lemma fold_agree ops m n : agree_outside ops m n -> foldl apply_prop m ops = foldl apply_prop n ops.
Proof.
  revert m n. induction ops as [|op ops IH]; intros m n Ha; simpl.
  - apply map_eq. intros k. apply Ha. by intros op ?%not_elem_of_nil.
  - apply IH. intros k Hk. rewrite !apply_prop_lookup. case_decide; [done|]. apply Ha.
    intros o [->|Hin]%elem_of_cons; [done|by apply Hk].
Qed.

Lemma replay_app st x y : replay st (x ++ y) = replay (replay st x) y.
Proof. apply foldl_app. Qed.

Lemma plan_request op q :
  plan_of op = PlanRequest q -> match q with AppendRows _ => False | _ => True end.
Proof.
  unfold plan_of. destruct (broken op); [done|].
  destruct (Kind op); try (intros Hp%plan_row_inv; destruct Hp as (x & _ & Hk); by simplify_eq).
  by intros [= <-].
Qed.

(** What matters of an operation to the store; a broken one matters as little
    as a skipped one. *)
Definition effect_of (op : PersistOp) : plan :=
  match plan_of op with PlanBreak => PlanSkip | p => p end.

Lemma effect_of_broken op : plan_of op = PlanBreak -> effect_of (set_broken op) = effect_of op.
Proof. unfold effect_of. by intros ->. Qed.

Lemma same_effect op op' :
  effect_of op = effect_of op' ->
  (forall m, apply_prop m op = apply_prop m op') /\ prop_target op = prop_target op' /\
  op_row op = op_row op' /\ op_object op = op_object op'.
Proof.
  unfold effect_of, apply_prop, prop_target, op_row, op_object.
  destruct (plan_of op), (plan_of op'); intros E; try done; by injection E as ->.
Qed.

Lemma effects_fold ops ops' m :
  map effect_of ops = map effect_of ops' -> foldl apply_prop m ops = foldl apply_prop m ops'.
Proof.
  revert ops' m. induction ops as [|op ops IH]; intros [|op' ops'] m; try done.
  intros [= [Ha _]%same_effect Hr]. simpl. rewrite Ha. by apply IH.
Qed.

Lemma effects_rows ops ops' :
  map effect_of ops = map effect_of ops' ->
  omap op_row ops = omap op_row ops' /\ omap op_object ops = omap op_object ops'.
Proof.
  revert ops'. induction ops as [|op ops IH]; intros [|op' ops']; try done.
  intros [= (_ & _ & Hr & Ho)%same_effect Hrest]. destruct (IH _ Hrest) as [E1 E2].
  cbn [omap list_omap]. by rewrite Hr, Ho, E1, E2.
Qed.

Lemma effects_agree ops ops' m n :
  map effect_of ops = map effect_of ops' -> agree_outside ops m n -> agree_outside ops' m n.
Proof.
  intros He Ha k Hk. apply Ha. intros op Hin.
  assert (exists op', op' ∈ ops' /\ effect_of op = effect_of op') as (op' & Hin' & E).
  { assert (effect_of op ∈ map effect_of ops') as Hm.
    { rewrite <- He. apply list_elem_of_fmap. by exists op. }
    apply list_elem_of_fmap in Hm as (op' & E & Hin'). eauto. }
  apply same_effect in E as (_ & -> & _). by apply Hk.
Qed.

(** No failed request took effect. *)
Definition lossless (ext : list event) : Prop :=
  Forall (fun e => match e with EvRequest _ (Failed _ true) => False | _ => True end) ext.

Record loop_effect (ops ops' : list PersistOp) (ds ds' : DatastreamBatch) (ext : list event)
    (r : commit_result) : Prop := {
  eff_ops : map effect_of ops' = map effect_of ops;
  eff_props st : r = Committed -> sProps (replay st ext) = foldl apply_prop (sProps st) ops;
  eff_agree st : agree_outside ops (sProps (replay st ext)) (sProps st);
  eff_tables st : sIndividual (replay st ext) = sIndividual st /\ sObjects (replay st ext) = sObjects st;
  eff_batch : r = Committed ->
    Individual ds' = Individual ds ++ omap op_row ops /\ Objects ds' = Objects ds ++ omap op_object ops;
}.

(** One request of a plan, as an event. *)
Lemma request_effect op q a st :
  plan_of op = PlanRequest q ->
  let st' := apply_event st (EvRequest q a) in
  (a = Answered -> sProps st' = apply_prop (sProps st) op) /\
  agree_outside [op] (sProps st') (sProps st) /\
  sIndividual st' = sIndividual st /\ sObjects st' = sObjects st.
Proof.
  intros Hp. pose proof (plan_request _ _ Hp) as Hq.
  assert (sProps (apply_request q st) = apply_prop (sProps st) op /\
    sIndividual (apply_request q st) = sIndividual st /\ sObjects (apply_request q st) = sObjects st)
    as (E1 & E2 & E3).
  { unfold apply_prop. rewrite Hp. by destruct q. }
  simpl. destruct (took_effect a) eqn:Et; split_and!; try done.
  - intros k Hk. rewrite E1, apply_prop_lookup. rewrite decide_False; [done|]. apply Hk. left.
  - by intros ->.
Qed.

Lemma agree_cons op ops m n p :
  agree_outside [op] m n -> agree_outside ops p m -> agree_outside (op :: ops) p n.
Proof.
  intros H1 H2 k Hk. rewrite H2, H1; [done|..].
  - intros o ->%list_elem_of_singleton. apply Hk. left.
  - intros o Hin. apply Hk. by right.
Qed.

Lemma agree_refl ops m : agree_outside ops m m.
Proof. done. Qed.

(** One operation in front of a loop. *)
Lemma loop_effect_cons op op' rest rest' ds ds1 ds' ext0 ext r :
  loop_effect rest rest' ds1 ds' ext r -> effect_of op' = effect_of op ->
  (forall st, sProps (replay st ext0) = apply_prop (sProps st) op /\
    sIndividual (replay st ext0) = sIndividual st /\ sObjects (replay st ext0) = sObjects st) ->
  Individual ds1 = Individual ds ++ option_list (op_row op) ->
  Objects ds1 = Objects ds ++ option_list (op_object op) ->
  loop_effect (op :: rest) (op' :: rest') ds ds' (ext0 ++ ext) r.
Proof.
  intros [E1 E2 E3 E4 E5] He H0 Hi Ho. split.
  - simpl. by rewrite He, E1.
  - intros st Hr. rewrite replay_app, E2 by done. destruct (H0 st) as [-> _]. done.
  - intros st. rewrite replay_app. eapply agree_cons; [|apply E3].
    destruct (H0 st) as [-> _]. intros k Hk. rewrite apply_prop_lookup, decide_False; [done|]. apply Hk. left.
  - intros st. rewrite replay_app. destruct (E4 (replay st ext0)) as [-> ->]. by destruct (H0 st) as (_ & -> & ->).
  - intros Hr. destruct (E5 Hr) as [-> ->]. rewrite Hi, Ho. cbn [omap list_omap].
    destruct (op_row op), (op_object op); simpl; by rewrite <- ?app_assoc, ?app_nil_r.
Qed.

Lemma commit_loop_effect ops tr ds tr' ops' ds' r :
  commit_loop tr ops ds = (tr', ops', ds', r) ->
  exists ext, tr' = tr ++ ext /\ loop_effect ops ops' ds ds' ext r.
Proof.
  revert tr ds tr' ops' ds'. induction ops as [|op rest IH]; intros tr ds tr' ops' ds'.
  { intros [= <- <- <- <-]. exists []. split; [by rewrite app_nil_r|]. split; try done.
    by rewrite !app_nil_r. }
  assert (forall ext0 op1 ds1, effect_of op1 = effect_of op ->
    (forall st, sProps (replay st ext0) = apply_prop (sProps st) op /\
      sIndividual (replay st ext0) = sIndividual st /\ sObjects (replay st ext0) = sObjects st) ->
    Individual ds1 = Individual ds ++ option_list (op_row op) ->
    Objects ds1 = Objects ds ++ option_list (op_object op) ->
    (let '(tr2, rest2, ds2, r2) := commit_loop (tr ++ ext0) rest ds1 in (tr2, op1 :: rest2, ds2, r2))
      = (tr', ops', ds', r) ->
    exists ext, tr' = tr ++ ext /\ loop_effect (op :: rest) ops' ds ds' ext r) as Hcont.
  { intros ext0 op1 ds1 He H0 Hi Ho.
    destruct (commit_loop (tr ++ ext0) rest ds1) as [[[tr2 rest2] ds2] r2] eqn:E. intros [= <- <- <- <-].
    apply IH in E as (ext & -> & Hs). exists (ext0 ++ ext). split; [by rewrite (assoc_L (++))|].
    by eapply loop_effect_cons. }
  cbn [commit_loop]. destruct (plan_of op) as [| | |q|row|row] eqn:Ep.
  - rewrite <- (app_nil_r tr) at 1. apply Hcont; [done|..]; unfold apply_prop, op_row, op_object; rewrite Ep;
      simpl; rewrite ?app_nil_r; done.
  - cbn [markBroken]. apply Hcont; [by apply effect_of_broken|..];
      unfold apply_prop, op_row, op_object; rewrite Ep; simpl; rewrite ?app_nil_r; done.
  - intros [= <- <- <- <-]. exists []. split; [by rewrite app_nil_r|]. by split.
  - destruct (ask tr q) as [tr1 [e1|]] eqn:Eq; unfold ask in Eq; injection Eq as <- Ha.
    + intros [= <- <- <- <-]. eexists. split; [done|]. split; try done.
      * intros st k Hk. destruct (request_effect op q (db tr q) st Ep) as (_ & Hag & _).
        apply Hag. intros o ->%list_elem_of_singleton. apply Hk. left.
      * intros st. destruct (request_effect op q (db tr q) st Ep) as (_ & _ & Hi & Ho). exact (conj Hi Ho).
    + apply Hcont; [done| |unfold op_row; rewrite Ep; simpl; by rewrite app_nil_r
                     |unfold op_object; rewrite Ep; simpl; by rewrite app_nil_r].
      intros st. destruct (request_effect op q (db tr q) st Ep) as (Hp & _ & Hi & Ho).
      split_and!; [|done|done]. apply Hp. by destruct (db tr q).
  - rewrite <- (app_nil_r tr) at 1. apply Hcont; [done|..]; unfold apply_prop, op_row, op_object; rewrite Ep;
      simpl; rewrite ?app_nil_r; done.
  - rewrite <- (app_nil_r tr) at 1. apply Hcont; [done|..]; unfold apply_prop, op_row, op_object; rewrite Ep;
      simpl; rewrite ?app_nil_r; done.
Qed.

(** The effect of an attempt on the store. *)
Record commit_effect (ops ops' : list PersistOp) (ext : list event) (r : commit_result) : Prop := {
  ceff_ops : map effect_of ops' = map effect_of ops;
  ceff_props st : r = Committed -> sProps (replay st ext) = foldl apply_prop (sProps st) ops;
  ceff_agree st : agree_outside ops (sProps (replay st ext)) (sProps st);
  ceff_tables st : lossless ext ->
    sIndividual (replay st ext) =
      sIndividual st ++ match r with Committed => omap op_row ops | _ => [] end /\
    sObjects (replay st ext) =
      sObjects st ++ match r with Committed => omap op_object ops | _ => [] end;
}.

Lemma commit_effect_ok tr ops tr' ops' r :
  commit tr ops = (tr', ops', r) -> exists ext, tr' = tr ++ ext /\ commit_effect ops ops' ext r.
Proof.
  unfold commit. destruct (commit_loop tr ops (MkBatch [] [])) as [[[tr1 ops1] ds] r1] eqn:E.
  pose proof E as Ev. apply commit_loop_spec in Ev as (_ & _ & [_ _ _ _ _ _ _ Hv]). specialize (Hv eq_refl).
  apply commit_loop_effect in E as (ext & -> & [E1 E2 E3 E4 E5]).
  assert (r1 <> Committed -> commit_effect ops ops1 ext r1) as Hstop.
  { intros Hr. split; try done. intros st _. destruct (E4 st) as [-> ->]. destruct r1; [done|..];
      by rewrite !app_nil_r. }
  destruct r1 as [|e|]; [|intros [= <- <- <-]; exists ext; auto..].
  destruct (E5 eq_refl) as [Ei Eo]. simpl in Ei, Eo. destruct (empty_batch ds) eqn:Ee.
  - intros [= <- <- <-]. exists ext. split; [done|]. split; try done.
    + intros st _. destruct (E4 st) as [-> ->]. unfold empty_batch in Ee. apply andb_true_iff in Ee as [Hi Ho].
      bool_hyps. apply nil_length_inv in Hi, Ho. rewrite <- Ei, <- Eo, Hi, Ho. by rewrite !app_nil_r.
  - unfold AppendDatastreams, ask. rewrite Hv.
    set (a := db (tr ++ ext) (AppendRows ds)). intros Hx.
    assert (tr' = tr ++ (ext ++ [EvRequest (AppendRows ds) a]) /\ ops' = ops1 /\
      r = match a with Answered => Committed | Failed e _ => CommitError e end) as (-> & -> & ->).
    { rewrite (assoc_L (++)). by destruct a; injection Hx as <- <- <-. }
    eexists. split; [done|].
    assert (forall st, sProps (replay st (ext ++ [EvRequest (AppendRows ds) a])) = sProps (replay st ext)) as Hp.
    { intros st. rewrite replay_app. simpl. by destruct (took_effect a). }
    split; try done.
    + intros st _. rewrite Hp. by apply E2.
    + intros st. rewrite Hp. apply E3.
    + intros st [_ Hl]%Forall_app. rewrite Forall_singleton in Hl. rewrite replay_app. simpl.
      destruct (E4 st) as [H1 H2]. destruct a as [|e []]; [|done|]; simpl; rewrite H1, H2, ?app_nil_r; [|done].
      by rewrite Ei, Eo.
Qed.

(** No request was refused for good. *)
Definition accepted (ext : list event) : Prop :=
  Forall (fun e => match e with EvRequest _ (Failed er _) => isPermanentCommitError er = false | _ => True end) ext.

Lemma replay_ids st (ops : list PersistOp) : replay st (map (fun op => EvAck (ack op)) ops) = st.
Proof. revert st. induction ops as [|op ops IH]; intros st; [done|]. apply IH. Qed.

Lemma replay_closing st ops : replay st (closing ops) = st.
Proof.
  unfold closing. rewrite replay_app, replay_ids. by destruct (length (unbroken ops) =? 0)%nat.
Qed.

Lemma rows_unbroken ops :
  omap op_row ops = omap op_row (unbroken ops) /\ omap op_object ops = omap op_object (unbroken ops).
Proof.
  induction ops as [|op ops [IH1 IH2]]; [done|]. rewrite unbroken_cons.
  destruct (broken op) eqn:Eb; cbn [omap list_omap]; [|by rewrite IH1, IH2].
  apply plan_skip in Eb. unfold op_row at 1, op_object at 1. by rewrite Eb.
Qed.

Lemma commit_both tr ops tr' ops' r :
  commit tr ops = (tr', ops', r) ->
  exists ext, tr' = tr ++ ext /\ commit_spec ops ops' ext r /\ commit_effect ops ops' ext r.
Proof.
  intros E. destruct (commit_ok _ _ _ _ _ E) as (ext & -> & Hs).
  destruct (commit_effect_ok _ _ _ _ _ E) as (ext' & Heq & He). apply app_inv_head in Heq as <-. eauto.
Qed.

(** An accepted, finished flush leaves the properties as one pass of the
    operations would, however often it was retried. *)
Lemma flush_loop_props fuel tr ops backoff ext st :
  (parkBackoffStart <= backoff <= parkBackoffCap)%Z ->
  flush_loop fuel tr ops backoff = Flushed (tr ++ ext) ->
  accepted ext -> EvAbandon ∉ ext ->
  sProps (replay st ext) = foldl apply_prop (sProps st) ops.
Proof.
  revert tr ops backoff ext st. induction fuel as [|fuel IH]; intros tr ops backoff ext st Hbo; [done|].
  cbn [flush_loop]. destruct (commit tr ops) as [[tr1 ops1] r] eqn:E.
  pose proof E as Ec. apply commit_both in Ec as (ext1 & -> & _ & [C1 C2 C3 _]).
  destruct r as [|e|]; [| |done].
  - rewrite finalize_closing, <- (assoc_L (++)). intros [= <-%app_inv_head] _ _.
    rewrite replay_app, replay_closing. by apply C2.
  - destruct (isPermanentCommitError e) eqn:Ep.
    { apply commit_error_request in E as (ext0 & q & b & Heq & _). apply app_inv_head in Heq as ->.
      intros Hx Ha _. exfalso.
      assert (exists x, ext = (ext0 ++ [EvRequest q (Failed e b)]) ++ x) as [x ->].
      { destruct ops1 as [|o1 [|o2 ops1]].
        - apply flush_each_spec in Hx as (x & Heq & _); [|intros ???; apply flush_loop_spec, start_in_range].
          exists x. rewrite <- (assoc_L (++)) in Heq. by apply app_inv_head in Heq.
        - injection Hx as Heq. rewrite <- (assoc_L (++)) in Heq. apply app_inv_head in Heq as <-. by eexists.
        - apply flush_each_spec in Hx as (x & Heq & _); [|intros ???; apply flush_loop_spec, start_in_range].
          exists x. rewrite <- (assoc_L (++)) in Heq. by apply app_inv_head in Heq. }
      unfold accepted in Ha. rewrite !Forall_app, Forall_singleton in Ha. destruct Ha as [[_ Ha] _]. congruence. }
    destruct (quit _).
    + intros [= Heq] _ Hn. rewrite <- !(assoc_L (++)) in Heq. apply app_inv_head in Heq as <-.
      destruct Hn. rewrite !elem_of_app. right. right. left.
    + intros Hx Ha Hn.
      destruct (flush_loop_spec _ _ _ _ _ (next_in_range _ Hbo) Hx) as (ext2 & Heq & _).
      rewrite Heq in Hx. rewrite <- !(assoc_L (++)) in Heq. apply app_inv_head in Heq as ->.
      unfold accepted in Ha. rewrite !Forall_app in Ha. destruct Ha as (_ & _ & Ha).
      rewrite !not_elem_of_app in Hn. destruct Hn as (_ & _ & Hn).
      rewrite !replay_app. change (replay (replay st ext1) [EvPark backoff]) with (replay st ext1).
      rewrite (IH _ _ _ _ _ (next_in_range _ Hbo) Hx Ha Hn).
      rewrite (effects_fold ops1 ops _ C1). apply fold_agree, C3.
Qed.

(** Without lost commits, the tables grew by the rows of the observed
    operations and by nothing else. *)
Definition tables_ok (ext : list event) : Prop :=
  lossless ext -> forall st,
  sIndividual (replay st ext) = sIndividual st ++ omap op_row (observed ext) /\
  sObjects (replay st ext) = sObjects st ++ omap op_object (observed ext).

Lemma tables_ok_app x y : tables_ok x -> tables_ok y -> tables_ok (x ++ y).
Proof.
  intros Hx Hy [Lx Ly]%Forall_app st. rewrite replay_app, observed_app, !omap_app.
  destruct (Hy Ly (replay st x)) as [-> ->]. destruct (Hx Lx st) as [-> ->]. by rewrite !(assoc_L (++)).
Qed.

Lemma tables_ok_nil : tables_ok [].
Proof. intros _ st. by rewrite !app_nil_r. Qed.

Lemma tables_ok_commit ops ops' ext r :
  commit_spec ops ops' ext r -> commit_effect ops ops' ext r ->
  (r = Committed -> tables_ok (ext ++ closing ops')) /\ (r <> Committed -> tables_ok ext).
Proof.
  intros [_ _ _ Hq _ _] [C1 _ _ C4]. destruct (quiet_facts _ Hq) as (Hob & _ & _).
  destruct (closing_facts ops') as (_ & Hcl & _). split.
  - intros -> [Hl _]%Forall_app st. rewrite replay_app, replay_closing, observed_app, Hob, Hcl. simpl.
    destruct (C4 st Hl) as [-> ->]. destruct (effects_rows _ _ C1) as [<- <-].
    by destruct (rows_unbroken ops') as [<- <-].
  - intros Hr Hl st. rewrite Hob. destruct (C4 st Hl) as [-> ->]. by destruct r.
Qed.

Lemma flush_each_tables flush1 ops tr tr' :
  (forall tr op tr', flush1 tr op = Flushed tr' -> exists ext, tr' = tr ++ ext /\ tables_ok ext) ->
  flush_each flush1 tr ops = Flushed tr' -> exists ext, tr' = tr ++ ext /\ tables_ok ext.
Proof.
  intros H1. revert tr. induction ops as [|op ops IH]; intros tr; simpl.
  { intros [= <-]. exists []. split; [by rewrite app_nil_r|apply tables_ok_nil]. }
  destruct (flush1 tr op) as [tr1| |] eqn:E; try done. apply H1 in E as (ext1 & -> & Hs1).
  intros (ext2 & -> & Hs2)%IH. exists (ext1 ++ ext2). split; [by rewrite (assoc_L (++))|].
  by apply tables_ok_app.
Qed.

Lemma flush_loop_tables fuel tr ops backoff tr' :
  flush_loop fuel tr ops backoff = Flushed tr' -> exists ext, tr' = tr ++ ext /\ tables_ok ext.
Proof.
  revert tr ops backoff tr'. induction fuel as [|fuel IH]; intros tr ops backoff tr'; [done|].
  cbn [flush_loop]. destruct (commit tr ops) as [[tr1 ops1] r] eqn:E.
  apply commit_both in E as (ext1 & -> & Hs & He).
  destruct (tables_ok_commit _ _ _ _ Hs He) as [Hc Hn].
  destruct r as [|e|]; [| |done].
  - rewrite finalize_closing, <- (assoc_L (++)). intros [= <-]. eauto.
  - specialize (Hn ltac:(done)).
    assert (forall x, tables_ok x -> exists ext, (tr ++ ext1) ++ x = tr ++ ext /\ tables_ok ext) as Hthen.
    { intros x Hx. exists (ext1 ++ x). split; [by rewrite (assoc_L (++))|]. by apply tables_ok_app. }
    assert (forall x, Forall (fun e => match e with EvPark _ | EvAbandon | EvDropped _ | EvAck _ => True | _ => False end) x ->
      tables_ok x) as Hquiet.
    { intros x. induction 1 as [|ev x Hev _ IHx]; [apply tables_ok_nil|].
      apply (tables_ok_app [ev] x); [|done]. intros _ st. destruct ev; try done; by rewrite !app_nil_r. }
    destruct (isPermanentCommitError e).
    + assert (flush_each (fun tr op => flush_loop fuel tr [op] parkBackoffStart) (tr ++ ext1) ops1 = Flushed tr' ->
        exists ext, tr' = tr ++ ext /\ tables_ok ext) as Heach.
      { intros (x & -> & Hx)%flush_each_tables; [by apply Hthen|]. intros ???. apply IH. }
      destruct ops1 as [|o [|]]; [exact Heach| |exact Heach].
      intros [= <-]. apply Hthen, Hquiet. by repeat constructor.
    + destruct (quit _).
      * intros [= <-]. rewrite <- (assoc_L (++)). apply Hthen, Hquiet. by repeat constructor.
      * intros (x & -> & Hx)%IH. rewrite <- (assoc_L (++)). apply Hthen, tables_ok_app; [|done].
        apply Hquiet. by repeat constructor.
Qed.

End Flush.

(** ** The guarantees of a flush *)

Section Guarantees.
Context `{JSONText}.
Variables (db : list event -> request -> answer) (quit : list event -> bool).

(** C2. Acknowledge after commit: a flush acknowledges a message only once its
    operation was confirmed by the store, or refused by the database on its
    own for good, or could not be rendered; it never acknowledges twice, it
    acknowledges every message unless it gave up at shutdown, and it shows
    the observers only confirmed operations, in arrival order. Pauses stay
    between 100 ms and 5 s. *)
Theorem flush_ack_discipline fuel tr ops tr' :
  NoDup (map ack ops) -> Forall (fun op => broken op = false) ops ->
  flush db quit fuel tr ops = Flushed tr' ->
  exists ext, tr' = tr ++ ext /\
    NoDup (acks ext) /\
    (forall l a r, ext = l ++ EvAck a :: r ->
       exists op, op ∈ ops /\ ack op = a /\ settled l op) /\
    (forall l os r, ext = l ++ EvObserve os :: r -> Forall (fun op => op ∈ ops /\ stored l op) os) /\
    (EvAbandon ∉ ext -> acks ext ≡ₚ map ack ops) /\
    observed ext `sublist_of` ops /\
    Forall in_backoff ext.
Proof.
  intros Hnd Hun Hf. assert (unbroken ops = ops) as Hu.
  { clear -Hun. induction Hun as [|op ops Hop _ IH]; [done|]. by rewrite unbroken_cons, Hop, IH. }
  assert (exists ext, tr' = tr ++ ext /\ flush_spec ops ext) as (ext & -> & [Hd Ho Hall Hord Hb]).
  { unfold flush in Hf. destruct (length ops =? 0)%nat eqn:E.
    - injection Hf as <-. bool_hyps. apply nil_length_inv in E as ->. exists [].
      split; [by rewrite app_nil_r|]. by split.
    - by eapply flush_loop_spec; [apply start_in_range|]. }
  exists ext. split; [done|]. unfold todo in *. rewrite Hu in *. split_and!; [| | |done|done|done].
  - apply submseteq_Permutation in Ho as [k Hk]. rewrite Hk in Hnd. by apply NoDup_app in Hnd as (? & _).
  - intros l a r ->. apply (disciplined_app db quit) in Hd as [_ [(op & Hin & Hx) _]]. rewrite Hu in Hin. eauto.
  - intros l os r ->. apply (disciplined_app db quit) in Hd as [_ [Hos _]]. simpl in Hos. by rewrite Hu in Hos.
Qed.

(** A validated operation is neither broken nor a panic. *)
Lemma typed_plan op :
  op_typed op -> broken op = false ->
  match plan_of op with PlanRequest _ | PlanIndividual _ | PlanObject _ => True | _ => False end.
Proof.
  unfold op_typed, plan_of. intros Ht ->. destruct (Kind op).
  - destruct Ht as (m & v & Hm & Hv & Hval).
    by destruct (individualRow_valid op m v Hm Hv Hval) as (row & js & -> & _).
  - destruct Ht as (leaves & o & Hv & Ho). destruct (encode_valid_object leaves o Ho) as [js Hjs].
    unfold objectRow. by rewrite Hv, Hjs.
  - destruct Ht as (m & v & Hm & Hv & Hval). destruct (encode_valid _ _ Hval) as [js Hjs].
    unfold propertyRow. by rewrite Hv, Hjs, Hm.
  - done.
Qed.

Lemma typed_sound ops :
  Forall (fun op => op_typed op /\ broken op = false) ops -> Forall sound ops.
Proof.
  intros Hops. eapply Forall_impl; [exact Hops|]. intros op [Ht Hb] Hp.
  pose proof (typed_plan op Ht Hb) as Hx. by rewrite Hp in Hx.
Qed.

(** C20. A flush of validated operations ends, without a panic, when the database
    outage ends or the engine shuts down: after [n] further requests at the
    latest, [n + 2] attempts per batch are enough. *)
Theorem flush_terminates n tr ops :
  Forall (fun op => op_typed op /\ broken op = false) ops ->
  outage_ends db n \/ shutdown_by quit n ->
  exists tr', flush db quit (n + 2) tr ops = Flushed tr'.
Proof.
  intros Hops Hn. unfold flush. destruct (length ops =? 0)%nat; [by eexists|].
  apply (flush_loop_done db quit n); [done|by apply typed_sound|lia].
Qed.

(** C19. Last value wins, whatever the retries: when no request is refused for good
    and the flush is not abandoned, the stored properties are those of the
    operations applied once each in arrival order, even though attempts were
    cut short, repeated, or reported failed after taking effect. *)
Theorem flush_last_value_wins fuel tr ops ext st :
  flush db quit fuel tr ops = Flushed (tr ++ ext) ->
  accepted ext -> EvAbandon ∉ ext ->
  sProps (replay st ext) = foldl apply_prop (sProps st) ops.
Proof.
  unfold flush. destruct (length ops =? 0)%nat eqn:E.
  - intros Heq _ _. injection Heq as Heq. rewrite <- (app_nil_r tr) in Heq at 1.
    apply app_inv_head in Heq as <-. bool_hyps. by apply nil_length_inv in E as ->.
  - apply flush_loop_props, start_in_range.
Qed.

(** Every datastream row written belongs to an observed operation, and each
    observed operation's row is written exactly once, in arrival order,
    unless the database reported a failure for a transaction it committed. *)
Theorem flush_rows_exactly_once fuel tr ops ext st :
  flush db quit fuel tr ops = Flushed (tr ++ ext) -> lossless ext ->
  sIndividual (replay st ext) = sIndividual st ++ omap op_row (observed ext) /\
  sObjects (replay st ext) = sObjects st ++ omap op_object (observed ext).
Proof.
  unfold flush. destruct (length ops =? 0)%nat eqn:E; intros Hf Hl.
  - injection Hf as Heq. rewrite <- (app_nil_r tr) in Heq at 1. apply app_inv_head in Heq as <-.
    by apply tables_ok_nil.
  - apply flush_loop_tables in Hf as (x & Heq & Hx). apply app_inv_head in Heq as ->. by apply Hx.
Qed.

End Guarantees.

(** ** Examples *)

Definition int_value (i : Z) : option Value := Some (VScalar (SInteger i)).
Definition with_ack (op : PersistOp) (id : nat) : PersistOp :=
  MkOp (Kind op) (Realm op) (RealmID op) (DeviceID op) (Interface_ op) (Mapping_ op) (Path op)
    (Value_ op) (Format_ op) (TS op) (ReceptionTS op) (Tracked op) (PrevExists op) (Prev op)
    id (broken op).
Definition sample_ops : list PersistOp :=
  [with_ack (sample_op OpPropertySet (int_value 1)) 0;
   with_ack (sample_op OpIndividual (int_value 7)) 1;
   with_ack (sample_op OpPropertySet (int_value 2)) 2].

(** A database that is down for the first [n] requests; [lost] says whether
    those took effect all the same. *)
Definition outage (n : nat) (lost : bool) (tr : list event) (q : request) : answer :=
  if (requests tr <? n)%nat then Failed OtherError lost else Answered.
Definition running (tr : list event) : bool := false.
Definition stopping (tr : list event) : bool := true.
Definition empty_store : store := MkStore ∅ [] [].

Definition trace_of (r : flush_result) : list event := match r with Flushed tr => tr | _ => [] end.

Lemma sample_typed : Forall (fun op => op_typed op /\ broken op = false) sample_ops.
Proof.
  unfold sample_ops, with_ack, sample_op, int_value.
  repeat apply Forall_cons_2; try apply Forall_nil_2; (split; [|reflexivity]); unfold op_typed; simpl;
    (eexists _, _; split; [reflexivity|]; split; [reflexivity|]; split; [reflexivity|]);
    vm_compute; split; discriminate.
Qed.

Lemma outage_bound n lost : outage_ends (outage n lost) n.
Proof.
  intros tr q e b Hn. unfold outage. rewrite (proj2 (Nat.ltb_ge _ _)) by done. done.
Qed.

Lemma never_abandons ext :
  forallb (fun e => match e with EvAbandon => false | _ => true end) ext = true -> EvAbandon ∉ ext.
Proof. intros Hx Hin. rewrite forallb_forall in Hx. apply list_elem_of_In in Hin. by apply Hx in Hin. Qed.

Lemma flush_ack_discipline_witness :
  exists ext, @flush toy_text (outage 2 false) running 4 [] sample_ops = Flushed ext /\
    NoDup (acks ext) /\ acks ext = [0; 1; 2] /\ observed ext = sample_ops.
Proof.
  pose (ext := trace_of (@flush toy_text (outage 2 false) running 4 [] sample_ops)).
  assert (E : @flush toy_text (outage 2 false) running 4 [] sample_ops = Flushed ext)
    by (vm_compute; reflexivity).
  exists ext. split; [exact E|]. split; [|split; vm_compute; reflexivity].
  destruct (@flush_ack_discipline toy_text (outage 2 false) running 4 [] sample_ops ext) as (x & Hx & Hnd & _).
  - apply (bool_decide_unpack _). vm_compute. exact I.
  - apply (bool_decide_unpack _). vm_compute. exact I.
  - exact E.
  - rewrite Hx. exact Hnd.
Defined.

Lemma flush_terminates_witness :
  exists tr', @flush toy_text (outage 3 true) running 5 [] sample_ops = Flushed tr'.
Proof.
  exact (@flush_terminates toy_text (outage 3 true) running 3 [] sample_ops (@sample_typed)
    (or_introl (outage_bound 3 true))).
Defined.

Lemma flush_last_value_wins_witness :
  let ext := trace_of (@flush toy_text (outage 3 true) running 5 [] sample_ops) in
  sProps (replay empty_store ext) = foldl (@apply_prop toy_text) ∅ sample_ops.
Proof.
  cbv zeta. set (ext := trace_of _).
  apply (@flush_last_value_wins toy_text (outage 3 true) running 5 [] sample_ops ext empty_store).
  - vm_compute. reflexivity.
  - vm_compute. repeat constructor.
  - apply never_abandons. vm_compute. reflexivity.
Defined.

Lemma flush_rows_exactly_once_witness :
  let ext := trace_of (@flush toy_text (outage 2 false) running 4 [] sample_ops) in
  length (sIndividual (replay empty_store ext)) = 1.
Proof.
  cbv zeta. set (ext := trace_of _).
  destruct (@flush_rows_exactly_once toy_text (outage 2 false) running 4 [] sample_ops ext empty_store)
    as [Hrows _].
  - vm_compute. reflexivity.
  - vm_compute. repeat constructor.
  - rewrite Hrows. vm_compute. reflexivity.
Defined.

(** An abandoned batch loses its place: a shard that drains while the database
    is briefly unreachable gives up on an earlier property write, unacknowledged,
    and commits and acknowledges a later one; the broker's redelivery of the
    first then leaves the older value as the last. *)
Theorem abandoned_write_returns_last :
  let first := with_ack (sample_op OpPropertySet (int_value 1)) 0 in
  let second := with_ack (sample_op OpPropertySet (int_value 2)) 1 in
  let tr1 := trace_of (@flush toy_text (outage 1 false) stopping 3 [] [first]) in
  let tr2 := trace_of (@flush toy_text (outage 1 false) stopping 3 tr1 [second]) in
  let tr3 := trace_of (@flush toy_text (outage 1 false) running 3 tr2 [first]) in
  acks tr1 = [] /\ acks tr2 = [1] /\ acks tr3 = [1; 0] /\
  (pValue <$> sProps (replay empty_store tr2) !! unset_key second) = Some (JNum "2"%go) /\
  (pValue <$> sProps (replay empty_store tr3) !! unset_key second) = Some (JNum "1"%go).
Proof. vm_compute. repeat split; reflexivity. Qed.

End Batch.
