(* ===== verification/Policy.v ===== *)
(** * Trigger-delivery policies

    src/internal/engine/triggers/policy.go: compiling a stored policy
    definition, the disjointness check of its error handlers, and the decision
    it takes for a finished delivery attempt. The JSON document is the record
    of its decoded members; an ["on"] member is kept as what
    [encoding/json] yields when it is unmarshalled into the three targets the
    code tries. *)

From S2P Require Import Prelude GoStrings Regex.

Module Policy.

(** ** Data *)
Inductive Strategy := StrategyDiscard | StrategyRetry.

#[global] Instance Strategy_eq_dec : EqDecision Strategy.
Proof. solve_decision. Defined.

Definition StatusTransport : Z := 0.

(** [onKind], with the payload each kind uses. *)
Inductive handlerOn :=
| onKeyword (keyword : gostring)
| onExplicit (codes : list Z).

#[global] Instance handlerOn_eq_dec : EqDecision handlerOn.
Proof. solve_decision. Defined.

Record compiledHandler := MkHandler {
  on : handlerOn;
  strategy : Strategy;
}.

#[global] Instance compiledHandler_eq_dec : EqDecision compiledHandler.
Proof. solve_decision. Defined.

Record Policy := MkPolicy {
  Name : gostring;
  MaximumCapacity : Z;
  PrefetchCount : Z;
  RetryTimes : Z;
  EventTTL : Z;
  handlers : list compiledHandler;
}.

#[global] Instance Policy_eq_dec : EqDecision Policy.
Proof. solve_decision. Defined.

(** The outcomes of unmarshalling an ["on"] member into a [string], an
    [[]int] and the object form ([None] is an error; the inner option of
    [as_custom] is a nil [custom_status_codes]). *)
Record onJSON := MkOn {
  as_string : option gostring;
  as_ints : option (list Z);
  as_custom : option (option (list Z));
}.

Record handlerJSON := MkHandlerJSON {
  On_ : onJSON;
  Strategy_ : gostring;
}.

Record policyJSON := MkPolicyJSON {
  Name_ : gostring;
  ErrorHandlers_ : list handlerJSON;
  MaximumCapacity_ : Z;
  PrefetchCount_ : option Z;
  RetryTimes_ : option Z;
  EventTTL_ : option Z;
}.

Inductive policy_error :=
| BadPolicyName
| NoHandlers
| BadStrategy
| BadHandler (position : nat) (e : on_error)
| OverlappingHandlers
| BadRetryTimes
| RetryTimesWithoutRetry
| BadCapacity
| BadPrefetch
| NegativeEventTTL
| IndexPanic
with on_error :=
| BadKeyword
| BadOnShape
| NoCodes
| CodeOutOfRange.

#[global] Instance on_error_eq_dec : EqDecision on_error.
Proof. solve_decision. Defined.
#[global] Instance policy_error_eq_dec : EqDecision policy_error.
Proof. solve_decision. Defined.

(** ** Claims *)
Definition any_error : gostring := "any_error"%go.
Definition client_error : gostring := "client_error"%go.
Definition server_error : gostring := "server_error"%go.

Definition claims (h : compiledHandler) (status : Z) : bool :=
  if (status =? StatusTransport)%Z then
    match on h with
    | onKeyword keyword => bool_decide (keyword = any_error) || bool_decide (keyword = server_error)
    | onExplicit _ => false
    end
  else
    match on h with
    | onKeyword keyword =>
        if bool_decide (keyword = any_error) then (400 <=? status)%Z && (status <=? 599)%Z
        else if bool_decide (keyword = client_error) then (400 <=? status)%Z && (status <=? 499)%Z
        else if bool_decide (keyword = server_error) then (500 <=? status)%Z && (status <=? 599)%Z
        else false
    | onExplicit codes => existsb (fun c => (c =? status)%Z) codes
    end.

(** ** Compilation *)
Definition compileHandlerOn (raw : onJSON) : result on_error handlerOn :=
  match as_string raw with
  | Some keyword =>
      if bool_decide (keyword = any_error) || bool_decide (keyword = client_error)
         || bool_decide (keyword = server_error)
      then Ok (onKeyword keyword)
      else Err BadKeyword
  | None =>
      let? codes := match as_ints raw with
                    | Some codes => Ok codes
                    | None => match as_custom raw with
                              | Some (Some codes) => Ok codes
                              | _ => Err BadOnShape
                              end
                    end in
      guard_err (negb (length codes =? 0)%nat) NoCodes ;;?
      guard_err (forallb (fun c => negb ((c <? 400)%Z || (599 <? c)%Z)) codes) CodeOutOfRange ;;?
      Ok (onExplicit codes)
  end.

Definition parseStrategy (s : gostring) : option Strategy :=
  if bool_decide (s = "discard"%go) then Some StrategyDiscard
  else if bool_decide (s = "retry"%go) then Some StrategyRetry
  else None.

(** The loop over [doc.ErrorHandlers], with the running [hasRetry]. *)
Fixpoint compile_handlers (i : nat) (hs : list handlerJSON) (acc : list compiledHandler)
    (hasRetry : bool) : result policy_error (list compiledHandler * bool) :=
  match hs with
  | [] => Ok (acc, hasRetry)
  | h :: hs =>
      let? strat := or_err (parseStrategy (Strategy_ h)) BadStrategy in
      let? o := mapErr (BadHandler (i + 1)) (compileHandlerOn (On_ h)) in
      compile_handlers (i + 1) hs (acc ++ [MkHandler o strat])
        (match strat with StrategyRetry => true | StrategyDiscard => hasRetry end)
  end.

(** The codes a handler occupies in the mask. *)
Definition own (h : compiledHandler) : list Z :=
  match on h with
  | onKeyword keyword =>
      let hi := if bool_decide (keyword = client_error) then 499%Z else 599%Z in
      let lo := if bool_decide (keyword = server_error) then 500%Z else 400%Z in
      seqZ lo (hi - lo + 1)
  | onExplicit codes => codes
  end.

(** [claimed[c-400]]: an index outside the array panics. *)
Definition mask_get (claimed : list bool) (c : Z) : option bool :=
  if (c <? 400)%Z then None else claimed !! Z.to_nat (c - 400).

Definition mask_set (claimed : list bool) (c : Z) : option (list bool) :=
  if (c <? 400)%Z then None
  else if (Z.to_nat (c - 400) <? length claimed)%nat
       then Some (<[Z.to_nat (c - 400) := true]> claimed) else None.

Fixpoint mask_probe (claimed : list bool) (codes : list Z) : result policy_error () :=
  match codes with
  | [] => Ok ()
  | c :: codes =>
      let? b := or_err (mask_get claimed c) IndexPanic in
      if b then Err OverlappingHandlers else mask_probe claimed codes
  end.

Fixpoint mask_fill (claimed : list bool) (codes : list Z) : result policy_error (list bool) :=
  match codes with
  | [] => Ok claimed
  | c :: codes =>
      let? claimed := or_err (mask_set claimed c) IndexPanic in
      mask_fill claimed codes
  end.

Fixpoint disjoint_loop (claimed : list bool) (hs : list compiledHandler)
    : result policy_error () :=
  match hs with
  | [] => Ok ()
  | h :: hs =>
      mask_probe claimed (own h) ;;?
      let? claimed := mask_fill claimed (own h) in
      disjoint_loop claimed hs
  end.

Definition checkHandlersDisjoint (hs : list compiledHandler) : result policy_error () :=
  disjoint_loop (repeat false 200) hs.

(** [^[a-zA-Z0-9_.~-]{1,128}$] *)
Definition name_char (c : ascii) : bool :=
  between "a" "z" c || between "A" "Z" c || between "0" "9" c
  || bool_decide (c = "_"%char) || bool_decide (c = "."%char)
  || bool_decide (c = "~"%char) || bool_decide (c = "-"%char).
Definition policyNameRE : Regex.re := Regex.Rep (Regex.Chr name_char) 1 128.

Definition check_retry (hasRetry : bool) (retryTimes : option Z) : result policy_error () :=
  if hasRetry then
    match retryTimes with
    | None => Err BadRetryTimes
    | Some n => guard_err (negb ((n <? 1)%Z || (100 <? n)%Z)) BadRetryTimes
    end
  else match retryTimes with
       | Some _ => Err RetryTimesWithoutRetry
       | None => Ok ()
       end.

Definition opt_guard (o : option Z) (bad : Z -> bool) (e : policy_error)
    : result policy_error () :=
  match o with
  | Some n => guard_err (negb (bad n)) e
  | None => Ok ()
  end.

Definition CompilePolicy (doc : policyJSON) : result policy_error Policy :=
  guard_err (Regex.MatchString policyNameRE (Name_ doc)) BadPolicyName ;;?
  guard_err (negb (length (ErrorHandlers_ doc) =? 0)%nat) NoHandlers ;;?
  let? (hs, hasRetry) := compile_handlers 0 (ErrorHandlers_ doc) [] false in
  checkHandlersDisjoint hs ;;?
  check_retry hasRetry (RetryTimes_ doc) ;;?
  guard_err (negb (MaximumCapacity_ doc <? 1)%Z) BadCapacity ;;?
  opt_guard (PrefetchCount_ doc) (fun n => (n <? 1)%Z || (300 <? n)%Z) BadPrefetch ;;?
  opt_guard (EventTTL_ doc) (fun n => (n <? 0)%Z) NegativeEventTTL ;;?
  Ok (MkPolicy (Name_ doc) (MaximumCapacity_ doc) (default 1%Z (PrefetchCount_ doc))
        (default 0%Z (RetryTimes_ doc))
        (match EventTTL_ doc with Some n => seconds n | None => 0%Z end) hs).

(** ** Decisions *)
Record Decision := MkDecision {
  dec_strategy : Strategy;
  Reason : gostring;
}.

(** [%v] of a slice of integers. *)
Definition show_ints (codes : list Z) : gostring :=
  "["%go ++ Strings.Join (map Strconv.Itoa codes) " " ++ "]"%go.

Definition onLabel (h : compiledHandler) : gostring :=
  match on h with
  | onKeyword keyword => keyword
  | onExplicit [c] => "status "%go ++ Strconv.Itoa c
  | onExplicit codes => "status codes "%go ++ show_ints codes
  end.

Definition strategy_label (s : Strategy) : gostring :=
  match s with StrategyRetry => "retry"%go | StrategyDiscard => "discard"%go end.

Definition transport_prefix : gostring :=
  "transport failure, treated as a server error; "%go.

Fixpoint decide_loop (i : nat) (hs : list compiledHandler) (status : Z) : Decision :=
  match hs with
  | [] =>
      if (status =? StatusTransport)%Z
      then MkDecision StrategyDiscard (transport_prefix ++ "no handler claims it: discard"%go)
      else MkDecision StrategyDiscard
             ("no handler claims status "%go ++ Strconv.Itoa status ++ ": discard"%go)
  | h :: hs =>
      if claims h status then
        let body := "handler "%go ++ Strconv.Itoa (Z.of_nat (i + 1)) ++ " ("%go ++ onLabel h
                    ++ "): "%go ++ strategy_label (strategy h) in
        MkDecision (strategy h)
          (if (status =? StatusTransport)%Z then transport_prefix ++ body else body)
      else decide_loop (i + 1) hs status
  end.

Definition Decide (p : option Policy) (status : Z) : Decision :=
  match p with
  | None => MkDecision StrategyDiscard "no policy applies"%go
  | Some p =>
      if (200 <=? status)%Z && (status <=? 399)%Z
      then MkDecision StrategyDiscard "not a failure status code"%go
      else decide_loop 0 (handlers p) status
  end.

(** ** What a compiled handler claims *)
Definition valid_on (o : handlerOn) : Prop :=
  match o with
  | onKeyword keyword => keyword = any_error \/ keyword = client_error \/ keyword = server_error
  | onExplicit codes => codes <> [] /\ Forall (fun c => 400 <= c <= 599)%Z codes
  end.
Definition valid_handler (h : compiledHandler) : Prop := valid_on (on h).

(** Two handlers that both claim some status. *)
Definition overlap (h h' : compiledHandler) : Prop :=
  exists status, claims h status = true /\ claims h' status = true.

Definition in_codes (codes : list Z) : Prop := Forall (fun c => 400 <= c <= 599)%Z codes.

(** Decide the comparisons of a known keyword. *)
Ltac keyword_cases :=
  repeat (let H := fresh "Hkw" in
          case_bool_decide as H; [try discriminate H | try (exfalso; by apply H)]; clear H).

Lemma compileHandlerOn_valid raw o : compileHandlerOn raw = Ok o -> valid_on o.
Proof.
  unfold compileHandlerOn. intros H. destruct (as_string raw) as [k|].
  - destruct (_ || _) eqn:E in H; inv_ok H. subst o. cbn.
    rewrite !orb_true_iff, !bool_decide_eq_true in E. tauto.
  - inv_ok H. subst o. cbn. split; [by intros ->|].
    apply Forall_forall. intros c Hc. rewrite forallb_forall in Hok1.
    specialize (Hok1 c (proj1 (list_elem_of_In _ _) Hc)). bool_hyps. lia.
Qed.

Lemma own_codes h : valid_handler h -> in_codes (own h).
Proof.
  unfold valid_handler, own, in_codes. destruct (on h) as [k|cs]; cbn; [|tauto].
  intros Hk. apply Forall_forall. intros c Hc%elem_of_seqZ.
  destruct Hk as [-> | [-> | ->]]; keyword_cases; lia.
Qed.

Lemma claims_own h status : valid_handler h -> status <> StatusTransport ->
  claims h status = true <-> status ∈ own h.
Proof.
  unfold valid_handler, claims, own. intros Hv Hs.
  rewrite (proj2 (Z.eqb_neq _ _) Hs). destruct (on h) as [k|cs]; cbn in Hv.
  - rewrite elem_of_seqZ. destruct Hv as [-> | [-> | ->]]; keyword_cases;
      rewrite andb_true_iff, !Z.leb_le; lia.
  - rewrite existsb_exists. split.
    + intros (c & Hc & ->%Z.eqb_eq). by apply list_elem_of_In.
    + intros Hc. exists status. rewrite Z.eqb_refl. by apply list_elem_of_In in Hc.
Qed.

Lemma claims_range h status : valid_handler h -> claims h status = true ->
  status = StatusTransport \/ (400 <= status <= 599)%Z.
Proof.
  intros Hv Hc. destruct (decide (status = StatusTransport)) as [|Hn]; [by left|right].
  apply claims_own in Hc; [|done..]. pose proof (own_codes h Hv) as Ho.
  by eapply Forall_forall in Ho.
Qed.

(** A transport failure is claimed like the status 500 by a keyword. *)
Lemma claims_transport h : valid_handler h -> claims h StatusTransport = true ->
  forall status, (500 <= status <= 599)%Z -> claims h status = true.
Proof.
  unfold valid_handler. intros Hv Hc status Hs. apply claims_own; [done|unfold StatusTransport; lia|].
  unfold claims, own in *. destruct (on h) as [k|cs]; [|done]. cbn in Hc.
  rewrite orb_true_iff, !bool_decide_eq_true in Hc. rewrite elem_of_seqZ.
  destruct Hc as [-> | ->]; keyword_cases; lia.
Qed.

Lemma overlap_own h h' : valid_handler h -> valid_handler h' ->
  overlap h h' <-> exists c, c ∈ own h /\ c ∈ own h'.
Proof.
  intros Hv Hv'. split.
  - intros (s & H1 & H2). destruct (decide (s = StatusTransport)) as [-> |Hn].
    + exists 500%Z. split; (apply claims_own; [done|done|by apply claims_transport]).
    + exists s. by rewrite <- !claims_own.
  - intros (c & H1 & H2). exists c.
    assert (c <> StatusTransport).
    { pose proof (own_codes h Hv) as Ho. eapply Forall_forall in Ho; [|done].
      unfold StatusTransport. cbn in Ho. lia. }
    by rewrite !claims_own.
Qed.

(** ** The mask *)
Definition mask_of (claimed : list bool) (c : Z) : Prop := mask_get claimed c = Some true.
Definition wf_mask (claimed : list bool) : Prop := length claimed = 200.

Lemma mask_get_in claimed c : wf_mask claimed -> (400 <= c <= 599)%Z ->
  exists b, mask_get claimed c = Some b.
Proof.
  unfold wf_mask, mask_get. intros Hl Hc. destruct (Z.ltb_spec c 400); [lia|].
  apply lookup_lt_is_Some. lia.
Qed.

Lemma mask_probe_spec claimed codes : wf_mask claimed -> in_codes codes ->
  (mask_probe claimed codes = Ok () /\ (forall c, c ∈ codes -> ~ mask_of claimed c)) \/
  (mask_probe claimed codes = Err OverlappingHandlers /\ exists c, c ∈ codes /\ mask_of claimed c).
Proof.
  intros Hw. induction 1 as [|c codes Hc _ IH]; [left; set_solver|].
  destruct (mask_get_in claimed c Hw Hc) as [[] Hb]; cbn; rewrite Hb; cbn.
  - right. split; [done|]. exists c. split; [left|done].
  - destruct IH as [[-> Hn] | [-> (d & Hd & Hm)]].
    + left. split; [done|]. intros d [-> |Hd]%elem_of_cons; [|by apply Hn].
      unfold mask_of. by rewrite Hb.
    + right. split; [done|]. exists d. split; [by right|done].
Qed.

Lemma mask_fill_spec claimed codes : wf_mask claimed -> in_codes codes ->
  exists claimed', mask_fill claimed codes = Ok claimed' /\ wf_mask claimed' /\
    forall c, mask_of claimed' c <-> mask_of claimed c \/ c ∈ codes.
Proof.
  intros Hw Hc. revert claimed Hw. induction Hc as [|c codes Hc _ IH]; intros claimed Hw.
  { exists claimed. set_solver. }
  cbn. unfold mask_set. destruct (Z.ltb_spec c 400); [lia|].
  destruct (Nat.ltb_spec (Z.to_nat (c - 400)) (length claimed)) as [Hlt|]; [|unfold wf_mask in Hw; lia].
  cbn. destruct (IH (<[Z.to_nat (c - 400):=true]> claimed)) as (cl & -> & Hw' & Hm).
  { unfold wf_mask. by rewrite length_insert. }
  exists cl. split_and!; [done..|]. intros d. rewrite Hm, elem_of_cons.
  assert (mask_of (<[Z.to_nat (c - 400):=true]> claimed) d <-> mask_of claimed d \/ d = c); [|tauto].
  unfold mask_of, mask_get. destruct (Z.ltb_spec d 400); [naive_solver lia|].
  destruct (decide (d = c)) as [-> |Hn].
  - rewrite list_lookup_insert_eq by done. tauto.
  - rewrite list_lookup_insert_ne by lia. tauto.
Qed.

(** The loop accepts exactly when no two handlers overlap with one another
    or with the mask, and never indexes outside the array. *)
Lemma disjoint_loop_spec claimed hs : wf_mask claimed -> Forall valid_handler hs ->
  let fresh := (forall h c, h ∈ hs -> c ∈ own h -> ~ mask_of claimed c) /\
               ForallOrdPairs (fun h h' => ~ overlap h h') hs in
  (disjoint_loop claimed hs = Ok () /\ fresh) \/
  (disjoint_loop claimed hs = Err OverlappingHandlers /\ ~ fresh).
Proof.
  intros Hw Hv. revert claimed Hw. induction Hv as [|h hs Hh Hhs IH]; intros claimed Hw fresh; subst fresh.
  { left. split; [done|]. split; [set_solver|constructor]. }
  cbn. pose proof (own_codes h Hh) as Ho.
  destruct (mask_probe_spec claimed (own h) Hw Ho) as [[-> Hn] | [-> (c & Hc & Hm)]]; cbn.
  2: { right. split; [done|]. intros [Hf _]. by apply (Hf h c); [left|..]. }
  destruct (mask_fill_spec claimed (own h) Hw Ho) as (cl & -> & Hw' & Hm). cbn.
  destruct (IH cl Hw') as [[-> [Hf Hp]] | [-> Hnf]]; [left|right]; (split; [done|]).
  - split.
    + intros h' c [-> |Hin]%elem_of_cons Hc; [by apply Hn|]. intros Hmc. apply (Hf h' c Hin Hc), Hm. by left.
    + constructor; [|done]. apply Forall_forall. intros h' Hin Hov.
      apply overlap_own in Hov as (c & H1 & H2); [|done|by eapply Forall_forall in Hhs].
      apply (Hf h' c Hin H2), Hm. by right.
  - intros [Hf Hp]. apply Hnf. inversion_clear Hp as [|? ? Hh' Hp']. split; [|done].
    intros h' c Hin Hc [Hmc|Hmc]%Hm; [by apply (Hf h' c); [right|..]|].
    rewrite Forall_forall in Hh'. apply (Hh' h' Hin). apply overlap_own; [done|by eapply Forall_forall in Hhs|].
    eauto.
Qed.

Lemma checkHandlersDisjoint_spec hs : Forall valid_handler hs ->
  (checkHandlersDisjoint hs = Ok () /\ ForallOrdPairs (fun h h' => ~ overlap h h') hs) \/
  (checkHandlersDisjoint hs = Err OverlappingHandlers /\ ~ ForallOrdPairs (fun h h' => ~ overlap h h') hs).
Proof.
  intros Hv. assert (Hm : forall c, ~ mask_of (repeat false 200) c).
  { intros c. unfold mask_of, mask_get. destruct (_ <? _)%Z; [done|].
    intros Hl%list_elem_of_lookup_2. apply list_elem_of_In, repeat_spec in Hl. done. }
  destruct (disjoint_loop_spec (repeat false 200) hs) as [[? []] | [? Hn]]; [done..|by left|].
  right. split; [done|]. intros Hp. apply Hn. split; [|done]. intros ? c ? ?. apply Hm.
Qed.

(** ** Accepted policies *)
Definition is_retry (h : compiledHandler) : bool := bool_decide (strategy h = StrategyRetry).

Definition handler_of (j : handlerJSON) (h : compiledHandler) : Prop :=
  parseStrategy (Strategy_ j) = Some (strategy h) /\ compileHandlerOn (On_ j) = Ok (on h).

Lemma compile_handlers_spec i js acc r hs r' :
  compile_handlers i js acc r = Ok (hs, r') <->
  exists hs', Forall2 handler_of js hs' /\ hs = acc ++ hs' /\ r' = r || existsb is_retry hs'.
Proof.
  revert i acc r. induction js as [|j js IH]; intros i acc r; cbn.
  - split.
    + intros [= <- <-]. exists []. rewrite app_nil_r, orb_false_r. auto.
    + intros (hs' & ->%Forall2_nil_inv_l & -> & ->). by rewrite app_nil_r, orb_false_r.
  - split.
    + intros H. inv_ok H. apply IH in H as (hs' & H & -> & ->).
      exists (MkHandler a0 a :: hs'). rewrite <- app_assoc. split_and!; [|done|].
      * constructor; [by split|done].
      * destruct a; cbn; [done|]. by rewrite orb_true_r.
    + intros (hs' & (h & tl & [Hs Ho] & H & ->)%Forall2_cons_inv_l & -> & ->).
      rewrite Hs, Ho. cbn. apply IH. exists tl. split; [done|]. rewrite <- app_assoc.
      destruct h as [o []]; cbn; [done|]. by rewrite orb_true_r.
Qed.

Lemma handler_of_valid js hs : Forall2 handler_of js hs -> Forall valid_handler hs.
Proof.
  induction 1 as [|j h js hs [_ Ho] _ IH]; constructor; [|done]. by eapply compileHandlerOn_valid.
Qed.

(** What the compiler asks of a document, and what it makes of it. *)
Record admissible (doc : policyJSON) (p : Policy) : Prop := {
  adm_name : Name p = Name_ doc /\ 1 <= length (Name_ doc) <= 128 /\
             Forall (fun c => name_char c = true) (Name_ doc);
  adm_handlers : handlers p <> [] /\ Forall2 handler_of (ErrorHandlers_ doc) (handlers p);
  adm_disjoint : ForallOrdPairs (fun h h' => ~ overlap h h') (handlers p);
  adm_retry : match RetryTimes_ doc with
              | Some n => (exists h, h ∈ handlers p /\ strategy h = StrategyRetry) /\
                          (1 <= n <= 100)%Z /\ RetryTimes p = n
              | None => (forall h, h ∈ handlers p -> strategy h = StrategyDiscard) /\
                        RetryTimes p = 0%Z
              end;
  adm_capacity : MaximumCapacity p = MaximumCapacity_ doc /\ (1 <= MaximumCapacity p)%Z;
  adm_prefetch : PrefetchCount p = default 1%Z (PrefetchCount_ doc) /\
                 (1 <= PrefetchCount p <= 300)%Z;
  adm_ttl : match EventTTL_ doc with
            | Some n => (0 <= n)%Z /\ EventTTL p = seconds n
            | None => EventTTL p = 0%Z
            end;
}.

Lemma check_retry_spec hs o u :
  check_retry (existsb is_retry hs) o = Ok u <->
  match o with
  | Some n => (exists h, h ∈ hs /\ strategy h = StrategyRetry) /\ (1 <= n <= 100)%Z
  | None => forall h, h ∈ hs -> strategy h = StrategyDiscard
  end.
Proof.
  destruct u. unfold check_retry. destruct (existsb is_retry hs) eqn:E.
  - apply existsb_exists in E as (h & Hin%list_elem_of_In & Hr). unfold is_retry in Hr. bool_hyps.
    destruct o as [n|].
    + rewrite guard_err_Ok, negb_true_iff, orb_false_iff, !Z.ltb_ge. split; [|tauto].
      intros ?. split; [by exists h|lia].
    + split; [done|]. intros Hd. specialize (Hd h Hin). congruence.
  - assert (Hd : forall h, h ∈ hs -> strategy h = StrategyDiscard).
    { intros h Hin. destruct (strategy h) eqn:Es; [done|]. exfalso.
      assert (existsb is_retry hs = true); [|congruence]. apply existsb_exists. exists h.
      split; [by apply list_elem_of_In|]. by apply bool_decide_eq_true. }
    destruct o as [n|]; [|done]. split; [done|]. intros [(h & Hin & Hs) _].
    rewrite Hd in Hs; done.
Qed.

Lemma opt_guard_Ok o bad e u :
  opt_guard o bad e = Ok u <-> forall n, o = Some n -> bad n = false.
Proof.
  destruct o as [n|], u; cbn; [|naive_solver].
  rewrite guard_err_Ok, negb_true_iff. naive_solver.
Qed.

Lemma policyNameRE_spec name : Regex.MatchString policyNameRE name = true <->
  1 <= length name <= 128 /\ Forall (fun c => name_char c = true) name.
Proof. unfold policyNameRE. by rewrite Regex.MatchString_spec, Regex.lang_rep_chr. Qed.

Lemma CompilePolicy_spec doc p : CompilePolicy doc = Ok p <-> admissible doc p.
Proof.
  split.
  - intros H. unfold CompilePolicy in H. inv_ok H. destruct a1 as [hs r]. inv_ok H. subst p.
    apply compile_handlers_spec in Hok1 as (hs' & HF & -> & ->).
    rewrite ?app_nil_l, ?orb_false_l in *.
    apply check_retry_spec in Hok3. pose proof (proj1 (opt_guard_Ok _ _ _ _) Hok5) as Hpf.
    pose proof (proj1 (opt_guard_Ok _ _ _ _) Hok6) as Htt.
    destruct (checkHandlersDisjoint_spec hs' (handler_of_valid _ _ HF)) as [[_ Hd] | [E _]]; [|by rewrite E in Hok2].
    apply policyNameRE_spec in Hok. bool_hyps. split; cbn; [tauto| |done| | | |].
    + split; [|done]. intros ->. apply Forall2_length in HF. by rewrite HF in Hok0.
    + destruct (RetryTimes_ doc); [|tauto]. tauto.
    + lia.
    + split; [done|]. destruct (PrefetchCount_ doc) as [n|]; cbn; [|lia].
      specialize (Hpf n eq_refl). cbn in Hpf. bool_hyps. lia.
    + destruct (EventTTL_ doc) as [n|]; [|done]. specialize (Htt n eq_refl). cbn in Htt. bool_hyps. by split.
  - intros [(Hn & Hlen) (Hne & HF) Hd Hr (Hc & Hc1) (Hp & Hp1) Ht]. unfold CompilePolicy.
    apply policyNameRE_spec in Hlen. rewrite Hlen. cbn.
    destruct (length (ErrorHandlers_ doc)) as [|k] eqn:El.
    { exfalso. apply Hne. apply Forall2_length in HF. rewrite El in HF. by apply length_zero_iff_nil. }
    cbn. assert (Hh : compile_handlers 0 (ErrorHandlers_ doc) [] false = Ok (handlers p, existsb is_retry (handlers p))).
    { apply compile_handlers_spec. by exists (handlers p). }
    rewrite Hh. cbn.
    destruct (checkHandlersDisjoint_spec (handlers p) (handler_of_valid _ _ HF)) as [[-> _] | [_ Hnd]]; [|done].
    cbn. assert (Hcr : check_retry (existsb is_retry (handlers p)) (RetryTimes_ doc) = Ok ()).
    { apply check_retry_spec. destruct (RetryTimes_ doc); tauto. }
    rewrite Hcr. cbn.
    destruct (MaximumCapacity_ doc <? 1)%Z eqn:Em; [apply Z.ltb_lt in Em; lia|]. cbn.
    assert (Hpf : opt_guard (PrefetchCount_ doc) (fun n => (n <? 1)%Z || (300 <? n)%Z) BadPrefetch = Ok ()).
    { apply opt_guard_Ok. intros n En. rewrite En in Hp. cbn in Hp.
      rewrite orb_false_iff, !Z.ltb_ge. lia. }
    rewrite Hpf. cbn.
    assert (Htt : opt_guard (EventTTL_ doc) (fun n => (n <? 0)%Z) NegativeEventTTL = Ok ()).
    { apply opt_guard_Ok. intros n En. rewrite En in Ht. apply Z.ltb_ge. tauto. }
    rewrite Htt. cbn. f_equal. destruct p. cbn in *. f_equal; try congruence.
    + destruct (RetryTimes_ doc); symmetry; tauto.
    + destruct (EventTTL_ doc); symmetry; tauto.
Qed.

(** ** Decisions of an accepted policy *)
Lemma ordered_pairs_lookup {A} (R : A -> A -> Prop) l i j x y :
  ForallOrdPairs R l -> l !! i = Some x -> l !! j = Some y -> i < j -> R x y.
Proof.
  intros Hp. revert i j. induction Hp as [|a l Ha _ IH]; intros i j Hi Hj Hlt; [done|].
  destruct j as [|j]; [lia|]. destruct i as [|i]; simpl in *.
  - simplify_eq. eapply Forall_forall; [done|]. by eapply list_elem_of_lookup_2.
  - eapply IH; [done..|lia].
Qed.

Lemma overlap_sym h h' : overlap h h' -> overlap h' h.
Proof. intros (s & ? & ?). by exists s. Qed.

Lemma unique_claim hs i j h h' status :
  ForallOrdPairs (fun h h' => ~ overlap h h') hs ->
  hs !! i = Some h -> hs !! j = Some h' ->
  claims h status = true -> claims h' status = true -> i = j.
Proof.
  intros Hp Hi Hj Hc Hc'. destruct (Nat.lt_trichotomy i j) as [Hl|[?|Hl]]; [|done|]; exfalso.
  - by apply (ordered_pairs_lookup _ _ _ _ _ _ Hp Hi Hj Hl); exists status.
  - by apply (ordered_pairs_lookup _ _ _ _ _ _ Hp Hj Hi Hl); exists status.
Qed.

Lemma decide_loop_found i hs status :
  (exists k h, hs !! k = Some h /\ claims h status = true /\
     dec_strategy (decide_loop i hs status) = strategy h) \/
  ((forall h, h ∈ hs -> claims h status = false) /\
     dec_strategy (decide_loop i hs status) = StrategyDiscard).
Proof.
  revert i. induction hs as [|h hs IH]; intros i; cbn.
  - right. split; [set_solver|]. by destruct (_ =? _)%Z.
  - destruct (claims h status) eqn:E; [left; by exists 0, h|].
    destruct (IH (i + 1)) as [(k & h' & ? & ? & ?) | [Hn ?]].
    + left. by exists (S k), h'.
    + right. split; [|done]. intros h' [-> |Hin]%elem_of_cons; [done|by apply Hn].
Qed.

Definition retried (p : Policy) (status : Z) : Prop :=
  dec_strategy (Decide (Some p) status) = StrategyRetry.

Lemma decide_retry doc p status : CompilePolicy doc = Ok p ->
  retried p status <-> exists h, h ∈ handlers p /\ claims h status = true /\ strategy h = StrategyRetry.
Proof.
  intros Ha%CompilePolicy_spec. destruct Ha as [_ [_ HF] Hp _ _ _ _].
  pose proof (handler_of_valid _ _ HF) as Hv. unfold retried, Decide. split.
  - destruct (_ && _); [done|]. destruct (decide_loop_found 0 (handlers p) status) as [(k & h & Hk & Hc & ->) | [_ ->]]; [|done].
    intros Hs. exists h. split_and!; [by eapply list_elem_of_lookup_2|done..].
  - intros (h & Hin & Hc & Hs). pose proof Hin as [k Hk]%list_elem_of_lookup_1.
    assert (Hr : status = StatusTransport \/ (400 <= status <= 599)%Z).
    { eapply claims_range; [|done]. by eapply Forall_forall in Hv. }
    destruct ((200 <=? status)%Z && (status <=? 399)%Z) eqn:E.
    { bool_hyps. unfold StatusTransport in Hr. lia. }
    destruct (decide_loop_found 0 (handlers p) status) as [(k' & h' & Hk' & Hc' & ->) | [Hn _]];
      [|by rewrite Hn in Hc].
    pose proof (unique_claim _ _ _ _ _ _ Hp Hk Hk' Hc Hc') as ->; congruence.
Qed.

Lemma compile_handlers_no_panic i js acc r : compile_handlers i js acc r <> Err IndexPanic.
Proof.
  revert i acc r. induction js as [|j js IH]; intros i acc r; cbn; [done|].
  destruct (parseStrategy _); cbn; [|done]. destruct (compileHandlerOn _); cbn; [apply IH|done].
Qed.

Definition no_panic {A} (r : result policy_error A) : Prop := r <> Err IndexPanic.

Lemma no_panic_bind {A B} (r : result policy_error A) (k : A -> result policy_error B) :
  no_panic r -> (forall a, r = Ok a -> no_panic (k a)) -> no_panic (bindR r k).
Proof. unfold no_panic. intros Hr Hk [H|(a & Ha & H)]%bindR_Err; [done|by apply (Hk a)]. Qed.

Lemma no_panic_guard b e : e <> IndexPanic -> no_panic (guard_err b e).
Proof. unfold no_panic. destruct b; cbn; congruence. Qed.

Lemma no_panic_opt_guard o bad e : e <> IndexPanic -> no_panic (opt_guard o bad e).
Proof. destruct o; cbn; [apply no_panic_guard|done]. Qed.

Lemma CompilePolicy_no_panic doc : no_panic (CompilePolicy doc).
Proof.
  unfold CompilePolicy.
  apply no_panic_bind; [by apply no_panic_guard|intros _ _].
  apply no_panic_bind; [by apply no_panic_guard|intros _ _].
  apply no_panic_bind; [apply compile_handlers_no_panic|intros [hs r]].
  intros (hs' & HF%handler_of_valid & -> & ->)%compile_handlers_spec. rewrite app_nil_l.
  apply no_panic_bind; [|intros _ _].
  { unfold no_panic. destruct (checkHandlersDisjoint_spec hs' HF) as [[-> _] | [-> _]]; done. }
  apply no_panic_bind; [|intros _ _].
  { unfold check_retry. destruct (_ || _), (RetryTimes_ doc); try done. by apply no_panic_guard. }
  apply no_panic_bind; [by apply no_panic_guard|intros _ _].
  apply no_panic_bind; [by apply no_panic_opt_guard|intros _ _].
  by apply no_panic_bind; [apply no_panic_opt_guard|].
Qed.

(** A document compiles exactly when it is admissible: a name of 1 to 128
    allowed characters, at least one handler, strategies and "on" clauses of
    the known shapes, no two handlers claiming a common failure, a retry
    count from 1 to 100 exactly when some handler retries, and the capacity,
    prefetch and TTL in range. In particular the disjointness mask is never
    indexed out of range. *)
Theorem compile_policy_exact doc :
  (forall p, CompilePolicy doc = Ok p <-> admissible doc p) /\
  CompilePolicy doc <> Err IndexPanic.
Proof. split; [intros p; apply CompilePolicy_spec|apply CompilePolicy_no_panic]. Qed.

(** C34. Whatever the failure, at most one handler of an accepted policy claims
    it, and the decision is that handler's strategy: retry exactly when a
    retrying handler claims the status, which is then a transport failure or
    a 4xx or 5xx and leaves 1 to 100 retries; so reordering the handlers
    changes no decision. *)
Theorem policy_decision_unique doc p status :
  CompilePolicy doc = Ok p ->
  (forall i j h h', handlers p !! i = Some h -> handlers p !! j = Some h' ->
     claims h status = true -> claims h' status = true -> i = j) /\
  (retried p status <->
     exists h, h ∈ handlers p /\ claims h status = true /\ strategy h = StrategyRetry) /\
  (retried p status ->
     (status = StatusTransport \/ 400 <= status <= 599)%Z /\ (1 <= RetryTimes p <= 100)%Z) /\
  (forall doc' p', CompilePolicy doc' = Ok p' -> handlers p' ≡ₚ handlers p ->
     dec_strategy (Decide (Some p') status) = dec_strategy (Decide (Some p) status)).
Proof.
  intros Hp. pose proof (proj1 (CompilePolicy_spec _ _) Hp) as [_ [_ HF] Hd Hr _ _ _].
  pose proof (handler_of_valid _ _ HF) as Hv. split_and!.
  - intros i j h h'. by apply unique_claim.
  - by eapply decide_retry.
  - intros (h & Hin & Hc & Hs)%(decide_retry doc); [|done]. split.
    + eapply claims_range; [|done]. by eapply Forall_forall in Hv.
    + destruct (RetryTimes_ doc) as [n|]; [destruct Hr as (_ & ? & ->); lia|].
      destruct Hr as [Hr _]. by rewrite Hr in Hs.
  - intros doc' p' Hp' Hperm.
    pose proof (decide_retry _ _ status Hp) as H1. pose proof (decide_retry _ _ status Hp') as H2.
    unfold retried in H1, H2. setoid_rewrite Hperm in H2.
    destruct (dec_strategy (Decide (Some p') status)), (dec_strategy (Decide (Some p) status)); try done.
    + by apply H2, H1.
    + symmetry. by apply H1, H2.
Qed.

(** *** A concrete policy *)
Definition codes_on (codes : list Z) : onJSON := MkOn None (Some codes) None.
Definition keyword_on (k : gostring) : onJSON := MkOn (Some k) None None.
Definition sample_doc (ttl : option Z) : policyJSON :=
  MkPolicyJSON "retry.5xx"%go
    [MkHandlerJSON (keyword_on server_error) "retry"%go;
     MkHandlerJSON (codes_on [404; 410]%Z) "discard"%go] 100 None (Some 3%Z) ttl.
Definition sample_policy : Policy :=
  MkPolicy "retry.5xx"%go 100 1 3 0
    [MkHandler (onKeyword server_error) StrategyRetry;
     MkHandler (onExplicit [404; 410]%Z) StrategyDiscard].

Lemma policy_decision_unique_witness :
  CompilePolicy (sample_doc None) = Ok sample_policy /\
  (retried sample_policy 503 -> (1 <= RetryTimes sample_policy <= 100)%Z).
Proof.
  assert (H : CompilePolicy (sample_doc None) = Ok sample_policy) by (vm_compute; reflexivity).
  split; [exact H|]. intros Hr.
  exact (proj2 (proj1 (proj2 (proj2 (policy_decision_unique _ _ 503 H))) Hr)).
Defined.

(** The event TTL of an accepted policy is the declared number of seconds up
    to 9223372036; beyond it the nanosecond product overflows, and an accepted
    policy can even hold a negative TTL, which disables expiry. *)
Theorem policy_event_ttl :
  (forall doc p n, CompilePolicy doc = Ok p -> EventTTL_ doc = Some n ->
     (0 <= n)%Z /\ (EventTTL p = (n * 1000000000)%Z <-> (n <= 9223372036)%Z)) /\
  (exists doc p, CompilePolicy doc = Ok p /\ (EventTTL p < 0)%Z).
Proof.
  split.
  - intros doc p n [_ _ _ _ _ _ Ht]%CompilePolicy_spec E. rewrite E in Ht.
    destruct Ht as [Hn ->]. split; [done|by apply seconds_exact].
  - assert (H : exists p, CompilePolicy (sample_doc (Some 9223372037%Z)) = Ok p /\ (EventTTL p < 0)%Z).
    { eexists. split; [vm_compute; reflexivity|]. vm_compute. reflexivity. }
    destruct H as [p H]. eauto.
Qed.

End Policy.
