(* ===== verification/Triggers.v ===== *)
(** * Trigger conditions

    src/internal/engine/triggers/match.go (the condition compiler and the
    matchers), transient.go ([CompileCondition]) and errorname.go. A decoded
    [simple_triggers] entry is the record of its members; [known_value] is
    the value [encoding/json] decodes it to. *)

From S2P Require Import Prelude GoStrings Regex DeviceID SchemaTypes Endpoints InterfaceParse.
From S2P Require Import EndpointTrie Compile Float64 PayloadValue Policy.
Import Strings Endpoint Payload.

Module Triggers.

(** ** Condition names *)
Definition OnIncomingData : gostring := "incoming_data"%go.
Definition OnValueChange : gostring := "value_change"%go.
Definition OnValueChangeApplied : gostring := "value_change_applied"%go.
Definition OnPathCreated : gostring := "path_created"%go.
Definition OnPathRemoved : gostring := "path_removed"%go.
Definition OnValueStored : gostring := "value_stored"%go.
Definition OnDeviceRegistered : gostring := "device_registered"%go.
Definition OnDeviceConnected : gostring := "device_connected"%go.
Definition OnDeviceDisconnected : gostring := "device_disconnected"%go.
Definition OnDeviceDeletionStarted : gostring := "device_deletion_started"%go.
Definition OnDeviceDeletionFinished : gostring := "device_deletion_finished"%go.
Definition OnDeviceEmptyCacheReceived : gostring := "device_empty_cache_received"%go.
Definition OnDeviceError : gostring := "device_error"%go.
Definition OnIncomingIntrospection : gostring := "incoming_introspection"%go.
Definition OnInterfaceAdded : gostring := "interface_added"%go.
Definition OnInterfaceRemoved : gostring := "interface_removed"%go.
Definition OnInterfaceMinorUpdated : gostring := "interface_minor_updated"%go.

Definition anyToken : gostring := "*"%go.
Definition anyPath : gostring := "/*"%go.

(** The enumerations: [None] is a name outside the map, [Some b] whether the
    condition is evaluated. *)
Definition dataOns (on : gostring) : option bool :=
  if bool_decide (on ∈ [OnIncomingData; OnValueChange; OnValueChangeApplied; OnPathCreated;
                        OnPathRemoved; OnValueStored]) then Some true else None.

Definition prevOns (on : gostring) : bool :=
  bool_decide (on ∈ [OnValueChange; OnValueChangeApplied; OnPathCreated; OnPathRemoved]).

Definition deviceOns (on : gostring) : option bool :=
  if bool_decide (on ∈ [OnDeviceRegistered; OnDeviceConnected; OnDeviceDisconnected;
                        OnDeviceDeletionStarted; OnDeviceDeletionFinished; OnDeviceError;
                        OnIncomingIntrospection; OnInterfaceAdded; OnInterfaceRemoved])
  then Some true
  else if bool_decide (on ∈ [OnDeviceEmptyCacheReceived; OnInterfaceMinorUpdated])
       then Some false else None.

Definition introspectionOns (on : gostring) : bool :=
  bool_decide (on ∈ [OnInterfaceAdded; OnInterfaceRemoved; OnInterfaceMinorUpdated]).

Definition valueOperators (op : gostring) : bool :=
  bool_decide (op ∈ [anyToken; "=="%go; "!="%go; ">"%go; ">="%go; "<"%go; "<="%go;
                     "contains"%go; "not_contains"%go]).

(** ** The two patterns *)
Definition ifaceNameRE : Regex.re :=
  let label := Regex.Cat (Regex.Chr Parse.is_letter) (Regex.Star (Regex.Chr Parse.is_alnum)) in
  let middle := Regex.Cat (Regex.Chr Parse.is_alnum) (Regex.Star (Regex.Chr Parse.is_alnum_dash)) in
  let dot := Regex.Lit "." in
  Regex.Cat
    (Regex.Opt (Regex.Cat (Regex.Cat label dot) (Regex.Star (Regex.Cat middle dot))))
    label.

(** [[a-zA-Z_]+[a-zA-Z0-9_]*] and
    [(\/(%{ident}|ident)){1,64}], anchored. *)
Definition ident_re : Regex.re :=
  Regex.Cat (Regex.Plus (Regex.Chr is_alpha)) (Regex.Star (Regex.Chr ident_char)).
Definition level_re : Regex.re :=
  Regex.Alt (Regex.Cat (Regex.Str "%{"%go) (Regex.Cat ident_re (Regex.Lit "}"))) ident_re.
Definition matchPathRE : Regex.re :=
  Regex.Rep (Regex.Cat (Regex.Lit "/") level_re) 1 64.

(** ** Data *)

(** A decoded [known_value]: numbers are doubles; arrays and objects are
    never comparable. *)
Inductive known :=
| KNull
| KNumber (f : Z)
| KString (s : gostring)
| KBool (b : bool)
| KComposite.

Record dataMatcher := MkDataMatcher {
  d_on : gostring;
  d_deviceID : gostring;
  d_iface : gostring;
  d_major : Z;
  d_anyPath : bool;
  d_pathSegs : list gostring;
  d_operator : gostring;
  d_known : known;
  d_evaluated : bool;
}.

Record deviceMatcher := MkDeviceMatcher {
  v_on : gostring;
  v_deviceID : gostring;
  v_iface : gostring;
  v_major : option Z;
  v_evaluated : bool;
}.

(** A parsed delivery action. *)
Record Action := MkAction {
  Method : gostring;
  URL : gostring;
  StaticHeaders : gmap gostring gostring;
  IgnoreSSLErrors : bool;
  Custom : option gostring;
  Template : gostring;
  TemplateType : gostring;
}.

Record Trigger := MkTrigger {
  tName : gostring;
  tAction : option Action;
  Unsupported : list gostring;
  PolicyName : gostring;
  data : list dataMatcher;
  device : list deviceMatcher;
  policy : option Policy.Policy;
}.

(** The accessor [Policy()], safe on a nil trigger. *)
Definition Policy_ (t : option Trigger) : option Policy.Policy := t ≫= policy.

(** A [simple_triggers] entry: [KnownValue] is absent, present and not
    decodable, or present. *)
Record simpleTriggerConfig := MkConfig {
  cType : gostring;
  cOn : gostring;
  cGroupName : gostring;
  cDeviceID : gostring;
  cInterfaceName : option gostring;
  cInterfaceMajor : option Z;
  cMatchPath : gostring;
  cValueMatchOperator : gostring;
  cKnownValue : option (option known);
}.

Record DataEvent := MkDataEvent {
  eDeviceID : gostring;
  eOn : gostring;
  eInterface : gostring;
  eMajor : Z;
  ePath : gostring;
  eValue : option Value;
}.

Record DeviceEvent := MkDeviceEvent {
  vDeviceID : gostring;
  vOn : gostring;
  vInterface : gostring;
  vMajor : Z;
}.

(** ** Field errors *)
Abbreviation fieldErrs := (gmap gostring (list gostring)).

Definition add (fe : fieldErrs) (field msg : gostring) : fieldErrs :=
  <[field := default [] (fe !! field) ++ [msg]]> fe.

Definition add_if (cond : bool) (field msg : gostring) (fe : fieldErrs) : fieldErrs :=
  if cond then add fe field msg else fe.

Inductive condition_error :=
| FieldErrors (fe : fieldErrs)
| UnknownTriggerType (type : gostring)
| KnownValueDoesNotParse.

Definition no_field_errors (fe : fieldErrs) : result condition_error () :=
  if decide (fe = ∅) then Ok () else Err (FieldErrors fe).

(** ** The device filter *)
Definition extended_char (c : ascii) : bool :=
  between "A" "Z" c || between "a" "z" c || between "0" "9" c
  || bool_decide (c = "-"%char) || bool_decide (c = "_"%char).

Definition isExtendedDeviceID (s : gostring) : bool :=
  if (length s <=? DeviceID.EncodedLen)%nat then false else forallb extended_char s.

Definition deviceFilterErrs (deviceID groupName : gostring) (fe : fieldErrs) : fieldErrs :=
  let fe := add_if (negb (bool_decide (deviceID = [])) && negb (bool_decide (groupName = [])))
              "group_name"%go "must not be defined if device_id is defined"%go fe in
  if negb (bool_decide (deviceID = [])) && negb (bool_decide (deviceID = anyToken)) then
    match DeviceID.Parse deviceID with
    | Ok _ => fe
    | Err _ =>
        if isExtendedDeviceID deviceID
        then add fe "device_id"%go "is too long, device id must be 128 bits"%go
        else add fe "device_id"%go "is not a valid device id"%go
    end
  else fe.

(** ** Compiling one condition *)
Definition noteUnsupported (t : Trigger) (cond : bool) (what : gostring) : Trigger :=
  if negb cond then t
  else if bool_decide (what ∈ Unsupported t) then t
  else MkTrigger (tName t) (tAction t) (Unsupported t ++ [what]) (PolicyName t) (data t) (device t)
         (policy t).

Definition append_data (t : Trigger) (m : dataMatcher) : Trigger :=
  MkTrigger (tName t) (tAction t) (Unsupported t) (PolicyName t) (data t ++ [m]) (device t) (policy t).
Definition append_device (t : Trigger) (m : deviceMatcher) : Trigger :=
  MkTrigger (tName t) (tAction t) (Unsupported t) (PolicyName t) (data t) (device t ++ [m]) (policy t).

Definition blank (s : gostring) : bool := bool_decide (s = []).
Definition is_some {A} (o : option A) : bool := match o with Some _ => true | None => false end.

Definition group_scoped : gostring := "group-scoped trigger (group_name)"%go.

Definition on_errors (known : bool) (on : gostring) (fe : fieldErrs) : fieldErrs :=
  if blank on then add fe "on"%go "can't be blank"%go
  else add_if (negb known) "on"%go "is invalid"%go fe.

Definition operator_errors (op : gostring) (fe : fieldErrs) : fieldErrs :=
  if blank op then add fe "value_match_operator"%go "can't be blank"%go
  else add_if (negb (valueOperators op)) "value_match_operator"%go "is invalid"%go fe.

(** The interface of a data condition: "*" forces the condition and the path;
    a concrete name needs its format and a major. *)
Definition iface_errors (c : simpleTriggerConfig) (iface : gostring) (fe : fieldErrs) : fieldErrs :=
  if bool_decide (iface = anyToken) then
    if negb (bool_decide (cOn c = OnIncomingData))
    then add fe "on"%go ("must be incoming_data when interface_name is "%go ++ anyToken)
    else add_if (negb (bool_decide (cMatchPath c = anyPath))) "match_path"%go
           ("must be /* when interface_name is "%go ++ anyToken) fe
  else
    let fe := add_if (negb (blank iface) && negb (Regex.MatchString ifaceNameRE iface))
                "interface_name"%go "has invalid format"%go fe in
    add_if (negb (is_some (cInterfaceMajor c))) "interface_major"%go "can't be blank"%go fe.

Definition path_errors (path op : gostring) (fe : fieldErrs) : fieldErrs :=
  if bool_decide (path = anyPath) then
    add_if (negb (bool_decide (op = anyToken)) && negb (blank op)) "value_match_operator"%go
      ("must be * when match_path is "%go ++ anyPath) fe
  else add_if (negb (blank path) && negb (Regex.MatchString matchPathRE path))
         "match_path"%go "has invalid format"%go fe.

(** The violations of a data condition, in the order the code adds them. *)
Definition data_errors (c : simpleTriggerConfig) : fieldErrs :=
  let iface := default [] (cInterfaceName c) in
  let op := cValueMatchOperator c in
  let fe := on_errors (is_some (dataOns (cOn c))) (cOn c) ∅ in
  let fe := add_if (blank iface) "interface_name"%go "can't be blank"%go fe in
  let fe := add_if (blank (cMatchPath c)) "match_path"%go "can't be blank"%go fe in
  let fe := operator_errors op fe in
  let fe := iface_errors c iface fe in
  let fe := deviceFilterErrs (cDeviceID c) (cGroupName c) fe in
  let fe := path_errors (cMatchPath c) op fe in
  add_if (negb (bool_decide (op = anyToken)) && negb (blank op) && negb (is_some (cKnownValue c)))
    "known_value"%go "can't be blank"%go fe.

Definition compileData (t : Trigger) (c : simpleTriggerConfig) : result condition_error Trigger :=
  no_field_errors (data_errors c) ;;?
  let known := is_some (dataOns (cOn c)) in
  let any := bool_decide (cMatchPath c = anyPath) in
  let? k := match cKnownValue c with
            | None => Ok KNull
            | Some None => Err KnownValueDoesNotParse
            | Some (Some k) => Ok k
            end in
  let m := MkDataMatcher (cOn c) (cDeviceID c) (default [] (cInterfaceName c))
             (default 0%Z (cInterfaceMajor c)) any
             (if any then [] else tail (Split (cMatchPath c) "/"))
             (cValueMatchOperator c) k (known && blank (cGroupName c)) in
  let t := noteUnsupported t (negb known) ("data_trigger on "%go ++ cOn c) in
  let t := noteUnsupported t (negb (blank (cGroupName c))) group_scoped in
  Ok (append_data t m).

(** The interface filter of an introspection condition. *)
Definition filter_errors (c : simpleTriggerConfig) (name : gostring) (fe : fieldErrs) : fieldErrs :=
  let minor := bool_decide (cOn c = OnInterfaceMinorUpdated) in
  let no_major := negb (is_some (cInterfaceMajor c)) in
  if blank name then
    let fe := add_if minor "interface_name"%go "must be set in interface_minor_updated triggers"%go fe in
    add_if no_major "interface_major"%go "can't be blank"%go fe
  else if bool_decide (name = anyToken) then
    add_if minor "interface_name"%go "must not be '*' in interface_minor_updated triggers"%go fe
  else
    let fe := add_if (negb (Regex.MatchString ifaceNameRE name)) "interface_name"%go
                "has invalid format"%go fe in
    add_if no_major "interface_major"%go "can't be blank"%go fe.

Definition device_errors (c : simpleTriggerConfig) : fieldErrs :=
  let name := default [] (cInterfaceName c) in
  let hasName := negb (blank name) in
  let fe := on_errors (is_some (deviceOns (cOn c))) (cOn c) ∅ in
  let fe := deviceFilterErrs (cDeviceID c) (cGroupName c) fe in
  let fe := add_if (hasName && negb (introspectionOns (cOn c))) "interface_name"%go
    "is allowed only in if 'on' is one of interface_minor_updated, interface_removed, interface_added"%go fe in
  let fe := if introspectionOns (cOn c) then filter_errors c name fe else fe in
  add_if (bool_decide (cOn c = OnIncomingIntrospection) && hasName) "interface_name"%go
    "must not be set in incoming_introspection triggers"%go fe.

Definition compileDevice (t : Trigger) (c : simpleTriggerConfig) : result condition_error Trigger :=
  no_field_errors (device_errors c) ;;?
  let evaluated := default false (deviceOns (cOn c)) in
  let name := default [] (cInterfaceName c) in
  let m := MkDeviceMatcher (cOn c) (cDeviceID c) name
             (if introspectionOns (cOn c) && negb (bool_decide (name = anyToken))
              then cInterfaceMajor c else None)
             (evaluated && blank (cGroupName c)) in
  let t := noteUnsupported t (negb evaluated) ("device_trigger on "%go ++ cOn c) in
  let t := noteUnsupported t (negb (blank (cGroupName c))) group_scoped in
  Ok (append_device t m).

Definition compileSimple (t : Trigger) (c : simpleTriggerConfig) : result condition_error Trigger :=
  if bool_decide (cType c = "data_trigger"%go) then compileData t c
  else if bool_decide (cType c = "device_trigger"%go) then compileDevice t c
  else Err (UnknownTriggerType (cType c)).

(** transient.go: one condition as a matcher-only trigger. *)
Definition CompileCondition (name : gostring) (c : simpleTriggerConfig)
    : result condition_error Trigger :=
  compileSimple (MkTrigger name None [] [] [] [] None) c.

(** ** Matching *)
Definition deviceIDMatches (filter deviceID : gostring) : bool :=
  bool_decide (filter = []) || bool_decide (filter = anyToken) || bool_decide (filter = deviceID).

Definition segMatches (pattern seg : gostring) : bool :=
  if HasPrefix pattern "%{"%go && HasSuffix pattern "}"%go then negb (blank seg)
  else bool_decide (pattern = seg).

Fixpoint path_loop (segs : list gostring) (rest : gostring) : bool :=
  match segs with
  | [] => bool_decide (rest = [])
  | [seg] =>
      if Contains rest "/"%go then false
      else if segMatches seg rest then true else false
  | seg :: segs =>
      match Cut rest "/" with
      | (cur, rest', ok) =>
          if negb ok then false
          else if Contains cur "/"%go then false
          else if negb (segMatches seg cur) then false
          else path_loop segs rest'
      end
  end.

Definition pathMatches (segs : list gostring) (path : gostring) : bool :=
  match CutPrefix path "/"%go with
  | None => false
  | Some rest => path_loop segs rest
  end.

Definition numeric_value (v : Value) : option Z :=
  match v with
  | VScalar (SDouble f) => Some f
  | VScalar (SInteger i) | VScalar (SLong i) => Some (Float64.of_int i)
  | _ => None
  end.
Definition numeric_known (k : known) : option Z :=
  match k with KNumber f => Some f | _ => None end.

(** [valueEquals]: equal, and comparable at all. *)
Definition valueEquals (v : Value) (k : known) : bool * bool :=
  match numeric_value v with
  | Some a => match numeric_known k with
              | Some b => (Float64.eqb a b, true)
              | None => (false, false)
              end
  | None =>
      match v with
      | VScalar (SString s) => match k with KString s' => (bool_decide (s = s'), true) | _ => (false, false) end
      | VScalar (SBool b) => match k with KBool b' => (Bool.eqb b b', true) | _ => (false, false) end
      | _ => (false, false)
      end
  end.

Definition sliceContains (a : Slice) (k : known) : bool :=
  existsb (fun s => let (eq, ok) := valueEquals (VScalar s) k in ok && eq) (slice_elems a).

Definition containable (v : Value) : option (known -> bool) :=
  match v with
  | VScalar (SString s) => Some (fun k => match k with KString s' => Contains s s' | _ => false end)
  | VSlice (AString _ as a) | VSlice (ADouble _ as a) | VSlice (AInteger _ as a)
  | VSlice (ALong _ as a) | VSlice (ABool _ as a) => Some (sliceContains a)
  | _ => None
  end.

Definition containsValue (v : Value) (k : known) : bool :=
  match containable v with Some c => c k | None => false end.

Definition compare_values (op : gostring) (a b : Z) : bool :=
  if bool_decide (op = ">"%go) then Float64.ltb b a
  else if bool_decide (op = ">="%go) then Float64.leb b a
  else if bool_decide (op = "<"%go) then Float64.ltb a b
  else Float64.leb a b.

Definition valueMatches (op : gostring) (value : option Value) (k : known) : bool :=
  if bool_decide (op = anyToken) then true
  else match value with
  | None => false
  | Some v =>
      if bool_decide (op = "=="%go) then let (eq, ok) := valueEquals v k in ok && eq
      else if bool_decide (op = "!="%go) then let (eq, ok) := valueEquals v k in ok && negb eq
      else if bool_decide (op ∈ [">"%go; ">="%go; "<"%go; "<="%go]) then
        match numeric_value v, numeric_known k with
        | Some a, Some b => compare_values op a b
        | _, _ => false
        end
      else if bool_decide (op = "contains"%go) then containsValue v k
      else if bool_decide (op = "not_contains"%go) then
        match containable v with Some c => negb (c k) | None => false end
      else false
  end.

(** The filters a data condition and the change gate share. *)
Definition filters_match (m : dataMatcher) (ev : DataEvent) : bool :=
  deviceIDMatches (d_deviceID m) (eDeviceID ev) &&
  (bool_decide (d_iface m = anyToken) ||
   (bool_decide (d_iface m = eInterface ev) && (d_major m =? eMajor ev)%Z)) &&
  (d_anyPath m || pathMatches (d_pathSegs m) (ePath ev)).

Definition matches (m : dataMatcher) (ev : DataEvent) : bool :=
  if negb (d_evaluated m) || negb (bool_decide (d_on m = eOn ev)) then false
  else if negb (filters_match m ev) then false
  else if bool_decide (eOn ev = OnPathRemoved) then true
  else valueMatches (d_operator m) (eValue ev) (d_known m).

Definition MatchesData (t : Trigger) (ev : DataEvent) : bool :=
  existsb (fun m => matches m ev) (data t).

Definition TracksChanges (t : Trigger) (ev : DataEvent) : bool :=
  existsb (fun m => d_evaluated m && prevOns (d_on m) && filters_match m ev) (data t).

Definition device_matches (m : deviceMatcher) (ev : DeviceEvent) : bool :=
  if negb (v_evaluated m) || negb (bool_decide (v_on m = vOn ev)) then false
  else if negb (deviceIDMatches (v_deviceID m) (vDeviceID ev)) then false
  else if introspectionOns (v_on m) then
    if negb (blank (v_iface m)) && negb (bool_decide (v_iface m = anyToken))
       && negb (bool_decide (v_iface m = vInterface ev)) then false
    else match v_major m with
         | Some major => (major =? vMajor ev)%Z
         | None => true
         end
  else true.

Definition MatchesDevice (t : Trigger) (ev : DeviceEvent) : bool :=
  existsb (fun m => device_matches m ev) (device t).

(** ** Reject reasons on the wire (errorname.go) *)
Definition upstreamErrorNames : list gostring :=
  ["write_on_server_owned_interface"%go; "invalid_interface"%go; "invalid_path"%go;
   "mapping_not_found"%go; "interface_loading_failed"%go; "ambiguous_path"%go;
   "undecodable_bson_payload"%go; "unexpected_value_type"%go; "value_size_exceeded"%go;
   "unexpected_object_key"%go; "invalid_introspection"%go; "unexpected_control_message"%go;
   "device_session_not_found"%go; "resend_interface_properties_failed"%go; "empty_cache_error"%go].

Definition upstreamFallback : gostring := "interface_loading_failed"%go.

Definition astrateToUpstream : list (gostring * gostring) :=
  [("realm_unknown"%go, "device_session_not_found"%go);
   ("device_unknown"%go, "device_session_not_found"%go);
   ("malformed_topic"%go, "invalid_path"%go);
   ("interface_not_in_introspection"%go, "interface_loading_failed"%go);
   ("interface_not_installed"%go, "interface_loading_failed"%go);
   ("ownership_violation"%go, "write_on_server_owned_interface"%go);
   ("unexpected_path"%go, "mapping_not_found"%go);
   ("introspection_invalid"%go, "invalid_introspection"%go);
   ("control_unknown"%go, "unexpected_control_message"%go);
   ("control_payload_invalid"%go, "unexpected_control_message"%go);
   ("too_large"%go, "value_size_exceeded"%go);
   ("unknown_format"%go, "undecodable_bson_payload"%go);
   ("malformed"%go, "undecodable_bson_payload"%go);
   ("no_value"%go, "unexpected_value_type"%go);
   ("bad_timestamp"%go, "unexpected_value_type"%go);
   ("type_mismatch"%go, "unexpected_value_type"%go);
   ("value_too_large"%go, "value_size_exceeded"%go);
   ("bad_object"%go, "unexpected_object_key"%go);
   ("missing_required"%go, "unexpected_object_key"%go);
   ("unset_not_allowed"%go, "unexpected_value_type"%go)].

Fixpoint assoc (l : list (gostring * gostring)) (k : gostring) : option gostring :=
  match l with
  | [] => None
  | (k', v) :: l => if bool_decide (k = k') then Some v else assoc l k
  end.

Definition UpstreamErrorName (reason : gostring) : gostring :=
  if bool_decide (reason ∈ upstreamErrorNames) then reason
  else default upstreamFallback (assoc astrateToUpstream reason).

(** ** Match paths are endpoints *)
Lemma valid_from_ident i s : Forall (fun c => ident_char c = true) s -> valid_from (S i) s = true.
Proof.
  intros H. revert i. induction H as [|c s Hc _ IH]; intros i; simpl; [done|].
  unfold ident_char in Hc. destruct (is_alpha c); [apply IH|]. simpl in Hc. rewrite Hc. apply IH.
Qed.

Lemma ident_re_spec s : Regex.lang ident_re s <-> validIdentifier s = true.
Proof.
  unfold ident_re, Regex.Plus. split.
  - intros (a & b & -> & Ha & Hb%Regex.lang_star_chr)%Regex.lang_cat_inv.
    apply Regex.lang_cat_inv in Ha as (x & y & -> & (c & -> & Hc)%Regex.lang_chr_inv & Hy%Regex.lang_star_chr).
    simpl. rewrite Hc. apply valid_from_ident, Forall_app. split; [|done].
    eapply Forall_impl; [exact Hy|]. intros d Hd. unfold ident_char. cbv beta in Hd. by rewrite Hd.
  - destruct s as [|c s]; [done|]. simpl. destruct (is_alpha c) eqn:Ec; [|by destruct (is_digit c)].
    intros H%valid_from_chars. apply Regex.lang_cat_inv. exists [c], s. split_and!; [done| |by apply Regex.lang_star_chr].
    apply Regex.lang_cat_inv. exists [c], []. split_and!; [done|apply Regex.lang_chr_inv; eauto|].
    by apply Regex.lang_star_chr.
Qed.

Lemma level_re_spec s : Regex.lang level_re s <-> exists seg, valid_seg seg /\ s = render seg.
Proof.
  unfold level_re, valid_seg, render. rewrite Regex.lang_alt_inv, ident_re_spec. split.
  - intros [H|H]; [|by exists (Seg s false)].
    apply Regex.lang_cat_inv in H as (a & b & -> & Ha & Hb).
    apply Regex.lang_str_inv in Ha as ->.
    apply Regex.lang_cat_inv in Hb as (x & y & -> & Hx%ident_re_spec & ->%Regex.lang_lit_inv).
    by exists (Seg x true).
  - intros (seg & Hv & ->). destruct (param seg); [left|by right].
    apply Regex.lang_cat_inv. exists "%{"%go, (literal seg ++ "}"%go). split_and!; [done|by apply Regex.lang_str_inv|].
    apply Regex.lang_cat_inv. exists (literal seg), "}"%go.
    split_and!; [done|by apply ident_re_spec|by apply Regex.lang_lit_inv].
Qed.

(** The trigger's path pattern is the endpoint syntax. *)
Lemma matchPathRE_endpoint s :
  Regex.MatchString matchPathRE s = true <-> exists segs, splitEndpoint s = Ok segs.
Proof.
  rewrite Regex.MatchString_spec. unfold matchPathRE. rewrite Regex.lang_rep.
  setoid_rewrite (proj1 splitEndpoint_spec). split.
  - intros (l & -> & Hl & HF).
    assert (exists segs, Forall valid_seg segs /\ l = map (fun seg => "/"%char :: render seg) segs) as (segs & Hv & ->).
    { clear Hl. induction HF as [|x l Hx _ (segs & Hv & ->)]; [by exists []|].
      apply Regex.lang_cat_inv in Hx as (a & b & -> & ->%Regex.lang_lit_inv & (seg & Hs & ->)%level_re_spec).
      exists (seg :: segs). split; [by constructor|done]. }
    rewrite length_map in Hl. exists segs. unfold MaxEndpointDepth. split_and!; [|lia|done|done].
    intros ->. simpl in Hl. lia.
  - intros (segs & Hne & Hl & Hv & ->). exists (map (fun seg => "/"%char :: render seg) segs).
    rewrite length_map. split_and!; [done| |done|].
    + destruct segs; simpl; [done|lia].
    + apply Forall_map. eapply Forall_impl; [exact Hv|]. intros seg Hs.
      apply Regex.lang_cat_inv. exists "/"%go, (render seg). split_and!; [done|by apply Regex.lang_lit_inv|].
      apply level_re_spec. eauto.
Qed.

(** ** Segment-wise matching *)
Lemma segMatches_level seg q : valid_seg seg ->
  segMatches (render seg) q = true <-> matches_level seg q.
Proof.
  intros Hv. unfold segMatches, matches_level, render, blank. destruct (param seg).
  - assert (HasPrefix ("%{"%go ++ literal seg ++ "}"%go) "%{"%go = true) as ->.
    { apply HasPrefix_spec. eauto. }
    assert (HasSuffix ("%{"%go ++ literal seg ++ "}"%go) "}"%go = true) as ->.
    { unfold HasSuffix. rewrite !rev_app_distr. done. }
    simpl. rewrite negb_true_iff, bool_decide_eq_false. done.
  - destruct (HasPrefix (literal seg) "%{"%go) eqn:E; simpl.
    { apply HasPrefix_spec in E as [r E]. exfalso.
      apply (validIdentifier_no "%" _ eq_refl Hv). rewrite E. left. }
    by rewrite bool_decide_eq_true.
Qed.

Lemma Contains_byte s c : Contains s [c] = true <-> c ∈ s.
Proof.
  rewrite Contains_spec. split.
  - intros (a & b & ->). apply elem_of_app. right. left.
  - intros (a & b & ->)%list_elem_of_split. by exists a, b.
Qed.

Lemma path_loop_spec segs rest : segs <> [] ->
  path_loop segs rest = true <-> Forall2 (fun seg q => segMatches seg q = true) segs (Split rest "/").
Proof.
  revert rest. induction segs as [|seg segs IH]; intros rest Hne; [done|].
  destruct (slash_cases rest) as [Hn|(a & b & -> & Ha)].
  - rewrite Split_none by done. destruct segs as [|seg' segs]; cbn [path_loop].
    + destruct (Contains rest "/"%go) eqn:E; [by apply Contains_byte in E|].
      destruct (segMatches seg rest) eqn:Es; split; try done.
      * intros _. by repeat constructor.
      * intros [H _]%Forall2_cons. congruence.
    + rewrite Cut_none by done. simpl. split; [done|]. by intros [_ H%Forall2_cons_nil_inv]%Forall2_cons.
  - rewrite Split_app by done. destruct segs as [|seg' segs]; cbn [path_loop].
    + assert (Contains (a ++ "/"%char :: b) "/"%go = true) as ->.
      { apply Contains_byte, elem_of_app. right. left. }
      split; [done|]. intros [_ H]%Forall2_cons. apply Forall2_nil_inv_l in H. by apply Split_nonempty in H.
    + rewrite Cut_app by done. cbn [negb].
      destruct (Contains a "/"%go) eqn:E; [by apply Contains_byte in E|].
      rewrite Forall2_cons. destruct (segMatches seg a); cbn [negb].
      * rewrite (IH b) by done. tauto.
      * split; [done|]. by intros [? _].
Qed.

(** A condition's path filter is the endpoint's own matching. *)
Lemma pathMatches_endpoint p segs path : splitEndpoint p = Ok segs ->
  pathMatches (tail (Split p "/")) path = true <->
  exists rest, path = "/"%char :: rest /\ matches_path segs (Split rest "/").
Proof.
  intros (Hne & _ & Hv & ->)%(proj1 splitEndpoint_spec).
  assert (tail (Split (render_endpoint segs) "/") = map render segs) as ->.
  { rewrite render_endpoint_join by done.
    pose proof (Split_app [] (Join (map render segs) "/") "/" ltac:(set_solver)) as E.
    rewrite app_nil_l in E. rewrite E. cbn [tail].
    apply Split_Join; [by destruct segs|]. apply Forall_map. eapply Forall_impl; [exact Hv|].
    intros seg. apply render_no_slash. }
  unfold pathMatches. destruct (CutPrefix path "/"%go) as [rest|] eqn:E.
  - apply CutPrefix_spec in E as ->. rewrite path_loop_spec by (by destruct segs).
    rewrite Forall2_fmap_l. split.
    + intros HF. exists rest. split; [done|]. eapply Forall2_impl_valid; [exact Hv|exact HF|].
      intros seg q Hs. by apply segMatches_level.
    + intros (rest' & [= <-] & HF). eapply Forall2_impl_valid; [exact Hv|exact HF|].
      intros seg q Hs. by apply segMatches_level.
  - split; [done|]. intros (rest & -> & _).
    assert (CutPrefix ("/"%char :: rest) "/"%go = Some rest) by (by apply CutPrefix_spec). congruence.
Qed.

(** ** Accepted conditions *)
Lemma add_nonempty fe field msg : add fe field msg <> ∅.
Proof. apply insert_non_empty. Qed.

Lemma add_if_empty b field msg fe : add_if b field msg fe = ∅ <-> b = false /\ fe = ∅.
Proof.
  destruct b; simpl; [|tauto]. split; [by intros ?%add_nonempty|by intros [? _]].
Qed.

Definition device_filter_ok (deviceID groupName : gostring) : Prop :=
  (deviceID = [] \/ groupName = []) /\
  (deviceID = [] \/ deviceID = anyToken \/ exists id, DeviceID.Parse deviceID = Ok id).

Lemma blank_true s : blank s = true <-> s = [].
Proof. apply bool_decide_eq_true. Qed.
Lemma blank_false s : blank s = false <-> s <> [].
Proof. apply bool_decide_eq_false. Qed.

Lemma deviceFilterErrs_empty d g fe :
  deviceFilterErrs d g fe = ∅ <-> fe = ∅ /\ device_filter_ok d g.
Proof.
  unfold deviceFilterErrs, device_filter_ok.
  assert (Hg : negb (bool_decide (d = [])) && negb (bool_decide (g = [])) = false <-> d = [] \/ g = []).
  { rewrite andb_false_iff, !negb_false_iff, !bool_decide_eq_true. done. }
  destruct (negb (bool_decide (d = [])) && negb (bool_decide (d = anyToken))) eqn:E.
  - bool_hyps. destruct (DeviceID.Parse d) as [id|e] eqn:Ep.
    + rewrite add_if_empty, Hg. naive_solver.
    + split.
      * destruct (isExtendedDeviceID d); by intros ?%add_nonempty.
      * intros (_ & _ & [? | [? | [id Hid]]]); congruence.
  - rewrite add_if_empty, Hg. apply andb_false_iff in E. rewrite !negb_false_iff, !bool_decide_eq_true in E.
    tauto.
Qed.

(** What a data condition must satisfy. *)
Record data_condition_ok (c : simpleTriggerConfig) : Prop := {
  ok_on : dataOns (cOn c) = Some true;
  ok_iface :
    (cInterfaceName c = Some anyToken /\ cOn c = OnIncomingData /\ cMatchPath c = anyPath) \/
    (exists iface major, cInterfaceName c = Some iface /\ cInterfaceMajor c = Some major /\
       iface <> anyToken /\ Regex.MatchString ifaceNameRE iface = true);
  ok_device : device_filter_ok (cDeviceID c) (cGroupName c);
  ok_path : (cMatchPath c = anyPath /\ cValueMatchOperator c = anyToken) \/
            (cMatchPath c <> anyPath /\ exists segs, splitEndpoint (cMatchPath c) = Ok segs);
  ok_operator : valueOperators (cValueMatchOperator c) = true;
  ok_known : cValueMatchOperator c = anyToken \/ cKnownValue c <> None;
}.

Lemma on_errors_empty known on fe :
  on_errors known on fe = ∅ <-> fe = ∅ /\ on <> [] /\ known = true.
Proof.
  unfold on_errors. destruct (blank on) eqn:E.
  - apply blank_true in E. split; [by intros ?%add_nonempty|tauto].
  - apply blank_false in E. rewrite add_if_empty, negb_false_iff. tauto.
Qed.

Lemma operator_errors_empty op fe :
  operator_errors op fe = ∅ <-> fe = ∅ /\ op <> [] /\ valueOperators op = true.
Proof.
  unfold operator_errors. destruct (blank op) eqn:E.
  - apply blank_true in E. split; [by intros ?%add_nonempty|tauto].
  - apply blank_false in E. rewrite add_if_empty, negb_false_iff. tauto.
Qed.

Lemma iface_errors_empty c iface fe : iface_errors c iface fe = ∅ <->
  fe = ∅ /\
  ((iface = anyToken /\ cOn c = OnIncomingData /\ cMatchPath c = anyPath) \/
   (iface <> anyToken /\ (iface = [] \/ Regex.MatchString ifaceNameRE iface = true) /\
    cInterfaceMajor c <> None)).
Proof.
  unfold iface_errors. case_bool_decide as Ha.
  - case_bool_decide as Ho; simpl.
    + rewrite add_if_empty, negb_false_iff, bool_decide_eq_true. tauto.
    + split; [by intros ?%add_nonempty|tauto].
  - rewrite !add_if_empty, andb_false_iff, !negb_false_iff, blank_true.
    destruct (cInterfaceMajor c); simpl; naive_solver.
Qed.

Lemma path_errors_empty path op fe : path_errors path op fe = ∅ <->
  fe = ∅ /\
  ((path = anyPath /\ (op = anyToken \/ op = [])) \/
   (path <> anyPath /\ (path = [] \/ Regex.MatchString matchPathRE path = true))).
Proof.
  unfold path_errors. case_bool_decide as Hp.
  - rewrite add_if_empty, andb_false_iff, !negb_false_iff, blank_true, bool_decide_eq_true. tauto.
  - rewrite add_if_empty, andb_false_iff, !negb_false_iff, blank_true. tauto.
Qed.

Lemma data_errors_empty c : data_errors c = ∅ <-> data_condition_ok c.
Proof.
  assert (Hd : is_some (dataOns (cOn c)) = true <-> dataOns (cOn c) = Some true).
  { unfold dataOns. by case_bool_decide. }
  assert (Hon : dataOns (cOn c) = Some true -> cOn c <> []) by (by intros H E; rewrite E in H).
  assert (Hop : valueOperators (cValueMatchOperator c) = true -> cValueMatchOperator c <> []).
  { intros H E. by rewrite E in H. }
  assert (Hk : is_some (cKnownValue c) = true <-> cKnownValue c <> None) by (by destruct (cKnownValue c)).
  unfold data_errors. cbv zeta.
  rewrite add_if_empty, path_errors_empty, deviceFilterErrs_empty, iface_errors_empty,
    operator_errors_empty, !add_if_empty, on_errors_empty, !andb_false_iff, !negb_false_iff,
    bool_decide_eq_true, Hk, Hd, blank_true, !blank_false, matchPathRE_endpoint.
  split.
  - intros (Hkn & ((((Hi & Hm & _ & Ho & Hdo) & Hop1 & Hop2) & Hif) & Hdev) & Hpath).
    assert (Hin : exists i, cInterfaceName c = Some i /\ default [] (cInterfaceName c) = i).
    { destruct (cInterfaceName c); [eauto|done]. }
    destruct Hin as (i & Hi1 & Hi2). rewrite Hi2 in *.
    split; [done| |done| |done|tauto].
    + destruct Hif as [(-> & ? & ?) | (? & [?|?] & Hmaj)]; [left; tauto|done|].
      right. destruct (cInterfaceMajor c) as [mj|]; [|done]. by exists i, mj.
    + destruct Hpath as [[? [?|?]] | [? [?|?]]]; [left; tauto|done|done|right; tauto].
  - intros [H1 H2 H3 H4 H5 H6]. split_and!; try tauto.
    + destruct H4 as [[-> _] | [_ [segs Hs]]]; [done|]. intros E. by rewrite E in Hs.
    + destruct H2 as [(-> & _) | (i & mj & -> & _ & _ & Hre)]; [done|]. simpl. intros ->. done.
    + destruct H2 as [(-> & ? & ?) | (i & mj & -> & -> & ? & Hre)]; simpl;
        [left; tauto|right; split_and!; [done|by right|done]].
Qed.

(** When an accepted data condition fires, in terms of its definition. *)
Definition value_condition (c : simpleTriggerConfig) (ev : DataEvent) : Prop :=
  eOn ev = OnPathRemoved \/
  exists k, (cKnownValue c = Some (Some k) \/ (cKnownValue c = None /\ k = KNull)) /\
    valueMatches (cValueMatchOperator c) (eValue ev) k = true.

(** The event passes the device, interface and path filters. *)
Definition in_scope (c : simpleTriggerConfig) (ev : DataEvent) : Prop :=
  (cDeviceID c = [] \/ cDeviceID c = anyToken \/ cDeviceID c = eDeviceID ev) /\
  (cInterfaceName c = Some anyToken \/
   (cInterfaceName c = Some (eInterface ev) /\ cInterfaceMajor c = Some (eMajor ev))) /\
  (cMatchPath c = anyPath \/
   exists segs rest, splitEndpoint (cMatchPath c) = Ok segs /\ ePath ev = "/"%char :: rest /\
     matches_path segs (Split rest "/")).

Definition fires (c : simpleTriggerConfig) (ev : DataEvent) : Prop :=
  cGroupName c = [] /\ eOn ev = cOn c /\ in_scope c ev /\ value_condition c ev.

(** The matcher a data condition compiles to. *)
Definition data_matcher_of (c : simpleTriggerConfig) (k : known) : dataMatcher :=
  let any := bool_decide (cMatchPath c = anyPath) in
  MkDataMatcher (cOn c) (cDeviceID c) (default [] (cInterfaceName c))
    (default 0%Z (cInterfaceMajor c)) any (if any then [] else tail (Split (cMatchPath c) "/"))
    (cValueMatchOperator c) k (blank (cGroupName c)).

Definition known_of (c : simpleTriggerConfig) (k : known) : Prop :=
  cKnownValue c = Some (Some k) \/ (cKnownValue c = None /\ k = KNull).

Lemma noteUnsupported_data t b what : data (noteUnsupported t b what) = data t.
Proof. unfold noteUnsupported. destruct b; simpl; [by case_bool_decide|done]. Qed.

Lemma compileData_spec t c t' :
  compileData t c = Ok t' -> data_condition_ok c /\
  exists k, known_of c k /\ data t' = data t ++ [data_matcher_of c k].
Proof.
  unfold compileData, no_field_errors. intros H.
  case_decide as He; [|done]. cbn [bindR] in H. apply data_errors_empty in He. split; [done|].
  apply bindR_Ok in H as (k & Hk & H). injection H as <-. exists k. split.
  - unfold known_of. destruct (cKnownValue c) as [[k'|]|]; simplify_eq; auto.
  - simpl. rewrite !noteUnsupported_data. rewrite (ok_on c He). done.
Qed.

Lemma compileData_accepts t c : data_condition_ok c -> cKnownValue c <> Some None ->
  exists t', compileData t c = Ok t'.
Proof.
  intros He%data_errors_empty Hk. unfold compileData, no_field_errors.
  rewrite decide_True by done. cbn [bindR]. destruct (cKnownValue c) as [[k|]|]; [eauto|done|eauto].
Qed.

Lemma filters_in_scope c k ev : data_condition_ok c ->
  filters_match (data_matcher_of c k) ev = true <-> in_scope c ev.
Proof.
  intros [_ Hi _ Hp _ _]. unfold filters_match, in_scope, data_matcher_of, deviceIDMatches. cbn.
  rewrite !andb_true_iff, !orb_true_iff, andb_true_iff, !bool_decide_eq_true, Z.eqb_eq.
  assert (H1 : (default [] (cInterfaceName c) = anyToken \/
                default [] (cInterfaceName c) = eInterface ev /\ default 0%Z (cInterfaceMajor c) = eMajor ev) <->
    (cInterfaceName c = Some anyToken \/
     cInterfaceName c = Some (eInterface ev) /\ cInterfaceMajor c = Some (eMajor ev))).
  { destruct Hi as [(-> & _) | (i & mj & -> & -> & Hne & _)]; simpl; naive_solver. }
  rewrite H1.
  assert (H2 : (cMatchPath c = anyPath \/
                pathMatches (if bool_decide (cMatchPath c = anyPath) then [] else tail (Split (cMatchPath c) "/"))
                  (ePath ev) = true) <->
    (cMatchPath c = anyPath \/ exists segs rest, splitEndpoint (cMatchPath c) = Ok segs /\
       ePath ev = "/"%char :: rest /\ matches_path segs (Split rest "/"))).
  { destruct Hp as [[-> _] | [Hne [segs Hs]]]; [tauto|].
    rewrite bool_decide_eq_false_2 by done. rewrite (pathMatches_endpoint _ segs) by done.
    split; (intros [?|H]; [done|right]).
    - destruct H as (rest & ? & ?). by exists segs, rest.
    - destruct H as (segs' & rest & Hs' & ? & ?). exists rest. rewrite Hs in Hs'. simplify_eq. done. }
  rewrite H2.
  assert (forall a b d i p : Prop, (((a \/ b) \/ d) /\ i) /\ p <-> (a \/ b \/ d) /\ i /\ p) as E
    by (clear; tauto).
  apply E.
Qed.

Lemma matches_fires c k ev : data_condition_ok c -> known_of c k ->
  matches (data_matcher_of c k) ev = true <-> fires c ev.
Proof.
  intros Hok Hk. unfold matches, fires. pose proof (filters_in_scope c k ev Hok) as Hf.
  assert (Hv : value_condition c ev <->
    eOn ev = OnPathRemoved \/ valueMatches (cValueMatchOperator c) (eValue ev) k = true).
  { unfold value_condition. unfold known_of in Hk. split.
    - intros [?|(k' & Hk' & ?)]; [by left|right]. destruct Hk, Hk'; naive_solver.
    - intros [?|?]; [by left|right]. eauto. }
  rewrite Hv, <- Hf. cbn [d_evaluated d_on d_operator d_known data_matcher_of].
  destruct (blank (cGroupName c)) eqn:Eg; cbn [negb orb].
  2: { apply blank_false in Eg. split; [done|tauto]. }
  apply blank_true in Eg. case_bool_decide as Eo; cbn [negb].
  2: { split; [done|]. intros (_ & ? & _). congruence. }
  destruct (filters_match _ ev); cbn [negb]; [|naive_solver].
  case_bool_decide as Er; naive_solver.
Qed.

(** An accepted data condition fires for an event exactly when the event
    names its condition, its device, interface with major and path are in
    the condition's scope — where the path filter is read as an interface
    endpoint — and the value satisfies the operator; a group-scoped condition
    never fires. The conditions accepted are exactly the well-formed ones,
    and the path pattern accepts exactly the interface endpoints. *)
Theorem data_condition_exact name c :
  cType c = "data_trigger"%go ->
  ((exists t, CompileCondition name c = Ok t) <-> data_condition_ok c /\ cKnownValue c <> Some None) /\
  (forall t ev, CompileCondition name c = Ok t -> MatchesData t ev = true <-> fires c ev) /\
  (forall path, Regex.MatchString matchPathRE path = true <-> exists segs, splitEndpoint path = Ok segs).
Proof.
  intros Ht. unfold CompileCondition, compileSimple. rewrite bool_decide_eq_true_2 by done. split_and!.
  - split; [|by intros [? ?]; apply compileData_accepts].
    intros [t Hc]. pose proof (compileData_spec _ _ _ Hc) as (Hok & k & Hk & _). split; [done|].
    intros E. unfold known_of in Hk. destruct Hk as [Hk|[Hk _]]; congruence.
  - intros t ev (Hok & k & Hk & Hd)%compileData_spec. unfold MatchesData. rewrite Hd. cbn.
    rewrite orb_false_r. by apply matches_fires.
  - apply matchPathRE_endpoint.
Qed.

(** *** A concrete condition *)
Definition sample_condition : simpleTriggerConfig :=
  MkConfig "data_trigger"%go OnValueChange [] [] (Some "org.astrate.Sensors"%go) (Some 1%Z)
    "/%{room}/temp"%go ">"%go (Some (Some (KNumber (Float64.of_int 30)))).
Definition sample_event (v : Z) : DataEvent :=
  MkDataEvent "dev"%go OnValueChange "org.astrate.Sensors"%go 1 "/kitchen/temp"%go
    (Some (VScalar (SInteger v))).
Definition sample_trigger : Trigger :=
  match CompileCondition "t"%go sample_condition with
  | Ok t => t
  | Err _ => MkTrigger [] None [] [] [] [] None
  end.

Lemma data_condition_exact_witness :
  cType sample_condition = "data_trigger"%go /\
  CompileCondition "t"%go sample_condition = Ok sample_trigger /\
  fires sample_condition (sample_event 31) /\ ~ fires sample_condition (sample_event 30).
Proof.
  assert (H : CompileCondition "t"%go sample_condition = Ok sample_trigger) by (vm_compute; reflexivity).
  pose proof (proj1 (proj2 (data_condition_exact "t"%go sample_condition eq_refl)) sample_trigger) as Hx.
  split_and!; [reflexivity|exact H| |].
  - apply (Hx _ H). vm_compute. reflexivity.
  - intros Hf. apply (Hx _ H) in Hf. vm_compute in Hf. discriminate Hf.
Defined.

(** ** Device conditions *)

(** What a device condition must satisfy. *)
Record device_condition_ok (c : simpleTriggerConfig) : Prop := {
  dev_on : is_Some (deviceOns (cOn c));
  dev_filter : device_filter_ok (cDeviceID c) (cGroupName c);
  dev_iface :
    let name := default [] (cInterfaceName c) in
    if introspectionOns (cOn c) then
      (name = anyToken /\ cOn c <> OnInterfaceMinorUpdated) \/
      (name = [] /\ cOn c <> OnInterfaceMinorUpdated /\ cInterfaceMajor c <> None) \/
      (name <> anyToken /\ Regex.MatchString ifaceNameRE name = true /\ cInterfaceMajor c <> None)
    else name = [];
}.

Lemma filter_errors_empty c name fe : filter_errors c name fe = ∅ <->
  fe = ∅ /\
  ((name = anyToken /\ cOn c <> OnInterfaceMinorUpdated) \/
   (name = [] /\ cOn c <> OnInterfaceMinorUpdated /\ cInterfaceMajor c <> None) \/
   (name <> anyToken /\ Regex.MatchString ifaceNameRE name = true /\ cInterfaceMajor c <> None)).
Proof.
  unfold filter_errors. cbv zeta.
  assert (Hm : is_some (cInterfaceMajor c) = true <-> cInterfaceMajor c <> None)
    by (by destruct (cInterfaceMajor c)).
  destruct (blank name) eqn:Eb.
  - apply blank_true in Eb as ->.
    rewrite !add_if_empty, negb_false_iff, bool_decide_eq_false, Hm. split; [tauto|].
    intros [-> [[? _] | [? | (_ & ? & _)]]]; [done|tauto|done].
  - apply blank_false in Eb. case_bool_decide as Ea.
    + subst. rewrite add_if_empty, bool_decide_eq_false. split; [tauto|].
      intros [-> [? | [[? _] | [? _]]]]; [tauto|done|done].
    + rewrite !add_if_empty, !negb_false_iff, Hm. tauto.
Qed.

Lemma device_errors_empty c : device_errors c = ∅ <-> device_condition_ok c.
Proof.
  assert (Hs : is_some (deviceOns (cOn c)) = true <-> is_Some (deviceOns (cOn c))).
  { destruct (deviceOns (cOn c)); split; [eauto|done|done|by intros [? ?]]. }
  assert (Hn : is_Some (deviceOns (cOn c)) -> cOn c <> []) by (intros [b Hb] E; by rewrite E in Hb).
  unfold device_errors. cbv zeta. rewrite add_if_empty, andb_false_iff, negb_false_iff, bool_decide_eq_false,
    blank_true. destruct (introspectionOns (cOn c)) eqn:Ei.
  - assert (Hni : cOn c <> OnIncomingIntrospection) by (intros E; by rewrite E in Ei).
    rewrite filter_errors_empty, add_if_empty, andb_false_r, deviceFilterErrs_empty, on_errors_empty, Hs.
    split; [intros H; split; [tauto..|cbv zeta; rewrite Ei; tauto]|].
    intros [H1 H2 H3]. cbv zeta in H3. rewrite Ei in H3. tauto.
  - rewrite add_if_empty, andb_true_r, negb_false_iff, blank_true, deviceFilterErrs_empty, on_errors_empty, Hs.
    split; [intros H; split; [tauto..|cbv zeta; rewrite Ei; tauto]|].
    intros [H1 H2 H3]. cbv zeta in H3. rewrite Ei in H3. tauto.
Qed.

(** When an accepted device condition fires. *)
Definition device_fires (c : simpleTriggerConfig) (ev : DeviceEvent) : Prop :=
  cGroupName c = [] /\ deviceOns (cOn c) = Some true /\ vOn ev = cOn c /\
  (cDeviceID c = [] \/ cDeviceID c = anyToken \/ cDeviceID c = vDeviceID ev) /\
  (introspectionOns (cOn c) = true ->
   cInterfaceName c = Some anyToken \/
   ((default [] (cInterfaceName c) = [] \/ cInterfaceName c = Some (vInterface ev)) /\
    cInterfaceMajor c = Some (vMajor ev))).

Lemma noteUnsupported_device t b what : device (noteUnsupported t b what) = device t.
Proof. unfold noteUnsupported. destruct b; simpl; [by case_bool_decide|done]. Qed.

Definition device_matcher_of (c : simpleTriggerConfig) : deviceMatcher :=
  let name := default [] (cInterfaceName c) in
  MkDeviceMatcher (cOn c) (cDeviceID c) name
    (if introspectionOns (cOn c) && negb (bool_decide (name = anyToken))
     then cInterfaceMajor c else None)
    (default false (deviceOns (cOn c)) && blank (cGroupName c)).

Lemma device_filter_match c ev : device_condition_ok c -> introspectionOns (cOn c) = true ->
  let m := device_matcher_of c in
  (if negb (blank (v_iface m)) && negb (bool_decide (v_iface m = anyToken))
      && negb (bool_decide (v_iface m = vInterface ev)) then false
   else match v_major m with Some major => (major =? vMajor ev)%Z | None => true end) = true <->
  cInterfaceName c = Some anyToken \/
  ((default [] (cInterfaceName c) = [] \/ cInterfaceName c = Some (vInterface ev)) /\
   cInterfaceMajor c = Some (vMajor ev)).
Proof.
  intros [_ _ Hi] Hin. cbv zeta in Hi. rewrite Hin in Hi. cbn. rewrite Hin. cbn [andb].
  assert (Hany : default [] (cInterfaceName c) = anyToken <-> cInterfaceName c = Some anyToken).
  { destruct (cInterfaceName c); simpl; [naive_solver|done]. }
  unfold blank. destruct Hi as [[Ha _] | [(Hb & _ & Hmj) | (Hna & Hre & Hmj)]].
  - rewrite (bool_decide_eq_true_2 _ Ha), andb_false_r. cbn. tauto.
  - rewrite (bool_decide_eq_true_2 _ Hb). cbn. rewrite Hb.
    rewrite bool_decide_eq_false_2 by done. cbn [negb].
    destruct (cInterfaceMajor c) as [mj|]; [|done]. rewrite Z.eqb_eq.
    split; [intros ->; right; auto|]. intros [H|[_ H]]; [by rewrite H in Hb|congruence].
  - rewrite (bool_decide_eq_false_2 _ Hna).
    assert (Hne : default [] (cInterfaceName c) <> []) by (intros E; by rewrite E in Hre).
    rewrite (bool_decide_eq_false_2 _ Hne). cbn.
    destruct (cInterfaceName c) as [i|]; [|done]. cbn in *. destruct (cInterfaceMajor c) as [mj|]; [|done].
    case_bool_decide as E; cbn.
    + rewrite Z.eqb_eq. subst. naive_solver.
    + split; [done|]. naive_solver.
Qed.

(** Device conditions are accepted exactly when well-formed, and an accepted
    one fires exactly for the events of its condition, device and, on the
    introspection conditions, its interface filter; conditions outside the
    evaluated set and group-scoped ones never fire. *)
Theorem device_condition_exact name c :
  cType c = "device_trigger"%go ->
  ((exists t, CompileCondition name c = Ok t) <-> device_condition_ok c) /\
  (forall t ev, CompileCondition name c = Ok t -> MatchesDevice t ev = true <-> device_fires c ev).
Proof.
  intros Ht. unfold CompileCondition, compileSimple.
  rewrite bool_decide_eq_false_2 by (by rewrite Ht). rewrite bool_decide_eq_true_2 by done.
  unfold compileDevice, no_field_errors. case_decide as He; cbn [bindR].
  2: { split; [|intros t ev H; discriminate H]. split; [by intros [? ?]|]. by intros ?%device_errors_empty. }
  apply device_errors_empty in He. split; [split; eauto|].
  intros t ev [= <-]. unfold MatchesDevice. cbn [append_device device].
  rewrite !noteUnsupported_device. cbn [device app existsb]. rewrite orb_false_r.
  change (MkDeviceMatcher _ _ _ _ _) with (device_matcher_of c).
  unfold device_matches, device_fires. pose proof (device_filter_match c ev He) as Hf. cbv zeta in Hf.
  cbn [v_on v_evaluated v_deviceID device_matcher_of].
  destruct (deviceOns (cOn c)) as [[]|]; cbn [default from_option andb negb orb id]; [|naive_solver..].
  destruct (blank (cGroupName c)) eqn:Eg; cbn [negb orb].
  2: { apply blank_false in Eg. split; [done|tauto]. }
  apply blank_true in Eg. destruct (bool_decide (cOn c = vOn ev)) eqn:Eo; cbn [negb]; bool_hyps.
  2: { split; [done|]. intros (_ & _ & ? & _). congruence. }
  unfold deviceIDMatches. destruct (_ || _ || _) eqn:Ed; cbn [negb].
  - rewrite !orb_true_iff, !bool_decide_eq_true in Ed.
    destruct (introspectionOns (cOn c)).
    + rewrite Hf by done. naive_solver.
    + naive_solver.
  - rewrite !orb_false_iff, !bool_decide_eq_false in Ed. naive_solver.
Qed.

(** ** The change gate *)

(** The gate looks at the same filters: whatever condition and value the
    later event carries, a trigger that reacts to it on a change-derived
    condition is watched. *)
Lemma TracksChanges_complete t ev ev' :
  eDeviceID ev' = eDeviceID ev -> eInterface ev' = eInterface ev -> eMajor ev' = eMajor ev ->
  ePath ev' = ePath ev -> prevOns (eOn ev) = true ->
  MatchesData t ev = true -> TracksChanges t ev' = true.
Proof.
  intros Hd Hi Hm Hp Hon (m & Hin & H)%existsb_exists. apply existsb_exists. exists m. split; [done|].
  unfold matches in H. destruct (d_evaluated m) eqn:Ee; [|done]. cbn [negb orb] in H.
  case_bool_decide as Eo; [|done]. cbn [negb] in H.
  assert (filters_match m ev' = filters_match m ev) as -> by (unfold filters_match; by rewrite Hd, Hi, Hm, Hp).
  destruct (filters_match m ev); [|done]. rewrite Eo, Hon. done.
Qed.

(** Skipping the previous-value lookup for a message is safe: if no trigger
    tracks changes for its device, interface and path, then no trigger fires
    on any change-derived condition of it, whatever the value. *)
Theorem change_gate_sound (ts : list Trigger) (ev : DataEvent) :
  Forall (fun t => TracksChanges t ev = false) ts ->
  forall t on v, t ∈ ts -> prevOns on = true ->
    MatchesData t (MkDataEvent (eDeviceID ev) on (eInterface ev) (eMajor ev) (ePath ev) v) = false.
Proof.
  intros Hg t on v Hin Hon. rewrite Forall_forall in Hg.
  destruct (MatchesData _ _) eqn:E; [|done].
  rewrite <- (Hg t Hin). symmetry. by eapply TracksChanges_complete in E.
Qed.

Lemma device_condition_exact_witness :
  exists t, CompileCondition "t"%go
    (MkConfig "device_trigger"%go OnInterfaceAdded [] [] None (Some 2%Z) [] [] None) = Ok t /\
    MatchesDevice t (MkDeviceEvent "dev"%go OnInterfaceAdded "org.astrate.Sensors"%go 2) = true.
Proof.
  destruct (CompileCondition "t"%go
    (MkConfig "device_trigger"%go OnInterfaceAdded [] [] None (Some 2%Z) [] [] None)) as [t|] eqn:E;
    [|vm_compute in E; discriminate E].
  exists t. split; [reflexivity|].
  apply (proj2 (device_condition_exact "t"%go
    (MkConfig "device_trigger"%go OnInterfaceAdded [] [] None (Some 2%Z) [] [] None) eq_refl) t _ E).
  repeat split; try reflexivity; [left; reflexivity|]. intros _. right. split; [left|]; reflexivity.
Defined.

Lemma change_gate_sound_witness :
  TracksChanges sample_trigger
    (MkDataEvent "dev"%go OnIncomingData "org.astrate.Sensors"%go 1 "/kitchen/humidity"%go None) = false /\
  MatchesData sample_trigger
    (MkDataEvent "dev"%go OnValueChange "org.astrate.Sensors"%go 1 "/kitchen/humidity"%go
       (Some (VScalar (SInteger 99)))) = false.
Proof.
  assert (H : TracksChanges sample_trigger
    (MkDataEvent "dev"%go OnIncomingData "org.astrate.Sensors"%go 1 "/kitchen/humidity"%go None) = false)
    by (vm_compute; reflexivity).
  split; [exact H|].
  apply (change_gate_sound [sample_trigger]
    (MkDataEvent "dev"%go OnIncomingData "org.astrate.Sensors"%go 1 "/kitchen/humidity"%go None)).
  - constructor; [exact H|constructor].
  - left.
  - reflexivity.
Defined.

(** ** Triggers on an endpoint *)

Lemma endpoint_accepts_scope c m ev :
  cMatchPath c = Parse.Endpoint m -> cInterfaceName c = Some (eInterface ev) ->
  cInterfaceMajor c = Some (eMajor ev) -> cDeviceID c = [] ->
  Compile.endpoint_accepts m (ePath ev) -> in_scope c ev.
Proof.
  intros Hp Hi Hm Hd (segs & rest & Hs & He & Ha). split_and!; [by left|by right|right].
  exists segs, rest. rewrite Hp. split_and!; [done..|].
  unfold matches_path. unfold Trie.accepts, Trie.shape in Ha. rewrite Forall2_fmap_l in Ha.
  eapply Forall2_impl; [exact Ha|]. intros seg q [Hne Hq]. unfold matches_level.
  destruct (param seg); done.
Qed.

(** Whatever path a compiled interface resolves, it resolves to a declared
    mapping, and every data condition written on that mapping's endpoint has
    the event in its scope. *)
Theorem endpoint_trigger_covers iface ids ci ev cm :
  Parse.wf_interface iface -> Compile.Compile (Some iface) ids = Ok ci ->
  Trie.Match (Some (Compile.cTrie ci)) (ePath ev) = Some cm ->
  eInterface ev = Parse.Name iface -> eMajor ev = Parse.Major iface ->
  exists m id, m ∈ Parse.Mappings iface /\ cm = Compile.compile_mapping id m /\
    forall c, cMatchPath c = Parse.Endpoint m -> cInterfaceName c = Some (Parse.Name iface) ->
      cInterfaceMajor c = Some (Parse.Major iface) -> cDeviceID c = [] -> in_scope c ev.
Proof.
  intros Hw Hc Hm Hi Hj. pose proof (proj1 (Compile.compile_match_contract _ _ _ Hw Hc)) as Hmc.
  apply Hmc in Hm as (m & id & Hin & Ha & _ & ->). exists m, id. split_and!; [done..|].
  intros c H1 H2 H3 H4. eapply endpoint_accepts_scope; [done|congruence..|done].
Qed.

Definition room_interface : Parse.Interface :=
  Compile.sample_interface Schema.AggregationIndividual ["/%{room}/temp"%go].

Lemma endpoint_trigger_covers_witness :
  exists ci cm,
    Compile.Compile (Some room_interface) None = Ok ci /\
    Trie.Match (Some (Compile.cTrie ci)) (ePath (sample_event 12)) = Some cm /\
    in_scope sample_condition (sample_event 12).
Proof.
  destruct (Compile.Compile (Some room_interface) None) as [ci|] eqn:E; [|vm_compute in E; discriminate E].
  destruct (Trie.Match (Some (Compile.cTrie ci)) (ePath (sample_event 12))) as [cm|] eqn:Em.
  2: { vm_compute in E. injection E as <-. vm_compute in Em. discriminate Em. }
  exists ci, cm. split_and!; [reflexivity|exact Em|].
  destruct (endpoint_trigger_covers room_interface None ci (sample_event 12) cm
    (Compile.sample_wf Schema.AggregationIndividual ["/%{room}/temp"%go] ltac:(vm_compute; reflexivity))
    E Em eq_refl eq_refl) as (m & id & Hin & _ & H).
  apply H; try reflexivity. apply elem_of_cons in Hin as [-> |Hin]; [reflexivity|].
  apply elem_of_nil in Hin. destruct Hin.
Defined.

(** ** Value operators *)
Definition number (i : Z) : known := KNumber (Float64.of_int i).
Definition integer_value (v : Value) (i : Z) : Prop := v = VScalar (SInteger i) \/ v = VScalar (SLong i).

(** On integers and longintegers up to 2^53 in magnitude the operators decide
    the integer comparison; beyond that bound the widening to a double makes
    "==" accept a different number. Values outside an operator's domain never
    match, and an unset value matches only "*". *)
Theorem value_operators_exact v i j :
  integer_value v i -> (Z.abs i <= 2 ^ 53)%Z -> (Z.abs j <= 2 ^ 53)%Z ->
  (valueMatches "=="%go (Some v) (number j) = (i =? j)%Z /\
   valueMatches "!="%go (Some v) (number j) = negb (i =? j)%Z /\
   valueMatches "<"%go (Some v) (number j) = (i <? j)%Z /\
   valueMatches "<="%go (Some v) (number j) = (i <=? j)%Z /\
   valueMatches ">"%go (Some v) (number j) = (j <? i)%Z /\
   valueMatches ">="%go (Some v) (number j) = (j <=? i)%Z) /\
  (forall op k, valueMatches op None k = true <-> op = anyToken) /\
  (forall op k b, op <> anyToken -> valueMatches op (Some (VScalar (SBlob b))) k = false) /\
  valueMatches "=="%go (Some (VScalar (SLong (2 ^ 53 + 1)))) (number (2 ^ 53)) = true.
Proof.
  intros Hv Hi Hj. destruct (Float64.of_int_compare i j Hi Hj) as (E1 & E2 & E3).
  destruct (Float64.of_int_compare j i Hj Hi) as (_ & E4 & E5). split_and!.
  - by destruct Hv as [-> | ->].
  - transitivity (negb (Float64.eqb (Float64.of_int i) (Float64.of_int j))); [|by rewrite E1].
    by destruct Hv as [-> | ->].
  - by destruct Hv as [-> | ->].
  - by destruct Hv as [-> | ->].
  - by destruct Hv as [-> | ->].
  - by destruct Hv as [-> | ->].
  - intros op k. unfold valueMatches. case_bool_decide; naive_solver.
  - intros op k b Hop. unfold valueMatches. rewrite bool_decide_eq_false_2 by done.
    repeat case_bool_decide; done.
  - vm_compute. reflexivity.
Qed.

Lemma value_operators_exact_witness :
  integer_value (VScalar (SInteger 7)) 7 /\
  valueMatches "<"%go (Some (VScalar (SInteger 7))) (number 9) = true.
Proof.
  assert (H : integer_value (VScalar (SInteger 7)) 7) by (left; reflexivity).
  split; [exact H|].
  exact (proj1 (proj2 (proj2 (proj1 (value_operators_exact (VScalar (SInteger 7)) 7 9 H
           ltac:(vm_compute; discriminate) ltac:(vm_compute; discriminate)))))).
Defined.

(** ** Error names *)

Lemma assoc_default (names : list gostring) d l k :
  Forall (fun p => p.2 ∈ names) l -> d ∈ names -> default d (assoc l k) ∈ names.
Proof.
  intros H Hd. induction H as [|[k' v] l Hv _ IH]; simpl; [done|]. by case_bool_decide.
Qed.

Lemma upstream_closed reason : UpstreamErrorName reason ∈ upstreamErrorNames.
Proof.
  unfold UpstreamErrorName.
  case_bool_decide as H; [done|]. apply assoc_default; [|apply (bool_decide_unpack _); vm_compute; exact I].
  apply (bool_decide_unpack _). vm_compute. exact I.
Qed.

(** Whatever the reason, the reported error name is one of the closed set a
    client validates against; names of the set are kept; and every reason a
    payload is rejected for is translated by the table, not by the fallback. *)
Theorem upstream_error_name_closed reason :
  UpstreamErrorName reason ∈ upstreamErrorNames /\
  (reason ∈ upstreamErrorNames -> UpstreamErrorName reason = reason) /\
  (forall r, is_Some (assoc astrateToUpstream (RejectReason_String r))).
Proof.
  split; [apply upstream_closed|]. unfold UpstreamErrorName. split.
  - intros H. by rewrite bool_decide_eq_true_2.
  - intros []; vm_compute; eauto.
Qed.

End Triggers.
