(* ===== verification/Executor.v ===== *)
(** * The trigger executor

    src/internal/engine/triggers/actions.go: the bounded delivery queue and
    its workers, the per-policy in-flight accounting, the webhook retry loop
    and the delivery outcomes. The executor is a state machine whose steps are
    the code's critical sections; what the outside world answers (HTTP
    responses, elapsed time, the forwarder, the template engine) is the
    environment of a delivery. *)

From S2P Require Import Prelude GoStrings Policy Triggers.
Import Triggers.

Module Executor.
Local Open Scope Z_scope.

(** ** Configuration *)
Definition DefaultWorkers : Z := 4.
Definition DefaultQueueSize : Z := 256.
Definition DefaultMaxAttempts : Z := 5.
Definition DefaultBackoffStart : Z := 250000000.
Definition DefaultBackoffCap : Z := 5000000000.
Definition DefaultRequestTimeout : Z := 10000000000.

Record ExecutorConfig := MkExecutorConfig {
  Workers : Z;
  QueueSize : Z;
  MaxAttempts : Z;
  BackoffStart : Z;
  BackoffCap : Z;
  RequestTimeout : Z;
  HasForwarder : bool;
}.

Definition or_default (n d : Z) : Z := if n <=? 0 then d else n.

(** The configuration [NewExecutor] runs with. *)
Definition NewExecutor (cfg : ExecutorConfig) : ExecutorConfig :=
  MkExecutorConfig (or_default (Workers cfg) DefaultWorkers)
    (or_default (QueueSize cfg) DefaultQueueSize)
    (or_default (MaxAttempts cfg) DefaultMaxAttempts)
    (or_default (BackoffStart cfg) DefaultBackoffStart)
    (or_default (BackoffCap cfg) DefaultBackoffCap)
    (or_default (RequestTimeout cfg) DefaultRequestTimeout)
    (HasForwarder cfg).

(** ** Deliveries *)
Record Delivery := MkDelivery {
  dRealm : gostring;
  dTrigger : Trigger;
  dEvent : gostring;
  enqueuedAt : Z;
}.

Definition policy_of (d : Delivery) : option Policy.Policy := Policy_ (Some (dTrigger d)).

Inductive outcome :=
| outcomeDelivered
| outcomeFailed
| outcomeDropped
| outcomeExpired
| outcomeForwarded
| outcomeSkipped.

#[global] Instance outcome_eq_dec : EqDecision outcome.
Proof. solve_decision. Defined.

(** One webhook request: a response status, or no response. *)
Inductive attempt_result :=
| Response (status : Z)
| TransportError.

(** What the outside world answers while one delivery runs. *)
Record environment := MkEnv {
  age : Z;                            (** time since it was enqueued *)
  marshalled : option gostring;       (** [json.Marshal] of the event *)
  rendered : option gostring;         (** the mustache template, rendered *)
  forward_ok : bool;                  (** the forwarder's answer *)
  attempts : nat -> attempt_result;   (** the answer to attempt 1, 2, ... *)
  closing_wins : nat -> bool;         (** shutdown wins the wait after it *)
}.

(** What running a delivery did. *)
Record delivery_log := MkLog {
  result_of : outcome;
  requests : nat;
  retries_of : nat;
  waits : list Z;
}.

(** ** The webhook loop *)
Definition bump (l : delivery_log) (retried : bool) (wait : option Z) : delivery_log :=
  MkLog (result_of l) (S (requests l)) (if retried then S (retries_of l) else retries_of l)
    (match wait with Some w => w :: waits l | None => waits l end).

Definition finished (o : outcome) : option delivery_log := Some (MkLog o 1 0 []).

(** [backoff = min(backoff*2, cap)], on an int64 duration. *)
Definition next_backoff (cfg : ExecutorConfig) (backoff : Z) : Z :=
  Z.min (wrap 64 (backoff * 2)) (BackoffCap cfg).

Fixpoint webhook_loop (fuel : nat) (cfg : ExecutorConfig) (policy : option Policy.Policy)
    (env : environment) (attempt : nat) (backoff maxAttempts : Z) : option delivery_log :=
  match fuel with
  | O => None
  | S fuel =>
      let retry :=
        if maxAttempts <=? Z.of_nat attempt then finished outcomeFailed
        else if closing_wins env attempt then
          (fun l => bump l true None) <$> Some (MkLog outcomeFailed 0 0 [])
        else
          (fun l => bump l true (Some backoff)) <$>
          webhook_loop fuel cfg policy env (attempt + 1) (next_backoff cfg backoff) maxAttempts in
      match attempts env attempt with
      | Response status =>
          if status <? 400 then finished outcomeDelivered
          else match policy with
          | Some _ =>
              match Policy.dec_strategy (Policy.Decide policy status) with
              | Policy.StrategyDiscard => finished outcomeFailed
              | Policy.StrategyRetry => retry
              end
          | None => if status <? 500 then finished outcomeFailed else retry
          end
      | TransportError =>
          match policy with
          | Some _ =>
              match Policy.dec_strategy (Policy.Decide policy Policy.StatusTransport) with
              | Policy.StrategyDiscard => finished outcomeFailed
              | Policy.StrategyRetry => retry
              end
          | None => retry
          end
      end
  end.

Definition max_attempts (cfg : ExecutorConfig) (policy : option Policy.Policy) : Z :=
  match policy with
  | Some p => Policy.RetryTimes p + 1
  | None => MaxAttempts cfg
  end.

(** The attempt cap bounds the loop. *)
Definition webhook (cfg : ExecutorConfig) (d : Delivery) (env : environment) : option delivery_log :=
  let policy := policy_of d in
  webhook_loop (Z.to_nat (Z.max 1 (max_attempts cfg policy))) cfg policy env 1
    (BackoffStart cfg) (max_attempts cfg policy).

(** ** One delivery, end to end *)
Definition untried (o : outcome) : option delivery_log := Some (MkLog o 0 0 []).

Definition forward (cfg : ExecutorConfig) (env : environment) : option delivery_log :=
  if negb (HasForwarder cfg) then untried outcomeSkipped
  else if forward_ok env then untried outcomeForwarded
  else untried outcomeFailed.

Definition expired (d : Delivery) (env : environment) : bool :=
  match policy_of d with
  | Some p => (0 <? Policy.EventTTL p) && (Policy.EventTTL p <? age env)
  | None => false
  end.

Definition deliver (cfg : ExecutorConfig) (d : Delivery) (env : environment) : option delivery_log :=
  if expired d env then untried outcomeExpired
  else match marshalled env with
  | None => untried outcomeFailed
  | Some _ =>
      match tAction (dTrigger d) with
      | Some a => match Custom a with
                  | Some _ => forward cfg env
                  | None => webhook cfg d env
                  end
      | None => None
      end
  end.

(** The body sent: the template's rendering when there is one that renders. *)
Definition body (d : Delivery) (env : environment) : option gostring :=
  match marshalled env with
  | None => None
  | Some b =>
      match tAction (dTrigger d) with
      | Some a => if bool_decide (TemplateType a = "mustache"%go)
                  then Some (default b (rendered env)) else Some b
      | None => Some b
      end
  end.

(** ** The executor's state *)
Record state := MkState {
  closing : bool;                 (** [x.closing] is closed *)
  chan_closed : bool;             (** [x.ch] is closed *)
  checked : list Delivery;        (** in Enqueue, past the closing check *)
  sending : list Delivery;        (** in Enqueue, capacity reserved *)
  queue : list Delivery;          (** in the channel *)
  working : list Delivery;        (** held by a worker *)
  policyInflight : gmap gostring Z;
  outcomes : list outcome;        (** the outcome counter, one entry per increment *)
  calls : nat;                    (** Enqueue calls so far *)
  panicked : bool;                (** a send on the closed channel *)
}.

Definition init : state := MkState false false [] [] [] [] ∅ [] 0 false.

Inductive label :=
| LRefuse (d : Delivery)
| LCheck (d : Delivery)
| LReserve (i : nat)
| LSend (i : nat)
| LClosing
| LCloseChan
| LTake
| LDone (i : nat) (env : environment).

Definition inflight_of (s : state) (name : gostring) : Z := default 0 (policyInflight s !! name).

Definition adjust (m : gmap gostring Z) (d : Delivery) (delta : Z) : gmap gostring Z :=
  match policy_of d with
  | Some p => <[Policy.Name p := default 0 (m !! Policy.Name p) + delta]> m
  | None => m
  end.

Definition capacity_full (s : state) (d : Delivery) : bool :=
  match policy_of d with
  | Some p => Policy.MaximumCapacity p <=? inflight_of s (Policy.Name p)
  | None => false
  end.

(** The critical sections of Enqueue, Close, worker and deliver. *)
Definition step (cfg : ExecutorConfig) (s : state) (l : label) : option state :=
  let '(MkState cl cc ch se q w inf os n pa) := s in
  match l with
  | LRefuse d =>
      if cl then Some (MkState cl cc ch se q w inf (outcomeDropped :: os) (S n) pa) else None
  | LCheck d =>
      if cl then None else Some (MkState cl cc (ch ++ [d]) se q w inf os (S n) pa)
  | LReserve i =>
      match ch !! i with
      | None => None
      | Some d =>
          if capacity_full s d
          then Some (MkState cl cc (delete i ch) se q w inf (outcomeDropped :: os) n pa)
          else Some (MkState cl cc (delete i ch) (se ++ [d]) q w (adjust inf d 1) os n pa)
      end
  | LSend i =>
      match se !! i with
      | None => None
      | Some d =>
          if cc then Some (MkState cl cc ch (delete i se) q w inf os n true)
          else if Z.of_nat (length q) <? QueueSize cfg
          then Some (MkState cl cc ch (delete i se) (q ++ [d]) w inf os n pa)
          else Some (MkState cl cc ch (delete i se) q w (adjust inf d (-1)) (outcomeDropped :: os) n pa)
      end
  | LClosing => Some (MkState true cc ch se q w inf os n pa)
  | LCloseChan =>
      if cl && negb cc && (length ch =? 0)%nat && (length se =? 0)%nat
      then Some (MkState cl true ch se q w inf os n pa) else None
  | LTake =>
      match q with
      | d :: q => if Z.of_nat (length w) <? Workers cfg
                  then Some (MkState cl cc ch se q (w ++ [d]) inf os n pa) else None
      | [] => None
      end
  | LDone i env =>
      match w !! i with
      | None => None
      | Some d =>
          log ← deliver cfg d env;
          Some (MkState cl cc ch se q (delete i w) (adjust inf d (-1)) (result_of log :: os) n pa)
      end
  end.

(** Runs whose submitted deliveries satisfy [ok]. *)
Definition label_ok (ok : Delivery -> Prop) (l : label) : Prop :=
  match l with
  | LRefuse d | LCheck d => ok d
  | _ => True
  end.

Inductive steps (cfg : ExecutorConfig) (ok : Delivery -> Prop) : state -> state -> Prop :=
| steps_refl s : steps cfg ok s s
| steps_step s l s' s'' :
    label_ok ok l -> step cfg s l = Some s' -> steps cfg ok s' s'' -> steps cfg ok s s''.

Definition reachable (cfg : ExecutorConfig) (ok : Delivery -> Prop) (s : state) : Prop :=
  steps cfg ok init s.

(** ** The retry loop *)

(** After this answer the loop tries again, attempts and shutdown allowing. *)
Definition retryable (policy : option Policy.Policy) (r : attempt_result) : bool :=
  match r with
  | Response status =>
      if status <? 400 then false
      else match policy with
           | Some _ => bool_decide (Policy.dec_strategy (Policy.Decide policy status) = Policy.StrategyRetry)
           | None => 500 <=? status
           end
  | TransportError =>
      match policy with
      | Some _ => bool_decide (Policy.dec_strategy (Policy.Decide policy Policy.StatusTransport)
                               = Policy.StrategyRetry)
      | None => true
      end
  end.

Definition succeeded (r : attempt_result) : bool :=
  match r with Response status => status <? 400 | TransportError => false end.

Lemma succeeded_not_retryable policy r : succeeded r = true -> retryable policy r = false.
Proof. destruct r; simpl; [|done]. by intros ->. Qed.

(** The waits of [k] retries. *)
Fixpoint backoff_seq (cfg : ExecutorConfig) (backoff : Z) (k : nat) : list Z :=
  match k with
  | O => []
  | S k => backoff :: backoff_seq cfg (next_backoff cfg backoff) k
  end.

(** One turn of the loop, by what its answer asks for. *)
Lemma webhook_loop_turn fuel cfg policy env n backoff maxA :
  webhook_loop (S fuel) cfg policy env n backoff maxA =
  if succeeded (attempts env n) then finished outcomeDelivered
  else if negb (retryable policy (attempts env n)) then finished outcomeFailed
  else if maxA <=? Z.of_nat n then finished outcomeFailed
  else if closing_wins env n then Some (MkLog outcomeFailed 1 1 [])
  else (fun l => bump l true (Some backoff)) <$>
       webhook_loop fuel cfg policy env (n + 1) (next_backoff cfg backoff) maxA.
Proof.
  cbn [webhook_loop]. destruct (attempts env n) as [status|]; cbn [succeeded retryable].
  - destruct (status <? 400); [done|]. destruct policy as [p|].
    + destruct (Policy.dec_strategy _); done.
    + destruct (Z.ltb_spec status 500), (Z.leb_spec 500 status); try lia; done.
  - destruct policy as [p|]; [|done]. destruct (Policy.dec_strategy _); done.
Qed.

(** What a run of the loop did: [k] retried attempts, then the last one. *)
Record webhook_run (cfg : ExecutorConfig) (policy : option Policy.Policy) (env : environment)
    (first : nat) (backoff maxA : Z) (log : delivery_log) (k : nat) : Prop := {
  run_requests : requests log = S k;
  run_bounded : Z.of_nat (first + k) <= maxA;
  run_retried : forall i, (i < k)%nat ->
    retryable policy (attempts env (first + i)) = true /\ closing_wins env (first + i) = false;
  run_waits : waits log = backoff_seq cfg backoff k;
  run_result :
    let last := attempts env (first + k) in
    (result_of log = outcomeDelivered /\ succeeded last = true /\ retries_of log = k) \/
    (result_of log = outcomeFailed /\ succeeded last = false /\
     ((retryable policy last = false /\ retries_of log = k) \/
      (Z.of_nat (first + k) = maxA /\ retries_of log = k) \/
      (closing_wins env (first + k) = true /\ retries_of log = S k)));
}.

Ltac stop_run := eexists _, 0%nat; split; [reflexivity|]; split; cbv zeta; rewrite ?Nat.add_0_r;
  [reflexivity|lia|intros i Hi; lia|reflexivity|].

Lemma webhook_loop_run fuel cfg policy env first backoff maxA :
  Z.of_nat first <= maxA -> maxA < Z.of_nat (first + fuel) ->
  exists log k, webhook_loop fuel cfg policy env first backoff maxA = Some log /\
    webhook_run cfg policy env first backoff maxA log k.
Proof.
  revert first backoff. induction fuel as [|fuel IH]; intros first backoff Hf Hfuel; [lia|].
  rewrite webhook_loop_turn.
  destruct (succeeded (attempts env first)) eqn:Es.
  { stop_run. by left. }
  destruct (retryable policy (attempts env first)) eqn:Er; cbn [negb].
  2: { stop_run. right. split_and!; [done..|]. by left. }
  destruct (Z.leb_spec maxA (Z.of_nat first)).
  { stop_run. right. split_and!; [done..|]. right. left. split; [lia|done]. }
  destruct (closing_wins env first) eqn:Ec.
  { stop_run. right. split_and!; [done..|]. by right; right. }
  destruct (IH (first + 1)%nat (next_backoff cfg backoff)) as (log & k & -> & [R1 R2 R3 R4 R5]); [lia|lia|].
  cbv zeta in R5. replace (first + 1 + k)%nat with (first + S k)%nat in R2, R5 by lia.
  eexists _, (S k). split; [reflexivity|]. split; cbn [requests waits bump retries_of result_of].
  - by rewrite R1.
  - done.
  - intros [|i] Hi; [by rewrite Nat.add_0_r|]. replace (first + S i)%nat with (first + 1 + i)%nat by lia.
    apply R3. lia.
  - by rewrite R4.
  - cbv zeta. destruct R5 as [(-> & ? & ->) | (-> & ? & H')]; [by left|right].
    split_and!; [done..|]. destruct H' as [[? ->] | [[? ->] | [? ->]]]; tauto.
Qed.

(** ** Backoff *)
Lemma next_backoff_exact cfg b :
  0 < b <= 2 ^ 62 - 1 -> 0 < BackoffCap cfg <= 2 ^ 62 - 1 ->
  next_backoff cfg b = Z.min (b * 2) (BackoffCap cfg) /\ 0 < next_backoff cfg b <= 2 ^ 62 - 1.
Proof. intros Hb Hc. unfold next_backoff. rewrite wrap_small by lia. lia. Qed.

Lemma backoff_seq_lookup cfg b k i :
  0 < b <= 2 ^ 62 - 1 -> 0 < BackoffCap cfg <= 2 ^ 62 - 1 -> (i < k)%nat ->
  backoff_seq cfg b k !! i =
    Some (if (i =? 0)%nat then b else Z.min (b * 2 ^ Z.of_nat i) (BackoffCap cfg)).
Proof.
  revert b i. induction k as [|k IH]; intros b i Hb Hc Hi; [lia|].
  destruct i as [|i]; [done|]. cbn [backoff_seq lookup list_lookup].
  destruct (next_backoff_exact cfg b Hb Hc) as [E Hn].
  change (backoff_seq cfg (next_backoff cfg b) k !! i = Some (if (S i =? 0)%nat then b
    else Z.min (b * 2 ^ Z.of_nat (S i)) (BackoffCap cfg))).
  rewrite IH by (done || lia). f_equal. cbn [Nat.eqb]. rewrite E, Nat2Z.inj_succ, Z.pow_succ_r by lia.
  assert (0 < 2 ^ Z.of_nat i) by (apply Z.pow_pos_nonneg; lia).
  destruct i as [|i]; cbn [Nat.eqb]; [rewrite Z.pow_0_r; lia|]. nia.
Qed.

(** ** Accounting *)
Definition policy_name (d : Delivery) : option gostring := Policy.Name <$> policy_of d.

(** Deliveries that hold a reservation, and how many of a policy. *)
Definition holders (s : state) : list Delivery := sending s ++ queue s ++ working s.
Definition count (name : gostring) (l : list Delivery) : Z :=
  Z.of_nat (length (filter (fun d => policy_name d = Some name) l)).

#[global] Instance count_proper name : Proper ((≡ₚ) ==> (=)) (count name).
Proof. intros l l' H. unfold count. by rewrite H. Qed.

Definition charge (d : Delivery) (name : gostring) : Z :=
  if decide (policy_name d = Some name) then 1 else 0.

Lemma count_cons name d l : count name (d :: l) = charge d name + count name l.
Proof.
  unfold count, charge. rewrite filter_cons. destruct (decide _); cbn [length]; lia.
Qed.

Lemma adjust_lookup m d delta name :
  default 0 (adjust m d delta !! name) = default 0 (m !! name) + charge d name * delta.
Proof.
  unfold adjust, charge, policy_name. destruct (policy_of d) as [p|]; cbn [fmap option_fmap option_map].
  - destruct (decide (Some (Policy.Name p) = Some name)) as [[= <-]|Hn].
    + rewrite lookup_insert_eq. cbn. lia.
    + rewrite lookup_insert_ne by congruence. lia.
  - rewrite decide_False by done. lia.
Qed.

Record invariant (cfg : ExecutorConfig) (ok : Delivery -> Prop) (C : gostring -> Z) (s : state) : Prop := {
  inv_ok : Forall ok (checked s ++ holders s);
  inv_inflight : forall name, inflight_of s name = count name (holders s);
  inv_capacity : forall name, count name (holders s) <= C name;
  inv_calls : calls s = (length (outcomes s) + length (checked s) + length (holders s))%nat;
  inv_closed : chan_closed s = true -> closing s = true /\ checked s = [] /\ sending s = [];
  inv_panicked : panicked s = false;
  inv_queue : Z.of_nat (length (queue s)) <= QueueSize cfg;
  inv_working : Z.of_nat (length (working s)) <= Workers cfg;
}.

(** The capacity of every policy name in use. *)
Definition capped (ok : Delivery -> Prop) (C : gostring -> Z) : Prop :=
  (forall name, 0 <= C name) /\
  (forall d p, ok d -> policy_of d = Some p -> Policy.MaximumCapacity p <= C (Policy.Name p)).

Section Invariant.
Context (cfg : ExecutorConfig) (ok : Delivery -> Prop) (C : gostring -> Z).
Hypothesis (Hcap : capped ok C) (Hq : 0 <= QueueSize cfg) (Hw : 0 <= Workers cfg).

Lemma invariant_init : invariant cfg ok C init.
Proof. destruct Hcap. split; cbn; auto; done. Qed.

(** Taking a delivery out of a list keeps it in the multiset. *)
Lemma delete_perm (l : list Delivery) i d : l !! i = Some d -> d :: delete i l ≡ₚ l.
Proof. intros H. symmetry. by apply delete_Permutation. Qed.

(** Reserving keeps every count within the capacity. *)
Lemma reserve_capacity s d name :
  ok d -> (forall n, inflight_of s n = count n (holders s)) ->
  (forall n, count n (holders s) <= C n) -> capacity_full s d = false ->
  charge d name + count name (holders s) <= C name.
Proof.
  intros Hd Hinf Hcnt Hfull. unfold charge. case_decide as Hn; [|apply Hcnt].
  unfold policy_name in Hn. unfold capacity_full in Hfull.
  destruct (policy_of d) as [p|] eqn:Ep; [|done]. cbn in Hn. injection Hn as <-.
  apply Z.leb_gt in Hfull. rewrite Hinf in Hfull. pose proof (proj2 Hcap d p Hd Ep). lia.
Qed.

(** Moving deliveries around without changing who holds a reservation. *)
Lemma same_holders s s' : holders s' ≡ₚ holders s -> policyInflight s' = policyInflight s ->
  (forall n, inflight_of s n = count n (holders s)) -> (forall n, count n (holders s) <= C n) ->
  (forall n, inflight_of s' n = count n (holders s')) /\ (forall n, count n (holders s') <= C n).
Proof.
  intros Hp Hi H1 H2. split; intros n; rewrite Hp; [|apply H2]. unfold inflight_of. rewrite Hi. apply H1.
Qed.

(** Releasing the reservation of [d]. *)
Lemma release_holders s s' d : d :: holders s' ≡ₚ holders s ->
  policyInflight s' = adjust (policyInflight s) d (-1) ->
  (forall n, inflight_of s n = count n (holders s)) -> (forall n, count n (holders s) <= C n) ->
  (forall n, inflight_of s' n = count n (holders s')) /\ (forall n, count n (holders s') <= C n).
Proof.
  intros Hp Hi H1 H2.
  assert (Hc : forall n, charge d n + count n (holders s') = count n (holders s)).
  { intros n. by rewrite <- count_cons, Hp. }
  split; intros n.
  - unfold inflight_of. rewrite Hi, adjust_lookup. specialize (H1 n). unfold inflight_of in H1.
    specialize (Hc n). lia.
  - specialize (H2 n). specialize (Hc n). assert (0 <= charge d n) by (unfold charge; case_decide; lia). lia.
Qed.

Lemma Forall_delete_ok (l : list Delivery) i : Forall ok l -> Forall ok (delete i l).
Proof.
  intros H. rewrite delete_take_drop. apply Forall_app. split; [by apply Forall_take|by apply Forall_drop].
Qed.

Lemma length_delete_eq (l : list Delivery) i d : l !! i = Some d -> length l = S (length (delete i l)).
Proof. intros H. by rewrite <- (Permutation_length (delete_perm l i d H)). Qed.

Ltac ok_parts :=
  unfold holders in *; cbn in *;
  repeat match goal with
  | H : Forall ok (_ ++ _) |- _ => apply Forall_app in H as [? ?]
  | H : Forall ok (_ :: _) |- _ => apply Forall_cons in H as [? ?]
  | |- Forall ok (_ ++ _) => apply Forall_app; split
  end; auto using Forall_delete_ok.

Ltac lengths := unfold holders in *; cbn in *;
  do 2 (rewrite ?length_app in *; cbn in *);
  repeat match goal with H : ?l !! ?i = Some ?d |- _ => apply length_delete_eq in H end; lia.

(** Apply one of the two lemmas above between the state [s0] and the goal's. *)
Ltac with_counts lem s0 I2 I3 :=
  match goal with
  | |- invariant _ _ _ ?s1 =>
      destruct (lem s0 s1) as [J2 J3]; [|reflexivity|exact I2|exact I3|split; [|exact J2|exact J3|..]]
  end.

(** Reserving or refusing a checked delivery. *)
Lemma reserve_step s i s' :
  step cfg s (LReserve i) = Some s' -> invariant cfg ok C s -> invariant cfg ok C s'.
Proof.
  destruct s as [cl cc ch se q w inf os n pa]. intros Hs [I1 I2 I3 I4 I5 I6 I7 I8]. cbn [step] in Hs.
  destruct (ch !! i) as [d|] eqn:Ed; [|done].
  assert (Hnc : cc = false).
  { destruct cc; [|done]. destruct (I5 eq_refl) as (_ & E & _). cbn in E. by subst. }
  assert (Hd : ok d). { apply Forall_app in I1 as [I1 _]. by eapply Forall_lookup in I1. }
  destruct (capacity_full _ d) eqn:Ef; simplify_eq.
  - split; [ok_parts|exact I2|exact I3|lengths|done|done..].
  - assert (Hp : forall nm, count nm (holders (MkState cl false (delete i ch) (se ++ [d]) q w (adjust inf d 1) os n pa))
      = charge d nm + count nm (se ++ q ++ w)).
    { intros nm. rewrite <- count_cons. unfold holders. cbn.
      rewrite <- (app_assoc se [d]). cbn [app]. by rewrite <- Permutation_middle. }
    split; [ok_parts| | |lengths|done|done..].
    + intros nm. rewrite Hp. unfold inflight_of. cbn [policyInflight]. rewrite adjust_lookup.
      specialize (I2 nm). unfold inflight_of, holders in I2. cbn in I2. lia.
    + intros nm. rewrite Hp.
      exact (reserve_capacity (MkState cl false ch se q w inf os n pa) d nm Hd I2 I3 Ef).
Qed.

(** The non-blocking send. *)
Lemma send_step s i s' :
  step cfg s (LSend i) = Some s' -> invariant cfg ok C s -> invariant cfg ok C s'.
Proof.
  destruct s as [cl cc ch se q w inf os n pa]. intros Hs [I1 I2 I3 I4 I5 I6 I7 I8]. cbn [step] in Hs.
  destruct (se !! i) as [d|] eqn:Ed; [|done].
  assert (Hnc : cc = false).
  { destruct cc; [|done]. destruct (I5 eq_refl) as (_ & _ & E). cbn in E. by subst. }
  subst cc. pose proof (delete_perm se i d Ed) as Hp.
  assert (Hd : ok d).
  { apply Forall_app in I1 as [_ I1]. unfold holders in I1. cbn in I1. apply Forall_app in I1 as [I1 _].
    by eapply Forall_lookup in I1. }
  destruct (Z.ltb_spec (Z.of_nat (length q)) (QueueSize cfg)); simplify_eq.
  - with_counts same_holders (MkState cl false ch se q w inf os n pa) I2 I3;
      [|ok_parts|lengths|done|done|lengths|done].
    + unfold holders. cbn. revert Hp. generalize (delete i se) as r. intros r <-.
      rewrite <- (app_assoc q [d]). cbn [app]. rewrite (app_assoc r), <- Permutation_middle.
      by rewrite <- app_assoc.
  - with_counts (fun s0 s1 => release_holders s0 s1 d) (MkState cl false ch se q w inf os n pa) I2 I3;
      [|ok_parts|lengths|done|done|done|done].
    unfold holders. cbn. revert Hp. generalize (delete i se) as r. by intros r <-.
Qed.

(** A worker takes the head of the queue, or finishes a delivery. *)
Lemma worker_step s l s' : (l = LTake \/ exists i env, l = LDone i env) ->
  step cfg s l = Some s' -> invariant cfg ok C s -> invariant cfg ok C s'.
Proof.
  destruct s as [cl cc ch se q w inf os n pa]. intros Hl Hs [I1 I2 I3 I4 I5 I6 I7 I8].
  destruct Hl as [-> | (i & env & ->)]; cbn [step] in Hs.
  - destruct q as [|d q]; [done|]. destruct (Z.ltb_spec (Z.of_nat (length w)) (Workers cfg)); simplify_eq.
    with_counts same_holders (MkState cl cc ch se (d :: q) w inf os n pa) I2 I3;
      [|ok_parts|lengths|done|done|lengths|lengths].
    unfold holders. cbn. by rewrite (app_assoc q), <- Permutation_cons_append.
  - destruct (w !! i) as [d|] eqn:Ed; [|done]. apply bind_Some in Hs as (log & _ & Hs). simplify_eq.
    pose proof (delete_perm w i d Ed) as Hp.
    with_counts (fun s0 s1 => release_holders s0 s1 d) (MkState cl cc ch se q w inf os n pa) I2 I3;
      [|ok_parts|lengths|done|done|done|lengths].
    unfold holders. cbn. revert Hp. generalize (delete i w) as r. intros r <-.
    rewrite !app_assoc. apply Permutation_middle.
Qed.

Lemma invariant_step s l s' :
  label_ok ok l -> step cfg s l = Some s' -> invariant cfg ok C s -> invariant cfg ok C s'.
Proof.
  intros Hl Hs I.
  destruct l as [d|d|i|i| | | |i env];
    [| |by eapply reserve_step|by eapply send_step| | |
     by eapply worker_step; [left|..]|eapply worker_step; [right; eauto|done|done]].
  all: destruct s as [cl cc ch se q w inf os n pa]; destruct I as [I1 I2 I3 I4 I5 I6 I7 I8]; cbn in Hs, Hl.
  - destruct cl; simplify_eq. split; [done|done|done|lengths|done|done|done|done].
  - destruct cl; simplify_eq. split; [ok_parts|done|done|lengths| |done|done|done].
    intros E. by destruct (I5 E).
  - simplify_eq. split; [done|done|done|done| |done|done|done].
    intros E. by destruct (I5 E) as (_ & ? & ?).
  - destruct (cl && negb cc && (length ch =? 0)%nat && (length se =? 0)%nat) eqn:E; simplify_eq.
    bool_hyps. split; [done|done|done|done| |done|done|done]. intros _.
    split_and!; [done|by apply length_zero_iff_nil..].
Qed.

Lemma invariant_reachable s : reachable cfg ok s -> invariant cfg ok C s.
Proof.
  unfold reachable. intros H. pose proof invariant_init as I. revert I.
  induction H as [s|s l s' s'' Hl Hs _ IH]; [done|]. intros I. apply IH. by eapply invariant_step.
Qed.

End Invariant.

(** ** Totality of a delivery *)

(** A delivery the engine submits: its trigger has an action, and its policy,
    if any, was compiled. *)
Definition delivery_ok (d : Delivery) : Prop :=
  is_Some (tAction (dTrigger d)) /\
  forall p, policy_of d = Some p -> exists doc, Policy.CompilePolicy doc = Ok p.

Lemma compiled_retry_times doc p : Policy.CompilePolicy doc = Ok p -> 0 <= Policy.RetryTimes p <= 100.
Proof.
  intros [_ _ _ Hr _ _ _]%Policy.CompilePolicy_spec. destruct (Policy.RetryTimes_ doc); [lia|].
  destruct Hr as [_ ->]. lia.
Qed.

Lemma or_default_pos n d : 0 < d -> 0 < or_default n d.
Proof. unfold or_default. destruct (Z.leb_spec n 0); lia. Qed.

Lemma max_attempts_pos cfg d : delivery_ok d -> 1 <= max_attempts (NewExecutor cfg) (policy_of d).
Proof.
  intros [_ Hp]. unfold max_attempts. destruct (policy_of d) as [p|].
  - destruct (Hp p eq_refl) as [doc Hd]. apply compiled_retry_times in Hd. lia.
  - cbn. pose proof (or_default_pos (MaxAttempts cfg) DefaultMaxAttempts ltac:(done)). lia.
Qed.

Lemma webhook_total cfg d env : delivery_ok d ->
  exists log k, webhook (NewExecutor cfg) d env = Some log /\
    webhook_run (NewExecutor cfg) (policy_of d) env 1 (BackoffStart (NewExecutor cfg))
      (max_attempts (NewExecutor cfg) (policy_of d)) log k.
Proof.
  intros Hd. pose proof (max_attempts_pos cfg d Hd) as Hm. unfold webhook.
  apply webhook_loop_run; lia.
Qed.

Lemma deliver_total cfg d env : delivery_ok d ->
  exists log, deliver (NewExecutor cfg) d env = Some log.
Proof.
  intros Hd. pose proof Hd as [[a Ha] _]. unfold deliver, forward.
  destruct (expired d env); [eexists; reflexivity|].
  destruct (marshalled env); [|eexists; reflexivity]. rewrite Ha.
  destruct (Custom a).
  - destruct (HasForwarder _), (forward_ok env); eexists; reflexivity.
  - destruct (webhook_total cfg d env Hd) as (log & k & H & _). eauto.
Qed.

(** ** Draining *)
Definition pending (s : state) : nat :=
  4 * length (checked s) + 3 * length (sending s) + 2 * length (queue s) + length (working s).

(** While something is pending, some step that submits nothing applies. *)
Lemma drain_step cfg (env : environment) s :
  Forall delivery_ok (checked s ++ holders s) -> pending s <> 0%nat ->
  exists l s', (forall ok, label_ok ok l) /\ step (NewExecutor cfg) s l = Some s' /\
    (pending s' < pending s)%nat /\ calls s' = calls s.
Proof.
  destruct s as [cl cc ch se q w inf os n pa]. unfold holders, pending. cbn. intros Hok Hp.
  destruct ch as [|d ch].
  2: { exists (LReserve 0). cbn. destruct (capacity_full _ d); eexists; (split; [done|]; split; [reflexivity|]);
       cbn; rewrite ?length_app; cbn; lia. }
  destruct se as [|d se].
  2: { exists (LSend 0). cbn. destruct cc; [|destruct (_ <? _)];
       eexists; (split; [done|]; split; [reflexivity|]); cbn; rewrite ?length_app; cbn; lia. }
  destruct w as [|d w].
  - destruct q as [|d q]; [done|]. exists LTake. cbn [step].
    rewrite (proj2 (Z.ltb_lt _ _)) by (cbn; by apply or_default_pos).
    eexists. split; [done|]. split; [reflexivity|]. cbn. lia.
  - exists (LDone 0 env). cbn [step lookup list_lookup].
    assert (delivery_ok d) as Hd.
    { cbn in Hok. apply Forall_app in Hok as [_ Hok]. by apply Forall_cons in Hok as [? _]. }
    destruct (deliver_total cfg d env Hd) as [log Hlog].
    eexists. split; [done|]. cbn -[deliver]. rewrite Hlog. split; [reflexivity|]. cbn. lia.
Qed.

Lemma steps_trans cfg ok s1 s2 s3 : steps cfg ok s1 s2 -> steps cfg ok s2 s3 -> steps cfg ok s1 s3.
Proof. induction 1; [done|]. intros. econstructor; eauto. Qed.

(** The capacities a set of well-formed deliveries is held to. *)
Definition submitted (C : gostring -> Z) (d : Delivery) : Prop :=
  delivery_ok d /\ forall p, policy_of d = Some p -> Policy.MaximumCapacity p <= C (Policy.Name p).

Lemma submitted_capped C : (forall name, 0 <= C name) -> capped (submitted C) C.
Proof. intros HC. split; [done|]. intros d p [_ H] Hp. by apply H. Qed.

Lemma reachable_invariant cfg C s : (forall name, 0 <= C name) ->
  reachable (NewExecutor cfg) (submitted C) s -> invariant (NewExecutor cfg) (submitted C) C s.
Proof.
  intros HC. apply invariant_reachable; [by apply submitted_capped|..]; cbn.
  - pose proof (or_default_pos (QueueSize cfg) DefaultQueueSize ltac:(done)). lia.
  - pose proof (or_default_pos (Workers cfg) DefaultWorkers ltac:(done)). lia.
Qed.

Lemma drains cfg C (env : environment) s : (forall name, 0 <= C name) ->
  reachable (NewExecutor cfg) (submitted C) s ->
  exists s', steps (NewExecutor cfg) (submitted C) s s' /\ pending s' = 0%nat /\ calls s' = calls s.
Proof.
  intros HC Hr. remember (pending s) as k eqn:Ek. revert s Ek Hr.
  induction (lt_wf k) as [k _ IH]. intros s -> Hr.
  destruct (decide (pending s = 0%nat)) as [E|Hne]; [exists s; split; [constructor|done]|].
  pose proof (inv_ok _ _ _ _ (reachable_invariant cfg C s HC Hr)) as Hok.
  destruct (drain_step cfg env s) as (l & s' & Hl & Hs & Hlt & Hc); [|done|].
  { eapply Forall_impl; [exact Hok|]. by intros d [? _]. }
  destruct (IH (pending s') Hlt s' eq_refl) as (s'' & Hss & Hp & Hc').
  { eapply steps_trans; [exact Hr|]. econstructor; [apply Hl|exact Hs|constructor]. }
  exists s''. split_and!; [by econstructor|done|congruence].
Qed.

(** ** The executor theorems *)

(** A webhook delivery always ends, after at most the configured number of
    attempts (a policy allows its retry count plus one, never more than 101):
    every attempt but the last was retried because its answer is one the
    policy (or, without one, the 5xx-and-transport rule) retries, the waits
    between them double up to the cap, the delivery counts as delivered
    exactly when the last answer is below 400, and it fails only when that
    answer is not retried, the attempts are used up, or shutdown intervenes. *)
Theorem webhook_retry_discipline cfg d env :
  delivery_ok d ->
  let run := NewExecutor cfg in
  exists log k, webhook run d env = Some log /\
    webhook_run run (policy_of d) env 1 (BackoffStart run) (max_attempts run (policy_of d)) log k /\
    (policy_of d <> None -> (requests log <= 101)%nat) /\
    (BackoffStart run < 2 ^ 62 -> BackoffCap run < 2 ^ 62 ->
     forall i, (i < k)%nat -> waits log !! i =
       Some (if (i =? 0)%nat then BackoffStart run
             else Z.min (BackoffStart run * 2 ^ Z.of_nat i) (BackoffCap run))).
Proof.
  intros Hd run. destruct (webhook_total cfg d env Hd) as (log & k & Hw & Hr).
  exists log, k. split_and!; [done|done| |].
  - intros Hp. destruct Hr as [R1 R2 _ _ _]. destruct Hd as [_ Hc]. unfold max_attempts in R2.
    destruct (policy_of d) as [p|]; [|done]. destruct (Hc p eq_refl) as [doc Hdoc].
    apply compiled_retry_times in Hdoc. lia.
  - intros Hs Hcap i Hi. rewrite (run_waits _ _ _ _ _ _ _ _ Hr). apply backoff_seq_lookup; [| |done].
    + pose proof (or_default_pos (BackoffStart cfg) DefaultBackoffStart ltac:(done)). subst run. cbn in *. lia.
    + pose proof (or_default_pos (BackoffCap cfg) DefaultBackoffCap ltac:(done)). subst run. cbn in *. lia.
Qed.

(** C12. In every reachable state: the per-policy counters are exactly the number
    of deliveries holding a reservation and never exceed the capacity of that
    policy name; the queue and the workers stay within their configured
    bounds; every Enqueue call so far is either still pending or has exactly
    one outcome; and no goroutine has sent on the closed channel. *)
Theorem executor_invariant cfg C s :
  (forall name, 0 <= C name) ->
  reachable (NewExecutor cfg) (submitted C) s ->
  (forall name, inflight_of s name = count name (holders s) /\ 0 <= inflight_of s name <= C name) /\
  Z.of_nat (length (queue s)) <= QueueSize (NewExecutor cfg) /\
  Z.of_nat (length (working s)) <= Workers (NewExecutor cfg) /\
  calls s = (length (outcomes s) + length (checked s) + length (holders s))%nat /\
  panicked s = false.
Proof.
  intros HC Hr. destruct (reachable_invariant cfg C s HC Hr) as [_ I2 I3 I4 _ I6 I7 I8].
  split_and!; try done. intros name. rewrite I2. split; [done|]. split; [unfold count; lia|apply I3].
Qed.

(** From every reachable state, whatever the environment answers, the
    executor can finish all the work it holds without new submissions, and
    then every Enqueue call has exactly one recorded outcome and every policy
    counter is back to zero. *)
Theorem executor_drains cfg C (env : environment) s :
  (forall name, 0 <= C name) ->
  reachable (NewExecutor cfg) (submitted C) s ->
  exists s', steps (NewExecutor cfg) (submitted C) s s' /\ calls s' = calls s /\
    length (outcomes s') = calls s /\ (forall name, inflight_of s' name = 0).
Proof.
  intros HC Hr. destruct (drains cfg C env s HC Hr) as (s' & Hs & Hp & Hc).
  assert (reachable (NewExecutor cfg) (submitted C) s') as Hr' by (by eapply steps_trans).
  destruct (reachable_invariant cfg C s' HC Hr') as [_ I2 _ I4 _ _ _ _].
  exists s'. unfold pending in Hp.
  assert (holders s' = []) as Hh.
  { unfold holders. destruct (sending s'), (queue s'), (working s'); cbn in Hp; lia || done. }
  split_and!; [done|done|rewrite Hh in I4; cbn in I4; lia|].
  intros name. by rewrite I2, Hh.
Qed.

(** *** Concrete runs *)
Definition post_action : Action := MkAction "POST"%go "https://example.org"%go ∅ false None [] [].
Definition policy_trigger (p : option Policy.Policy) : Trigger :=
  MkTrigger "t"%go (Some post_action) [] [] [] [] p.
Definition capacity_one : Policy.Policy :=
  Policy.MkPolicy "shared"%go 1 1 0 0
    [Policy.MkHandler (Policy.onKeyword Policy.any_error) Policy.StrategyDiscard].
Definition capacity_one_doc : Policy.policyJSON :=
  Policy.MkPolicyJSON "shared"%go
    [Policy.MkHandlerJSON (Policy.keyword_on Policy.any_error) "discard"%go] 1 None None None.
Definition delivery_in (realm : gostring) (p : option Policy.Policy) : Delivery :=
  MkDelivery realm (policy_trigger p) "{}"%go 0.
Definition default_config : ExecutorConfig := MkExecutorConfig 0 0 0 0 0 0 false.
Definition flaky_env : environment :=
  MkEnv 0 (Some "{}"%go) None true
    (fun n => if (n <? 3)%nat then TransportError else Response 200) (fun _ => false).

Lemma sample_ok realm : delivery_ok (delivery_in realm (Some capacity_one)).
Proof.
  split; [by eexists|]. intros p [= <-]. exists capacity_one_doc. vm_compute. reflexivity.
Qed.

Lemma plain_ok realm : delivery_ok (delivery_in realm None).
Proof. split; [by eexists|done]. Qed.

Lemma webhook_retry_discipline_witness :
  delivery_ok (delivery_in "acme"%go None) /\
  webhook (NewExecutor default_config) (delivery_in "acme"%go None) flaky_env =
    Some (MkLog outcomeDelivered 3 2 [250000000; 500000000]) /\
  exists log k, webhook (NewExecutor default_config) (delivery_in "acme"%go None) flaky_env = Some log /\
    (k = 2)%nat /\ requests log = 3%nat.
Proof.
  split; [apply plain_ok|]. split; [vm_compute; reflexivity|].
  destruct (webhook_retry_discipline default_config (delivery_in "acme"%go None) flaky_env (plain_ok _))
    as (log & k & Hw & Hr & _).
  exists log, k. pose proof (run_requests _ _ _ _ _ _ _ _ Hr) as E.
  assert (log = MkLog outcomeDelivered 3 2 [250000000; 500000000]) as ->.
  { enough (Some log = Some (MkLog outcomeDelivered 3 2 [250000000; 500000000])) by congruence.
    rewrite <- Hw. vm_compute. reflexivity. }
  cbn in E. split; [exact Hw|]. split; [congruence|reflexivity].
Defined.

(** Two realms, each with its own policy of capacity one; the policies happen
    to have the same name. *)
Definition shared_run : list label :=
  [LCheck (delivery_in "acme"%go (Some capacity_one)); LReserve 0; LSend 0;
   LCheck (delivery_in "globex"%go (Some capacity_one)); LReserve 0].

Fixpoint run (cfg : ExecutorConfig) (s : state) (ls : list label) : option state :=
  match ls with
  | [] => Some s
  | l :: ls => s' ← step cfg s l; run cfg s' ls
  end.

Lemma run_steps cfg ok s ls s' : Forall (label_ok ok) ls -> run cfg s ls = Some s' -> steps cfg ok s s'.
Proof.
  intros H. revert s. induction H as [|l ls Hl _ IH]; intros s; cbn; [intros [= <-]; constructor|].
  intros (s1 & H1 & H2)%bind_Some. econstructor; eauto.
Qed.

Lemma shared_labels_ok : Forall (label_ok (submitted (fun _ => 1))) shared_run.
Proof.
  assert (forall realm, submitted (fun _ => 1) (delivery_in realm (Some capacity_one))) as H.
  { intros realm. split; [apply sample_ok|]. intros p [= <-]. done. }
  unfold shared_run. repeat (apply Forall_cons; split); cbn; auto.
Qed.

(** The in-flight counters are keyed by policy name only, so tenants share
    them: with one delivery of realm "acme" queued under its policy "shared"
    of capacity 1, a delivery of realm "globex" under its own policy "shared"
    is dropped although no delivery of that realm is in flight. *)
Theorem capacity_shared_across_realms :
  exists s, reachable (NewExecutor default_config) (submitted (fun _ => 1)) s /\
    Forall (fun d => dRealm d = "acme"%go) (holders s) /\ checked s = [] /\
    calls s = 2%nat /\ outcomes s = [outcomeDropped].
Proof.
  destruct (run (NewExecutor default_config) init shared_run) as [s|] eqn:E; [|vm_compute in E; discriminate E].
  exists s. split.
  - eapply run_steps; [apply shared_labels_ok|exact E].
  - vm_compute in E. injection E as <-. repeat split. repeat constructor.
Qed.

Lemma executor_invariant_witness :
  exists s, reachable (NewExecutor default_config) (submitted (fun _ => 1)) s /\
    inflight_of s "shared"%go = 1 /\ inflight_of s "shared"%go <= 1.
Proof.
  destruct (run (NewExecutor default_config) init shared_run) as [s|] eqn:E; [|vm_compute in E; discriminate E].
  assert (reachable (NewExecutor default_config) (submitted (fun _ => 1)) s) as Hr.
  { eapply run_steps; [apply shared_labels_ok|exact E]. }
  exists s. split; [exact Hr|]. split.
  - vm_compute in E. injection E as <-. reflexivity.
  - apply (executor_invariant default_config (fun _ => 1) s (fun _ => ltac:(lia)) Hr).
Defined.

Lemma executor_drains_witness :
  exists s', steps (NewExecutor default_config) (submitted (fun _ => 1)) init s' /\
    length (outcomes s') = 0%nat.
Proof.
  destruct (executor_drains default_config (fun _ => 1) flaky_env init (fun _ => ltac:(lia))
              (steps_refl _ _ init)) as (s' & Hs & _ & Ho & _).
  exists s'. split; [exact Hs|exact Ho].
Defined.

End Executor.
