(* ===== verification/Cache.v ===== *)
(** * Schema and device caches ([src/internal/engine/cache.go])

    A realm's compiled interfaces, built from the stored definitions; the
    immutable snapshot every shard reads, with its full and single-realm
    rebuilds and the debounced self-heal; the per-device entries with their
    payload-format hint. The store's answers and the clock are arguments. The
    compiled triggers of a realm are carried along; compiling them is not part
    of this file. *)

From S2P Require Import Prelude GoStrings DeviceID SchemaTypes Endpoints InterfaceParse EndpointTrie Compile Topics Float64 PayloadValue Policy Triggers.

Module Cache.
Import Schema Endpoint Parse Trie Compile Introspection Payload.

(** ** Stored interfaces ([src/internal/store/interfaces.go]) *)

Record StoredInterface := MkStored {
  siID : Z;
  siName : gostring;
  siMajor : Z;
  siDefinition : gostring;
  siEndpoints : gmap gostring Z;
}.

Definition si_ResolveInterface (si : StoredInterface) (name : gostring) (major : Z) : result gostring Z :=
  if negb (bool_decide (name = siName si)) || negb (major =? siMajor si)%Z
  then Err "resolver holds another interface"%go
  else Ok (siID si).
Definition si_ResolveEndpoint (si : StoredInterface) (endpoint : gostring) : result gostring Z :=
  or_err (siEndpoints si !! endpoint) "no such endpoint"%go.
Definition resolver (si : StoredInterface) : EndpointIDResolver :=
  MkResolver (si_ResolveInterface si) (si_ResolveEndpoint si).

(** ** A realm's schema *)

Record realmSchema := MkRealm {
  rsID : Z;
  rsName : gostring;
  interfaces : gmap gostring (gmap Z CompiledInterface);
  ifacesByID : gmap Z CompiledInterface;
  rsTriggers : list Triggers.Trigger;
}.

Definition iface (r : option realmSchema) (name : gostring) (major : Z) : option CompiledInterface :=
  rs ← r; byMajor ← interfaces rs !! name; byMajor !! major.
Definition ifaceByID (r : option realmSchema) (id : Z) : option CompiledInterface :=
  rs ← r; ifacesByID rs !! id.

(** The range over the majors of a name keeps the highest. *)
Definition better (best : option CompiledInterface) (ci : CompiledInterface) : option CompiledInterface :=
  match best with
  | None => Some ci
  | Some b => if (cMajor b <? cMajor ci)%Z then Some ci else best
  end.
Definition latestIface (r : option realmSchema) (name : gostring) : option CompiledInterface :=
  rs ← r; byMajor ← interfaces rs !! name;
  foldl better None (map_to_list byMajor).*2.

Section Build.
(** The strict JSON decoding in front of [ParseInterface]'s rules. *)
Variable decode_document : gostring -> option interfaceJSON.

Definition ParseInterface (definition : gostring) : option Interface :=
  raw ← decode_document definition;
  match buildInterface raw with Ok (i, _) => Some i | Err _ => None end.

(** A stored interface, or nothing when it does not parse or compile (the
    source logs and skips it). *)
Definition load_interface (si : StoredInterface) : option CompiledInterface :=
  i ← ParseInterface (siDefinition si);
  match Compile (Some i) (Some (resolver si)) with Ok ci => Some ci | Err _ => None end.

Definition add_interface (rs : realmSchema) (ci : CompiledInterface) : realmSchema :=
  MkRealm (rsID rs) (rsName rs)
    (<[cName ci := <[cMajor ci := ci]> (default ∅ (interfaces rs !! cName ci))]> (interfaces rs))
    (<[ID ci := ci]> (ifacesByID rs)) (rsTriggers rs).

(** [buildRealm]: the loop over the stored interfaces, then the triggers. *)
Definition buildRealm (realmID : Z) (name : gostring) (stored : list StoredInterface)
    (trs : list Triggers.Trigger) : realmSchema :=
  foldl (fun rs si => match load_interface si with Some ci => add_interface rs ci | None => rs end)
    (MkRealm realmID name ∅ ∅ trs) stored.

(** ** The snapshot *)

Record schemaSnapshot := MkSnapshot {
  byID : gmap Z realmSchema;
  byName : gmap gostring realmSchema;
}.

Definition realm (s : schemaSnapshot) (name : gostring) : option realmSchema := byName s !! name.

Definition put (s : schemaSnapshot) (rs : realmSchema) : schemaSnapshot :=
  MkSnapshot (<[rsID rs := rs]> (byID s)) (<[rsName rs := rs]> (byName s)).

(** What the store answers to a rebuild: the realms, and per realm its
    interfaces and triggers; [None] is a failed query. *)
Record storeView := MkView {
  ListRealms : option (list (Z * gostring));
  LoadRealm : Z -> option (list StoredInterface * list Triggers.Trigger);
}.

Definition build (v : storeView) (id : Z) (name : gostring) : option realmSchema :=
  '(stored, trs) ← LoadRealm v id; Some (buildRealm id name stored trs).

Fixpoint load_realms (v : storeView) (realms : list (Z * gostring)) (next : schemaSnapshot)
    : option schemaSnapshot :=
  match realms with
  | [] => Some next
  | (id, name) :: realms => rs ← build v id name; load_realms v realms (put next rs)
  end.

(** [loadAll]: the new snapshot, or the old one when a query fails. *)
Definition loadAll (v : storeView) (s : schemaSnapshot) : schemaSnapshot * bool :=
  match (realms ← ListRealms v; load_realms v realms (MkSnapshot ∅ ∅)) with
  | Some next => (next, true)
  | None => (s, false)
  end.

Definition reloadRealm (v : storeView) (s : schemaSnapshot) (realmID : Z) : schemaSnapshot * bool :=
  match byID s !! realmID with
  | None => loadAll v s
  | Some old =>
      match build v realmID (rsName old) with
      | None => (s, false)
      | Some rs => (put s rs, true)
      end
  end.

Definition fullReloadDebounce : Z := 1000000000.

(** [realmOrReload] of one shard: the snapshot, the time of the last reload
    and the clock; another shard's reload in between is the flag [raced]. *)
Definition realmOrReload (v : storeView) (s : schemaSnapshot) (last now : Z) (raced : bool)
    (name : gostring) : option realmSchema * schemaSnapshot * Z :=
  match realm s name with
  | Some r => (Some r, s, last)
  | None =>
      if (wrap 64 (now - last) <? fullReloadDebounce)%Z then (None, s, last)
      else if raced then (None, s, last)
      else match loadAll v s with
           | (s, true) => (realm s name, s, now)
           | (s, false) => (None, s, now)
           end
  end.

End Build.

(** ** Devices *)

Definition hintBSON : gostring := "bson"%go.
Definition hintJSON : gostring := "json"%go.

Record deviceState := MkDevice {
  dsRealmID : Z;
  introspection : gmap gostring InterfaceVersion;
  formatHint : gostring;
  resetHintOnBSON : bool;
  purgeCompression : gostring;
}.

Definition declares (d : deviceState) (name : gostring) : option InterfaceVersion :=
  introspection d !! name.
Definition setIntrospection (d : deviceState) (intro : gmap gostring InterfaceVersion) : deviceState :=
  MkDevice (dsRealmID d) intro (formatHint d) (resetHintOnBSON d) (purgeCompression d).
Definition armHintReset (d : deviceState) : deviceState :=
  MkDevice (dsRealmID d) (introspection d) (formatHint d) true (purgeCompression d).
Definition setPurgeCompression (d : deviceState) (f : gostring) : deviceState :=
  MkDevice (dsRealmID d) (introspection d) (formatHint d) (resetHintOnBSON d) f.
Definition set_hint (d : deviceState) (h : gostring) (reset : bool) : deviceState :=
  MkDevice (dsRealmID d) (introspection d) h reset (purgeCompression d).

(** [noteFormat] of data.go: the entry after a payload of format [f], and the
    hint to persist when it flipped. *)
Definition noteFormat (d : deviceState) (f : Format) : deviceState * option gostring :=
  match f with
  | FormatJSON =>
      if decide (formatHint d = hintJSON) then (set_hint d hintJSON false, None)
      else (set_hint d hintJSON false, Some hintJSON)
  | FormatBSON =>
      if resetHintOnBSON d then
        if decide (formatHint d = hintBSON) then (set_hint d (formatHint d) false, None)
        else (set_hint d hintBSON false, Some hintBSON)
      else (d, None)
  | FormatEmpty | FormatInvalid => (d, None)
  end.

(** The stored device row. *)
Record Device := MkDeviceRow {
  PayloadFormatHint : gostring;
  Introspection_ : gmap gostring InterfaceVersion;
}.

Definition deviceKey : Type := gostring * gostring.
Abbreviation deviceCache := (gmap deviceKey deviceState).

Inductive load_error := ErrNotFound | LoadFailed.

Definition get (c : deviceCache) (realm : gostring) (realmID : Z) (id : gostring)
    (row : result load_error Device) : deviceCache * result load_error deviceState :=
  match c !! (realm, id) with
  | Some st => (c, Ok st)
  | None =>
      match row with
      | Err e => (c, Err e)
      | Ok dev =>
          let hint := if decide (PayloadFormatHint dev = []) then hintBSON else PayloadFormatHint dev in
          let st := MkDevice realmID (Introspection_ dev) hint false [] in
          (<[(realm, id) := st]> c, Ok st)
      end
  end.
Definition peek (c : deviceCache) (realm : gostring) (id : gostring) : option deviceState := c !! (realm, id).
Definition evict (c : deviceCache) (realm : gostring) (id : gostring) : deviceCache := delete (realm, id) c.

(** ** What a rebuilt realm holds *)

(** A compiled interface that comes from a document the parser accepts. *)
Definition installed (ci : CompiledInterface) : Prop :=
  exists i ids, wf_interface i /\ Compile (Some i) ids = Ok ci.

(** Every entry is such an interface, filed under its own name and major. *)
Definition realm_ok (rs : realmSchema) : Prop :=
  forall name major ci, iface (Some rs) name major = Some ci ->
    installed ci /\ cName ci = name /\ cMajor ci = major.

Lemma compile_header i ids ci :
  Compile (Some i) ids = Ok ci ->
  cName ci = Name i /\ cMajor ci = Major i /\ cType ci = IType i /\ cAggregation ci = IAggregation i /\
  match ids with Some r => ResolveInterface r (Name i) (Major i) = Ok (ID ci) | None => True end.
Proof.
  simpl. intros (id & Hid & H)%bindR_Ok. apply bindR_Ok in H as ([t leaves] & _ & [= <-]).
  split_and!; try done. destruct ids as [r|]; [|done]. by apply mapErr_Ok in Hid.
Qed.

Lemma load_interface_spec decode si ci :
  load_interface decode si = Some ci ->
  installed ci /\ cName ci = siName si /\ cMajor ci = siMajor si /\ ID ci = siID si.
Proof.
  unfold load_interface, ParseInterface. intros (i & Hp & Hc)%bind_Some.
  apply bind_Some in Hp as (raw & _ & Hp).
  destruct (buildInterface raw) as [[i' raw']|] eqn:Eb; [|done]. injection Hp as ->.
  destruct (Compile (Some i) (Some (resolver si))) as [ci'|] eqn:Ec; [|done]. injection Hc as ->.
  apply buildInterface_sound in Eb. split; [by exists i, (Some (resolver si))|].
  apply compile_header in Ec as (-> & -> & _ & _ & Hr). simpl in Hr. unfold si_ResolveInterface in Hr.
  destruct (_ || _) eqn:E; [done|]. injection Hr as <-. bool_hyps. done.
Qed.

Lemma iface_add rs ci name major :
  iface (Some (add_interface rs ci)) name major =
  if decide (name = cName ci /\ major = cMajor ci) then Some ci else iface (Some rs) name major.
Proof.
  unfold iface. simpl. destruct (decide (name = cName ci)) as [->|Hn].
  - rewrite lookup_insert_eq. simpl. destruct (decide (major = cMajor ci)) as [->|Hm].
    + rewrite lookup_insert_eq. by rewrite decide_True.
    + rewrite lookup_insert_ne by done. rewrite decide_False by naive_solver.
      by destruct (interfaces rs !! cName ci).
  - rewrite lookup_insert_ne by done. by rewrite decide_False by naive_solver.
Qed.

Lemma ifaceByID_add rs ci id :
  ifaceByID (Some (add_interface rs ci)) id =
  if decide (id = ID ci) then Some ci else ifaceByID (Some rs) id.
Proof.
  unfold ifaceByID. simpl. case_decide as E; [subst; by rewrite lookup_insert_eq|].
  by rewrite lookup_insert_ne.
Qed.

Section Built.
Variable decode_document : gostring -> option interfaceJSON.

(** The database keeps (name, major) and the identifier unique per realm. *)
Definition unique_rows (stored : list StoredInterface) : Prop :=
  NoDup (map (fun si => (siName si, siMajor si)) stored) /\ NoDup (map siID stored).

Definition loaded (stored : list StoredInterface) (si : StoredInterface) (ci : CompiledInterface) : Prop :=
  si ∈ stored /\ load_interface decode_document si = Some ci.

Lemma loaded_snoc stored si0 si ci :
  loaded (stored ++ [si0]) si ci <-> loaded stored si ci \/ si = si0 /\ load_interface decode_document si0 = Some ci.
Proof. unfold loaded. rewrite elem_of_app, list_elem_of_singleton. naive_solver. Qed.

Lemma buildRealm_snoc id name stored si trs :
  buildRealm decode_document id name (stored ++ [si]) trs =
  let rs := buildRealm decode_document id name stored trs in
  match load_interface decode_document si with Some ci => add_interface rs ci | None => rs end.
Proof. unfold buildRealm. by rewrite foldl_app. Qed.

Lemma buildRealm_spec id name stored trs :
  unique_rows stored ->
  let rs := buildRealm decode_document id name stored trs in
  (forall n m ci, iface (Some rs) n m = Some ci <->
     exists si, loaded stored si ci /\ siName si = n /\ siMajor si = m) /\
  (forall i ci, ifaceByID (Some rs) i = Some ci <-> exists si, loaded stored si ci /\ siID si = i).
Proof.
  cbv zeta. induction stored as [|si stored IH] using rev_ind; intros [Hn Hi].
  { split.
    - intros n m ci. unfold iface, loaded. simpl. rewrite lookup_empty. simpl.
      split; [done|]. by intros (si & [?%not_elem_of_nil _] & _).
    - intros i ci. unfold ifaceByID, loaded. simpl. rewrite lookup_empty.
      split; [done|]. by intros (si & [?%not_elem_of_nil _] & _). }
  rewrite map_app in Hn, Hi. apply NoDup_app in Hn as (Hn & Hnx & _), Hi as (Hi & Hix & _).
  destruct (IH (conj Hn Hi)) as [IH1 IH2]. rewrite buildRealm_snoc. cbv zeta.
  assert (forall si' ci, loaded stored si' ci -> (siName si', siMajor si') <> (siName si, siMajor si) /\
    siID si' <> siID si) as Hfresh.
  { intros si' ci [Hin _]. split; intros E.
    - apply (Hnx (siName si', siMajor si')); [apply list_elem_of_fmap; by exists si'|].
      rewrite E. by left.
    - apply (Hix (siID si')); [apply list_elem_of_fmap; by exists si'|]. rewrite E. by left. }
  destruct (load_interface decode_document si) as [ci0|] eqn:El.
  - pose proof (load_interface_spec _ _ _ El) as (_ & En & Em & Ei). split.
    + intros n m ci. rewrite iface_add. setoid_rewrite loaded_snoc. rewrite El.
      case_decide as E.
      * destruct E as [-> ->]. rewrite En, Em. split.
        -- intros [= <-]. exists si. auto.
        -- intros (si' & [Hl|[-> [= ->]]] & E1 & E2); [|done].
           destruct (Hfresh _ _ Hl) as [Hx _]. congruence.
      * rewrite IH1. split; [naive_solver|].
        intros (si' & [Hl|[-> [= ->]]] & E1 & E2); [eauto|]. destruct E. subst. done.
    + intros i ci. rewrite ifaceByID_add. setoid_rewrite loaded_snoc. rewrite El. case_decide as E.
      * subst i. rewrite Ei. split.
        -- intros [= <-]. exists si. auto.
        -- intros (si' & [Hl|[-> [= ->]]] & E1); [|done]. destruct (Hfresh _ _ Hl) as [_ Hx]. congruence.
      * rewrite IH2. split; [naive_solver|].
        intros (si' & [Hl|[-> [= ->]]] & E1); [eauto|]. destruct E. congruence.
  - setoid_rewrite loaded_snoc. rewrite El. split; intros; [rewrite IH1|rewrite IH2]; naive_solver.
Qed.

(** Even when rows clash, what is filed is an accepted, compiled interface
    under its own name and major. *)
Lemma buildRealm_ok id name stored trs : realm_ok (buildRealm decode_document id name stored trs).
Proof.
  induction stored as [|si stored IH] using rev_ind; intros n m ci.
  { unfold iface. simpl. by rewrite lookup_empty. }
  rewrite buildRealm_snoc. cbv zeta. destruct (load_interface decode_document si) as [ci0|] eqn:El; [|apply IH].
  rewrite iface_add. case_decide as E; [|apply IH]. intros [= ->].
  apply load_interface_spec in El as (Hin & _). naive_solver.
Qed.

(** The snapshot's two views agree: a realm is filed under its own identifier
    and its own name. *)
Definition snapshot_ok (s : schemaSnapshot) : Prop :=
  (forall id rs, byID s !! id = Some rs -> rsID rs = id /\ byName s !! rsName rs = Some rs) /\
  (forall name rs, byName s !! name = Some rs -> rsName rs = name /\ byID s !! rsID rs = Some rs) /\
  (forall id rs, byID s !! id = Some rs -> realm_ok rs).

Lemma buildRealm_header id name stored trs :
  rsID (buildRealm decode_document id name stored trs) = id /\
  rsName (buildRealm decode_document id name stored trs) = name.
Proof.
  induction stored as [|si stored IH] using rev_ind; [done|]. rewrite buildRealm_snoc.
  by destruct (load_interface decode_document si).
Qed.

Lemma build_spec v id name rs :
  build decode_document v id name = Some rs -> rsID rs = id /\ rsName rs = name /\ realm_ok rs.
Proof.
  unfold build. intros ([stored trs] & _ & [= <-])%bind_Some.
  destruct (buildRealm_header id name stored trs). split_and!; [done|done|apply buildRealm_ok].
Qed.

(** Filing a realm keeps the views in agreement when neither its identifier
    nor its name belongs to another realm. *)
Lemma put_ok s rs :
  snapshot_ok s -> realm_ok rs ->
  (forall old, byID s !! rsID rs = Some old -> rsName old = rsName rs) ->
  (forall old, byName s !! rsName rs = Some old -> rsID old = rsID rs) ->
  snapshot_ok (put s rs).
Proof.
  intros (H1 & H2 & H3) Hrs Hid Hname. unfold put. split_and!; simpl.
  - intros id r. rewrite lookup_insert_Some. intros [[<- <-]|[Hne Hr]]; [by rewrite lookup_insert_eq|].
    destruct (H1 _ _ Hr) as [<- Hb]. split; [done|]. rewrite lookup_insert_ne; [done|].
    intros E. rewrite <- E in Hb. apply Hname in Hb. congruence.
  - intros name r. rewrite lookup_insert_Some. intros [[<- <-]|[Hne Hr]]; [by rewrite lookup_insert_eq|].
    destruct (H2 _ _ Hr) as [<- Hb]. split; [done|]. rewrite lookup_insert_ne; [done|].
    intros E. rewrite <- E in Hb. apply Hid in Hb. congruence.
  - intros id r. rewrite lookup_insert_Some. intros [[<- <-]|[_ Hr]]; eauto.
Qed.

Definition unique_realms (v : storeView) : Prop :=
  forall realms, ListRealms v = Some realms -> NoDup realms.*1 /\ NoDup realms.*2.

Lemma load_realms_ok v realms next s :
  snapshot_ok next -> NoDup realms.*1 -> NoDup realms.*2 ->
  (forall id name, (id, name) ∈ realms -> byID next !! id = None /\ byName next !! name = None) ->
  load_realms decode_document v realms next = Some s -> snapshot_ok s.
Proof.
  revert next. induction realms as [|[id name] realms IH]; intros next Hok Hid Hname Hfresh; simpl.
  { by intros [= <-]. }
  intros (rs & Hb & Hl)%bind_Some. apply build_spec in Hb as (<- & <- & Hrs).
  apply NoDup_cons in Hid as [Hid0 Hid], Hname as [Hname0 Hname].
  destruct (Hfresh _ _ ltac:(left)) as [F1 F2].
  eapply (IH (put next rs)); [| done | done | | done].
  - apply put_ok; [done|done|..]; intros old; congruence.
  - intros id' name' Hin. destruct (Hfresh id' name') as [G1 G2]; [by right|]. simpl. split.
    + rewrite lookup_insert_ne; [done|]. intros <-. apply Hid0. apply list_elem_of_fmap. by exists (rsID rs, name').
    + rewrite lookup_insert_ne; [done|]. intros <-. apply Hname0. apply list_elem_of_fmap. by exists (id', rsName rs).
Qed.

Lemma empty_snapshot_ok : snapshot_ok (MkSnapshot ∅ ∅).
Proof. split_and!; intros k r; simpl; by rewrite lookup_empty. Qed.

Lemma loadAll_ok v s s' b :
  unique_realms v -> snapshot_ok s -> loadAll decode_document v s = (s', b) ->
  snapshot_ok s' /\ (b = false -> s' = s).
Proof.
  intros Hu Hs. unfold loadAll. destruct (ListRealms v) as [realms|] eqn:El; simpl; [|by intros [= <- <-]].
  destruct (load_realms decode_document v realms (MkSnapshot ∅ ∅)) as [next|] eqn:E; intros [= <- <-]; [|done].
  split; [|done]. destruct (Hu _ El) as [N1 N2].
  eapply load_realms_ok; [apply empty_snapshot_ok|done|done| |done].
  intros id name _. simpl. by rewrite !lookup_empty.
Qed.

Lemma reloadRealm_ok v s id s' b :
  unique_realms v -> snapshot_ok s -> reloadRealm decode_document v s id = (s', b) ->
  snapshot_ok s' /\ (b = false -> s' = s).
Proof.
  intros Hu Hs. unfold reloadRealm. destruct (byID s !! id) as [old|] eqn:Eo; [|by apply loadAll_ok].
  destruct (build decode_document v id (rsName old)) as [rs|] eqn:Eb; intros [= <- <-]; [|done].
  split; [|done]. apply build_spec in Eb as (<- & En & Hrs). apply put_ok; [done|done|..].
  - intros o Ho. congruence.
  - intros o Ho. rewrite En in Ho. destruct Hs as (H1 & _). destruct (H1 _ _ Eo) as [E Hb].
    rewrite Hb in Ho. by injection Ho as <-.
Qed.

(** What can happen to the snapshot; each step sees its own store. *)
Inductive cache_op :=
| OpLoadAll (v : storeView)
| OpReload (v : storeView) (id : Z)
| OpHeal (v : storeView) (now : Z) (raced : bool) (name : gostring).

Definition op_view (o : cache_op) : storeView :=
  match o with OpLoadAll v | OpReload v _ | OpHeal v _ _ _ => v end.

(** The cache: the snapshot and the time of the last self-heal. *)
Definition cache_step (c : schemaSnapshot * Z) (o : cache_op) : schemaSnapshot * Z :=
  match o with
  | OpLoadAll v => ((loadAll decode_document v c.1).1, c.2)
  | OpReload v id => ((reloadRealm decode_document v c.1 id).1, c.2)
  | OpHeal v now raced name =>
      let '(_, s, last) := realmOrReload decode_document v c.1 c.2 now raced name in (s, last)
  end.

Lemma realmOrReload_ok v s last now raced name r s' last' :
  unique_realms v -> snapshot_ok s ->
  realmOrReload decode_document v s last now raced name = (r, s', last') ->
  snapshot_ok s' /\ (forall rs, r = Some rs -> realm s' name = Some rs).
Proof.
  intros Hu Hs. unfold realmOrReload. destruct (realm s name) as [r0|] eqn:Er.
  { intros [= <- <- <-]. split; [done|]. by intros rs [= <-]. }
  destruct (_ <? _)%Z; [by intros [= <- <- <-]|]. destruct raced; [by intros [= <- <- <-]|].
  destruct (loadAll decode_document v s) as [s1 b] eqn:El. destruct (loadAll_ok _ _ _ _ Hu Hs El) as [Hok _].
  destruct b; by intros [= <- <- <-].
Qed.

Lemma cache_step_ok c o : unique_realms (op_view o) -> snapshot_ok c.1 -> snapshot_ok (cache_step c o).1.
Proof.
  destruct o as [v|v id|v now raced name]; simpl; intros Hu Hs.
  - destruct (loadAll decode_document v c.1) as [s b] eqn:E. by eapply loadAll_ok.
  - destruct (reloadRealm decode_document v c.1 id) as [s b] eqn:E. by eapply reloadRealm_ok.
  - destruct (realmOrReload decode_document v c.1 c.2 now raced name) as [[r s] l] eqn:E.
    by eapply realmOrReload_ok in E as [? _].
Qed.

End Built.

(** ** The highest major *)

Lemma foldl_better l best :
  match foldl better best l with
  | None => best = None /\ l = []
  | Some ci => ci ∈ option_list best ++ l /\
      Forall (fun x => (cMajor x <= cMajor ci)%Z) (option_list best ++ l)
  end.
Proof.
  revert best. induction l as [|x l IH]; intros best; simpl.
  - destruct best as [b|]; simpl; [|done]. split; [left|]. by repeat constructor.
  - specialize (IH (better best x)). destruct (foldl better (better best x) l) as [ci|].
    + destruct IH as [Hin Hall]. destruct best as [b|]; simpl in *; [|done].
      destruct (cMajor b <? cMajor x)%Z eqn:E; bool_hyps; simpl in *.
      * split; [by right|]. constructor; [|done]. apply Forall_cons in Hall as [Hx _]. lia.
      * apply Forall_cons in Hall as [Hb Hl]. split; [set_solver|]. constructor; [done|]. constructor; [lia|done].
    + destruct IH as [Hb _]. unfold better in Hb. destruct best as [b|]; [|done]. by destruct (_ <? _)%Z.
Qed.

Lemma latestIface_spec rs name :
  realm_ok rs ->
  match latestIface (Some rs) name with
  | None => forall major, iface (Some rs) name major = None
  | Some ci => iface (Some rs) name (cMajor ci) = Some ci /\
      forall major ci', iface (Some rs) name major = Some ci' -> (major <= cMajor ci)%Z
  end.
Proof.
  intros Hok. unfold latestIface. simpl. pose proof (Hok name) as Hn. unfold iface in *. simpl in *.
  destruct (interfaces rs !! name) as [byMajor|]; simpl in *; [|done].
  pose proof (foldl_better (map_to_list byMajor).*2 None) as Hb. simpl in Hb.
  destruct (foldl better None (map_to_list byMajor).*2) as [ci|].
  - destruct Hb as [Hin Hall]. apply list_elem_of_fmap in Hin as ([m ci'] & -> & Hin).
    apply elem_of_map_to_list in Hin. simpl in *. pose proof (Hn _ _ Hin) as (_ & _ & <-). split; [done|].
    intros major ci1 H1. pose proof (Hn _ _ H1) as (_ & _ & <-).
    rewrite Forall_forall in Hall. apply Hall. apply list_elem_of_fmap. exists (cMajor ci1, ci1).
    split; [done|]. by apply elem_of_map_to_list.
  - destruct Hb as [_ Hb]. apply fmap_nil_inv, map_to_list_empty_iff in Hb as ->. intros major.
    apply lookup_empty.
Qed.

(** ** The payload-format hint *)

(** What moves a device's hint: a data payload of some format, or the
    [emptyCache] control message. *)
Inductive hint_event := Data (f : Format) | EmptyCache.

Definition hint_step (d : deviceState) (e : hint_event) : deviceState :=
  match e with
  | Data f => (noteFormat d f).1
  | EmptyCache => armHintReset d
  end.

(** The reference reads the history backwards: the last JSON payload decides,
    unless an [emptyCache] with a BSON payload after it comes first. *)
Fixpoint hint_scan (init : gostring) (past : list hint_event) (bson_after : bool) : gostring :=
  match past with
  | [] => init
  | Data FormatJSON :: _ => hintJSON
  | Data FormatBSON :: past => hint_scan init past true
  | Data _ :: past => hint_scan init past bson_after
  | EmptyCache :: past => if bson_after then hintBSON else hint_scan init past bson_after
  end.

(** An [emptyCache] no payload with a format has followed. *)
Fixpoint reset_pending (past : list hint_event) : bool :=
  match past with
  | [] => false
  | EmptyCache :: _ => true
  | Data (FormatJSON | FormatBSON) :: _ => false
  | Data _ :: past => reset_pending past
  end.

Lemma hint_scan_after init past :
  hint_scan init past true = if reset_pending past then hintBSON else hint_scan init past false.
Proof. induction past as [|[[]|] past IH]; simpl; by rewrite ?IH. Qed.

Lemma hint_run d h :
  resetHintOnBSON d = false ->
  formatHint (foldl hint_step d h) = hint_scan (formatHint d) (rev h) false /\
  resetHintOnBSON (foldl hint_step d h) = reset_pending (rev h).
Proof.
  intros Hd. induction h as [|e h [IH1 IH2]] using rev_ind; [done|].
  rewrite foldl_snoc, rev_unit. set (d' := foldl hint_step d h) in *.
  destruct e as [f|]; simpl; [|by rewrite IH1].
  destruct f; simpl; [done|done| |].
  - rewrite hint_scan_after, <- IH1, <- IH2. unfold noteFormat.
    destruct (resetHintOnBSON d') eqn:Er; [|done]. by case_decide.
  - by case_decide.
Qed.

(** Whatever sequence of full reloads, single-realm reloads and debounced
    self-heals the cache goes through, failed queries included, the snapshot
    the shards read files every realm under its own identifier and its own
    name, and every interface in it is one the parser accepts and the compiler
    compiled, filed under its own name and major version. *)
Theorem schema_cache_invariant decode_document ops last :
  Forall (fun o => unique_realms (op_view o)) ops ->
  let s := (foldl (cache_step decode_document) (MkSnapshot ∅ ∅, last) ops).1 in
  (forall name rs, realm s name = Some rs -> rsName rs = name /\ byID s !! rsID rs = Some rs) /\
  (forall id rs, byID s !! id = Some rs -> rsID rs = id /\ realm s (rsName rs) = Some rs) /\
  (forall name rs n major ci, realm s name = Some rs -> iface (Some rs) n major = Some ci ->
     installed ci /\ cName ci = n /\ cMajor ci = major).
Proof.
  intros Hu. cbv zeta.
  assert (snapshot_ok (foldl (cache_step decode_document) (MkSnapshot ∅ ∅, last) ops).1) as (H1 & H2 & H3).
  { assert (snapshot_ok (MkSnapshot ∅ ∅, last).1) as H0 by apply empty_snapshot_ok.
    revert H0. generalize (MkSnapshot ∅ ∅, last). induction Hu as [|o ops Ho _ IH]; intros c Hc; [done|].
    apply IH. by apply cache_step_ok. }
  split_and!; [exact H2|exact H1|]. intros name rs n major ci Hr. apply H2 in Hr as [_ Hr].
  exact (H3 _ _ Hr n major ci).
Qed.

(** A realm is rebuilt exactly from its rows: name and major resolve to the
    compiled form of the row that has them, the identifier to the same
    interface, rows that do not parse or compile are absent, and the latest
    version of a name is the highest major present. *)
Theorem realm_build_exact decode_document id name stored trs :
  unique_rows stored ->
  let rs := buildRealm decode_document id name stored trs in
  (forall n m ci, iface (Some rs) n m = Some ci <->
     exists si, si ∈ stored /\ load_interface decode_document si = Some ci /\
       siName si = n /\ siMajor si = m) /\
  (forall i ci, ifaceByID (Some rs) i = Some ci <->
     iface (Some rs) (cName ci) (cMajor ci) = Some ci /\ ID ci = i) /\
  (forall n ci, latestIface (Some rs) n = Some ci ->
     iface (Some rs) n (cMajor ci) = Some ci /\
     forall m ci', iface (Some rs) n m = Some ci' -> (m <= cMajor ci)%Z).
Proof.
  intros Hu. cbv zeta. destruct (buildRealm_spec decode_document id name stored trs Hu) as [H1 H2].
  unfold loaded in *. split_and!.
  - intros n m ci. rewrite H1. naive_solver.
  - intros i ci. rewrite H2, H1. split.
    + intros (si & [Hin Hl] & <-). pose proof (load_interface_spec _ _ _ Hl) as (_ & -> & -> & ->). eauto 10.
    + intros [(si & [Hin Hl] & En & Em) <-].
      pose proof (load_interface_spec _ _ _ Hl) as (_ & _ & _ & ->). eauto.
  - intros n ci Hl. pose proof (latestIface_spec _ n (buildRealm_ok decode_document id name stored trs)) as Hs.
    by rewrite Hl in Hs.
Qed.

(** The outbound format hint kept step by step is the one the whole history
    determines: the last JSON payload makes it sticky, and only an
    [emptyCache] followed by a BSON payload takes it back. *)
Theorem format_hint_reference d h :
  resetHintOnBSON d = false ->
  formatHint (foldl hint_step d h) = hint_scan (formatHint d) (rev h) false.
Proof. intros Hd. by apply hint_run. Qed.

(** ** Witnesses *)

Definition sample_doc (_ : gostring) : option interfaceJSON :=
  Some (document (Compile.sample_interface AggregationIndividual ["/%{a}/x"%go])).
Definition sample_stored : StoredInterface :=
  MkStored 7 (Name (Compile.sample_interface AggregationIndividual []))
    (Major (Compile.sample_interface AggregationIndividual [])) [] {["/%{a}/x"%go := 9%Z]}.
Definition sample_view : storeView :=
  MkView (Some [(1%Z, "test"%go)]) (fun _ => Some ([sample_stored], [])).

Lemma sample_view_unique : unique_realms sample_view.
Proof. intros realms [= <-]. split; apply NoDup_singleton. Qed.

Lemma schema_cache_invariant_witness :
  exists rs ci, realm (foldl (cache_step sample_doc) (MkSnapshot ∅ ∅, 0%Z)
      [OpHeal sample_view fullReloadDebounce false "test"%go]).1 "test"%go = Some rs /\
    iface (Some rs) (siName sample_stored) (siMajor sample_stored) = Some ci /\ installed ci.
Proof.
  destruct (realm (foldl (cache_step sample_doc) (MkSnapshot ∅ ∅, 0%Z)
      [OpHeal sample_view fullReloadDebounce false "test"%go]).1 "test"%go) as [rs|] eqn:Er;
    [|vm_compute in Er; discriminate].
  destruct (iface (Some rs) (siName sample_stored) (siMajor sample_stored)) as [ci|] eqn:Ei.
  - exists rs, ci. split; [reflexivity|]. split; [exact Ei|].
    destruct (@schema_cache_invariant sample_doc
      [OpHeal sample_view fullReloadDebounce false "test"%go] 0%Z) as (_ & _ & H).
    + constructor; [apply sample_view_unique|constructor].
    + exact (proj1 (H _ _ _ _ _ Er Ei)).
  - exfalso. vm_compute in Er. injection Er as <-. vm_compute in Ei. discriminate.
Defined.

Lemma realm_build_exact_witness :
  exists ci, iface (Some (buildRealm sample_doc 1 "test"%go [sample_stored] []))
    (siName sample_stored) (siMajor sample_stored) = Some ci /\ cMajor ci = siMajor sample_stored.
Proof.
  destruct (load_interface sample_doc sample_stored) as [ci|] eqn:El; [|vm_compute in El; discriminate].
  exists ci. split.
  - destruct (realm_build_exact sample_doc 1 "test"%go [sample_stored] []) as [H _].
    + split; apply NoDup_singleton.
    + apply (proj2 (H (siName sample_stored) (siMajor sample_stored) ci)).
      exists sample_stored. split; [left|]. split; [exact El|]. split; reflexivity.
  - vm_compute in El. injection El as <-. reflexivity.
Defined.

Lemma format_hint_reference_witness :
  formatHint (foldl hint_step (MkDevice 1 ∅ hintBSON false [])
    [Data FormatJSON; EmptyCache; Data FormatEmpty; Data FormatBSON]) = hintBSON.
Proof.
  rewrite (format_hint_reference (MkDevice 1 ∅ hintBSON false [])
    [Data FormatJSON; EmptyCache; Data FormatEmpty; Data FormatBSON] eq_refl).
  reflexivity.
Defined.

End Cache.
