(* ===== verification/Pipeline.v ===== *)
(** * The validation pipeline ([src/internal/engine/data.go])

    One inbound message on its shard: the realm is resolved, the topic
    classified, the device entry loaded, and a data publish is taken through
    introspection, ownership, endpoint match and payload decoding to one
    [PersistOp] in the shard's batch, or rejected and acknowledged. The
    payload package is used through its contract {!PayloadCodec.Codec.PayloadDecoder};
    store lookups are arguments. *)

From S2P Require Import Prelude GoStrings DeviceID SchemaTypes Endpoints InterfaceParse EndpointTrie Compile Broker Topics Float64 PayloadValue PayloadBson PayloadJson PayloadCodec Rows Batch Policy Triggers Cache.

Module Pipeline.
Import Schema Parse Trie Compile Payload Json Rows Batch Cache.

(** [broker.InboundMessage]; [Ack] is the identity of what it releases. *)
Record InboundMessage := MkMessage {
  mRealm : gostring;
  mDeviceID : DeviceID.ID;
  mTopic : gostring;
  mPayload : gostring;
  mQoS : Z;
  mReceivedAt : Z;
  mAck : nat;
}.

Definition reasonRealmUnknown : gostring := "realm_unknown"%go.
Definition reasonDeviceUnknown : gostring := "device_unknown"%go.
Definition reasonMalformedTopic : gostring := "malformed_topic"%go.
Definition reasonInterfaceNotDeclared : gostring := "interface_not_in_introspection"%go.
Definition reasonInterfaceNotInstalled : gostring := "interface_not_installed"%go.
Definition reasonOwnershipViolation : gostring := "ownership_violation"%go.
Definition reasonUnexpectedPath : gostring := "unexpected_path"%go.

(** The answer of a store lookup. *)
Inductive lookup_answer (A : Type) := Found (a : A) | NoRow | LookupFailed.
#[global] Arguments Found {A}.
#[global] Arguments NoRow {A}.
#[global] Arguments LookupFailed {A}.

(** The two store reads of [trackPrevious]. *)
Record reads := MkReads {
  GetProperty : prop_key -> lookup_answer Property;
  LatestIndividual : prop_key -> lookup_answer IndividualRow;
}.

(** ** Resolution *)

(** Why a publish yields no operation: a rejection with its reason, a decoder
    error without one (logged and acknowledged), or a panic in the decoder. *)
Inductive refusal := RejectWith (reason : gostring) | DecodeFault | DecodePanic.

Section Resolve.
Context `{Codec.PayloadDecoder}.
(** The key a range over a map yields first. *)
Variable first_key : gmap gostring CompiledMapping -> option gostring.

Definition objectPathOK (ci : CompiledInterface) (prefix : gostring) : bool :=
  match first_key (default ∅ (ObjectLeaves ci)) with
  | Some leaf =>
      match Match (Some (cTrie ci)) (prefix ++ "/"%char :: leaf) with Some _ => true | None => false end
  | None => false
  end.

Definition decoded {A} (r : result payload_error A) : result refusal A :=
  match r with
  | Ok x => Ok x
  | Err (Reject r) => Err (RejectWith (RejectReason_String r))
  | Err CallerBug => Err DecodeFault
  | Err AssertPanic => Err DecodePanic
  end.

(** What a data publish resolves to: the interface, the mapping (none for an
    object), the path and the decoded payload. *)
Record resolved := MkResolved {
  rIface : CompiledInterface;
  rMapping : option CompiledMapping;
  rDataPath : gostring;
  rPayload : Codec.DecodedPayload;
}.

(** The steps of [processData] up to the decoded payload. *)
Definition resolve (rs : realmSchema) (dev : deviceState) (rest payload : gostring)
    : result refusal resolved :=
  match Topics.matchInterface rest (declares dev) with
  | None => Err (RejectWith reasonInterfaceNotDeclared)
  | Some (name, path, ver) =>
      match iface (Some rs) name (Introspection.vMajor ver) with
      | None => Err (RejectWith reasonInterfaceNotInstalled)
      | Some ci =>
          if negb (bool_decide (cOwnership ci = OwnershipDevice))
          then Err (RejectWith reasonOwnershipViolation)
          else if bool_decide (cAggregation ci = AggregationObject) then
            if negb (objectPathOK ci path) then Err (RejectWith reasonUnexpectedPath)
            else
              let? dp := decoded (Codec.decode_object payload (default ∅ (ObjectLeaves ci))) in
              Ok (MkResolved ci None path dp)
          else
            match Match (Some (cTrie ci)) path with
            | None => Err (RejectWith reasonUnexpectedPath)
            | Some m =>
                let? dp := decoded (Codec.decode_individual payload (Some m)) in
                Ok (MkResolved ci (Some m) path dp)
            end
      end
  end.

Definition op_kind (ci : CompiledInterface) (dp : Codec.DecodedPayload) : OpKind :=
  if bool_decide (cType ci = Properties) && Codec.IsUnset dp then OpPropertyUnset
  else if bool_decide (cType ci = Properties) then OpPropertySet
  else if bool_decide (cAggregation ci = AggregationObject) then OpObject
  else OpIndividual.

Definition make_op (rs : realmSchema) (m : InboundMessage) (r : resolved) : PersistOp :=
  let dp := rPayload r in
  MkOp (op_kind (rIface r) dp) (mRealm m) (rsID rs) (mDeviceID m) (rIface r) (rMapping r)
    (rDataPath r) (Codec.dValue dp) (Codec.dFormat dp)
    (default (mReceivedAt m) (Codec.dTimestamp dp)) (mReceivedAt m) false false None (mAck m) false.

(** ** Previous values *)

Record prevSnap := MkSnap { snapExists : bool; snapJSON : option jtoken }.

(** The shard's batch: the operations and the chained snapshots. *)
Record batcher := MkBatcher {
  pending : list PersistOp;
  pendingPrev : gmap prop_key prevSnap;
}.

Context `{JSONText}.

Definition change_gate (op : PersistOp) : Triggers.DataEvent :=
  Triggers.MkDataEvent (DeviceID.String (DeviceID op)) [] (cName (Interface_ op))
    (cMajor (Interface_ op)) (Path op) None.

Definition watched (rs : realmSchema) (op : PersistOp) : bool :=
  existsb (fun tr => Triggers.TracksChanges tr (change_gate op)) (rsTriggers rs).

(** The value before this operation; [None] when the lookup degrades. *)
Definition previous (rd : reads) (prevs : gmap prop_key prevSnap) (op : PersistOp)
    : option prevSnap :=
  match prevs !! unset_key op with
  | Some snap => Some snap
  | None =>
      match Kind op with
      | OpPropertySet | OpPropertyUnset =>
          match GetProperty rd (unset_key op) with
          | Found p => Some (MkSnap true (Some (pValue p)))
          | NoRow => Some (MkSnap false None)
          | LookupFailed => None
          end
      | OpIndividual =>
          match LatestIndividual rd (unset_key op) with
          | Found r =>
              match prevIndividualJSON r with
              | Ok (js, found) => Some (MkSnap found (Some js))
              | Err _ => None
              end
          | NoRow => Some (MkSnap false None)
          | LookupFailed => None
          end
      | OpObject => Some (MkSnap false None) (* not reached: objects are not tracked *)
      end
  end.

Definition with_previous (op : PersistOp) (s : prevSnap) : PersistOp :=
  MkOp (Kind op) (Realm op) (RealmID op) (DeviceID op) (Interface_ op) (Mapping_ op) (Path op)
    (Value_ op) (Format_ op) (TS op) (ReceptionTS op) true (snapExists s) (snapJSON s)
    (ack op) (broken op).

Definition trackPrevious (rs : realmSchema) (rd : reads) (prevs : gmap prop_key prevSnap)
    (op : PersistOp) : gmap prop_key prevSnap * PersistOp :=
  if bool_decide (Kind op = OpObject) then (prevs, op)
  else if negb (watched rs op) then (prevs, op)
  else match encodeValueJSON (Value_ op) with
       | None => (prevs, op)
       | Some newJSON =>
           match previous rd prevs op with
           | None => (prevs, op)
           | Some s =>
               (<[unset_key op := MkSnap (negb (bool_decide (Kind op = OpPropertyUnset))) (Some newJSON)]> prevs,
                with_previous op s)
           end
       end.

(** ** One message *)

Inductive effect :=
| EffReject (reason : gostring)
| EffAck (id : nat)
| EffFault
| EffPanic
| EffHint (hint : gostring)
| EffUnhandled (kind : Topics.topicKind)
| EffFlush
| EffHandler (kind : Topics.topicKind) (subpath : gostring).

Definition reject (m : InboundMessage) (reason : gostring) : list effect :=
  [EffReject reason; EffAck (mAck m)].

Definition processData (rs : realmSchema) (rd : reads) (dev : deviceState) (b : batcher)
    (m : InboundMessage) (rest : gostring) : deviceState * batcher * list effect :=
  match resolve rs dev rest (mPayload m) with
  | Err (RejectWith reason) => (dev, b, reject m reason)
  | Err DecodeFault => (dev, b, [EffFault; EffAck (mAck m)])
  | Err DecodePanic => (dev, b, [EffPanic])
  | Ok r =>
      let '(dev, flip) := noteFormat dev (Codec.dFormat (rPayload r)) in
      let '(prevs, op) := trackPrevious rs rd (pendingPrev b) (make_op rs m r) in
      (dev, MkBatcher (pending b ++ [op]) prevs, map EffHint (option_list flip))
  end.

(** The device entry: loaded, unknown to the store, or given up at shutdown. *)
Inductive device_outcome := DevLoaded (d : deviceState) | DevUnknown | DevAbandoned.

(** The retry loop of [deviceState]; [rows] and [quit] are indexed by the attempt. *)
Fixpoint deviceState_loop (fuel : nat) (c : deviceCache) (realm : gostring) (realmID : Z)
    (id : gostring) (rows : nat -> result load_error Device) (quit : nat -> bool) (attempt : nat)
    : option (deviceCache * device_outcome) :=
  match fuel with
  | O => None
  | S fuel =>
      match get c realm realmID id (rows attempt) with
      | (c, Ok d) => Some (c, DevLoaded d)
      | (c, Err ErrNotFound) => Some (c, DevUnknown)
      | (c, Err LoadFailed) =>
          if quit attempt then Some (c, DevAbandoned)
          else deviceState_loop fuel c realm realmID id rows quit (S attempt)
      end
  end.

(** Which handler seams are wired. *)
Definition wired : Type := Topics.topicKind -> bool.

Record shard_state := MkShard { devices : deviceCache; batch : batcher }.

(** The environment of one message: the realm the schema cache resolved, the
    store's reads, the device load and the wiring. *)
Record message_env := MkEnv {
  envRealm : option realmSchema;
  envReads : reads;
  envFuel : nat;
  envRows : nat -> result load_error Device;
  envQuit : nat -> bool;
  envWired : wired;
}.

Definition handle (env : message_env) (st : shard_state) (m : InboundMessage)
    : option (shard_state * list effect) :=
  match envRealm env with
  | None => Some (st, reject m reasonRealmUnknown)
  | Some rs =>
      match Topics.splitDeviceTopic (mTopic m) (mRealm m) (mDeviceID m) with
      | None => Some (st, reject m reasonMalformedTopic)
      | Some rest =>
          let '(kind, subpath) := Topics.classify rest in
          if bool_decide (kind <> Topics.kindData) then
            if envWired env kind then Some (st, [EffFlush; EffHandler kind subpath])
            else Some (st, [EffUnhandled kind; EffAck (mAck m)])
          else
            match deviceState_loop (envFuel env) (devices st) (mRealm m) (rsID rs) (mDeviceID m)
                    (envRows env) (envQuit env) 0 with
            | None => None
            | Some (c, DevUnknown) => Some (MkShard c (batch st), reject m reasonDeviceUnknown)
            | Some (c, DevAbandoned) => Some (MkShard c (batch st), [])
            | Some (c, DevLoaded dev) =>
                let '(dev, b, effs) := processData rs (envReads env) dev (batch st) m rest in
                Some (MkShard (<[(mRealm m, mDeviceID m) := dev]> c) b, effs)
            end
      end
  end.

End Resolve.

(** ** Resolution does not depend on the map order *)

(** Documented behaviour of a range over a map: some key of it comes first. *)
Definition ranges (first_key : gmap gostring CompiledMapping -> option gostring) : Prop :=
  forall m, match first_key m with Some k => is_Some (m !! k) | None => m = ∅ end.

Lemma object_table ci :
  installed ci -> cAggregation ci = AggregationObject ->
  exists P table, ObjectLeaves ci = Some table /\ table <> ∅ /\
    forall leaf prefix, is_Some (table !! leaf) ->
      is_Some (Match (Some (cTrie ci)) (prefix ++ "/"%char :: leaf)) <-> prefix_accepts P prefix.
Proof.
  intros (i & ids & Hwf & Hc) Hagg. pose proof (compile_header _ _ _ Hc) as (_ & _ & _ & Ha & _).
  pose proof (compile_leaves_contract _ _ _ Hwf Hc) as Hlv. unfold leaves_contract in Hlv.
  destruct (ObjectLeaves ci) as [table|] eqn:Et; [|congruence].
  destruct (object_paths _ _ _ _ Hwf Hc Et) as (P & attrs & Hms & HP).
  exists P, table. split; [done|]. split; [|done]. intros ->. destruct Hlv as (_ & Htab & _).
  destruct (Mappings i) as [|m ms] eqn:Em; [pose proof (wf_count _ Hwf) as Hcnt; rewrite Em in Hcnt; simpl in Hcnt; lia|].
  apply Forall_cons in Hms as [[_ [l Hl]] _].
  destruct (compile_ids i ids ci m Hc) as [id Hid]; [rewrite Em; left|].
  assert ((∅ : gmap gostring CompiledMapping) !! l = Some (compile_mapping id m)) as Hx.
  { apply Htab. exists m, id. split; [left|]. split; [|done].
    apply (lastLiteralSegment_spec _ _ _ Hl). apply last_snoc. }
  by rewrite lookup_empty in Hx.
Qed.

Lemma objectPathOK_spec ci :
  installed ci -> cAggregation ci = AggregationObject ->
  exists P table, ObjectLeaves ci = Some table /\ table <> ∅ /\
    forall first_key prefix, ranges first_key ->
      objectPathOK first_key ci prefix = true <-> prefix_accepts P prefix.
Proof.
  intros Hi Ha. destruct (object_table ci Hi Ha) as (P & table & Et & Hne & HP).
  exists P, table. split; [done|]. split; [done|]. intros first_key prefix Hr. unfold objectPathOK.
  rewrite Et. change (default ∅ (Some table)) with table. specialize (Hr table).
  destruct (first_key table) as [leaf|]; [|done].
  rewrite <- (HP leaf prefix Hr). destruct (Match _ _) as [m|]; [by split; [eexists|]|].
  split; [done|]. by intros [? ?].
Qed.

Section Accepted.
Context `{Hdec : Codec.PayloadDecoder}.
Variable rs : realmSchema.
Hypothesis Hrs : realm_ok rs.

(** The publish [payload] on [rest] is one the platform accepts as [r]: the
    longest declared interface name is installed at the declared major and
    owned by the device, the path is one of its endpoints (or, for an object,
    a path its endpoints extend by one level), and the payload decodes. *)
Definition accepts_publish (dev : deviceState) (rest payload : gostring) (r : resolved) : Prop :=
  exists k ver, Topics.best_prefix rest (length rest) (declares dev) k ver /\
    iface (Some rs) (take k rest) (Introspection.vMajor ver) = Some (rIface r) /\
    cOwnership (rIface r) = OwnershipDevice /\ rDataPath r = drop k rest /\
    match cAggregation (rIface r) with
    | AggregationObject =>
        rMapping r = None /\
        (exists leaf, is_Some (Match (Some (cTrie (rIface r))) (rDataPath r ++ "/"%char :: leaf)) /\
           is_Some (default ∅ (ObjectLeaves (rIface r)) !! leaf)) /\
        Codec.decode_object payload (default ∅ (ObjectLeaves (rIface r))) = Ok (rPayload r)
    | AggregationIndividual =>
        exists m, rMapping r = Some m /\ Match (Some (cTrie (rIface r))) (rDataPath r) = Some m /\
          Codec.decode_individual payload (Some m) = Ok (rPayload r)
    end.

Lemma decoded_Ok {A} (x : result payload_error A) a : decoded x = Ok a <-> x = Ok a.
Proof. destruct x as [|[]]; simpl; naive_solver. Qed.

Lemma objectPathOK_some first_key ci prefix :
  ranges first_key -> installed ci -> cAggregation ci = AggregationObject ->
  objectPathOK first_key ci prefix = true <->
  exists leaf, is_Some (Match (Some (cTrie ci)) (prefix ++ "/"%char :: leaf)) /\
    is_Some (default ∅ (ObjectLeaves ci) !! leaf).
Proof.
  intros Hr Hi Ha. destruct (object_table ci Hi Ha) as (P & table & Et & Hne & HP).
  unfold objectPathOK. rewrite Et. change (default ∅ (Some table)) with table. specialize (Hr table).
  destruct (first_key table) as [leaf|]; [|done]. split.
  - intros Hm. exists leaf. split; [|done]. destruct (Match _ _); [by eexists|done].
  - intros (leaf' & Hm & Hl). rewrite (HP leaf' prefix Hl), <- (HP leaf prefix Hr) in Hm.
    by destruct Hm as [m ->].
Qed.

Lemma resolve_exact first_key dev rest payload r :
  ranges first_key ->
  resolve first_key rs dev rest payload = Ok r <-> accepts_publish dev rest payload r.
Proof.
  intros Hr. unfold resolve, accepts_publish, Topics.matchInterface.
  assert (forall n p v, Topics.match_interface_loop (S (length rest)) rest (length rest) (declares dev) = Some (n, p, v) <->
    exists k, Topics.best_prefix rest (length rest) (declares dev) k v /\ n = take k rest /\ p = drop k rest) as Hmatch.
  { intros n p v. apply Topics.match_interface_loop_spec; [lia|lia|by left]. }
  destruct (Topics.match_interface_loop (S (length rest)) rest (length rest) (declares dev)) as [[[n p] v]|] eqn:E.
  2: { split; [done|]. intros (k & v & Hb & _).
       assert (None = Some (take k rest, drop k rest, v)) as Hx by (apply Hmatch; eauto). done. }
  pose proof (proj1 (Hmatch n p v) eq_refl) as (k & Hb & -> & ->).
  assert (forall k' v', Topics.best_prefix rest (length rest) (declares dev) k' v' ->
    take k' rest = take k rest /\ drop k' rest = drop k rest /\ v' = v) as Huniq.
  { intros k' v' Hb'. assert (Some (take k rest, drop k rest, v) = Some (take k' rest, drop k' rest, v')) as Hx.
    { apply Hmatch. eauto. } by injection Hx as -> -> ->. }
  destruct (iface (Some rs) (take k rest) (Introspection.vMajor v)) as [ci|] eqn:Ei.
  2: { split; [done|]. intros (k' & v' & Hb' & Hi & _). destruct (Huniq _ _ Hb') as (E1 & _ & ->). congruence. }
  destruct (Hrs _ _ _ Ei) as (Hinst & _).
  assert (forall Q : Prop, (cOwnership ci = OwnershipDevice -> rIface r = ci -> rDataPath r = drop k rest -> Q) ->
    (exists k' v', Topics.best_prefix rest (length rest) (declares dev) k' v' /\
      iface (Some rs) (take k' rest) (Introspection.vMajor v') = Some (rIface r) /\
      cOwnership (rIface r) = OwnershipDevice /\ rDataPath r = drop k' rest) -> Q) as Hinv.
  { intros Q HQ (k' & v' & Hb' & Hi & Ho & Hp). destruct (Huniq _ _ Hb') as (E1 & E2 & ->).
    rewrite E1, Ei in Hi. injection Hi as Hi. rewrite <- Hi, E2 in *. auto. }
  case_bool_decide as Ho; cbn [negb].
  2: { split; [done|]. intros (k' & v' & H1 & H2 & H3 & H4 & _). exfalso.
       apply (Hinv False); [done|by exists k', v']. }
  case_bool_decide as Ha; cbn [negb].
  - destruct (objectPathOK first_key ci (drop k rest)) eqn:Ep; cbn [negb].
    + rewrite bindR_Ok. setoid_rewrite decoded_Ok. split.
      * intros (dp & Hd & [= <-]). exists k, v. simpl. split_and!; try done. rewrite Ha.
        split; [done|]. split; [|done]. by apply (objectPathOK_some first_key).
      * intros (k' & v' & H1 & H2 & H3 & H4 & H5). apply Hinv; [|by exists k', v'].
        intros _ Hri Hrp. rewrite Hri, Ha in H5. destruct H5 as (Hm & _ & Hd).
        exists (rPayload r). split; [done|]. destruct r. simpl in *. congruence.
    + split; [done|]. intros (k' & v' & H1 & H2 & H3 & H4 & H5). apply Hinv; [|by exists k', v'].
      intros _ Hri Hrp. rewrite Hri, Ha in H5. destruct H5 as (_ & Hm & _). rewrite Hrp in Hm.
      apply (objectPathOK_some first_key) in Hm; [congruence|done..].
  - destruct (cAggregation ci) eqn:Eagg; [|done].
    destruct (Match (Some (cTrie ci)) (drop k rest)) as [m|] eqn:Em.
    + rewrite bindR_Ok. setoid_rewrite decoded_Ok. split.
      * intros (dp & Hd & [= <-]). exists k, v. simpl. split_and!; try done. rewrite Eagg. eauto.
      * intros (k' & v' & H1 & H2 & H3 & H4 & H5). apply Hinv; [|by exists k', v'].
        intros _ Hri Hrp. rewrite Hri, Eagg in H5. destruct H5 as (m' & Hm & Hmm & Hd).
        rewrite Hrp, Em in Hmm. injection Hmm as <-.
        exists (rPayload r). split; [done|]. destruct r. simpl in *. congruence.
    + split; [done|]. intros (k' & v' & H1 & H2 & H3 & H4 & H5). apply Hinv; [|by exists k', v'].
      intros _ Hri Hrp. rewrite Hri, Eagg in H5. destruct H5 as (m' & _ & Hmm & _). congruence.
Qed.

(** ** What an accepted publish becomes *)

Lemma match_installed ci path m :
  installed ci -> Match (Some (cTrie ci)) path = Some m ->
  exists mp id, m = compile_mapping id mp /\ wf_mapping (cType ci) mp.
Proof.
  intros (i & ids & Hwf & Hc) Hm. pose proof (compile_header _ _ _ Hc) as (_ & _ & -> & _).
  apply (proj1 (compile_match_contract _ _ _ Hwf Hc)) in Hm as (mp & id & Hin & _ & _ & ->).
  exists mp, id. split; [done|]. pose proof (wf_mappings _ Hwf) as Hms. rewrite Forall_forall in Hms. auto.
Qed.

Lemma installed_object ci : installed ci -> cAggregation ci = AggregationObject -> cType ci = Datastream.
Proof.
  intros (i & ids & Hwf & Hc) Ha. pose proof (compile_header _ _ _ Hc) as (_ & _ & Ht & Hg & _).
  rewrite Ht. destruct (IType i) eqn:E; [done|]. pose proof (wf_properties _ Hwf E). congruence.
Qed.

(** The operation of an accepted publish. *)
Record op_contract (dev : deviceState) (m : InboundMessage) (op : PersistOp) : Prop := {
  oc_typed : op_typed op;
  oc_fresh : broken op = false;
  oc_ack : ack op = mAck m;
  oc_realm : RealmID op = rsID rs;
  oc_device : DeviceID op = mDeviceID m;
  oc_iface : iface (Some rs) (cName (Interface_ op)) (cMajor (Interface_ op)) = Some (Interface_ op);
  oc_declared : exists v, declares dev (cName (Interface_ op)) = Some v /\ Introspection.vMajor v = cMajor (Interface_ op);
  oc_owner : cOwnership (Interface_ op) = OwnershipDevice;
  oc_kind : (Kind op = OpPropertySet \/ Kind op = OpPropertyUnset) <-> cType (Interface_ op) = Properties;
  oc_path : forall mp, Mapping_ op = Some mp -> Match (Some (cTrie (Interface_ op))) (Path op) = Some mp;
  oc_reception : ReceptionTS op = mReceivedAt m;
  oc_ts : forall mp, Mapping_ op = Some mp ->
    if cExplicitTimestamp mp && bool_decide (Kind op <> OpPropertyUnset)
    then valid_scalar DateTime (STime (TS op)) else TS op = mReceivedAt m;
}.

Lemma make_op_contract dev rest m r :
  accepts_publish dev rest (mPayload m) r -> op_contract dev m (make_op rs m r).
Proof.
  intros (k & ver & (_ & _ & Hdecl & _) & Hi & Ho & Hp & Hagg). destruct (Hrs _ _ _ Hi) as (Hinst & Hn & Hmj).
  assert (iface (Some rs) (cName (rIface r)) (cMajor (rIface r)) = Some (rIface r)) as Hif by congruence.
  assert (exists v, declares dev (cName (rIface r)) = Some v /\ Introspection.vMajor v = cMajor (rIface r)) as Hd.
  { exists ver. by rewrite Hn. }
  destruct (cAggregation (rIface r)) eqn:Ea.
  - destruct Hagg as (mp & Hm & Hmm & Hdp). apply Codec.decode_individual_ok in Hdp.
    destruct (match_installed _ _ _ Hinst Hmm) as (mp0 & id & Emp & Hwf).
    assert (cType (rIface r) = Datastream -> Codec.dValue (rPayload r) <> None) as Hsome.
    { intros Ht Hv. rewrite Ht in Hwf. destruct Hwf as (_ & _ & Hu & _).
      unfold Codec.individual_ok in Hdp. rewrite Hv in Hdp. destruct Hdp as [Hdp _].
      rewrite Emp in Hdp. simpl in Hdp. congruence. }
    unfold Codec.individual_ok in Hdp.
    split; try done; unfold make_op, op_typed, op_kind, Codec.IsUnset; cbn [Kind Mapping_ Value_ TS Interface_ Path].
    + rewrite Ea. destruct (cType (rIface r)) eqn:Et, (Codec.dValue (rPayload r)) as [v|] eqn:Ev;
        cbn; [|by destruct Hsome|..]; try done; exists mp, v; by destruct Hdp.
    + rewrite Ea. destruct (cType (rIface r)) eqn:Et, (Codec.dValue (rPayload r)) as [v|]; cbn; naive_solver.
    + intros mp' E. rewrite Hm in E. by injection E as <-.
    + rewrite Hm. intros mp' [= <-]. rewrite Ea.
      destruct (cType (rIface r)) eqn:Et, (Codec.dValue (rPayload r)) as [v|] eqn:Ev; cbn;
        [|by destruct Hsome|..]; destruct (cExplicitTimestamp mp) eqn:Ex; cbn;
        try (by destruct Hdp as [_ ->]); destruct Hdp as [_ (t & -> & Ht)]; done.
  - destruct Hagg as (Hm & _ & Hdp). apply Codec.decode_object_ok in Hdp as (o & Hv & _ & Hvo & _ & _).
    pose proof (installed_object _ Hinst Ea) as Ht.
    split; try done; unfold make_op, op_typed, op_kind, Codec.IsUnset; cbn [Kind Mapping_ Value_ TS Interface_ Path];
      rewrite ?Ht, ?Ea, ?Hv, ?Hm; cbn; try done; [by eexists _, o|naive_solver].
Qed.

(** Annotating an operation with its previous value changes nothing else. *)
Lemma trackPrevious_cases `{JSONText} rd prevs op :
  (trackPrevious rs rd prevs op).2 = op \/
  exists s, (trackPrevious rs rd prevs op).2 = with_previous op s.
Proof.
  unfold trackPrevious. case_bool_decide; [by left|]. destruct (negb (watched rs op)); [by left|].
  destruct (encodeValueJSON (Value_ op)); [|by left]. destruct (previous rd prevs op); [right; by eexists|by left].
Qed.

Lemma op_contract_annotated dev m op s : op_contract dev m op -> op_contract dev m (with_previous op s).
Proof. intros []. by split. Qed.

Definition eff_acks (effs : list effect) : list nat :=
  omap (fun e => match e with EffAck a => Some a | _ => None end) effs.

(** A rejection names one of the documented reasons. *)
Definition reject_reasons : list gostring :=
  [reasonInterfaceNotDeclared; reasonInterfaceNotInstalled; reasonOwnershipViolation; reasonUnexpectedPath]
  ++ map RejectReason_String [ReasonTooLarge; ReasonUnknownFormat; ReasonMalformed; ReasonNoValue;
       ReasonBadTimestamp; ReasonTypeMismatch; ReasonValueTooLarge; ReasonBadObject;
       ReasonUnsetNotAllowed; ReasonMissingRequired].

Lemma decode_reason r : RejectReason_String r ∈ reject_reasons.
Proof. unfold reject_reasons. apply elem_of_app. right. destruct r; cbn [map]; set_solver. Qed.

(** Every refusal is a rejection with a documented reason: the decoder is
    called so that it neither panics nor fails without one. *)
Lemma resolve_rejects first_key dev rest payload e :
  ranges first_key ->
  resolve first_key rs dev rest payload = Err e -> exists reason, e = RejectWith reason /\ reason ∈ reject_reasons.
Proof.
  intros Hr. unfold resolve. destruct (Topics.matchInterface _ _) as [[[n p] v]|].
  2: { intros [= <-]. eexists. split; [done|]. by left. }
  destruct (iface (Some rs) n (Introspection.vMajor v)) as [ci|] eqn:Ei.
  2: { intros [= <-]. eexists. split; [done|]. right. left. }
  destruct (Hrs _ _ _ Ei) as (Hinst & _).
  case_bool_decide as Ho; cbn [negb].
  2: { intros [= <-]. eexists. split; [done|]. do 2 right. left. }
  assert (forall A (x : result payload_error A) e, Codec.rejecting x -> decoded x = Err e ->
    exists reason, e = RejectWith reason /\ reason ∈ reject_reasons) as Hdec'.
  { intros A x e0 Hx. destruct x as [a|e1]; [done|]. destruct (Hx _ eq_refl) as [reason ->].
    intros [= <-]. eexists. split; [done|]. apply decode_reason. }
  case_bool_decide as Ha; cbn [negb].
  - destruct (objectPathOK first_key ci p); cbn [negb].
    2: { intros [= <-]. eexists. split; [done|]. do 3 right. left. }
    destruct (object_table ci Hinst Ha) as (P & table & Et & Hne & _). rewrite Et.
    change (default ∅ (Some table)) with table.
    intros [Hx|(dp & _ & Hx)]%bindR_Err; [|done]. eapply Hdec'; [|exact Hx]. by apply Codec.decode_object_rejects.
  - destruct (Match (Some (cTrie ci)) p) as [m|].
    + intros [Hx|(dp & _ & Hx)]%bindR_Err; [|done]. eapply Hdec'; [|exact Hx]. apply Codec.decode_individual_rejects.
    + intros [= <-]. eexists. split; [done|]. do 3 right. left.
Qed.

(** One publish: refused and acknowledged now, or one operation that will be. *)
Lemma processData_cases `{JSONText} first_key rd dev b m rest dev' b' effs :
  ranges first_key -> processData first_key rs rd dev b m rest = (dev', b', effs) ->
  ((exists reason, reason ∈ reject_reasons /\ effs = reject m reason) /\ b' = b /\ dev' = dev /\
     (forall r, ~ accepts_publish dev rest (mPayload m) r)) \/
  (exists r op, accepts_publish dev rest (mPayload m) r /\ pending b' = pending b ++ [op] /\
     op_contract dev m op /\ eff_acks effs = [] /\ introspection dev' = introspection dev).
Proof.
  intros Hr. unfold processData. destruct (resolve first_key rs dev rest (mPayload m)) as [r|e] eqn:E.
  - apply resolve_exact in E; [|done]. destruct (noteFormat dev (Codec.dFormat (rPayload r))) as [d flip] eqn:En.
    destruct (trackPrevious rs rd (pendingPrev b) (make_op rs m r)) as [prevs op] eqn:Et.
    intros [= <- <- <-]. right. exists r, op. split; [done|]. split; [done|]. split_and!.
    + pose proof (trackPrevious_cases rd (pendingPrev b) (make_op rs m r)) as Hc. rewrite Et in Hc. simpl in Hc.
      pose proof (make_op_contract _ _ _ _ E) as Hm.
      destruct Hc as [->|[s ->]]; [done|]. by apply op_contract_annotated.
    + by destruct flip.
    + unfold noteFormat in En. destruct (Codec.dFormat (rPayload r)); try (by injection En as <- _).
      * destruct (resetHintOnBSON dev); [|by injection En as <- _]. case_decide; by injection En as <- _.
      * case_decide; by injection En as <- _.
  - assert (forall r, ~ accepts_publish dev rest (mPayload m) r) as Hno.
    { intros r Hx. apply (resolve_exact first_key) in Hx; [|done]. congruence. }
    destruct (resolve_rejects _ _ _ _ _ Hr E) as (reason & -> & Hin). intros [= <- <- <-]. left. eauto 10.
Qed.

End Accepted.

(** ** A run of publishes and the flush that follows *)

(** A publish as the shard meets it: the realm's schema, the store reads it
    sees, the state of its device, the message and the topic below the device
    root. Messages of one shard come from many devices and realms. *)
Record publish := MkPublish {
  puRealm : realmSchema;
  puReads : reads;
  puDevice : deviceState;
  puMessage : InboundMessage;
  puRest : gostring;
}.

Section Ingest.
Context `{Hdec : Codec.PayloadDecoder, Htext : JSONText}.
Variable (first_key : gmap gostring CompiledMapping -> option gostring).
Hypothesis (Hfk : ranges first_key).

(** The publishes a shard handles between two flushes. *)
Fixpoint process_all (b : batcher) (ms : list publish) : batcher * list effect :=
  match ms with
  | [] => (b, [])
  | x :: ms =>
      let '(_, b, effs) := processData first_key (puRealm x) (puReads x) (puDevice x) b (puMessage x) (puRest x) in
      let '(b, effs') := process_all b ms in
      (b, effs ++ effs')
  end.

Lemma eff_acks_app x y : eff_acks (x ++ y) = eff_acks x ++ eff_acks y.
Proof. apply omap_app. Qed.

(** What the batch holds: validated operations the flush has not seen. *)
Definition batch_valid (ops : list PersistOp) : Prop := Forall (fun op => op_typed op /\ broken op = false) ops.

(** Every message is either acknowledged or waits in the batch, and the batch
    holds validated operations only. *)
Lemma process_all_accounts ms b b' effs :
  Forall (fun x => realm_ok (puRealm x)) ms -> process_all b ms = (b', effs) ->
  exists ops, pending b' = pending b ++ ops /\ batch_valid ops /\
    eff_acks effs ++ map ack ops ≡ₚ map (fun x => mAck (puMessage x)) ms.
Proof.
  intros Hms. revert b b' effs. induction Hms as [|[rs rd dev m rest] ms Hrs _ IH]; intros b b' effs; simpl.
  { intros [= <- <-]. exists []. rewrite app_nil_r. split_and!; [done|constructor|done]. }
  destruct (processData first_key rs rd dev b m rest) as [[d1 b1] e1] eqn:E1.
  destruct (process_all b1 ms) as [b2 e2] eqn:E2. intros [= <- <-].
  apply IH in E2 as (ops & Hp & Hf & Hperm).
  apply (processData_cases rs Hrs) in E1; [|done].
  destruct E1 as [((reason & _ & ->) & -> & _)|(r & op & _ & Hp1 & Hc & Ha & _)].
  - exists ops. split; [done|]. split; [done|]. simpl. by rewrite Hperm.
  - exists (op :: ops). rewrite Hp, Hp1, <- (assoc_L (++)). split; [done|].
    split; [constructor; [by destruct Hc|done]|].
    rewrite eff_acks_app, Ha. simpl. rewrite (oc_ack _ _ _ _ Hc). rewrite <- Permutation_middle. by rewrite Hperm.
Qed.

End Ingest.

(** ** Snapshots inside one batch *)

Section Snapshots.
Context `{JSONText}.
Variables (rs : realmSchema) (st : store).

(** Reads of the store while the batch is pending: each answers with the
    stored property or fails. *)
Definition reads_store (rd : reads) : Prop :=
  forall k, GetProperty rd k = LookupFailed \/
    GetProperty rd k = match sProps st !! k with Some p => Found p | None => NoRow end.

(** The annotations a batch gets, one operation after the other, each with the
    reads it makes. *)
Fixpoint track_all (prevs : gmap prop_key prevSnap) (ops : list (reads * PersistOp))
    : gmap prop_key prevSnap * list PersistOp :=
  match ops with
  | [] => (prevs, [])
  | (rd, op) :: ops =>
      let '(prevs, op) := trackPrevious rs rd prevs op in
      let '(prevs, ops) := track_all prevs ops in
      (prevs, op :: ops)
  end.

(** An operation the pipeline makes for this realm. *)
Definition realm_op (op : PersistOp) : Prop :=
  op_typed op /\ broken op = false /\ RealmID op = rsID rs /\
  iface (Some rs) (cName (Interface_ op)) (cMajor (Interface_ op)) = Some (Interface_ op) /\
  ((Kind op = OpPropertySet \/ Kind op = OpPropertyUnset) <-> cType (Interface_ op) = Properties).

(** The storage identifier determines the interface. *)
Definition ids_determine : Prop :=
  forall n m ci n' m' ci', iface (Some rs) n m = Some ci -> iface (Some rs) n' m' = Some ci' ->
    ID ci = ID ci' -> ci = ci'.
Hypothesis Hids : ids_determine.

Definition prop_op (op : PersistOp) : Prop := Kind op = OpPropertySet \/ Kind op = OpPropertyUnset.

(** A snapshot tells the property's value. *)
Definition tells (m : gmap prop_key Property) (k : prop_key) (ex : bool) (js : option jtoken) : Prop :=
  match m !! k with
  | Some p => ex = true /\ js = Some (pValue p)
  | None => ex = false
  end.

(** The last operation on a key, if any, was tracked. *)
Definition fresh (done : list PersistOp) (k : prop_key) : Prop :=
  match last (filter (fun x => unset_key x = k) done) with Some x => Tracked x = true | None => True end.

Definition chained (prevs : gmap prop_key prevSnap) (done : list PersistOp) : Prop :=
  forall o, realm_op o -> prop_op o -> watched rs o = true -> fresh done (unset_key o) ->
    match prevs !! unset_key o with
    | Some s => tells (foldl apply_prop (sProps st) done) (unset_key o) (snapExists s) (snapJSON s)
    | None => foldl apply_prop (sProps st) done !! unset_key o = sProps st !! unset_key o
    end.

Lemma fresh_snoc done x k :
  fresh (done ++ [x]) k <-> if decide (unset_key x = k) then Tracked x = true else fresh done k.
Proof.
  unfold fresh. rewrite filter_app. destruct (decide (unset_key x = k)) as [E|E].
  - by rewrite filter_cons_True, filter_nil, last_snoc.
  - by rewrite filter_cons_False, filter_nil, app_nil_r.
Qed.

Lemma same_key_same_watch x o :
  realm_op x -> realm_op o -> unset_key x = unset_key o ->
  Interface_ x = Interface_ o /\ watched rs x = watched rs o /\ (prop_op x <-> prop_op o).
Proof.
  intros (_ & _ & _ & Hx & Kx) (_ & _ & _ & Ho & Ko) [= _ Hd Hid Hp].
  assert (Interface_ x = Interface_ o) as Hi by (by eapply Hids).
  split; [done|]. split.
  - unfold watched, change_gate. by rewrite Hi, Hd, Hp.
  - unfold prop_op. rewrite Kx, Ko. by rewrite Hi.
Qed.

(** What a property operation does at its own key, and elsewhere. *)
Lemma prop_effect x m :
  realm_op x -> prop_op x ->
  exists js, encodeValueJSON (Value_ x) = Some js /\
    tells (apply_prop m x) (unset_key x) (negb (bool_decide (Kind x = OpPropertyUnset))) (Some js).
Proof.
  intros (Ht & Hb & _) Hp. unfold tells. rewrite apply_prop_lookup. unfold prop_target, plan_of.
  rewrite Hb. unfold op_typed in Ht. destruct Hp as [Hk|Hk]; rewrite Hk in *.
  - destruct Ht as (mp & v & Hm & Hv & Hval). destruct (encode_valid _ _ Hval) as [js Hjs].
    exists js. rewrite Hv. split; [done|]. unfold propertyRow. rewrite Hv, Hjs, Hm. cbn [plan_row].
    by rewrite decide_True.
  - rewrite Ht. exists JNull. split; [done|]. by rewrite decide_True.
Qed.

Lemma other_key x m k : unset_key x <> k -> apply_prop m x !! k = m !! k.
Proof.
  intros Hk. rewrite apply_prop_lookup. rewrite decide_False; [done|]. unfold prop_target, plan_of.
  destruct (broken x); [done|]. destruct (Kind x); try done.
  - unfold individualRow. destruct (Mapping_ x); [|done]. destruct (IsArray _); [by destruct (encodeValueJSON _)|].
    destruct (cValueType _), (Value_ x) as [[[]| |]|]; done.
  - unfold objectRow. destruct (Value_ x) as [[| |]|]; try done. by destruct (encodeValueJSON _).
  - unfold propertyRow. destruct (encodeValueJSON _); [|done]. destruct (Mapping_ x); [|done].
    cbn [plan_row]. intros [= E]. apply Hk. by rewrite <- E.
  - cbn [plan_row]. intros [= E]. done.
Qed.

(** The snapshot an operation is given. *)
Lemma previous_tells rd prevs done x s :
  reads_store rd -> chained prevs done -> realm_op x -> prop_op x -> watched rs x = true -> fresh done (unset_key x) ->
  previous rd prevs x = Some s ->
  tells (foldl apply_prop (sProps st) done) (unset_key x) (snapExists s) (snapJSON s).
Proof.
  intros Hrd Hc Hx Hp Hw Hfr. specialize (Hc x Hx Hp Hw Hfr). unfold previous.
  destruct (prevs !! unset_key x) as [s'|]; [by intros [= <-]|].
  unfold tells in *. rewrite Hc. specialize (Hrd (unset_key x)).
  destruct Hp as [-> | ->]; destruct Hrd as [-> | ->]; try done;
    destruct (sProps st !! unset_key x) as [p|]; by intros [= <-].
Qed.

(** Only a failed lookup gives none. *)
Lemma previous_fails rd prevs x : prop_op x -> previous rd prevs x = None -> GetProperty rd (unset_key x) = LookupFailed.
Proof.
  intros Hp. unfold previous. destruct (prevs !! unset_key x); [done|].
  destruct Hp as [-> | ->]; by destruct (GetProperty rd (unset_key x)).
Qed.

Lemma realm_op_annotated op s : realm_op op -> realm_op (with_previous op s).
Proof. done. Qed.

Lemma apply_annotated m op s : apply_prop m (with_previous op s) = apply_prop m op.
Proof. reflexivity. Qed.

(** One step of the chain. *)
Lemma track_step rd prevs done x prevs' x' :
  reads_store rd -> chained prevs done -> realm_op x -> Tracked x = false ->
  trackPrevious rs rd prevs x = (prevs', x') ->
  chained prevs' (done ++ [x']) /\ unset_key x' = unset_key x /\ Kind x' = Kind x /\
  (prop_op x -> watched rs x = true ->
     (Tracked x' = false -> GetProperty rd (unset_key x) = LookupFailed) /\
     (Tracked x' = true -> fresh done (unset_key x) ->
      tells (foldl apply_prop (sProps st) done) (unset_key x) (PrevExists x') (Prev x'))).
Proof.
  intros Hrd Hc Hx Hnt. unfold trackPrevious.
  (* an operation without a snapshot, or not of a watched property *)
  assert (forall prevs1, (prop_op x -> watched rs x = true -> prevs1 = prevs) ->
    (forall k, k <> unset_key x -> prevs1 !! k = prevs !! k) -> chained prevs1 (done ++ [x])) as Hkeep.
  { intros prevs1 Hp1 Hold o Ho Hpo Hwo. rewrite fresh_snoc, foldl_snoc. case_decide as E; [congruence|]. intros Hfr.
    rewrite Hold by congruence. specialize (Hc o Ho Hpo Hwo Hfr). unfold tells in *.
    rewrite (other_key x) by done. done. }
  destruct (bool_decide_reflect (Kind x = OpObject)) as [Hobj|Hobj].
  { intros [= <- <-]. split_and!; [by apply Hkeep|done|done|]. intros [Hp|Hp]; congruence. }
  destruct (watched rs x) eqn:Hw; cbn [negb].
  2: { intros [= <- <-]. split_and!; [by apply Hkeep|done|done|done]. }
  destruct (encodeValueJSON (Value_ x)) as [js|] eqn:Hjs.
  2: { intros [= <- <-]. split_and!; [by apply Hkeep|done|done|].
       intros Hp; destruct (prop_effect x ∅ Hx Hp) as (js & E & _); congruence. }
  destruct (previous rd prevs x) as [s|] eqn:Hprev.
  2: { intros [= <- <-]. split_and!; [by apply Hkeep|done|done|]. intros Hp _. split; [|congruence].
       intros _. by eapply previous_fails. }
  intros [= <- <-]. split_and!; try done.
  - intros o Ho Hpo Hwo. rewrite fresh_snoc, foldl_snoc, apply_annotated. change (unset_key (with_previous x s)) with (unset_key x).
    case_decide as E.
    + intros _. rewrite <- E, lookup_insert_eq. cbn [snapExists snapJSON].
      destruct (same_key_same_watch x o Hx Ho E) as (_ & _ & Hp).
      destruct (prop_effect x (foldl apply_prop (sProps st) done) Hx (proj2 Hp Hpo)) as (js' & Hjs' & Ht).
      rewrite Hjs in Hjs'. by injection Hjs' as <-.
    + intros Hfr. rewrite lookup_insert_ne by done. specialize (Hc o Ho Hpo Hwo Hfr). unfold tells in *.
      rewrite (other_key x) by done. done.
  - intros Hp _. split; [done|]. intros _ Hfr. by eapply previous_tells.
Qed.

Lemma chained_nil : chained ∅ [].
Proof. intros o _ _ _ _. by rewrite lookup_empty. Qed.

(** What the pipeline puts into a batch: operations of the realm, not tracked
    yet, with the reads they will make. *)
Definition batch_input (x : reads * PersistOp) : Prop :=
  reads_store x.1 /\ realm_op x.2 /\ Tracked x.2 = false.

Lemma track_all_chained ops prevs done prevs' ops' :
  chained prevs done -> Forall batch_input ops -> track_all prevs ops = (prevs', ops') ->
  forall i op, ops' !! i = Some op -> prop_op op -> watched rs op = true ->
    (Tracked op = false -> exists rd, ops.*1 !! i = Some rd /\ GetProperty rd (unset_key op) = LookupFailed) /\
    (Tracked op = true -> fresh (done ++ take i ops') (unset_key op) ->
     tells (foldl apply_prop (sProps st) (done ++ take i ops')) (unset_key op) (PrevExists op) (Prev op)).
Proof.
  intros Hc Hops. revert prevs done prevs' ops' Hc.
  induction Hops as [|[rd x] ops (Hrd & Hx & Hnt) _ IH]; intros prevs done prevs' ops' Hc; simpl in *.
  { by intros [= <- <-] i op. }
  destruct (trackPrevious rs rd prevs x) as [prevs1 x'] eqn:Et.
  destruct (track_all prevs1 ops) as [prevs2 ops2] eqn:Ea. intros [= <- <-].
  pose proof (trackPrevious_cases rs rd prevs x) as Hcase. rewrite Et in Hcase. simpl in Hcase.
  apply (track_step _ _ done) in Et as (Hc' & Hk & Hkind & Htr); [|done..].
  intros [|i] op; simpl.
  - intros [= <-] Hp Hw. rewrite app_nil_r, Hk. destruct Htr as [H1 H2].
    + unfold prop_op in *. by rewrite <- Hkind.
    + by destruct Hcase as [->|[s ->]].
    + split; [|done]. intros Hf. exists rd. auto.
  - intros Hi Hp Hw. destruct (IH _ _ _ _ Hc' Ea i op Hi Hp Hw) as [H1 H2]. split; [done|].
    by rewrite <- (assoc_L (++)) in H2.
Qed.

End Snapshots.

(** ** The guarantees of the pipeline *)

(** C1. A data publish is decided exactly: it is accepted when the longest
    declared interface name is installed at the declared major and owned by
    the device, the path is an endpoint's and the payload decodes, and then
    exactly one operation joins the batch, well typed and stamped with the
    message's identity; otherwise it is rejected with a documented reason,
    acknowledged once, and nothing changes. The decoder never panics or fails
    without a reason. *)
Theorem publish_decision_exact `{Codec.PayloadDecoder, JSONText} first_key rs rd dev b m rest dev' b' effs :
  realm_ok rs -> ranges first_key ->
  processData first_key rs rd dev b m rest = (dev', b', effs) ->
  ((exists r, accepts_publish rs dev rest (mPayload m) r) <->
     exists op, pending b' = pending b ++ [op]) /\
  (forall op, pending b' = pending b ++ [op] -> op_contract rs dev m op /\ eff_acks effs = []) /\
  ((forall r, ~ accepts_publish rs dev rest (mPayload m) r) ->
     exists reason, reason ∈ reject_reasons /\ effs = [EffReject reason; EffAck (mAck m)] /\
       b' = b /\ dev' = dev).
Proof.
  intros Hrs Hfk E. assert (forall op, pending b <> pending b ++ [op]) as Hne.
  { intros op Hx. rewrite <- (app_nil_r (pending b)) in Hx at 1. by apply app_inv_head in Hx. }
  apply (processData_cases rs Hrs) in E; [|done].
  destruct E as [((reason & Hin & ->) & -> & -> & Hno)|(r & op & Hacc & Hp & Hc & Ha & _)].
  - split_and!; [naive_solver|intros op Hx; by apply Hne in Hx|eauto].
  - split_and!; [split; eauto| |naive_solver].
    intros op' Hx. rewrite Hp in Hx. by simplify_eq.
Qed.

(** The order in which Go ranges over an object's leaves does not matter: any
    two orders resolve every publish the same way, reasons included. *)
Theorem resolution_order_free `{Codec.PayloadDecoder} first1 first2 rs dev rest payload :
  realm_ok rs -> ranges first1 -> ranges first2 ->
  resolve first1 rs dev rest payload = resolve first2 rs dev rest payload.
Proof.
  intros Hrs H1 H2. unfold resolve. destruct (Topics.matchInterface _ _) as [[[n p] v]|]; [|done].
  destruct (iface (Some rs) n (Introspection.vMajor v)) as [ci|] eqn:Ei; [|done].
  destruct (negb _); [done|].
  destruct (bool_decide_reflect (cAggregation ci = AggregationObject)) as [Ha|]; [|done].
  destruct (objectPathOK_spec ci (proj1 (Hrs _ _ _ Ei)) Ha) as (P & table & _ & _ & HP).
  assert (objectPathOK first1 ci p = objectPathOK first2 ci p) as ->; [|done].
  apply eq_true_iff_eq. by rewrite (HP first1), (HP first2).
Qed.

(** C18. Every message is acknowledged exactly once: after the publishes a shard
    handles, of any devices and realms, joined its batch and the batch was
    flushed without being abandoned, the rejections' acknowledgements and the
    flush's together are those of these messages and of the operations that
    already waited, each once. The flush ends whenever the database outage or
    the shutdown does. *)
Theorem ingest_acknowledges_once `{Codec.PayloadDecoder, JSONText} first_key b ms b' effs db quit n :
  Forall (fun x => realm_ok (puRealm x)) ms -> ranges first_key -> batch_valid (pending b) ->
  process_all first_key b ms = (b', effs) ->
  outage_ends db n \/ shutdown_by quit n ->
  exists tr, flush db quit (n + 2) [] (pending b') = Flushed tr /\
    (EvAbandon ∉ tr ->
     eff_acks effs ++ acks tr ≡ₚ map ack (pending b) ++ map (fun x => mAck (puMessage x)) ms).
Proof.
  intros Hrs Hfk Hb E Hn. apply (process_all_accounts first_key Hfk) in E as (new & Hp & Hf & Hperm); [|done].
  pose proof (proj2 (Forall_app _ _ _) (conj Hb Hf)) as Hall. rewrite Hp. setoid_rewrite <- Hperm.
  assert (forall l, eff_acks effs ++ l ≡ₚ map ack (pending b) ++ eff_acks effs ++ map ack new <->
                    l ≡ₚ map ack (pending b ++ new)) as Hcancel.
  { intros l. rewrite map_app, Permutation_app_swap_app. split; [apply Permutation_app_inv_l|by intros ->]. }
  setoid_rewrite Hcancel. clear Hcancel. generalize dependent (pending b ++ new). intros ops _ Hops.
  pose proof (typed_sound ops Hops) as Hs. unfold flush.
  assert (unbroken ops = ops) as Hu.
  { clear -Hops. induction Hops as [|op ops [_ Hop] _ IH]; [done|]. by rewrite unbroken_cons, Hop, IH. }
  destruct (length ops =? 0)%nat eqn:El.
  - exists []. split; [done|]. bool_hyps. by apply nil_length_inv in El as ->.
  - destruct (flush_loop_done db quit n (n + 2) [] ops parkBackoffStart Hn Hs) as [tr Htr]; [lia|].
    exists tr. split; [done|]. intros Hab.
    destruct (flush_loop_spec db quit _ _ _ _ _ start_in_range Htr) as (ext & -> & Hspec).
    simpl in *. rewrite (flush_all _ _ Hspec Hab). unfold todo. by rewrite Hu.
Qed.

(** Two operations that share a batch see each other as a serial processor
    would: a watched property operation is tracked unless its lookup failed,
    and annotated with the value its path has once the earlier operations of
    the batch are applied to the store, although none of them is committed
    yet, provided the last of them on its path was tracked. *)
Theorem batch_snapshots_serial `{JSONText} rs st ops prevs' ops' i op :
  ids_determine rs -> Forall (batch_input rs st) ops ->
  track_all rs ∅ ops = (prevs', ops') ->
  ops' !! i = Some op -> prop_op op -> watched rs op = true ->
  (Tracked op = false -> exists rd, ops.*1 !! i = Some rd /\ GetProperty rd (unset_key op) = LookupFailed) /\
  (Tracked op = true -> fresh (take i ops') (unset_key op) ->
   match foldl apply_prop (sProps st) (take i ops') !! unset_key op with
   | Some p => PrevExists op = true /\ Prev op = Some (pValue p)
   | None => PrevExists op = false
   end).
Proof.
  intros Hids Hops Ht Hi Hp Hw.
  exact (track_all_chained rs st Hids ops ∅ [] prevs' ops' (chained_nil rs st) Hops Ht i op Hi Hp Hw).
Qed.

(** ** Witnesses *)

Lemma sample_driver_wf : @Codec.driver_wf Codec.sample_driver.
Proof.
  intros p d. simpl. case_decide; [|done]. intros [= <-]. split.
  - repeat constructor; vm_compute; discriminate.
  - repeat constructor. intros elems Hx. discriminate Hx.
Qed.
Definition sample_decoder : Codec.PayloadDecoder :=
  @Codec.codec_decoder Codec.sample_driver toy_text 0 sample_driver_wf.

Definition map_first (m : gmap gostring CompiledMapping) : option gostring :=
  match map_to_list m with (k, _) :: _ => Some k | [] => None end.
Lemma map_first_ranges : ranges map_first.
Proof.
  intros m. unfold map_first. destruct (map_to_list m) as [|[k v] l] eqn:E.
  - by apply map_to_list_empty_iff.
  - exists v. apply elem_of_map_to_list. rewrite E. left.
Qed.

Definition sample_realm : realmSchema := buildRealm sample_doc 1 "test"%go [sample_stored] [].
Definition sample_device : deviceState :=
  MkDevice 1 {["org.astrate.Sensors"%go := Introspection.MkVersion 1 0]} hintBSON false [].
Definition sample_message (id : nat) : InboundMessage :=
  MkMessage "test"%go "0123456789abcdef"%go [] Codec.sample_bytes 1 100 id.
Definition quiet_reads : reads := MkReads (fun _ => NoRow) (fun _ => NoRow).

Lemma sample_realm_ok : realm_ok sample_realm.
Proof. apply buildRealm_ok. Qed.

Lemma publish_decision_exact_witness :
  exists op, pending (@processData sample_decoder map_first toy_text sample_realm quiet_reads sample_device
      (MkBatcher [] ∅) (sample_message 3) "org.astrate.Sensors/4/x"%go).1.2 = [op] /\ ack op = 3 /\ op_typed op.
Proof.
  destruct (@processData sample_decoder map_first toy_text sample_realm quiet_reads sample_device
      (MkBatcher [] ∅) (sample_message 3) "org.astrate.Sensors/4/x"%go) as [[d b] effs] eqn:E.
  assert (exists op, pending b = [] ++ [op]) as [op Hop].
  { vm_compute in E. injection E as _ <- _. eexists. reflexivity. }
  exists op. split; [exact Hop|].
  destruct (@publish_decision_exact sample_decoder toy_text map_first sample_realm quiet_reads sample_device
    (MkBatcher [] ∅) (sample_message 3) "org.astrate.Sensors/4/x"%go d b effs sample_realm_ok map_first_ranges E)
    as (_ & Hc & _).
  destruct (Hc op Hop) as [[Ht _ Ha _ _ _ _ _ _ _ _ _] _]. split; [exact Ha|exact Ht].
Defined.

Lemma resolution_order_free_witness :
  @resolve sample_decoder map_first sample_realm sample_device "org.astrate.Sensors/4/x"%go [] =
  @resolve sample_decoder (fun m => head (map fst (map_to_list m))) sample_realm sample_device
    "org.astrate.Sensors/4/x"%go [].
Proof.
  apply (@resolution_order_free sample_decoder map_first (fun m => head (map fst (map_to_list m)))
    sample_realm sample_device "org.astrate.Sensors/4/x"%go [] sample_realm_ok map_first_ranges).
  intros m. pose proof (map_first_ranges m) as Hm. unfold map_first in Hm.
  destruct (map_to_list m) as [|[k v] l]; exact Hm.
Defined.

(** Two devices of one realm; the batch already holds an operation. *)
Definition second_message (id : nat) : InboundMessage :=
  let m := sample_message id in
  MkMessage (mRealm m) "fedcba9876543210"%go (mTopic m) (mPayload m) (mQoS m) (mReceivedAt m) (mAck m).
Definition sample_run : list publish :=
  [MkPublish sample_realm quiet_reads sample_device (sample_message 1) "org.astrate.Sensors/4/x"%go;
   MkPublish sample_realm quiet_reads sample_device (second_message 2) "org.astrate.Sensors/4/y"%go;
   MkPublish sample_realm quiet_reads sample_device (sample_message 3) "org.astrate.Sensors/5/x"%go].
Definition waiting_batch : batcher :=
  (@process_all sample_decoder toy_text map_first (MkBatcher [] ∅)
     [MkPublish sample_realm quiet_reads sample_device (second_message 0) "org.astrate.Sensors/4/x"%go]).1.

Lemma sample_run_realms : Forall (fun x => realm_ok (puRealm x)) sample_run.
Proof. unfold sample_run. repeat (apply Forall_cons_2; [exact sample_realm_ok|]). apply Forall_nil_2. Qed.

Lemma waiting_batch_valid : batch_valid (pending waiting_batch).
Proof.
  unfold waiting_batch. destruct (@process_all _ _ _ _ _) as [b effs] eqn:E. cbn [fst].
  apply (process_all_accounts map_first map_first_ranges) in E as (ops & -> & Hf & _); [done|].
  apply Forall_cons_2; [exact sample_realm_ok|]. apply Forall_nil_2.
Qed.

Lemma ingest_acknowledges_once_witness :
  let '(b, effs) := @process_all sample_decoder toy_text map_first waiting_batch sample_run in
  exists tr, @flush toy_text (outage 2 false) running (2 + 2) [] (pending b) = Flushed tr /\
    eff_acks effs ++ acks tr ≡ₚ map ack (pending waiting_batch) ++ [1; 2; 3].
Proof.
  destruct (@process_all sample_decoder toy_text map_first waiting_batch sample_run) as [b effs] eqn:E.
  destruct (@ingest_acknowledges_once sample_decoder toy_text map_first waiting_batch sample_run
    b effs (outage 2 false) running 2 sample_run_realms map_first_ranges waiting_batch_valid E (or_introl (outage_bound 2 false)))
    as (tr & Htr & Hacks).
  exists tr. split; [exact Htr|]. apply Hacks. apply never_abandons.
  vm_compute in E. injection E as <- _. vm_compute in Htr. injection Htr as <-. vm_compute. reflexivity.
Defined.

Definition prop_interface : CompiledInterface :=
  MkCompiledInterface 7 "org.astrate.Settings"%go 1 0 Properties OwnershipDevice
    AggregationIndividual NewEndpointTrie None.
Definition change_trigger : Triggers.Trigger :=
  Triggers.MkTrigger "t"%go None [] []
    [Triggers.MkDataMatcher Triggers.OnValueChange Triggers.anyToken Triggers.anyToken 0 true []
       Triggers.anyToken Triggers.KNull true] [] None.
Definition prop_realm : realmSchema :=
  MkRealm 1 "test"%go {["org.astrate.Settings"%go := {[1%Z := prop_interface]}]} {[7%Z := prop_interface]}
    [change_trigger].
Definition prop_sample (kind : OpKind) (v : option Value) : PersistOp :=
  MkOp kind "test"%go 1 "0123456789abcdef"%go prop_interface (Some Codec.sample_mapping)
    "/mode"%go v FormatBSON 5 6 false false None 0 false.
Definition prop_batch : list PersistOp :=
  [prop_sample OpPropertySet (int_value 1); prop_sample OpPropertyUnset None;
   prop_sample OpPropertySet (int_value 2); prop_sample OpPropertySet (int_value 3)].

Lemma prop_realm_ids : ids_determine prop_realm.
Proof.
  assert (forall n m ci, iface (Some prop_realm) n m = Some ci -> ci = prop_interface) as Hx.
  { intros n m ci. unfold iface, prop_realm. simpl. rewrite lookup_singleton. case_decide; [|done]. simpl.
    rewrite lookup_singleton. case_decide; [|done]. by intros [= <-]. }
  intros n m ci n' m' ci' H1%Hx H2%Hx _. congruence.
Qed.

(** Every lookup answers from an empty store. *)
Definition prop_input : list (reads * PersistOp) := map (fun op => (quiet_reads, op)) prop_batch.

Lemma prop_input_ok : Forall (batch_input prop_realm empty_store) prop_input.
Proof.
  assert (forall i, (- 2 ^ 31 <= i < 2 ^ 31)%Z ->
    realm_op prop_realm (prop_sample OpPropertySet (int_value i))) as Hset.
  { intros i Hi. split_and!; try reflexivity.
    - exists Codec.sample_mapping, (VScalar (SInteger i)). split_and!; try reflexivity.
      split; [reflexivity|]. change (in_int32 i). unfold in_int32, int32_min, int32_max. lia.
    - simpl. split; auto. }
  assert (realm_op prop_realm (prop_sample OpPropertyUnset None)) as Hunset.
  { split_and!; try reflexivity. simpl. split; auto. }
  assert (reads_store empty_store quiet_reads) as Hrd by (intros k; right; reflexivity).
  unfold prop_input, prop_batch. cbn [map].
  repeat (apply Forall_cons_2; [split; [exact Hrd|]; split; [first [apply Hset; lia | exact Hunset]|reflexivity]|]).
  apply Forall_nil_2.
Qed.

Lemma batch_snapshots_serial_witness :
  let ops := (@track_all toy_text prop_realm ∅ prop_input).2 in
  exists op p, ops !! 3 = Some op /\ Prev op = Some (pValue p) /\
    foldl (@apply_prop toy_text) ∅ (take 3 ops) !! unset_key op = Some p.
Proof.
  cbv zeta. set (r := @track_all toy_text prop_realm ∅ prop_input).
  pose (op := with_previous (prop_sample OpPropertySet (int_value 3)) (MkSnap true (Some (JNum "2"%go)))).
  assert (Eop : r.2 !! 3 = Some op) by (vm_compute; reflexivity).
  pose (p := MkProperty 1 "0123456789abcdef"%go 7 1 "/mode"%go (JNum "2"%go) Integer).
  assert (Ep : foldl (@apply_prop toy_text) ∅ (take 3 r.2) !! unset_key op = Some p)
    by (vm_compute; reflexivity).
  exists op, p. split; [exact Eop|]. split; [|exact Ep].
  pose proof (@batch_snapshots_serial toy_text prop_realm empty_store prop_input r.1 r.2 3 op
    prop_realm_ids prop_input_ok (surjective_pairing r) Eop (or_introl eq_refl) eq_refl) as [_ Hs].
  specialize (Hs eq_refl eq_refl).
  change (sProps empty_store) with (∅ : gmap prop_key Property) in Hs. rewrite Ep in Hs. exact (proj2 Hs).
Defined.

(** A lookup that fails leaves no snapshot behind: the next publish on the
    path, in the same batch, reads the store and is given the value from
    before the first one. *)
Theorem failed_lookup_goes_stale :
  let key := unset_key (prop_sample OpPropertySet None) in
  let row := MkProperty 1 "0123456789abcdef"%go 7 1 "/mode"%go (JNum "0"%go) Integer in
  let down := MkReads (fun _ => LookupFailed) (fun _ => NoRow) in
  let up := MkReads (fun _ => Found row) (fun _ => NoRow) in
  let '(prevs, first) := @trackPrevious toy_text prop_realm down ∅ (prop_sample OpPropertySet (int_value 1)) in
  let '(_, second) := @trackPrevious toy_text prop_realm up prevs (prop_sample OpPropertySet (int_value 2)) in
  Tracked first = false /\ PrevExists second = true /\ Prev second = Some (JNum "0"%go) /\
  (pValue <$> @apply_prop toy_text {[key := row]} first !! key) = Some (JNum "1"%go).
Proof. vm_compute. repeat split; reflexivity. Qed.

End Pipeline.
