(* ===== verification/Router.v ===== *)
(** * The sharded router ([src/internal/engine/router.go])

    Messages of one device always land on the same shard; a shard is a bounded
    channel, a goroutine that handles one message at a time, and a micro-batch
    flushed when it is full, when its timer fires, before an introspection or
    control message, and when the lane closes. The engine is a state machine:
    a step is a [Submit], a message taken by a shard, a timer, or a step of
    [drain]. What [handle] does with a message is the step's [action]; {!Pipeline}
    defines it, and [handle_action] below relates the two. *)

From S2P Require Import Prelude GoStrings DeviceID SchemaTypes InterfaceParse EndpointTrie Compile Broker.
From S2P Require Import Topics PayloadValue PayloadJson PayloadCodec Rows Batch Policy Triggers Cache Pipeline.

Module Router.
Import Json Rows Cache Pipeline.

(** ** Configuration *)

Definition DefaultShards : Z := 16.
Definition DefaultShardQueue : Z := 4096.
Definition DefaultBatchMaxRows : Z := 64.
Definition DefaultBatchMaxWait : Z := 50000000.

Record Config := MkConfig {
  Shards : Z;
  ShardQueue : Z;
  BatchMaxRows : Z;
  BatchMaxWait : Z;
  MaxPayloadBytes : Z;
}.

Definition or_default (n d : Z) : Z := if (n =? 0)%Z then d else n.

(** [newEngine]'s defaults and its check. *)
Definition newEngine (cfg : Config) : option Config :=
  let cfg := MkConfig (or_default (Shards cfg) DefaultShards) (or_default (ShardQueue cfg) DefaultShardQueue)
               (or_default (BatchMaxRows cfg) DefaultBatchMaxRows)
               (or_default (BatchMaxWait cfg) DefaultBatchMaxWait) (MaxPayloadBytes cfg) in
  if (Shards cfg <? 0)%Z || (ShardQueue cfg <? 0)%Z || (BatchMaxRows cfg <? 0)%Z ||
     (BatchMaxWait cfg <? 0)%Z || (MaxPayloadBytes cfg <? 0)%Z
  then None else Some cfg.

(** FNV-1a over the device's bytes, on [uint64]. *)
Definition offset64 : Z := 14695981039346656037.
Definition prime64 : Z := 1099511628211.
Definition fnv_step (h : Z) (b : ascii) : Z := (Z.lxor h (byte_val b) * prime64) mod 2 ^ 64.
Definition shardOf (id : gostring) (n : Z) : Z := foldl fnv_step offset64 id mod n.

(** ** Lanes *)

(** How a shard goroutine ended: its channel was closed and empty, or its
    context was cancelled. *)
Inductive ending := ByClose | ByCancel.
#[export] Instance ending_eq_dec : EqDecision ending.
Proof. solve_decision. Defined.

(** One shard: the channel's buffer, the senders blocked on it in their
    order, the batch, whether the timer is live, how the goroutine ended. *)
Record lane := MkLane {
  queue : list InboundMessage;
  blocked : list InboundMessage;
  batch : list PersistOp;
  armed : bool;
  finished : option ending;
}.

(** What [handle] did with a message: a new operation in the batch; consumed
    (acknowledged, or abandoned at shutdown); consumed after a flush (the
    introspection, control and capabilities handlers); or a panic, before or
    after such a flush, by which the message is dropped unacknowledged. *)
Inductive action := Append (op : PersistOp) | Consume | FlushConsume | Crash | FlushCrash.

(** How a call of {!Batch.Batch.flush} ended: it returned, or a panic unwound
    through it, and then the operations stay in the batch, those it found
    unrenderable marked as broken. *)
Inductive outcome := Returned | Panicked (marks : list bool).

(** What the engine did, in order. *)
Inductive obs :=
| Accepted (i : nat) (m : InboundMessage)
| DroppedQoS0 (m : InboundMessage)
| DroppedShutdown (m : InboundMessage)
| Handled (i : nat) (m : InboundMessage) (a : action)
| FlushCall (i : nat) (ops : list PersistOp)
| FlushPanic (i : nat) (ops : list PersistOp).

Record engine := MkEngine {
  lanes : list lane;
  closed : bool;
  quit : bool;
  cancelled : bool;
  trace : list obs;
}.

Definition new_lane : lane := MkLane [] [] [] false None.
Definition init (cfg : Config) : engine :=
  MkEngine (replicate (Z.to_nat (Shards cfg)) new_lane) false false false [].

Definition nonempty {A} (l : list A) : bool := match l with [] => false | _ => true end.

Definition mark_broken (marks : list bool) (ops : list PersistOp) : list PersistOp :=
  zip_with (fun b op => if b : bool then set_broken op else op) marks ops.

(** [flushShard]: the timer is disarmed and the batch goes to
    {!Batch.Batch.flush}, which returns at once when the batch is empty. *)
Definition flushShard (i : nat) (r : outcome) (l : lane) : option (lane * list obs) :=
  match r with
  | Returned => Some (MkLane (queue l) (blocked l) [] false (finished l), [FlushCall i (batch l)])
  | Panicked marks =>
      if nonempty (batch l) && bool_decide (length marks = length (batch l))
      then Some (MkLane (queue l) (blocked l) (mark_broken marks (batch l)) false (finished l), [FlushPanic i (batch l)])
      else None
  end.

(** A receive from the channel: a sender blocked on the full buffer moves in. *)
Definition receive (l : lane) : option (InboundMessage * lane) :=
  match queue l with
  | [] => None
  | m :: rest =>
      Some (m, MkLane (rest ++ take 1 (blocked l)) (drop 1 (blocked l)) (batch l) (armed l) (finished l))
  end.

(** The timer at the end of [shardPass]'s loop body, and at its start when the
    loop is restarted after a panic. *)
Definition arm (l : lane) : lane :=
  if nonempty (batch l) && negb (armed l)
  then MkLane (queue l) (blocked l) (batch l) true (finished l) else l.

(** A flush by the loop itself: a panic restarts the loop. *)
Definition flush_or_restart (i : nat) (r : outcome) (l : lane) : option (lane * list obs) :=
  '(l, o) ← flushShard i r l;
  Some (match r with Returned => l | Panicked _ => arm l end, o).

Definition after_handle (cfg : Config) (i : nat) (r : outcome) (l : lane) : option (lane * list obs) :=
  if (BatchMaxRows cfg <=? Z.of_nat (length (batch l)))%Z then flush_or_restart i r l else Some (arm l, []).

Definition add (op : PersistOp) (l : lane) : lane :=
  MkLane (queue l) (blocked l) (batch l ++ [op]) (armed l) (finished l).

(** One message of the channel: [r] is how the flush ended that handling it
    or the loop after it made. *)
Definition deliver (cfg : Config) (i : nat) (a : action) (r : outcome) (l : lane) : option (lane * list obs) :=
  '(m, l) ← receive l;
  match a with
  | Append op =>
      if bool_decide (ack op = mAck m /\ DeviceID op = mDeviceID m) then
        '(l, o) ← after_handle cfg i r (add op l); Some (l, Handled i m a :: o)
      else None
  | Consume => '(l, o) ← after_handle cfg i r l; Some (l, Handled i m a :: o)
  | FlushConsume =>
      '(l, o1) ← flushShard i r l;
      match r with
      | Returned => '(l, o2) ← after_handle cfg i Returned l; Some (l, o1 ++ Handled i m a :: o2)
      | Panicked _ => Some (arm l, o1 ++ [Handled i m Crash])
      end
  | Crash => Some (arm l, [Handled i m a])
  | FlushCrash => '(l, o1) ← flushShard i Returned l; Some (arm l, o1 ++ [Handled i m a])
  end.

(** ** The engine *)

Inductive label :=
| Submit (m : InboundMessage)
| Deliver (i : nat) (a : action) (r : outcome)
| Timer (i : nat) (r : outcome)
| BeginDrain
| CloseLanes
| Finish (i : nat) (r : outcome)
| Cancel
| Exit (i : nat).

Definition emit (e : engine) (o : list obs) : engine :=
  MkEngine (lanes e) (closed e) (quit e) (cancelled e) (trace e ++ o).
Definition with_lane (e : engine) (i : nat) (l : lane) (o : list obs) : engine :=
  MkEngine (<[i := l]> (lanes e)) (closed e) (quit e) (cancelled e) (trace e ++ o).

Definition full (cfg : Config) (l : lane) : bool := (ShardQueue cfg <=? Z.of_nat (length (queue l)))%Z.
Definition running (l : lane) : bool := match finished l with None => true | Some _ => false end.
Definition ends (how : ending) (l : lane) : lane :=
  MkLane (queue l) (blocked l) (batch l) (armed l) (Some how).

(** [Submit] does not look at the goroutine: the channel of a lane that ended
    by cancellation still takes messages. *)
Definition submit (cfg : Config) (e : engine) (m : InboundMessage) : option engine :=
  if closed e then Some (emit e [DroppedShutdown m])
  else
    let i := Z.to_nat (shardOf (mDeviceID m) (Shards cfg)) in
    match lanes e !! i with
    | None => None
    | Some l =>
        if negb (full cfg l) then
          Some (with_lane e i (MkLane (queue l ++ [m]) (blocked l) (batch l) (armed l) (finished l)) [Accepted i m])
        else if (mQoS m =? 0)%Z then Some (emit e [DroppedQoS0 m])
        else Some (with_lane e i (MkLane (queue l) (blocked l ++ [m]) (batch l) (armed l) (finished l)) [Accepted i m])
    end.

(** The steps: a submit, the three cases of the select of [shardPass] (with
    the closed channel apart), the cancellation of the context, and the two
    steps of [drain]. *)
Definition step (cfg : Config) (e : engine) (lb : label) : option engine :=
  match lb with
  | Submit m => submit cfg e m
  | Deliver i a r =>
      l ← lanes e !! i;
      if running l then '(l, o) ← deliver cfg i a r l; Some (with_lane e i l o) else None
  | Timer i r =>
      l ← lanes e !! i;
      if running l && armed l then '(l, o) ← flush_or_restart i r l; Some (with_lane e i l o) else None
  | BeginDrain => Some (MkEngine (lanes e) (closed e) true (cancelled e) (trace e))
  | CloseLanes =>
      if quit e && forallb (fun l => negb (nonempty (blocked l))) (lanes e)
      then Some (MkEngine (lanes e) true (quit e) (cancelled e) (trace e)) else None
  | Finish i r =>
      l ← lanes e !! i;
      if closed e && negb (nonempty (queue l)) && running l then
        '(l, o) ← flush_or_restart i r l;
        Some (with_lane e i (match r with Returned => ends ByClose l | Panicked _ => l end) o)
      else None
  | Cancel => Some (MkEngine (lanes e) (closed e) (quit e) true (trace e))
  | Exit i =>
      l ← lanes e !! i;
      if cancelled e && running l then Some (with_lane e i (ends ByCancel l) []) else None
  end.

Inductive reachable (cfg : Config) : engine -> Prop :=
| reach_init : reachable cfg (init cfg)
| reach_step e lb e' : reachable cfg e -> step cfg e lb = Some e' -> reachable cfg e'.

(** ** Reading the trace *)

Definition accepted (i : nat) (tr : list obs) : list InboundMessage :=
  omap (fun o => match o with Accepted j m => if bool_decide (i = j) then Some m else None | _ => None end) tr.
Definition handled (i : nat) (tr : list obs) : list InboundMessage :=
  omap (fun o => match o with Handled j m _ => if bool_decide (i = j) then Some m else None | _ => None end) tr.
Definition appended (i : nat) (tr : list obs) : list PersistOp :=
  omap (fun o => match o with
                 | Handled j _ (Append op) => if bool_decide (i = j) then Some op else None
                 | _ => None
                 end) tr.

(** The flush calls of a lane, with whether they returned. *)
Definition attempts (i : nat) (tr : list obs) : list (list PersistOp * bool) :=
  omap (fun o => match o with
                 | FlushCall j ops => if bool_decide (i = j) then Some (ops, true) else None
                 | FlushPanic j ops => if bool_decide (i = j) then Some (ops, false) else None
                 | _ => None
                 end) tr.
Definition returned (c : list PersistOp * bool) : list PersistOp := if c.2 then c.1 else [].
(** The operations of the calls that returned. *)
Definition flushed (i : nat) (tr : list obs) : list PersistOp := attempts i tr ≫= returned.

(** An operation up to the broken mark. *)
Definition bare (op : PersistOp) : PersistOp := set_broken op.

(** What a call that did not return owes to the next one, and that it is paid:
    the next call starts with the same operations. *)
Definition owed (cs : list (list PersistOp * bool)) : list PersistOp :=
  match last cs with Some (ops, false) => bare <$> ops | _ => [] end.
Inductive retried : list (list PersistOp * bool) -> Prop :=
| retried_nil : retried []
| retried_snoc cs ops ok : retried cs -> owed cs `prefix_of` (bare <$> ops) -> retried (cs ++ [(ops, ok)]).

(** The calls since the last one that returned. *)
Definition streak (cs : list (list PersistOp * bool)) : nat :=
  foldl (fun n (c : list PersistOp * bool) => if c.2 then 0 else S n) 0 cs.

(** The lane an observation belongs to. *)
Definition lane_of (o : obs) : option nat :=
  match o with
  | Accepted i _ | Handled i _ _ | FlushCall i _ | FlushPanic i _ => Some i
  | DroppedQoS0 _ | DroppedShutdown _ => None
  end.

Lemma accepted_app i tr tr' : accepted i (tr ++ tr') = accepted i tr ++ accepted i tr'.
Proof. apply omap_app. Qed.
Lemma handled_app i tr tr' : handled i (tr ++ tr') = handled i tr ++ handled i tr'.
Proof. apply omap_app. Qed.
Lemma appended_app i tr tr' : appended i (tr ++ tr') = appended i tr ++ appended i tr'.
Proof. apply omap_app. Qed.
Lemma attempts_app i tr tr' : attempts i (tr ++ tr') = attempts i tr ++ attempts i tr'.
Proof. apply omap_app. Qed.
Lemma flushed_app i tr tr' : flushed i (tr ++ tr') = flushed i tr ++ flushed i tr'.
Proof. unfold flushed. rewrite attempts_app. apply bind_app. Qed.
#[local] Hint Rewrite accepted_app handled_app appended_app attempts_app flushed_app : astrate.

(** The observations of one lane do not show in another. *)
Definition on_lane (i : nat) (o : list obs) : Prop :=
  Forall (fun x => lane_of x = Some i \/ lane_of x = None) o.

Lemma on_lane_one i x : lane_of x = Some i -> on_lane i [x].
Proof. intros Hx. constructor; [by left|constructor]. Qed.

Lemma other_lane i j o :
  on_lane j o -> i <> j -> accepted i o = [] /\ handled i o = [] /\ appended i o = [] /\ attempts i o = [].
Proof.
  intros Ho Hij. induction Ho as [|x o Hx _ (H1 & H2 & H3 & H4)]; [done|].
  change (x :: o) with ([x] ++ o). autorewrite with astrate. rewrite H1, H2, H3, H4. rewrite !(app_nil_r).
  destruct x as [k m|m|m|k m []|k ops|k ops]; simpl in *; split_and!; try done;
    destruct Hx as [[= ->]|]; try done; rewrite bool_decide_eq_false_2; done.
Qed.

(** ** The invariant of a lane *)

Section Invariant.
Variable cfg : Config.
Hypothesis Hshards : (0 < Shards cfg)%Z.
Hypothesis Hqueue : (0 < ShardQueue cfg)%Z.
Hypothesis Hrows : (0 < BatchMaxRows cfg)%Z.

Definition home (i : nat) (m : InboundMessage) : Prop :=
  Z.to_nat (shardOf (mDeviceID m) (Shards cfg)) = i.

(** What holds of a lane throughout a step. *)
Record lane_core (i : nat) (tr : list obs) (l : lane) : Prop := {
  lc_fifo : accepted i tr = handled i tr ++ queue l ++ blocked l;
  lc_batch : bare <$> appended i tr = (bare <$> flushed i tr) ++ (bare <$> batch l);
  lc_retried : retried (attempts i tr);
  lc_owed : owed (attempts i tr) `prefix_of` (bare <$> batch l);
  lc_queue : (Z.of_nat (length (queue l)) <= ShardQueue cfg)%Z;
  lc_full : blocked l <> [] -> Z.of_nat (length (queue l)) = ShardQueue cfg;
  lc_home : Forall (home i) (accepted i tr);
}.

Definition room (i : nat) (tr : list obs) : Z := BatchMaxRows cfg + Z.of_nat (streak (attempts i tr)).

Record lane_ok (i : nat) (tr : list obs) (l : lane) : Prop := {
  lo_core : lane_core i tr l;
  lo_rows : (Z.of_nat (length (batch l)) < room i tr)%Z;
  lo_armed : armed l = nonempty (batch l);
  lo_done : finished l = Some ByClose -> queue l = [] /\ blocked l = [] /\ batch l = [];
}.

Lemma core_ext i tr tr' l l' :
  accepted i tr = accepted i tr' -> handled i tr = handled i tr' -> appended i tr = appended i tr' ->
  attempts i tr = attempts i tr' -> queue l = queue l' -> blocked l = blocked l' -> batch l = batch l' ->
  lane_core i tr l -> lane_core i tr' l'.
Proof.
  unfold flushed. intros E1 E2 E3 E4 E5 E6 E7 []. unfold flushed in *.
  split; unfold flushed; rewrite <- ?E1, <- ?E2, <- ?E3, <- ?E4, <- ?E5, <- ?E6, <- ?E7; done.
Qed.

Lemma lane_frame i j tr l o : lane_ok i tr l -> on_lane j o -> i <> j -> lane_ok i (tr ++ o) l.
Proof.
  intros [Hc Hr Ha Hd] Ho Hij. destruct (other_lane i j o Ho Hij) as (H1 & H2 & H3 & H4).
  split; [|unfold room; by rewrite attempts_app, H4, app_nil_r|done|done].
  eapply core_ext, Hc; autorewrite with astrate; rewrite ?H1, ?H2, ?H3, ?H4, ?app_nil_r; done.
Qed.

Lemma bare_marks marks ops : length marks = length ops -> bare <$> mark_broken marks ops = bare <$> ops.
Proof.
  unfold mark_broken. revert ops. induction marks as [|b marks IH]; intros [|op ops]; simpl; try done.
  intros [= Hl]. rewrite IH by done. by destruct b.
Qed.

Lemma streak_snoc cs c : streak (cs ++ [c]) = if c.2 then 0 else S (streak cs).
Proof. unfold streak. by rewrite foldl_app. Qed.

Lemma owed_snoc cs ops ok : owed (cs ++ [(ops, ok)]) = if ok : bool then [] else bare <$> ops.
Proof. unfold owed. rewrite last_snoc. by destruct ok. Qed.

Lemma flush_core i tr r l l' o :
  lane_core i tr l -> flushShard i r l = Some (l', o) ->
  lane_core i (tr ++ o) l' /\ armed l' = false /\ finished l' = finished l /\ queue l' = queue l /\
  blocked l' = blocked l /\ on_lane i o /\
  match r with
  | Returned => batch l' = [] /\ streak (attempts i (tr ++ o)) = 0
  | Panicked _ => length (batch l') = length (batch l) /\ batch l' <> [] /\
                  streak (attempts i (tr ++ o)) = S (streak (attempts i tr))
  end.
Proof.
  intros [Hf Hb Hr Ho Hq Hfu Hh]. unfold flushShard. destruct r as [|marks].
  - intros [= <- <-]. rewrite attempts_app. simpl. rewrite bool_decide_eq_true_2, streak_snoc by done.
    split_and!; try done; [|by apply on_lane_one].
    split; autorewrite with astrate; unfold flushed; simpl; rewrite ?bool_decide_eq_true_2, ?app_nil_r by done; try done.
    + simpl. by rewrite app_nil_r, fmap_app.
    + by constructor.
    + by rewrite owed_snoc.
  - destruct (nonempty (batch l)) eqn:Ene; [|done]. simpl. case_bool_decide as Hm; [|done].
    intros [= <- <-]. rewrite attempts_app. simpl. rewrite bool_decide_eq_true_2, streak_snoc by done.
    assert (length (mark_broken marks (batch l)) = length (batch l)) as Hlen
      by (unfold mark_broken; rewrite length_zip_with; lia).
    split_and!; try done; [|by apply on_lane_one|simpl; intros E; rewrite E in Hlen; by destruct (batch l)].
    split; autorewrite with astrate; unfold flushed; simpl; rewrite ?bool_decide_eq_true_2, ?app_nil_r by done; try done.
    + by rewrite bare_marks.
    + by constructor.
    + rewrite owed_snoc, bare_marks; done.
Qed.

Lemma flush_obs i r l l' o :
  flushShard i r l = Some (l', o) -> accepted i o = [] /\ handled i o = [] /\ appended i o = [] /\
  forall j m a, Handled j m a ∉ o.
Proof.
  unfold flushShard. destruct r; [|destruct (_ && _); [|done]]; intros [= _ <-]; split_and!; try done;
    by intros j m a [= ]%list_elem_of_singleton.
Qed.

(** Arming restores the timer's invariant, whatever happened before. *)
Lemma arm_ok i tr l :
  lane_core i tr l -> (Z.of_nat (length (batch l)) < room i tr)%Z -> (armed l = true -> batch l <> []) ->
  finished l = None -> lane_ok i tr (arm l).
Proof.
  intros Hc Hr Ha Hf. unfold arm. destruct (batch l) as [|op ops] eqn:Eb, (armed l) eqn:Ear; simpl.
  - by destruct Ha.
  - split; rewrite ?Eb, ?Ear; try done. congruence.
  - split; rewrite ?Eb, ?Ear; try done. congruence.
  - split; simpl; try done; [|congruence]. eapply core_ext, Hc; done.
Qed.

Lemma flush_or_restart_ok i tr r l l' o :
  lane_core i tr l -> (Z.of_nat (length (batch l)) <= room i tr)%Z -> finished l = None ->
  flush_or_restart i r l = Some (l', o) ->
  lane_ok i (tr ++ o) l' /\ on_lane i o /\ finished l' = None /\ queue l' = queue l /\ blocked l' = blocked l /\
  (r = Returned -> batch l' = []).
Proof.
  intros Hc Hr Hf. unfold flush_or_restart. destruct (flushShard i r l) as [[l1 o1]|] eqn:E; [|done]. simpl.
  destruct (flush_core _ _ _ _ _ _ Hc E) as (Hc1 & Ha & Hf1 & Hq & Hb & Ho & Hm). rewrite Hf in Hf1. intros [= <- <-].
  destruct r as [|marks].
  - destruct Hm as [Hb1 Hs]. split_and!; try done. split; [done| |by rewrite Ha, Hb1|congruence].
    unfold room. rewrite Hb1, Hs. simpl. lia.
  - destruct Hm as (Hl & Hne & Hs). split_and!; try done.
    + apply arm_ok; [done| |by rewrite Ha|done]. unfold room in *. rewrite Hs, Hl. lia.
    + unfold arm. by destruct (_ && _).
    + unfold arm. by destruct (_ && _).
    + unfold arm. by destruct (_ && _).
Qed.

Lemma after_handle_ok i tr r l l' o :
  lane_core i tr l -> (Z.of_nat (length (batch l)) <= room i tr)%Z -> (armed l = true -> batch l <> []) ->
  finished l = None -> after_handle cfg i r l = Some (l', o) ->
  lane_ok i (tr ++ o) l' /\ on_lane i o /\ finished l' = None /\ blocked l' = blocked l.
Proof.
  intros Hc Hr Ha Hf. unfold after_handle. destruct (_ <=? _)%Z eqn:E.
  - intros Hfl. by apply (flush_or_restart_ok _ _ _ _ _ _ Hc Hr Hf) in Hfl as (? & ? & ? & ? & ? & ?).
  - apply Z.leb_gt in E. intros [= <- <-]. rewrite app_nil_r. split_and!; [|constructor| |].
    + apply arm_ok; try done. unfold room. lia.
    + unfold arm. by destruct (_ && _).
    + unfold arm. by destruct (_ && _).
Qed.

(** A lane after its channel gave up a message. *)
Lemma receive_core i tr l m l' a :
  lane_ok i tr l -> receive l = Some (m, l') ->
  lane_core i (tr ++ [Handled i m a]) (match a with Append op => add op l' | _ => l' end) /\
  batch l' = batch l /\ armed l' = armed l /\ finished l' = finished l /\ (blocked l = [] -> blocked l' = []).
Proof.
  intros [[Hf Hb Hre How Hq Hfull Hh] _ _ _]. unfold receive. destruct (queue l) as [|m0 rest] eqn:Eq; [done|].
  intros [= <- <-]. split; [|split_and!; try done; simpl; by intros ->].
  assert (attempts i (tr ++ [Handled i m0 a]) = attempts i tr) as Hat by (rewrite attempts_app; apply app_nil_r).
  assert (forall l0, queue l0 = rest ++ take 1 (blocked l) -> blocked l0 = drop 1 (blocked l) ->
    (bare <$> flushed i tr) ++ (bare <$> batch l0) = bare <$> appended i (tr ++ [Handled i m0 a]) ->
    owed (attempts i tr) `prefix_of` (bare <$> batch l0) -> lane_core i (tr ++ [Handled i m0 a]) l0) as Hl.
  { intros l0 E1 E2 E3 E4. split; rewrite ?E1, ?E2, ?Hat.
    - rewrite accepted_app, handled_app. simpl. rewrite bool_decide_eq_true_2, app_nil_r, Hf by done. simpl.
      rewrite <- !(assoc_L (++)). simpl. by rewrite take_drop.
    - unfold flushed in *. by rewrite Hat.
    - done.
    - done.
    - rewrite length_app, length_take. simpl in *. destruct (blocked l); simpl in *; [lia|].
      specialize (Hfull ltac:(done)). lia.
    - destruct (blocked l) as [|b bs]; [done|]. specialize (Hfull ltac:(done)). simpl in *.
      rewrite length_app. simpl. lia.
    - rewrite accepted_app. simpl. by rewrite app_nil_r. }
  destruct a; apply Hl; try done; autorewrite with astrate; simpl; rewrite ?app_nil_r; try done.
  - rewrite bool_decide_eq_true_2 by done. by rewrite !fmap_app, Hb, (assoc_L (++)).
  - rewrite fmap_app. by apply prefix_app_r.
Qed.

Definition op_for (m : InboundMessage) (op : PersistOp) : Prop :=
  ack op = mAck m /\ DeviceID op = mDeviceID m.
Definition ops_ok (tr : list obs) : Prop :=
  forall i m op, Handled i m (Append op) ∈ tr -> op_for m op.

Lemma armed_nonempty i tr l : lane_ok i tr l -> armed l = true -> batch l <> [].
Proof. intros [_ _ Ha _]. rewrite Ha. by destruct (batch l). Qed.

Lemma ops_ok_app tr o : ops_ok tr -> ops_ok o -> ops_ok (tr ++ o).
Proof. intros H1 H2 i m op [?|?]%elem_of_app; eauto. Qed.

Lemma ops_ok_no (o : list obs) : (forall j m a, Handled j m a ∉ o) -> ops_ok o.
Proof. intros H i m op Hin. by apply H in Hin. Qed.

Lemma flush_or_restart_ops i r l l' o : flush_or_restart i r l = Some (l', o) -> ops_ok o.
Proof.
  unfold flush_or_restart. destruct (flushShard i r l) as [[l1 o1]|] eqn:E; [|done]. intros [= _ <-].
  by apply ops_ok_no, (flush_obs _ _ _ _ _ E).
Qed.

Lemma after_handle_ops i r l l' o : after_handle cfg i r l = Some (l', o) -> ops_ok o.
Proof.
  unfold after_handle. destruct (_ <=? _)%Z; [apply flush_or_restart_ops|]. intros [= _ <-].
  by intros ??? ?%not_elem_of_nil.
Qed.

Lemma ops_ok_one i m a : (forall op, a = Append op -> op_for m op) -> ops_ok [Handled i m a].
Proof. intros Ha j m' op [= -> -> <-]%list_elem_of_singleton. by apply Ha. Qed.

(** A flush made while a message is handled may be read as made after it was
    taken from the channel. *)
Lemma swap_flush i r l l' o tr m a x :
  flushShard i r l = Some (l', o) -> (forall op, a <> Append op) ->
  lane_core i (tr ++ [Handled i m a] ++ o) x -> lane_core i (tr ++ o ++ [Handled i m a]) x.
Proof.
  intros E Ha. destruct (flush_obs _ _ _ _ _ E) as (H1 & H2 & H3 & _).
  apply core_ext; autorewrite with astrate; rewrite ?H1, ?H2, ?H3, ?app_nil_r; done.
Qed.

(** Handling a message leaves the lane's invariant, the observations of the
    other lanes and the messages of the operations alone. *)
Record delivered (i : nat) (tr : list obs) (l l' : lane) (o : list obs) : Prop := {
  de_ok : lane_ok i (tr ++ o) l';
  de_lane : on_lane i o;
  de_ops : ops_ok o;
  de_running : finished l' = None;
  de_blocked : blocked l = [] -> blocked l' = [];
}.

Lemma deliver_plain i tr l m l1 a r l' o :
  lane_ok i tr l -> finished l = None -> receive l = Some (m, l1) ->
  (forall op, a = Append op -> op_for m op) ->
  after_handle cfg i r (match a with Append op => add op l1 | _ => l1 end) = Some (l', o) ->
  delivered i tr l l' (Handled i m a :: o).
Proof.
  intros Hok Hf Hr Hop Ha. destruct (receive_core i tr l m l1 a Hok Hr) as (Hc & Hb & Har & Hfi & Hbl).
  pose proof (lo_rows _ _ _ Hok) as Hrows'. pose proof (after_handle_ops _ _ _ _ _ Ha) as Hops.
  assert (room i (tr ++ [Handled i m a]) = room i tr) as Hroom by (unfold room; by rewrite attempts_app, app_nil_r).
  edestruct after_handle_ok as (H1 & H2 & H3 & H4); [exact Hc| | | |exact Ha|].
  - rewrite Hroom. destruct a; simpl; rewrite ?length_app, ?Hb; simpl; lia.
  - destruct a; simpl; rewrite ?Har, ?Hb; try by (intros; eapply armed_nonempty). by destruct (batch l).
  - destruct a; simpl; congruence.
  - rewrite <- (assoc_L (++)) in H1. split; [done|constructor; [by left|done]| |done|].
    + change (Handled i m a :: o) with ([Handled i m a] ++ o). apply ops_ok_app; [by apply ops_ok_one|done].
    + intros Hbe. rewrite H4. destruct a; simpl; auto.
Qed.

Lemma deliver_ok i tr l a r l' o :
  lane_ok i tr l -> finished l = None -> deliver cfg i a r l = Some (l', o) -> delivered i tr l l' o.
Proof.
  intros Hok Hf. unfold deliver. destruct (receive l) as [[m l1]|] eqn:Er; [|done]. cbn [mbind option_bind].
  assert (forall r0 a0 l2 o1, flushShard i r0 l1 = Some (l2, o1) -> (forall op, a0 <> Append op) ->
    lane_core i (tr ++ o1 ++ [Handled i m a0]) l2 /\ armed l2 = false /\ finished l2 = None /\
    (blocked l = [] -> blocked l2 = []) /\ on_lane i (o1 ++ [Handled i m a0]) /\ ops_ok (o1 ++ [Handled i m a0]) /\
    (Z.of_nat (length (batch l2)) < room i (tr ++ o1 ++ [Handled i m a0]))%Z /\ (r0 = Returned -> batch l2 = [])) as Hflush.
  { intros r0 a0 l2 o1 E Ha0. destruct (receive_core i tr l m l1 a0 Hok Er) as (Hc & Hb & Har & Hfi & Hbl).
    pose proof (lo_rows _ _ _ Hok) as Hrw. destruct (flush_obs _ _ _ _ _ E) as (_ & _ & _ & Hno).
    assert (lane_core i (tr ++ [Handled i m a0]) l1) as Hc1 by (destruct a0; [by destruct (Ha0 op)|done..]).
    destruct (flush_core _ _ _ _ _ _ Hc1 E) as (Hc2 & Ha2 & Hf2 & _ & Hb2 & Ho & Hm).
    assert (attempts i (tr ++ o1 ++ [Handled i m a0]) = attempts i ((tr ++ [Handled i m a0]) ++ o1)) as Hat
      by (by autorewrite with astrate; rewrite !app_nil_r).
    assert (attempts i (tr ++ [Handled i m a0]) = attempts i tr) as Hat' by (rewrite attempts_app; apply app_nil_r).
    split_and!; try congruence.
    - eapply swap_flush; [done..|]. by rewrite (assoc_L (++)).
    - intros Hbe. rewrite Hb2. auto.
    - apply Forall_app. split; [done|]. by repeat constructor; left.
    - apply ops_ok_app; [by apply ops_ok_no|]. apply ops_ok_one. intros op ->. by destruct (Ha0 op).
    - unfold room in *. rewrite Hat. destruct r0.
      + destruct Hm as [-> ->]. simpl. lia.
      + destruct Hm as (-> & _ & ->). rewrite Hat', Hb. lia.
    - intros ->. by destruct Hm. }
  assert (forall x, finished (arm x) = finished x /\ blocked (arm x) = blocked x) as Harm
    by (intros x; unfold arm; by destruct (_ && _)).
  destruct a as [op| | | |].
  - case_bool_decide as Hop; [|done]. destruct (after_handle cfg i r (add op l1)) as [[l2 o2]|] eqn:Ea; [|done].
    intros [= <- <-]. apply (deliver_plain i tr l m l1 (Append op) r l2 o2); try done. by intros ? [= <-].
  - destruct (after_handle cfg i r l1) as [[l2 o2]|] eqn:Ea; [|done]. intros [= <- <-].
    by apply (deliver_plain i tr l m l1 Consume r l2 o2).
  - destruct (flushShard i r l1) as [[l2 o1]|] eqn:Ef; [|done]. cbn [mbind option_bind]. destruct r as [|marks].
    + destruct (Hflush _ FlushConsume _ _ Ef ltac:(done)) as (Hc & Ha & Hfi & Hbl & Hon & Hops & Hrw & Hbe).
      destruct (after_handle cfg i Returned l2) as [[l3 o2]|] eqn:Ea; [|done]. intros [= <- <-].
      pose proof (after_handle_ops _ _ _ _ _ Ea) as Hops2.
      edestruct after_handle_ok as (H1 & H2 & H3 & H4); [exact Hc|lia|congruence|done|exact Ea|].
      change (Handled i m FlushConsume :: o2) with ([Handled i m FlushConsume] ++ o2).
      rewrite (assoc_L (++)). rewrite <- (assoc_L (++)) in H1.
      split; [done|by apply Forall_app|by apply ops_ok_app|done|]. intros ?. rewrite H4. auto.
    + destruct (Hflush _ Crash _ _ Ef ltac:(done)) as (Hc & Ha & Hfi & Hbl & Hon & Hops & Hrw & _).
      intros [= <- <-]. destruct (Harm l2) as [E1 E2].
      split; [apply arm_ok; congruence|done|done|congruence|by rewrite E2].
  - intros [= <- <-]. destruct (receive_core i tr l m l1 Crash Hok Er) as (Hc & Hb & Har & Hfi & Hbl).
    destruct (Harm l1) as [E1 E2]. split; [|by repeat constructor; left|by apply ops_ok_one|congruence|by rewrite E2].
    apply arm_ok; [done| | |congruence].
    + unfold room. rewrite attempts_app, app_nil_r, Hb. apply (lo_rows _ _ _ Hok).
    + rewrite Har, Hb. by eapply armed_nonempty.
  - destruct (flushShard i Returned l1) as [[l2 o1]|] eqn:Ef; [|done]. intros [= <- <-].
    destruct (Hflush _ FlushCrash _ _ Ef ltac:(done)) as (Hc & Ha & Hfi & Hbl & Hon & Hops & Hrw & _).
    destruct (Harm l2) as [E1 E2]. split; [apply arm_ok; congruence|done|done|congruence|by rewrite E2].
Qed.

Lemma enqueue_ok i tr l m :
  lane_ok i tr l -> home i m -> finished l <> Some ByClose -> full cfg l = false ->
  lane_ok i (tr ++ [Accepted i m]) (MkLane (queue l ++ [m]) (blocked l) (batch l) (armed l) (finished l)).
Proof.
  intros [[Hf Hb Hre How Hq Hfull Hh] Hr Ha Hd] Hm Hfin Hnf. apply Z.leb_gt in Hnf.
  assert (blocked l = []) as Hbl.
  { destruct (blocked l) as [|x bs]; [done|]. specialize (Hfull ltac:(done)). lia. }
  split; [|unfold room; by rewrite attempts_app, app_nil_r|done|simpl; congruence].
  split; autorewrite with astrate; simpl; rewrite ?Hbl, ?app_nil_r; try done; [|rewrite length_app; simpl; lia|].
  - rewrite bool_decide_eq_true_2, Hf, Hbl, app_nil_r, (assoc_L (++)) by done. done.
  - apply Forall_app. split; [done|]. rewrite bool_decide_eq_true_2 by done. by constructor.
Qed.

Lemma block_ok i tr l m :
  lane_ok i tr l -> home i m -> finished l <> Some ByClose -> full cfg l = true ->
  lane_ok i (tr ++ [Accepted i m]) (MkLane (queue l) (blocked l ++ [m]) (batch l) (armed l) (finished l)).
Proof.
  intros [[Hf Hb Hre How Hq Hfull Hh] Hr Ha Hd] Hm Hfin Hnf. apply Z.leb_le in Hnf.
  split; [|unfold room; by rewrite attempts_app, app_nil_r|done|simpl; congruence].
  split; autorewrite with astrate; simpl; rewrite ?app_nil_r; try done; [|lia|].
  - rewrite bool_decide_eq_true_2, Hf, <- !(assoc_L (++)) by done. done.
  - apply Forall_app. split; [done|]. rewrite bool_decide_eq_true_2 by done. by constructor.
Qed.

(** ** The invariant of the engine *)

Record engine_ok (e : engine) : Prop := {
  eo_len : length (lanes e) = Z.to_nat (Shards cfg);
  eo_lanes : forall i l, lanes e !! i = Some l -> lane_ok i (trace e) l;
  eo_closed : closed e = true -> forall i l, lanes e !! i = Some l -> blocked l = [];
  eo_open : closed e = false -> forall i l, lanes e !! i = Some l -> finished l <> Some ByClose;
  eo_cancelled : forall i l, lanes e !! i = Some l -> finished l = Some ByCancel -> cancelled e = true;
  eo_ops : ops_ok (trace e);
  eo_range : forall o i, o ∈ trace e -> lane_of o = Some i -> i < length (lanes e);
}.

Lemma with_lane_ok e i l l' o :
  engine_ok e -> lanes e !! i = Some l -> lane_ok i (trace e ++ o) l' -> on_lane i o -> ops_ok o ->
  (closed e = true -> blocked l' = []) -> (closed e = false -> finished l' <> Some ByClose) ->
  (finished l' = Some ByCancel -> cancelled e = true) -> engine_ok (with_lane e i l' o).
Proof.
  intros [H1 H2 H3 H4 H5 H6 H7] Hl Hok Ho Hops Hc Hf Hx. unfold with_lane. split; cbn [lanes closed trace quit cancelled].
  - by rewrite length_insert.
  - intros j lj [(<- & -> & _)|[Hne Hj]]%list_lookup_insert_Some; [done|].
    eapply lane_frame; [by apply H2|done|done].
  - intros Hcl j lj [(<- & -> & _)|[Hne Hj]]%list_lookup_insert_Some; [by apply Hc|by eapply H3].
  - intros Hcl j lj [(<- & -> & _)|[Hne Hj]]%list_lookup_insert_Some; [by apply Hf|by eapply H4].
  - intros j lj [(<- & -> & _)|[Hne Hj]]%list_lookup_insert_Some; [by apply Hx|by eapply H5].
  - by apply ops_ok_app.
  - rewrite length_insert. intros x j [Hx'|Hx']%elem_of_app Hj; [by eapply H7|].
    unfold on_lane in Ho. rewrite Forall_forall in Ho. destruct (Ho x Hx') as [E|E]; rewrite E in Hj; [|done].
    injection Hj as <-. by eapply lookup_lt_Some.
Qed.

Lemma emit_ok e o :
  engine_ok e -> Forall (fun x => lane_of x = None) o -> engine_ok (emit e o).
Proof.
  intros [H1 H2 H3 H4 H5 H6 H7] Ho. split; cbn [emit lanes closed trace cancelled]; try done.
  - intros i l Hl. apply (lane_frame i (S i)); [by apply H2| |lia].
    eapply Forall_impl; [exact Ho|]. auto.
  - apply ops_ok_app; [done|]. rewrite Forall_forall in Ho. intros i m op Hin. by apply Ho in Hin.
  - intros x j [Hx|Hx]%elem_of_app Hj; [by eapply H7|]. rewrite Forall_forall in Ho. rewrite (Ho x Hx) in Hj. done.
Qed.

Lemma submit_ok e m e' : engine_ok e -> submit cfg e m = Some e' -> engine_ok e'.
Proof.
  intros Hok. unfold submit. destruct (closed e) eqn:Ec.
  { intros [= <-]. apply emit_ok; [done|by repeat constructor]. }
  destruct (lanes e !! _) as [l|] eqn:El; [|done].
  pose proof (eo_lanes e Hok _ _ El) as Hl. pose proof (eo_open e Hok Ec _ _ El) as Hf.
  pose proof (eo_cancelled e Hok _ _ El) as Hx.
  assert (forall x, ops_ok [Accepted x m]) as Hacc by (by intros x ??? [= ]%list_elem_of_singleton).
  destruct (full cfg l) eqn:Efl; cbn [negb].
  - destruct (mQoS m =? 0)%Z.
    { intros [= <-]. apply emit_ok; [done|by repeat constructor]. }
    intros [= <-]. eapply with_lane_ok; eauto; [by apply block_ok|by apply on_lane_one|congruence].
  - intros [= <-]. eapply with_lane_ok; eauto; [by apply enqueue_ok|by apply on_lane_one|congruence].
Qed.

Lemma running_None l : running l = true <-> finished l = None.
Proof. unfold running. by destruct (finished l). Qed.

Lemma step_ok e lb e' : engine_ok e -> step cfg e lb = Some e' -> engine_ok e'.
Proof.
  intros Hok. destruct lb as [m|i a r|i r| | |i r| |i]; simpl.
  - by apply submit_ok.
  - destruct (lanes e !! i) as [l|] eqn:El; [|done]. simpl. destruct (running l) eqn:Ef; [|done]. apply running_None in Ef.
    destruct (deliver cfg i a r l) as [[l' o]|] eqn:Ed; [|done]. intros [= <-].
    destruct (deliver_ok _ _ _ _ _ _ _ (eo_lanes e Hok _ _ El) Ef Ed) as [H1 H2 H3 H4 H5].
    apply (with_lane_ok e i l); try done; [|congruence|congruence]. intros Hc. apply H5. by eapply eo_closed.
  - destruct (lanes e !! i) as [l|] eqn:El; [|done]. simpl. destruct (running l) eqn:Ef; [|done]. apply running_None in Ef.
    destruct (armed l); [|done]. simpl. destruct (flush_or_restart i r l) as [[l' o]|] eqn:Efl; [|done]. intros [= <-].
    pose proof (eo_lanes e Hok _ _ El) as Hl. pose proof (lo_rows _ _ _ Hl).
    destruct (flush_or_restart_ok _ _ _ _ _ _ (lo_core _ _ _ Hl) ltac:(lia) Ef Efl) as (H1 & H2 & H3 & H4 & H5 & _).
    apply (with_lane_ok e i l); try done; [by eapply flush_or_restart_ops| |congruence|congruence].
    intros Hc. rewrite H5. by eapply eo_closed.
  - intros [= <-]. by destruct Hok.
  - destruct (quit e); simpl; [|done]. destruct (forallb _ _) eqn:Eb; [|done]. intros [= <-].
    destruct Hok as [H1 H2 H3 H4 H5 H6 H7]. split; cbn [lanes closed trace cancelled]; try done.
    intros _ i l Hi. rewrite forallb_forall in Eb. specialize (Eb l).
    rewrite <- list_elem_of_In in Eb. specialize (Eb ltac:(by eapply list_elem_of_lookup_2)).
    by destruct (blocked l).
  - destruct (lanes e !! i) as [l|] eqn:El; [|done]. simpl. destruct (closed e) eqn:Ec; [|done]. simpl.
    destruct (queue l) eqn:Eq; [|done]. simpl. destruct (running l) eqn:Ef; [|done]. apply running_None in Ef. simpl.
    destruct (flush_or_restart i r l) as [[l' o]|] eqn:Efl; [|done]. intros [= <-].
    pose proof (eo_lanes e Hok _ _ El) as Hl. pose proof (eo_closed e Hok Ec _ _ El) as Hb. pose proof (lo_rows _ _ _ Hl).
    destruct (flush_or_restart_ok _ _ _ _ _ _ (lo_core _ _ _ Hl) ltac:(lia) Ef Efl) as (H1 & H2 & H3 & H4 & H5 & H6).
    pose proof (flush_or_restart_ops _ _ _ _ _ Efl) as Hops. rewrite Eq in H4. rewrite Hb in H5. destruct r as [|marks].
    + apply (with_lane_ok e i l); try done; [|congruence]. destruct H1 as [K1 K2 K3 K4].
      split; simpl; [by eapply core_ext, K1|done|done|]. intros _. by rewrite H4, H5, H6.
    + apply (with_lane_ok e i l); try done; congruence.
  - intros [= <-]. by destruct Hok.
  - destruct (lanes e !! i) as [l|] eqn:El; [|done]. simpl. destruct (cancelled e) eqn:Ex; [|done]. simpl.
    destruct (running l) eqn:Ef; [|done]. intros [= <-]. pose proof (eo_lanes e Hok _ _ El) as [K1 K2 K3 K4].
    apply (with_lane_ok e i l); try done.
    + rewrite app_nil_r. split; simpl; [by eapply core_ext, K1|done|done|done].
    + constructor.
    + by intros ??? ?%not_elem_of_nil.
    + intros Hc. simpl. by eapply eo_closed.
Qed.

Lemma init_ok : engine_ok (init cfg).
Proof.
  split; simpl.
  - apply length_replicate.
  - intros i l [-> _]%lookup_replicate. repeat split; simpl; try done; unfold room; simpl; try lia. constructor.
  - done.
  - by intros _ i l [-> _]%lookup_replicate.
  - by intros i l [-> _]%lookup_replicate.
  - by intros ??? ?%not_elem_of_nil.
  - by intros ?? ?%not_elem_of_nil.
Qed.

Lemma reachable_ok e : reachable cfg e -> engine_ok e.
Proof. induction 1; [apply init_ok|by eapply step_ok]. Qed.

End Invariant.

(** ** Devices keep their order *)

Definition all_accepted (tr : list obs) : list InboundMessage :=
  omap (fun o => match o with Accepted _ m => Some m | _ => None end) tr.
Definition all_flushed (tr : list obs) : list PersistOp :=
  tr ≫= fun o => match o with FlushCall _ ops => ops | _ => [] end.
Definition of_device (d : gostring) (m : InboundMessage) : Prop := mDeviceID m = d.
Definition op_of_device (d : gostring) (op : PersistOp) : Prop := DeviceID op = d.
#[global] Instance of_device_dec d m : Decision (of_device d m).
Proof. unfold of_device. apply _. Defined.
#[global] Instance op_of_device_dec d op : Decision (op_of_device d op).
Proof. unfold op_of_device. apply _. Defined.

(** The accepted messages of a device are those of its lane. *)
Lemma device_accepted n d tr :
  (forall j, Forall (fun m => Z.to_nat (shardOf (mDeviceID m) n) = j) (accepted j tr)) ->
  filter (of_device d) (all_accepted tr) = filter (of_device d) (accepted (Z.to_nat (shardOf d n)) tr).
Proof.
  induction tr as [|o tr IH] using rev_ind; intros Hh; [done|].
  assert (forall j, Forall (fun m => Z.to_nat (shardOf (mDeviceID m) n) = j) (accepted j tr)) as Hh'.
  { intros j. specialize (Hh j). rewrite accepted_app in Hh. by apply Forall_app in Hh as [? _]. }
  unfold all_accepted. rewrite omap_app, accepted_app, !filter_app. f_equal; [by apply IH|].
  destruct o as [j m|m|m|j m a|j ops|j ops]; try done. simpl. case_bool_decide as E; [done|].
  rewrite filter_cons_False; [done|]. unfold of_device. intros <-.
  specialize (Hh j). rewrite accepted_app in Hh. apply Forall_app in Hh as [_ Hh]. simpl in Hh.
  rewrite bool_decide_eq_true_2 in Hh by done. apply Forall_cons in Hh as [Hh _]. by apply E.
Qed.

(** The same of the flushed operations. *)
Lemma device_flushed n d tr :
  (forall j, Forall (fun op => Z.to_nat (shardOf (DeviceID op) n) = j) (flushed j tr)) ->
  filter (op_of_device d) (all_flushed tr) = filter (op_of_device d) (flushed (Z.to_nat (shardOf d n)) tr).
Proof.
  induction tr as [|o tr IH] using rev_ind; intros Hh; [done|].
  assert (forall j, Forall (fun op => Z.to_nat (shardOf (DeviceID op) n) = j) (flushed j tr)) as Hh'.
  { intros j. specialize (Hh j). rewrite flushed_app in Hh. by apply Forall_app in Hh as [? _]. }
  unfold all_flushed. rewrite bind_app, flushed_app, !filter_app. f_equal; [by apply IH|].
  destruct o as [j m|m|m|j m a|j ops|j ops]; try done; unfold flushed; simpl; rewrite ?app_nil_r; case_bool_decide as E;
    simpl; rewrite ?app_nil_r; try done.
  specialize (Hh j). rewrite flushed_app in Hh. apply Forall_app in Hh as [_ Hh]. unfold flushed in Hh. simpl in Hh.
  rewrite bool_decide_eq_true_2 in Hh by done. simpl in Hh. rewrite app_nil_r in Hh.
  change (Forall (fun op => Z.to_nat (shardOf (DeviceID op) n) = j) ops) in Hh.
  induction Hh as [|op ops Hop _ IHo]; [done|]. rewrite filter_cons_False; [done|].
  unfold op_of_device. intros <-. by apply E.
Qed.

(** Operations come from handled messages, in their order. *)
Lemma device_appended d i tr :
  ops_ok tr ->
  map ack (filter (op_of_device d) (appended i tr)) `sublist_of`
  map mAck (filter (of_device d) (handled i tr)).
Proof.
  induction tr as [|o tr IH] using rev_ind; intros Hops; [done|].
  rewrite appended_app, handled_app, !filter_app, !map_app. apply sublist_app.
  { apply IH. intros j m op Hin. apply (Hops j). set_solver. }
  destruct o as [j m|m|m|j m [op| | | |]|j ops|j ops]; try done; simpl.
  - case_bool_decide as E; [|done]. destruct (Hops j m op) as [Ha Hd]; [set_solver|].
    destruct (decide (mDeviceID m = d)) as [Hm|Hm].
    + rewrite !filter_cons_True by (unfold op_of_device, of_device; congruence). simpl. by rewrite Ha.
    + rewrite !filter_cons_False by (unfold op_of_device, of_device; congruence). done.
  - apply sublist_nil_l.
  - apply sublist_nil_l.
  - apply sublist_nil_l.
  - apply sublist_nil_l.
Qed.

(** Every operation of a lane was appended there for a message of that lane. *)
Lemma flushed_home n i tr :
  ops_ok tr -> Forall (fun m => Z.to_nat (shardOf (mDeviceID m) n) = i) (handled i tr) ->
  Forall (fun op => Z.to_nat (shardOf (DeviceID op) n) = i) (appended i tr).
Proof.
  induction tr as [|o tr IH] using rev_ind; intros Hops Hh; [done|].
  rewrite handled_app in Hh. apply Forall_app in Hh as [H1 H2]. rewrite appended_app. apply Forall_app. split.
  { apply IH; [|done]. intros j m op Hin. apply (Hops j). set_solver. }
  destruct o as [j m|m|m|j m [op| | | |]|j ops|j ops]; try done; simpl in *.
  case_bool_decide as E; [|done]. destruct (Hops j m op) as [Ha Hd]; [set_solver|].
  apply Forall_cons in H2 as [H2 _]. constructor; [|done]. by rewrite Hd.
Qed.

(** The mark changes neither the message an operation acknowledges nor its device. *)
Lemma device_bare d ops : map ack (filter (op_of_device d) (bare <$> ops)) = map ack (filter (op_of_device d) ops).
Proof.
  induction ops as [|op ops IH]; [done|]. rewrite fmap_cons. destruct (decide (op_of_device d op)) as [Hd|Hd].
  - rewrite !filter_cons_True by done. simpl. by f_equal.
  - by rewrite !filter_cons_False.
Qed.

Lemma home_bare n i ops :
  Forall (fun op => Z.to_nat (shardOf (DeviceID op) n) = i) (bare <$> ops) <->
  Forall (fun op => Z.to_nat (shardOf (DeviceID op) n) = i) ops.
Proof. by rewrite Forall_fmap. Qed.

Lemma config_positive cfg0 cfg :
  newEngine cfg0 = Some cfg ->
  (0 < Shards cfg)%Z /\ (0 < ShardQueue cfg)%Z /\ (0 < BatchMaxRows cfg)%Z /\ (0 < BatchMaxWait cfg)%Z.
Proof.
  unfold newEngine, or_default. destruct (_ || _) eqn:E; [done|]. intros [= <-]. simpl in *.
  rewrite !orb_false_iff, !Z.ltb_ge in E. unfold DefaultShards, DefaultShardQueue, DefaultBatchMaxRows, DefaultBatchMaxWait in *.
  repeat match goal with |- context[(?x =? 0)%Z] => destruct (Z.eqb_spec x 0) end; lia.
Qed.

(** What is left to do in a lane: queued and blocked messages, the timer, the
    goroutine itself. *)
Definition bit (b : bool) : nat := if b then 1 else 0.
Definition lane_work (l : lane) : nat :=
  2 * length (queue l) + 2 * length (blocked l) + bit (armed l) + bit (running l).
Definition work (e : engine) : nat := sum_list_with lane_work (lanes e).

Lemma work_insert ls i l l' :
  ls !! i = Some l ->
  sum_list_with lane_work (<[i := l']> ls) + lane_work l = sum_list_with lane_work ls + lane_work l'.
Proof.
  revert i. induction ls as [|x ls IH]; intros [|i]; simpl; try done.
  - intros [= ->]. lia.
  - intros Hi. specialize (IH i Hi). lia.
Qed.

Lemma ends_work how l :
  lane_work (ends how l) = 2 * length (queue l) + 2 * length (blocked l) + bit (armed l).
Proof. unfold lane_work. simpl. lia. Qed.

Lemma bit_le b : bit b <= 1.
Proof. destruct b; simpl; lia. Qed.

Lemma arm_same l : queue (arm l) = queue l /\ blocked (arm l) = blocked l /\ finished (arm l) = finished l.
Proof. unfold arm. by destruct (_ && _). Qed.

Lemma flushShard_same i r l l' o :
  flushShard i r l = Some (l', o) -> queue l' = queue l /\ blocked l' = blocked l /\ finished l' = finished l /\ armed l' = false.
Proof. unfold flushShard. destruct r; [|destruct (_ && _); [|done]]; by intros [= <- _]. Qed.

Lemma flush_or_restart_same i r l l' o :
  flush_or_restart i r l = Some (l', o) ->
  queue l' = queue l /\ blocked l' = blocked l /\ finished l' = finished l /\ (r = Returned -> armed l' = false).
Proof.
  unfold flush_or_restart. destruct (flushShard i r l) as [[l1 o1]|] eqn:E; [|done]. intros [= <- _].
  apply flushShard_same in E as (? & ? & ? & ?). destruct r; [done|].
  destruct (arm_same l1) as (-> & -> & ->). done.
Qed.

Lemma after_handle_same cfg i r l l' o :
  after_handle cfg i r l = Some (l', o) -> queue l' = queue l /\ blocked l' = blocked l /\ finished l' = finished l.
Proof.
  unfold after_handle. destruct (_ <=? _)%Z; [by intros (? & ? & ? & _)%flush_or_restart_same|].
  intros [= <- _]. apply arm_same.
Qed.

Lemma deliver_work cfg i a r l l' o : deliver cfg i a r l = Some (l', o) -> lane_work l' < lane_work l.
Proof.
  unfold deliver, receive. destruct (queue l) as [|m rest] eqn:Eq; [done|]. cbn [mbind option_bind].
  set (l1 := MkLane _ _ _ _ _).
  assert (forall x, queue x = queue l1 /\ blocked x = blocked l1 /\ finished x = finished l1 -> lane_work x < lane_work l) as Hx.
  { intros x (H1 & H2 & H3). unfold lane_work, running. rewrite H1, H2, H3, Eq. subst l1. cbn [queue blocked finished].
    rewrite length_app, length_take, length_drop. simpl. pose proof (bit_le (armed x)).
    destruct (length (blocked l)); lia. }
  destruct a as [op| | | |].
  - case_bool_decide; [|done]. destruct (after_handle _ _ _ _) as [[l2 o2]|] eqn:E; [|done]. intros [= <- _].
    apply Hx. by apply after_handle_same in E.
  - destruct (after_handle _ _ _ _) as [[l2 o2]|] eqn:E; [|done]. intros [= <- _].
    apply Hx. by apply after_handle_same in E.
  - destruct (flushShard i r l1) as [[l2 o1]|] eqn:Ef; [|done]. cbn [mbind option_bind].
    apply flushShard_same in Ef as (F1 & F2 & F3 & _). destruct r as [|marks].
    + destruct (after_handle _ _ _ _) as [[l3 o2]|] eqn:E; [|done]. intros [= <- _]. apply Hx.
      apply after_handle_same in E as (-> & -> & ->). done.
    + intros [= <- _]. apply Hx. destruct (arm_same l2) as (-> & -> & ->). done.
  - intros [= <- _]. apply Hx, arm_same.
  - destruct (flushShard i Returned l1) as [[l2 o1]|] eqn:Ef; [|done]. intros [= <- _].
    apply flushShard_same in Ef as (F1 & F2 & F3 & _). apply Hx. destruct (arm_same l2) as (-> & -> & ->). done.
Qed.

(** The steps of the shard goroutines that get on: a message is taken, or the
    flush of a timer or of a closed lane returns. *)
Definition lane_step (lb : label) : bool :=
  match lb with Deliver _ _ _ | Timer _ Returned | Finish _ Returned => true | _ => false end.

(** The lane's part of a step, as a change of one lane. *)
Lemma step_lane_work e i l l' o :
  lanes e !! i = Some l -> work (with_lane e i l' o) + lane_work l = work e + lane_work l'.
Proof. intros Hl. unfold work, with_lane. simpl. by apply work_insert. Qed.

Lemma lane_step_work cfg e lb e' :
  lane_step lb = true -> step cfg e lb = Some e' -> work e' < work e.
Proof.
  intros Hlb. destruct lb as [m|i a r|i [|marks]| | |i [|marks]| |i]; try done; cbn [step];
    (destruct (lanes e !! i) as [l|] eqn:El; [|done]); cbn [mbind option_bind].
  - destruct (running l); [|done]. destruct (deliver cfg i a r l) as [[l' o]|] eqn:Ed; [|done]. cbn [mbind option_bind].
    intros [= <-]. apply deliver_work in Ed. pose proof (step_lane_work e i l l' o El). lia.
  - destruct (running l) eqn:Er, (armed l) eqn:Ea; try done. cbn [andb].
    destruct (flush_or_restart i Returned l) as [[l' o]|] eqn:Ef; [|done]. cbn [mbind option_bind]. intros [= <-].
    pose proof (step_lane_work e i l l' o El) as Hw.
    apply flush_or_restart_same in Ef as (F1 & F2 & F3 & F4). specialize (F4 eq_refl).
    unfold lane_work, running in *. rewrite F1, F2, F3, F4 in *. rewrite Ea in Hw. simpl in *. lia.
  - destruct (closed e); [|done]. cbn [andb]. destruct (queue l) eqn:Eq; [|done]. cbn [nonempty negb andb].
    destruct (running l) eqn:Er; [|done].
    destruct (flush_or_restart i Returned l) as [[l' o]|] eqn:Ef; [|done]. cbn [mbind option_bind]. intros [= <-].
    pose proof (step_lane_work e i l (ends ByClose l') o El) as Hw.
    apply flush_or_restart_same in Ef as (F1 & F2 & F3 & F4). specialize (F4 eq_refl).
    rewrite ends_work in Hw. unfold lane_work in Hw. rewrite F1, F2, F4, Er in Hw. pose proof (bit_le (armed l)). simpl in Hw. lia.
Qed.

Lemma work_zero e : work e = 0 <-> Forall (fun l => lane_work l = 0) (lanes e).
Proof.
  unfold work. induction (lanes e) as [|l ls IH]; simpl; [done|].
  rewrite Forall_cons, <- IH. lia.
Qed.

(** A running lane of a closed engine has a step. *)
Lemma lane_progress cfg e i l :
  closed e = true -> lanes e !! i = Some l -> running l = true ->
  exists lb e', lane_step lb = true /\ step cfg e lb = Some e'.
Proof.
  intros Hc Hl Hf. destruct (queue l) as [|m rest] eqn:Eq.
  - exists (Finish i Returned). simpl. rewrite Hl. simpl. rewrite Hc, Eq, Hf. simpl. eauto.
  - exists (Deliver i Crash Returned). simpl. rewrite Hl. simpl. rewrite Hf. unfold deliver, receive. rewrite Eq. simpl. eauto.
Qed.

(** No other step makes work once the lanes are closed. *)
Lemma closed_steps cfg e lb e' :
  engine_ok cfg e -> closed e = true -> lane_step lb = false -> step cfg e lb = Some e' ->
  closed e' = true /\ work e' <= work e.
Proof.
  intros Hok Hc. destruct lb as [m|i a r|i [|marks]| | |i [|marks]| |i]; try done; intros _; cbn [step].
  - unfold submit. rewrite Hc. by intros [= <-].
  - destruct (lanes e !! i) as [l|] eqn:El; [|done]. cbn [mbind option_bind]. destruct (running l), (armed l) eqn:Ea; try done.
    cbn [andb]. destruct (flush_or_restart i _ l) as [[l' o]|] eqn:Ef; [|done]. cbn [mbind option_bind]. intros [= <-].
    split; [done|]. pose proof (step_lane_work e i l l' o El) as Hw.
    apply flush_or_restart_same in Ef as (F1 & F2 & F3 & _). unfold lane_work, running in Hw.
    rewrite F1, F2, F3, Ea in Hw. pose proof (bit_le (armed l')). simpl in Hw. lia.
  - by intros [= <-].
  - destruct (quit e && _); [|done]. by intros [= <-].
  - destruct (lanes e !! i) as [l|] eqn:El; [|done]. cbn [mbind option_bind]. rewrite Hc. cbn [andb].
    destruct (queue l) eqn:Eq; [|done]. cbn [nonempty negb andb]. destruct (running l) eqn:Er; [|done].
    destruct (flush_or_restart i _ l) as [[l' o]|] eqn:Ef; [|done]. cbn [mbind option_bind]. intros [= <-]. split; [done|].
    pose proof (step_lane_work e i l l' o El) as Hw. pose proof (eo_lanes _ _ Hok _ _ El) as Hl.
    assert (armed l = true) as Ea.
    { rewrite (lo_armed _ _ _ _ Hl). unfold flush_or_restart, flushShard in Ef. by destruct (nonempty (batch l)). }
    apply flush_or_restart_same in Ef as (F1 & F2 & F3 & _). unfold lane_work, running in Hw.
    rewrite F1, F2, F3, Ea in Hw. pose proof (bit_le (armed l')). simpl in Hw. lia.
  - by intros [= <-].
  - destruct (lanes e !! i) as [l|] eqn:El; [|done]. cbn [mbind option_bind].
    destruct (cancelled e), (running l) eqn:Er; try done. cbn [andb]. intros [= <-]. split; [done|].
    pose proof (step_lane_work e i l (ends ByCancel l) [] El) as Hw.
    rewrite ends_work in Hw. unfold lane_work in Hw. rewrite Er in Hw. simpl in Hw. lia.
Qed.

(** A number is a lane's, or no observation bears it. *)
Lemma lane_or_nothing cfg e i :
  engine_ok cfg e ->
  (exists l, lanes e !! i = Some l /\ lane_core cfg i (trace e) l) \/
  (accepted i (trace e) = [] /\ handled i (trace e) = [] /\ appended i (trace e) = [] /\ attempts i (trace e) = []).
Proof.
  intros Hok. destruct (lanes e !! i) as [l|] eqn:El; [left; exists l; split; [done|by apply (eo_lanes _ _ Hok)]|right].
  apply lookup_ge_None in El. pose proof (eo_range _ _ Hok) as Hr.
  assert (Forall (fun o => lane_of o <> Some i) (trace e)) as Hno.
  { apply Forall_forall. intros o Ho E. specialize (Hr o i Ho E). lia. }
  clear -Hno. induction Hno as [|x o Hx _ (H1 & H2 & H3 & H4)]; [done|].
  destruct (lane_of x) as [j|] eqn:Ex.
  - destruct (other_lane i j [x]) as (E1 & E2 & E3 & E4); [by apply on_lane_one|congruence|].
    change (x :: o) with ([x] ++ o). autorewrite with astrate. rewrite E1, E2, E3, E4, H1, H2, H3, H4. done.
  - change (x :: o) with ([x] ++ o). autorewrite with astrate. rewrite H1, H2, H3, H4. by destruct x.
Qed.

(** ** The guarantees of the router *)



(** Draining ends with nothing left: once the lanes are closed, every message
    taken and every flush of a shard that returns uses up some of a finite
    amount of work and no other step adds to it; while the context is not
    cancelled such a step is possible as long as there is work; and when the
    work is used up every accepted message was handled and every operation was
    given to a flush that returned. *)
Theorem drain_completes cfg0 cfg e :
  newEngine cfg0 = Some cfg -> reachable cfg e -> closed e = true ->
  (forall lb e', step cfg e lb = Some e' ->
     if lane_step lb then work e' < work e else closed e' = true /\ work e' <= work e) /\
  (cancelled e = false -> work e <> 0 -> exists lb e', lane_step lb = true /\ step cfg e lb = Some e') /\
  (work e = 0 -> forall i, accepted i (trace e) = handled i (trace e) /\
     bare <$> appended i (trace e) = bare <$> flushed i (trace e)).
Proof.
  intros (Hs & Hq & Hr & _)%config_positive He Hc.
  pose proof (reachable_ok cfg Hq Hr e He) as Hok. split_and!.
  - intros lb e' Hstep. destruct (lane_step lb) eqn:El; [by eapply lane_step_work|by eapply closed_steps].
  - intros Hx Hw. destruct (decide (Forall (fun l => running l = false) (lanes e))) as [Hall|Hnot].
    + destruct Hw. apply work_zero. apply Forall_lookup. intros i l Hl.
      rewrite Forall_lookup in Hall. specialize (Hall i l Hl). pose proof (eo_cancelled _ _ Hok i l Hl) as Hcx.
      destruct (eo_lanes _ _ Hok i l Hl) as [_ _ Ha Hd]. unfold lane_work. rewrite Hall. unfold running in Hall.
      destruct (finished l) as [[]|]; [|by rewrite Hx in Hcx; specialize (Hcx eq_refl)|done].
      destruct (Hd eq_refl) as (Hq' & Hb & Hba). by rewrite Hq', Hb, Ha, Hba.
    + apply not_Forall_Exists in Hnot; [|apply _]. apply Exists_exists in Hnot as (l & Hin & Hf).
      apply list_elem_of_lookup in Hin as [i Hl]. apply not_false_iff_true in Hf. by eapply lane_progress.
  - intros Hw i. apply work_zero in Hw. rewrite Forall_lookup in Hw. unfold flushed.
    destruct (lane_or_nothing cfg e i Hok) as [(l & El & [])|(-> & -> & -> & ->)]; [|done].
    specialize (Hw i l El). unfold lane_work in Hw. pose proof (lo_armed _ _ _ _ (eo_lanes _ _ Hok i l El)) as Ha.
    destruct (queue l) eqn:E1, (blocked l) eqn:E2, (armed l) eqn:E3; simpl in Hw; try lia.
    destruct (batch l) eqn:E4; [|done]. fold (flushed i (trace e)).
    rewrite lc_fifo0, lc_batch0, !app_nil_r. done.
Qed.

(** What [handle] does with a message is one of the actions, and never a
    panic: a data message the pipeline accepts is appended as one operation
    that carries the message's acknowledgement; a rejected or unhandled one is
    acknowledged at once, one abandoned at shutdown is not; and the messages
    of the introspection, control and capabilities handlers are preceded by a
    flush. *)
Theorem handle_is_action `{Codec.PayloadDecoder, JSONText} first_key env st m st' effs :
  (forall rs, envRealm env = Some rs -> realm_ok rs) -> ranges first_key ->
  handle first_key env st m = Some (st', effs) ->
  exists a, match a with
            | Append op => pending (Pipeline.batch st') = pending (Pipeline.batch st) ++ [op] /\
                           op_for m op /\ eff_acks effs = []
            | Consume => Pipeline.batch st' = Pipeline.batch st /\
                         (eff_acks effs = [mAck m] \/ effs = [] /\ exists k, envQuit env k = true)
            | FlushConsume => Pipeline.batch st' = Pipeline.batch st /\
                              exists kind sub, effs = [EffFlush; EffHandler kind sub] /\ kind <> Topics.kindData
            | Crash | FlushCrash => False
            end.
Proof.
  intros Hrs Hfk. unfold handle. destruct (envRealm env) as [rs|] eqn:Er.
  2: { intros [= <- <-]. exists Consume. split; [done|by left]. }
  destruct (Topics.splitDeviceTopic _ _ _) as [rest|].
  2: { intros [= <- <-]. exists Consume. split; [done|by left]. }
  destruct (Topics.classify rest) as [kind sub]. case_bool_decide as Hk.
  { destruct (envWired env kind); intros [= <- <-].
    - exists FlushConsume. split; [done|]. by exists kind, sub.
    - exists Consume. split; [done|by left]. }
  destruct (deviceState_loop _ _ _ _ _ _ _ _) as [[c [dev| |]]|] eqn:Ed; [| | |done].
  - destruct (processData first_key rs (envReads env) dev (Pipeline.batch st) m rest) as [[dev' b'] effs'] eqn:Ep.
    intros [= <- <-]. apply (processData_cases rs (Hrs rs eq_refl)) in Ep; [|done].
    destruct Ep as [((reason & _ & ->) & -> & _)|(r & op & _ & Hp & Hc & Ha & _)].
    + exists Consume. split; [done|by left].
    + exists (Append op). split_and!; [done| |done]. split; [by apply (oc_ack _ _ _ _ Hc)|by apply (oc_device _ _ _ _ Hc)].
  - intros [= <- <-]. exists Consume. split; [done|by left].
  - intros [= <- <-]. exists Consume. split; [done|]. right. split; [done|]. clear -Ed. revert Ed.
    generalize 0%nat as k. generalize (Pipeline.devices st) as c0. induction (envFuel env) as [|n IH]; intros c0 k; simpl; [done|].
    destruct (get _ _ _ _ _) as [c1 [d|[]]]; try done. destruct (envQuit env k) eqn:Eq; [by exists k|]. apply IH.
Qed.

(** ** Examples *)

Definition small : Config := MkConfig 2 1 2 0 0.
Definition small_config : Config := default small (newEngine small).
Lemma small_accepted : newEngine small = Some small_config.
Proof. reflexivity. Qed.

Definition exec (cfg : Config) (e : engine) (ls : list label) : option engine :=
  foldl (fun o lb => e ← o; step cfg e lb) (Some e) ls.
Lemma exec_reachable cfg ls e e' : reachable cfg e -> exec cfg e ls = Some e' -> reachable cfg e'.
Proof.
  unfold exec. revert e. induction ls as [|lb ls IH]; intros e He; simpl; [by intros [= <-]|].
  destruct (step cfg e lb) as [e1|] eqn:E; [apply IH; by econstructor|].
  intros Hx. exfalso. revert Hx. clear. by induction ls.
Qed.

Definition sample_append (id : nat) : action := Append (Batch.with_ack (sample_op OpPropertySet (Batch.int_value 1)) id).
Definition home_lane : nat := Z.to_nat (shardOf (mDeviceID (sample_message 0)) (Shards small_config)).
(** Three messages of one device on a queue of one: two senders block; two
    operations fill the batch; their flush panics and is made again by the
    timer; then the engine drains. *)
Definition busy_run : list label :=
  [Submit (sample_message 0); Submit (sample_message 1); Submit (sample_message 2);
   Deliver home_lane (sample_append 0) Returned;
   Deliver home_lane (sample_append 1) (Panicked [false; false]); Timer home_lane Returned;
   BeginDrain; CloseLanes].
Definition busy : engine := default (init small_config) (exec small_config (init small_config) busy_run).
Lemma busy_reachable : reachable small_config busy.
Proof. apply (exec_reachable _ busy_run (init small_config)); [constructor|vm_compute; reflexivity]. Qed.



Lemma drain_completes_witness :
  work busy = 4 /\ exists lb e', lane_step lb = true /\ step small_config busy lb = Some e'.
Proof.
  split; [vm_compute; reflexivity|].
  apply (drain_completes small small_config busy small_accepted busy_reachable eq_refl); [reflexivity|].
  vm_compute. discriminate.
Defined.

Definition sample_env : message_env :=
  MkEnv (Some sample_realm) quiet_reads 1
    (fun _ => Ok (MkDeviceRow hintBSON {["org.astrate.Sensors"%go := Introspection.MkVersion 1 0]}))
    (fun _ => false) (fun _ => true).
Definition addressed (m : InboundMessage) (rest : gostring) : InboundMessage :=
  MkMessage (mRealm m) (mDeviceID m) (Topics.deviceTopic (mRealm m) (mDeviceID m) rest) (mPayload m) (mQoS m)
    (mReceivedAt m) (mAck m).

Lemma handle_is_action_witness :
  let m := addressed (sample_message 7) "org.astrate.Sensors/4/x"%go in
  exists st effs, @handle sample_decoder map_first toy_text sample_env (MkShard ∅ (MkBatcher [] ∅)) m = Some (st, effs) /\
    length (pending (Pipeline.batch st)) = 1 /\ eff_acks effs = [].
Proof.
  cbv zeta. set (m := addressed (sample_message 7) "org.astrate.Sensors/4/x"%go).
  destruct (@handle sample_decoder map_first toy_text sample_env (MkShard ∅ (MkBatcher [] ∅)) m)
    as [[st effs]|] eqn:E; [|vm_compute in E; discriminate E].
  exists st, effs. split; [reflexivity|].
  assert (Hl : ((fun r => length (pending (Pipeline.batch r.1))) <$>
    @handle sample_decoder map_first toy_text sample_env (MkShard ∅ (MkBatcher [] ∅)) m) = Some 1) by (vm_compute; reflexivity).
  rewrite E in Hl. apply (inj Some) in Hl. cbn [fst] in Hl.
  split; [exact Hl|].
  destruct (@handle_is_action sample_decoder toy_text map_first sample_env (MkShard ∅ (MkBatcher [] ∅)) m st effs)
    as (a & Ha).
  - exact (some_elim realm_ok _ sample_realm_ok).
  - exact map_first_ranges.
  - exact E.
  - destruct a as [op| | | |]; [apply Ha| | |destruct Ha|destruct Ha].
    + destruct Ha as [Hb _]. rewrite Hb in Hl. discriminate Hl.
    + destruct Ha as [Hb _]. rewrite Hb in Hl. discriminate Hl.
Defined.

End Router.
