(* ===== verification/Events.v ===== *)
(** * Events of committed operations and devices

    src/internal/engine/engine.go (the observers [New] wires to the pipeline)
    and src/internal/engine/triggers/events.go (the event bodies). Each
    observer is a function from what it is told to the deliveries it hands to
    the executor, in order, and the events it publishes on the live bus. *)

From S2P Require Import Prelude GoStrings DeviceID SchemaTypes InterfaceParse EndpointTrie Compile Broker.
From S2P Require Import PayloadValue PayloadJson Rows Batch Policy Triggers Cache Pipeline.

Module Events.
Import Schema Parse Trie Compile Payload Json Rows Batch Cache Pipeline.

(** ** Event bodies *)

(** The typed bodies of events.go, by their members. *)
Inductive event_body :=
| IncomingDataEvent (iface path : gostring) (value : jany)
| ValueChangeEvent (iface path : gostring) (oldValue : option generic) (newValue : jany)
| ValueChangeAppliedEvent (iface path : gostring) (oldValue : option generic) (newValue : jany)
| PathCreatedEvent (iface path : gostring) (value : jany)
| PathRemovedEvent (iface path : gostring)
| ValueStoredEvent (iface path : gostring) (value : jany)
| DeviceRegisteredEvent
| DeviceConnectedEvent (ip : gostring)
| DeviceDisconnectedEvent
| DeviceDeletionStartedEvent
| DeviceDeletionFinishedEvent
| DeviceErrorEvent (errorName : gostring) (metadata : gmap gostring gostring)
| IncomingIntrospectionEvent (introspection : gostring)
| InterfaceAddedEvent (iface : gostring) (major minor : Z)
| InterfaceRemovedEvent (iface : gostring) (major : Z).

(** The [Type] member the constructors fill in. *)
Definition body_type (b : event_body) : gostring :=
  match b with
  | IncomingDataEvent _ _ _ => Triggers.OnIncomingData
  | ValueChangeEvent _ _ _ _ => Triggers.OnValueChange
  | ValueChangeAppliedEvent _ _ _ _ => Triggers.OnValueChangeApplied
  | PathCreatedEvent _ _ _ => Triggers.OnPathCreated
  | PathRemovedEvent _ _ => Triggers.OnPathRemoved
  | ValueStoredEvent _ _ _ => Triggers.OnValueStored
  | DeviceRegisteredEvent => Triggers.OnDeviceRegistered
  | DeviceConnectedEvent _ => Triggers.OnDeviceConnected
  | DeviceDisconnectedEvent => Triggers.OnDeviceDisconnected
  | DeviceDeletionStartedEvent => Triggers.OnDeviceDeletionStarted
  | DeviceDeletionFinishedEvent => Triggers.OnDeviceDeletionFinished
  | DeviceErrorEvent _ _ => Triggers.OnDeviceError
  | IncomingIntrospectionEvent _ => Triggers.OnIncomingIntrospection
  | InterfaceAddedEvent _ _ _ => Triggers.OnInterfaceAdded
  | InterfaceRemovedEvent _ _ => Triggers.OnInterfaceRemoved
  end.

Definition astrate_reason : gostring := "astrate_reason"%go.

Definition NewDeviceErrorEvent (errorName : gostring) (metadata : gmap gostring gostring) : event_body :=
  let upstream := Triggers.UpstreamErrorName errorName in
  let out := if bool_decide (upstream = errorName) then metadata
             else <[astrate_reason := errorName]> metadata in
  DeviceErrorEvent upstream out.

(** The envelope: instant, encoded device, matched trigger and body. *)
Record SimpleEvent := MkEvent {
  evTimestamp : Z;
  evDeviceID : gostring;
  evTriggerName : gostring;
  evBody : event_body;
}.

(** The [triggers.Delivery] handed to [Enqueue]. *)
Record firing := MkFiring {
  fRealm : gostring;
  fTrigger : Triggers.Trigger;
  fEvent : SimpleEvent;
}.

(** [stream.Event]. *)
Record Event := MkBusEvent {
  bKind : gostring;
  bRealm : gostring;
  bDeviceID : gostring;
  bInterface : gostring;
  bPath : gostring;
  bInterfaceMajor : Z;
  bIP : gostring;
  bErrorName : gostring;
  bErrorMetadata : gmap gostring gostring;
  bValue : jany;
  bTimestamp : Z;
}.

(** A lifecycle event on the bus: no data members. *)
Definition lifecycle_event (kind realm device ip : gostring) (at_ : Z) : Event :=
  MkBusEvent kind realm device [] [] 0 ip [] ∅ AnyNil at_.

(** ** Firing *)

(** The loop [for _, tr := range rs.triggers { if ... { Enqueue } }]. *)
Definition fire (rs : realmSchema) (matching : Triggers.Trigger -> bool) (ts : Z) (device : gostring)
    (body : event_body) : list firing :=
  map (fun tr => MkFiring (rsName rs) tr (MkEvent ts device (Triggers.tName tr) body))
    (filter (fun tr => matching tr = true) (rsTriggers rs)).

Definition fireDevice (rs : realmSchema) (id : gostring) (at_ : Z) (match_ : Triggers.DeviceEvent)
    (body : event_body) : list firing :=
  fire rs (fun tr => Triggers.MatchesDevice tr match_) at_ (DeviceID.String id) body.

Section Data.
Context `{JSONText}.

Definition decodeCanonicalJSON (js : option jtoken) : option generic := js ≫= Unmarshal.

Definition eventValue (v : option Value) : jany := jsonable v.

(** The event a data condition is matched against. *)
Definition data_event (on : gostring) (op : PersistOp) : Triggers.DataEvent :=
  Triggers.MkDataEvent (DeviceID.String (DeviceID op)) on (cName (Interface_ op))
    (cMajor (Interface_ op)) (Path op) (Value_ op).

Definition emit (rs : realmSchema) (op : PersistOp) (on : gostring) (body : event_body) : list firing :=
  fire rs (fun tr => Triggers.MatchesData tr (data_event on op)) (TS op)
    (DeviceID.String (DeviceID op)) body.

Definition fireDataChanges (rs : realmSchema) (op : PersistOp) (value : jany) : list firing :=
  match encodeValueJSON (Value_ op) with
  | None => []
  | Some newJSON =>
      let old := if PrevExists op then decodeCanonicalJSON (Prev op) else None in
      let changed := negb (PrevExists op) ||
        negb (match Prev op with Some prev => jsonEqual newJSON prev | None => false end) in
      let present := match Value_ op with Some _ => true | None => false end in
      let created := negb (PrevExists op) && present in
      let removed := PrevExists op && negb present in
      let name := cName (Interface_ op) in
      (if changed then emit rs op Triggers.OnValueChange (ValueChangeEvent name (Path op) old value) else []) ++
      (if created then emit rs op Triggers.OnPathCreated (PathCreatedEvent name (Path op) value) else []) ++
      (if removed then emit rs op Triggers.OnPathRemoved (PathRemovedEvent name (Path op)) else []) ++
      (if changed then emit rs op Triggers.OnValueChangeApplied
                         (ValueChangeAppliedEvent name (Path op) old value) else [])
  end.

Definition fireData (rs : realmSchema) (op : PersistOp) : list firing * Event :=
  let value := eventValue (Value_ op) in
  let name := cName (Interface_ op) in
  (emit rs op Triggers.OnIncomingData (IncomingDataEvent name (Path op) value) ++
   (if bool_decide (Kind op = OpIndividual)
    then emit rs op Triggers.OnValueStored (ValueStoredEvent name (Path op) value) else []) ++
   (if Tracked op then fireDataChanges rs op value else []),
   MkBusEvent Triggers.OnIncomingData (rsName rs) (DeviceID.String (DeviceID op)) name (Path op)
     (cMajor (Interface_ op)) [] [] ∅ value (TS op)).

Definition fireCommitted (s : schemaSnapshot) (ops : list PersistOp) : list (list firing * Event) :=
  omap (fun op => (fun rs => fireData rs op) <$> realm s (Realm op)) ops.

End Data.

(** ** Device events *)

Definition fireDeviceError (s : schemaSnapshot) (m : InboundMessage) (reason detail : gostring)
    : list firing * Event :=
  let device := DeviceID.String (mDeviceID m) in
  let metadata : gmap gostring gostring := {["detail"%go := detail]} in
  (match realm s (mRealm m) with
   | None => []
   | Some rs =>
       fireDevice rs (mDeviceID m) (mReceivedAt m)
         (Triggers.MkDeviceEvent device Triggers.OnDeviceError [] 0)
         (NewDeviceErrorEvent reason metadata)
   end,
   MkBusEvent Triggers.OnDeviceError (mRealm m) device [] [] 0 [] reason metadata AnyNil (mReceivedAt m)).

(** [broker.LifecycleEvent]; the remote address is empty when not valid. *)
Inductive lifecycle_type := EventDeviceConnected | EventDeviceDisconnected.
Record LifecycleEvent := MkLifecycle {
  lType : lifecycle_type;
  lRealm : gostring;
  lDeviceID : gostring;
  lRemoteIP : gostring;
  lAt : Z;
}.

(** What an observer of a device event does: deliveries, one bus event, and
    whether the [consumer/properties] send is started. *)
Record device_effects := MkDeviceEffects {
  deFirings : list firing;
  deBus : Event;
  deSend : bool;
}.

Definition handleLifecycle (s : schemaSnapshot) (ev : LifecycleEvent) : option device_effects :=
  match realm s (lRealm ev) with
  | None => None
  | Some rs =>
      let device := DeviceID.String (lDeviceID ev) in
      Some
        match lType ev with
        | EventDeviceConnected =>
            MkDeviceEffects
              (fireDevice rs (lDeviceID ev) (lAt ev)
                 (Triggers.MkDeviceEvent device Triggers.OnDeviceConnected [] 0)
                 (DeviceConnectedEvent (lRemoteIP ev)))
              (lifecycle_event Triggers.OnDeviceConnected (rsName rs) device (lRemoteIP ev) (lAt ev)) true
        | EventDeviceDisconnected =>
            MkDeviceEffects
              (fireDevice rs (lDeviceID ev) (lAt ev)
                 (Triggers.MkDeviceEvent device Triggers.OnDeviceDisconnected [] 0)
                 DeviceDisconnectedEvent)
              (lifecycle_event Triggers.OnDeviceDisconnected (rsName rs) device [] (lAt ev)) false
        end
  end.

(** [OnLifecycleEvent]: a disconnection evicts the device, then the observer runs. *)
Definition OnLifecycleEvent (s : schemaSnapshot) (c : deviceCache) (ev : LifecycleEvent)
    : deviceCache * option device_effects :=
  (match lType ev with
   | EventDeviceDisconnected => evict c (lRealm ev) (lDeviceID ev)
   | EventDeviceConnected => c
   end, handleLifecycle s ev).

(** The common body of [HandleDeviceRegistered] and [handleDeviceDeletion]. *)
Definition handle_named (s : schemaSnapshot) (realmName hwID : gostring) (at_ : Z) (on : gostring)
    (body : event_body) : option device_effects :=
  match realm s realmName with
  | None => None
  | Some rs =>
      match DeviceID.Parse hwID with
      | Err _ => None
      | Ok id =>
          Some (MkDeviceEffects
                  (fireDevice rs id at_ (Triggers.MkDeviceEvent hwID on [] 0) body)
                  (lifecycle_event on (rsName rs) hwID [] at_) false)
      end
  end.

Definition HandleDeviceRegistered (s : schemaSnapshot) (realmName hwID : gostring) (at_ : Z) :=
  handle_named s realmName hwID at_ Triggers.OnDeviceRegistered DeviceRegisteredEvent.
Definition HandleDeviceDeletionStarted (s : schemaSnapshot) (realmName hwID : gostring) (at_ : Z) :=
  handle_named s realmName hwID at_ Triggers.OnDeviceDeletionStarted DeviceDeletionStartedEvent.
Definition HandleDeviceDeletionFinished (s : schemaSnapshot) (realmName hwID : gostring) (at_ : Z) :=
  handle_named s realmName hwID at_ Triggers.OnDeviceDeletionFinished DeviceDeletionFinishedEvent.

(** ** Who is told what *)

(** A trigger receives an event of the given type. *)
Definition got (fs : list firing) (tr : Triggers.Trigger) (on : gostring) : Prop :=
  exists f, f ∈ fs /\ fTrigger f = tr /\ body_type (evBody (fEvent f)) = on.

Lemma elem_of_fire rs matching ts device body f :
  f ∈ fire rs matching ts device body <->
  exists tr, tr ∈ rsTriggers rs /\ matching tr = true /\
    f = MkFiring (rsName rs) tr (MkEvent ts device (Triggers.tName tr) body).
Proof. unfold fire. rewrite list_elem_of_fmap. setoid_rewrite list_elem_of_filter. naive_solver. Qed.

Lemma got_nil tr on : got [] tr on <-> False.
Proof. unfold got. set_solver. Qed.

Lemma got_app fs gs tr on : got (fs ++ gs) tr on <-> got fs tr on \/ got gs tr on.
Proof. unfold got. setoid_rewrite elem_of_app. naive_solver. Qed.

Lemma got_if (b : bool) fs tr on : got (if b then fs else []) tr on <-> b = true /\ got fs tr on.
Proof. destruct b; [naive_solver|]. rewrite got_nil. naive_solver. Qed.

Lemma got_emit rs op on body tr on' :
  tr ∈ rsTriggers rs ->
  got (emit rs op on body) tr on' <->
  body_type body = on' /\ Triggers.MatchesData tr (data_event on op) = true.
Proof.
  intros Hin. unfold got, emit. split.
  - intros (f & (tr' & _ & Hm & ->)%elem_of_fire & Heq & Ht). simpl in *. by subst tr'.
  - intros [Ht Hm]. eexists. rewrite elem_of_fire. split; [by exists tr|]. done.
Qed.

Section Serial.
Context `{JSONText}.

(** What the store renders at a key: null where there is no row. *)
Definition stored_json (p : option Property) : jtoken :=
  match p with Some p => pValue p | None => JNull end.

(** A write left a path with the value it already had. *)
Definition unchanged (before after : option Property) : Prop :=
  exists p, before = Some p /\ jsonEqual (stored_json after) (pValue p) = true.

(** The change events of an operation whose new value renders. *)
Lemma got_changes rs op value newJSON tr on :
  tr ∈ rsTriggers rs -> encodeValueJSON (Value_ op) = Some newJSON ->
  got (fireDataChanges rs op value) tr on <->
  Triggers.MatchesData tr (data_event on op) = true /\
  (((on = Triggers.OnValueChange \/ on = Triggers.OnValueChangeApplied) /\
      ~ (PrevExists op = true /\ exists p, Prev op = Some p /\ jsonEqual newJSON p = true)) \/
   (on = Triggers.OnPathCreated /\ PrevExists op = false /\ Value_ op <> None) \/
   (on = Triggers.OnPathRemoved /\ PrevExists op = true /\ Value_ op = None)).
Proof.
  intros Hin Hjs. unfold fireDataChanges. rewrite Hjs.
  rewrite !got_app, !got_if, !got_emit by done. cbn [body_type].
  assert ((negb (PrevExists op) ||
    negb (match Prev op with Some prev => jsonEqual newJSON prev | None => false end) = true) <->
    ~ (PrevExists op = true /\ exists p, Prev op = Some p /\ jsonEqual newJSON p = true)) as ->.
  { destruct (PrevExists op); simpl; [|naive_solver].
    destruct (Prev op) as [p|]; simpl; [|naive_solver]. rewrite negb_true_iff.
    split; [intros E (_ & ? & [= <-] & ?); congruence|]. intros Hn.
    destruct (jsonEqual newJSON p) eqn:E; [|done]. exfalso. apply Hn. eauto. }
  destruct (PrevExists op), (Value_ op); simpl; intuition congruence.
Qed.

(** An operation some change condition matches was tracked, if its lookup worked. *)
Lemma wants_watched rs op tr on :
  tr ∈ rsTriggers rs -> Triggers.prevOns on = true ->
  Triggers.MatchesData tr (data_event on op) = true -> watched rs op = true.
Proof.
  intros Hin Hon Hm. unfold watched. apply existsb_exists. exists tr. split; [by apply list_elem_of_In|].
  by eapply Triggers.TracksChanges_complete in Hm.
Qed.

(** Whoever is told of an event matched the condition of its type. *)
Lemma got_matches rs op tr on :
  tr ∈ rsTriggers rs -> got (fireData rs op).1 tr on ->
  Triggers.MatchesData tr (data_event on op) = true.
Proof.
  intros Hin. unfold fireData. cbn [fst]. rewrite !got_app, !got_if, !got_emit by done. cbn [body_type].
  intros [[<- Hm]|[(_ & <- & Hm)|[_ Hm]]]; [done..|].
  destruct (encodeValueJSON (Value_ op)) as [js|] eqn:Hjs.
  - rewrite (got_changes rs op _ js) in Hm by done. by destruct Hm.
  - revert Hm. unfold fireDataChanges. by rewrite Hjs, got_nil.
Qed.

Lemma track_all_realm rs ops prevs prevs' ops' :
  Forall (fun x => realm_op rs x.2) ops -> track_all rs prevs ops = (prevs', ops') -> Forall (realm_op rs) ops'.
Proof.
  intros Hops. revert prevs prevs' ops'. induction Hops as [|[rd x] ops Hx _ IH]; simpl; intros prevs prevs' ops'.
  { by intros [= <- <-]. }
  pose proof (trackPrevious_cases rs rd prevs x) as Hc.
  destruct (trackPrevious rs _ prevs x) as [p1 x']. destruct (track_all rs p1 ops) as [p2 o2] eqn:E.
  intros [= <- <-]. constructor; [|by eapply IH]. simpl in Hc. by destruct Hc as [->|[s ->]].
Qed.

(** An untracked operation has no change events. *)
Lemma untracked_no_changes rs op tr on :
  tr ∈ rsTriggers rs -> Tracked op = false -> Triggers.prevOns on = true -> ~ got (fireData rs op).1 tr on.
Proof.
  intros Hin Ht Hon. unfold fireData. cbn [fst]. rewrite !got_app, Ht, got_nil, got_if, !got_emit by done. cbn [body_type].
  intros [[<- _]|[(_ & <- & _)|[]]]; done.
Qed.

(** A tracked property operation's events, by the store's transition. *)
Lemma got_property (rs : realmSchema) (op : PersistOp) (tr : Triggers.Trigger) (on : gostring) m :
  realm_op rs op -> prop_op op -> tr ∈ rsTriggers rs -> Tracked op = true ->
  tells m (unset_key op) (PrevExists op) (Prev op) ->
  let before := m !! unset_key op in
  let after := apply_prop m op !! unset_key op in
  Triggers.prevOns on = true ->
  got (fireData rs op).1 tr on <->
  Triggers.MatchesData tr (data_event on op) = true /\
  (((on = Triggers.OnValueChange \/ on = Triggers.OnValueChangeApplied) /\ ~ unchanged before after) \/
   (on = Triggers.OnPathCreated /\ before = None /\ after <> None) \/
   (on = Triggers.OnPathRemoved /\ before <> None /\ after = None)).
Proof.
  intros Hop Hp Hin Htr Htells before after Hon.
  destruct (prop_effect rs op m Hop Hp) as (js & Hjs & Hafter).
  unfold fireData. cbn [fst]. rewrite !got_app, Htr, got_if, !got_emit, (got_changes rs op _ js) by done.
  cbn [body_type].
  assert (on <> Triggers.OnIncomingData) as H1 by (by intros ->).
  assert (on <> Triggers.OnValueStored) as H2 by (by intros ->).
  unfold tells in Htells, Hafter. fold before in Htells. fold after in Hafter.
  clearbody before after.
  assert (after = None <-> Value_ op = None) as Hval.
  { destruct Hop as (Ht & _). unfold op_typed in Ht.
    destruct Hp as [Hk|Hk]; rewrite Hk in *; destruct after; naive_solver. }
  assert (stored_json after = js) as Hsj.
  { destruct after as [q|]; simpl; [naive_solver|]. rewrite (proj1 Hval eq_refl) in Hjs. by injection Hjs. }
  assert (PrevExists op = true /\ (exists p, Prev op = Some p /\ jsonEqual js p = true) <->
          unchanged before after) as ->.
  { unfold unchanged. rewrite Hsj. destruct before as [q|]; [destruct Htells as [-> ->]|rewrite Htells].
    - split; [intros [_ (p & [= <-] & E)]|intros (p & [= <-] & E)]; eauto.
    - split; [by intros [? _]|by intros (p & ? & _)]. }
  assert (PrevExists op = false <-> before = None) as ->
    by (destruct before as [q|]; [destruct Htells as [-> _]|rewrite Htells]; done).
  assert (PrevExists op = true <-> before <> None) as ->
    by (destruct before as [q|]; [destruct Htells as [-> _]|rewrite Htells]; done).
  clear Hop Hp Htells Hafter. rewrite <- Hval. intuition congruence.
Qed.

End Serial.

(** ** The guarantees of the observers *)


(** No rejection is silent, and none loses its reason: whatever the realm's
    triggers, a rejected message is one [device_error] event on the live bus
    with the engine's own reason; the triggers of the realm that watch the
    device's errors, and only they, receive an error name of the closed set
    clients validate, from which the engine's reason can be told. *)
Theorem device_error_recoverable s m reason detail :
  let '(fs, ev) := fireDeviceError s m reason detail in
  (bKind ev, bRealm ev, bDeviceID ev, bErrorName ev, bErrorMetadata ev !! "detail"%go) =
    (Triggers.OnDeviceError, mRealm m, DeviceID.String (mDeviceID m), reason, Some detail) /\
  (forall tr, got fs tr Triggers.OnDeviceError <->
     exists rs, realm s (mRealm m) = Some rs /\ tr ∈ rsTriggers rs /\
       Triggers.MatchesDevice tr
         (Triggers.MkDeviceEvent (DeviceID.String (mDeviceID m)) Triggers.OnDeviceError [] 0) = true) /\
  (forall f, f ∈ fs -> exists name meta, evBody (fEvent f) = DeviceErrorEvent name meta /\
     name ∈ Triggers.upstreamErrorNames /\
     default name (meta !! astrate_reason) = reason /\ meta !! "detail"%go = Some detail).
Proof.
  unfold fireDeviceError. split_and!; [done|..].
  - intros tr. destruct (realm s (mRealm m)) as [rs|]; [|rewrite got_nil; naive_solver].
    unfold got, fireDevice. setoid_rewrite elem_of_fire. split.
    + intros (f & (tr' & Hin & Hm & ->) & <- & _). by exists rs.
    + intros (rs' & [= <-] & Hin & Hm). eexists. split; [by exists tr|]. done.
  - destruct (realm s (mRealm m)) as [rs|]; [|set_solver].
    intros f (tr & _ & _ & ->)%elem_of_fire. simpl. unfold NewDeviceErrorEvent. do 2 eexists.
    split; [reflexivity|]. split; [apply Triggers.upstream_closed|].
    case_bool_decide as E.
    + rewrite E. by rewrite lookup_singleton_ne, lookup_singleton_eq.
    + rewrite lookup_insert_eq, lookup_insert_ne by done. by rewrite lookup_singleton_eq.
Qed.

(** ** Examples *)


(** Unsetting a property that has no value is reported as a change: the
    operation leaves the store as it was, and the trigger receives a
    [value_change] from null to null. *)
Theorem absent_unset_reports_change :
  let op := (@trackPrevious toy_text prop_realm (MkReads (fun _ => NoRow) (fun _ => NoRow)) ∅
               (prop_sample OpPropertyUnset None)).2 in
  @apply_prop toy_text ∅ op = ∅ /\
  map (fun f => evBody (fEvent f)) (@fireData toy_text prop_realm op).1 =
    [ValueChangeEvent "org.astrate.Settings"%go "/mode"%go None AnyNil].
Proof. vm_compute. split; reflexivity. Qed.

End Events.
