(* ===== verification/Stream.v ===== *)
(** * The live fan-out bus ([src/internal/engine/stream/bus.go])

    Publishers never block: an event goes to the buffered channel of every
    matching subscriber that has room. The bus is a state machine whose steps
    are the critical sections of the code; the closing of a channel happens
    after the lock is released and is a step of its own, and so is a
    consumer's receive. Sending on a closed channel panics in Go: [Panic]. *)

From S2P Require Import Prelude GoStrings Rows Events.

Module Stream.
Import Events.

Record Filter := MkFilter { flDeviceID : gostring; flInterface : gostring }.

Definition matches (f : Filter) (ev : Event) : bool :=
  if negb (bool_decide (flDeviceID f = [])) && negb (bool_decide (flDeviceID f = bDeviceID ev)) then false
  else if negb (bool_decide (flInterface f = [])) && negb (bool_decide (flInterface f = bInterface ev)) then false
  else true.

Definition DefaultSubscriberBuffer : Z := 64.

Record subscriber := MkSubscriber { sRealm : gostring; sFilter : Filter }.

(** A Go channel with its capacity, and what its consumer has read so far. *)
Record channel := MkChannel {
  cCap : nat;
  cBuf : list Event;
  cOpen : bool;
  cGot : list Event;
}.

(** The bus, the channels of all subscribers it ever had, and the channels
    taken out of the table that are about to be closed. *)
Record Bus := MkBus {
  subs : gmap nat subscriber;
  nextID : nat;
  closed : bool;
  dropped : nat;
  chans : gmap nat channel;
  closing : list nat;
}.

Definition New : Bus := MkBus ∅ 0 false 0 ∅ [].

Definition wants (s : subscriber) (ev : Event) : bool :=
  bool_decide (sRealm s = bRealm ev) && matches (sFilter s) ev.

(** The [select] of [Publish] for one subscriber. *)
Definition has_room (c : channel) : bool := (length (cBuf c) <? cCap c)%nat.
Definition offer (ev : Event) (c : channel) : channel :=
  if has_room c then MkChannel (cCap c) (cBuf c ++ [ev]) (cOpen c) (cGot c) else c.

(** The subscribers an event goes to, with their channels. *)
Definition targets (b : Bus) (ev : Event) : gmap nat channel :=
  map_imap (fun id c => match subs b !! id with
                        | Some s => if wants s ev then Some c else None
                        | None => None
                        end) (chans b).

Inductive label :=
| Subscribe (realm : gostring) (f : Filter) (buffer : Z)
| Cancel (id : nat)
| Close
| CloseChannel (id : nat)
| Publish (ev : Event)
| Receive (id : nat).

Inductive outcome := Next (b : Bus) | Disabled | Panic.

Definition close_channel (c : channel) : channel := MkChannel (cCap c) (cBuf c) false (cGot c).

Definition subscribe (b : Bus) (realm : gostring) (f : Filter) (buffer : Z) : Bus :=
  let buffer := if (buffer <=? 0)%Z then DefaultSubscriberBuffer else buffer in
  if closed b then b (* an already closed channel, outside the bus *)
  else
    let id := nextID b in
    MkBus (<[id := MkSubscriber realm f]> (subs b)) (S id) (closed b) (dropped b)
      (<[id := MkChannel (Z.to_nat buffer) [] true []]> (chans b)) (closing b).

Definition cancel (b : Bus) (id : nat) : Bus :=
  match subs b !! id with
  | Some _ => MkBus (delete id (subs b)) (nextID b) (closed b) (dropped b) (chans b) (id :: closing b)
  | None => b
  end.

Definition close (b : Bus) : Bus :=
  if closed b then b
  else MkBus ∅ (nextID b) true (dropped b) (chans b) ((map_to_list (subs b)).*1 ++ closing b).

Definition publish (b : Bus) (ev : Event) : outcome :=
  if closed b then Next b
  else
    let ts := targets b ev in
    if bool_decide (map_Forall (fun _ c => cOpen c = true) ts) then
      Next (MkBus (subs b) (nextID b) (closed b)
              (dropped b + size (filter (fun x => has_room x.2 = false) ts))
              ((offer ev <$> ts) ∪ chans b) (closing b))
    else Panic.

Definition receive (b : Bus) (id : nat) : outcome :=
  match chans b !! id with
  | Some (MkChannel cap (ev :: buf) op gt) =>
      Next (MkBus (subs b) (nextID b) (closed b) (dropped b)
              (<[id := MkChannel cap buf op (gt ++ [ev])]> (chans b)) (closing b))
  | _ => Disabled
  end.

Definition step (b : Bus) (l : label) : outcome :=
  match l with
  | Subscribe realm f buffer => Next (subscribe b realm f buffer)
  | Cancel id => Next (cancel b id)
  | Close => Next (close b)
  | CloseChannel id =>
      if bool_decide (id ∈ closing b) then
        Next (MkBus (subs b) (nextID b) (closed b) (dropped b)
                (alter close_channel id (chans b)) (filter (fun i => i <> id) (closing b)))
      else Disabled
  | Publish ev => publish b ev
  | Receive id => receive b id
  end.

(** ** Runs *)

(** A run, with the state each step was taken in. *)
Inductive run : list (Bus * label) -> Bus -> Prop :=
| run_nil : run [] New
| run_step h b l b' : run h b -> step b l = Next b' -> run (h ++ [(b, l)]) b'.

(** What a subscriber was offered: the events published while it was
    registered, for its realm and filter. *)
Definition offered (id : nat) (x : Bus * label) : option Event :=
  match x.2 with
  | Publish ev =>
      match subs x.1 !! id with
      | Some s => if wants s ev then Some ev else None
      | None => None
      end
  | _ => None
  end.
Definition offers (id : nat) (h : list (Bus * label)) : list Event := omap (offered id) h.

(** ** The invariant *)

Record invariant (b : Bus) : Prop := {
  inv_subs : forall id s, subs b !! id = Some s ->
    id ∉ closing b /\ exists c, chans b !! id = Some c /\ cOpen c = true;
  inv_chans : forall id c, chans b !! id = Some c -> (id < nextID b)%nat /\ (length (cBuf c) <= cCap c)%nat;
  inv_closing : forall id, id ∈ closing b -> is_Some (chans b !! id);
  inv_closed : closed b = true -> subs b = ∅;
}.

Lemma targets_lookup b ev id c :
  targets b ev !! id = Some c <->
  chans b !! id = Some c /\ exists s, subs b !! id = Some s /\ wants s ev = true.
Proof.
  unfold targets. rewrite map_lookup_imap. destruct (chans b !! id) as [c'|]; simpl; [|naive_solver].
  destruct (subs b !! id) as [s|]; [|naive_solver]. destruct (wants s ev) eqn:E.
  - split; [intros [= <-]; eauto|by intros [? _]].
  - split; [done|]. intros (_ & ? & [= <-] & ?). congruence.
Qed.

Lemma offer_room ev c : (length (cBuf c) <= cCap c)%nat -> (length (cBuf (offer ev c)) <= cCap (offer ev c))%nat.
Proof.
  intros Hc. unfold offer, has_room. destruct (_ <? _)%nat eqn:E; simpl; [|done].
  apply Nat.ltb_lt in E. rewrite length_app. simpl. lia.
Qed.

Lemma offer_open ev c : cOpen (offer ev c) = cOpen c.
Proof. unfold offer. by destruct (has_room c). Qed.

(** The channels after a publish. *)
Lemma published_lookup b ev id c :
  ((offer ev <$> targets b ev) ∪ chans b) !! id = Some c <->
  exists c0, chans b !! id = Some c0 /\
    c = match subs b !! id with
        | Some s => if wants s ev then offer ev c0 else c0
        | None => c0
        end.
Proof.
  destruct (targets b ev !! id) as [t|] eqn:Et.
  - pose proof Et as (Hc & s & Hs & Hw)%targets_lookup.
    rewrite lookup_union_l', lookup_fmap, Et; [|by rewrite lookup_fmap, Et]. simpl.
    rewrite Hc, Hs. setoid_rewrite Hw. naive_solver.
  - rewrite lookup_union_r by (by rewrite lookup_fmap, Et).
    split; [|intros (c0 & Hc & ->)].
    + intros Hc. exists c. split; [done|]. destruct (subs b !! id) as [s|] eqn:Es; [|done].
      destruct (wants s ev) eqn:Ew; [|done].
      assert (targets b ev !! id = Some c) as E by (apply targets_lookup; eauto). congruence.
    + destruct (subs b !! id) as [s|] eqn:Es; [|done]. destruct (wants s ev) eqn:Ew; [|done].
      assert (targets b ev !! id = Some c0) as E by (apply targets_lookup; eauto). congruence.
Qed.

Lemma new_invariant : invariant New.
Proof.
  split; simpl; [intros ??; by rewrite lookup_empty..|by intros ? []%not_elem_of_nil|done].
Qed.

Lemma subscribe_invariant b realm f buffer : invariant b -> invariant (subscribe b realm f buffer).
Proof.
  intros Hinv. pose proof Hinv as [Hs Hc Hcl Hcd]. unfold subscribe. destruct (closed b) eqn:Ec; [exact Hinv|].
  split; cbn [subs chans closing nextID closed].
  - intros id s. destruct (decide (id = nextID b)) as [->|Hne].
    + rewrite !lookup_insert_eq. intros _. split; [|by eexists].
      intros (c & Hx%Hc)%Hcl. lia.
    + rewrite !lookup_insert_ne by done. apply Hs.
  - intros id c. destruct (decide (id = nextID b)) as [->|Hne].
    + rewrite lookup_insert_eq. intros [= <-]. simpl. lia.
    + rewrite lookup_insert_ne by done. intros [??]%Hc. lia.
  - intros id [c Hid]%Hcl. apply lookup_insert_is_Some'. right. by exists c.
  - congruence.
Qed.

Lemma cancel_invariant b id : invariant b -> invariant (cancel b id).
Proof.
  intros Hinv. pose proof Hinv as [Hs Hc Hcl Hcd]. unfold cancel. destruct (subs b !! id) as [s|] eqn:Es; [|by split].
  split; cbn [subs chans closing nextID closed]; [|done| |intros E; by rewrite (Hcd E), lookup_empty in Es].
  - intros i s' [Hne Hi]%lookup_delete_Some. destruct (Hs i s' Hi) as [Hn ?]. split; [set_solver|done].
  - intros i [->|Hi]%elem_of_cons; [|by apply Hcl]. destruct (Hs id s Es) as (_ & c & Hx & _). by exists c.
Qed.

Lemma close_invariant b : invariant b -> invariant (close b).
Proof.
  intros Hinv. pose proof Hinv as [Hs Hc Hcl Hcd]. unfold close. destruct (closed b); [exact Hinv|].
  split; cbn [subs chans closing nextID closed]; [|done| |done].
  - intros id s; by rewrite lookup_empty.
  - intros id [Hid|Hid]%elem_of_app; [|by apply Hcl].
    apply list_elem_of_fmap in Hid as ([i s] & -> & Hi%elem_of_map_to_list).
    destruct (Hs i s Hi) as (_ & c & Hx & _). by exists c.
Qed.

Lemma close_channel_invariant b id :
  invariant b -> id ∈ closing b ->
  invariant (MkBus (subs b) (nextID b) (closed b) (dropped b)
               (alter close_channel id (chans b)) (filter (fun i => i <> id) (closing b))).
Proof.
  intros Hinv Hid. pose proof Hinv as [Hs Hc Hcl Hcd]. split; cbn [subs chans closing nextID closed]; [| | |done].
  - intros i s Hi. destruct (Hs i s Hi) as (Hn & c & Hx & Ho).
    split; [rewrite list_elem_of_filter; tauto|]. exists c.
    rewrite lookup_alter_ne by (by intros ->). done.
  - intros i c. rewrite lookup_alter. case_decide as E.
    + subst i. intros (c0 & Hc0 & ->)%fmap_Some. by apply Hc in Hc0.
    + apply Hc.
  - intros i [_ Hi]%list_elem_of_filter. apply Hcl in Hi as [c Hx].
    rewrite lookup_alter. case_decide as E; [subst i|]; rewrite Hx; by eexists.
Qed.

Lemma publish_invariant b ev b' : invariant b -> publish b ev = Next b' -> invariant b'.
Proof.
  intros Hinv. pose proof Hinv as [Hs Hc Hcl Hcd]. unfold publish. destruct (closed b) eqn:Ec; [intros [= <-]; exact Hinv|].
  case_bool_decide; [|done]. intros [= <-]. split; cbn [subs chans closing nextID closed]; [| | |congruence].
  - intros id s Hid. destruct (Hs id s Hid) as (Hn & c & Hx & Ho). split; [done|].
    eexists. split; [apply published_lookup; by exists c|]. rewrite Hid. destruct (wants s ev); [|done].
    by rewrite offer_open.
  - intros id c (c0 & Hc0 & ->)%published_lookup. apply Hc in Hc0 as [H1 H2]. split; [done|].
    destruct (subs b !! id) as [s|]; [|done]. destruct (wants s ev); [|done]. by apply offer_room.
  - intros id [c Hx]%Hcl. eexists. apply published_lookup. by exists c.
Qed.

Lemma receive_invariant b id b' : invariant b -> receive b id = Next b' -> invariant b'.
Proof.
  intros Hinv. pose proof Hinv as [Hs Hc Hcl Hcd]. unfold receive. destruct (chans b !! id) as [[cap [|ev buf] op gt]|] eqn:Ei; try done.
  intros [= <-]. split; cbn [subs chans closing nextID closed]; [| | |done].
  - intros i s Hi. destruct (Hs i s Hi) as (Hn & c & Hx & Ho). split; [done|].
    destruct (decide (i = id)) as [->|Hne].
    + rewrite lookup_insert_eq. rewrite Ei in Hx. injection Hx as <-. by eexists.
    + rewrite lookup_insert_ne by done. by exists c.
  - intros i c. destruct (decide (i = id)) as [->|Hne].
    + rewrite lookup_insert_eq. intros [= <-]. apply Hc in Ei. simpl in *. lia.
    + rewrite lookup_insert_ne by done. apply Hc.
  - intros i [c Hi]%Hcl. apply lookup_insert_is_Some'. right. by exists c.
Qed.

Lemma step_invariant b l b' : invariant b -> step b l = Next b' -> invariant b'.
Proof.
  intros Hinv. destruct l; simpl.
  - intros [= <-]. by apply subscribe_invariant.
  - intros [= <-]. by apply cancel_invariant.
  - intros [= <-]. by apply close_invariant.
  - case_bool_decide; [|done]. intros [= <-]. by apply close_channel_invariant.
  - by apply publish_invariant.
  - by apply receive_invariant.
Qed.

Lemma run_invariant h b : run h b -> invariant b.
Proof. induction 1 as [|h b l b' _ IH Hstep]; [apply new_invariant|by eapply step_invariant]. Qed.

Lemma publish_no_panic b ev : invariant b -> publish b ev <> Panic.
Proof.
  intros Hinv. unfold publish. destruct (closed b); [done|]. case_bool_decide as E; [done|].
  exfalso. apply E. intros id c (Hc & s & Hs & _)%targets_lookup.
  destruct (inv_subs b Hinv id s Hs) as (_ & c' & Hc' & Ho). congruence.
Qed.

(** ** What a subscriber sees *)

Definition received (c : channel) : list Event := cGot c ++ cBuf c.

(** One step changes what a subscriber was sent by what it is offered, unless
    its buffer is full; a new channel is empty. *)
Lemma step_received b l b' id c' :
  invariant b -> step b l = Next b' -> chans b' !! id = Some c' ->
  (exists c, chans b !! id = Some c /\
     (received c' = received c ++ option_list (offered id (b, l)) \/
      (received c' = received c /\ has_room c = false /\ exists ev, l = Publish ev))) \/
  (chans b !! id = None /\ nextID b = id /\ received c' = []).
Proof.
  intros Hinv. unfold offered; destruct l as [realm f buffer|i| |i|ev|i]; cbn [step fst snd].
  - intros [= <-]. unfold subscribe. destruct (closed b); simpl.
    { left. exists c'. split; [done|]. left. by rewrite app_nil_r. }
    rewrite lookup_insert. case_decide as E.
    + subst id. intros [= <-]. right. split; [|done].
      destruct (chans b !! nextID b) eqn:Ex; [|done]. apply (inv_chans b Hinv) in Ex. lia.
    + left. exists c'. split; [done|]. left. by rewrite app_nil_r.
  - intros [= <-]. unfold cancel. intros Hx. left. exists c'. rewrite app_nil_r.
    destruct (subs b !! i); auto.
  - intros [= <-]. unfold close. intros Hx. left. exists c'. rewrite app_nil_r.
    destruct (closed b); auto.
  - case_bool_decide; [|done]. intros [= <-]. cbn [chans]. rewrite lookup_alter. left.
    case_decide as E; [|exists c'; rewrite app_nil_r; auto].
    subst i. match goal with H : _ = Some c' |- _ => apply fmap_Some in H as (c & Hc & ->) end.
    exists c. rewrite app_nil_r. auto.
  - unfold publish. destruct (closed b) eqn:Ec.
    { intros [= <-] Hx. left. exists c'. split; [done|]. left.
      by rewrite (inv_closed b Hinv Ec), lookup_empty, app_nil_r. }
    case_bool_decide; [|done]. intros [= <-]. cbn [chans]. intros (c & Hc & ->)%published_lookup.
    left. exists c. split; [done|]. destruct (subs b !! id) as [s|]; [|left; by rewrite app_nil_r].
    destruct (wants s ev); [|left; by rewrite app_nil_r]. unfold offer.
    destruct (has_room c) eqn:Er; [left|right; eauto]. unfold received. simpl. by rewrite (assoc_L (++)).
  - unfold receive. destruct (chans b !! i) as [[cap [|ev buf] op gt]|] eqn:Ei; try done.
    intros [= <-]. cbn [chans]. rewrite lookup_insert. left. case_decide as E.
    + subst i. match goal with H : Some _ = Some c' |- _ => injection H as <- end.
      eexists. split; [done|]. left. unfold received. simpl. by rewrite app_nil_r, <- (assoc_L (++)).
    + exists c'. rewrite app_nil_r. auto.
Qed.

Lemma offers_snoc id h x : offers id (h ++ [x]) = offers id h ++ option_list (offered id x).
Proof. unfold offers. rewrite omap_app. simpl. by destruct (offered id x). Qed.

Lemma step_nextID b l b' : step b l = Next b' -> (nextID b <= nextID b')%nat.
Proof.
  destruct l; simpl.
  - intros [= <-]. unfold subscribe. destruct (closed b); simpl; lia.
  - intros [= <-]. unfold cancel. by destruct (subs b !! id).
  - intros [= <-]. unfold close. by destruct (closed b).
  - case_bool_decide; [|done]. by intros [= <-].
  - unfold publish. destruct (closed b); [by intros [= <-]|]. case_bool_decide; [|done]. by intros [= <-].
  - unfold receive. destruct (chans b !! id) as [[? [|] ? ?]|]; try done. by intros [= <-].
Qed.

(** Before it is registered, a subscriber is offered nothing. *)
Lemma offers_fresh h b id : run h b -> (nextID b <= id)%nat -> offers id h = [].
Proof.
  induction 1 as [|h b l b' Hrun IH Hstep]; intros Hid; [done|].
  pose proof (step_nextID _ _ _ Hstep). rewrite offers_snoc, IH by lia. unfold offered. simpl.
  destruct l; try done. destruct (subs b !! id) as [s|] eqn:Es; [|done].
  destruct (inv_subs b (run_invariant _ _ Hrun) id s Es) as (_ & c & Hc & _).
  apply (inv_chans b (run_invariant _ _ Hrun)) in Hc. lia.
Qed.

(** The subscriber never finds its buffer full. *)
Definition keeps_up (id : nat) (h : list (Bus * label)) : Prop :=
  forall b ev c, (b, Publish ev) ∈ h -> chans b !! id = Some c -> has_room c = true.

Lemma run_received h b id c :
  run h b -> chans b !! id = Some c ->
  received c `sublist_of` offers id h /\ (keeps_up id h -> received c = offers id h).
Proof.
  intros Hrun. revert c. induction Hrun as [|h b l b' Hrun IH Hstep]; intros c Hc.
  { simpl in Hc. by rewrite lookup_empty in Hc. }
  rewrite offers_snoc.
  destruct (step_received b l b' id c (run_invariant _ _ Hrun) Hstep Hc)
    as [(c0 & Hc0 & [->|(-> & Hfull & ev & ->)])|(Hno & <- & ->)].
  - destruct (IH c0 Hc0) as [H1 H2]. split; [by apply sublist_app|].
    intros Hk. rewrite H2; [done|]. intros b0 ev c1 Hin. apply (Hk b0 ev c1). set_solver.
  - destruct (IH c0 Hc0) as [H1 _]. split; [by apply sublist_inserts_r|].
    intros Hk. specialize (Hk b ev c0). rewrite Hfull in Hk. discriminate Hk; set_solver.
  - split; [apply sublist_nil_l|]. intros _. rewrite (offers_fresh h b) by done. simpl.
    unfold offered. simpl. destruct l; try done.
    destruct (subs b !! nextID b) as [s|] eqn:Es; [|done].
    destruct (inv_subs b (run_invariant _ _ Hrun) _ s Es) as (_ & c1 & Hc1 & _). congruence.
Qed.

(** Live viewers see the events in order: in every run of the bus, whatever
    the interleaving of publishers, cancellations and shutdown, a subscriber
    has been sent events of those published for it while it was registered,
    in that order and none twice, all of them if it keeps up; its buffer stays
    within its capacity; a closed channel is no longer registered, and
    publishing never panics on one. *)
Theorem bus_subscriber_view h b id c :
  run h b -> chans b !! id = Some c ->
  received c `sublist_of` offers id h /\
  (keeps_up id h -> received c = offers id h) /\
  (length (cBuf c) <= cCap c)%nat /\
  (cOpen c = false -> subs b !! id = None) /\
  (forall ev, step b (Publish ev) <> Panic).
Proof.
  intros Hrun Hc. pose proof (run_invariant h b Hrun) as Hinv.
  destruct (run_received h b id c Hrun Hc) as [H1 H2]. split_and!; [done..| | |].
  - by apply (inv_chans b Hinv id).
  - intros Ho. destruct (subs b !! id) as [s|] eqn:Es; [|done].
    destruct (inv_subs b Hinv id s Es) as (_ & c' & Hc' & Ho'). congruence.
  - intros ev. by apply publish_no_panic.
Qed.

(** ** Example *)

Definition tick (n : Z) : Event := lifecycle_event "device_connected"%go "test"%go "dev"%go [] n.
Definition sample_labels : list label :=
  [Subscribe "test"%go (MkFilter [] []) 1; Publish (tick 1); Publish (tick 2); Receive 0; Publish (tick 3)].
Fixpoint execute (h : list (Bus * label)) (b : Bus) (ls : list label) : list (Bus * label) * Bus :=
  match ls with
  | [] => (h, b)
  | l :: ls => match step b l with Next b' => execute (h ++ [(b, l)]) b' ls | _ => (h, b) end
  end.

Lemma execute_run ls h b : run h b -> run (execute h b ls).1 (execute h b ls).2.
Proof.
  revert h b. induction ls as [|l ls IH]; intros h b Hrun; simpl; [done|].
  destruct (step b l) eqn:E; [|done..]. apply IH. by econstructor.
Qed.

Lemma bus_subscriber_view_witness :
  let r := execute [] New sample_labels in
  exists c, chans r.2 !! 0%nat = Some c /\ received c = [tick 1; tick 3] /\
    received c `sublist_of` offers 0 r.1.
Proof.
  cbv zeta. exists (MkChannel 1 [tick 3] true [tick 1]).
  assert (E : chans (execute [] New sample_labels).2 !! 0%nat = Some (MkChannel 1 [tick 3] true [tick 1]))
    by (vm_compute; reflexivity).
  split; [exact E|]. split; [reflexivity|].
  exact (proj1 (bus_subscriber_view _ _ 0%nat _ (execute_run sample_labels [] New run_nil) E)).
Defined.

End Stream.
