(* ===== verification/Introspect.v ===== *)
(** * Introspection and capabilities

    src/internal/engine/introspection.go ([handleIntrospection], [retryStore]),
    src/internal/engine/capabilities.go, and the transaction of
    [UpdateIntrospection] in src/internal/store/devices.go. The text format of
    an introspection is in {!Topics}. *)

From S2P Require Import Prelude GoStrings DeviceID SchemaTypes InterfaceParse EndpointTrie Compile Broker.
From S2P Require Import Topics PayloadValue PayloadBson PayloadJson PayloadCodec Rows Batch Policy Triggers Cache Pipeline Events.

Module Introspect.
Import Topics.Introspection Rows Batch Cache Pipeline Events.

(** ** Retrying store calls *)

(** How the store answers a statement: done, no such device, or an error,
    after which the statement may or may not have taken effect. *)
Inductive store_answer := SOk | SNotFound | SFailed (e : commit_error) (applied : bool).

Inductive retry_result := RetryDone | RetryNotFound | RetryRefused | RetryAbandoned.

Section Retry.
Context {S : Type}.
(** The statement, its answers and the shutdown signal, by attempt. *)
Variables (statement : S -> S) (answers : nat -> store_answer) (quit : nat -> bool).

Fixpoint retryStore (fuel : nat) (attempt : nat) (s : S) : option (S * retry_result) :=
  match fuel with
  | O => None
  | Datatypes.S fuel =>
      match answers attempt with
      | SOk => Some (statement s, RetryDone)
      | SNotFound => Some (s, RetryNotFound)
      | SFailed e applied =>
          let s := if applied then statement s else s in
          if isPermanentCommitError e then Some (s, RetryRefused)
          else if quit attempt then Some (s, RetryAbandoned)
          else retryStore fuel (Datatypes.S attempt) s
      end
  end.

(** An answer that ends the retries. *)
Definition final_answer (a : store_answer) : bool :=
  match a with SFailed e _ => isPermanentCommitError e | _ => true end.

Lemma retry_ends n fuel attempt s :
  (exists k, k <= n /\ (final_answer (answers (attempt + k)) = true \/ quit (attempt + k) = true)) ->
  n < fuel -> is_Some (retryStore fuel attempt s).
Proof.
  revert n attempt s. induction fuel as [|fuel IH]; intros n attempt s (k & Hk & Hend) Hf; [lia|]. simpl.
  destruct (answers attempt) as [| |e applied] eqn:Ea; [by eexists..|].
  destruct (isPermanentCommitError e) eqn:Ep; [by eexists|]. destruct (quit attempt) eqn:Eq; [by eexists|].
  destruct k as [|k].
  { rewrite Nat.add_0_r, Ea, Eq in Hend. simpl in Hend. rewrite Ep in Hend. by destruct Hend. }
  apply (IH (n - 1)); [|lia]. exists k. split; [lia|]. by rewrite <- Nat.add_succ_comm in Hend.
Qed.

(** An idempotent statement leaves the same state however often it was tried. *)
Lemma retry_done fuel attempt s s' :
  (forall x, statement (statement x) = statement x) ->
  retryStore fuel attempt s = Some (s', RetryDone) -> s' = statement s.
Proof.
  intros Hid. revert attempt s. induction fuel as [|fuel IH]; intros attempt s; simpl; [done|].
  destruct (answers attempt) as [| |e applied]; [by intros [= <-]|done|].
  destruct (isPermanentCommitError e); [done|]. destruct (quit attempt); [done|].
  intros ->%IH. by destruct applied.
Qed.

End Retry.

Definition retry_effects (m : InboundMessage) (r : retry_result) : list effect :=
  match r with
  | RetryDone => [EffAck (mAck m)]
  | RetryNotFound => reject m reasonDeviceUnknown
  | RetryRefused => [EffFault; EffAck (mAck m)]
  | RetryAbandoned => []
  end.

(** ** The stored introspection *)

Abbreviation versions := (gmap gostring InterfaceVersion).

(** The two columns of the device row. *)
Record device_row := MkDeviceRow { dIntrospection : versions; dOldIntrospection : versions }.

(** Present before, and missing or at another major afterwards. *)
Definition dropped_by (intro : versions) (x : gostring * InterfaceVersion) : Prop :=
  match intro !! x.1 with Some nv => vMajor nv <> vMajor x.2 | None => True end.
#[global] Instance dropped_by_dec intro x : Decision (dropped_by intro x).
Proof. unfold dropped_by. destruct (intro !! x.1); apply _. Defined.

Definition removed_versions (current intro : versions) : versions := filter (dropped_by intro) current.

(** The transaction, with the versions it reports as removed: they are read
    from the row as it is when the transaction runs. *)
Definition UpdateIntrospection (intro : versions) (s : device_row * versions) : device_row * versions :=
  let row := s.1 in
  let removed := removed_versions (dIntrospection row) intro in
  (MkDeviceRow intro (removed ∪ dOldIntrospection row), removed).

(** ** The handler *)

(** The events an introspection fires: the range over a map is in any order. *)
Definition added_by (prev : versions) (x : gostring * InterfaceVersion) : Prop :=
  match prev !! x.1 with Some pv => vMajor pv <> vMajor x.2 | None => True end.
#[global] Instance added_by_dec prev x : Decision (added_by prev x).
Proof. unfold added_by. destruct (prev !! x.1); apply _. Defined.

Definition added_versions (prev intro : versions) : versions := filter (added_by prev) intro.

Definition introspection_events (rs : realmSchema) (m : InboundMessage) (intro prev removed : versions)
    : list firing :=
  let id := mDeviceID m in
  let device := DeviceID.String id in
  fireDevice rs id (mReceivedAt m) (Triggers.MkDeviceEvent device Triggers.OnIncomingIntrospection [] 0)
    (IncomingIntrospectionEvent (mPayload m)) ++
  (map_to_list (added_versions prev intro) ≫= fun x =>
     fireDevice rs id (mReceivedAt m) (Triggers.MkDeviceEvent device Triggers.OnInterfaceAdded x.1 (vMajor x.2))
       (InterfaceAddedEvent x.1 (vMajor x.2) (vMinor x.2))) ++
  (map_to_list removed ≫= fun x =>
     fireDevice rs id (mReceivedAt m) (Triggers.MkDeviceEvent device Triggers.OnInterfaceRemoved x.1 (vMajor x.2))
       (InterfaceRemovedEvent x.1 (vMajor x.2))).

(** The environment of a handler: device loads, store answers and shutdown. *)
Record handler_env := MkHandlerEnv {
  hFuel : nat;
  hRows : nat -> result load_error Device;
  hAnswers : nat -> store_answer;
  hQuit : nat -> bool;
}.

(** The state a handler works on, and what it did. *)
Record handled := MkHandled {
  hDevices : deviceCache;
  hRow : device_row;
  hEffects : list effect;
  hFirings : list firing;
  hRefreshed : bool;
}.

Definition loaded_device (env : handler_env) (rs : realmSchema) (c : deviceCache) (m : InboundMessage) :=
  deviceState_loop (hFuel env) c (mRealm m) (rsID rs) (mDeviceID m) (hRows env) (hQuit env) 0.

Definition handleIntrospection (env : handler_env) (rs : realmSchema) (c : deviceCache) (row : device_row)
    (m : InboundMessage) : option handled :=
  let refused := Some (MkHandled c row (reject m "introspection_invalid"%go) [] false) in
  if (maxIntrospectionBytes <? length (mPayload m))%nat then refused
  else match parseIntrospection (mPayload m) with
       | Err _ => refused
       | Ok intro =>
           match loaded_device env rs c m with
           | None => None
           | Some (c, DevUnknown) => Some (MkHandled c row (reject m reasonDeviceUnknown) [] false)
           | Some (c, DevAbandoned) => Some (MkHandled c row [] [] false)
           | Some (c, DevLoaded dev) =>
               let prev := introspection dev in
               match retryStore (UpdateIntrospection intro) (hAnswers env) (hQuit env) (hFuel env) 0 (row, ∅) with
               | None => None
               | Some ((row', removed), RetryDone) =>
                   Some (MkHandled (<[(mRealm m, mDeviceID m) := setIntrospection dev intro]> c) row'
                           [EffAck (mAck m)] (introspection_events rs m intro prev removed) true)
               | Some ((row', _), r) => Some (MkHandled c row' (retry_effects m r) [] false)
               end
           end
       end.

(** ** Capabilities *)

Definition capPurgePropertiesCompressionFormat : gostring := "purge_properties_compression_format"%go.
Definition compressionZlib : gostring := "zlib"%go.
Definition compressionPlaintext : gostring := "plaintext"%go.
Definition reasonCapabilitiesInvalid : gostring := "capabilities_payload_invalid"%go.

(** [bson.Unmarshal] into a map: a repeated key keeps its last value. *)
Definition decodeCapabilities `{Bson.BSONDriver} (p : gostring) : option (gmap gostring gostring) :=
  if (length p =? 0)%nat then None
  else
    raw ← Bson.parse_document p;
    let m : gmap gostring Bson.RawValue := foldl (fun m kv => <[kv.1 := kv.2]> m) ∅ raw in
    Some (omap (fun v => match v with Bson.RString s => Some s | _ => None end) m).

Definition validateCapability (key value : gostring) : bool :=
  if bool_decide (key = capPurgePropertiesCompressionFormat)
  then bool_decide (value = compressionZlib) || bool_decide (value = compressionPlaintext)
  else true.

Definition purgeCompressionFor (dev : option deviceState) : gostring :=
  match dev with
  | None => compressionZlib
  | Some dev => if bool_decide (purgeCompression dev = []) then compressionZlib else purgeCompression dev
  end.

Definition handleCapabilities `{Bson.BSONDriver} (env : handler_env) (rs : realmSchema) (c : deviceCache)
    (m : InboundMessage) : option (deviceCache * list effect) :=
  let refused := Some (c, reject m reasonCapabilitiesInvalid) in
  match decodeCapabilities (mPayload m) with
  | None => refused
  | Some caps =>
      if bool_decide (map_Forall (fun k v => validateCapability k v = true) caps) then
        match loaded_device env rs c m with
        | None => None
        | Some (c, DevUnknown) => Some (c, reject m reasonDeviceUnknown)
        | Some (c, DevAbandoned) => Some (c, [])
        | Some (c, DevLoaded dev) =>
            Some (match caps !! capPurgePropertiesCompressionFormat with
                  | Some v => <[(mRealm m, mDeviceID m) := setPurgeCompression dev v]> c
                  | None => c
                  end, [EffAck (mAck m)])
        end
      else refused
  end.

(** ** What an introspection changes *)

Definition declared (vs : versions) (name : gostring) (major : Z) : Prop :=
  exists v, vs !! name = Some v /\ vMajor v = major.

Lemma removed_declared current intro name v :
  removed_versions current intro !! name = Some v <->
  current !! name = Some v /\ ~ declared intro name (vMajor v).
Proof.
  unfold removed_versions, declared. rewrite map_lookup_filter_Some. unfold dropped_by. simpl.
  destruct (intro !! name) as [nv|].
  - split; intros [H1 H2]; (split; [done|]); [intros (? & [= <-] & ?); done|intros E; apply H2; eauto].
  - split; intros [H1 _]; (split; [done|]); [by intros (? & ? & _)|done].
Qed.

Lemma added_declared prev intro name v :
  added_versions prev intro !! name = Some v <->
  intro !! name = Some v /\ ~ declared prev name (vMajor v).
Proof. apply removed_declared. Qed.

(** Attempts that fail without taking effect leave nothing behind. *)
Lemma retry_clean {S} (f : S -> S) answers quit fuel k (s s' : S) :
  (forall i e, answers i <> SFailed e true) ->
  retryStore f answers quit fuel k s = Some (s', RetryDone) -> s' = f s.
Proof.
  intros Hc. revert k s. induction fuel as [|fuel IH]; intros k s; simpl; [done|].
  destruct (answers k) as [| |e applied] eqn:Ea; [by intros [= <-]|done|].
  destruct applied; [by destruct (Hc k e)|].
  destruct (isPermanentCommitError e); [done|]. destruct (quit k); [done|]. apply IH.
Qed.

(** The delivery of one body to one trigger. *)
Definition told (fs : list firing) (tr : Triggers.Trigger) (body : event_body) : Prop :=
  exists f, f ∈ fs /\ fTrigger f = tr /\ evBody (fEvent f) = body.

Lemma told_app fs gs tr body : told (fs ++ gs) tr body <-> told fs tr body \/ told gs tr body.
Proof. unfold told. setoid_rewrite elem_of_app. naive_solver. Qed.

Lemma told_fireDevice rs id ts ev b tr body :
  told (fireDevice rs id ts ev b) tr body <->
  body = b /\ tr ∈ rsTriggers rs /\ Triggers.MatchesDevice tr ev = true.
Proof.
  unfold told, fireDevice. setoid_rewrite elem_of_fire. split.
  - intros (f & (tr' & Hin & Hm & ->) & <- & <-). done.
  - intros (-> & Hin & Hm). eexists. split; [by exists tr|done].
Qed.

Lemma told_each {A} (l : list A) (g : A -> list firing) tr body :
  told (l ≫= g) tr body <-> exists x, x ∈ l /\ told (g x) tr body.
Proof.
  unfold told. setoid_rewrite list_elem_of_bind. split.
  - intros (f & (x & Hf & Hx) & H1 & H2). exists x. split; [done|]. by exists f.
  - intros (x & Hx & f & Hf & H1 & H2). exists f. split; [by exists x|done].
Qed.

Lemma told_added rs m intro prev removed tr name major :
  (exists minor, told (introspection_events rs m intro prev removed) tr (InterfaceAddedEvent name major minor)) <->
  tr ∈ rsTriggers rs /\
  Triggers.MatchesDevice tr
    (Triggers.MkDeviceEvent (DeviceID.String (mDeviceID m)) Triggers.OnInterfaceAdded name major) = true /\
  declared intro name major /\ ~ declared prev name major.
Proof.
  unfold introspection_events. setoid_rewrite told_app. setoid_rewrite told_app.
  setoid_rewrite told_each. setoid_rewrite told_fireDevice. setoid_rewrite elem_of_map_to_list'. split.
  - intros (minor & [(? & _)|[([n v] & Hx & E & Hin & Hm)|(x & _ & ? & _)]]); [done| |done].
    injection E as -> -> ->. apply added_declared in Hx as [H1 H2]. split_and!; try done. by exists v.
  - intros (Hin & Hm & (v & Hv & <-) & Hn). exists (vMinor v). right. left. exists (name, v).
    split; [by apply added_declared|done].
Qed.

Lemma told_removed rs m intro prev removed tr name major :
  told (introspection_events rs m intro prev removed) tr (InterfaceRemovedEvent name major) <->
  tr ∈ rsTriggers rs /\
  Triggers.MatchesDevice tr
    (Triggers.MkDeviceEvent (DeviceID.String (mDeviceID m)) Triggers.OnInterfaceRemoved name major) = true /\
  declared removed name major.
Proof.
  unfold introspection_events. rewrite !told_app, !told_each.
  setoid_rewrite told_fireDevice. setoid_rewrite elem_of_map_to_list'. split.
  - intros [(? & _)|[(x & _ & ? & _)|([n v] & Hx & E & Hin & Hm)]]; [done..|].
    injection E as -> ->. split_and!; try done. by exists v.
  - intros (Hin & Hm & (v & Hv & <-)). right. right. by exists (name, v).
Qed.

Lemma cached_device env rs c m dev :
  0 < hFuel env -> c !! (mRealm m, mDeviceID m) = Some dev -> loaded_device env rs c m = Some (c, DevLoaded dev).
Proof.
  intros Hf Hc. unfold loaded_device. destruct (hFuel env) as [|f]; [lia|]. simpl. unfold get. by rewrite Hc.
Qed.

(** ** The guarantees of the handlers *)


(** Whatever a device sends, the compression its purge messages use stays one
    the engine knows; a refused or abandoned negotiation changes nothing. *)
Theorem negotiated_compression_known `{Bson.BSONDriver} env rs c m c' effs :
  (forall k dev, c !! k = Some dev -> purgeCompressionFor (Some dev) ∈ [compressionZlib; compressionPlaintext]) ->
  handleCapabilities env rs c m = Some (c', effs) ->
  (forall k dev, c' !! k = Some dev -> purgeCompressionFor (Some dev) ∈ [compressionZlib; compressionPlaintext]) /\
  (effs = [EffAck (mAck m)] \/ (exists reason, effs = reject m reason) \/ (effs = [] /\ exists k, hQuit env k = true)).
Proof.
  intros Hc. unfold handleCapabilities.
  destruct (decodeCapabilities (mPayload m)) as [caps|]; [|intros [= <- <-]; eauto 6].
  case_bool_decide as Hv; [|intros [= <- <-]; eauto 6].
  assert (forall f k c0 c1 o, (forall k dev, c0 !! k = Some dev -> purgeCompressionFor (Some dev) ∈ [compressionZlib; compressionPlaintext]) ->
    deviceState_loop f c0 (mRealm m) (rsID rs) (mDeviceID m) (hRows env) (hQuit env) k = Some (c1, o) ->
    (forall k dev, c1 !! k = Some dev -> purgeCompressionFor (Some dev) ∈ [compressionZlib; compressionPlaintext]) /\
    (o = DevAbandoned -> exists k, hQuit env k = true)) as Hload.
  { clear. induction f as [|f IH]; intros k c0 c1 o Hc0; simpl; [done|]. unfold get.
    destruct (c0 !! (mRealm m, mDeviceID m)) as [st|]; [by intros [= <- <-]|].
    destruct (hRows env k) as [d|[]]; [|by intros [= <- <-]|].
    - intros [= <- <-]. split; [|done]. intros k' dev. rewrite lookup_insert. case_decide; [|apply Hc0].
      intros [= <-]. simpl. left.
    - destruct (hQuit env k) eqn:Eq; [intros [= <- <-]; split; [done|by exists k]|]. by apply IH. }
  unfold loaded_device. destruct (deviceState_loop _ _ _ _ _ _ _ _) as [[c1 o]|] eqn:El; [|done].
  destruct (Hload _ _ _ _ _ Hc El) as [Hc1 Hab].
  destruct o as [dev| |]; intros [= <- <-]; [|eauto 6|eauto 8].
  split; [|by left]. destruct (caps !! capPurgePropertiesCompressionFormat) as [v|] eqn:Ev; [|done].
  intros k dev'. rewrite lookup_insert. case_decide; [|apply Hc1]. intros [= <-].
  specialize (Hv _ _ Ev). unfold validateCapability in Hv. rewrite bool_decide_eq_true_2 in Hv by done.
  apply orb_true_iff in Hv as [->%bool_decide_eq_true| ->%bool_decide_eq_true]; simpl; [left|right; left].
Qed.

(** ** Examples *)

Definition watch (on : gostring) : Triggers.Trigger :=
  Triggers.MkTrigger on None [] [] [] [Triggers.MkDeviceMatcher on Triggers.anyToken Triggers.anyToken None true] None.
Definition watched_realm : realmSchema :=
  MkRealm 1 "test"%go ∅ ∅ [watch Triggers.OnInterfaceAdded; watch Triggers.OnInterfaceRemoved].
Definition old_list : versions := {["org.astrate.Old"%go := MkVersion 1 0]}.
Definition announcing_device : deviceState := MkDevice 1 old_list hintBSON false [].
Definition announcement : InboundMessage :=
  MkMessage "test"%go "0123456789abcdef"%go [] "org.astrate.New:2:1"%go 2 100 9.
Definition known_devices : deviceCache := {[("test"%go, "0123456789abcdef"%go) := announcing_device]}.
(** A connection lost during the first attempt, before or after its commit. *)
Definition lost_connection (applied : bool) : handler_env :=
  MkHandlerEnv 2 (fun _ => Err ErrNotFound) (fun k => match k with O => SFailed OtherError applied | _ => SOk end)
    (fun _ => false).
Definition announced (applied : bool) : option handled :=
  handleIntrospection (lost_connection applied) watched_realm known_devices (MkDeviceRow old_list ∅) announcement.


(** A commit whose answer is lost hides the removals: the retry reads the row
    it has already replaced, finds nothing to remove, and no trigger is told
    that the old interface is gone, although the handler completes. *)
Theorem lost_answer_hides_removals :
  (map (fun f => evBody (fEvent f)) ∘ hFirings <$> announced false) =
    Some [InterfaceAddedEvent "org.astrate.New"%go 2 1; InterfaceRemovedEvent "org.astrate.Old"%go 1] /\
  (map (fun f => evBody (fEvent f)) ∘ hFirings <$> announced true) =
    Some [InterfaceAddedEvent "org.astrate.New"%go 2 1] /\
  (hEffects <$> announced true) = Some [EffAck 9] /\
  ((fun h => dIntrospection (hRow h) !! "org.astrate.Old"%go) <$> announced true) = Some None.
Proof. split_and!; vm_compute; reflexivity. Qed.

Lemma known_devices_ok k dev :
  known_devices !! k = Some dev -> purgeCompressionFor (Some dev) ∈ [compressionZlib; compressionPlaintext].
Proof. unfold known_devices. intros [_ <-]%lookup_singleton_Some. left. Qed.

Lemma negotiated_compression_known_witness :
  let driver : Bson.BSONDriver := {| Bson.parse_document _ :=
    Some [(capPurgePropertiesCompressionFormat, Bson.RString compressionPlaintext)] |} in
  exists c effs, @handleCapabilities driver (lost_connection false) watched_realm known_devices announcement = Some (c, effs) /\
    purgeCompressionFor (c !! ("test"%go, "0123456789abcdef"%go)) = compressionPlaintext /\
    forall k dev, c !! k = Some dev -> purgeCompressionFor (Some dev) ∈ [compressionZlib; compressionPlaintext].
Proof.
  set (driver := {| Bson.parse_document _ :=
    Some [(capPurgePropertiesCompressionFormat, Bson.RString compressionPlaintext)] |}). cbv zeta.
  assert (Hc : ((fun r => purgeCompressionFor (r.1 !! ("test"%go, "0123456789abcdef"%go))) <$>
    @handleCapabilities driver (lost_connection false) watched_realm known_devices announcement) =
    Some compressionPlaintext) by (vm_compute; reflexivity).
  destruct (@handleCapabilities driver _ _ _ _) as [[c effs]|] eqn:E; [|discriminate Hc].
  exists c, effs. split; [reflexivity|]. split; [exact (inj Some _ _ Hc)|].
  exact (proj1 (@negotiated_compression_known driver (lost_connection false) watched_realm known_devices
    announcement c effs known_devices_ok E)).
Defined.

End Introspect.
