(* ===== verification/Control.v ===== *)
(** * Control messages ([src/internal/engine/control.go])

    The framed property lists, the purge a device asks for with
    [producer/properties], and the resync of [emptyCache]: every server-owned
    property is published again and the [consumer/properties] list follows.
    Compression is the interface {!Zlib}; the purge statement of
    src/internal/store/properties.go is modelled on the property table. *)

From S2P Require Import Prelude GoStrings DeviceID SchemaTypes InterfaceParse EndpointTrie Compile Broker.
From S2P Require Import Topics Float64 PayloadValue PayloadBson PayloadJson PayloadCodec Rows Batch Policy Triggers Cache Pipeline Events Introspect.

Module Control.
Import Schema Trie Compile Payload Json Rows Batch Cache Pipeline Introspect.

(** ** Frames *)

(** [compress/zlib]: what the writer produces, and what a reader yields: the
    bytes up to the end or the first error, and whether the end is clean;
    [None] when the header is refused. *)
Class Zlib := {
  deflate : gostring -> gostring;
  inflate : gostring -> option (gostring * bool);
}.
(** Documented: reading what was written gives it back. *)
Class ZlibLaws `{Zlib} := { inflate_deflate s : inflate (deflate s) = Some (s, true) }.

Definition maxControlInflated : Z := 2 ^ 20.
Definition controlFrameHeader : nat := 4.
Definition reasonControlInvalid : gostring := "control_payload_invalid"%go.

(** [io.ReadAll(io.LimitReader(r, n))]. *)
Definition read_limited (n : nat) (r : gostring * bool) : option gostring :=
  if (n <=? length r.1)%nat then Some (take n r.1) else if r.2 then Some r.1 else None.

Inductive frame_error := ShortFrame | AboveCeiling | NotZlib | InflateFailed | LyingHeader.

Section Frames.
Context `{Zlib}.

Definition deflateProperties (entries : list gostring) : gostring :=
  let plain := Strings.Join entries ";" in
  rev (le_bytes 4 (Z.of_nat (length plain))) ++ deflate plain.

Definition plaintextProperties (entries : list gostring) : gostring := Strings.Join entries ";".

Definition inflateProperties (p : gostring) : result frame_error (list gostring) :=
  if (length p <? controlFrameHeader)%nat then Err ShortFrame
  else
    let declared := le_value (rev (take controlFrameHeader p)) in
    if (maxControlInflated <? declared)%Z then Err AboveCeiling
    else match inflate (drop controlFrameHeader p) with
         | None => Err NotZlib
         | Some r =>
             match read_limited (S (Z.to_nat declared)) r with
             | None => Err InflateFailed
             | Some plain =>
                 if (declared <? Z.of_nat (length plain))%Z then Err LyingHeader
                 else if (length plain =? 0)%nat then Ok []
                 else Ok (Strings.Split plain ";")
             end
         end.

End Frames.

(** ** The purge *)

(** [store.PropertyRef]. *)
Definition PropertyRef : Type := Z * gostring.

Definition entry_interface (rs : realmSchema) (dev : deviceState) (name : gostring) : option CompiledInterface :=
  match (v ← declares dev name; iface (Some rs) name (Introspection.vMajor v)) with
  | Some ci => Some ci
  | None => latestIface (Some rs) name
  end.

Definition entry_ref (rs : realmSchema) (dev : deviceState) (entry : gostring) : option PropertyRef :=
  let '(name, rest, ok) := Strings.Cut entry "/" in
  if negb ok || bool_decide (name = []) || bool_decide (rest = []) then None
  else match entry_interface rs dev name with
       | None => None
       | Some ci => Some (ID ci, "/"%char :: rest)
       end.

Definition resolvePropertyRefs (rs : realmSchema) (dev : deviceState) (entries : list gostring)
    : list PropertyRef := omap (entry_ref rs dev) entries.

(** The DELETE of [PurgeDeviceOwnedExcept]; [owned] joins the interfaces table. *)
Definition purged (owned : Z -> bool) (realmID : Z) (id : gostring) (keep : list PropertyRef)
    (x : prop_key * Property) : Prop :=
  let '(r, d, i, path) := x.1 in
  r = realmID /\ d = id /\ owned i = true /\ (i, path) ∉ keep.
#[global] Instance purged_dec owned realmID id keep x : Decision (purged owned realmID id keep x).
Proof. unfold purged. destruct x as [[[[r d] i] path] p]. simpl. apply _. Defined.

Definition PurgeDeviceOwnedExcept (owned : Z -> bool) (realmID : Z) (id : gostring)
    (keep : list PropertyRef) (m : gmap prop_key Property) : gmap prop_key Property :=
  filter (fun x => ~ purged owned realmID id keep x) m.

Definition handleProducerProperties `{Zlib} (owned : Z -> bool) (env : handler_env) (rs : realmSchema)
    (c : deviceCache) (props : gmap prop_key Property) (m : InboundMessage)
    : option (deviceCache * gmap prop_key Property * list effect) :=
  match inflateProperties (mPayload m) with
  | Err _ => Some (c, props, reject m reasonControlInvalid)
  | Ok entries =>
      match loaded_device env rs c m with
      | None => None
      | Some (c, DevUnknown) => Some (c, props, reject m reasonDeviceUnknown)
      | Some (c, DevAbandoned) => Some (c, props, [])
      | Some (c, DevLoaded dev) =>
          let keep := resolvePropertyRefs rs dev entries in
          match retryStore (PurgeDeviceOwnedExcept owned (rsID rs) (mDeviceID m) keep)
                  (hAnswers env) (hQuit env) (hFuel env) 0 props with
          | None => None
          | Some (props, r) => Some (c, props, retry_effects m r)
          end
      end
  end.

(** ** The resync *)

Definition formatForHint (hint : gostring) : Format :=
  if bool_decide (hint = hintJSON) then FormatJSON else FormatBSON.

(** What goes on the wire: bytes, or a JSON envelope's members. *)
Inductive wire := WireBytes (b : gostring) | WireJSON (v : jtoken) (t : option jtoken).

(** One server-side publish. *)
Record message := MkPublish {
  pTopic : gostring;
  pWire : wire;
  pQoS : Z;
  pRetain : bool;
  pExpiry : Z;
}.

Section Resync.
Context `{JSONText, Zlib}.

(** [payload.Encode]; no value is the unset. *)
Definition Encode (v : option Value) (ts : option Z) (f : Format) : result payload_error wire :=
  match f, v with
  | FormatEmpty, None => match ts with None => Ok (WireBytes []) | Some _ => Err CallerBug end
  | FormatBSON, Some v => mapR WireBytes (Bson.encodeBSON v ts)
  | FormatJSON, Some v => let? (jv, t) := encodeJSON v ts in Ok (WireJSON jv t)
  | _, _ => Err CallerBug
  end.

(** The envelope is [{"v":<stored>}], without a timestamp; a stored token is
    its own text. *)
Definition rehydrateValue (stored : jtoken) (m : CompiledMapping) : result payload_error Value :=
  decodeJSONValue stored (cValueType m).

(** The message a stored property is republished as; [None] when skipped. *)
Definition resend_one (rs : realmSchema) (id : gostring) (format : Format) (p : Property) : option message :=
  match ifaceByID (Some rs) (pInterfaceID p) with
  | None => None
  | Some ci =>
      match Match (Some (cTrie ci)) (pPath p) with
      | None => None
      | Some mapping =>
          match (let? val := rehydrateValue (pValue p) mapping in Encode (Some val) None format) with
          | Err _ => None
          | Ok w => Some (MkPublish (Topics.deviceTopic (rsName rs) id (cName ci ++ pPath p)) w 2 false 0)
          end
      end
  end.

(** The loop of [resendServerProperties]: it stops at the first message the
    broker refuses. *)
Fixpoint publish_all (accepts : message -> bool) (l : list (option message)) : list message * bool :=
  match l with
  | [] => ([], true)
  | None :: l => publish_all accepts l
  | Some x :: l => if accepts x then let '(sent, ok) := publish_all accepts l in (x :: sent, ok) else ([], false)
  end.

Definition resendServerProperties (accepts : message -> bool) (rs : realmSchema) (id : gostring)
    (format : Format) (props : list Property) : list message * bool :=
  publish_all accepts (map (resend_one rs id format) props).

Definition consumer_entries (rs : realmSchema) (props : list Property) : list gostring :=
  omap (fun p => (fun ci => cName ci ++ pPath p) <$> ifaceByID (Some rs) (pInterfaceID p)) props.

Definition consumer_message (rs : realmSchema) (id : gostring) (dev : option deviceState) (props : list Property) : message :=
  let entries := consumer_entries rs props in
  let frame := if bool_decide (purgeCompressionFor dev = compressionPlaintext)
               then plaintextProperties entries else deflateProperties entries in
  MkPublish (Topics.deviceTopic (rsName rs) id "control/consumer/properties"%go) (WireBytes frame) 2 false 0.

Definition sendConsumerProperties (accepts : message -> bool) (rs : realmSchema) (id : gostring)
    (dev : option deviceState) (props : list Property) : list message * bool :=
  let msg := consumer_message rs id dev props in
  if accepts msg then ([msg], true) else ([], false).

(** One run of the closure [handleEmptyCache] retries; the two queries read
    the same rows. *)
Definition resync (accepts : message -> bool) (rs : realmSchema) (id : gostring) (dev : deviceState)
    (props : list Property) : list message * bool :=
  let '(sent, ok) := resendServerProperties accepts rs id (formatForHint (formatHint dev)) props in
  if ok then let '(sent', ok) := sendConsumerProperties accepts rs id (Some dev) props in (sent ++ sent', ok)
  else (sent, false).

(** The retries of [handleEmptyCache]: a failed query or a refused publish
    starts the resync over. *)
Fixpoint resync_loop (fuel : nat) (accepts : nat -> message -> bool) (env : handler_env) (rs : realmSchema)
    (id : gostring) (dev : deviceState) (props : list Property) (attempt : nat) (sent : list message)
    : option (list message * retry_result) :=
  match fuel with
  | O => None
  | S fuel =>
      match hAnswers env attempt with
      | SNotFound => Some (sent, RetryNotFound)
      | SFailed e _ =>
          if isPermanentCommitError e then Some (sent, RetryRefused)
          else if hQuit env attempt then Some (sent, RetryAbandoned)
          else resync_loop fuel accepts env rs id dev props (S attempt) sent
      | SOk =>
          let '(more, ok) := resync (accepts attempt) rs id dev props in
          if ok then Some (sent ++ more, RetryDone)
          else if hQuit env attempt then Some (sent ++ more, RetryAbandoned)
          else resync_loop fuel accepts env rs id dev props (S attempt) (sent ++ more)
      end
  end.

Definition handleEmptyCache (accepts : nat -> message -> bool) (env : handler_env) (rs : realmSchema)
    (c : deviceCache) (props : list Property) (m : InboundMessage)
    : option (deviceCache * list message * list effect) :=
  match loaded_device env rs c m with
  | None => None
  | Some (c, DevUnknown) => Some (c, [], reject m reasonDeviceUnknown)
  | Some (c, DevAbandoned) => Some (c, [], [])
  | Some (c, DevLoaded dev) =>
      let dev := armHintReset dev in
      let c := <[(mRealm m, mDeviceID m) := dev]> c in
      match resync_loop (hFuel env) accepts env rs (mDeviceID m) dev props 0 [] with
      | None => None
      | Some (sent, r) => Some (c, sent, retry_effects m r)
      end
  end.

(** [handleControl]: the subpath selects the handler; others are acknowledged. *)
Inductive control_kind := ControlEmptyCache | ControlProducerProperties | ControlUnknown.
Definition control_kind_of (subpath : gostring) : control_kind :=
  if bool_decide (subpath = "emptyCache"%go) then ControlEmptyCache
  else if bool_decide (subpath = "producer/properties"%go) then ControlProducerProperties
  else ControlUnknown.

Definition handleControl (accepts : nat -> message -> bool) (owned : Z -> bool) (env : handler_env)
    (rs : realmSchema) (c : deviceCache) (props : gmap prop_key Property) (server_props : list Property)
    (m : InboundMessage) (subpath : gostring)
    : option (deviceCache * gmap prop_key Property * list message * list effect) :=
  match control_kind_of subpath with
  | ControlEmptyCache =>
      '(c, sent, effs) ← handleEmptyCache accepts env rs c server_props m; Some (c, props, sent, effs)
  | ControlProducerProperties =>
      '(c, props, effs) ← handleProducerProperties owned env rs c props m; Some (c, props, [], effs)
  | ControlUnknown => Some (c, props, [], [EffAck (mAck m)])
  end.

End Resync.

(** ** Frames round trip *)

Lemma le_bytes_length n z : length (le_bytes n z) = n.
Proof. revert z. induction n as [|n IH]; intros z; simpl; [done|]. by rewrite IH. Qed.

Lemma read_limited_all n s : (length s < n)%nat -> read_limited n (s, true) = Some s.
Proof. intros Hl. unfold read_limited. simpl. by rewrite (proj2 (Nat.leb_gt _ _) Hl). Qed.

Lemma frame_header n rest :
  (0 <= n < 2 ^ 32)%Z ->
  length (rev (le_bytes 4 n) ++ rest) >= 4 /\
  le_value (rev (take 4 (rev (le_bytes 4 n) ++ rest))) = n /\
  drop 4 (rev (le_bytes 4 n) ++ rest) = rest.
Proof.
  intros Hn. assert (length (rev (le_bytes 4 n)) = 4) as Hl by (by rewrite length_rev, le_bytes_length).
  split; [rewrite length_app; lia|]. rewrite take_app_length', drop_app_length' by done. split; [|done].
  rewrite rev_involutive. apply Bson.le_value_bytes. change (256 ^ Z.of_nat 4)%Z with (2 ^ 32)%Z. lia.
Qed.

Lemma Join_nil_iff es : Forall (fun s => s <> []) es -> Strings.Join es ";" = [] -> es = [].
Proof.
  destruct es as [|e es]; [done|]. intros [He _]%Forall_cons. destruct es as [|e' es]; simpl; [done|].
  by intros [? _]%app_nil.
Qed.

(** ** Entries *)

(** A property as a device lists it: interface name and path. *)
Definition listed_entry (x : gostring * gostring) : gostring := x.1 ++ x.2.
Definition listable (x : gostring * gostring) : Prop :=
  x.1 <> [] /\ "/"%char ∉ x.1 /\ ";"%char ∉ x.1 /\
  exists rest, x.2 = "/"%char :: rest /\ rest <> [] /\ ";"%char ∉ rest.

Lemma listable_entry x : listable x -> listed_entry x <> [] /\ ";"%char ∉ listed_entry x.
Proof.
  destruct x as [name path]. intros (Hn & _ & Hs & rest & Hp & _ & Hr). simpl in *. unfold listed_entry. simpl.
  split; [by destruct name|]. rewrite Hp. set_solver.
Qed.

Lemma listable_ref rs dev x ref :
  listable x ->
  entry_ref rs dev (listed_entry x) = Some ref <->
  exists ci, entry_interface rs dev x.1 = Some ci /\ ref = (ID ci, x.2).
Proof.
  destruct x as [name path]. intros (Hn & Hsl & _ & rest & Hp & Hr & _). simpl in *.
  unfold entry_ref, listed_entry. simpl. rewrite Hp, Strings.Cut_app by done. simpl.
  rewrite !bool_decide_eq_false_2 by done. simpl. destruct (entry_interface rs dev name); naive_solver.
Qed.

Lemma resolved_refs rs dev l i path :
  Forall listable l ->
  (i, path) ∈ resolvePropertyRefs rs dev (map listed_entry l) <->
  exists name ci, (name, path) ∈ l /\ entry_interface rs dev name = Some ci /\ ID ci = i.
Proof.
  intros HF. unfold resolvePropertyRefs. rewrite list_elem_of_omap. setoid_rewrite list_elem_of_fmap. split.
  - intros (e & (x & -> & Hx) & He). rewrite Forall_forall in HF. apply listable_ref in He as (ci & Hci & [= -> ->]); [|by apply HF].
    exists x.1, ci. by destruct x.
  - intros (name & ci & Hin & Hci & <-). exists (listed_entry (name, path)). split; [by exists (name, path)|].
    rewrite Forall_forall in HF. apply listable_ref; [by apply HF|]. by exists ci.
Qed.

Lemma purge_idempotent owned realmID id keep m :
  PurgeDeviceOwnedExcept owned realmID id keep (PurgeDeviceOwnedExcept owned realmID id keep m) =
  PurgeDeviceOwnedExcept owned realmID id keep m.
Proof.
  unfold PurgeDeviceOwnedExcept. rewrite map_filter_filter. apply map_filter_ext. naive_solver.
Qed.

(** ** Stored values *)

Section Stored.
Context `{!JSONText, !JSONTextLaws}.

Lemma stored_scalar vt s :
  valid_scalar vt s -> exists j, Marshal (jsonable_scalar s) = Some j /\ decode_token j vt = Ok s.
Proof.
  destruct vt, s; simpl; try done.
  - intros Hf. rewrite Hf. eexists. split; [done|]. simpl. rewrite float_text by done. simpl.
    by rewrite (proj2 (checkDouble_Ok f f)).
  - intros Hi. eexists. split; [done|]. simpl. rewrite jsonInt64_Itoa by (by apply in_int32_int64).
    simpl. by rewrite (proj2 (int32FromInt64_Ok i i)).
  - intros _. eexists. split; done.
  - intros Hi. destruct (_ || _); eexists; (split; [done|]); simpl; [by rewrite Strconv.ParseInt_Itoa|by rewrite jsonInt64_Itoa].
  - intros Hs. eexists. split; [done|]. simpl. by rewrite (proj2 (checkString_Ok s s)).
  - intros _. eexists. split; [done|]. simpl. by rewrite base64_text.
  - intros [Ht Htr]. eexists. split; [done|]. simpl. rewrite time_text by done. simpl.
    by rewrite (proj2 (checkDateTime_Ok ns ns)) by (by rewrite Htr).
Qed.

Lemma stored_elems vt ss :
  Forall (valid_scalar vt) ss ->
  exists js, collect_list (map Marshal (map jsonable_scalar ss)) = Some js /\
    Forall2 (fun s j => decode_token j vt = Ok s) ss js.
Proof.
  unfold collect_list. induction 1 as [|s ss Hs _ (js & Hjs & HF)]; [by exists []|].
  destruct (stored_scalar _ _ Hs) as (j & Hj & Hd). exists (j :: js). simpl. rewrite Hj. simpl.
  rewrite Hjs. split; [done|by constructor].
Qed.

Lemma stored_round_trip vt v :
  valid_value vt v -> exists js, encodeValueJSON (Some v) = Some js /\ decodeJSONValue js vt = Ok v.
Proof.
  destruct v as [s|a|o]; simpl; [| |done].
  - intros [Ha Hs]. destruct (stored_scalar _ _ Hs) as (j & Hj & Hd).
    exists j. split; [done|]. unfold decodeJSONValue. rewrite Ha, Hd. destruct j; done.
  - intros (-> & Hl & HF). destruct (stored_elems _ _ HF) as (js & Hjs & Hd). exists (JArr js).
    unfold encodeValueJSON. simpl. rewrite Hjs. split; [done|]. by apply decode_slice_tokens.
Qed.

End Stored.

(** ** The guarantees of the control channel *)

Lemma frame_round_trip `{ZlibLaws} es :
  Forall (fun s => s <> [] /\ ";"%char ∉ s) es ->
  (Z.of_nat (length (Strings.Join es ";")) <= maxControlInflated)%Z ->
  inflateProperties (deflateProperties es) = Ok es.
Proof.
  intros HF Hl. unfold inflateProperties, deflateProperties, controlFrameHeader, maxControlInflated in *.
  set (plain := Strings.Join es ";") in *.
  destruct (frame_header (Z.of_nat (length plain)) (deflate plain)) as (H1 & H2 & H3); [lia|].
  rewrite (proj2 (Nat.ltb_ge _ _)) by lia. rewrite H2, H3.
  rewrite (proj2 (Z.ltb_ge _ _)) by lia. rewrite inflate_deflate, Nat2Z.id, read_limited_all by lia.
  rewrite (proj2 (Z.ltb_ge _ _)) by lia. destruct (length plain =? 0)%nat eqn:E0.
  - apply Nat.eqb_eq, nil_length_inv in E0. apply Join_nil_iff in E0; [by rewrite E0|].
    eapply Forall_impl; [exact HF|]. by intros s [? _].
  - unfold plain. rewrite Strings.Split_Join; [done| |].
    + intros ->. done.
    + eapply Forall_impl; [exact HF|]. by intros s [_ ?].
Qed.

(** A property list survives the wire: what is framed is read back, and
    whatever bytes a device sends, the accepted list was inflated from at most
    a mebibyte and never beyond the size its header declares. *)
Theorem control_frame_bounds `{ZlibLaws} :
  (forall es, Forall (fun s => s <> [] /\ ";"%char ∉ s) es ->
     (Z.of_nat (length (Strings.Join es ";")) <= maxControlInflated)%Z ->
     inflateProperties (deflateProperties es) = Ok es) /\
  (forall p es, inflateProperties p = Ok es ->
     (Z.of_nat (length (Strings.Join es ";")) <= le_value (rev (take 4 p)) <= maxControlInflated)%Z /\
     exists bytes clean, inflate (drop 4 p) = Some (bytes, clean) /\ bytes = Strings.Join es ";" /\ clean = true).
Proof.
  split; [apply frame_round_trip|]. intros p es. unfold inflateProperties, controlFrameHeader.
  destruct (length p <? 4)%nat; [done|]. destruct (_ <? _)%Z eqn:E1; [done|]. apply Z.ltb_ge in E1.
  destruct (inflate (drop 4 p)) as [[bytes clean]|] eqn:Ei; [|done].
  unfold read_limited. cbn [fst snd]. destruct (_ <=? _)%nat eqn:E2.
  - apply Nat.leb_le in E2. rewrite length_take.
    destruct (_ <? _)%Z eqn:E3; [done|]. apply Z.ltb_ge in E3. lia.
  - destruct clean; [|done]. destruct (_ <? _)%Z eqn:E3; [done|]. apply Z.ltb_ge in E3.
    destruct (length bytes =? 0)%nat eqn:E4.
    + apply Nat.eqb_eq, nil_length_inv in E4. subst bytes. intros [= <-]. simpl in *. split; [lia|]. eauto.
    + intros [= <-]. rewrite Strings.Join_Split. split; [lia|]. eauto.
Qed.

(** The device is the source of truth for its properties: when it sends the
    list of those it holds, every stored device-owned property of it that is
    not listed is deleted and every other row is kept, however often the
    statement had to be retried, and the message is acknowledged. *)
Theorem producer_properties_exact `{ZlibLaws} owned env rs c props m dev l n :
  c !! (mRealm m, mDeviceID m) = Some dev ->
  Forall listable l ->
  (Z.of_nat (length (Strings.Join (map listed_entry l) ";")) <= maxControlInflated)%Z ->
  mPayload m = deflateProperties (map listed_entry l) ->
  (forall k, k < n -> exists e applied, hAnswers env k = SFailed e applied /\
     isPermanentCommitError e = false /\ hQuit env k = false) -> hAnswers env n = SOk -> n < hFuel env ->
  exists props', handleProducerProperties owned env rs c props m = Some (c, props', [EffAck (mAck m)]) /\
  forall r d i path,
    let doomed := r = rsID rs /\ d = mDeviceID m /\ owned i = true /\
      ~ (exists name ci, (name, path) ∈ l /\ entry_interface rs dev name = Some ci /\ ID ci = i) in
    (doomed -> props' !! (r, d, i, path) = None) /\
    (~ doomed -> props' !! (r, d, i, path) = props !! (r, d, i, path)).
Proof.
  intros Hc HF Hlen Hp Htrans Hok Hfuel. unfold handleProducerProperties.
  rewrite Hp, frame_round_trip, (cached_device env rs c m dev) by
    (lia || done || (apply Forall_fmap; eapply Forall_impl; [exact HF|]; apply listable_entry)).
  set (keep := resolvePropertyRefs rs dev (map listed_entry l)).
  set (f := PurgeDeviceOwnedExcept owned (rsID rs) (mDeviceID m) keep).
  assert (retryStore f (hAnswers env) (hQuit env) (hFuel env) 0 props = Some (f props, RetryDone)) as ->.
  { assert (forall fuel k s, k <= n -> n - k < fuel ->
      retryStore f (hAnswers env) (hQuit env) fuel k s = Some (f s, RetryDone)) as Hr.
    { induction fuel as [|fuel IH]; intros k s Hk Hf; [lia|]. simpl.
      destruct (decide (k = n)) as [->|Hne]; [by rewrite Hok|].
      destruct (Htrans k) as (e & applied & -> & -> & ->); [lia|]. rewrite IH by lia.
      destruct applied; [|done]. unfold f. by rewrite purge_idempotent. }
    apply Hr; lia. }
  eexists. split; [reflexivity|]. intros r d i path.
  assert ((i, path) ∈ keep <-> exists name ci, (name, path) ∈ l /\ entry_interface rs dev name = Some ci /\ ID ci = i)
    as Hkeep by (by apply resolved_refs).
  rewrite <- Hkeep. split.
  - intros Hd. apply map_lookup_filter_None. right. intros x _ Hx. by apply Hx.
  - intros Hd. unfold f, PurgeDeviceOwnedExcept. rewrite map_lookup_filter.
    destruct (props !! (r, d, i, path)) as [x|]; [|done]. simpl. rewrite option_guard_True; [done|]. exact Hd.
Qed.

(** What is stored can be sent again: the canonical rendering of any valid
    value, which the property table holds, decodes to that value, so the
    resync republishes each stored property of an installed interface on its
    topic with the encoding of the very value that was stored. *)
Theorem stored_property_rehydrates `{!JSONText, !JSONTextLaws} rs id format p ci mapping v :
  ifaceByID (Some rs) (pInterfaceID p) = Some ci ->
  Match (Some (cTrie ci)) (pPath p) = Some mapping ->
  valid_value (cValueType mapping) v -> encodeValueJSON (Some v) = Some (pValue p) ->
  rehydrateValue (pValue p) mapping = Ok v /\
  resend_one rs id format p =
    match Encode (Some v) None format with
    | Ok w => Some (MkPublish (Topics.deviceTopic (rsName rs) id (cName ci ++ pPath p)) w 2 false 0)
    | Err _ => None
    end.
Proof.
  intros Hci Hm Hv Hjs. destruct (stored_round_trip _ _ Hv) as (js & Ejs & Hd).
  rewrite Ejs in Hjs. injection Hjs as ->.
  assert (rehydrateValue (pValue p) mapping = Ok v) as Hr by exact Hd. split; [exact Hr|].
  unfold resend_one. rewrite Hci, Hm, Hr. reflexivity.
Qed.

(** The messages of a complete resync. *)
Definition full_resync `{JSONText, Zlib} (rs : realmSchema) (id : gostring) (dev : deviceState) (props : list Property)
    : list message :=
  omap (resend_one rs id (formatForHint (formatHint dev))) props ++ [consumer_message rs id (Some dev) props].

Lemma publish_all_sent accepts l sent : publish_all accepts l = (sent, true) -> sent = omap id l.
Proof.
  revert sent. induction l as [|[x|] l IH]; intros sent; simpl; [by intros [= <-]| |apply IH].
  destruct (accepts x); [|done]. destruct (publish_all accepts l) as [s ok]. intros [= <- ->]. by rewrite (IH s).
Qed.

Lemma resync_complete `{JSONText, Zlib} accepts rs id dev props sent :
  resync accepts rs id dev props = (sent, true) -> sent = full_resync rs id dev props.
Proof.
  unfold resync, resendServerProperties, sendConsumerProperties, full_resync.
  destruct (publish_all accepts _) as [s ok] eqn:E. destruct ok; [|done].
  destruct (accepts _); [|done]. intros [= <-]. apply publish_all_sent in E as ->. f_equal.
  induction props as [|p props IH]; [done|]. simpl. destruct (resend_one _ _ _ p); simpl; [f_equal|]; exact IH.
Qed.

(** After [emptyCache] the device has everything: a handler that completes has
    ended its messages with one complete resync, every server-owned property
    the schema resolves followed by the list of all of them, has armed the
    format reset, and acknowledges the message once. *)
Theorem empty_cache_resyncs `{JSONText, Zlib} accepts env rs c props m dev c' sent effs :
  c !! (mRealm m, mDeviceID m) = Some dev ->
  handleEmptyCache accepts env rs c props m = Some (c', sent, effs) -> effs = [EffAck (mAck m)] ->
  (exists earlier, sent = earlier ++ full_resync rs (mDeviceID m) (armHintReset dev) props) /\
  c' = <[(mRealm m, mDeviceID m) := armHintReset dev]> c.
Proof.
  intros Hc. unfold handleEmptyCache, loaded_device. destruct (hFuel env) as [|f]; [done|].
  cbn [deviceState_loop]. unfold get. rewrite Hc.
  destruct (resync_loop _ _ _ _ _ _ _ _ _) as [[sent' r]|] eqn:E; [|done].
  intros [= <- <- <-] He. split; [|done].
  assert (r = RetryDone) as -> by (by destruct r).
  clear He. revert E. generalize (S f) as fuel. generalize 0%nat as k. generalize (@nil message) as acc. intros acc k fuel.
  revert acc k. induction fuel as [|fuel IH]; intros acc k; simpl; [done|].
  destruct (hAnswers env k) as [| |e applied]; [|done|].
  - destruct (resync (accepts k) rs (mDeviceID m) (armHintReset dev) props) as [more ok] eqn:Er.
    destruct ok.
    + intros [= <-]. apply resync_complete in Er as ->. by exists acc.
    + destruct (hQuit env k); [done|]. apply IH.
  - destruct (isPermanentCommitError e); [done|]. destruct (hQuit env k); [done|]. apply IH.
Qed.

(** ** Examples *)

(** Uncompressed frames, an instance of the interface. *)
Definition stored_blocks : Zlib := {| deflate s := s; inflate s := Some (s, true) |}.
Lemma stored_blocks_laws : @ZlibLaws stored_blocks.
Proof. split. reflexivity. Qed.

Definition control_env : handler_env :=
  MkHandlerEnv 3 (fun _ => Err ErrNotFound)
    (fun k => match k with O => SFailed OtherError true | _ => SOk end) (fun _ => false).
Definition control_device : deviceState :=
  MkDevice 1 {["org.astrate.Settings"%go := Introspection.MkVersion 1 0]} hintBSON false [].
Definition control_devices : deviceCache := {[("test"%go, "0123456789abcdef"%go) := control_device]}.
Definition control_row (path : gostring) : Property :=
  MkProperty 1 "0123456789abcdef"%go 7 1 path (JNum "4"%go) Integer.
Definition row_at (path : gostring) : prop_key := (1%Z, "0123456789abcdef"%go, 7%Z, path).
Definition control_table : gmap prop_key Property :=
  {[row_at "/a/x"%go := control_row "/a/x"%go; row_at "/b/x"%go := control_row "/b/x"%go;
    row_at "/a;b/x"%go := control_row "/a;b/x"%go]}.
Definition listing (l : list (gostring * gostring)) : InboundMessage :=
  MkMessage "test"%go "0123456789abcdef"%go [] (@deflateProperties stored_blocks (map listed_entry l)) 2 100 5.

Lemma control_frame_bounds_witness :
  @inflateProperties stored_blocks (@deflateProperties stored_blocks ["org.a.B/x/y"%go; "org.a.C/z"%go]) =
    Ok ["org.a.B/x/y"%go; "org.a.C/z"%go].
Proof.
  apply (proj1 (@control_frame_bounds stored_blocks stored_blocks_laws)).
  - repeat constructor; try discriminate; apply (bool_decide_unpack _); vm_compute; exact I.
  - vm_compute. discriminate.
Defined.

Lemma producer_properties_exact_witness :
  exists props', @handleProducerProperties stored_blocks (fun _ => true) control_env prop_realm control_devices control_table
      (listing [("org.astrate.Settings"%go, "/a/x"%go)]) = Some (control_devices, props', [EffAck 5]) /\
    props' !! row_at "/b/x"%go = None /\ props' !! row_at "/a/x"%go = Some (control_row "/a/x"%go).
Proof.
  destruct (@producer_properties_exact stored_blocks stored_blocks_laws (fun _ => true) control_env prop_realm
    control_devices control_table (listing [("org.astrate.Settings"%go, "/a/x"%go)]) control_device
    [("org.astrate.Settings"%go, "/a/x"%go)] 1) as (props' & Hh & Hspec).
  - reflexivity.
  - constructor; [|constructor]. split_and!; [discriminate|apply (bool_decide_unpack _); vm_compute; exact I..|].
    exists "a/x"%go. split_and!; [reflexivity|discriminate|apply (bool_decide_unpack _); vm_compute; exact I].
  - vm_compute. discriminate.
  - reflexivity.
  - intros k Hk. assert (k = 0%nat) as -> by lia. exists OtherError, true. split_and!; reflexivity.
  - reflexivity.
  - simpl. lia.
  - exists props'. split; [exact Hh|]. split.
    + apply (Hspec 1%Z "0123456789abcdef"%go 7%Z "/b/x"%go). split_and!; try reflexivity.
      intros (name & ci & Hin & _). apply list_elem_of_singleton in Hin. discriminate Hin.
    + etrans; [apply (Hspec 1%Z "0123456789abcdef"%go 7%Z "/a/x"%go)|vm_compute; reflexivity].
      intros (_ & _ & _ & Hn). apply Hn. exists "org.astrate.Settings"%go, prop_interface.
      split; [left|]. split; vm_compute; reflexivity.
Defined.

(** A path may hold the separator of the list: the property at [/a;b/x],
    which the device lists, is deleted all the same. *)
Theorem listed_property_purged :
  (fun r => r.1.2 !! row_at "/a;b/x"%go) <$>
    @handleProducerProperties stored_blocks (fun _ => true) control_env prop_realm control_devices control_table
      (listing [("org.astrate.Settings"%go, "/a/x"%go); ("org.astrate.Settings"%go, "/a;b/x"%go)]) = Some None /\
  placeholderValueOK "a;b"%go = true.
Proof. vm_compute. split; reflexivity. Qed.

(** A realm whose one interface is served by the sample compiler run. *)
Definition sample_ci : CompiledInterface :=
  default prop_interface (ifaceByID (Some sample_realm) 7).
Definition sample_leaf : CompiledMapping :=
  default Codec.sample_mapping (Match (Some (cTrie sample_ci)) "/4/x"%go).
Definition double_value : Value := VScalar (SDouble (Float64.of_int 21)).
Definition double_row : Property :=
  MkProperty 1 "0123456789abcdef"%go 7 9 "/4/x"%go
    (default JNull (@encodeValueJSON decimal_text (Some double_value))) Double.

Lemma stored_property_rehydrates_witness :
  @rehydrateValue decimal_text (pValue double_row) sample_leaf = Ok double_value.
Proof.
  apply (@stored_property_rehydrates decimal_text decimal_laws sample_realm "0123456789abcdef"%go FormatJSON
    double_row sample_ci sample_leaf double_value).
  - vm_compute. reflexivity.
  - vm_compute. reflexivity.
  - split; vm_compute; reflexivity.
  - vm_compute. reflexivity.
Defined.

(** The broker refuses everything at the first attempt. *)
Definition second_time (k : nat) (_ : message) : bool := match k with O => false | _ => true end.
Definition calm_env : handler_env :=
  MkHandlerEnv 3 (fun _ => Err ErrNotFound) (fun _ => SOk) (fun _ => false).

Lemma empty_cache_resyncs_witness :
  exists c sent, @handleEmptyCache decimal_text stored_blocks second_time calm_env sample_realm control_devices
      [double_row] (listing []) = Some (c, sent, [EffAck 5]) /\
    exists earlier, sent = earlier ++ @full_resync decimal_text stored_blocks sample_realm "0123456789abcdef"%go
      (armHintReset control_device) [double_row].
Proof.
  assert (Ha : snd <$> @handleEmptyCache decimal_text stored_blocks second_time calm_env sample_realm control_devices
      [double_row] (listing []) = Some [EffAck 5]) by (vm_compute; reflexivity).
  destruct (@handleEmptyCache _ _ _ _ _ _ _ _) as [[[c sent] effs]|] eqn:E; [|discriminate Ha].
  apply (inj Some) in Ha. cbn [snd] in Ha. rewrite Ha in E |- *. exists c, sent. split; [reflexivity|].
  exact (proj1 (@empty_cache_resyncs decimal_text stored_blocks second_time calm_env sample_realm control_devices
    [double_row] (listing []) control_device c sent [EffAck 5] eq_refl E eq_refl)).
Defined.

End Control.
