(* ===== verification/ServerData.v ===== *)
(** * Server-side publishes ([src/internal/engine/serverdata.go])

    Values the AppEngine API (or a virtual device) hands to the engine: they
    are validated like an inbound JSON payload, stored, and, for server-owned
    interfaces, delivered to the device. The payload package is used through
    {!PayloadCodec.Codec.PayloadDecoder}, one decoder per size cap; the JSON
    envelope writer, the store and the broker are arguments. *)

From S2P Require Import Prelude GoStrings DeviceID SchemaTypes InterfaceParse EndpointTrie Compile Broker.
From S2P Require Import Topics Float64 PayloadValue PayloadBson PayloadJson PayloadCodec Rows Batch Policy Triggers Cache Pipeline Events Introspect Control.

Module ServerData.
Import Schema Parse Trie Compile Payload Json Rows Batch Cache Pipeline Introspect Control.

Inductive server_error :=
| ErrRealmUnknown
| ErrDevice (e : load_error)
| ErrInterfaceNotFound
| ErrNotServerOwned
| ErrNotDeviceOwned
| ErrPathNotFound
| ErrNotAProperty
| ErrUnsetNotAllowed
| ErrPayload (e : payload_error)
| ErrRow (e : row_error)
| ErrStore (e : commit_error)
| ErrEncode (e : payload_error)
| ErrPublish (topic : gostring).

(** [deviceView]: what the publish paths need of a device. *)
Record view := MkView { vDeclares : gostring -> option Introspection.InterfaceVersion; vHint : gostring }.

Definition deviceView (c : deviceCache) (rs : realmSchema) (id : gostring) (row : result load_error Device)
    : result server_error view :=
  match peek c (rsName rs) id with
  | Some dev => Ok (MkView (declares dev) (formatHint dev))
  | None =>
      match row with
      | Err e => Err (ErrDevice e)
      | Ok d =>
          let hint := if bool_decide (PayloadFormatHint d = []) then hintBSON else PayloadFormatHint d in
          Ok (MkView (fun name => Introspection_ d !! name) hint)
      end
  end.

Definition resolveServerInterface (rs : realmSchema) (v : view) (name : gostring) : option CompiledInterface :=
  match (ver ← vDeclares v name; iface (Some rs) name (Introspection.vMajor ver)) with
  | Some ci => Some ci
  | None => latestIface (Some rs) name
  end.

Definition anyObjectLeaf (first_key : gmap gostring CompiledMapping -> option gostring)
    (ci : CompiledInterface) : option CompiledMapping :=
  let leaves := default ∅ (ObjectLeaves ci) in
  k ← first_key leaves; leaves !! k.

(** [ownerDelivery]. *)
Record ownerDelivery := MkOwner {
  odValue : Value;
  odHint : gostring;
  odWireTS : option Z;
  odQoS : Z;
  odRetain : bool;
  odExpiry : Z;
}.

(** Where a publish goes, as the caller names it. *)
Record target := MkTarget {
  tgRealm : gostring;
  tgDevice : gostring;
  tgInterface : gostring;
  tgPath : gostring;
}.

Section Publish.
Context `{JSONText}.
(** [payload.Decoder] by [MaxSize]; the range order; [json.Marshal] of the
    envelope; the store and the broker. *)
Variable dec : Z -> Codec.PayloadDecoder.
Variable first_key : gmap gostring CompiledMapping -> option gostring.
Variable marshal_envelope : jtoken -> Z -> gostring.
Variable db : request -> option commit_error.
Variable accepts : message -> bool.

Definition serverEnvelope (value : option jtoken) (ts : Z) : result server_error gostring :=
  match value with
  | None => Err ErrUnsetNotAllowed
  | Some v => Ok (marshal_envelope v ts)
  end.

Definition payload_result {A} (r : result payload_error A) : result server_error A := mapErr ErrPayload r.
Definition row_result {A} (r : result row_error A) : result server_error A := mapErr ErrRow r.

(** The decoding part of [publishAsOwner]: mapping and value. *)
Definition decode_value (ci : CompiledInterface) (path envelope : gostring)
    : result server_error (option CompiledMapping * Codec.DecodedPayload) :=
  let size := Z.of_nat (length envelope) in
  if bool_decide (cAggregation ci = AggregationObject) then
    if negb (objectPathOK first_key ci path) then Err ErrPathNotFound
    else
      let? dp := payload_result
        (@Codec.decode_object (dec size) envelope (default ∅ (ObjectLeaves ci))) in
      Ok (anyObjectLeaf first_key ci, dp)
  else
    match Match (Some (cTrie ci)) path with
    | None => Err ErrPathNotFound
    | Some m =>
        let? dp := payload_result (@Codec.decode_individual (dec size) envelope (Some m)) in
        Ok (Some m, dp)
    end.

(** The switch that builds the row and what delivery needs; a nil leaf would
    panic, [NilMappingPanic]. *)
Definition owner_row (op : PersistOp) (v : Value) (hint : gostring) (effTS : Z)
    : result server_error (request * ownerDelivery) :=
  let ci := Interface_ op in
  let timed := match Mapping_ op with
               | Some m => Ok (MkOwner v hint (Some effTS) (cReliability m) false (cExpiry m))
               | None => Err (ErrRow NilMappingPanic)
               end in
  if bool_decide (cType ci = Properties) then
    let? row := row_result (propertyRow op) in
    Ok (UpsertProperty row, MkOwner v hint None 2 true 0)
  else if bool_decide (cAggregation ci = AggregationObject) then
    let? out := timed in
    let? row := row_result (objectRow op) in
    Ok (AppendRows (MkBatch [] [row]), out)
  else
    let? out := timed in
    let? row := row_result (individualRow op) in
    Ok (AppendRows (MkBatch [row] []), out).

Definition kind_for (ci : CompiledInterface) : OpKind :=
  if bool_decide (cType ci = Properties) then OpPropertySet
  else if bool_decide (cAggregation ci = AggregationObject) then OpObject else OpIndividual.

(** [publishAsOwner] up to the store call: the operation, the statement it is
    stored with, and what delivery needs. *)
Definition check_publish (rs : option realmSchema) (c : deviceCache) (row : result load_error Device) (t : target)
    (value : option jtoken) (ts : option Z) (now : Z) (ownership : Ownership)
    : result server_error (PersistOp * request * ownerDelivery) :=
  let notOwned := if bool_decide (ownership = OwnershipServer) then ErrNotServerOwned else ErrNotDeviceOwned in
  let effTS := default now ts in
  let? rs := or_err rs ErrRealmUnknown in
  let? vw := deviceView c rs (tgDevice t) row in
  let? ci := or_err (resolveServerInterface rs vw (tgInterface t)) ErrInterfaceNotFound in
  let? _ := if bool_decide (cOwnership ci = ownership) then Ok () else Err notOwned in
  let? envelope := serverEnvelope value effTS in
  let? (mapping, dp) := decode_value ci (tgPath t) envelope in
  let? val := or_err (Codec.dValue dp) ErrUnsetNotAllowed in
  let op := MkOp (kind_for ci) (tgRealm t) (rsID rs) (tgDevice t) ci mapping (tgPath t) (Some val)
              (Codec.dFormat dp) effTS effTS false false None 0 false in
  let? (q, out) := owner_row op val (vHint vw) effTS in
  Ok (op, q, out).

(** [publishAsOwner]: the statements sent to the store, and the result. *)
Definition publishAsOwner (rs : option realmSchema) (c : deviceCache) (row : result load_error Device) (t : target)
    (value : option jtoken) (ts : option Z) (now : Z) (ownership : Ownership)
    : list request * result server_error ownerDelivery :=
  match check_publish rs c row t value ts now ownership with
  | Err e => ([], Err e)
  | Ok (_, q, out) => ([q], match db q with Some e => Err (ErrStore e) | None => Ok out end)
  end.

(** [PublishServerValue]: persist, then deliver. *)
Definition PublishServerValue (rs : option realmSchema) (c : deviceCache) (row : result load_error Device) (t : target)
    (value : option jtoken) (ts : option Z) (now : Z)
    : list request * list message * result server_error () :=
  let '(reqs, r) := publishAsOwner rs c row t value ts now OwnershipServer in
  match r with
  | Err e => (reqs, [], Err e)
  | Ok out =>
      match Encode (Some (odValue out)) (odWireTS out) (formatForHint (odHint out)) with
      | Err e => (reqs, [], Err (ErrEncode e))
      | Ok w =>
          let topic := Topics.deviceTopic (tgRealm t) (tgDevice t) (tgInterface t ++ tgPath t) in
          let msg := MkPublish topic w (odQoS out) (odRetain out) (odExpiry out) in
          if accepts msg then (reqs, [msg], Ok ()) else (reqs, [], Err (ErrPublish topic))
      end
  end.

(** [PublishDeviceValue]: no delivery. *)
Definition PublishDeviceValue (rs : option realmSchema) (c : deviceCache) (row : result load_error Device) (t : target)
    (value : option jtoken) (ts : option Z) (now : Z) : list request * result server_error () :=
  let '(reqs, r) := publishAsOwner rs c row t value ts now OwnershipDevice in
  (reqs, mapR (fun _ => ()) r).

(** [UnsetServerProperty]: delete, clear the retained message, send the list. *)
Definition UnsetServerProperty `{Zlib} (rs : option realmSchema) (c : deviceCache) (row : result load_error Device) (t : target)
    (rest : result commit_error (list Property))
    : list request * list message * result server_error () :=
  let checked :=
    let? rs := or_err rs ErrRealmUnknown in
    let? vw := deviceView c rs (tgDevice t) row in
    let? ci := or_err (resolveServerInterface rs vw (tgInterface t)) ErrInterfaceNotFound in
    let? _ := if bool_decide (cOwnership ci = OwnershipServer) then Ok () else Err ErrNotServerOwned in
    let? _ := if bool_decide (cType ci = Properties) then Ok () else Err ErrNotAProperty in
    let? m := or_err (Match (Some (cTrie ci)) (tgPath t)) ErrPathNotFound in
    let? _ := if cAllowUnset m then Ok () else Err ErrUnsetNotAllowed in
    Ok (rs, ci) in
  match checked with
  | Err e => ([], [], Err e)
  | Ok (rs, ci) =>
      let q := UnsetProperty (rsID rs, tgDevice t, ID ci, tgPath t) in
      match db q with
      | Some e => ([q], [], Err (ErrStore e))
      | None =>
          let topic := Topics.deviceTopic (tgRealm t) (tgDevice t) (tgInterface t ++ tgPath t) in
          let msg := MkPublish topic (WireBytes []) 2 true 0 in
          if negb (accepts msg) then ([q], [], Err (ErrPublish topic))
          else
            match rest with
            | Err e => ([q], [msg], Err (ErrStore e))
            | Ok rest =>
                let list_msg := consumer_message rs (tgDevice t) (peek c (rsName rs) (tgDevice t)) rest in
                if accepts list_msg then ([q], [msg; list_msg], Ok ())
                else ([q], [msg], Err (ErrPublish (pTopic list_msg)))
            end
      end
  end.

End Publish.

(** ** What is stored *)

(** The statement the batcher stores an operation with, {!Batch}. *)
Definition op_request `{JSONText} (op : PersistOp) : option request :=
  match plan_of op with
  | PlanRequest q => Some q
  | PlanIndividual row => Some (AppendRows (MkBatch [row] []))
  | PlanObject row => Some (AppendRows (MkBatch [] [row]))
  | _ => None
  end.

(** How a value of an interface is delivered. *)
Definition delivery_of (op : PersistOp) (v : Value) (hint : gostring) : option ownerDelivery :=
  if bool_decide (cType (Interface_ op) = Properties) then Some (MkOwner v hint None 2 true 0)
  else (fun m => MkOwner v hint (Some (TS op)) (cReliability m) false (cExpiry m)) <$> Mapping_ op.

Section Sound.
Context `{JSONText}.

Lemma owner_row_typed op v hint m :
  op_typed op -> broken op = false -> Kind op = kind_for (Interface_ op) -> Mapping_ op = Some m ->
  exists q out, owner_row op v hint (TS op) = Ok (q, out) /\ op_request op = Some q /\
    delivery_of op v hint = Some out.
Proof.
  intros Ht Hb Hk Hm. unfold owner_row, op_request, plan_of, delivery_of. rewrite Hb.
  unfold op_typed in Ht. unfold kind_for in Hk.
  destruct (bool_decide (cType (Interface_ op) = Properties)).
  - rewrite Hk in *. destruct Ht as (m' & w & Hm' & Hv & Hval). destruct (encode_valid _ _ Hval) as [js Hjs].
    unfold propertyRow. rewrite Hv, Hjs, Hm'. simpl. eauto.
  - destruct (bool_decide (cAggregation (Interface_ op) = AggregationObject)); rewrite Hk in *.
    + destruct Ht as (leaves & o & Hv & Hval). destruct (encode_valid_object _ _ Hval) as [js Hjs].
      unfold objectRow. rewrite Hv, Hjs, Hm. simpl. eauto.
    + destruct Ht as (m' & w & Hm' & Hv & Hval).
      destruct (individualRow_valid op m' w Hm' Hv Hval) as (row & js & Hrow & _). rewrite Hrow, Hm. simpl. eauto.
Qed.

Lemma resolved_installed rs v name ci :
  realm_ok rs -> resolveServerInterface rs v name = Some ci -> installed ci /\ cName ci = name.
Proof.
  intros Hrs. unfold resolveServerInterface. pose proof (latestIface_spec rs name Hrs) as Hl.
  destruct (vDeclares v name ≫= _) as [ci'|] eqn:E.
  - intros [= <-]. apply bind_Some in E as (ver & _ & E). by apply Hrs in E as (? & ? & ?).
  - intros E'. rewrite E' in Hl. destruct Hl as [Hi _]. by apply Hrs in Hi as (? & ? & ?).
Qed.

Lemma any_leaf first_key ci :
  ranges first_key -> installed ci -> cAggregation ci = AggregationObject ->
  exists k m table, ObjectLeaves ci = Some table /\ anyObjectLeaf first_key ci = Some m /\ table !! k = Some m.
Proof.
  intros Hr Hi Ha. destruct (object_table ci Hi Ha) as (P & table & Et & Hne & _).
  unfold anyObjectLeaf. rewrite Et. change (default ∅ (Some table)) with table.
  specialize (Hr table). destruct (first_key table) as [k|]; [|done]. destruct Hr as [m Hm].
  exists k, m, table. by rewrite <- Hm.
Qed.

Lemma decode_value_typed dec first_key ci path env mp dp val op :
  ranges first_key -> installed ci ->
  decode_value dec first_key ci path env = Ok (mp, dp) -> Codec.dValue dp = Some val ->
  Kind op = kind_for ci -> Interface_ op = ci -> Mapping_ op = mp -> Value_ op = Some val ->
  op_typed op /\ is_Some mp.
Proof.
  intros Hr Hi Hd Hv Hk Hci Hm Hval. unfold decode_value in Hd. unfold op_typed. rewrite Hk. unfold kind_for.
  assert (cType ci = Properties -> cAggregation ci = AggregationIndividual) as Hprop.
  { destruct Hi as (i & ids & Hwf & Hc). pose proof (compile_header _ _ _ Hc) as (_ & _ & Hty & Ha & _).
    rewrite Hty, Ha. apply (wf_properties _ Hwf). }
  destruct (bool_decide_reflect (cAggregation ci = AggregationObject)) as [Ha|Ha].
  - rewrite bool_decide_eq_false_2 by (intros Hp; rewrite (Hprop Hp) in Ha; discriminate).
    destruct (negb _); [done|]. inv_ok Hd. subst mp a. apply mapErr_Ok in Hok.
    apply Codec.decode_object_ok in Hok as (o & Ho & _ & Hvo & _). rewrite Hv in Ho. injection Ho as ->.
    split; [by exists (default ∅ (ObjectLeaves ci)), o|].
    destruct (any_leaf first_key ci Hr Hi Ha) as (k & m & table & _ & -> & _). by eexists.
  - destruct (Match _ _) as [m|]; [|done]. inv_ok Hd. subst mp a. apply mapErr_Ok in Hok.
    apply Codec.decode_individual_ok in Hok. unfold Codec.individual_ok in Hok. rewrite Hv in Hok.
    split; [|by eexists]. destruct (bool_decide (cType ci = Properties)); exists m, val; tauto.
Qed.

(** What a publish that passes the checks is. *)
Record checked (dec : Z -> Codec.PayloadDecoder) (rs : option realmSchema)
    (c : deviceCache) (row : result load_error Device) (t : target)
    (ts : option Z) (now : Z) (ownership : Ownership) (op : PersistOp) (q : request) (out : ownerDelivery) : Prop := {
  ck_realm : exists rs0 vw, rs = Some rs0 /\ deviceView c rs0 (tgDevice t) row = Ok vw /\ RealmID op = rsID rs0 /\ odHint out = vHint vw /\
    resolveServerInterface rs0 vw (tgInterface t) = Some (Interface_ op);
  ck_owner : cOwnership (Interface_ op) = ownership;
  ck_name : cName (Interface_ op) = tgInterface t;
  ck_device : DeviceID op = tgDevice t;
  ck_path : Path op = tgPath t;
  ck_value : Value_ op = Some (odValue out);
  ck_time : TS op = default now ts;
  ck_typed : op_typed op;
  ck_request : op_request op = Some q;
  ck_delivery : delivery_of op (odValue out) (odHint out) = Some out;
}.

Lemma delivery_value op v hint out : delivery_of op v hint = Some out -> odValue out = v /\ odHint out = hint.
Proof.
  unfold delivery_of. destruct (bool_decide _); [by intros [= <-]|]. destruct (Mapping_ op); by intros [= <-].
Qed.

Lemma check_publish_spec dec first_key marshal rs c row t value ts now ownership :
  (forall rs0, rs = Some rs0 -> realm_ok rs0) -> ranges first_key ->
  match check_publish dec first_key marshal rs c row t value ts now ownership with
  | Ok (op, q, out) => checked dec rs c row t ts now ownership op q out
  | Err e => forall re, e <> ErrRow re
  end.
Proof.
  intros Hrs Hr. unfold check_publish.
  destruct rs as [rs|]; simpl; [|done]. 
  destruct (deviceView c rs (tgDevice t) row) as [vw|e] eqn:Ev; simpl.
  2: { revert Ev. unfold deviceView. destruct (peek _ _ _); [done|]. destruct row; [done|]. by intros [= <-]. }
  destruct (resolveServerInterface rs vw (tgInterface t)) as [ci|] eqn:Eci; simpl; [|done].
  destruct (resolved_installed rs vw _ _ (Hrs rs eq_refl) Eci) as [Hi Hn].
  destruct (bool_decide_reflect (cOwnership ci = ownership)) as [Ho|]; simpl; [|by destruct (bool_decide _)].
  destruct value as [value|]; simpl; [|done].
  destruct (decode_value dec first_key ci (tgPath t) _) as [[mp dp]|e] eqn:Ed; simpl.
  2: { intros re ->. revert Ed. unfold decode_value. destruct (bool_decide _).
       - destruct (negb _); [done|]. destruct (Codec.decode_object _ _); done.
       - destruct (Match _ _); [|done]. destruct (Codec.decode_individual _ _); done. }
  destruct (Codec.dValue dp) as [val|] eqn:Eval; simpl; [|done].
  match goal with |- context[owner_row ?o _ _ _] => set (op := o) end.
  destruct (decode_value_typed dec first_key ci (tgPath t) _ mp dp val op Hr Hi Ed Eval) as [Ht [m Hm]]; [done..|].
  destruct (owner_row_typed op val (vHint vw) m Ht eq_refl eq_refl Hm) as (q & out & Eo & Eq & Edel).
  change (default now ts) with (TS op). rewrite Eo. simpl.
  destruct (delivery_value _ _ _ _ Edel) as [E1 E2].
  split; try done; [|by rewrite E1|by rewrite E1, E2].
  exists rs, vw. split_and!; done.
Qed.

End Sound.

(** ** The guarantees of the publish paths *)

(** C26. Persist before deliver: a server publish sends at most one statement to
    the store, exactly the one the batcher would store the same operation
    with, and only after every check; a message goes out only once the store
    confirmed it, on the device's topic, encoding the very value that was
    stored, with the reliability and expiry of the mapping, retained for
    properties. Row conversion never fails, and whatever fails, nothing is
    delivered. *)
Theorem server_publish_sound `{JSONText} dec first_key marshal db accepts rs c row t value ts now reqs msgs r :
  (forall rs0, rs = Some rs0 -> realm_ok rs0) -> ranges first_key ->
  PublishServerValue dec first_key marshal db accepts rs c row t value ts now = (reqs, msgs, r) ->
  (forall q, q ∈ reqs -> reqs = [q] /\ exists op out, checked dec rs c row t ts now OwnershipServer op q out) /\
  (r <> Ok () -> msgs = []) /\ (forall re, r <> Err (ErrRow re)) /\
  (r = Ok () -> exists op q out w, checked dec rs c row t ts now OwnershipServer op q out /\
     reqs = [q] /\ db q = None /\
     Encode (Some (odValue out)) (odWireTS out) (formatForHint (odHint out)) = Ok w /\
     msgs = [MkPublish (Topics.deviceTopic (tgRealm t) (tgDevice t) (cName (Interface_ op) ++ tgPath t)) w
               (odQoS out) (odRetain out) (odExpiry out)]).
Proof.
  intros Hrs Hr. unfold PublishServerValue, publishAsOwner.
  pose proof (check_publish_spec dec first_key marshal rs c row t value ts now OwnershipServer Hrs Hr) as Hck.
  destruct (check_publish _ _ _ _ _ _ _ _ _ _ _) as [[[op q] out]|e].
  2: { intros [= <- <- <-]. split_and!; [by intros q ?%not_elem_of_nil|done| |done]. intros re [= E]. by destruct (Hck re). }
  assert (forall q0, q0 ∈ [q] -> [q] = [q0] /\ exists op out, checked dec rs c row t ts now OwnershipServer op q0 out) as Hq.
  { intros q0 ->%list_elem_of_singleton. eauto. }
  destruct (db q) as [e|] eqn:Edb; [intros [= <- <- <-]; by split_and!|].
  destruct (Encode _ _ _) as [w|e] eqn:Een; [|intros [= <- <- <-]; by split_and!].
  destruct (accepts _); intros [= <- <- <-]; split_and!; try done.
  intros _. exists op, q, out, w. rewrite (ck_name _ _ _ _ _ _ _ _ _ _ _ Hck). by split_and!.
Qed.

(** A virtual device's data is stored as a real one's: what [PublishDeviceValue]
    sends to the store is the statement the batcher sends for the same
    operation, and nothing when a check fails. *)
Theorem device_publish_like_ingest `{JSONText} dec first_key marshal db rs c row t value ts now reqs r :
  (forall rs0, rs = Some rs0 -> realm_ok rs0) -> ranges first_key ->
  PublishDeviceValue dec first_key marshal db rs c row t value ts now = (reqs, r) ->
  (r = Ok () -> exists op q out, reqs = [q] /\ db q = None /\
     checked dec rs c row t ts now OwnershipDevice op q out /\
     (forall tr, commit (fun _ x => match db x with None => Answered | Some e => Failed e false end) tr [op] =
        (tr ++ [EvRequest q Answered], [op], Committed))) /\
  (reqs = [] \/ exists op q out, reqs = [q] /\ checked dec rs c row t ts now OwnershipDevice op q out).
Proof.
  intros Hrs Hr. unfold PublishDeviceValue, publishAsOwner.
  pose proof (check_publish_spec dec first_key marshal rs c row t value ts now OwnershipDevice Hrs Hr) as Hck.
  destruct (check_publish _ _ _ _ _ _ _ _ _ _ _) as [[[op q] out]|e]; [|intros [= <- <-]; split; [done|by left]].
  destruct (db q) as [e|] eqn:Edb; intros [= <- <-]; (split; [|right; by exists op, q, out]); [done|].
  intros _. exists op, q, out. split_and!; try done. intros tr.
  pose proof (ck_request _ _ _ _ _ _ _ _ _ _ _ Hck) as Hq. unfold op_request in Hq.
  unfold commit, commit_loop. destruct (plan_of op) as [| | |q0|irow|orow] eqn:Ep; try done; injection Hq as <-.
  - unfold ask. by rewrite Edb.
  - unfold AppendDatastreams. cbn [empty_batch add_individual Individual Objects length Nat.eqb andb app forallb].
    assert (validate irow = true) as Hvr.
    { unfold plan_of in Ep. destruct (broken op); [done|]. destruct (Kind op); try done.
      - unfold plan_row in Ep. destruct (individualRow op) as [x|[]] eqn:Ei; try done. injection Ep as <-.
        by eapply individualRow_validate.
      - unfold plan_row in Ep. by destruct (objectRow op) as [x|[]].
      - unfold plan_row in Ep. by destruct (propertyRow op) as [x|[]]. }
    rewrite Hvr. cbn [andb]. unfold ask.
    change (add_individual (MkBatch [] []) irow) with (MkBatch [irow] []). by rewrite Edb.
  - unfold AppendDatastreams, ask. cbn [empty_batch add_object Individual Objects length Nat.eqb andb app forallb].
    change (add_object (MkBatch [] []) orow) with (MkBatch [] [orow]). by rewrite Edb.
Qed.

(** ** Examples *)

Definition server_interface : Interface :=
  MkInterface "org.astrate.Sensors"%go 1 0 Datastream OwnershipServer AggregationIndividual [] []
    [datastream_mapping "/%{a}/x"%go 0].
Definition server_realm : realmSchema :=
  buildRealm (fun _ => Some (document server_interface)) 1 "test"%go [sample_stored] [].
Definition sample_target : target := MkTarget "test"%go "0123456789abcdef"%go "org.astrate.Sensors"%go "/4/x"%go.
Definition stored_device : result load_error Device :=
  Ok (Cache.MkDeviceRow [] {["org.astrate.Sensors"%go := Introspection.MkVersion 1 0]}).
Definition fixed_decoder (_ : Z) : Codec.PayloadDecoder := sample_decoder.
Definition fixed_envelope (_ : jtoken) (_ : Z) : gostring := Codec.sample_bytes.
Definition calm_store (_ : request) : option commit_error := None.
Definition calm_broker (_ : message) : bool := true.

Lemma server_realm_ok rs0 : Some server_realm = Some rs0 -> realm_ok rs0.
Proof. revert rs0. apply (some_elim realm_ok), buildRealm_ok. Qed.
Lemma device_realm_ok rs0 : Some sample_realm = Some rs0 -> realm_ok rs0.
Proof. revert rs0. exact (some_elim realm_ok _ sample_realm_ok). Qed.

Lemma server_publish_sound_witness :
  let '(reqs, msgs, r) := @PublishServerValue toy_text fixed_decoder map_first fixed_envelope calm_store calm_broker
    (Some server_realm) ∅ stored_device sample_target (Some (JNum "4"%go)) None 100 in
  r = Ok () /\ length reqs = 1 /\ exists w, msgs =
    [MkPublish (Topics.deviceTopic "test"%go "0123456789abcdef"%go "org.astrate.Sensors/4/x"%go) w 1 false 0].
Proof.
  destruct (@PublishServerValue toy_text fixed_decoder map_first fixed_envelope calm_store calm_broker
    (Some server_realm) ∅ stored_device sample_target (Some (JNum "4"%go)) None 100) as [[reqs msgs] r] eqn:E.
  destruct (@server_publish_sound toy_text fixed_decoder map_first fixed_envelope calm_store calm_broker
    (Some server_realm) ∅ stored_device sample_target (Some (JNum "4"%go)) None 100 reqs msgs r
    server_realm_ok map_first_ranges E) as (_ & _ & _ & Hok).
  assert (Hr : r = Ok ()) by (vm_compute in E; injection E as _ _ <-; reflexivity).
  split; [exact Hr|]. destruct (Hok Hr) as (op & q & out & w & Hck & -> & _ & _ & Hm).
  split; [reflexivity|]. exists w. vm_compute in E. injection E as _ E _. rewrite <- E in Hm |- *.
  injection Hm as _ <- _ _ _. reflexivity.
Defined.

Lemma device_publish_like_ingest_witness :
  exists q, @PublishDeviceValue toy_text fixed_decoder map_first fixed_envelope calm_store
    (Some sample_realm) ∅ stored_device sample_target (Some (JNum "4"%go)) None 100 = ([q], Ok ()).
Proof.
  destruct (@PublishDeviceValue toy_text fixed_decoder map_first fixed_envelope calm_store
    (Some sample_realm) ∅ stored_device sample_target (Some (JNum "4"%go)) None 100) as [reqs r] eqn:E.
  assert (Hr : r = Ok ()) by (vm_compute in E; injection E as _ <-; reflexivity).
  destruct (proj1 (@device_publish_like_ingest toy_text fixed_decoder map_first fixed_envelope calm_store
    (Some sample_realm) ∅ stored_device sample_target (Some (JNum "4"%go)) None 100 reqs r
    device_realm_ok map_first_ranges E) Hr) as (op & q & out & -> & _).
  exists q. rewrite Hr. reflexivity.
Defined.

End ServerData.
