(* ===== verification/FlowGraph.v ===== *)
(** * Flow pipelines: validation and topological order

    [internal/flow/pipeline.go] and the ordering of [factory.go]. A pipeline is
    a list of named nodes and a list of connections; Kahn's algorithm both
    checks it and orders it. The loops are written on the maps the code keeps
    ([inDeg], [adj]); the proofs read them back as counts over the list of
    connections. *)

From S2P Require Import Prelude GoStrings PayloadJson Rows.

Module FlowGraph.
Import Rows.

(** ** Data *)

Abbreviation config := (gmap gostring generic).

Record PipelineNode := MkNode { nName : gostring; nBlockType : gostring; nConfig : config }.
Record Connection := MkConn { cFrom : gostring; cFromPort : gostring; cTo : gostring; cToPort : gostring }.
Record Pipeline := MkPipeline {
  pID : gostring; pName : gostring; pBlocks : list PipelineNode; pConnections : list Connection }.

Inductive flow_error :=
| EmptyID | NoBlocks | EmptyName | DuplicateName (n : gostring) | UnknownBlock (n : gostring)
| SelfLoop (n : gostring) | HasCycle | NoSource | NoSink.

(** ** Kahn's algorithm *)

Abbreviation degrees := (gmap gostring Z).
Abbreviation successors := (gmap gostring (list gostring)).

(** A read of an absent key is the zero value. *)
Definition deg (d : degrees) (n : gostring) : Z := default 0%Z (d !! n).
Definition succs (a : successors) (n : gostring) : list gostring := default [] (a !! n).

Definition zero_degrees (bs : list PipelineNode) : degrees :=
  foldl (fun d b => <[nName b := 0%Z]> d) ∅ bs.
Definition count_in (cs : list Connection) (d : degrees) : degrees :=
  foldl (fun d c => <[cTo c := (deg d (cTo c) + 1)%Z]> d) d cs.
Definition count_out (cs : list Connection) (d : degrees) : degrees :=
  foldl (fun d c => <[cFrom c := (deg d (cFrom c) + 1)%Z]> d) d cs.
Definition adjacency (cs : list Connection) : successors :=
  foldl (fun a c => <[cFrom c := succs a (cFrom c) ++ [cTo c]]> a) ∅ cs.
Definition initial_queue (bs : list PipelineNode) (d : degrees) : list gostring :=
  filter (fun n => deg d n = 0%Z) (map nName bs).

(** The inner loop: one edge at a time, collecting the nodes that become ready. *)
Definition relax (nbs : list gostring) (d : degrees) : degrees * list gostring :=
  foldl (fun '(d, ready) nb =>
           let k := (deg d nb - 1)%Z in
           (<[nb := k]> d, if (k =? 0)%Z then ready ++ [nb] else ready)) (d, []) nbs.

(** The outer loop; [arrange] is what is done to the nodes that become ready
    together before they are queued. *)
Fixpoint kahn (fuel : nat) (arrange : list gostring -> list gostring) (adj : successors)
    (d : degrees) (queue order : list gostring) : list gostring :=
  match fuel with
  | O => order
  | S fuel =>
      match queue with
      | [] => order
      | n :: queue =>
          let '(d, ready) := relax (succs adj n) d in
          kahn fuel arrange adj d (queue ++ arrange ready) (order ++ [n])
      end
  end.

(** Nodes enter the queue at the start or when their degree reaches zero, which
    takes a connection: these many rounds are enough. *)
Definition rounds (p : Pipeline) : nat := length (pBlocks p) + length (pConnections p).

(** ** Validate *)

Fixpoint check_names (names : gset gostring) (bs : list PipelineNode) : result flow_error (gset gostring) :=
  match bs with
  | [] => Ok names
  | b :: bs =>
      if bool_decide (nName b = []) then Err EmptyName
      else if bool_decide (nName b ∈ names) then Err (DuplicateName (nName b))
      else check_names ({[nName b]} ∪ names) bs
  end.

Fixpoint check_connections (names : gset gostring) (cs : list Connection) : result flow_error () :=
  match cs with
  | [] => Ok ()
  | c :: cs =>
      guard_err (bool_decide (cFrom c ∈ names)) (UnknownBlock (cFrom c));;?
      guard_err (bool_decide (cTo c ∈ names)) (UnknownBlock (cTo c));;?
      guard_err (negb (bool_decide (cFrom c = cTo c))) (SelfLoop (cFrom c));;?
      check_connections names cs
  end.

Definition Validate (p : Pipeline) : result flow_error () :=
  guard_err (negb (bool_decide (pID p = []))) EmptyID;;?
  guard_err (negb (bool_decide (pBlocks p = []))) NoBlocks;;?
  let? names := check_names ∅ (pBlocks p) in
  check_connections names (pConnections p);;?
  let inDeg := count_in (pConnections p) (zero_degrees (pBlocks p)) in
  let outDeg := count_out (pConnections p) (zero_degrees (pBlocks p)) in
  let visited := kahn (rounds p) id (adjacency (pConnections p)) inDeg
                   (initial_queue (pBlocks p) inDeg) [] in
  guard_err (length visited =? length (pBlocks p))%nat HasCycle;;?
  guard_err (existsb (fun b => (deg inDeg (nName b) =? 0)%Z) (pBlocks p)) NoSource;;?
  guard_err (existsb (fun b => (deg outDeg (nName b) =? 0)%Z) (pBlocks p)) NoSink.

(** ** topoOrder *)

Fixpoint index_from (i : nat) (name : gostring) (bs : list PipelineNode) : nat :=
  match bs with
  | [] => i
  | b :: bs => if bool_decide (nName b = name) then i else index_from (S i) name bs
  end.
Definition blockIndex (p : Pipeline) (name : gostring) : nat := index_from 0 name (pBlocks p).

(** [sort.Slice] by [blockIndex]; the index tells the names of blocks apart, so
    the order of equal keys does not matter. *)
Fixpoint insert_by (key : gostring -> nat) (x : gostring) (l : list gostring) : list gostring :=
  match l with
  | [] => [x]
  | y :: l' => if (key x <=? key y)%nat then x :: l else y :: insert_by key x l'
  end.
Definition sort_by (key : gostring -> nat) (l : list gostring) : list gostring :=
  foldr (insert_by key) [] l.

Definition topoOrder (p : Pipeline) : result flow_error (list gostring) :=
  let inDeg := count_in (pConnections p) (zero_degrees (pBlocks p)) in
  let order := kahn (rounds p) (sort_by (blockIndex p)) (adjacency (pConnections p)) inDeg
                 (sort_by (blockIndex p) (initial_queue (pBlocks p) inDeg)) [] in
  if (length order =? length (pBlocks p))%nat then Ok order else Err HasCycle.

(** ** Reading the maps back *)

Definition into (n : gostring) (c : Connection) : Prop := cTo c = n.
Definition outof (n : gostring) (c : Connection) : Prop := cFrom c = n.
#[global] Instance into_dec n c : Decision (into n c).
Proof. unfold into. apply _. Defined.
#[global] Instance outof_dec n c : Decision (outof n c).
Proof. unfold outof. apply _. Defined.

Lemma deg_insert d m n k : deg (<[m := k]> d) n = if decide (m = n) then k else deg d n.
Proof. unfold deg. rewrite lookup_insert. by case_decide. Qed.

Lemma deg_zero_degrees bs n : deg (zero_degrees bs) n = 0%Z.
Proof.
  unfold zero_degrees. assert (deg ∅ n = 0%Z) as H by done. revert H. generalize (∅ : degrees).
  induction bs as [|b bs IH]; intros d Hd; [done|]. simpl. apply IH. rewrite deg_insert. by case_decide.
Qed.

Lemma deg_count_in cs d n : deg (count_in cs d) n = (deg d n + Z.of_nat (length (filter (into n) cs)))%Z.
Proof.
  revert d. induction cs as [|c cs IH]; intros d; simpl; [lia|]. rewrite IH, deg_insert.
  destruct (decide (cTo c = n)) as [<-|Hn].
  - rewrite filter_cons_True by done. simpl. lia.
  - by rewrite filter_cons_False.
Qed.

Lemma deg_count_out cs d n : deg (count_out cs d) n = (deg d n + Z.of_nat (length (filter (outof n) cs)))%Z.
Proof.
  revert d. induction cs as [|c cs IH]; intros d; simpl; [lia|]. rewrite IH, deg_insert.
  destruct (decide (cFrom c = n)) as [<-|Hn].
  - rewrite filter_cons_True by done. simpl. lia.
  - by rewrite filter_cons_False.
Qed.

Lemma succs_adjacency cs n : succs (adjacency cs) n = map cTo (filter (outof n) cs).
Proof.
  unfold adjacency. enough (forall a, succs (foldl (fun a c => <[cFrom c := succs a (cFrom c) ++ [cTo c]]> a) a cs) n =
    succs a n ++ map cTo (filter (outof n) cs)) as H by apply H.
  induction cs as [|c cs IH]; intros a; simpl; [by rewrite app_nil_r|]. rewrite IH.
  unfold succs at 1. rewrite lookup_insert. case_decide as Hn.
  - rewrite filter_cons_True by done. subst n. simpl. by rewrite <- app_assoc.
  - by rewrite filter_cons_False.
Qed.

(** How often a name occurs. *)
Definition occurs (x : gostring) (l : list gostring) : Z := Z.of_nat (length (filter (eq x) l)).

Lemma occurs_pos x l : (0 < occurs x l)%Z <-> x ∈ l.
Proof.
  unfold occurs. destruct (filter (eq x) l) as [|y k] eqn:E; simpl.
  - split; [lia|]. intros Hx. assert (x ∈ filter (eq x) l) as Hf by (by apply list_elem_of_filter).
    rewrite E in Hf. by apply elem_of_nil in Hf.
  - split; [|lia]. intros _. assert (y ∈ filter (eq x) l) as Hf by (rewrite E; left).
    by apply list_elem_of_filter in Hf as [<- ?].
Qed.

Lemma occurs_cons x y l : occurs x (y :: l) = ((if decide (x = y) then 1 else 0) + occurs x l)%Z.
Proof. unfold occurs. rewrite filter_cons. case_decide; simpl; lia. Qed.

Lemma relax_spec nbs d :
  (forall x, (occurs x nbs <= deg d x)%Z) ->
  let '(d', ready) := relax nbs d in
  (forall x, deg d' x = (deg d x - occurs x nbs)%Z) /\ NoDup ready /\
  (forall x, x ∈ ready <-> x ∈ nbs /\ deg d x = occurs x nbs).
Proof.
  unfold relax.
  enough (forall nbs d r, (forall x, (occurs x nbs <= deg d x)%Z) -> NoDup r ->
    (forall x, x ∈ r -> deg d x = 0%Z) ->
    let '(d', ready) := foldl (fun '(d, ready) nb => let k := (deg d nb - 1)%Z in
           (<[nb := k]> d, if (k =? 0)%Z then ready ++ [nb] else ready)) (d, r) nbs in
    (forall x, deg d' x = (deg d x - occurs x nbs)%Z) /\ NoDup ready /\
    (forall x, x ∈ ready <-> x ∈ r \/ x ∈ nbs /\ deg d x = occurs x nbs)) as H.
  { intros Hocc. specialize (H nbs d [] Hocc (NoDup_nil_2) ltac:(intros x Hx; by apply elem_of_nil in Hx)).
    destruct (foldl _ _ _) as [d' ready]. destruct H as (H1 & H2 & H3). split_and!; [done..|].
    intros x. rewrite H3, elem_of_nil. tauto. }
  clear nbs d. induction nbs as [|y nbs IH]; intros d r Hocc Hr Hz; simpl.
  { split_and!; [intros x; unfold occurs; simpl; lia|done|]. intros x. rewrite elem_of_nil. tauto. }
  assert (forall x, deg (<[y := (deg d y - 1)%Z]> d) x = (deg d x - if decide (x = y) then 1 else 0)%Z) as Hd'.
  { intros x. rewrite deg_insert. repeat case_decide; subst; try done; lia. }
  assert (forall x, (occurs x nbs <= deg (<[y := (deg d y - 1)%Z]> d) x)%Z) as Hocc'.
  { intros x. specialize (Hocc x). rewrite occurs_cons in Hocc. rewrite Hd'. lia. }
  pose proof (Hocc y) as Hy. rewrite occurs_cons, decide_True in Hy by done.
  assert (0 <= occurs y nbs)%Z as Hnn by (unfold occurs; lia).
  assert (y ∉ r) as Hyr by (intros Hin%Hz; lia).
  assert (NoDup (r ++ [y])) as Hnd.
  { apply NoDup_app. split_and!; [done| |apply NoDup_singleton]. intros x Hx ->%list_elem_of_singleton. done. }
  destruct (deg d y - 1 =? 0)%Z eqn:Ek; bool_hyps.
  - specialize (IH _ (r ++ [y]) Hocc' Hnd). destruct (foldl _ _ _) as [d' ready]. destruct IH as (H1 & H2 & H3).
    { intros x Hx. rewrite Hd'. apply elem_of_app in Hx as [Hx| ->%list_elem_of_singleton].
      - rewrite (Hz x Hx). case_decide; [congruence|lia].
      - rewrite decide_True by done. lia. }
    split_and!; [|done|].
    + intros x. rewrite H1, Hd', occurs_cons. lia.
    + intros x. rewrite H3, Hd', occurs_cons, elem_of_app, list_elem_of_singleton, elem_of_cons.
      destruct (decide (x = y)) as [->|Hn]; [split; [intros _; right; split; [by left|]|tauto]; lia|].
      rewrite Z.sub_0_r. tauto.
  - specialize (IH _ r Hocc' Hr). destruct (foldl _ _ _) as [d' ready]. destruct IH as (H1 & H2 & H3).
    { intros x Hx. rewrite Hd', (Hz x Hx). case_decide; [congruence|lia]. }
    split_and!; [|done|].
    + intros x. rewrite H1, Hd', occurs_cons. lia.
    + intros x. rewrite H3, Hd', occurs_cons, elem_of_cons.
      destruct (decide (x = y)) as [->|Hn]; [|rewrite Z.sub_0_r; tauto].
      pose proof (occurs_pos y nbs). split; [intros [?|[? ?]]; [by left|right; split; [by left|lia]]|].
      intros [?|[_ E]]; [by left|]. right. split; [apply H; lia|lia].
Qed.

Lemma insert_by_perm key x l : insert_by key x l ≡ₚ x :: l.
Proof. induction l as [|y l IH]; simpl; [done|]. destruct (_ <=? _)%nat; [done|]. rewrite IH. apply Permutation_swap. Qed.
Lemma sort_by_perm key l : sort_by key l ≡ₚ l.
Proof. induction l as [|x l IH]; simpl; [done|]. by rewrite insert_by_perm, IH. Qed.

(** ** The invariant of the search *)

Section Kahn.
Variables (names : list gostring) (cs : list Connection) (arrange : list gostring -> list gostring).
Hypothesis names_distinct : NoDup names.
Hypothesis endpoints : Forall (fun c => cFrom c ∈ names /\ cTo c ∈ names) cs.
Hypothesis arrange_perm : forall l, arrange l ≡ₚ l.

(** A connection into [n] from a node not visited yet. *)
Definition waiting (done : list gostring) (n : gostring) (c : Connection) : Prop :=
  cTo c = n /\ cFrom c ∉ done.
#[local] Instance waiting_dec done n c : Decision (waiting done n c).
Proof. unfold waiting. apply _. Defined.
Definition waits (done : list gostring) (n : gostring) : Z := Z.of_nat (length (filter (waiting done n) cs)).

Lemma waits_zero done n : waits done n = 0%Z <-> forall c, c ∈ cs -> cTo c = n -> cFrom c ∈ done.
Proof.
  unfold waits. rewrite <- Nat2Z.inj_0, Nat2Z.inj_iff, length_zero_iff_nil. split.
  - intros E c Hc Ht. destruct (decide (cFrom c ∈ done)) as [|Hn]; [done|].
    assert (c ∈ filter (waiting done n) cs) as Hf by (by apply list_elem_of_filter).
    rewrite E in Hf. by apply elem_of_nil in Hf.
  - intros H. destruct (filter _ cs) as [|c k] eqn:E; [done|]. exfalso.
    assert (c ∈ filter (waiting done n) cs) as [[Ht Hn] Hc]%list_elem_of_filter by (rewrite E; left).
    by apply Hn, H.
Qed.

Lemma waits_visit done n x : n ∉ done ->
  waits (done ++ [n]) x = (waits done x - occurs x (map cTo (filter (outof n) cs)))%Z.
Proof.
  intros Hn. unfold waits. clear endpoints. induction cs as [|c l IH]; [done|]. rewrite !filter_cons.
  assert (waiting (done ++ [n]) x c <-> waiting done x c /\ cFrom c <> n) as Hw.
  { unfold waiting. rewrite elem_of_app, list_elem_of_singleton. tauto. }
  unfold outof at 1. destruct (decide (cFrom c = n)) as [Hf|Hf].
  - rewrite (decide_False (P := waiting (done ++ [n]) x c)) by tauto. simpl. rewrite occurs_cons, IH.
    destruct (decide (x = cTo c)) as [->|Hx].
    + rewrite decide_True by (split; [done|by rewrite Hf]). simpl. lia.
    + rewrite decide_False by (intros [? _]; congruence). lia.
  - destruct (decide (waiting done x c)) as [Hd|Hd].
    + rewrite decide_True by tauto. simpl. lia.
    + rewrite decide_False by tauto. done.
Qed.

Record search_ok (d : degrees) (queue order : list gostring) : Prop := {
  so_degrees x : deg d x = waits order x;
  so_distinct : NoDup (order ++ queue);
  so_ready x : x ∈ order ++ queue <-> x ∈ names /\ waits order x = 0%Z;
  so_sorted i v : (order ++ queue) !! i = Some v ->
    forall c, c ∈ cs -> cTo c = v -> cFrom c ∈ take i order }.

Lemma search_step d n queue order d' ready :
  search_ok d (n :: queue) order -> relax (succs (adjacency cs) n) d = (d', ready) ->
  search_ok d' (queue ++ arrange ready) (order ++ [n]).
Proof.
  intros [Hdeg Hnd Hready Hsorted] Er. rewrite succs_adjacency in Er.
  assert (n ∉ order) as Hn.
  { apply NoDup_app in Hnd as (_ & Hd & _). intros Hin. apply (Hd n Hin). left. }
  pose proof (fun x => waits_visit order n x Hn) as Hvisit.
  pose proof (relax_spec (map cTo (filter (outof n) cs)) d) as Hspec. rewrite Er in Hspec.
  destruct Hspec as (Hd' & Hrd & Hr). { intros x. rewrite Hdeg. unfold waits in *. specialize (Hvisit x). lia. }
  assert (forall x, x ∈ ready <-> (x ∈ names /\ waits (order ++ [n]) x = 0%Z) /\ waits order x <> 0%Z) as Hr'.
  { intros x. rewrite Hr, Hdeg, Hvisit, <- occurs_pos. split; [|intros ([_ ?] & ?); unfold waits, occurs in *; lia].
    intros [Hpos Heq]. split; [|unfold waits, occurs in *; lia]. split; [|lia].
    apply occurs_pos, list_elem_of_In, in_map_iff in Hpos as (c & <- & Hc).
    apply list_elem_of_In, list_elem_of_filter in Hc as [_ Hc].
    by apply (proj1 (Forall_forall _ _) endpoints c Hc). }
  assert (forall x, x ∈ order ++ n :: queue -> waits (order ++ [n]) x = 0%Z) as Hold.
  { intros x [_ H0]%Hready. rewrite Hvisit, H0. unfold waits, occurs in *. specialize (Hvisit x). lia. }
  split.
  - intros x. by rewrite Hd', Hvisit, Hdeg.
  - rewrite <- app_assoc. simpl. rewrite app_comm_cons, app_assoc. rewrite arrange_perm.
    apply NoDup_app. split_and!; [done| |done]. intros x Hx [_ Hw]%Hr'. apply Hready in Hx as [_ ?]. done.
  - intros x. rewrite <- app_assoc. simpl. rewrite app_comm_cons, app_assoc, arrange_perm.
    rewrite elem_of_app, Hr'. split.
    + intros [Hx|[? _]]; [|done]. split; [by apply Hready in Hx as [? _]|by apply Hold].
    + intros [Hx Hw]. destruct (decide (waits order x = 0%Z)) as [H0|H0]; [left; by apply Hready|by right].
  - intros i v. rewrite <- app_assoc. simpl. rewrite app_comm_cons, app_assoc.
    intros [Hi|[Hi Hv]]%lookup_app_Some c Hc Ht.
    + specialize (Hsorted i v Hi c Hc Ht). rewrite take_app. apply elem_of_app. by left.
    + apply list_elem_of_lookup_2 in Hv. rewrite arrange_perm in Hv. apply Hr' in Hv as [[_ Hw] _].
      rewrite length_app in Hi. simpl in Hi. rewrite take_ge by (rewrite length_app; simpl; lia).
      by apply (proj1 (waits_zero _ _) Hw).
Qed.

Lemma kahn_ok fuel d queue order :
  search_ok d queue order -> length names <= fuel + length order ->
  exists d', search_ok d' [] (kahn fuel arrange (adjacency cs) d queue order).
Proof.
  revert d queue order. induction fuel as [|fuel IH]; intros d queue order Hok Hfuel; simpl.
  - assert (queue = []) as ->; [|by exists d].
    assert (length (order ++ queue) <= length names) as Hl.
    { apply submseteq_length, NoDup_submseteq; [by destruct Hok|]. intros x Hx. by apply (so_ready _ _ _ Hok) in Hx as [? _]. }
    rewrite length_app in Hl. destruct queue; [done|simpl in Hl; lia].
  - destruct queue as [|n queue]; [by exists d|].
    destruct (relax _ d) as [d' ready] eqn:Er. apply (IH d'); [by eapply search_step|]. rewrite length_app. simpl. lia.
Qed.

(** The graph of the connections. *)
Definition edge (x y : gostring) : Prop := exists c, c ∈ cs /\ cFrom c = x /\ cTo c = y.
Definition acyclic : Prop := forall x, ~ tc edge x x.

(** Each name of a list comes after everything that leads to it. *)
Definition sorted (order : list gostring) : Prop :=
  forall i v, order !! i = Some v -> forall u, edge u v -> u ∈ take i order.

Lemma search_end d order : search_ok d [] order ->
  NoDup order /\ (forall x, x ∈ order -> x ∈ names) /\ sorted order /\
  (forall x, x ∈ names -> x ∉ order -> exists u, edge u x /\ u ∉ order).
Proof.
  intros [_ Hnd Hready Hsorted]. rewrite app_nil_r in *. split_and!; [done| | |].
  - intros x Hx. by apply Hready in Hx as [? _].
  - intros i v Hi u (c & Hc & <- & Ht). by apply (Hsorted i v).
  - intros x Hx Hn. destruct (decide (waits order x = 0%Z)) as [H0|H0]; [by destruct Hn; apply Hready|].
    unfold waits in H0. destruct (filter _ cs) as [|c k] eqn:E; [done|].
    assert (c ∈ filter (waiting order x) cs) as [[Ht Hw] Hc]%list_elem_of_filter by (rewrite E; left).
    exists (cFrom c). split; [by exists c|done].
Qed.

End Kahn.

(** ** Sorted orders and cycles *)

Lemma sorted_before cs order x y i :
  sorted cs order -> tc (edge cs) x y -> order !! i = Some y -> x ∈ take i order.
Proof.
  intros Hs Ht. revert i. induction Ht as [x y He|x y z He _ IH]; intros i Hi; [by apply (Hs i y)|].
  apply IH in Hi. apply list_elem_of_lookup in Hi as (j & Hj). apply lookup_take_Some in Hj as [Hj Hlt].
  specialize (Hs j y Hj x He). apply list_elem_of_lookup in Hs as (k & [Hk Hlt']%lookup_take_Some).
  apply list_elem_of_lookup. exists k. apply lookup_take_Some. split; [done|lia].
Qed.

Lemma tc_last {A} (R : relation A) x y : tc R x y -> exists u, R u y.
Proof. induction 1; eauto. Qed.
Lemma tc_flip {A} (R : relation A) x y : tc (flip R) x y -> tc R y x.
Proof. induction 1 as [x y He|x y z He _ IH]; [by apply tc_once|]. by eapply tc_r. Qed.

Lemma sorted_acyclic cs order :
  NoDup order -> sorted cs order -> Forall (fun c => cTo c ∈ order) cs -> acyclic cs.
Proof.
  intros Hnd Hs Hend x Hx.
  assert (x ∈ order) as Hin.
  { apply tc_last in Hx as (u & (c & Hc & _ & <-)). by apply (proj1 (Forall_forall _ _) Hend). }
  apply list_elem_of_lookup in Hin as (i & Hi).
  pose proof (sorted_before cs order x x i Hs Hx Hi) as Hb.
  apply list_elem_of_lookup in Hb as (j & [Hj Hlt]%lookup_take_Some).
  pose proof (NoDup_lookup order i j x Hnd Hi Hj). lia.
Qed.

(** Without a cycle, a set of names each with a predecessor in it is empty. *)
Lemma acyclic_grounded cs (P : gostring -> Prop) x :
  acyclic cs -> (forall y, P y -> exists u, edge cs u y /\ P u) -> ~ P x.
Proof.
  intros Hac Hstep Hx.
  assert (sn (flip (edge cs)) x) as Hsn.
  { apply tc_finite_sn.
    - intros y Hy. by apply (Hac y), tc_flip.
    - exists (map cFrom cs). intros y Hy%tc_flip. destruct Hy as [y z (c & Hc & <- & _)|y z w (c & Hc & <- & _) _];
        by apply list_elem_of_fmap_2. }
  revert Hx. induction Hsn as [x _ IH]. intros Hx. destruct (Hstep x Hx) as (u & Hu & HP). by apply (IH u).
Qed.

(** What the search of an accepted list of names and connections ends with. *)
Lemma kahn_spec names cs arrange fuel :
  NoDup names -> Forall (fun c => cFrom c ∈ names /\ cTo c ∈ names) cs -> (forall l, arrange l ≡ₚ l) ->
  forall bs queue, map nName bs = names -> length names <= fuel ->
  let d := count_in cs (zero_degrees bs) in
  queue ≡ₚ initial_queue bs d ->
  let order := kahn fuel arrange (adjacency cs) d queue [] in
  sorted cs order /\ (length order = length names <-> acyclic cs) /\
  (length order = length names -> order ≡ₚ names).
Proof.
  intros Hnd Hend Harr bs queue Hbs Hfuel d Hq order.
  assert (forall x, deg d x = waits cs [] x) as Hdeg.
  { intros x. unfold d, waits. rewrite deg_count_in, deg_zero_degrees, Z.add_0_l. f_equal. f_equal.
    apply list_filter_iff. intros c. unfold into, waiting. split; [|tauto]. intros ->. split; [done|apply not_elem_of_nil]. }
  assert (forall x, x ∈ queue <-> x ∈ names /\ waits cs [] x = 0%Z) as Hin.
  { intros x. rewrite Hq. unfold initial_queue. rewrite list_elem_of_filter, Hdeg, Hbs. tauto. }
  assert (search_ok names cs d queue []) as Hok.
  { split; simpl; [done| |done|].
    - rewrite Hq. unfold initial_queue. rewrite Hbs. by apply NoDup_filter.
    - intros i v Hi c Hc Ht. apply list_elem_of_lookup_2, Hin in Hi as [_ Hw]. rewrite take_nil.
      by apply (proj1 (waits_zero _ _ _) Hw). }
  destruct (kahn_ok names cs arrange Hend Harr fuel d queue [] Hok) as (d' & Hd'); [simpl; lia|].
  fold order in Hd'. destruct (search_end _ _ _ _ Hd') as (Hnd' & Hsub & Hsorted & Hleft).
  assert (length order = length names -> order ≡ₚ names) as Hperm.
  { intros Hl. apply submseteq_length_Permutation; [by apply NoDup_submseteq|lia]. }
  split_and!; [done| |done]. split.
  - intros Hl%Hperm. apply (sorted_acyclic cs order Hnd' Hsorted).
    eapply Forall_impl; [exact Hend|]. intros c [_ Hc]. by rewrite Hl.
  - intros Hac. apply Permutation_length, NoDup_Permutation; [done..|]. intros x. split; [apply Hsub|]. intros Hx.
    destruct (decide (x ∈ order)) as [|Hn]; [done|]. exfalso.
    apply (acyclic_grounded cs (fun y => y ∈ names /\ y ∉ order) x Hac); [|done].
    intros y [Hy Hyn]. destruct (Hleft y Hy Hyn) as (u & He & Hu). exists u. split; [done|]. split; [|done].
    destruct He as (c & Hc & <- & _). by apply (proj1 (Forall_forall _ _) Hend c Hc).
Qed.

(** ** Validation *)

Definition block_names (p : Pipeline) : list gostring := map nName (pBlocks p).

(** A well-formed graph: distinct, non-empty names and connections between them. *)
Record graph_ok (p : Pipeline) : Prop := {
  go_distinct : NoDup (block_names p);
  go_named : [] ∉ block_names p;
  go_connected : Forall (fun c => cFrom c ∈ block_names p /\ cTo c ∈ block_names p) (pConnections p) }.

Lemma check_names_spec bs names r :
  check_names names bs = Ok r <->
  NoDup (map nName bs) /\ [] ∉ map nName bs /\ (forall n, n ∈ map nName bs -> n ∉ names) /\
  r = list_to_set (map nName bs) ∪ names.
Proof.
  revert names r. induction bs as [|b bs IH]; intros names r; simpl.
  { rewrite (left_id_L ∅ (∪)). split; [intros [= <-]; split_and!; try done; [apply NoDup_nil_2|apply not_elem_of_nil|]|naive_solver].
    intros n Hn. by apply elem_of_nil in Hn. }
  rewrite NoDup_cons, not_elem_of_cons. case_bool_decide as He; [naive_solver|].
  case_bool_decide as Hd.
  { split; [done|]. intros (_ & _ & Hn & _). by destruct (Hn (nName b)); [left|]. }
  rewrite IH. split.
  - intros (H1 & H2 & H3 & ->). split_and!; [|done|done|done| |set_solver].
    + intros Hb%H3. set_solver.
    + intros n [->|Hn]%elem_of_cons; [done|]. apply H3 in Hn. set_solver.
  - intros ([H1 H2] & [H3 H4] & H5 & ->). split_and!; [done|done| |set_solver].
    intros n Hn. assert (n ∉ names) by (by apply H5; right). assert (n <> nName b) by congruence. set_solver.
Qed.

Lemma check_connections_spec names cs :
  check_connections names cs = Ok () <->
  Forall (fun c => (cFrom c ∈ names /\ cTo c ∈ names) /\ cFrom c <> cTo c) cs.
Proof.
  induction cs as [|c cs IH]; simpl; [done|]. rewrite Forall_cons, <- IH.
  repeat case_bool_decide; simpl; naive_solver.
Qed.

Lemma acyclic_irreflexive cs : acyclic cs -> Forall (fun c => cFrom c <> cTo c) cs.
Proof. intros Hac. apply Forall_forall. intros c Hc He. apply (Hac (cFrom c)), tc_once. by exists c. Qed.

Lemma deg_in_zero cs bs n :
  (deg (count_in cs (zero_degrees bs)) n =? 0)%Z = true <-> forall u, ~ edge cs u n.
Proof.
  rewrite Z.eqb_eq, deg_count_in, deg_zero_degrees, Z.add_0_l, <- Nat2Z.inj_0, Nat2Z.inj_iff, length_zero_iff_nil.
  split.
  - intros E u (c & Hc & _ & Ht). assert (c ∈ filter (into n) cs) as Hf by (by apply list_elem_of_filter).
    rewrite E in Hf. by apply elem_of_nil in Hf.
  - intros H. destruct (filter _ cs) as [|c k] eqn:E; [done|].
    assert (c ∈ filter (into n) cs) as [Ht Hc]%list_elem_of_filter by (rewrite E; left).
    destruct (H (cFrom c)). by exists c.
Qed.
Lemma deg_out_zero cs bs n :
  (deg (count_out cs (zero_degrees bs)) n =? 0)%Z = true <-> forall v, ~ edge cs n v.
Proof.
  rewrite Z.eqb_eq, deg_count_out, deg_zero_degrees, Z.add_0_l, <- Nat2Z.inj_0, Nat2Z.inj_iff, length_zero_iff_nil.
  split.
  - intros E v (c & Hc & Hf & _). assert (c ∈ filter (outof n) cs) as Hx by (by apply list_elem_of_filter).
    rewrite E in Hx. by apply elem_of_nil in Hx.
  - intros H. destruct (filter _ cs) as [|c k] eqn:E; [done|].
    assert (c ∈ filter (outof n) cs) as [Ht Hc]%list_elem_of_filter by (rewrite E; left).
    destruct (H (cTo c)). by exists c.
Qed.

(** The ends of a sorted order: nothing leads to the first, nothing leaves the last. *)
Lemma sorted_first cs order x : sorted cs order -> order !! 0 = Some x -> forall u, ~ edge cs u x.
Proof. intros Hs H0 u He. specialize (Hs 0 x H0 u He). by apply elem_of_nil in Hs. Qed.
Lemma sorted_last cs order x :
  NoDup order -> sorted cs order -> Forall (fun c => cTo c ∈ order) cs ->
  order !! pred (length order) = Some x -> forall v, ~ edge cs x v.
Proof.
  intros Hnd Hs Hend Hx v He. assert (v ∈ order) as Hv.
  { destruct He as (c & Hc & _ & <-). by apply (proj1 (Forall_forall _ _) Hend). }
  apply list_elem_of_lookup in Hv as (i & Hi). specialize (Hs i v Hi x He).
  apply list_elem_of_lookup in Hs as (j & [Hj Hlt]%lookup_take_Some).
  pose proof (NoDup_lookup order _ _ x Hnd Hx Hj). apply lookup_lt_Some in Hi. lia.
Qed.

Lemma search_of p : graph_ok p ->
  forall arrange queue, (forall l, arrange l ≡ₚ l) ->
  let d := count_in (pConnections p) (zero_degrees (pBlocks p)) in
  queue ≡ₚ initial_queue (pBlocks p) d ->
  let order := kahn (rounds p) arrange (adjacency (pConnections p)) d queue [] in
  sorted (pConnections p) order /\
  (length order = length (pBlocks p) <-> acyclic (pConnections p)) /\
  (length order = length (pBlocks p) -> order ≡ₚ block_names p).
Proof.
  intros [Hnd _ Hend] arrange queue Harr d Hq.
  pose proof (kahn_spec (block_names p) (pConnections p) arrange (rounds p) Hnd Hend Harr (pBlocks p) queue eq_refl) as H.
  unfold block_names in H |- *. rewrite length_map in H. apply H; [unfold rounds; lia|done].
Qed.

(** An accepted order shows a source and a sink. *)
Lemma order_has_ends p order :
  graph_ok p -> pBlocks p <> [] -> sorted (pConnections p) order -> order ≡ₚ block_names p ->
  (exists b, b ∈ pBlocks p /\ forall u, ~ edge (pConnections p) u (nName b)) /\
  (exists b, b ∈ pBlocks p /\ forall v, ~ edge (pConnections p) (nName b) v).
Proof.
  intros [Hnd _ Hend] Hne Hs Hp.
  assert (forall x, x ∈ order -> exists b, b ∈ pBlocks p /\ nName b = x) as Hblock.
  { intros x. rewrite Hp. intros (b & -> & Hb)%list_elem_of_fmap. by exists b. }
  assert (NoDup order) as Hnd' by (by rewrite Hp).
  assert (Forall (fun c => cTo c ∈ order) (pConnections p)) as Hto.
  { eapply Forall_impl; [exact Hend|]. intros c [_ Hc]. by rewrite Hp. }
  assert (0 < length order) as Hlen.
  { rewrite Hp. unfold block_names. rewrite length_map. destruct (pBlocks p); [done|simpl; lia]. }
  destruct (lookup_lt_is_Some_2 order 0) as [x Hx]; [lia|].
  destruct (lookup_lt_is_Some_2 order (pred (length order))) as [y Hy]; [lia|]. split.
  - destruct (Hblock x) as (b & Hb & Hn); [by eapply list_elem_of_lookup_2|]. exists b. split; [done|].
    rewrite Hn. by apply (sorted_first _ order).
  - destruct (Hblock y) as (b & Hb & Hn); [by eapply list_elem_of_lookup_2|]. exists b. split; [done|].
    rewrite Hn. by apply (sorted_last _ order).
Qed.

Lemma names_checked p r : pBlocks p <> [] ->
  (check_names ∅ (pBlocks p) = Ok r /\ check_connections r (pConnections p) = Ok ()) <->
  r = list_to_set (block_names p) /\ graph_ok p /\ Forall (fun c => cFrom c <> cTo c) (pConnections p).
Proof.
  intros Hne. rewrite check_names_spec, check_connections_spec, (right_id_L ∅ (∪)). split.
  - intros ((H1 & H2 & _ & ->) & H4). split; [done|]. apply Forall_and in H4 as [H4 H5]. split; [|done].
    split; [done..|]. eapply Forall_impl; [exact H4|]. intros c. cbv beta. by rewrite !elem_of_list_to_set.
  - intros (-> & [H1 H2 H3] & H4). split; [split_and!; [done..| |done]; set_solver|].
    apply Forall_and. split; [|done]. eapply Forall_impl; [exact H3|]. intros c. cbv beta. by rewrite !elem_of_list_to_set.
Qed.

Lemma existsb_elem {A} (f : A -> bool) l : existsb f l = true <-> exists x, x ∈ l /\ f x = true.
Proof. rewrite existsb_exists. by setoid_rewrite <- list_elem_of_In. Qed.

Lemma check_names_errors bs names e : check_names names bs = Err e -> e <> NoSource /\ e <> NoSink.
Proof.
  revert names. induction bs as [|b bs IH]; intros names; simpl; [done|].
  case_bool_decide; [by intros [= <-]|]. case_bool_decide; [by intros [= <-]|apply IH].
Qed.
Lemma check_connections_errors names cs e : check_connections names cs = Err e -> e <> NoSource /\ e <> NoSink.
Proof. induction cs as [|c cs IH]; simpl; [done|]. repeat case_bool_decide; simpl; auto; by intros [= <-]. Qed.

(** The checks before the search, as one. *)
Lemma checked_first p : pBlocks p <> [] ->
  match (let? names := check_names ∅ (pBlocks p) in check_connections names (pConnections p)) with
  | Ok _ => graph_ok p
  | Err e => ~ (graph_ok p /\ acyclic (pConnections p)) /\ e <> NoSource /\ e <> NoSink
  end.
Proof.
  intros Hbs. pose proof (names_checked p (list_to_set (block_names p)) Hbs) as Hnames.
  assert (graph_ok p /\ acyclic (pConnections p) -> check_names ∅ (pBlocks p) = Ok (list_to_set (block_names p)) /\
    check_connections (list_to_set (block_names p)) (pConnections p) = Ok ()) as Hgood.
  { intros [Hg Hac]. apply Hnames. split_and!; [done..|by apply acyclic_irreflexive]. }
  destruct (check_names ∅ (pBlocks p)) as [r|e] eqn:En; simpl.
  - destruct (check_connections r (pConnections p)) as [[]|e] eqn:Ec.
    + by apply (names_checked p r Hbs).
    + split; [|by eapply check_connections_errors]. intros [[= ->] H]%Hgood. congruence.
  - split; [|by eapply check_names_errors]. by intros [H _]%Hgood.
Qed.

(** ** The guarantees *)

(** A pipeline is accepted exactly when it has an identifier, at least one
    block, distinct non-empty block names, connections between its blocks, and
    no cycle of connections; a pipeline that passes the cycle check always has
    a source and a sink, so those two errors are never reported. *)
Lemma validate_spec p :
  (Validate p = Ok () <->
   pID p <> [] /\ pBlocks p <> [] /\ graph_ok p /\ acyclic (pConnections p)) /\
  Validate p <> Err NoSource /\ Validate p <> Err NoSink.
Proof.
  unfold Validate. case_bool_decide as Hid; simpl; [split; [|done]; split; [done|]; by intros (? & _)|].
  case_bool_decide as Hbs; simpl; [split; [|done]; split; [done|]; by intros (_ & ? & _)|].
  set (d := count_in (pConnections p) (zero_degrees (pBlocks p))).
  set (order := kahn _ id _ d _ []).
  pose proof (checked_first p Hbs) as Hfirst.
  destruct (check_names ∅ (pBlocks p)) as [r|e]; simpl in Hfirst |- *; [|split; [split; [done|naive_solver]|naive_solver]].
  destruct (check_connections r (pConnections p)) as [[]|e]; simpl; [|split; [split; [done|naive_solver]|naive_solver]].
  rename Hfirst into Hok.
  destruct (search_of p Hok id (initial_queue (pBlocks p) d) (fun _ => reflexivity _) (reflexivity _))
    as (Hs & Hiff & Hperm). fold d order in Hs, Hiff, Hperm.
  destruct (length order =? length (pBlocks p)) eqn:El; simpl; bool_hyps.
  2: { split; [|done]. split; [done|]. intros (_ & _ & _ & Hac). by apply Hiff in Hac. }
  destruct (order_has_ends p order Hok Hbs Hs (Hperm El)) as [(b & Hb & Hsrc) (b' & Hb' & Hsink)].
  rewrite (proj2 (existsb_elem (fun b => (deg d (nName b) =? 0)%Z) (pBlocks p)))
    by (exists b; split; [done|by apply deg_in_zero]).
  rewrite (proj2 (existsb_elem (fun b => (deg (count_out (pConnections p) (zero_degrees (pBlocks p))) (nName b) =? 0)%Z) (pBlocks p)))
    by (exists b'; split; [done|by apply deg_out_zero]).
  simpl. split; [|done]. split; [|done]. intros _. split_and!; [done..|by apply Hiff].
Qed.

(** An accepted pipeline is ordered: [topoOrder] lists each block once, every
    connection leading forward; and it fails exactly on a cycle. *)
Lemma topo_order_spec p :
  graph_ok p ->
  (forall order, topoOrder p = Ok order -> order ≡ₚ block_names p /\ sorted (pConnections p) order) /\
  ((exists order, topoOrder p = Ok order) <-> acyclic (pConnections p)) /\
  (forall e, topoOrder p = Err e -> e = HasCycle).
Proof.
  intros Hok. unfold topoOrder.
  set (d := count_in (pConnections p) (zero_degrees (pBlocks p))).
  destruct (search_of p Hok (sort_by (blockIndex p)) (sort_by (blockIndex p) (initial_queue (pBlocks p) d))
    (sort_by_perm _) (sort_by_perm _ _)) as (Hs & Hiff & Hperm). fold d in Hs, Hiff, Hperm.
  set (order := kahn _ _ _ _ _ _) in *. destruct (length order =? length (pBlocks p)) eqn:El; bool_hyps.
  - split_and!; [intros ? [= <-]; auto| |done]. split; [intros _; by apply Hiff|]. intros _. by exists order.
  - split_and!; [done| |by intros ? [= <-]]. split; [by intros []|]. by intros ?%Hiff.
Qed.

(** C31. A pipeline is accepted exactly when it has an identifier, at least one
    block, distinct non-empty block names, connections between its blocks, and
    no cycle of connections; the errors for a missing source and a missing sink
    are never reported; and an accepted pipeline is put in an order that lists
    each block once, every connection leading forward. *)
Theorem validated_pipeline_ordered p :
  (Validate p = Ok () <->
   pID p <> [] /\ pBlocks p <> [] /\ graph_ok p /\ acyclic (pConnections p)) /\
  Validate p <> Err NoSource /\ Validate p <> Err NoSink /\
  (Validate p = Ok () -> exists order, topoOrder p = Ok order /\
     order ≡ₚ block_names p /\ sorted (pConnections p) order).
Proof.
  destruct (validate_spec p) as (Hiff & H1 & H2). split_and!; [done..|].
  intros (_ & _ & Hg & Hac)%Hiff. destruct (topo_order_spec p Hg) as (Hord & Hex & _).
  destruct (proj2 Hex Hac) as [order Ho]. exists order. split; [done|]. by apply Hord.
Qed.

Definition sample_node (n : gostring) : PipelineNode := MkNode n "to_json"%go ∅.
Definition sample_edge (a b : gostring) : Connection := MkConn a [] b [].
Definition diamond : Pipeline := MkPipeline "p"%go "p"%go (map sample_node ["d"%go; "b"%go; "a"%go; "c"%go])
  [sample_edge "a"%go "b"%go; sample_edge "a"%go "c"%go; sample_edge "b"%go "d"%go; sample_edge "c"%go "d"%go].
Example diamond_order : topoOrder diamond = Ok ["a"%go; "b"%go; "c"%go; "d"%go].
Proof. vm_compute. reflexivity. Qed.

Example cycle_refused :
  Validate (MkPipeline "p"%go [] (map sample_node ["a"%go; "b"%go; "c"%go])
    [sample_edge "a"%go "b"%go; sample_edge "b"%go "c"%go; sample_edge "c"%go "b"%go]) = Err HasCycle.
Proof. vm_compute. reflexivity. Qed.

End FlowGraph.
