(* ===== verification/FlowRun.v ===== *)
(** * Flow blocks: instantiation and the message path

    [BlockGraph] of [internal/flow/graph.go] and [Registry.Instantiate] of
    [factory.go]. A block is its [Process] method on the state the blocks of
    one flow share, with flags for the optional interfaces it implements; a
    constructor is an argument, since the catalogue of blocks is open. *)

From S2P Require Import Prelude GoStrings PayloadJson Rows FlowGraph.

Module FlowRun.
Import Rows FlowGraph.

Section Blocks.
Context {St Msg E : Type}.

(** ** Block graphs *)

Record Block := MkBlock {
  bName : gostring;
  bSource : bool;   (** implements [Source] *)
  bStopper : bool;  (** implements [Stopper] *)
  bProcess : St -> Msg -> St * result E (list Msg) }.

Inductive graph_error := EmptyGraph | NilBlock (i : nat).

Fixpoint check_blocks (i : nat) (bs : list (option Block)) : result graph_error (list Block) :=
  match bs with
  | [] => Ok []
  | None :: _ => Err (NilBlock i)
  | Some b :: bs => let? rest := check_blocks (S i) bs in Ok (b :: rest)
  end.
Definition NewBlockGraph (bs : list (option Block)) : result graph_error (list Block) :=
  match bs with [] => Err EmptyGraph | _ => check_blocks 0 bs end.

Definition Sources (g : list Block) : list Block := filter (fun b => bSource b = true) g.

(** One stage of [Run]: the messages in turn, the outputs appended to [next].
    The error of [errBlock] carries the block's name. *)
Fixpoint process_all (b : Block) (st : St) (cur next : list Msg) : St * result (gostring * E) (list Msg) :=
  match cur with
  | [] => (st, Ok next)
  | m :: cur =>
      match bProcess b st m with
      | (st, Err e) => (st, Err (bName b, e))
      | (st, Ok out) => process_all b st cur (next ++ out)
      end
  end.

Fixpoint run_stages (g : list Block) (st : St) (cur : list Msg) : St * result (gostring * E) (list Msg) :=
  match g with
  | [] => (st, Ok cur)
  | b :: g =>
      if bSource b then run_stages g st cur
      else match process_all b st cur [] with
           | (st, Err e) => (st, Err e)
           | (st, Ok next) => run_stages g st next
           end
  end.
Definition Run (g : list Block) (st : St) (m : Msg) : St * result (gostring * E) (list Msg) :=
  run_stages g st [m].

(** ** Instantiate *)

Definition Constructor : Type := gostring -> config -> result E (option Block).
Definition Registry : Type := gmap gostring Constructor.
Definition Register (r : Registry) (blockType : gostring) (ctor : Constructor) : Registry := <[blockType := ctor]> r.
Definition Has (r : Registry) (blockType : gostring) : bool :=
  match r !! blockType with Some _ => true | None => false end.

Inductive build_error :=
| NilPipeline | Invalid (e : flow_error) | EmptyBlockType (n : gostring) | UnknownBlockType (t n : gostring)
| ConstructFailed (n : gostring) (e : E) | ConstructNil (n : gostring).

(** What happens to the resources: a block comes to life, or is stopped. *)
Inductive event := Built (b : Block) | Stopped (b : Block).

Definition stopAll (bs : list Block) : list event := map Stopped (filter (fun b => bStopper b = true) bs).

Definition by_name (p : Pipeline) : gmap gostring PipelineNode :=
  foldl (fun m n => <[nName n := n]> m) ∅ (pBlocks p).

Definition zero_node : PipelineNode := MkNode [] [] ∅.

Fixpoint build (r : Registry) (nodes : gmap gostring PipelineNode) (order : list gostring) (out : list Block)
    : list event * result build_error (list Block) :=
  match order with
  | [] => ([], Ok out)
  | name :: order =>
      let node := default zero_node (nodes !! name) in
      if bool_decide (nBlockType node = []) then ([], Err (EmptyBlockType name))
      else match r !! nBlockType node with
           | None => ([], Err (UnknownBlockType (nBlockType node) name))
           | Some ctor =>
               match ctor name (nConfig node) with
               | Err e => (stopAll out, Err (ConstructFailed name e))
               | Ok None => (stopAll out, Err (ConstructNil name))
               | Ok (Some b) =>
                   let '(evs, res) := build r nodes order (out ++ [b]) in (Built b :: evs, res)
               end
           end
  end.

Definition Instantiate (r : Registry) (p : option Pipeline) : list event * result build_error (list Block) :=
  match p with
  | None => ([], Err NilPipeline)
  | Some p =>
      match Validate p with
      | Err e => ([], Err (Invalid e))
      | Ok _ =>
          match topoOrder p with
          | Err e => ([], Err (Invalid e))
          | Ok order => build r (by_name p) order []
          end
      end
  end.

End Blocks.

Arguments Block : clear implicits.
Arguments Registry : clear implicits.
Arguments build_error : clear implicits.
Arguments event : clear implicits.

(** ** A reference semantics of a graph

    The stages run one after the other on all messages; the reference follows
    each message through the rest of the graph on its own. *)

Definition collect {E A} (l : list (result E (list A))) : result E (list A) :=
  foldr (fun r acc => let? x := r in let? y := acc in Ok (x ++ y)) (Ok []) l.

Section Reference.
Context {St Msg E : Type} (f : Block St Msg E -> Msg -> result E (list Msg)).

Definition stage (b : Block St Msg E) (m : Msg) : result (gostring * E) (list Msg) := mapErr (pair (bName b)) (f b m).

Fixpoint follow (g : list (Block St Msg E)) (m : Msg) : result (gostring * E) (list Msg) :=
  match g with
  | [] => Ok [m]
  | b :: g => if bSource b then follow g m else let? out := stage b m in collect (map (follow g) out)
  end.

Lemma collect_cons {A B} (r : result A (list B)) l x :
  collect (r :: l) = Ok x <-> exists y z, r = Ok y /\ collect l = Ok z /\ x = y ++ z.
Proof.
  change (collect (r :: l)) with (let? y := r in let? z := collect l in Ok (y ++ z)).
  destruct r as [y|]; simpl; [|naive_solver]. destruct (collect l) as [z|]; simpl; naive_solver.
Qed.

Lemma collect_app {A B} (k l : list (result A (list B))) x :
  collect (k ++ l) = Ok x <-> exists y z, collect k = Ok y /\ collect l = Ok z /\ x = y ++ z.
Proof.
  revert x. induction k as [|r k IH]; intros x.
  - simpl. split; [intros ->; by exists [], x|]. by intros (y & z & [= <-] & -> & ->).
  - cbn [app]. rewrite collect_cons. split.
    + intros (y & z & -> & (y' & z' & Hk & Hl & ->)%IH & ->). exists (y ++ y'), z'. rewrite app_assoc.
      split_and!; [|done|done]. apply collect_cons. naive_solver.
    + intros (y & z & (y1 & y2 & -> & Hk & ->)%collect_cons & Hl & ->). exists y1, (y2 ++ z).
      split_and!; [done| |by rewrite app_assoc]. apply IH. naive_solver.
Qed.

Lemma collect_unit (cur : list Msg) : collect (map (follow []) cur) = Ok cur.
Proof. induction cur as [|m cur IH]; [done|]. cbn [map]. apply collect_cons. by exists [m], cur. Qed.

Lemma follow_cons b g m :
  bSource b = false -> follow (b :: g) m = let? out := stage b m in collect (map (follow g) out).
Proof. simpl. by intros ->. Qed.

(** Following the outputs of a stage is following its inputs. *)
Lemma collect_bind g b cur next :
  bSource b = false -> collect (map (stage b) cur) = Ok next ->
  forall x, collect (map (follow (b :: g)) cur) = Ok x <-> collect (map (follow g) next) = Ok x.
Proof.
  intros Hb. revert next. induction cur as [|m cur IH]; intros next H x; [by injection H as <-|].
  cbn [map] in H. apply collect_cons in H as (y & z & Hy & Hz & ->).
  cbn [map]. rewrite collect_cons, map_app, collect_app, follow_cons, Hy by done. cbn [bindR].
  split; intros (u & v & Hu & Hv & ->); exists u, v; split_and!; try done; by apply (IH z Hz).
Qed.

Lemma collect_stage_defined g b cur x :
  bSource b = false -> collect (map (follow (b :: g)) cur) = Ok x -> exists next, collect (map (stage b) cur) = Ok next.
Proof.
  intros Hb. revert x. induction cur as [|m cur IH]; intros x H; [by exists []|].
  cbn [map] in H. apply collect_cons in H as (y & z & Hy & Hz & ->). destruct (IH z Hz) as [next Hn].
  rewrite follow_cons in Hy by done. apply bindR_Ok in Hy as (out & Hout & _).
  exists (out ++ next). cbn [map]. apply collect_cons. naive_solver.
Qed.

Lemma process_all_spec b st cur acc :
  bProcess b st = (fun m => (st, f b m)) ->
  (process_all b st cur acc).1 = st /\
  forall x, (process_all b st cur acc).2 = Ok x <-> exists next, collect (map (stage b) cur) = Ok next /\ x = acc ++ next.
Proof.
  intros Hb. revert acc. induction cur as [|m cur IH]; intros acc.
  - simpl. split; [done|]. intros x. rewrite <- (app_nil_r acc) at 1. naive_solver.
  - cbn [process_all map]. rewrite Hb. destruct (f b m) as [out|e] eqn:Ef.
    + destruct (IH (acc ++ out)) as [H1 H2]. split; [done|]. intros x. rewrite H2. setoid_rewrite collect_cons.
      unfold stage at 2. rewrite Ef. simpl. setoid_rewrite <- app_assoc. naive_solver.
    + split; [done|]. intros x. split; [done|]. intros (next & H & _). apply collect_cons in H as (? & ? & H & _).
      unfold stage in H. by rewrite Ef in H.
Qed.

Lemma run_stages_spec g st cur :
  (forall b, b ∈ g -> bProcess b st = (fun m => (st, f b m))) ->
  (run_stages g st cur).1 = st /\
  forall x, (run_stages g st cur).2 = Ok x <-> collect (map (follow g) cur) = Ok x.
Proof.
  revert cur. induction g as [|b g IH]; intros cur Hg.
  - simpl. split; [done|]. intros x. by rewrite collect_unit.
  - assert (forall b, b ∈ g -> bProcess b st = (fun m => (st, f b m))) as Hg' by (intros b' Hb'; apply Hg; by right).
    cbn [run_stages]. destruct (bSource b) eqn:Hb.
    { destruct (IH cur Hg') as [H1 H2]. split; [done|]. intros x. rewrite H2.
      replace (map (follow (b :: g)) cur) with (map (follow g) cur); [done|].
      apply map_ext. intros m. simpl. by rewrite Hb. }
    destruct (process_all_spec b st cur [] (Hg b ltac:(left))) as [H1 H2].
    destruct (process_all b st cur []) as [st' [next|e]]; simpl in H1, H2; subst st'.
    + destruct (proj1 (H2 next) eq_refl) as (next' & Hn & ->). simpl in *.
      destruct (IH next' Hg') as [H3 H4]. split; [done|]. intros x. rewrite H4. by rewrite (collect_bind g b cur).
    + split; [done|]. intros x. split; [done|]. intros Hx. destruct (collect_stage_defined g b cur x Hb Hx) as [next Hn].
      assert (Err e = Ok next) by (apply H2; naive_solver). done.
Qed.

End Reference.

(** ** Instantiation *)

Section Build.
Context {St Msg E : Type} (r : Registry St Msg E).

Definition constructs (node : PipelineNode) (b : Block St Msg E) : Prop :=
  nBlockType node <> [] /\ exists ctor, r !! nBlockType node = Some ctor /\ ctor (nName node) (nConfig node) = Ok (Some b).

(** The events of a failed construction. *)
Definition cleanup (e : build_error E) (built : list (Block St Msg E)) : list (event St Msg E) :=
  match e with ConstructFailed _ _ | ConstructNil _ => stopAll built | _ => [] end.

Lemma graph_build_spec (nodes : gmap gostring PipelineNode) order out :
  (forall n, n ∈ order -> exists node, nodes !! n = Some node /\ nName node = n) ->
  match build r nodes order out with
  | (evs, Ok bs) => exists new, bs = out ++ new /\ evs = map Built new /\
      Forall2 (fun n b => exists node, nodes !! n = Some node /\ constructs node b) order new
  | (evs, Err e) => (exists new, evs = map Built new ++ cleanup e (out ++ new)) /\
      exists n node, n ∈ order /\ nodes !! n = Some node /\ forall b, ~ constructs node b
  end.
Proof.
  revert out. induction order as [|n order IH]; intros out Hin; cbn [build].
  { exists []. by rewrite app_nil_r. }
  destruct (Hin n) as (node & Hnode & Hname); [left|]. rewrite Hnode. cbn [default from_option id].
  case_bool_decide as Ht; [split; [by exists []|]; exists n, node; split_and!; [left|done|]; by intros b []|].
  destruct (r !! nBlockType node) as [ctor|] eqn:Ec;
    [|split; [by exists []|]; exists n, node; split_and!; [left|done|]; intros b [_ (? & ? & _)]; congruence].
  destruct (ctor n (nConfig node)) as [[b|]|e] eqn:Eb.
  - specialize (IH (out ++ [b])). destruct (build r nodes order (out ++ [b])) as [evs [bs|e]]; simpl.
    + destruct IH as (new & -> & -> & Hf). { intros k Hk. apply Hin. by right. }
      exists (b :: new). rewrite <- app_assoc. split_and!; [done|done|]. constructor; [|done].
      exists node. split; [done|]. split; [done|]. exists ctor. by rewrite Hname.
    + destruct IH as ((new & ->) & n' & node' & Hn' & Hrest). { intros k Hk. apply Hin. by right. }
      split; [exists (b :: new); by rewrite <- app_assoc|]. exists n', node'. split; [by right|done].
  - split; [exists []; by rewrite app_nil_r|]. exists n, node. split_and!; [left|done|].
    intros b [_ (c' & Hc' & Hb)]. rewrite Hname in Hb. congruence.
  - split; [exists []; by rewrite app_nil_r|]. exists n, node. split_and!; [left|done|].
    intros b [_ (c' & Hc' & Hb)]. rewrite Hname in Hb. congruence.
Qed.

Lemma build_registered (nodes : gmap gostring PipelineNode) order out evs e :
  (forall n node, n ∈ order -> nodes !! n = Some node -> nBlockType node <> [] /\ is_Some (r !! nBlockType node)) ->
  (forall n, n ∈ order -> is_Some (nodes !! n)) ->
  build r nodes order out = (evs, Err e) ->
  (exists n c, e = ConstructFailed n c) \/ exists n, e = ConstructNil n.
Proof.
  revert out evs. induction order as [|n order IH]; intros out evs Hreg Hin; [done|]. cbn [build].
  destruct (Hin n) as [node Hnode]; [left|]. rewrite Hnode. cbn [default from_option id].
  destruct (Hreg n node) as [Ht [ctor Hc]]; [left|done|]. case_bool_decide; [done|].
  destruct (r !! nBlockType node) as [ctor0|]; [clear Hc|discriminate Hc].
  destruct (ctor0 n (nConfig node)) as [[b|]|c]; [|intros [= _ <-]; eauto..].
  destruct (build r nodes order (out ++ [b])) as [evs' res] eqn:Eb. intros [= _ ->].
  eapply IH; [| |exact Eb].
  - intros k nd Hk. apply Hreg. by right.
  - intros k Hk. apply Hin. by right.
Qed.

Lemma by_name_spec p n node : NoDup (block_names p) ->
  by_name p !! n = Some node <-> node ∈ pBlocks p /\ nName node = n.
Proof.
  unfold by_name, block_names. intros Hnd.
  enough (forall m : gmap gostring PipelineNode, (forall n node, m !! n = Some node -> n ∉ map nName (pBlocks p)) ->
    (foldl (fun m n => <[nName n := n]> m) m (pBlocks p)) !! n = Some node <->
    (node ∈ pBlocks p /\ nName node = n) \/ m !! n = Some node) as H.
  { rewrite H by done. rewrite lookup_empty. naive_solver. }
  induction (pBlocks p) as [|b bs IH]; intros m Hm; simpl.
  - split; [by right|]. intros [[Hx _]|]; [by apply elem_of_nil in Hx|done].
  - simpl in Hnd. apply NoDup_cons in Hnd as [Hb Hnd]. rewrite IH; [|done|].
    + rewrite lookup_insert_Some, elem_of_cons. specialize (Hm n node). simpl in Hm. rewrite elem_of_cons in Hm.
      naive_solver.
    + intros k nd. rewrite lookup_insert_Some. intros [[<- _]|[Hne Hk]]; [done|].
      specialize (Hm k nd Hk). simpl in Hm. rewrite not_elem_of_cons in Hm. tauto.
Qed.

End Build.

(** ** The guarantees *)

(** Running a graph stage by stage is following each message on its own: for
    blocks without state, the messages that come out, and their order, are
    those of the reference, and one way fails exactly when the other does. *)
Theorem run_follows_each_message {St Msg E} (f : Block St Msg E -> Msg -> result E (list Msg)) g st m :
  (forall b, b ∈ g -> bProcess b st = (fun m => (st, f b m))) ->
  (Run g st m).1 = st /\ forall out, (Run g st m).2 = Ok out <-> follow f g m = Ok out.
Proof.
  intros Hg. destruct (run_stages_spec f g st [m] Hg) as [H1 H2]. split; [done|]. intros out. unfold Run.
  rewrite H2. cbn [map]. rewrite collect_cons. simpl. split; [intros (y & z & -> & [= <-] & ->)|].
  - by rewrite app_nil_r.
  - intros ->. exists out, []. by rewrite app_nil_r.
Qed.

Lemma instantiate_spec {St Msg E} (r : Registry St Msg E) p evs res :
  Instantiate r (Some p) = (evs, res) ->
  match res with
  | Ok bs => evs = map Built bs /\ exists order,
      order ≡ₚ block_names p /\ sorted (pConnections p) order /\
      Forall2 (fun n b => exists node, (node ∈ pBlocks p /\ nName node = n) /\ constructs r node b) order bs
  | Err e => exists built, evs = map Built built ++ cleanup e built
  end /\
  (is_ok res = true <-> Validate p = Ok () /\ forall node, node ∈ pBlocks p -> exists b, constructs r node b).
Proof.
  unfold Instantiate. pose proof (proj1 (validate_spec p)) as Hval.
  destruct (Validate p) as [[]|e]; [|intros [= <- <-]; split; [by exists []|]; naive_solver].
  destruct (proj1 Hval eq_refl) as (_ & _ & Hg & Hac). destruct (topo_order_spec p Hg) as (Hord & Hex & _).
  destruct (topoOrder p) as [order|e]; [|destruct (proj2 Hex Hac) as [? ?]; congruence].
  destruct (Hord order eq_refl) as [Hperm Hsorted]. intros Hb.
  assert (forall n node, by_name p !! n = Some node <-> node ∈ pBlocks p /\ nName node = n) as Hby.
  { intros n node. apply by_name_spec. by destruct Hg. }
  assert (forall n, n ∈ order -> exists node, by_name p !! n = Some node /\ nName node = n) as Hin.
  { intros n. rewrite Hperm. intros (node & -> & Hn)%list_elem_of_fmap. exists node. split; [|done]. by apply Hby. }
  pose proof (graph_build_spec r (by_name p) order [] Hin) as Hspec. rewrite Hb in Hspec.
  destruct res as [bs|e].
  - destruct Hspec as (new & -> & -> & Hf). simpl. split.
    + split; [done|]. exists order. split_and!; [done..|]. eapply Forall2_impl; [exact Hf|].
      intros n b (node & Hn & Hc). exists node. by rewrite <- Hby.
    + split; [|done]. intros _. split; [done|]. intros node Hnode.
      assert (nName node ∈ order) as Hn by (rewrite Hperm; by apply list_elem_of_fmap_2).
      apply list_elem_of_lookup in Hn as (i & Hi).
      destruct (Forall2_lookup_l _ _ _ _ _ Hf Hi) as (b & _ & node' & Hn' & Hc).
      assert (by_name p !! nName node = Some node) as Hself by (by apply Hby). exists b. congruence.
  - destruct Hspec as ((new & ->) & n & node & _ & Hn & Hno). split; [by exists new|]. split; [done|].
    intros [_ Hall]. apply Hby in Hn as [Hn _]. destruct (Hall node Hn) as [b Hb']. by destruct (Hno b).
Qed.

(** A pipeline is built exactly when it is valid and the constructor of every
    block's registered type returns a block; the blocks then come one per
    node, built from the node's name and configuration, every connection
    leading forward. When a constructor fails, the blocks built before it that
    own resources are stopped. *)
Theorem instantiate_exact {St Msg E} (r : Registry St Msg E) p evs res :
  Instantiate r (Some p) = (evs, res) ->
  match res with
  | Ok bs => evs = map Built bs /\ exists order,
      order ≡ₚ block_names p /\ sorted (pConnections p) order /\
      Forall2 (fun n b => exists node, (node ∈ pBlocks p /\ nName node = n) /\ constructs r node b) order bs
  | Err e => exists built, evs = map Built built ++ cleanup e built
  end /\
  (is_ok res = true <-> Validate p = Ok () /\ forall node, node ∈ pBlocks p -> exists b, constructs r node b).
Proof. apply instantiate_spec. Qed.

(** ** Examples *)

Definition sample_block (stopper : bool) (n : gostring) : Block () Z () :=
  MkBlock n false stopper (fun st m => (st, Ok [m; (m + 1)%Z])).
Definition sample_registry : Registry () Z () :=
  {["container"%go := fun n _ => Ok (Some (sample_block true n)); "broken"%go := fun n _ => Err ()]}.
Definition two_blocks (second : gostring) : Pipeline :=
  MkPipeline "p"%go "p"%go [MkNode "a"%go "container"%go ∅; MkNode "b"%go second ∅] [sample_edge "a"%go "b"%go].

Lemma run_follows_each_message_witness :
  (Run [sample_block false "a"%go; sample_block false "b"%go] () 0%Z).2 = Ok [0; 1; 1; 2]%Z.
Proof.
  apply (run_follows_each_message (fun b m => Ok [m; (m + 1)%Z]) [sample_block false "a"%go; sample_block false "b"%go] () 0%Z).
  - intros b Hb. rewrite !elem_of_cons, elem_of_nil in Hb. destruct Hb as [->|[->|[]]]; reflexivity.
  - reflexivity.
Defined.

Lemma instantiate_exact_witness :
  exists built, Instantiate sample_registry (Some (two_blocks "broken"%go)) =
    (map Built built ++ stopAll built, Err (ConstructFailed "b"%go ())) /\ length built = 1.
Proof.
  destruct (Instantiate sample_registry (Some (two_blocks "broken"%go))) as [evs res] eqn:E.
  pose proof (instantiate_exact sample_registry (two_blocks "broken"%go) evs res E) as [H _].
  assert (res = Err (ConstructFailed "b"%go ())) as -> by (vm_compute in E; by injection E as _ <-).
  destruct H as (built & ->). exists built. split; [done|].
  vm_compute in E. destruct built as [|b [|b' built]]; [discriminate E|reflexivity|discriminate E].
Defined.

(** A block type without a constructor is found after the earlier blocks were
    built, and they are not stopped. *)
Theorem unknown_type_leaks :
  exists b evs, Instantiate sample_registry (Some (two_blocks "missing"%go)) =
    (evs, Err (UnknownBlockType "missing"%go "b"%go)) /\
  Built b ∈ evs /\ bStopper b = true /\ Stopped b ∉ evs.
Proof.
  exists (sample_block true "a"%go), [Built (sample_block true "a"%go)].
  split; [vm_compute; reflexivity|]. split; [left|]. split; [done|].
  rewrite list_elem_of_singleton. discriminate.
Qed.

End FlowRun.
