(* ===== verification/FlowCompose.v ===== *)
(** * Flow pipelines: configuration and composite blocks

    [SubstituteConfig] of [internal/flow/substitute.go] and [ExpandComposites]
    of [composite.go]. Definitions are JSON texts there; the texts are read and
    written by [encoding/json], which the section variables stand for, and the
    code between works on the decoded values. *)

From S2P Require Import Prelude GoStrings Float64 PayloadJson Rows FlowGraph.

Module FlowCompose.
Import Rows FlowGraph.

(** ** Placeholders *)

Definition open_text : gostring := "${config."%go.
Definition key_start (c : ascii) : bool :=
  between "A" "Z" c || between "a" "z" c || bool_decide (c = "_"%char).
Definition key_char (c : ascii) : bool := key_start c || between "0" "9" c.

(** The longest run of key characters, and what follows. *)
Fixpoint take_key (s : gostring) : gostring * gostring :=
  match s with
  | c :: s' => if key_char c then let '(k, r) := take_key s' in (c :: k, r) else ([], s)
  | [] => ([], [])
  end.

(** [configPlaceholder] at the start of a text: the key and the rest. *)
Definition match_placeholder (s : gostring) : option (gostring * gostring) :=
  match Strings.CutPrefix s open_text with
  | None => None
  | Some s =>
      match take_key s with
      | (c :: k, close :: rest) => if key_start c && bool_decide (close = "}"%char) then Some (c :: k, rest) else None
      | _ => None
      end
  end.

Inductive piece := Byte (c : ascii) | Hole (key : gostring).

(** [ReplaceAllStringFunc]: leftmost matches, without overlap. *)
Fixpoint scan (fuel : nat) (s : gostring) : list piece :=
  match fuel, s with
  | O, _ | _, [] => []
  | S fuel, c :: s' =>
      match match_placeholder s with
      | Some (key, rest) => Hole key :: scan fuel rest
      | None => Byte c :: scan fuel s'
      end
  end.
Definition pieces (s : gostring) : list piece := scan (length s) s.

Inductive subst_error := EmptyDefinition | NoParse | MissingKey (k : gostring) | NotStringable (k : gostring)
| Unresolved (s : gostring) | NoEncode.

Section Substitute.
(** [strconv.FormatFloat(t, 'f', -1, 64)]. *)
Variable FormatFixed : Z -> gostring.

(** [t == float64(int64(t))] holds of the integers an int64 can hold; outside
    that range the conversion gives another value. *)
Definition configValueString (v : generic) : option gostring :=
  match v with
  | GStr s => Some s
  | GNum t =>
      if Float64.finite t && Float64.integral t &&
         (int64_min <=? Float64.trunc t)%Z && (Float64.trunc t <=? int64_max)%Z
      then Some (Strconv.Itoa (Float64.trunc t)) else Some (FormatFixed t)
  | GBool b => Some (if b then "true"%go else "false"%go)
  | GNull | GArr _ | GMap _ => None
  end.

Definition fill_piece (cfg : config) (x : piece) : result subst_error gostring :=
  match x with
  | Byte c => Ok [c]
  | Hole k =>
      match cfg !! k with
      | None => Err (MissingKey k)
      | Some v => or_err (configValueString v) (NotStringable k)
      end
  end.

Fixpoint fill (cfg : config) (l : list piece) : result subst_error gostring :=
  match l with
  | [] => Ok []
  | x :: l => let? a := fill_piece cfg x in let? b := fill cfg l in Ok (a ++ b)
  end.

Definition replacePlaceholders (s : gostring) (cfg : config) : result subst_error gostring :=
  let? out := fill cfg (pieces s) in
  if Strings.Contains out open_text then Err (Unresolved s) else Ok out.

(** [walkSubstitute] on the children of a node: strings are replaced, other
    children walked. Go ranges over a map in no fixed order; only which error
    comes first depends on it. *)
Definition collect_all {A} (l : list (result subst_error A)) : result subst_error (list A) :=
  foldr (fun r acc => let? x := r in let? y := acc in Ok (x :: y)) (Ok []) l.
Definition collect_values {A} (m : gmap gostring (result subst_error A)) : result subst_error (gmap gostring A) :=
  let? l := collect_all (map (fun '(k, r) => let? x := r in Ok (k, x)) (map_to_list m)) in Ok (list_to_map l).

Fixpoint walkSubstitute (cfg : config) (v : generic) : result subst_error generic :=
  let child c :=
    match c with
    | GStr s => let? s := replacePlaceholders s cfg in Ok (GStr s)
    | _ => walkSubstitute cfg c
    end in
  match v with
  | GMap m => let? m := collect_values (child <$> m) in Ok (GMap m)
  | GArr l => let? l := collect_all (map child l) in Ok (GArr l)
  | _ => Ok v
  end.

(** [json.Unmarshal] into [any], and [json.Marshal]. *)
Variable unmarshal : gostring -> option generic.
Variable marshal : generic -> option gostring.

Definition SubstituteConfig (definition : gostring) (cfg : config) : result subst_error gostring :=
  if bool_decide (definition = []) then Err EmptyDefinition
  else
    let? root := or_err (unmarshal definition) NoParse in
    let? root := walkSubstitute cfg root in
    or_err (marshal root) NoEncode.

End Substitute.

(** ** What a placeholder text is *)

Definition valid_key (k : gostring) : Prop :=
  match k with c :: _ => key_start c = true /\ forallb key_char k = true | [] => False end.

Definition render_piece (x : piece) : gostring :=
  match x with Byte c => [c] | Hole k => open_text ++ k ++ "}"%go end.
Definition render (t : list piece) : gostring := t ≫= render_piece.

(** A template: bytes and placeholders, the bytes never spelling the start of a
    placeholder. *)
Record template (t : list piece) : Prop := {
  tp_keys k : Hole k ∈ t -> valid_key k;
  tp_bytes l1 bs l2 : t = l1 ++ map Byte bs ++ l2 -> Strings.Contains bs open_text = false }.

Lemma take_key_spec k c r : forallb key_char k = true -> key_char c = false -> take_key (k ++ c :: r) = (k, c :: r).
Proof.
  induction k as [|x k IH]; simpl; intros Hk Hc; [by rewrite Hc|].
  apply andb_true_iff in Hk as [-> Hk]. by rewrite (IH Hk Hc).
Qed.
Lemma take_key_split s k r : take_key s = (k, r) -> s = k ++ r /\ forallb key_char k = true.
Proof.
  revert k r. induction s as [|c s IH]; simpl; intros k r; [by intros [= <- <-]|].
  destruct (key_char c) eqn:Ec; [|by intros [= <- <-]]. destruct (take_key s) as [k' r'] eqn:E.
  intros [= <- <-]. destruct (IH _ _ eq_refl) as [-> Hk]. simpl. by rewrite Ec.
Qed.

Lemma match_hole k r : valid_key k -> match_placeholder (render_piece (Hole k) ++ r) = Some (k, r).
Proof.
  intros Hk. unfold match_placeholder. cbn [render_piece]. rewrite <- !app_assoc.
  rewrite (proj2 (Strings.CutPrefix_spec _ _ _) eq_refl).
  destruct k as [|c k]; [done|]. destruct Hk as [Hc Hk]. change ("}"%go ++ r) with ("}"%char :: r).
  rewrite (take_key_spec (c :: k) "}"%char r Hk eq_refl). by rewrite Hc.
Qed.

Lemma match_Some s k r : match_placeholder s = Some (k, r) -> valid_key k /\ s = render_piece (Hole k) ++ r.
Proof.
  unfold match_placeholder. destruct (Strings.CutPrefix s open_text) as [s'|] eqn:E; [|done].
  apply Strings.CutPrefix_spec in E as ->. destruct (take_key s') as [[|c k'] [|x r']] eqn:Ek; try done.
  destruct (key_start c) eqn:Ec; [|done]. simpl. case_bool_decide as Hx; [|done]. intros [= <- <-].
  apply take_key_split in Ek as [-> Hk]. split; [by split|]. subst x. simpl. by rewrite <- !app_assoc.
Qed.

(** No placeholder starts inside bytes that do not spell one. *)
Lemma open_text_inside bs r s :
  bs <> [] -> (r = [] \/ exists r', r = "$"%char :: r') -> bs ++ r = open_text ++ s ->
  Strings.Contains bs open_text = true.
Proof.
  intros Hne Hr E. apply Strings.Contains_spec. destruct (decide (length open_text <= length bs)) as [Hl|Hl].
  - exists [], (drop (length open_text) bs). cbn [app].
    assert (take (length open_text) bs = open_text) as Ht.
    { rewrite <- (take_app_le bs r) by done. rewrite E. by rewrite take_app_length. }
    rewrite <- Ht at 1. by rewrite take_drop.
  - exfalso. assert (take (length bs) open_text = bs) as Hb.
    { rewrite <- (take_app_le open_text s) by lia. rewrite <- E. by rewrite take_app_length. }
    assert (r = drop (length bs) open_text ++ s) as Hr'.
    { rewrite <- (drop_app_length bs r), E. rewrite drop_app_le by lia. done. }
    destruct Hr as [->|[r' ->]].
    + destruct (drop (length bs) open_text) eqn:Ed; [|done]. apply (f_equal length) in Ed.
      rewrite length_drop in Ed. simpl in Ed, Hl. lia.
    + destruct bs as [|x bs]; [done|]. clear Hb E Hne. simpl in Hl.
      do 8 (destruct bs as [|? bs]; [discriminate Hr'|]). simpl in Hl. lia.
Qed.

(** The bytes a list of pieces starts with. *)
Lemma leading_bytes t : exists bs t', t = map Byte bs ++ t' /\ (render t' = [] \/ exists r, render t' = "$"%char :: r).
Proof.
  induction t as [|[c|k] t IH].
  - exists [], []. split; [done|by left].
  - destruct IH as (bs & t' & -> & H). exists (c :: bs), t'. by split.
  - exists [], (Hole k :: t). split; [done|]. right. eexists. reflexivity.
Qed.

Lemma render_app t u : render (t ++ u) = render t ++ render u.
Proof. unfold render. by rewrite bind_app. Qed.
Lemma render_bytes bs : render (map Byte bs) = bs.
Proof. induction bs as [|c bs IH]; [done|]. cbn. unfold render in IH. by rewrite IH. Qed.

Lemma template_tail x t : template (x :: t) -> template t.
Proof.
  intros [H1 H2]. split; [intros k Hk; apply H1; by right|]. intros l1 bs l2 ->. by apply (H2 (x :: l1) bs l2).
Qed.

Lemma scan_render fuel t : template t -> length (render t) <= fuel -> scan fuel (render t) = t.
Proof.
  revert fuel. induction t as [|x t IH]; intros fuel Ht Hf; [by destruct fuel|].
  pose proof (template_tail _ _ Ht) as Ht'. destruct fuel as [|fuel]; [destruct x; cbn in Hf; lia|].
  change (render (x :: t)) with (render_piece x ++ render t) in *. rewrite length_app in Hf.
  destruct x as [c|k].
  - change (length (render_piece (Byte c))) with 1 in Hf. cbn [render_piece app scan].
    destruct (match_placeholder (c :: render t)) as [[k r]|] eqn:Em; [|f_equal; apply IH; [done|lia]].
    exfalso. apply match_Some in Em as [_ Em]. destruct (leading_bytes t) as (bs & t' & -> & Hr).
    rewrite render_app, render_bytes in Em. simpl in Em.
    pose proof (open_text_inside (c :: bs) (render t') (k ++ "}"%go ++ r) ltac:(done) Hr) as H.
    rewrite (tp_bytes _ Ht [] (c :: bs) t' eq_refl) in H. discriminate H. simpl. rewrite Em.
    by rewrite <- !app_assoc.
  - assert (valid_key k) as Hk by (apply (tp_keys _ Ht); left).
    assert (exists c s', render_piece (Hole k) ++ render t = c :: s') as (c & s' & E) by (do 2 eexists; reflexivity).
    rewrite E. cbn [scan]. rewrite <- E, match_hole by done. rewrite IH; [done..|].
    assert (0 < length (render_piece (Hole k))) by (simpl; lia). lia.
Qed.

Lemma render_scan fuel s : length s <= fuel -> render (scan fuel s) = s.
Proof.
  revert s. induction fuel as [|fuel IH]; intros [|c s] Hf; try done; [simpl in Hf; lia|].
  cbn [scan]. destruct (match_placeholder (c :: s)) as [[k r]|] eqn:Em.
  - apply match_Some in Em as [_ Em]. change (render (Hole k :: ?l)) with (render_piece (Hole k) ++ render l).
    rewrite IH; [done|]. apply (f_equal length) in Em. rewrite length_app in Em. simpl in Em, Hf. lia.
  - change (render (Byte c :: ?l)) with (c :: render l). rewrite IH; [done|]. simpl in Hf. lia.
Qed.

Lemma scan_keys fuel s k : Hole k ∈ scan fuel s -> valid_key k.
Proof.
  revert s. induction fuel as [|fuel IH]; intros [|c s]; cbn [scan]; try (by intros ?%elem_of_nil).
  destruct (match_placeholder (c :: s)) as [[k' r]|] eqn:Em.
  - intros [[= ->]|Hk]%elem_of_cons; [by apply match_Some in Em as [? _]|by eapply IH].
  - intros [?|Hk]%elem_of_cons; [done|by eapply IH].
Qed.

Lemma fill_app F cfg k l o :
  fill F cfg (k ++ l) = Ok o <-> exists a b, fill F cfg k = Ok a /\ fill F cfg l = Ok b /\ o = a ++ b.
Proof.
  revert o. induction k as [|x k IH]; intros o; simpl.
  { split; [intros H; by exists [], o|]. by intros (a & b & [= <-] & H & ->). }
  destruct (fill_piece F cfg x) as [u|e]; simpl; [|naive_solver].
  destruct (fill F cfg (k ++ l)) as [v|e]; simpl.
  - destruct (proj1 (IH v) eq_refl) as (a & b & -> & -> & ->). simpl.
    split; [intros [= <-]; exists (u ++ a), b; by rewrite <- app_assoc|].
    intros (a' & b' & [= <-] & [= <-] & ->). by rewrite <- app_assoc.
  - split; [done|]. intros (a & b & Ha & Hb & ->). destruct (fill F cfg k) as [a'|]; [|done].
    discriminate (proj2 (IH (a' ++ b)) ltac:(naive_solver)).
Qed.
Lemma fill_bytes F cfg bs : fill F cfg (map Byte bs) = Ok bs.
Proof. induction bs as [|c bs IH]; [done|]. cbn [map fill fill_piece]. by rewrite IH. Qed.

Lemma filled_template F cfg s out :
  fill F cfg (pieces s) = Ok out -> Strings.Contains out open_text = false -> template (pieces s).
Proof.
  intros Hf Hc. split; [intros k; apply scan_keys|]. intros l1 bs l2 E.
  destruct (Strings.Contains bs open_text) eqn:Eb; [|done]. exfalso.
  apply Strings.Contains_spec in Eb as (a & b & ->). rewrite E in Hf.
  apply fill_app in Hf as (o1 & o & _ & Hf & ->). apply fill_app in Hf as (o2 & o3 & H2 & _ & ->).
  rewrite fill_bytes in H2. assert (o2 = a ++ open_text ++ b) as -> by congruence.
  assert (Strings.Contains (o1 ++ (a ++ open_text ++ b) ++ o3) open_text = true); [|congruence].
  apply Strings.Contains_spec. exists (o1 ++ a), (b ++ o3). by rewrite <- !app_assoc.
Qed.

(** Substitution gives exactly the template with its holes filled: a text is
    accepted when it consists of bytes and of placeholders with a valid key
    whose value the configuration holds as a string, number or boolean, and
    the result is the bytes with those values in place; a text in which
    something else starts like a placeholder is never accepted. *)
Theorem substitution_exact F s cfg out :
  replacePlaceholders F s cfg = Ok out <->
  exists t, template t /\ s = render t /\ fill F cfg t = Ok out /\ Strings.Contains out open_text = false.
Proof.
  unfold replacePlaceholders. split.
  - intros H. apply bindR_Ok in H as (o & Hf & H). destruct (Strings.Contains o open_text) eqn:Ec; [done|].
    injection H as <-. exists (pieces s). split_and!; [by eapply filled_template| |done|done].
    symmetry. by apply render_scan.
  - intros (t & Ht & -> & Hf & Hc). unfold pieces. rewrite scan_render by done. rewrite Hf. simpl. by rewrite Hc.
Qed.

Example substitution_sample :
  replacePlaceholders (fun _ => []) "tcp://${config.host}:${config.port}/x"%go
    {["host"%go := GStr "broker"%go; "port"%go := GNum (Float64.of_int 1883)]} = Ok "tcp://broker:1883/x"%go.
Proof. vm_compute. reflexivity. Qed.

(** ** Composite blocks *)

Record UserBlock := MkUserBlock { uName : gostring; uSource : gostring }.

(** The decoded [rawDefinition]. *)
Definition rawDefinition : Type := list PipelineNode * list Connection.

Definition maxCompositeDepth : nat := 32.

Inductive expand_error :=
| EmptyDef | DefNoParse | ResolveFailed (t : gostring) | CompositeCycle (n : gostring)
| TooDeep (n : gostring) | Substitution (e : subst_error) | EmptyComposite (n : gostring)
| InnerName (n : gostring) | InnerDuplicate (n b : gostring) | InnerUnknown (n b : gostring) | InnerCycle (n : gostring)
| OutOfFuel.

Fixpoint inner_names (composite : gostring) (names : gset gostring) (bs : list PipelineNode)
    : result expand_error (gset gostring) :=
  match bs with
  | [] => Ok names
  | b :: bs =>
      if bool_decide (nName b = []) then Err (InnerName composite)
      else if bool_decide (nName b ∈ names) then Err (InnerDuplicate composite (nName b))
      else inner_names composite ({[nName b]} ∪ names) bs
  end.
Fixpoint inner_connections (composite : gostring) (names : gset gostring) (cs : list Connection)
    : result expand_error () :=
  match cs with
  | [] => Ok ()
  | c :: cs =>
      guard_err (bool_decide (cFrom c ∈ names)) (InnerUnknown composite (cFrom c));;?
      guard_err (bool_decide (cTo c ∈ names)) (InnerUnknown composite (cTo c));;?
      inner_connections composite names cs
  end.
Definition checkInnerGraph (composite : gostring) (bs : list PipelineNode) (cs : list Connection)
    : result expand_error () :=
  let? names := inner_names composite ∅ bs in inner_connections composite names cs.

Definition as_pipeline (d : rawDefinition) : Pipeline := MkPipeline [] [] d.1 d.2.

Definition prefix_node (p : gostring) (n : PipelineNode) : PipelineNode :=
  MkNode (p ++ nName n) (nBlockType n) (nConfig n).
Definition prefix_conn (p : gostring) (c : Connection) : Connection :=
  MkConn (p ++ cFrom c) (cFromPort c) (p ++ cTo c) (cToPort c).

(** The edges of a node move to the ends of what replaces it. *)
Definition splice_conn (node first last : gostring) (c : Connection) : Connection :=
  let c := if bool_decide (cTo c = node) then MkConn (cFrom c) (cFromPort c) first (cToPort c) else c in
  if bool_decide (cFrom c = node) then MkConn last (cFromPort c) (cTo c) (cToPort c) else c.

Section Expand.
(** [None] is an error of the resolver, [Some None] a built-in type. *)
Variable resolve : gostring -> option (option UserBlock).
Variable substitute : gostring -> config -> result subst_error gostring.
Variable unmarshal : gostring -> option rawDefinition.

(** The checks on one composite node, up to its decoded body. *)
Definition composite_body (node : PipelineNode) (ub : UserBlock) (stack : gset gostring)
    : result expand_error rawDefinition :=
  guard_err (negb (bool_decide (uName ub ∈ stack))) (CompositeCycle (uName ub));;?
  guard_err (size stack <? maxCompositeDepth)%nat (TooDeep (uName ub));;?
  let? src := mapErr Substitution (substitute (uSource ub) (nConfig node)) in
  let? inner := or_err (unmarshal src) DefNoParse in
  guard_err (negb (bool_decide (inner.1 = []))) (EmptyComposite (uName ub));;?
  checkInnerGraph (uName ub) inner.1 inner.2;;?
  mapErr (fun _ => InnerCycle (uName ub)) (topoOrder (as_pipeline inner));;?
  Ok inner.

(** The loop over the nodes of one level; [descend] is the recursive call. The
    last branch stands for the index expressions [expOrder[0]] of an empty
    order. *)
Fixpoint expand_nodes (descend : rawDefinition -> gset gostring -> result expand_error rawDefinition)
    (stack : gset gostring) (prefix : gostring) (nodes : list PipelineNode)
    (outConns : list Connection) (outNodes : list PipelineNode) (spliced : list Connection)
    : result expand_error rawDefinition :=
  match nodes with
  | [] => Ok (outNodes, outConns ++ spliced)
  | node :: nodes =>
      let? r := or_err (resolve (nBlockType node)) (ResolveFailed (nBlockType node)) in
      match r with
      | None => expand_nodes descend stack prefix nodes outConns (outNodes ++ [node]) spliced
      | Some ub =>
          let? inner := composite_body node ub stack in
          let sub := prefix ++ nName node ++ "."%go in
          let? (en, ec) := descend inner ({[uName ub]} ∪ stack) in
          let en := map (prefix_node sub) en in
          let ec := map (prefix_conn sub) ec in
          let? order := mapErr (fun _ => InnerCycle (uName ub)) (topoOrder (as_pipeline (en, ec))) in
          match head order, list.last order with
          | Some first, Some last =>
              expand_nodes descend stack prefix nodes (map (splice_conn (nName node) first last) outConns)
                (outNodes ++ en) (spliced ++ ec)
          | _, _ => Err (EmptyComposite (uName ub))
          end
      end
  end.

Fixpoint expandComposites (fuel : nat) (d : rawDefinition) (stack : gset gostring) (prefix : gostring)
    : result expand_error rawDefinition :=
  match fuel with
  | O => Err OutOfFuel
  | S fuel => expand_nodes (fun inner stack => expandComposites fuel inner stack []) stack prefix d.1 d.2 [] []
  end.

(** Below the top level the stack grows by one name, and it holds at most
    [maxCompositeDepth] when a level is entered. *)
Definition expand_fuel : nat := S maxCompositeDepth.

(** The result is the decoded form of the text [json.Marshal] writes. *)
Definition ExpandComposites (def : gostring) : result expand_error rawDefinition :=
  guard_err (negb (bool_decide (def = []))) EmptyDef;;?
  let? root := or_err (unmarshal def) DefNoParse in
  expandComposites expand_fuel root ∅ [].

End Expand.

(** ** Replacing a node by a graph *)

Definition dotfree (n : gostring) : Prop := "."%char ∉ n.

Lemma dot_split a b x y : dotfree a -> dotfree b -> a ++ "."%go ++ x = b ++ "."%go ++ y -> a = b.
Proof.
  intros Ha Hb E. pose proof (Strings.Cut_app a x "."%char Ha) as H1. pose proof (Strings.Cut_app b y "."%char Hb) as H2.
  change ("."%go ++ x) with ("."%char :: x) in E. change ("."%go ++ y) with ("."%char :: y) in E. congruence.
Qed.
Lemma dotted a x : ~ dotfree (a ++ "."%go ++ x).
Proof. unfold dotfree. set_solver. Qed.

Definition splice_name (n new x : gostring) : gostring := if decide (x = n) then new else x.
Lemma splice_conn_ends n first last c :
  cTo (splice_conn n first last c) = splice_name n first (cTo c) /\
  cFrom (splice_conn n first last c) = splice_name n last (cFrom c).
Proof.
  unfold splice_conn, splice_name. repeat case_bool_decide; simpl in *; repeat case_decide; done.
Qed.

(** Sorted orders by what stands before a name. *)
Lemma sorted_split cs order :
  sorted cs order <-> forall k1 v k2, order = k1 ++ v :: k2 -> forall u, edge cs u v -> u ∈ k1.
Proof.
  split.
  - intros Hs k1 v k2 -> u He. specialize (Hs (length k1) v (list_lookup_middle _ _ _ _ eq_refl) u He).
    by rewrite take_app_length in Hs.
  - intros H i v Hi u He. apply (H (take i order) v (drop (S i) order)); [|done]. symmetry. by apply take_drop_middle.
Qed.

Lemma middle_split {A} (l1 x l2 k1 : list A) v k2 :
  l1 ++ x ++ l2 = k1 ++ v :: k2 ->
  (exists r, l1 = k1 ++ v :: r) \/ (exists x1 x2, k1 = l1 ++ x1 /\ x = x1 ++ v :: x2) \/
  (exists r, k1 = l1 ++ x ++ r /\ l2 = r ++ v :: k2).
Proof.
  intros E. apply app_eq_inv in E as [(k & -> & E)|(k & -> & E)].
  - destruct k as [|y k]; simpl in E.
    + destruct x as [|y x]; simpl in E.
      * right. right. exists []. by rewrite !app_nil_r.
      * injection E as -> E. right. left. exists [], x. by rewrite !app_nil_r.
    + injection E as <- E. left. by exists k.
  - apply app_eq_inv in E as [(j & -> & E)|(j & -> & E)].
    + destruct j as [|y j]; simpl in E.
      * right. right. exists []. by rewrite !app_nil_r.
      * injection E as <- E. right. left. by exists k, j.
    + right. right. by exists j.
Qed.

Lemma splice_sorted cs cx l1 n l2 x first last :
  NoDup (l1 ++ n :: l2) -> sorted cs (l1 ++ n :: l2) -> sorted cx x ->
  (forall y, y ∈ x -> y ∉ l1 ++ n :: l2) -> first ∈ x -> last ∈ x ->
  Forall (fun c => cTo c ∈ l1 ++ n :: l2) cs -> Forall (fun c => cTo c ∈ x) cx ->
  sorted (map (splice_conn n first last) cs ++ cx) (l1 ++ x ++ l2).
Proof.
  intros Hnd Hs Hx Hdis Hf Hl Hcs Hcx. rewrite sorted_split in *.
  apply NoDup_app in Hnd as (_ & Hd1 & Hnd2). apply NoDup_cons in Hnd2 as [Hn2 _].
  intros k1 v k2 E u (c & [(c0 & -> & Hc)%list_elem_of_fmap|Hc]%elem_of_app & <- & Hv).
  - destruct (splice_conn_ends n first last c0) as [Ht ->]. rewrite Ht in Hv. clear Ht.
    assert (edge cs (cFrom c0) (cTo c0)) as He by (by exists c0). unfold splice_name in Hv |- *.
    pose proof (proj1 (Forall_forall _ _) Hcs c0 Hc) as Hto. cbv beta in Hto.
    destruct (middle_split _ _ _ _ _ _ E) as [(r & ->)|[(x1 & x2 & -> & ->)|(r & -> & ->)]].
    + assert (cTo c0 = v) as Hcv.
      { destruct (decide (cTo c0 = n)); [|done]. subst first. destruct (Hdis v Hf). set_solver. }
      rewrite Hcv in He. specialize (Hs k1 v (r ++ n :: l2)). rewrite <- app_assoc in Hs. specialize (Hs eq_refl _ He).
      rewrite decide_False; [done|]. intros Hn. rewrite Hn in Hs. destruct (Hd1 n); set_solver.
    + destruct (decide (cTo c0 = n)) as [Hn|Hn]; [|destruct (Hdis v); [set_solver|by subst v]].
      rewrite Hn in He. specialize (Hs l1 n l2 eq_refl _ He).
      rewrite decide_False by (intros Hu; rewrite Hu in Hs; destruct (Hd1 n); set_solver). set_solver.
    + assert (cTo c0 = v) as Hcv.
      { destruct (decide (cTo c0 = n)); [|done]. subst first. destruct (Hdis v Hf). set_solver. }
      rewrite Hcv in He. specialize (Hs (l1 ++ n :: r) v k2). rewrite <- app_assoc in Hs.
      specialize (Hs eq_refl _ He). destruct (decide (cFrom c0 = n)); set_solver.
  - pose proof (proj1 (Forall_forall _ _) Hcx c Hc) as Hto. cbv beta in Hto.
    assert (edge cx (cFrom c) v) as He by (by exists c). rewrite Hv in Hto.
    destruct (middle_split _ _ _ _ _ _ E) as [(r & ->)|[(x1 & x2 & -> & ->)|(r & -> & ->)]].
    + destruct (Hdis v Hto). set_solver.
    + specialize (Hx x1 v x2 eq_refl _ He). set_solver.
    + destruct (Hdis v Hto). set_solver.
Qed.

Lemma splice_level ns1 node ns2 cs en ec order first last :
  graph_ok (as_pipeline (ns1 ++ node :: ns2, cs)) -> acyclic cs ->
  graph_ok (as_pipeline (en, ec)) -> topoOrder (as_pipeline (en, ec)) = Ok order ->
  head order = Some first -> list.last order = Some last ->
  (forall y, y ∈ map nName en -> y ∉ map nName (ns1 ++ node :: ns2)) ->
  graph_ok (as_pipeline (ns1 ++ en ++ ns2, map (splice_conn (nName node) first last) cs ++ ec)) /\
  acyclic (map (splice_conn (nName node) first last) cs ++ ec).
Proof.
  intros Hg Hac Hge Horder Hfirst Hlast Hdis.
  destruct (topo_order_spec _ Hge) as (Ho & _ & _). destruct (Ho order Horder) as [Hp Hs]. clear Ho.
  destruct (topo_order_spec _ Hg) as (Ho & Hex & _). destruct (proj2 Hex Hac) as [o0 Ho0].
  destruct (Ho o0 Ho0) as [Hp0 Hs0]. destruct Hg as [Hnd Hne Hend], Hge as [Hnde Hnee Hende].
  unfold block_names in *. cbn [as_pipeline pBlocks pConnections fst snd] in *. rewrite !map_app in *. cbn [map] in *.
  assert (nName node ∈ o0) as (l1 & l2 & ->)%list_elem_of_split by (rewrite Hp0; set_solver).
  assert (l1 ++ l2 ≡ₚ map nName ns1 ++ map nName ns2) as Hp12.
  { rewrite <- !Permutation_middle in Hp0. by apply Permutation_cons_inv in Hp0. }
  assert (l1 ++ order ++ l2 ≡ₚ map nName ns1 ++ map nName en ++ map nName ns2) as Hp'.
  { rewrite Hp, !(Permutation_app_swap_app _ (map nName en)). by rewrite Hp12. }
  assert (NoDup (map nName ns1 ++ map nName en ++ map nName ns2)) as Hnd'.
  { rewrite (Permutation_app_swap_app _ (map nName en)). apply NoDup_app. split_and!; [done|set_solver|].
    rewrite <- Permutation_middle in Hnd. by apply NoDup_cons in Hnd as [_ ?]. }
  assert (Forall (fun c => cFrom c ∈ map nName ns1 ++ map nName en ++ map nName ns2 /\
      cTo c ∈ map nName ns1 ++ map nName en ++ map nName ns2)
    (map (splice_conn (nName node) first last) cs ++ ec)) as Hends.
  { assert (first ∈ map nName en) as Hfi by (rewrite <- Hp; by apply head_Some_elem_of).
    assert (last ∈ map nName en) as Hla by (rewrite <- Hp; by apply last_Some_elem_of).
    apply Forall_app. split.
    - apply Forall_forall. intros c (c0 & -> & Hc)%list_elem_of_fmap.
      destruct (splice_conn_ends (nName node) first last c0) as [-> ->].
      destruct (proj1 (Forall_forall _ _) Hend c0 Hc) as [Hcf Hct]. unfold splice_name. repeat case_decide; set_solver.
    - eapply Forall_impl; [exact Hende|]. set_solver. }
  split; [split; [|set_solver|]|].
  - unfold block_names. cbn [as_pipeline pBlocks fst]. by rewrite !map_app.
  - unfold block_names. cbn [as_pipeline pBlocks pConnections fst snd]. by rewrite !map_app.
  - apply (sorted_acyclic _ (l1 ++ order ++ l2)); [by rewrite Hp'| |].
    + apply splice_sorted; [by rewrite Hp0|done|done| | | | |].
      * intros y. rewrite Hp, Hp0. apply Hdis.
      * by apply head_Some_elem_of.
      * by apply last_Some_elem_of.
      * eapply Forall_impl; [exact Hend|]. intros c [_ Hc]. by rewrite Hp0.
      * eapply Forall_impl; [exact Hende|]. intros c [_ Hc]. by rewrite Hp.
    + eapply Forall_impl; [exact Hends|]. intros c [_ Hc]. by rewrite Hp'.
Qed.

(** ** The checks on a composite's body *)

Lemma inner_names_spec composite names bs r :
  inner_names composite names bs = Ok r <-> check_names names bs = Ok r.
Proof.
  revert names. induction bs as [|b bs IH]; intros names; simpl; [split; by intros [= <-]|].
  repeat case_bool_decide; try done.
Qed.
Lemma inner_connections_spec composite names cs :
  inner_connections composite names cs = Ok () <-> Forall (fun c => cFrom c ∈ names /\ cTo c ∈ names) cs.
Proof.
  induction cs as [|c cs IH]; simpl; [done|]. rewrite Forall_cons, <- IH. repeat case_bool_decide; simpl; naive_solver.
Qed.
Lemma checkInnerGraph_ok composite d :
  checkInnerGraph composite d.1 d.2 = Ok () -> graph_ok (as_pipeline d).
Proof.
  unfold checkInnerGraph. intros H. apply bindR_Ok in H as (names & Hn & Hc).
  apply inner_names_spec, check_names_spec in Hn as (H1 & H2 & _ & ->). apply inner_connections_spec in Hc.
  split; [done..|]. eapply Forall_impl; [exact Hc|]. intros c. cbv beta. rewrite (right_id_L ∅ (∪)), !elem_of_list_to_set. done.
Qed.

Lemma prefix_ok sub d : sub <> [] -> graph_ok (as_pipeline d) ->
  graph_ok (as_pipeline (map (prefix_node sub) d.1, map (prefix_conn sub) d.2)).
Proof.
  intros Hsub [H1 H2 H3]. unfold block_names in *. cbn [as_pipeline pBlocks pConnections fst snd] in *.
  assert (map nName (map (prefix_node sub) d.1) = map (app sub) (map nName d.1)) as E.
  { rewrite !map_map. by apply map_ext. }
  split; unfold block_names; cbn [as_pipeline pBlocks pConnections fst snd]; rewrite E.
  - apply NoDup_fmap_2; [intros x y; apply app_inv_head|done].
  - intros (x & Hx & _)%list_elem_of_fmap. by destruct sub.
  - apply Forall_map. eapply Forall_impl; [exact H3|]. intros c [Hf Ht]. simpl. split; by apply list_elem_of_fmap_2.
Qed.

Section Sound.
Variable resolve : gostring -> option (option UserBlock).
Variable substitute : gostring -> config -> result subst_error gostring.
Variable unmarshal : gostring -> option rawDefinition.

(** The block names of the composites' bodies hold no dot. *)
Hypothesis bodies_dotfree : forall t ub cfg src inner,
  resolve t = Some (Some ub) -> substitute (uSource ub) cfg = Ok src -> unmarshal src = Some inner ->
  Forall (fun b => dotfree (nName b)) inner.1.

Definition builtin (b : PipelineNode) : Prop := resolve (nBlockType b) = Some None.

Record flat (d : rawDefinition) : Prop := {
  fl_graph : graph_ok (as_pipeline d);
  fl_acyclic : acyclic d.2;
  fl_builtin : Forall builtin d.1;
  fl_nonempty : d.1 <> [] }.

Lemma composite_body_spec node ub stack inner :
  composite_body substitute unmarshal node ub stack = Ok inner ->
  uName ub ∉ stack /\ size stack < maxCompositeDepth /\ inner.1 <> [] /\
  graph_ok (as_pipeline inner) /\ acyclic inner.2 /\
  exists src, substitute (uSource ub) (nConfig node) = Ok src /\ unmarshal src = Some inner.
Proof.
  unfold composite_body. intros H. apply bindR_Ok in H as (? & H1 & H). apply bindR_Ok in H as (? & H2 & H).
  apply bindR_Ok in H as (src & H3 & H). apply bindR_Ok in H as (inner' & H4 & H). apply bindR_Ok in H as (? & H5 & H).
  apply bindR_Ok in H as ([] & H6%checkInnerGraph_ok & H). apply bindR_Ok in H as (order & H7 & [= <-]).
  apply guard_err_Ok in H1, H2, H5. apply mapErr_Ok in H3, H7. apply or_err_Ok in H4. bool_hyps.
  split_and!; try done; [|by exists src]. destruct (topo_order_spec _ H6) as (_ & Hex & _). apply Hex. by exists order.
Qed.

(** What the loop keeps: the nodes done and those to come form a graph. *)
Record loop_ok (todo outNodes : list PipelineNode) (outConns spliced : list Connection) : Prop := {
  lo_graph : graph_ok (as_pipeline (outNodes ++ todo, outConns ++ spliced));
  lo_acyclic : acyclic (outConns ++ spliced);
  lo_builtin : Forall builtin outNodes;
  lo_todo : Forall (fun b => dotfree (nName b)) todo;
  lo_names x : x ∈ map nName outNodes -> dotfree x \/
    exists d y, dotfree d /\ d ∉ map nName todo /\ x = d ++ "."%go ++ y;
  lo_spliced : Forall (fun c => ~ dotfree (cFrom c) /\ ~ dotfree (cTo c)) spliced }.

Lemma loop_builtin b todo outNodes outConns spliced :
  builtin b -> loop_ok (b :: todo) outNodes outConns spliced -> loop_ok todo (outNodes ++ [b]) outConns spliced.
Proof.
  intros Hb [H1 H2 H3 H4 H5 H6]. apply Forall_cons in H4 as [Hd H4]. split; try done.
  - by rewrite <- app_assoc.
  - apply Forall_app. auto.
  - rewrite map_app. intros x [Hx|Hx%list_elem_of_singleton]%elem_of_app; [|left; by rewrite Hx].
    destruct (H5 x Hx) as [?|(d & y & Hdd & Hn & ->)]; [by left|]. right. exists d, y. split_and!; [done| |done]. set_solver.
Qed.

Lemma splice_dotted n first last cs : dotfree n ->
  Forall (fun c => ~ dotfree (cFrom c) /\ ~ dotfree (cTo c)) cs -> map (splice_conn n first last) cs = cs.
Proof.
  intros Hn. induction 1 as [|c cs [Hf Ht] _ IH]; [done|]. simpl. rewrite IH. f_equal. destruct c as [f fp t tp].
  simpl in Hf, Ht. assert (t <> n) as Htn by (intros ->; by apply Ht). assert (f <> n) as Hfn by (intros ->; by apply Hf).
  unfold splice_conn. cbn [cTo]. rewrite (bool_decide_eq_false_2 (t = n)) by done. cbn [cFrom].
  by rewrite (bool_decide_eq_false_2 (f = n)) by done.
Qed.

Lemma loop_composite b todo outNodes outConns spliced d order first last :
  let sub := nName b ++ "."%go in
  let en := map (prefix_node sub) d.1 in
  let ec := map (prefix_conn sub) d.2 in
  flat d -> topoOrder (as_pipeline (en, ec)) = Ok order -> head order = Some first -> list.last order = Some last ->
  loop_ok (b :: todo) outNodes outConns spliced ->
  loop_ok todo (outNodes ++ en) (map (splice_conn (nName b) first last) outConns) (spliced ++ ec).
Proof.
  intros sub en ec [Hg _ Hbu _] Ho Hf Hl [H1 H2 H3 H4 H5 H6]. apply Forall_cons in H4 as [Hd H4].
  assert (sub <> []) as Hsub by (unfold sub; by destruct (nName b)).
  assert (forall x, x ∈ map nName en -> exists y, x = nName b ++ "."%go ++ y) as Hen.
  { intros x (z & -> & (w & -> & _)%list_elem_of_fmap)%list_elem_of_fmap. exists (nName w). simpl. unfold sub. by rewrite <- app_assoc. }
  assert (NoDup (map nName (outNodes ++ b :: todo))) as Hnd by (by destruct H1).
  rewrite map_app in Hnd. apply NoDup_app in Hnd as (_ & Hdis & Hnd). apply NoDup_cons in Hnd as [Hbt _].
  pose proof (splice_level outNodes b todo (outConns ++ spliced) en ec order first last H1 H2
    (prefix_ok sub d Hsub Hg) Ho Hf Hl) as Hsp.
  rewrite (map_app (splice_conn (nName b) first last)), (splice_dotted _ _ _ spliced Hd H6), <- app_assoc in Hsp. destruct Hsp as [Hsg Hsa].
  { intros y Hy. destruct (Hen y Hy) as [z ->]. rewrite map_app. cbn [map].
    intros [Hin|[Hin|Hin]%elem_of_cons]%elem_of_app.
    - destruct (H5 _ Hin) as [Hdf|(d' & y' & Hdd & Hn & E)]; [by apply dotted in Hdf|].
      apply dot_split in E; [|done..]. subst d'. apply Hn. left.
    - apply (dotted (nName b) z). by rewrite Hin.
    - apply (dotted (nName b) z). apply list_elem_of_fmap in Hin as (w & -> & Hw).
      by apply (proj1 (Forall_forall _ _) H4 w). }
  split; try done.
  - by rewrite <- app_assoc.
  - apply Forall_app. split; [done|]. apply Forall_map. eapply Forall_impl; [exact Hbu|]. done.
  - rewrite map_app. intros x [Hx|Hx]%elem_of_app.
    + destruct (H5 x Hx) as [?|(d' & y & Hdd & Hn & ->)]; [by left|]. right. exists d', y. set_solver.
    + destruct (Hen x Hx) as [y ->]. right. by exists (nName b), y.
  - apply Forall_app. split; [done|]. apply Forall_map, Forall_forall. intros c _. simpl. unfold sub.
    rewrite <- !app_assoc. split; apply dotted.
Qed.

Lemma expand_nodes_flat descend stack todo outNodes outConns spliced r :
  (forall inner stack d, graph_ok (as_pipeline inner) -> acyclic inner.2 -> inner.1 <> [] ->
     Forall (fun b => dotfree (nName b)) inner.1 -> descend inner stack = Ok d -> flat d) ->
  loop_ok todo outNodes outConns spliced -> outNodes ++ todo <> [] ->
  expand_nodes resolve substitute unmarshal descend stack [] todo outConns outNodes spliced = Ok r -> flat r.
Proof.
  intros Hdesc. revert outNodes outConns spliced.
  induction todo as [|b todo IH]; intros outNodes outConns spliced Hok Hne; cbn [expand_nodes].
  { intros [= <-]. rewrite app_nil_r in Hne. destruct Hok as [H1 H2 H3 _ _ _]. rewrite app_nil_r in H1. by split. }
  destruct (resolve (nBlockType b)) as [[ub|]|] eqn:Er; cbn [or_err bindR]; [| |done].
  2: { apply IH; [by apply loop_builtin|]. by destruct outNodes. }
  intros H. apply bindR_Ok in H as (inner & Hin & H). apply bindR_Ok in H as ((en & ec) & Hd & H).
  apply bindR_Ok in H as (order & Ho%mapErr_Ok & H).
  destruct (composite_body_spec _ _ _ _ Hin) as (_ & _ & Hi & Hg & Hac & src & Hsub & Hun).
  assert (flat (en, ec)) as Hflat by (eapply Hdesc; eauto).
  destruct (head order) as [first|] eqn:Ef; [|done]. destruct (list.last order) as [last|] eqn:El; [|done].
  eapply IH; [| |exact H].
  - by apply (loop_composite b todo outNodes outConns spliced (en, ec) order first last).
  - pose proof (fl_nonempty _ Hflat) as Hnn. simpl in Hnn. destruct outNodes, en; done.
Qed.

Lemma expandComposites_flat fuel d stack r :
  graph_ok (as_pipeline d) -> acyclic d.2 -> d.1 <> [] -> Forall (fun b => dotfree (nName b)) d.1 ->
  expandComposites resolve substitute unmarshal fuel d stack [] = Ok r -> flat r.
Proof.
  revert d stack r. induction fuel as [|fuel IH]; intros d stack r Hg Hac Hne Hdot; [done|]. cbn [expandComposites].
  apply expand_nodes_flat; [intros inner st d' H1 H2 H3 H4; by apply (IH inner st d')| |done].
  destruct d as [ns cs]. simpl in *. split; cbn [app]; rewrite ?app_nil_r; try done. intros x Hx. by apply elem_of_nil in Hx.
Qed.

End Sound.

Section Fuel.
Variable resolve : gostring -> option (option UserBlock).
Variable substitute : gostring -> config -> result subst_error gostring.
Variable unmarshal : gostring -> option rawDefinition.

Lemma checkInnerGraph_fuel composite bs cs : checkInnerGraph composite bs cs <> Err OutOfFuel.
Proof.
  unfold checkInnerGraph. intros H. apply bindR_Err in H as [H|(names & _ & H)].
  - revert H. generalize (∅ : gset gostring). induction bs as [|b bs IH]; intros s; simpl; [done|].
    repeat case_bool_decide; try done; apply IH.
  - induction cs as [|c cs IH]; simpl in H; [done|]. repeat case_bool_decide; simpl in H; auto; done.
Qed.
Lemma composite_body_fuel node ub stack : composite_body substitute unmarshal node ub stack <> Err OutOfFuel.
Proof.
  unfold composite_body. case_bool_decide; simpl; [done|]. destruct (_ <? _)%nat; simpl; [|done].
  destruct (substitute _ _); simpl; [|done]. destruct (unmarshal _) as [inner|]; simpl; [|done].
  case_bool_decide; simpl; [done|]. destruct (checkInnerGraph _ _ _) as [[]|e] eqn:E; simpl.
  - by destruct (topoOrder _).
  - intros [= ->]. by apply checkInnerGraph_fuel in E.
Qed.

Lemma expandComposites_fuel fuel d stack prefix :
  maxCompositeDepth < fuel + size stack ->
  size stack <= maxCompositeDepth -> expandComposites resolve substitute unmarshal fuel d stack prefix <> Err OutOfFuel.
Proof.
  revert d stack prefix. induction fuel as [|fuel IH]; intros d stack prefix Hf Hs; [lia|]. cbn [expandComposites].
  generalize (d.2) as outConns, ([] : list PipelineNode) as outNodes, ([] : list Connection) as spliced.
  induction (d.1) as [|b todo IHt]; intros outConns outNodes spliced; cbn [expand_nodes]; [done|].
  destruct (resolve (nBlockType b)) as [[ub|]|]; cbn [or_err bindR]; [|apply IHt|done].
  destruct (composite_body _ _ b ub stack) as [inner|e] eqn:Eb; cbn [bindR];
    [|intros [= ->]; by apply composite_body_fuel in Eb].
  apply composite_body_spec in Eb as (Hn & Hlt & _).
  assert (size ({[uName ub]} ∪ stack) = S (size stack)) as Hsz by (rewrite size_union, size_singleton; [lia|set_solver]).
  destruct (expandComposites _ _ _ fuel inner _ []) as [[en ec]|e] eqn:Ee; cbn [bindR];
    [|intros [= ->]; by apply IH in Ee; [|lia..]].
  destruct (topoOrder _) as [order|e]; cbn [mapErr bindR]; [|done].
  destruct (head order), (list.last order); try done; apply IHt.
Qed.

End Fuel.

(** No composite is left, whatever the graph looks like. *)
Lemma expandComposites_builtin resolve substitute unmarshal fuel d stack prefix r :
  expandComposites resolve substitute unmarshal fuel d stack prefix = Ok r -> Forall (builtin resolve) r.1.
Proof.
  revert d stack prefix r. induction fuel as [|fuel IH]; intros d stack prefix r; [done|]. cbn [expandComposites].
  generalize (d.2) as outConns, ([] : list Connection) as spliced.
  assert (Forall (builtin resolve) []) as H0 by constructor. revert H0. generalize ([] : list PipelineNode) as outNodes.
  induction (d.1) as [|b todo IHt]; intros outNodes H0 outConns spliced; cbn [expand_nodes]; [by intros [= <-]|].
  destruct (resolve (nBlockType b)) as [[ub|]|] eqn:Er; cbn [or_err bindR]; [| |done].
  2: { apply IHt, Forall_app. by repeat constructor. }
  intros H. apply bindR_Ok in H as (inner & _ & H). apply bindR_Ok in H as ((en & ec) & Hd & H).
  apply bindR_Ok in H as (order & _ & H). destruct (head order), (list.last order); try done.
  apply IHt in H; [done|]. apply Forall_app. split; [done|]. apply Forall_map. by apply IH in Hd.
Qed.

(** A valid pipeline stays valid when its composite blocks are inlined: the
    expansion always comes to an end; when it succeeds, no composite is left,
    names are still distinct, and splicing a composite's body between the
    neighbours of its node creates no cycle. Block names hold no dot here: the
    dot is what the expansion composes names with. *)
Theorem expansion_keeps_validity resolve substitute unmarshal def d id name :
  def <> [] -> unmarshal def = Some d -> Validate (MkPipeline id name d.1 d.2) = Ok () ->
  Forall (fun b => dotfree (nName b)) d.1 ->
  (forall t ub cfg src inner, resolve t = Some (Some ub) -> substitute (uSource ub) cfg = Ok src ->
     unmarshal src = Some inner -> Forall (fun b => dotfree (nName b)) inner.1) ->
  match ExpandComposites resolve substitute unmarshal def with
  | Ok r => Validate (MkPipeline id name r.1 r.2) = Ok () /\ Forall (builtin resolve) r.1
  | Err e => e <> OutOfFuel
  end.
Proof.
  intros Hdef Hun Hval Hdot Hbodies. unfold ExpandComposites. rewrite bool_decide_eq_false_2 by done. rewrite Hun.
  cbn [negb guard_err bindR or_err]. apply (proj1 (validate_spec _)) in Hval as (Hid & Hne & [Hg1 Hg2 Hg3] & Hac).
  destruct (expandComposites resolve substitute unmarshal expand_fuel d ∅ []) as [r|e] eqn:E.
  - assert (flat resolve r) as [[H1 H2 H3] Ha Hb Hn]
      by (eapply (expandComposites_flat resolve substitute unmarshal Hbodies expand_fuel d ∅ r); [by split|done..]).
    split; [|done]. apply (proj1 (validate_spec _)). by split_and!.
  - intros ->. apply expandComposites_fuel in E; [done|unfold expand_fuel; lia|rewrite size_empty; lia].
Qed.

(** ** Examples *)

Definition pass_through (s : gostring) (_ : config) : result subst_error gostring := Ok s.
Definition toy_resolve (t : gostring) : option (option UserBlock) :=
  if decide (t = "pair"%go) then Some (Some (MkUserBlock "pair"%go "body"%go)) else Some None.
Definition pair_body : rawDefinition :=
  ([sample_node "in"%go; sample_node "out"%go], [sample_edge "in"%go "out"%go]).
Definition outer_body (third : gostring) : rawDefinition :=
  ([sample_node "s"%go; MkNode "c"%go "pair"%go ∅; sample_node third],
   [sample_edge "s"%go "c"%go; sample_edge "c"%go third]).
Definition toy_unmarshal (third s : gostring) : option rawDefinition :=
  if decide (s = "body"%go) then Some pair_body else if decide (s = "outer"%go) then Some (outer_body third) else None.

Lemma toy_bodies t ub cfg src inner :
  toy_resolve t = Some (Some ub) -> pass_through (uSource ub) cfg = Ok src -> toy_unmarshal "t"%go src = Some inner ->
  Forall (fun b => dotfree (nName b)) inner.1.
Proof.
  unfold toy_resolve. case_decide; [|done]. intros [= <-] [= <-] [= <-]. repeat constructor; apply (bool_decide_unpack _); exact I.
Qed.

Lemma expansion_keeps_validity_witness :
  exists r, ExpandComposites toy_resolve pass_through (toy_unmarshal "t"%go) "outer"%go = Ok r /\
    map nName r.1 = ["s"%go; "c.in"%go; "c.out"%go; "t"%go] /\ Validate (MkPipeline "p"%go [] r.1 r.2) = Ok ().
Proof.
  pose proof (expansion_keeps_validity toy_resolve pass_through (toy_unmarshal "t"%go) "outer"%go (outer_body "t"%go)
    "p"%go [] ltac:(discriminate) ltac:(reflexivity) ltac:(vm_compute; reflexivity)
    ltac:(repeat constructor; apply (bool_decide_unpack _); exact I) toy_bodies) as H.
  destruct (ExpandComposites _ _ _ _) as [r|e] eqn:E.
  - exists r. split; [reflexivity|]. split; [|apply H]. vm_compute in E. by injection E as <-.
  - vm_compute in E. discriminate E.
Defined.

(** Without the hypothesis on names: a block named like a part of a composite. *)
Example dotted_name_collides :
  Validate (MkPipeline "p"%go [] (outer_body "c.in"%go).1 (outer_body "c.in"%go).2) = Ok () /\
  exists r, ExpandComposites toy_resolve pass_through (toy_unmarshal "c.in"%go) "outer"%go = Ok r /\
    Validate (MkPipeline "p"%go [] r.1 r.2) = Err (DuplicateName "c.in"%go).
Proof. split; [vm_compute; reflexivity|]. eexists. split; vm_compute; reflexivity. Qed.

End FlowCompose.
