(* ===== verification/FlowMessage.v ===== *)
(** * Flow messages on the wire

    [internal/flow/message.go]: the JSON form of a message. The model works on
    the JSON tree; [encoding/json]'s number, base64 and text layers are the
    class [JSONText], and times in [RFC3339Nano] the class [FlowTime]. *)

From S2P Require Import Prelude GoStrings Float64 PayloadValue PayloadJson Rows.

Module FlowMessage.
Import Payload Json Rows.

Definition WireSchema : gostring := "astarte_flow/message/v0.1"%go.

Inductive DataType := TypeInteger | TypeReal | TypeBoolean | TypeDatetime | TypeBinary | TypeString | TypeMap.
#[global] Instance DataType_eq_dec : EqDecision DataType.
Proof. solve_decision. Defined.

Definition dataTypeString (dt : DataType) : gostring :=
  match dt with
  | TypeInteger => "integer"%go | TypeReal => "real"%go | TypeBoolean => "boolean"%go
  | TypeDatetime => "datetime"%go | TypeBinary => "binary"%go | TypeString => "string"%go | TypeMap => "map"%go
  end.
Definition parseDataType (s : gostring) : option DataType :=
  if decide (s = "integer"%go) then Some TypeInteger
  else if decide (s = "real"%go) then Some TypeReal
  else if decide (s = "boolean"%go) then Some TypeBoolean
  else if decide (s = "datetime"%go) then Some TypeDatetime
  else if decide (s = "binary"%go) then Some TypeBinary
  else if decide (s = "string"%go) then Some TypeString
  else None.

(** The payload, a Go value of type [any]. *)
Inductive datum :=
| DNil
| DInt (i : Z)
| DReal (f : Z)
| DBool (b : bool)
| DTime (ns : Z)
| DBytes (b : gostring)
| DStr (s : gostring)
| DArr (xs : list datum)
| DMap (m : gmap gostring datum).

Record Message := MkMsg {
  Key : gostring;
  Metadata : gmap gostring gostring;
  Type_ : DataType;
  Subtype : gostring;
  Timestamp : Z;
  Data : datum;
  FieldTypes : gmap gostring DataType;
  FieldSubtypes : gmap gostring gostring }.

(** The JSON document, member by member; a [nil] map and an empty one are both
    omitted. *)
Record wireMessage := MkWire {
  wSchema : gostring;
  wKey : gostring;
  wType : jtoken;
  wSubtype : option jtoken;
  wData : jtoken;
  wMetadata : gmap gostring gostring;
  wTimestampUs : Z }.

Class FlowTime := { FormatNano : Z -> gostring; ParseNano : gostring -> option Z }.

Inductive message_error := BadJSON | BadSchema | BadType | BadFieldType | BadFieldSubtype | BadData.

Section Wire.
Context `{JSONText, FlowTime}.

(** ** Encoding *)

(** How [json.Marshal] writes a payload value. *)
Fixpoint any_of (d : datum) : jany :=
  match d with
  | DNil => AnyNil
  | DInt i => AnyInt i
  | DReal f => AnyFloat f
  | DBool b => AnyBool b
  | DTime t => AnyString (FormatNano t)
  | DBytes b => AnyString (EncodeBase64 b)
  | DStr s => AnyString s
  | DArr xs => AnySlice (map any_of xs)
  | DMap m => AnyMap (any_of <$> m)
  end.

Definition dataWireScalar (m : Message) : jany :=
  match Type_ m, Data m with
  | TypeBinary, DBytes b => AnyString (EncodeBase64 b)
  | TypeDatetime, DTime t => AnyString (FormatNano t)
  | _, d => any_of d
  end.

Definition field_wire (m : Message) (k : gostring) (v : datum) : jany :=
  match default TypeInteger (FieldTypes m !! k), v with
  | TypeBinary, DBytes b => AnyString (EncodeBase64 b)
  | TypeDatetime, DTime t => AnyString (FormatNano t)
  | _, v => any_of v
  end.
Definition dataWireMap (m : Message) : jany :=
  match Data m with
  | DMap raw => AnyMap (map_imap (fun k v => Some (field_wire m k v)) raw)
  | d => any_of d
  end.

Definition string_map (m : gmap gostring gostring) : jtoken := JObj (JStr <$> m).
Definition fieldTypesWire (m : Message) : jtoken := string_map (dataTypeString <$> FieldTypes m).
Definition fieldSubtypesWire (m : Message) : option jtoken :=
  if bool_decide (FieldSubtypes m = ∅) then None else Some (string_map (FieldSubtypes m)).

Definition MarshalJSON (m : Message) : option wireMessage :=
  let wire t st d := MkWire WireSchema (Key m) t st d (Metadata m) (Timestamp m) in
  match Type_ m with
  | TypeMap => wire (fieldTypesWire m) (fieldSubtypesWire m) <$> Marshal (dataWireMap m)
  | dt => wire (JStr (dataTypeString dt)) (if bool_decide (Subtype m = []) then None else Some (JStr (Subtype m)))
            <$> Marshal (dataWireScalar m)
  end.

(** ** Decoding *)

(** [int64(v)]; outside the range the result is the one of the amd64 port. *)
Definition int64_of_float (f : Z) : Z :=
  let t := Float64.trunc f in
  if (int64_min <=? t)%Z && (t <=? int64_max)%Z then t else int64_min.

(** The values [json.Unmarshal] into [any] gives; numbers are float64, so the
    [json.Number] cases of the source do not arise. *)
Fixpoint datum_of (g : generic) : datum :=
  match g with
  | GNull => DNil
  | GBool b => DBool b
  | GNum f => DReal f
  | GStr s => DStr s
  | GArr xs => DArr (map datum_of xs)
  | GMap m => DMap (datum_of <$> m)
  end.

Definition setDataFromWire (dt : DataType) (raw : generic) : result message_error datum :=
  match dt, raw with
  | TypeInteger, GNum v => Ok (DInt (int64_of_float v))
  | TypeReal, GNum v => Ok (DReal v)
  | TypeBoolean, GBool b => Ok (DBool b)
  | TypeDatetime, GStr s => let? t := or_err (ParseNano s) BadData in Ok (DTime t)
  | TypeBinary, GStr s => let? b := or_err (DecodeBase64 s) BadData in Ok (DBytes b)
  | TypeString, GStr s => Ok (DStr s)
  | _, _ => Err BadData
  end.

(** A pass over a Go map that stops at the first error. *)
Definition ok_of {E A} (r : result E A) : option A := match r with Ok a => Some a | Err _ => None end.
Definition err_of {E A} (r : result E A) : option E := match r with Ok _ => None | Err e => Some e end.
Definition map_result {E A} (m : gmap gostring (result E A)) : result E (gmap gostring A) :=
  match omap (fun x => err_of x.2) (map_to_list m) with
  | [] => Ok (omap ok_of m)
  | e :: _ => Err e
  end.

Definition field_data (ft : gmap gostring DataType) (k : gostring) (v : generic) : result message_error datum :=
  match default TypeInteger (ft !! k) with
  | TypeBinary => match v with GStr s => let? b := or_err (DecodeBase64 s) BadData in Ok (DBytes b) | _ => Err BadData end
  | TypeDatetime => match v with GStr s => let? t := or_err (ParseNano s) BadData in Ok (DTime t) | _ => Err BadData end
  | _ => Ok (datum_of v)
  end.
Definition setDataFromWireMap (ft : gmap gostring DataType) (raw : generic) : result message_error datum :=
  match raw with
  | GMap rm => let? m := map_result (map_imap (fun k v => Some (field_data ft k v)) rm) in Ok (DMap m)
  | _ => Err BadData
  end.

Definition field_type (v : generic) : result message_error DataType :=
  match v with GStr s => or_err (parseDataType s) BadFieldType | _ => Err BadFieldType end.
Definition field_subtype (v : generic) : result message_error gostring :=
  match v with GStr s => Ok s | _ => Err BadFieldSubtype end.

(** [UnmarshalJSON] into a zero message. *)
Definition UnmarshalJSON (w : wireMessage) : result message_error Message :=
  let? type_ := or_err (Unmarshal (wType w)) BadJSON in
  let? subtype := match wSubtype w with
                  | None => Ok GNull
                  | Some t => or_err (Unmarshal t) BadJSON
                  end in
  let? data := or_err (Unmarshal (wData w)) BadJSON in
  guard_err (bool_decide (wSchema w = WireSchema)) BadSchema;;?
  match type_ with
  | GStr t =>
      let? dt := or_err (parseDataType t) BadType in
      let? d := setDataFromWire dt data in
      Ok (MkMsg (wKey w) (wMetadata w) dt (match subtype with GStr s => s | _ => [] end) (wTimestampUs w) d ∅ ∅)
  | GMap t =>
      let? ft := map_result (field_type <$> t) in
      let? fs := match subtype with GMap sm => map_result (field_subtype <$> sm) | _ => Ok ∅ end in
      let? d := setDataFromWireMap ft data in
      Ok (MkMsg (wKey w) (wMetadata w) TypeMap [] (wTimestampUs w) d ft fs)
  | _ => Err BadType
  end.

End Wire.

(** ** Round trip *)

Class FlowTimeLaws `{FlowTime} := {
  nano_text t : (MinDateTime <= t <= MaxDateTime)%Z -> ParseNano (FormatNano t) = Some t }.

(** A payload of the declared type; integers within what a float64 holds
    exactly, the form numbers take on the way. *)
Definition typed (dt : DataType) (d : datum) : Prop :=
  match dt, d with
  | TypeInteger, DInt i => (Z.abs i <= maxSafeInt)%Z
  | TypeReal, DReal f => Float64.finite f = true
  | TypeBoolean, DBool _ | TypeBinary, DBytes _ | TypeString, DStr _ => True
  | TypeDatetime, DTime t => (MinDateTime <= t <= MaxDateTime)%Z
  | _, _ => False
  end.

Definition well_typed (m : Message) : Prop :=
  match Type_ m with
  | TypeMap => Subtype m = [] /\ exists fields, Data m = DMap fields /\ dom fields = dom (FieldTypes m) /\
      forall k dt d, FieldTypes m !! k = Some dt -> fields !! k = Some d -> typed dt d
  | dt => FieldTypes m = ∅ /\ FieldSubtypes m = ∅ /\ typed dt (Data m)
  end.

(** What comes back: the integer fields of a map message are float64. *)
Definition field_back (d : datum) : datum := match d with DInt i => DReal (Float64.of_int i) | d => d end.
Definition received (m : Message) : Message :=
  match Type_ m, Data m with
  | TypeMap, DMap fields =>
      MkMsg (Key m) (Metadata m) TypeMap (Subtype m) (Timestamp m) (DMap (field_back <$> fields)) (FieldTypes m) (FieldSubtypes m)
  | _, _ => m
  end.

Lemma collect_map_eq {A} (m : gmap gostring (option A)) (n : gmap gostring A) :
  (forall k, m !! k = Some <$> n !! k) -> collect_map m = Some n.
Proof.
  intros Hm. unfold collect_map. rewrite bool_decide_eq_true_2.
  - f_equal. apply map_eq. intros k. rewrite lookup_omap, Hm. by destruct (n !! k).
  - intros k x. rewrite Hm. destruct (n !! k); [intros [= <-]; by eexists|done].
Qed.
Lemma map_result_fmap {E A : Type} (n : gmap gostring A) : map_result (@Ok E A <$> n) = Ok n.
Proof.
  unfold map_result. rewrite map_to_list_fmap.
  assert (forall l : list (gostring * A), omap (fun x => err_of x.2) (prod_map id (@Ok E A) <$> l) = []) as ->.
  { induction l as [|x l IH]; [done|]. simpl. exact IH. }
  f_equal. apply map_eq. intros k. rewrite lookup_omap, lookup_fmap. by destruct (n !! k).
Qed.

Lemma parseDataType_string dt : dt <> TypeMap -> parseDataType (dataTypeString dt) = Some dt.
Proof. by destruct dt. Qed.

Section RoundTrip.
Context `{!JSONText, !JSONTextLaws, !JSONNumberLaws, !FlowTime, !FlowTimeLaws}.

Definition wire_token (d : datum) : jtoken :=
  match d with
  | DInt i => JNum (Strconv.Itoa i) | DReal f => JNum (FormatFloat f) | DBool b => JBool b
  | DTime t => JStr (FormatNano t) | DBytes b => JStr (EncodeBase64 b) | DStr s => JStr s | _ => JNull
  end.
Definition wire_generic (d : datum) : generic :=
  match d with
  | DInt i => GNum (Float64.of_int i) | DReal f => GNum f | DBool b => GBool b
  | DTime t => GStr (FormatNano t) | DBytes b => GStr (EncodeBase64 b) | DStr s => GStr s | _ => GNull
  end.

Lemma int64_back i : (Z.abs i <= maxSafeInt)%Z -> int64_of_float (Float64.of_int i) = i.
Proof.
  unfold maxSafeInt. intros Hi. unfold int64_of_float.
  rewrite (proj2 (proj2 (proj2 (proj2 (Float64.of_int_spec i ltac:(lia)))))) by (apply Float64.representable_small; lia).
  unfold int64_min, int64_max. rewrite (proj2 (Z.leb_le _ _)), (proj2 (Z.leb_le _ _)) by lia. done.
Qed.

Lemma scalar_wire dt d : typed dt d ->
  Marshal (any_of d) = Some (wire_token d) /\ Unmarshal (wire_token d) = Some (wire_generic d) /\
  setDataFromWire dt (wire_generic d) = Ok d.
Proof.
  destruct dt, d; simpl; try done.
  - intros Hi. rewrite integer_text by done. by rewrite int64_back.
  - intros Hf. by rewrite Hf, float_text.
  - intros Ht. by rewrite nano_text.
  - intros _. by rewrite base64_text.
Qed.

Lemma field_wire_any m k dt d : FieldTypes m !! k = Some dt -> typed dt d -> field_wire m k d = any_of d.
Proof. unfold field_wire. intros ->. by destruct dt, d. Qed.
Lemma field_data_back (ft : gmap gostring DataType) k dt d :
  ft !! k = Some dt -> typed dt d -> field_data ft k (wire_generic d) = Ok (field_back d).
Proof.
  unfold field_data. intros ->. destruct dt, d; simpl; try done.
  - intros Ht. by rewrite nano_text.
  - intros _. by rewrite base64_text.
Qed.

Lemma map_wire m fields :
  dom fields = dom (FieldTypes m) -> (forall k dt d, FieldTypes m !! k = Some dt -> fields !! k = Some d -> typed dt d) ->
  Data m = DMap fields ->
  Marshal (dataWireMap m) = Some (JObj (wire_token <$> fields)) /\
  Unmarshal (JObj (wire_token <$> fields)) = Some (GMap (wire_generic <$> fields)) /\
  setDataFromWireMap (FieldTypes m) (GMap (wire_generic <$> fields)) = Ok (DMap (field_back <$> fields)).
Proof.
  intros Hdom Hty Hd.
  assert (forall k d, fields !! k = Some d -> exists dt, FieldTypes m !! k = Some dt /\ typed dt d) as Hk.
  { intros k d Hf. assert (k ∈ dom (FieldTypes m)) as [dt Hdt]%elem_of_dom by (rewrite <- Hdom; by apply elem_of_dom_2 in Hf).
    exists dt. split; [done|by eapply Hty]. }
  unfold dataWireMap. rewrite Hd. simpl. split_and!.
  - rewrite (collect_map_eq _ (wire_token <$> fields)); [done|]. intros k.
    rewrite !lookup_fmap, map_lookup_imap. destruct (fields !! k) as [d|] eqn:Ef; [|done]. simpl.
    destruct (Hk k d Ef) as (dt & Hdt & Ht). rewrite (field_wire_any m k dt d Hdt Ht). by destruct (scalar_wire dt d Ht) as [-> _].
  - rewrite (collect_map_eq _ (wire_generic <$> fields)); [done|]. intros k.
    rewrite !lookup_fmap. destruct (fields !! k) as [d|] eqn:Ef; [|done]. simpl.
    destruct (Hk k d Ef) as (dt & Hdt & Ht). by destruct (scalar_wire dt d Ht) as (_ & -> & _).
  - replace (map_imap (fun k v => Some (field_data (FieldTypes m) k v)) (wire_generic <$> fields))
      with (@Ok message_error datum <$> (field_back <$> fields)); [by rewrite map_result_fmap|].
    apply map_eq. intros k. rewrite map_lookup_imap, !lookup_fmap. destruct (fields !! k) as [d|] eqn:Ef; [|done]. simpl.
    destruct (Hk k d Ef) as (dt & Hdt & Ht). by rewrite (field_data_back _ k dt d Hdt Ht).
Qed.

Lemma string_map_generic n : Unmarshal (string_map n) = Some (GMap (GStr <$> n)).
Proof.
  unfold string_map. simpl. rewrite (collect_map_eq _ (GStr <$> n)); [done|]. intros k. rewrite !lookup_fmap.
  by destruct (n !! k).
Qed.

Lemma scalar_message_round_trip m : Type_ m <> TypeMap -> well_typed m ->
  exists w, MarshalJSON m = Some w /\ UnmarshalJSON w = Ok m.
Proof.
  destruct m as [key meta dt sub ts d ft fs]. unfold well_typed. simpl. intros Hdt Hwt.
  assert (ft = ∅ /\ fs = ∅ /\ typed dt d) as (-> & -> & Ht) by (by destruct dt). clear Hwt.
  destruct (scalar_wire dt d Ht) as (Hm & Hu & Hs).
  eexists (MkWire WireSchema key (JStr (dataTypeString dt)) (if bool_decide (sub = []) then None else Some (JStr sub))
    (wire_token d) meta ts). split.
  - unfold MarshalJSON, dataWireScalar. cbn [Type_ Data Subtype Key Metadata Timestamp].
    destruct dt; try done; destruct d; try done; cbn [any_of] in Hm |- *; by rewrite Hm.
  - unfold UnmarshalJSON. cbn [wType wSubtype wData wSchema wKey wMetadata wTimestampUs Unmarshal or_err bindR].
    rewrite Hu. case_bool_decide as Hsub; cbn [Unmarshal or_err bindR];
      (rewrite bool_decide_eq_true_2 by done); cbn [guard_err bindR];
      rewrite parseDataType_string by done; cbn [or_err bindR]; rewrite Hs; cbn [bindR]; by subst.
Qed.

Lemma map_message_round_trip m : Type_ m = TypeMap -> well_typed m ->
  exists w, MarshalJSON m = Some w /\ UnmarshalJSON w = Ok (received m).
Proof.
  destruct m as [key meta dt sub ts d ft fs]. unfold well_typed. simpl. intros -> (-> & fields & -> & Hdom & Hty).
  destruct (map_wire (MkMsg key meta TypeMap [] ts (DMap fields) ft fs) fields Hdom Hty eq_refl) as (Hm & Hu & Hs).
  exists (MkWire WireSchema key (string_map (dataTypeString <$> ft))
    (if bool_decide (fs = ∅) then None else Some (string_map fs)) (JObj (wire_token <$> fields)) meta ts). split.
  - unfold MarshalJSON. cbn [Type_]. by rewrite Hm.
  - unfold UnmarshalJSON. cbn [wType wSubtype wData wSchema wKey wMetadata wTimestampUs].
    rewrite string_map_generic. cbn [or_err bindR].
    assert (forall dt, dt ∈ (map_to_list ft).*2 -> dt <> TypeMap) as Hnm.
    { intros dt ((k & dt') & -> & Hin%elem_of_map_to_list)%list_elem_of_fmap. simpl in *. intros ->.
      assert (k ∈ dom fields) as [d Hd]%elem_of_dom by (rewrite Hdom; by apply elem_of_dom_2 in Hin).
      specialize (Hty k TypeMap d Hin Hd). by destruct d. }
    assert (field_type <$> (GStr <$> (dataTypeString <$> ft)) = Ok <$> ft) as Hft.
    { apply map_eq. intros k. rewrite !lookup_fmap. destruct (ft !! k) as [dt|] eqn:Ek; [|done]. simpl.
      rewrite parseDataType_string; [done|]. apply Hnm. apply list_elem_of_fmap. exists (k, dt). split; [done|].
      by apply elem_of_map_to_list. }
    assert (field_subtype <$> (GStr <$> fs) = Ok <$> fs) as Hfs.
    { apply map_eq. intros k. rewrite !lookup_fmap. by destruct (fs !! k). }
    case_bool_decide as Hsub; [|rewrite string_map_generic]; cbn [or_err bindR]; rewrite Hu; cbn [or_err bindR];
      (rewrite bool_decide_eq_true_2 by done); cbn [guard_err bindR]; rewrite Hft, map_result_fmap; cbn [bindR].
    + cbn [FieldTypes] in Hs. rewrite Hs. cbn [bindR]. by rewrite Hsub.
    + rewrite Hfs, map_result_fmap. cbn [bindR]. cbn [FieldTypes] in Hs. by rewrite Hs.
Qed.

End RoundTrip.

(** A message survives the wire: a well-typed message is encoded, and what is
    decoded is the message itself, up to the integer fields of a map message,
    which come back as floating-point numbers of the same value. *)
Theorem message_round_trip `{!JSONText, !JSONTextLaws, !JSONNumberLaws, !FlowTime, !FlowTimeLaws} m :
  well_typed m -> exists w, MarshalJSON m = Some w /\ UnmarshalJSON w = Ok (received m).
Proof.
  intros Hm. destruct (decide (Type_ m = TypeMap)) as [Ht|Ht]; [by apply map_message_round_trip|].
  destruct (scalar_message_round_trip m Ht Hm) as (w & Hw & Hu). exists w. split; [done|]. rewrite Hu.
  unfold received. by destruct (Type_ m).
Qed.

(** ** Examples *)

Definition nano_clock : FlowTime := {| FormatNano := spell; ParseNano := read |}.
Lemma nano_clock_laws : @FlowTimeLaws nano_clock.
Proof. split. intros. apply read_spell. Qed.

Definition sample_map : Message :=
  MkMsg "dev"%go ∅ TypeMap [] 7 (DMap {["n"%go := DInt 3; "b"%go := DBytes "xy"%go]})
    {["n"%go := TypeInteger; "b"%go := TypeBinary]} ∅.

Lemma message_round_trip_witness :
  exists w, @MarshalJSON decimal_text nano_clock sample_map = Some w /\
    @UnmarshalJSON decimal_text nano_clock w = Ok (received sample_map).
Proof.
  apply (@message_round_trip decimal_text decimal_laws decimal_numbers nano_clock nano_clock_laws).
  split; [reflexivity|]. eexists. split; [reflexivity|]. split; [vm_compute; reflexivity|].
  intros k dt d. cbn [sample_map FieldTypes].
  rewrite !lookup_insert_Some, !lookup_singleton_Some.
  intros [[<- <-]|[? [<- <-]]] [[? <-]|[? [? <-]]]; try done; vm_compute; congruence.
Defined.

(** The declared types are not kept: an integer field is decoded as a float64,
    and an integer above 2^53 as another integer. *)
Theorem wire_integers_change :
  (w ← @MarshalJSON decimal_text nano_clock sample_map;
   ok_of (@UnmarshalJSON decimal_text nano_clock w)) = Some (received sample_map) /\
  (exists fields, Data (received sample_map) = DMap fields /\ fields !! "n"%go = Some (DReal (Float64.of_int 3)) /\
     FieldTypes (received sample_map) !! "n"%go = Some TypeInteger) /\
  (w ← @MarshalJSON decimal_text nano_clock (MkMsg "dev"%go ∅ TypeInteger [] 7 (DInt (2 ^ 53 + 1)) ∅ ∅);
   Data <$> ok_of (@UnmarshalJSON decimal_text nano_clock w)) = Some (DInt (2 ^ 53)).
Proof.
  split; [vm_compute; reflexivity|]. split; [|vm_compute; reflexivity].
  eexists. split; [reflexivity|]. split; vm_compute; reflexivity.
Qed.

End FlowMessage.
