(* ===== verification/FlowService.v ===== *)
(** * The flow service: from a stored pipeline to a running flow

    [internal/flowapi/service.go] with the flow manager of
    [internal/flow/flow.go]. The first part is the path from a stored
    definition to blocks; the second ([Lifecycle]) is the life of one flow: the
    durable row, the live instance and the restart loop, changed by requests
    and callbacks that interleave between statements. *)

From S2P Require Import Prelude GoStrings PayloadJson Rows FlowGraph FlowRun FlowCompose.

Module FlowService.
Import Rows FlowGraph FlowRun FlowCompose.

(** ** Instance keys *)

Definition InstanceID (realm flowName : gostring) : gostring := realm ++ "/"%go ++ flowName.

Fixpoint split_at (i : nat) (id : gostring) (s : gostring) : option (gostring * gostring) :=
  match s with
  | [] => None
  | c :: s =>
      if decide (c = "/"%char)
      then if (i =? 0)%nat || (i =? length id - 1)%nat then None else Some (take i id, drop (S i) id)
      else split_at (S i) id s
  end.
Definition splitInstanceID (id : gostring) : option (gostring * gostring) := split_at 0 id id.

Lemma split_at_spec k pre s :
  "/"%char ∉ k -> split_at (length pre) (pre ++ k ++ "/"%go ++ s) (k ++ "/"%go ++ s) =
  if (length (pre ++ k) =? 0)%nat || (length s =? 0)%nat then None else Some (pre ++ k, s).
Proof.
  revert pre. induction k as [|c k IH]; intros pre Hk.
  - cbn [app split_at]. rewrite decide_True by done. rewrite app_nil_r, length_app. cbn [length].
    replace (length pre =? length pre + S (length s) - 1)%nat with (length s =? 0)%nat.
    2: { apply eq_bool_prop_intro. rewrite !Is_true_true, !Nat.eqb_eq. lia. }
    destruct (_ || _); [done|]. rewrite take_app_length. f_equal. f_equal.
    change ("/"%char :: s) with (["/"%char] ++ s). rewrite app_assoc.
    replace (S (length pre)) with (length (pre ++ ["/"%char])) by (rewrite length_app; simpl; lia).
    apply drop_app_length.
  - apply not_elem_of_cons in Hk as [Hc Hk]. cbn [app split_at]. rewrite decide_False by congruence.
    specialize (IH (pre ++ [c]) Hk). rewrite length_app in IH. cbn [length] in IH. rewrite Nat.add_1_r in IH.
    rewrite <- !app_assoc in IH. exact IH.
Qed.

(** ** Block types *)

Section Build.
Context {St Msg E : Type} (reg : Registry St Msg E).

Definition findStoredBlock (stored : list UserBlock) (name : gostring) : option UserBlock :=
  find (fun ub => bool_decide (uName ub = name)) stored.

Inductive service_error :=
| PipelineNotFound | SubstFailed (e : subst_error) | NotParsed | EmptyType (n : gostring) | UnknownType (t n : gostring)
| BadSchemas | SchemaMismatch (n : gostring) | ExpandFailed (e : expand_error) | NotValid (e : flow_error) | BuildFailed (e : build_error E).

Fixpoint check_types (stored : list UserBlock) (bs : list PipelineNode) : result service_error () :=
  match bs with
  | [] => Ok ()
  | b :: bs =>
      if bool_decide (nBlockType b = []) then Err (EmptyType (nName b))
      else if Has reg (nBlockType b) then check_types stored bs
      else match findStoredBlock stored (nBlockType b) with
           | Some _ => check_types stored bs
           | None => Err (UnknownType (nBlockType b) (nName b))
           end
  end.

(** [resolverFromStored]. *)
Definition resolver (stored : list UserBlock) (name : gostring) : option (option UserBlock) :=
  if Has reg name then Some None else Some <$> findStoredBlock stored name.

(** The text layer: [json.Unmarshal] into the raw definition, and into a
    pipeline with its own [id] and [name]; [json.Marshal] of a raw definition. *)
Variable unmarshal : gostring -> option rawDefinition.
Variable unmarshal_pipeline : gostring -> option Pipeline.
Variable marshal : rawDefinition -> gostring.
Variable substitute : gostring -> config -> result subst_error gostring.
(** [validateCompositeConfigs]: JSON schemas are compiled and checked by a
    library; a block without a schema accepts every configuration. *)
Variable schemas_compile : list UserBlock -> bool.
Variable schema_accepts : UserBlock -> config -> bool.

Definition checkBlockTypes (stored : list UserBlock) (def : gostring) : result service_error () :=
  let? d := or_err (unmarshal def) NotParsed in check_types stored d.1.

Fixpoint validate_configs (stored : list UserBlock) (nodes : list PipelineNode) : result service_error () :=
  match nodes with
  | [] => Ok ()
  | n :: nodes =>
      match findStoredBlock stored (nBlockType n) with
      | Some ub => guard_err (schema_accepts ub (nConfig n)) (SchemaMismatch (nName n));;? validate_configs stored nodes
      | None => validate_configs stored nodes
      end
  end.

Definition expandStoredComposites (stored : list UserBlock) (def : gostring) : result service_error gostring :=
  let? d := or_err (unmarshal def) NotParsed in
  if forallb (fun n => Has reg (nBlockType n)) d.1 then Ok def
  else if bool_decide (length stored = 0) then Ok def
  else
    guard_err (schemas_compile stored) BadSchemas;;?
    validate_configs stored d.1;;?
    let? r := mapErr ExpandFailed (ExpandComposites (resolver stored) substitute unmarshal def) in
    Ok (marshal r).

Definition ParseDefinition (id name : gostring) (def : gostring) : result service_error Pipeline :=
  if bool_decide (def = []) then Err NotParsed
  else
    let? p := or_err (unmarshal_pipeline def) NotParsed in
    let id := if bool_decide (id = []) then pID p else id in
    let name := if bool_decide (name = []) then pName p else name in
    let id := if bool_decide (id = []) then name else id in
    let p := MkPipeline id name (pBlocks p) (pConnections p) in
    mapErr NotValid (Validate p);;? Ok p.

(** What both the dry run and the build do first. *)
Definition resolveAndBuildDryRun (stored : list UserBlock) (pipeline : option gostring) (pipelineName : gostring)
    (cfg : config) : result service_error Pipeline :=
  let? def := or_err pipeline PipelineNotFound in
  let? def := mapErr SubstFailed (substitute def cfg) in
  checkBlockTypes stored def;;?
  let? def := expandStoredComposites stored def in
  ParseDefinition pipelineName pipelineName def.

Definition resolveAndBuild (stored : list UserBlock) (pipeline : option gostring) (pipelineName : gostring)
    (cfg : config) : list (event St Msg E) * result service_error (list (Block St Msg E)) :=
  match (let? def := or_err pipeline PipelineNotFound in
         let? def := mapErr SubstFailed (substitute def cfg) in
         checkBlockTypes stored def;;?
         let? def := expandStoredComposites stored def in
         ParseDefinition pipelineName pipelineName def) with
  | Err e => ([], Err e)
  | Ok p => let '(evs, r) := Instantiate reg (Some p) in (evs, mapErr BuildFailed r)
  end.

(** ** What the dry run promises *)

Lemma findStoredBlock_nil name : findStoredBlock [] name = None.
Proof. done. Qed.

Lemma Has_spec t : Has reg t = true <-> is_Some (reg !! t).
Proof. unfold Has. destruct (reg !! t); split; try done; by intros [? ?]. Qed.

Lemma check_types_spec stored bs b :
  check_types stored bs = Ok () -> b ∈ bs ->
  nBlockType b <> [] /\ (Has reg (nBlockType b) = true \/ is_Some (findStoredBlock stored (nBlockType b))).
Proof.
  induction bs as [|x bs IH]; [by intros _ ?%elem_of_nil|]. cbn [check_types].
  case_bool_decide as Ht; [done|]. destruct (Has reg (nBlockType x)) eqn:Eh.
  - intros H [->|Hb]%elem_of_cons; [by auto|by apply IH].
  - destruct (findStoredBlock stored (nBlockType x)) eqn:Ef; [|done].
    intros H [->|Hb]%elem_of_cons; [|by apply IH]. rewrite Ef. split; [done|right; by eexists].
Qed.

(** Documented behaviour of the text layer: both decoders read the same
    members, and a definition written is read back. *)
Hypothesis decoders_agree : forall def p,
  unmarshal_pipeline def = Some p -> unmarshal def = Some (pBlocks p, pConnections p).
Variable stored : list UserBlock.
Hypothesis written_read : forall def r,
  ExpandComposites (resolver stored) substitute unmarshal def = Ok r -> unmarshal (marshal r) = Some r.
Hypothesis no_empty_type : reg !! [] = None.

Lemma expanded_registered def def' d b :
  checkBlockTypes stored def = Ok () -> expandStoredComposites stored def = Ok def' ->
  unmarshal def' = Some d -> b ∈ d.1 -> nBlockType b <> [] /\ is_Some (reg !! nBlockType b).
Proof.
  unfold checkBlockTypes, expandStoredComposites. destruct (unmarshal def) as [d0|] eqn:E0; [|done].
  cbn [or_err bindR]. intros Hck. enough (forall d', d = d' -> Forall (fun b => Has reg (nBlockType b) = true) d'.1 -> b ∈ d.1 ->
    nBlockType b <> [] /\ is_Some (reg !! nBlockType b)) as Hreg.
  { destruct (forallb _ d0.1) eqn:Ef.
    { intros [= <-]. rewrite E0. intros [= <-]. apply (Hreg d0 eq_refl).
      apply Forall_forall. intros x Hx. rewrite forallb_forall in Ef. by apply Ef, list_elem_of_In. }
    case_bool_decide as Hst.
    { intros [= <-]. rewrite E0. intros [= <-]. apply length_zero_iff_nil in Hst as ->. apply (Hreg d0 eq_refl), Forall_forall.
      intros x Hx. destruct (check_types_spec _ _ _ Hck Hx) as [_ [?|[u Hu]]]; [done|]. by rewrite findStoredBlock_nil in Hu. }
    intros H. apply bindR_Ok in H as (? & _ & H). apply bindR_Ok in H as (? & _ & H).
    apply bindR_Ok in H as (r & Hr%mapErr_Ok & [= <-]). rewrite (written_read def r Hr). intros [= <-]. apply (Hreg r eq_refl).
    unfold ExpandComposites in Hr. apply bindR_Ok in Hr as (? & _ & Hr). apply bindR_Ok in Hr as (root & _ & Hr).
    apply expandComposites_builtin in Hr. eapply Forall_impl; [exact Hr|]. intros y. unfold builtin, resolver.
    destruct (Has reg (nBlockType y)); [done|]. by destruct (findStoredBlock _ _). }
  intros d' <- Hall Hb. pose proof (proj1 (Forall_forall _ _) Hall b Hb) as Hh. cbv beta in Hh. apply Has_spec in Hh.
  split; [|done]. intros Hnil. rewrite Hnil, no_empty_type in Hh. by destruct Hh.
Qed.

Lemma dry_run_shape pipeline name cfg p :
  resolveAndBuildDryRun stored pipeline name cfg = Ok p ->
  Validate p = Ok () /\ forall b, b ∈ pBlocks p -> nBlockType b <> [] /\ is_Some (reg !! nBlockType b).
Proof.
  unfold resolveAndBuildDryRun. intros H. apply bindR_Ok in H as (def & _ & H). apply bindR_Ok in H as (def1 & _ & H).
  apply bindR_Ok in H as ([] & Hck & H). apply bindR_Ok in H as (def2 & Hex & H). unfold ParseDefinition in H.
  case_bool_decide; [done|]. apply bindR_Ok in H as (p0 & Hp%or_err_Ok & H). apply bindR_Ok in H as ([] & Hv%mapErr_Ok & [= <-]).
  split; [done|]. intros b Hb. cbn [pBlocks] in Hb.
  by apply (expanded_registered def1 def2 _ b Hck Hex (decoders_agree _ _ Hp)).
Qed.

End Build.

(** Once the dry run accepts a configuration, only a block's constructor can
    still fail: the build of an accepted configuration never meets an invalid
    pipeline or an unregistered block type, and when a constructor does fail
    every block built before it is stopped; what the dry run refuses, the build
    refuses with the same error before anything is built. *)
Theorem dry_run_decides_build {St Msg E} (reg : Registry St Msg E) unmarshal unmarshal_pipeline marshal substitute
    schemas_compile schema_accepts stored pipeline name cfg :
  (forall def p, unmarshal_pipeline def = Some p -> unmarshal def = Some (pBlocks p, pConnections p)) ->
  (forall def r, ExpandComposites (resolver reg stored) substitute unmarshal def = Ok r ->
     unmarshal (marshal r) = Some r) -> reg !! [] = None ->
  let build := resolveAndBuild reg unmarshal unmarshal_pipeline marshal substitute schemas_compile schema_accepts in
  match resolveAndBuildDryRun reg unmarshal unmarshal_pipeline marshal substitute schemas_compile schema_accepts
          stored pipeline name cfg with
  | Err e => build stored pipeline name cfg = ([], Err e)
  | Ok p => exists built, match build stored pipeline name cfg with
      | (evs, Ok bs) => evs = map Built built /\ bs = built /\ length bs = length (pBlocks p)
      | (evs, Err e) => evs = map Built built ++ stopAll built /\
          ((exists n c, e = BuildFailed (ConstructFailed n c)) \/ exists n, e = BuildFailed (ConstructNil n))
      end
  end.
Proof.
  intros Hdec Hwr Hno build.
  pose proof (dry_run_shape reg unmarshal unmarshal_pipeline marshal substitute schemas_compile schema_accepts
    Hdec stored Hwr Hno pipeline name cfg) as Hshape.
  destruct (resolveAndBuildDryRun _ _ _ _ _ _ _ _ _ _ _) as [p|e] eqn:Ed; unfold build, resolveAndBuild;
    unfold resolveAndBuildDryRun in Ed; rewrite Ed; [|done].
  destruct (Hshape p eq_refl) as [Hval Hreg]. clear Hshape Ed.
  destruct (Instantiate reg (Some p)) as [evs res] eqn:Ei.
  pose proof (instantiate_spec reg p evs res Ei) as [Hspec _]. destruct res as [bs|e]; cbn [mapErr].
  - destruct Hspec as (-> & order & Hperm & _ & Hf). exists bs. split_and!; [done..|].
    rewrite <- (Forall2_length _ _ _ Hf), Hperm. unfold block_names. by rewrite length_map.
  - assert ((exists n c, e = ConstructFailed n c) \/ exists n, e = ConstructNil n) as He.
    { unfold Instantiate in Ei. rewrite Hval in Ei. destruct (proj1 (proj1 (validate_spec p)) Hval) as (_ & _ & Hg & Hac).
      destruct (topo_order_spec p Hg) as (Hord & Hex & _). destruct (proj2 Hex Hac) as [order Ho]. rewrite Ho in Ei.
      destruct (Hord order Ho) as [Hp _]. eapply build_registered; [| |exact Ei].
      - intros n node _ Hn. apply by_name_spec in Hn as [Hn _]; [|by destruct Hg]. by apply Hreg.
      - intros n. rewrite Hp. intros (node & -> & Hn)%list_elem_of_fmap. exists node. apply by_name_spec; [by destruct Hg|done]. }
    destruct Hspec as (built & ->). exists built.
    destruct He as [(n & c & ->)|(n & ->)]; split; eauto.
Qed.

(** ** Example: a pipeline with a composite *)

Definition service_registry : Registry () Z () := {["to_json"%go := fun n _ => Ok (Some (sample_block false n))]}.
Definition service_stored : list UserBlock := [MkUserBlock "pair"%go "body"%go].
Definition flat_body : rawDefinition :=
  ([sample_node "s"%go; sample_node "c.in"%go; sample_node "c.out"%go; sample_node "t"%go],
   [sample_edge "s"%go "c.in"%go; sample_edge "c.out"%go "t"%go; sample_edge "c.in"%go "c.out"%go]).
Definition service_unmarshal (s : gostring) : option rawDefinition :=
  if decide (s = "flat"%go) then Some flat_body else toy_unmarshal "t"%go s.
Definition service_pipeline (s : gostring) : option Pipeline :=
  (fun d => MkPipeline [] [] d.1 d.2) <$> service_unmarshal s.
Definition service_marshal (r : rawDefinition) : gostring := if (length r.1 =? 2)%nat then "body"%go else "flat"%go.

Lemma service_written def r :
  ExpandComposites (resolver service_registry service_stored) pass_through service_unmarshal def = Ok r ->
  service_unmarshal (service_marshal r) = Some r.
Proof.
  destruct (decide (def = "flat"%go)) as [->|H1]; [intros E; vm_compute in E; by injection E as <-|].
  destruct (decide (def = "body"%go)) as [->|H2]; [intros E; vm_compute in E; by injection E as <-|].
  destruct (decide (def = "outer"%go)) as [->|H3]; [intros E; vm_compute in E; by injection E as <-|].
  unfold ExpandComposites. intros E. apply bindR_Ok in E as (? & _ & E). apply bindR_Ok in E as (d & Hd%or_err_Ok & _).
  unfold service_unmarshal, toy_unmarshal in Hd. by rewrite !decide_False in Hd by done.
Qed.

Lemma dry_run_decides_build_witness :
  exists bs, (resolveAndBuild service_registry service_unmarshal service_pipeline service_marshal pass_through
    (fun _ => true) (fun _ _ => true) service_stored (Some "outer"%go) "p"%go ∅).2 = Ok bs /\ length bs = 4.
Proof.
  pose proof (dry_run_decides_build service_registry service_unmarshal service_pipeline service_marshal pass_through
    (fun _ => true) (fun _ _ => true) service_stored (Some "outer"%go) "p"%go ∅) as H.
  cbv zeta in H. specialize (H ltac:(intros def p; unfold service_pipeline; destruct (service_unmarshal def) as [[a b]|];
    [intros [= <-]; reflexivity|discriminate]) service_written ltac:(vm_compute; reflexivity)).
  destruct (resolveAndBuild _ _ _ _ _ _ _ _ _ _ _) as [evs [bs|e]] eqn:E.
  - exists bs. split; [reflexivity|].
    destruct (resolveAndBuildDryRun _ _ _ _ _ _ _ _ _ _ _) as [p|e] eqn:Ed; [|discriminate H].
    destruct H as (built & _ & _ & Hl). rewrite Hl. vm_compute in Ed. injection Ed as <-. reflexivity.
  - vm_compute in E. discriminate E.
Defined.

End FlowService.
