(* ===== verification/FlowLifecycle.v ===== *)
(** * The life of a flow

    One named flow of [internal/flowapi/service.go] over the manager of
    [internal/flow/flow.go]: its durable row, the live instance under its key,
    and the auto-restart loop. Requests, fatal callbacks and the restart loop
    are programs of store and manager calls; a world runs any number of them,
    interleaved call by call. The environment decides which calls fail. *)

From S2P Require Import Prelude.

Module FlowLifecycle.

(** ** Programs *)

Inductive fstatus := SCreated | SCreating | SRunning | SFailed.
Record frow := MkFRow { rAuto : bool; rStatus : fstatus }.
Inductive row_read := RowIs (r : frow) | RowMissing | ReadError.
Inductive stop_result := StopDone | StopNotFound | StopDrainFailed.
Inductive start_result := Started | FlowExists | BadGraph.

(** A call and what follows. [Build] is [resolveAndBuild], with the decoding of
    the stored configuration: it gives a fresh graph of blocks, or nothing, the
    blocks of a failed build being stopped. [Lookup], [Drain] and [StopBlocks]
    are the three parts of the manager's [StopFlow], which holds no lock between
    them; [IsRunning] reads the status of an instance. *)
Inductive prog :=
| Ret
| Insert (auto : bool) (k : bool -> prog)
| GetRow (k : row_read -> prog)
| SetRuntime (s : fstatus) (k : prog)
| DeleteRow (k : prog)
| Build (k : option nat -> prog)
| Start (g : nat) (k : start_result -> prog)
| Lookup (k : option nat -> prog)
| Drain (g : nat) (k : bool -> prog)
| StopBlocks (g : nat) (k : prog)
| IsRunning (g : nat) (k : bool -> prog)
| Unregister (k : prog)
| LiveFlow (k : bool -> prog)
| BeginRestart (k : bool -> prog)
| EndRestart (k : prog)
| GoRestart (k : prog)
| Sleep (k : prog)
| Loop.

(** The manager's [StopFlow]: the instance is looked up under the lock; its
    pump is cancelled and its lanes are drained, unless the deadline passes;
    then its blocks are stopped, whatever was done to the key meanwhile. *)
Definition StopFlow (k : stop_result -> prog) : prog :=
  Lookup (fun f => match f with
    | None => k StopNotFound
    | Some g => Drain g (fun ok => if ok then StopBlocks g (k StopDone) else k StopDrainFailed)
    end).

(** One instance of the manager's [Shutdown]. *)
Definition Shutdown : prog :=
  Lookup (fun f => match f with
    | None => Ret
    | Some g => IsRunning g (fun running => if running then StopFlow (fun _ => Ret) else Ret)
    end).

(** From the built blocks to the running instance, as [startFlowInstance] and
    [RestartFlowInstance] both have it; [k] is told whether a view was made. *)
Definition launch (g : nat) (k : bool -> prog) : prog :=
  SetRuntime SCreating (Start g (fun r => match r with
    | Started => SetRuntime SRunning (GetRow (fun r => k (match r with RowIs _ => true | _ => false end)))
    | FlowExists => k false
    | BadGraph => SetRuntime SFailed (k false)
    end)).

Definition startFlowInstance : prog :=
  Build (fun g => match g with None => SetRuntime SFailed Ret | Some g => launch g (fun _ => Ret) end).

Definition CreateAndStartFlow (auto : bool) : prog :=
  Insert auto (fun ok => if ok then startFlowInstance else Ret).

(** One row of [RehydrateAutoRestart]. *)
Definition rehydrate_one : prog := startFlowInstance.

Definition DeleteFlow : prog :=
  StopFlow (fun r => match r with StopDrainFailed => Ret | _ => Unregister (DeleteRow Ret) end).

Definition RestartFlowInstance (k : bool -> prog) : prog :=
  GetRow (fun r => match r with
    | RowIs _ =>
        StopFlow (fun r => match r with
          | StopDrainFailed => k false
          | _ => Unregister (Build (fun g => match g with
              | None => SetRuntime SFailed (k false)
              | Some g => launch g k
              end))
          end)
    | _ => k false
    end).

Definition ReloadFlow : prog := RestartFlowInstance (fun _ => Ret).

(** After the dry run and the update of the stored configuration. *)
Definition UpdateFlowConfig : prog :=
  GetRow (fun r => match r with
    | RowIs _ => LiveFlow (fun live => if live then RestartFlowInstance (fun _ => Ret) else GetRow (fun _ => Ret))
    | _ => Ret
    end).

Definition onBlockFatal : prog :=
  SetRuntime SFailed (StopFlow (fun _ => Unregister (GetRow (fun r => match r with
    | RowIs r => if rAuto r then BeginRestart (fun b => if b then GoRestart Ret else Ret) else Ret
    | _ => Ret
    end)))).

(** One round of [restartWithBackoff]; [Loop] starts the next. *)
Definition restart_round : prog :=
  Sleep (GetRow (fun r => match r with
    | RowIs r => if rAuto r then RestartFlowInstance (fun ok => if ok then EndRestart Ret else Loop) else EndRestart Ret
    | _ => EndRestart Ret
    end)).

(** The delay before the next attempt. *)
Definition restartBackoffBase : Z := 1000000000.
Definition restartBackoffMax : Z := 30000000000.
Definition next_delay (d : Z) : Z := if (restartBackoffMax <? d * 2)%Z then restartBackoffMax else (d * 2)%Z.

(** ** Worlds *)

(** How far a thread's latest [StopFlow] came: no instance was found, one was
    found, it did not drain in time, it drained, its blocks were stopped. *)
Inductive progress := Absent | Found (g : nat) | Undrained (g : nat) | Drained (g : nat) | Released (g : nat).
(** That, with the number of instances started before its lookup. *)
Definition sight : Type := nat * progress.
(** A graph taken out of the manager, and the latest [StopFlow] of the thread
    that took it out, if there was one since its last removal. *)
Record removal := MkRemoval { graph : nat; since : option sight }.

(** The stored row, the graph of the instance under the flow's key, the
    restart flag, and how many graphs were built. The lists record what
    happened: graphs started, drained, stopped, taken out and refused. *)
Record shared := MkShared {
  row : option frow;
  live : option nat;
  restarting : bool;
  built : nat;
  started : list nat;
  drained : list nat;
  stopped : list nat;
  removed : list removal;
  refused : list (nat * start_result) }.

(** A thread: whether it holds the restart loop, the graph it has built but
    not handed on, its latest [StopFlow], and the rest of its program. *)
Record thread := MkThread { owner : bool; holds : option nat; seen : option sight; code : prog }.
Record world := MkWorld { sh : shared; threads : list thread }.

Definition with_row (s : shared) (r : option frow) : shared :=
  MkShared r (live s) (restarting s) (built s) (started s) (drained s) (stopped s) (removed s) (refused s).
Definition with_restarting (s : shared) (b : bool) : shared :=
  MkShared (row s) (live s) b (built s) (started s) (drained s) (stopped s) (removed s) (refused s).
Definition with_built (s : shared) : shared :=
  MkShared (row s) (live s) (restarting s) (S (built s)) (started s) (drained s) (stopped s) (removed s) (refused s).
Definition with_drained (s : shared) (g : nat) : shared :=
  MkShared (row s) (live s) (restarting s) (built s) (started s) (drained s ++ [g]) (stopped s) (removed s) (refused s).
Definition with_stopped (s : shared) (g : nat) : shared :=
  MkShared (row s) (live s) (restarting s) (built s) (started s) (drained s) (stopped s ++ [g]) (removed s) (refused s).
Definition with_started (s : shared) (g : nat) : shared :=
  MkShared (row s) (Some g) (restarting s) (built s) (started s ++ [g]) (drained s) (stopped s) (removed s) (refused s).
Definition with_refused (s : shared) (g : nat) (r : start_result) : shared :=
  MkShared (row s) (live s) (restarting s) (built s) (started s) (drained s) (stopped s) (removed s) (refused s ++ [(g, r)]).
Definition with_removed (s : shared) (rs : list removal) : shared :=
  MkShared (row s) None (restarting s) (built s) (started s) (drained s) (stopped s) (removed s ++ rs) (refused s).

(** The manager and the restart gate on the shared state. [good]: the blocks
    make a graph ([NewBlockGraph]). *)
Definition StartFlow (good : bool) (s : shared) (g : nat) : shared * start_result :=
  match live s with
  | Some _ => (with_refused s g FlowExists, FlowExists)
  | None => if good then (with_started s g, Started) else (with_refused s g BadGraph, BadGraph)
  end.
Definition UnregisterFlow (s : shared) (e : option sight) : shared :=
  with_removed s ((fun g => MkRemoval g e) <$> option_list (live s)).
Definition liveFlow (s : shared) : bool := match live s with Some _ => true | None => false end.
Definition beginRestart (s : shared) : shared * bool :=
  if restarting s then (s, false) else (with_restarting s true, true).
Definition endRestart (s : shared) : shared := with_restarting s false.

(** One call of a thread; [c] is whether the call succeeds, where it may fail. *)
Definition exec (c : bool) (s : shared) (t : thread) : option (shared * thread * list thread) :=
  let o := owner t in
  let h := holds t in
  let e := seen t in
  match code t with
  | Ret => None
  | Insert auto k =>
      match row s with
      | None => if c then Some (with_row s (Some (MkFRow auto SCreated)), MkThread o h e (k true), [])
                else Some (s, MkThread o h e (k false), [])
      | Some _ => Some (s, MkThread o h e (k false), [])
      end
  | GetRow k =>
      let r := if c then match row s with Some r => RowIs r | None => RowMissing end else ReadError in
      Some (s, MkThread o h e (k r), [])
  | SetRuntime st k =>
      let r := if c then (fun r => MkFRow (rAuto r) st) <$> row s else row s in
      Some (with_row s r, MkThread o h e k, [])
  | DeleteRow k => Some (if c then with_row s None else s, MkThread o h e k, [])
  | Build k =>
      if c then Some (with_built s, MkThread o (Some (built s)) e (k (Some (built s))), [])
      else Some (s, MkThread o h e (k None), [])
  | Start g k => let '(s, r) := StartFlow c s g in Some (s, MkThread o None e (k r), [])
  | Lookup k =>
      let e := (length (started s), match live s with None => Absent | Some g => Found g end) in
      Some (s, MkThread o h (Some e) (k (live s)), [])
  | Drain g k =>
      let n := match e with Some (n, _) => n | None => 0 end in
      if c then Some (with_drained s g, MkThread o h (Some (n, Drained g)) (k true), [])
      else Some (s, MkThread o h (Some (n, Undrained g)) (k false), [])
  | StopBlocks g k =>
      let n := match e with Some (n, _) => n | None => 0 end in
      Some (with_stopped s g, MkThread o h (Some (n, Released g)) k, [])
  | IsRunning g k => Some (s, MkThread o h e (k (negb (bool_decide (g ∈ stopped s)))), [])
  | Unregister k => Some (UnregisterFlow s e, MkThread o h None k, [])
  | LiveFlow k => Some (s, MkThread o h e (k (liveFlow s)), [])
  | BeginRestart k =>
      let '(s, ok) := beginRestart s in Some (s, MkThread (if ok then true else o) h e (k ok), [])
  | EndRestart k => Some (endRestart s, MkThread false h e k, [])
  | GoRestart k => Some (s, MkThread false h e k, [MkThread true None None Loop])
  | Sleep k => Some (s, MkThread o h e k, [])
  | Loop => Some (s, MkThread o h e restart_round, [])
  end.

Inductive request := ReqCreate (auto : bool) | ReqRehydrate | ReqDelete | ReqReload | ReqConfig | ReqShutdown.
Definition program (q : request) : prog :=
  match q with
  | ReqCreate auto => CreateAndStartFlow auto
  | ReqRehydrate => rehydrate_one
  | ReqDelete => DeleteFlow
  | ReqReload => ReloadFlow
  | ReqConfig => UpdateFlowConfig
  | ReqShutdown => Shutdown
  end.

(** A request arrives; a block of a graph dies, wherever the graph is; a thread
    makes a call. *)
Inductive label := Request (q : request) | Die (g : nat) | Call (i : nat) (c : bool).

Definition wstep (w : world) (l : label) : option world :=
  match l with
  | Request q => Some (MkWorld (sh w) (threads w ++ [MkThread false None None (program q)]))
  | Die g =>
      if g <? built (sh w) then Some (MkWorld (sh w) (threads w ++ [MkThread false None None onBlockFatal])) else None
  | Call i c =>
      t ← threads w !! i;
      '(s, t, new) ← exec c (sh w) t;
      Some (MkWorld s (<[i := t]> (threads w) ++ new))
  end.

Definition init : world := MkWorld (MkShared None None false 0 [] [] [] [] []) [].

Inductive reachable : world -> Prop :=
| reach_init : reachable init
| reach_step w l w' : reachable w -> wstep w l = Some w' -> reachable w'.

Fixpoint run (w : world) (ls : list label) : option world :=
  match ls with [] => Some w | l :: ls => w ← wstep w l; run w ls end.

Lemma life_run_reachable w ls w' : reachable w -> run w ls = Some w' -> reachable w'.
Proof.
  revert w. induction ls as [|l ls IH]; simpl; intros w Hw; [by intros [= <-]|].
  destruct (wstep w l) as [w1|] eqn:E; [|done]. simpl. apply IH. by eapply reach_step.
Qed.

(** ** The discipline of the programs

    A program that holds the restart loop ends it or hands it on; a graph that
    was built is handed to the manager before anything else is built; the
    blocks of a graph are stopped only once it drained; and the key is freed
    only by a program that has run a [StopFlow] to its end since it last freed
    it. *)
Definition settled (e : progress) : bool :=
  match e with Absent | Undrained _ | Released _ => true | Found _ | Drained _ => false end.

Fixpoint disciplined (o : bool) (h : option nat) (e : option progress) (p : prog) : Prop :=
  match p with
  | Ret => o = false /\ h = None
  | Insert _ k | LiveFlow k | IsRunning _ k => forall b, disciplined o h e (k b)
  | GetRow k => forall r, disciplined o h e (k r)
  | SetRuntime _ k | DeleteRow k | Sleep k => disciplined o h e k
  | Build k => h = None /\ disciplined o None e (k None) /\ forall g, disciplined o (Some g) e (k (Some g))
  | Start g k => h = Some g /\ forall r, disciplined o None e (k r)
  | Lookup k => disciplined o h (Some Absent) (k None) /\ forall g, disciplined o h (Some (Found g)) (k (Some g))
  | Drain g k => e = Some (Found g) /\ disciplined o h (Some (Drained g)) (k true) /\
      disciplined o h (Some (Undrained g)) (k false)
  | StopBlocks g k => e = Some (Drained g) /\ disciplined o h (Some (Released g)) k
  | Unregister k => (exists e', e = Some e' /\ settled e' = true) /\ disciplined o h None k
  | BeginRestart k => o = false /\ disciplined true h e (k true) /\ disciplined false h e (k false)
  | EndRestart k | GoRestart k => o = true /\ disciplined false h e k
  | Loop => o = true /\ h = None
  end.

Lemma stop_disciplined o h e k :
  (forall e r, settled e = true -> disciplined o h (Some e) (k r)) -> disciplined o h e (StopFlow k).
Proof. intros Hk. split; [by apply Hk|]. intros g. split_and!; [done|split; [done|]|]; by apply Hk. Qed.
Lemma launch_disciplined o e g k :
  (forall b, disciplined o None e (k b)) -> disciplined o (Some g) e (launch g k).
Proof. intros Hk. split; [done|]. intros []; simpl; [intros r| |]; apply Hk. Qed.
Lemma restart_disciplined o e k :
  (forall e b, disciplined o None e (k b)) -> disciplined o None e (RestartFlowInstance k).
Proof.
  intros Hk [r| |]; [|apply Hk..]. apply stop_disciplined. intros e' [] He; [| |apply Hk].
  all: split; [by exists e'|]; split; [done|]; split; [apply Hk|]; intros g; by apply launch_disciplined.
Qed.
Lemma start_disciplined e : disciplined false None e startFlowInstance.
Proof. split; [done|]. split; [done|]. intros g. by apply launch_disciplined. Qed.
Lemma round_disciplined e : disciplined true None e restart_round.
Proof.
  intros [r| |]; simpl; [|done..]. destruct (rAuto r); [|done]. apply restart_disciplined. by intros e' [].
Qed.
Lemma fatal_disciplined : disciplined false None None onBlockFatal.
Proof.
  apply (stop_disciplined false None None). intros e res He. split; [by exists e|].
  intros [r| |]; simpl; [|done..]. by destruct (rAuto r).
Qed.
Lemma request_disciplined q : disciplined false None None (program q).
Proof.
  destruct q as [auto| | | | |]; cbn [program].
  - intros []; [apply start_disciplined|done].
  - apply start_disciplined.
  - apply stop_disciplined. intros e [] He; [split; [by exists e|done]..|done].
  - by apply restart_disciplined.
  - intros [r| |]; try done. intros []; [by apply (restart_disciplined false None (fun _ => Ret))|done].
  - split; [done|]. intros g []; [|done]. by apply stop_disciplined.
Qed.

(** ** The invariant *)

Definition thread_ok (t : thread) : Prop := disciplined (owner t) (holds t) (snd <$> seen t) (code t).
Definition bit (b : bool) : nat := if b then 1 else 0.
Definition owners (ts : list thread) : nat := sum_list_with (fun t => bit (owner t)) ts.
Definition held (t : thread) : list nat := option_list (holds t).
(** Where the graphs are that no thread holds. *)
Definition places (s : shared) : list nat := option_list (live s) ++ map graph (removed s) ++ map fst (refused s).

(** [g] was started after the first [n] instances. *)
Definition later (s : shared) (n g : nat) : Prop := exists j, n <= j /\ started s !! j = Some g.

(** What a removal says: the [StopFlow] before it ran to its end, stopped the
    graph it found unless that did not drain, and found the graph removed
    unless that was started after the lookup. *)
Definition removal_ok (s : shared) (r : removal) : Prop :=
  match since r with
  | Some (n, Released g) => g ∈ stopped s /\ (graph r = g \/ later s n (graph r))
  | Some (n, Undrained g) => graph r = g \/ later s n (graph r)
  | Some (n, Absent) => later s n (graph r)
  | _ => False
  end.

(** The graph a [StopFlow] found was the last of those started by then. *)
Definition sight_ok (s : shared) (e : sight) : Prop :=
  fst e <= length (started s) /\
  match snd e with
  | Absent => fst e = length (started s) -> live s = None
  | Found g | Undrained g => last (take (fst e) (started s)) = Some g
  | Drained g => last (take (fst e) (started s)) = Some g /\ g ∈ drained s
  | Released g => last (take (fst e) (started s)) = Some g /\ g ∈ stopped s
  end.

Record shared_ok (s : shared) : Prop := {
  so_live : forall g, live s = Some g -> last (started s) = Some g;
  so_drained : forall g, g ∈ stopped s -> g ∈ drained s;
  so_removed : Forall (removal_ok s) (removed s) }.

(** What a call may do to the shared state, seen by another thread. *)
Definition keeps_lists (s s' : shared) : Prop :=
  (exists l, started s' = started s ++ l /\ (l = [] -> live s = None -> live s' = None)) /\
  drained s ⊆ drained s' /\ stopped s ⊆ stopped s'.

Lemma same_lists_extend s s' :
  started s' = started s -> drained s' = drained s -> stopped s' = stopped s ->
  (live s = None -> live s' = None) -> keeps_lists s s'.
Proof.
  intros Hs Hd Ht Hl. unfold keeps_lists. rewrite Hs, Hd, Ht. split_and!; [|done..]. exists []. by rewrite app_nil_r.
Qed.
Lemma later_kept s s' n g : keeps_lists s s' -> later s n g -> later s' n g.
Proof.
  intros [(l & El & _) _] (j & Hj & Hg). exists j. split; [done|]. rewrite El. by apply lookup_app_l_Some.
Qed.
Lemma removal_kept s s' r : keeps_lists s s' -> removal_ok s r -> removal_ok s' r.
Proof.
  intros He. pose proof He as (_ & _ & Hst). unfold removal_ok. destruct (since r) as [[n []]|]; try done.
  - by apply later_kept.
  - intros [?|?]; [by left|right; by eapply later_kept].
  - intros [? [?|?]]; (split; [by apply Hst|]); [by left|right; by eapply later_kept].
Qed.
Lemma sight_kept s s' e : keeps_lists s s' -> sight_ok s e -> sight_ok s' e.
Proof.
  intros ((l & El & Hl) & Hd & Hst) [Hn He]. unfold sight_ok. rewrite El, length_app.
  split; [lia|]. rewrite take_app_le by lia. destruct (snd e); try done.
  - intros Hlen. apply Hl; [|apply He; lia]. apply length_zero_iff_nil. lia.
  - destruct He. auto.
  - destruct He. auto.
Qed.

(** The graph under the key, as a settled [StopFlow] allows it to be. *)
Lemma sighted_removal s n e g :
  shared_ok s -> live s = Some g -> sight_ok s (n, e) -> settled e = true -> removal_ok s (MkRemoval g (Some (n, e))).
Proof.
  intros [Hlive _ _] Hg [Hn He] Hset. specialize (Hlive g Hg). simpl in Hn, He.
  assert (n <> length (started s) -> later s n g) as Hlater.
  { intros Hne. exists (pred (length (started s))). split; [lia|]. by rewrite <- last_lookup. }
  assert (forall g', last (take n (started s)) = Some g' -> g = g' \/ later s n g) as Hfound.
  { intros g' Hg'. destruct (decide (n = length (started s))) as [->|Hne]; [|auto].
    rewrite take_ge in Hg' by lia. left. congruence. }
  unfold removal_ok. simpl. destruct e as [| | | |g']; try done; simpl.
  - apply Hlater. intros Hlen. specialize (He Hlen). congruence.
  - by apply Hfound.
  - destruct He as [He Hst]. auto.
Qed.

Definition seen_ok (s : shared) (t : thread) : Prop := forall e, seen t = Some e -> sight_ok s e.

Record world_ok (w : world) : Prop := {
  wo_threads : Forall thread_ok (threads w);
  wo_seen : Forall (seen_ok (sh w)) (threads w);
  wo_shared : shared_ok (sh w);
  wo_owner : owners (threads w) = bit (restarting (sh w));
  wo_graphs : (threads w ≫= held) ++ places (sh w) ≡ₚ seq 0 (built (sh w)) }.

Record call_ok (s : shared) (t : thread) (s' : shared) (t' : thread) (new : list thread) : Prop := {
  co_threads : thread_ok t' /\ Forall thread_ok new;
  co_seen : keeps_lists s s' /\ seen_ok s' t' /\ Forall (seen_ok s') new;
  co_shared : shared_ok s';
  co_owner : bit (owner t') + owners new + bit (restarting s) = bit (owner t) + bit (restarting s');
  co_new : new ≫= held = [];
  co_grow : built s <= built s';
  co_graphs : held t' ++ places s' ≡ₚ held t ++ places s ++ seq (built s) (built s' - built s) }.

(** A call that changes neither the key nor the lists. *)
Lemma quiet_call s r b t t' :
  shared_ok s -> thread_ok t' -> seen_ok s t' -> holds t' = holds t ->
  bit (owner t') + bit (restarting s) = bit (owner t) + bit b ->
  call_ok s t (with_restarting (with_row s r) b) t' [].
Proof.
  intros [H1 H2 H3] Ht Hs Hh Ho. split; simpl; try done.
  - split_and!; [|done..]. by apply same_lists_extend.
  - lia.
  - unfold held. rewrite Hh, Nat.sub_diag. simpl. by rewrite app_nil_r.
Qed.

(** A call that moves no graph, and keeps_lists the lists of drained and stopped. *)
Lemma stop_call s s' t t' :
  shared_ok s -> keeps_lists s s' -> started s' = started s -> live s' = live s -> removed s' = removed s -> refused s' = refused s ->
  restarting s' = restarting s -> built s' = built s -> (forall g, g ∈ stopped s' -> g ∈ drained s') ->
  thread_ok t' -> seen_ok s' t' -> owner t' = owner t -> holds t' = holds t -> call_ok s t s' t' [].
Proof.
  intros [H1 H2 H3] He Est El Erm Erf Ers Eb Hsd Ht Hs Ho Hh.
  split; simpl; try done.
  - split; [by rewrite El, Est|done|]. rewrite Erm. eapply Forall_impl; [exact H3|]. intros r. by apply removal_kept.
  - rewrite Ho, Ers. lia.
  - lia.
  - unfold held, places. rewrite Hh, El, Erm, Erf, Eb, Nat.sub_diag. simpl. by rewrite app_nil_r.
Qed.

Lemma build_call s t t' :
  shared_ok s -> thread_ok t' -> seen_ok s t' -> owner t' = owner t -> holds t = None -> holds t' = Some (built s) ->
  call_ok s t (with_built s) t' [].
Proof.
  intros [H1 H2 H3] Ht Hs Ho Hn Hh. split; simpl; try done.
  - split_and!; [|done..]. by apply same_lists_extend.
  - rewrite Ho. lia.
  - lia.
  - unfold held. rewrite Hn, Hh. replace (S (built s) - built s) with 1 by lia. simpl. apply Permutation_cons_append.
Qed.

Lemma start_call c s s' r g t t' :
  shared_ok s -> seen_ok s t -> StartFlow c s g = (s', r) -> thread_ok t' -> seen t' = seen t ->
  owner t' = owner t -> holds t = Some g -> holds t' = None -> call_ok s t s' t' [].
Proof.
  intros [H1 H2 H3] Hs Hst Ht Hse Ho Hh Hn.
  assert (forall s', keeps_lists s s' -> seen_ok s' t') as Hs'.
  { intros s0 He e. rewrite Hse. intros Hx. eapply sight_kept; [done|]. by apply Hs. }
  assert (forall r', call_ok s t (with_refused s g r') t' []) as Hrefused.
  { intros r'. split; simpl; try done.
    - split_and!; [|apply Hs'|done]; by apply same_lists_extend.
    - rewrite Ho. lia.
    - unfold held, places. rewrite Hh, Hn, Nat.sub_diag. simpl. rewrite map_app, app_nil_r, !app_assoc. simpl.
      symmetry. apply Permutation_cons_append. }
  unfold StartFlow in Hst. destruct (live s) as [g'|] eqn:El; [by injection Hst as <- <-|].
  destruct c; injection Hst as <- <-; [|done].
  assert (keeps_lists s (with_started s g)) as He by (split_and!; [|done..]; exists [g]; by split).
  split; simpl; try done.
  - split_and!; [done|by apply Hs'|done].
  - split; simpl; [|done|].
    + intros g' [= <-]. apply last_snoc.
    + eapply Forall_impl; [exact H3|]. intros x. by apply removal_kept.
  - rewrite Ho. lia.
  - unfold held, places. rewrite Hh, Hn, El, Nat.sub_diag. simpl. by rewrite app_nil_r.
Qed.

Lemma unregister_call s t t' e :
  shared_ok s -> seen_ok s t -> snd <$> seen t = Some e -> settled e = true -> thread_ok t' -> seen t' = None ->
  owner t' = owner t -> holds t' = holds t -> call_ok s t (UnregisterFlow s (seen t)) t' [].
Proof.
  intros Hok Hs Het Hset Ht Hn Ho Hh. pose proof Hok as [H1 H2 H3].
  assert (keeps_lists s (UnregisterFlow s (seen t))) as He by (by apply same_lists_extend).
  destruct (seen t) as [[n e']|] eqn:Ese; [|done]. injection Het as ->.
  split; simpl; try done.
  - split_and!; [done| |done]. intros x Hx. by rewrite Hn in Hx.
  - split; simpl; [done|done|]. apply Forall_app. split.
    + eapply Forall_impl; [exact H3|]. intros x. by apply removal_kept.
    + destruct (live s) as [g|] eqn:El; simpl; [|constructor]. repeat constructor.
      eapply removal_kept; [done|]. apply sighted_removal; try done. by apply Hs.
  - rewrite Ho. lia.
  - unfold held, places. simpl. rewrite Hh, Nat.sub_diag. simpl. rewrite app_nil_r, map_app. apply Permutation_app_head.
    destruct (live s) as [g|]; simpl; [|by rewrite app_nil_r]. rewrite <- app_assoc. symmetry. apply Permutation_middle.
Qed.

Lemma exec_ok c s t s' t' new :
  shared_ok s -> thread_ok t -> seen_ok s t -> (owner t = true -> restarting s = true) ->
  exec c s t = Some (s', t', new) -> call_ok s t s' t' new.
Proof.
  intros Hok Hp Hs Ho. destruct t as [o h e p]. unfold thread_ok in Hp. simpl in Hp, Ho.
  assert (forall r t', thread_ok t' -> owner t' = o -> holds t' = h -> seen_ok s t' ->
    call_ok s (MkThread o h e p) (with_row s r) t' []) as Hrow.
  { intros r t0 Ht <- <- Hst. by apply (quiet_call s r (restarting s)). }
  assert (forall t', thread_ok t' -> owner t' = o -> holds t' = h -> seen_ok s t' -> call_ok s (MkThread o h e p) s t' [])
    as Hkeep by (specialize (Hrow (row s)); by destruct s).
  destruct p as [|auto k|k|st k|k|k|g k|k|g k|g k|g k|k|k|k|k|k|k|]; simpl in Hp; unfold exec; cbn [code owner holds seen].
  - done.
  - destruct (row s); [|destruct c]; intros [= <- <- <-]; (apply Hrow || apply Hkeep); try done; apply Hp.
  - intros [= <- <- <-]. apply Hkeep; try done. apply Hp.
  - intros [= <- <- <-]. by apply Hrow.
  - destruct c; intros [= <- <- <-]; by (apply Hrow || apply Hkeep).
  - destruct Hp as (-> & Hn & Hb). destruct c; intros [= <- <- <-]; [|by apply Hkeep].
    apply build_call; try done. apply Hb.
  - destruct Hp as [-> Hk]. destruct (StartFlow c s g) as [s1 r] eqn:E. intros [= <- <- <-].
    eapply start_call; try done. apply Hk.
  - destruct Hp as [Hn Hf]. intros [= <- <- <-]. apply Hkeep; try done; simpl.
    + unfold thread_ok. simpl. destruct (live s); [apply Hf|exact Hn].
    + intros x [= <-]. unfold sight_ok. simpl. split; [done|]. destruct (live s) as [g|] eqn:El; [|done].
      rewrite take_ge by done. by apply so_live.
  - destruct Hp as (Hse & Ht & Hf). destruct e as [[n e]|]; [|done]. injection Hse as ->.
    destruct (Hs _ eq_refl) as [Hle Hlast]. destruct c; intros [= <- <- <-].
    + apply stop_call; try done; simpl.
      * split_and!; [|set_solver|done]. exists []. by rewrite app_nil_r.
      * intros x Hx. apply elem_of_app. left. by apply so_drained.
      * intros x [= <-]. split; [done|]. split; [done|]. simpl. set_solver.
    + apply Hkeep; try done. intros x [= <-]. by split.
  - destruct Hp as (Hse & Hk). destruct e as [[n e]|]; [|done]. injection Hse as ->.
    destruct (Hs _ eq_refl) as [Hle [Hlast Hdr]]. intros [= <- <- <-]. apply stop_call; try done; simpl.
    + split_and!; [|done|set_solver]. exists []. by rewrite app_nil_r.
    + intros x [Hx| ->%list_elem_of_singleton]%elem_of_app; [by apply so_drained|done].
    + intros x [= <-]. split; [done|]. split; [done|]. simpl. set_solver.
  - intros [= <- <- <-]. apply Hkeep; try done. apply Hp.
  - destruct Hp as [(e' & He & Hset) Hk]. intros [= <- <- <-]. by eapply (unregister_call s (MkThread o h e _)).
  - intros [= <- <- <-]. apply Hkeep; try done. apply Hp.
  - destruct Hp as (-> & Ht & Hf). unfold beginRestart. destruct (restarting s) eqn:Er; intros [= <- <- <-]; [by apply Hkeep|].
    apply (quiet_call s (row s) true); try done. simpl. by rewrite Er.
  - destruct Hp as [-> Hk]. specialize (Ho eq_refl). intros [= <- <- <-]. unfold endRestart.
    apply (quiet_call s (row s) false); try done. simpl. by rewrite Ho.
  - destruct Hp as [-> Hk]. intros [= <- <- <-]. split; simpl; try done.
    + split; [done|]. by repeat constructor.
    + split_and!; [by apply same_lists_extend|done|]. by repeat constructor.
    + rewrite Nat.sub_diag. simpl. by rewrite app_nil_r.
  - intros [= <- <- <-]. by apply Hkeep.
  - destruct Hp as [-> ->]. intros [= <- <- <-]. apply Hkeep; try done. apply round_disciplined.
Qed.

Lemma owners_app k l : owners (k ++ l) = owners k + owners l.
Proof. unfold owners. apply sum_list_with_app. Qed.

(** The graphs of a world after one thread's call. *)
Lemma graphs_moved l1 (h h' l2 p p' : list nat) n n' :
  n <= n' -> h' ++ p' ≡ₚ h ++ p ++ seq n (n' - n) -> (l1 ++ h ++ l2) ++ p ≡ₚ seq 0 n ->
  (l1 ++ h' ++ l2) ++ p' ≡ₚ seq 0 n'.
Proof.
  intros Hn Hmove Hold. replace n' with (n + (n' - n)) by lia. rewrite seq_app, <- Hold.
  assert (forall x y : list nat, (l1 ++ x ++ l2) ++ y ≡ₚ (l1 ++ l2) ++ x ++ y) as Hswap.
  { intros x y. rewrite (Permutation_app_comm x l2). by rewrite <- !app_assoc. }
  rewrite !Hswap, Hmove. by rewrite <- !app_assoc.
Qed.

(** A thread that starts with a disciplined program. *)
Lemma spawn_ok w p : world_ok w -> disciplined false None None p ->
  world_ok (MkWorld (sh w) (threads w ++ [MkThread false None None p])).
Proof.
  intros [Hth Hse Hsh How Hgr] Hp. split; simpl; [| |done| |].
  - apply Forall_app. split; [done|]. by repeat constructor.
  - apply Forall_app. split; [done|]. by repeat constructor.
  - rewrite owners_app. cbn. lia.
  - rewrite bind_app. cbn. by rewrite app_nil_r.
Qed.

Lemma life_step_ok w l w' : world_ok w -> wstep w l = Some w' -> world_ok w'.
Proof.
  intros Hw. pose proof Hw as [Hth Hse Hsh How Hgr]. destruct l as [q|g|i c]; cbn [wstep].
  - intros [= <-]. apply spawn_ok; [done|apply request_disciplined].
  - destruct (g <? built (sh w)); [|done]. intros [= <-]. apply spawn_ok; [done|apply fatal_disciplined].
  - destruct (threads w !! i) as [t|] eqn:Ei; [|done]. simpl.
    destruct (exec c (sh w) t) as [[[s' t'] new]|] eqn:Ee; [|done]. intros [= <-].
    apply list_elem_of_split_length in Ei as (l1 & l2 & Hl & ->). rewrite Hl in *.
    apply Forall_app in Hth as [H1 [Ht H2]%Forall_cons]. apply Forall_app in Hse as [S1 [St S2]%Forall_cons].
    rewrite owners_app in How. cbn [owners sum_list_with] in How.
    destruct (exec_ok c (sh w) t s' t' new) as [[Hc1 Hc2] (He & Hs1 & Hs2) Hs3 Hc3 Hc4 Hc5 Hc6]; try done.
    { intros Hot. rewrite Hot in How. cbn [bit] in How. destruct (restarting (sh w)); [done|]. cbn [bit] in How. lia. }
    assert (forall ts, Forall (seen_ok (sh w)) ts -> Forall (seen_ok s') ts) as Hmono.
    { intros ts Hts. eapply Forall_impl; [exact Hts|]. intros x Hx e Hxe. eapply sight_kept; [done|]. by apply Hx. }
    rewrite insert_app_r_alt by lia. rewrite Nat.sub_diag. simpl. split; simpl; [| |done| |].
    + apply Forall_app. split; [apply Forall_app; auto|done].
    + apply Forall_app. split; [apply Forall_app; auto|done].
    + rewrite !owners_app. cbn [owners sum_list_with]. fold (owners l2) in *. lia.
    + rewrite !bind_app in *. cbn [mbind list_bind] in *. rewrite Hc4, app_nil_r.
      by apply (graphs_moved _ (held t) _ _ (places (sh w)) _ (built (sh w))).
Qed.

Lemma life_reachable_ok w : reachable w -> world_ok w.
Proof. induction 1 as [|w l w' _ IH Hs]; [by repeat constructor|]. by eapply life_step_ok. Qed.

(** When every thread has ended, none holds a graph or the restart loop. *)
Lemma ended_hold_nothing ts :
  Forall thread_ok ts -> Forall (fun t => code t = Ret) ts -> owners ts = 0 /\ ts ≫= held = [].
Proof.
  induction 1 as [|t ts Ht _ IH]; [done|]. intros [Hc Hret]%Forall_cons. destruct (IH Hret) as [H1 H2].
  unfold thread_ok in Ht. rewrite Hc in Ht. destruct Ht as [Ho Hd].
  cbn [owners sum_list_with mbind list_bind]. unfold held at 1. rewrite Ho, Hd. by split.
Qed.

(** ** The guarantees *)

(** The [StopFlow] before the removal stopped the very graph removed. *)
Definition clean (r : removal) : bool :=
  match since r with Some (_, Released g) => g =? graph r | _ => false end.

(** C28. At most one restart loop rebuilds a flow, and its graphs of blocks are
    accounted for: in every interleaving of requests, fatal callbacks and
    restarts, between and inside the calls of [StopFlow], the restart flag is
    set exactly while one thread holds the loop; every graph built is in exactly
    one place, with the thread that built it, under the flow's key, taken out of
    it, or refused by [StartFlow]; blocks are stopped only after their lanes
    drained; and every graph taken out was taken out after a [StopFlow] of the
    same thread that ran to its end and stopped what it found, unless that did
    not drain: the graph taken out is the one found, or was started after the
    lookup. So when all threads have ended, the flag is clear, and a graph that
    is not live was stopped, unless it was refused, or taken out after a failed
    drain or by a thread that was overtaken. *)
Theorem flow_ownership w :
  reachable w ->
  owners (threads w) = bit (restarting (sh w)) /\
  NoDup ((threads w ≫= held) ++ places (sh w)) /\
  (forall g, g ∈ (threads w ≫= held) ++ places (sh w) <-> g < built (sh w)) /\
  (forall g, g ∈ stopped (sh w) -> g ∈ drained (sh w)) /\
  Forall (removal_ok (sh w)) (removed (sh w)) /\
  (Forall (fun t => code t = Ret) (threads w) -> restarting (sh w) = false /\
     forall g, g < built (sh w) -> live (sh w) <> Some g ->
       g ∈ stopped (sh w) \/ g ∈ map fst (refused (sh w)) \/
       exists r, r ∈ removed (sh w) /\ graph r = g /\ clean r = false).
Proof.
  intros Hr. destruct (life_reachable_ok w Hr) as [Hth _ [_ Hdr Hrm] How Hgr]. split_and!; try done.
  - rewrite Hgr. apply NoDup_seq.
  - intros g. rewrite Hgr, elem_of_seq. lia.
  - intros Hret. destruct (ended_hold_nothing _ Hth Hret) as [H0 Hh]. split; [destruct (restarting (sh w)); [cbn in How; lia|done]|].
    intros g Hg Hl. assert (g ∈ places (sh w)) as Hin.
    { rewrite Hh in Hgr. simpl in Hgr. rewrite Hgr. apply elem_of_seq. lia. }
    unfold places in Hin. apply elem_of_app in Hin as [Hin|[Hin|Hin]%elem_of_app]; [|clear Hl|auto].
    { destruct (live (sh w)); simpl in Hin; [|by apply not_elem_of_nil in Hin].
      apply list_elem_of_singleton in Hin. congruence. }
    apply list_elem_of_fmap in Hin as (r & -> & Hin). destruct (clean r) eqn:Ec; [left|right; right; by exists r].
    rewrite Forall_forall in Hrm. specialize (Hrm r Hin). unfold removal_ok, clean in *.
    destruct (since r) as [[n []]|]; try done. apply Nat.eqb_eq in Ec as <-. apply Hrm.
Qed.

(** ** Runs *)

Definition calls (i n : nat) : list label := replicate n (Call i true).
Definition created (auto : bool) : list label := Request (ReqCreate auto) :: calls 0 6.

(** A reload has built its new graph when the flow is deleted. *)
Definition reload_meets_delete : list label :=
  created true ++ [Request ReqReload] ++ calls 1 7 ++ [Request ReqDelete] ++ calls 2 3 ++ calls 1 3.
(** A block of the rebuilt graph dies before the restart loop has let go. *)
Definition death_meets_restart : list label :=
  created true ++ [Die 0] ++ calls 1 8 ++ calls 2 11 ++ [Die 1] ++ calls 3 7 ++ calls 2 1.
(** A boot-time start of a flow that is already live. *)
Definition double_start : list label := created true ++ [Request ReqRehydrate] ++ calls 1 3.
(** A fatal callback of the old graph is overtaken by a reload. *)
Definition callback_meets_reload : list label :=
  created false ++ [Die 0] ++ calls 1 1 ++ [Request ReqReload] ++ calls 2 10 ++ calls 1 5.
(** A deletion has looked the instance up when a reload replaces it. *)
Definition delete_meets_reload : list label :=
  created true ++ [Request ReqDelete] ++ calls 1 1 ++ [Request ReqReload] ++ calls 2 10 ++ calls 1 4.

(** The row, the key, the restart flag, the graphs stopped, taken out and
    refused, and the programs left. *)
Definition outcome (ls : list label) :=
  (fun w => (row (sh w), live (sh w), restarting (sh w), stopped (sh w), map graph (removed (sh w)),
    map fst (refused (sh w)), map code (threads w))) <$> run init ls.

(** The world the last of these runs ends in. *)
Definition leaky_world : world := default init (run init delete_meets_reload).

Lemma flow_ownership_witness :
  removed (sh leaky_world) = [MkRemoval 0 (Some (1, Released 0)); MkRemoval 1 (Some (1, Released 0))] /\
  Forall (removal_ok (sh leaky_world)) (removed (sh leaky_world)).
Proof.
  split; [vm_compute; reflexivity|].
  refine (proj1 (proj2 (proj2 (proj2 (proj2 (flow_ownership leaky_world _)))))).
  apply (life_run_reachable init delete_meets_reload); [exact reach_init|]. vm_compute. reflexivity.
Defined.

(** A deleted flow can go on running: a reload that has read the row before the
    deletion starts its graph after it, and no row, request or callback refers
    to the live instance any more. *)
Theorem deleted_flow_runs :
  outcome reload_meets_delete = Some (None, Some 1, false, [0], [0], [], [Ret; Ret; Ret]).
Proof. vm_compute. reflexivity. Qed.

(** A restart can be lost: when a block of the rebuilt graph dies before the
    restart loop has released its claim, the callback leaves the rebuilding to
    the loop, which is about to end; the flow stays down although it is to be
    restarted automatically. *)
Theorem restart_lost :
  outcome death_meets_restart =
    Some (Some (MkFRow true SFailed), None, false, [0; 1], [0; 1], [], [Ret; Ret; Ret; Ret]).
Proof. vm_compute. reflexivity. Qed.

(** Starting a flow that is already live leaks the blocks built for it and
    leaves the row at "creating" although the instance runs. *)
Theorem double_start_leaks :
  outcome double_start = Some (Some (MkFRow true SCreating), Some 0, false, [], [], [1], [Ret; Ret]).
Proof. vm_compute. reflexivity. Qed.

(** The callback of a graph that was replaced stops its successor: the row says
    "running", and nothing is live. *)
Theorem stale_callback_stops_reload :
  outcome callback_meets_reload = Some (Some (MkFRow false SRunning), None, false, [0; 1], [0; 1], [], [Ret; Ret; Ret]).
Proof. vm_compute. reflexivity. Qed.

(** A deletion overtaken by a reload stops the old graph again and takes the
    new one out without stopping it: its blocks run on, out of reach. *)
Theorem overtaken_delete_leaks :
  outcome delete_meets_reload = Some (None, None, false, [0; 0], [0; 1], [], [Ret; Ret; Ret]).
Proof. vm_compute. reflexivity. Qed.

(** The delays of the restart loop stay between a second and thirty seconds. *)

Lemma next_delay_bounds d :
  (restartBackoffBase <= d <= restartBackoffMax -> restartBackoffBase <= next_delay d <= restartBackoffMax)%Z.
Proof.
  unfold next_delay, restartBackoffBase, restartBackoffMax. destruct (30000000000 <? d * 2)%Z eqn:E; bool_hyps; lia.
Qed.

End FlowLifecycle.
