(* ===== verification/FlowRouter.v ===== *)
(** * The flow router

    [internal/flow/router.go]: messages are hashed by key to lanes, each a
    bounded channel with one goroutine that runs the block graph. [Submit]
    holds the read lock while it sends, so the write lock of [Drain] is taken
    only when no sender is blocked. *)

From S2P Require Import Prelude GoStrings PayloadJson Rows FlowGraph FlowRun Router.

Module FlowRouter.
Import FlowRun.

Definition DefaultLaneCount : Z := 16.
Definition DefaultLaneCapacity : Z := 256.
Inductive OverflowPolicy := OverflowBlock | OverflowDrop.

Record RouterConfig := MkRouterConfig {
  Lanes : Z; LaneCapacity : Z; QoS0Overflow : OverflowPolicy; QoS1Overflow : OverflowPolicy }.

Definition with_defaults (cfg : RouterConfig) : RouterConfig :=
  MkRouterConfig (if (Lanes cfg <=? 0)%Z then DefaultLaneCount else Lanes cfg)
    (if (LaneCapacity cfg <=? 0)%Z then DefaultLaneCapacity else LaneCapacity cfg)
    (QoS0Overflow cfg) (QoS1Overflow cfg).

(** The same FNV-1a hash as the engine's. *)
Definition laneOf (key : gostring) (n : Z) : Z := Router.shardOf key n.

Section Router.
Context {St Msg E : Type} (key_of : Msg -> gostring) (graph : list (Block St Msg E)).

(** A lane: its channel, the senders blocked on it, and whether its goroutine
    has returned. *)
Record lane := MkLane { queue : list Msg; blocked : list Msg; finished : bool }.

(** [blocks] is the state the blocks share; [accepted], [processed] and
    [dropped] record the messages in order. *)
Record router := MkRouter {
  lanes : list lane;
  closed : bool;
  blocks : St;
  blockErrors : nat;
  accepted : list Msg;
  processed : list Msg;
  dropped : list Msg }.

(** The configuration the router keeps and its first state. *)
Definition NewRouter (cfg : RouterConfig) (st : St) : RouterConfig * router :=
  let cfg := with_defaults cfg in
  (cfg, MkRouter (replicate (Z.to_nat (Lanes cfg)) (MkLane [] [] false)) false st 0 [] [] []).

Definition drops (cfg : RouterConfig) (qos : Z) : bool :=
  match (if (qos =? 0)%Z then QoS0Overflow cfg else QoS1Overflow cfg) with OverflowDrop => true | OverflowBlock => false end.

Definition full (cfg : RouterConfig) (l : lane) : bool := (LaneCapacity cfg <=? Z.of_nat (length (queue l)))%Z.

Definition Submit (cfg : RouterConfig) (r : router) (m : Msg) (qos : Z) : option router :=
  if closed r then Some r
  else
    let i := Z.to_nat (laneOf (key_of m) (Lanes cfg)) in
    match lanes r !! i with
    | None => None
    | Some l =>
        if negb (full cfg l) then
          Some (MkRouter (<[i := MkLane (queue l ++ [m]) (blocked l) (finished l)]> (lanes r)) (closed r) (blocks r)
                  (blockErrors r) (accepted r ++ [m]) (processed r) (dropped r))
        else if drops cfg qos then
          Some (MkRouter (lanes r) (closed r) (blocks r) (blockErrors r) (accepted r) (processed r) (dropped r ++ [m]))
        else
          Some (MkRouter (<[i := MkLane (queue l) (blocked l ++ [m]) (finished l)]> (lanes r)) (closed r) (blocks r)
                  (blockErrors r) (accepted r ++ [m]) (processed r) (dropped r))
    end.

(** [processOne]: the outputs are discarded, an error is counted. A run of the
    graph is one step of the model; a panic of a block is one of its errors. *)
Definition processOne (st : St) (errs : nat) (m : Msg) : St * nat :=
  match Run graph st m with
  | (st, Ok _) => (st, errs)
  | (st, Err _) => (st, S errs)
  end.

Inductive label := Send (m : Msg) (qos : Z) | Deliver (i : nat) | Close | Exit (i : nat).

Definition step (cfg : RouterConfig) (r : router) (lb : label) : option router :=
  match lb with
  | Send m qos => Submit cfg r m qos
  | Deliver i =>
      match lanes r !! i with
      | Some (MkLane (m :: rest) bl false) =>
          let '(st, errs) := processOne (blocks r) (blockErrors r) m in
          Some (MkRouter (<[i := MkLane (rest ++ take 1 bl) (drop 1 bl) false]> (lanes r)) (closed r) st errs
                  (accepted r) (processed r ++ [m]) (dropped r))
      | _ => None
      end
  | Close =>
      if forallb (fun l => match blocked l with [] => true | _ => false end) (lanes r)
      then Some (MkRouter (lanes r) true (blocks r) (blockErrors r) (accepted r) (processed r) (dropped r)) else None
  | Exit i =>
      match lanes r !! i with
      | Some (MkLane [] [] false) =>
          if closed r then
            Some (MkRouter (<[i := MkLane [] [] true]> (lanes r)) (closed r) (blocks r) (blockErrors r)
                    (accepted r) (processed r) (dropped r))
          else None
      | _ => None
      end
  end.

Inductive reachable (cfg0 : RouterConfig) (st : St) : router -> Prop :=
| reach_init : reachable cfg0 st (NewRouter cfg0 st).2
| reach_step r lb r' : reachable cfg0 st r -> step (with_defaults cfg0) r lb = Some r' -> reachable cfg0 st r'.

(** ** The invariant *)

Definition has_key (k : gostring) (m : Msg) : Prop := key_of m = k.
#[export] Instance has_key_dec k m : Decision (has_key k m).
Proof. unfold has_key. apply _. Defined.
Definition pending (l : lane) : list Msg := queue l ++ blocked l.
Definition home (cfg : RouterConfig) (k : gostring) : nat := Z.to_nat (laneOf k (Lanes cfg)).

Record lane_ok (cfg : RouterConfig) (r : router) (i : nat) (l : lane) : Prop := {
  lo_home : Forall (fun m => home cfg (key_of m) = i) (pending l);
  lo_bound : (Z.of_nat (length (queue l)) <= LaneCapacity cfg)%Z;
  lo_full : blocked l <> [] -> Z.of_nat (length (queue l)) = LaneCapacity cfg;
  lo_closed : closed r = true -> blocked l = [];
  lo_finished : finished l = true -> pending l = [] /\ closed r = true }.

Record router_ok (cfg : RouterConfig) (r : router) : Prop := {
  ro_lanes : forall i l, lanes r !! i = Some l -> lane_ok cfg r i l;
  ro_order : forall k l, lanes r !! home cfg k = Some l ->
    filter (has_key k) (accepted r) = filter (has_key k) (processed r) ++ filter (has_key k) (pending l);
  ro_all : accepted r ≡ₚ processed r ++ (lanes r ≫= pending) }.

(** One lane changes: it takes in [da] and gives up [dp]. *)
Lemma lane_moves cfg r i l l' cl st errs da dp dr :
  router_ok cfg r -> lanes r !! i = Some l -> cl = closed r ->
  pending l ++ da = dp ++ pending l' -> Forall (fun m => home cfg (key_of m) = i) (da ++ dp) ->
  let r' := MkRouter (<[i := l']> (lanes r)) cl st errs (accepted r ++ da) (processed r ++ dp) dr in
  lane_ok cfg r' i l' -> router_ok cfg r'.
Proof.
  intros [Hlanes Horder Hall] Hi -> Hpend Hhome r' Hl'. apply Forall_app in Hhome as [Hda Hdp].
  pose proof (lookup_lt_Some _ _ _ Hi) as Hlt. split.
  - intros j lj. cbn [lanes r']. destruct (decide (i = j)) as [->|Hij].
    + rewrite list_lookup_insert_eq by done. by intros [= <-].
    + rewrite list_lookup_insert_ne by done. intros Hj. destruct (Hlanes j lj Hj). by split.
  - intros k lk. cbn [lanes accepted processed r']. rewrite !filter_app.
    destruct (decide (i = home cfg k)) as [->|Hij].
    + rewrite list_lookup_insert_eq by done. intros [= <-]. rewrite (Horder k l Hi), <- !(assoc_L (++)).
      f_equal. rewrite <- !filter_app. by rewrite Hpend.
    + rewrite list_lookup_insert_ne by done. intros Hk.
      assert (forall d, Forall (fun m => home cfg (key_of m) = i) d -> filter (has_key k) d = []) as Hnil.
      { induction 1 as [|m d Hm _ IH]; [done|]. rewrite filter_cons_False; [done|]. intros <-. by apply Hij. }
      by rewrite (Hnil da Hda), (Hnil dp Hdp), !app_nil_r, (Horder k lk Hk).
  - cbn [lanes accepted processed r'].
    destruct (list_elem_of_split_length _ _ _ Hi) as (l1 & l2 & Hsplit & ->). rewrite Hsplit in *.
    rewrite insert_app_r_alt, Nat.sub_diag by done. cbn [insert list_insert]. rewrite bind_app, bind_cons in *.
    rewrite Hall. transitivity (processed r ++ (l1 ≫= pending) ++ (pending l ++ da) ++ (l2 ≫= pending)).
    + rewrite !(assoc_L (++)). solve_Permutation.
    + rewrite Hpend, !(assoc_L (++)). solve_Permutation.
Qed.

Lemma with_defaults_positive cfg : (0 < Lanes (with_defaults cfg))%Z /\ (0 < LaneCapacity (with_defaults cfg))%Z.
Proof. unfold with_defaults, DefaultLaneCount, DefaultLaneCapacity. cbn. destruct (Z.leb_spec (Lanes cfg) 0), (Z.leb_spec (LaneCapacity cfg) 0); split; lia. Qed.

Lemma home_lane cfg k : (0 < Lanes cfg)%Z -> home cfg k < Z.to_nat (Lanes cfg).
Proof.
  intros Hn. unfold home, laneOf, Router.shardOf.
  pose proof (Z.mod_pos_bound (foldl Router.fnv_step Router.offset64 k) (Lanes cfg) Hn). lia.
Qed.

(** Without senders waiting a lane is within its bound and open. *)
Lemma new_router_ok cfg0 st : router_ok (NewRouter cfg0 st).1 (NewRouter cfg0 st).2.
Proof.
  pose proof (with_defaults_positive cfg0) as [Hn Hc]. unfold NewRouter. cbn [fst snd]. revert Hn Hc. generalize (with_defaults cfg0) as cfg. intros cfg Hn Hc.
  split; cbn [lanes accepted processed].
  - intros i l [-> _]%lookup_replicate. split; cbn; [apply Forall_nil_2|lia|done|done|done].
  - intros k l [-> _]%lookup_replicate. done.
  - generalize (Z.to_nat (Lanes cfg)) as n. induction n as [|n IH]; [done|exact IH].
Qed.

Lemma drop_ok cfg r dr :
  router_ok cfg r ->
  router_ok cfg (MkRouter (lanes r) (closed r) (blocks r) (blockErrors r) (accepted r) (processed r) dr).
Proof. intros [Hl Ho Hall]. split; [|done|done]. intros i l Hi. by destruct (Hl i l Hi). Qed.

Lemma flow_submit_ok cfg r m qos r' : router_ok cfg r -> Submit cfg r m qos = Some r' -> router_ok cfg r'.
Proof.
  intros Hok. unfold Submit. destruct (closed r) eqn:Ec; [by intros [= <-]|].
  destruct (lanes r !! _) as [l|] eqn:El; [|done]. pose proof (ro_lanes _ _ Hok _ _ El) as [Hh Hb Hf Hcl Hfin].
  assert (finished l = false) as Efin. { destruct (finished l); [|done]. destruct (Hfin eq_refl). congruence. }
  destruct (full cfg l) eqn:Ef; cbn [negb].
  - destruct (drops cfg qos); [intros [= <-]; rewrite <- Ec; by apply drop_ok|]. intros [= <-].
    replace (processed r) with (processed r ++ []) by apply app_nil_r.
    apply Z.leb_le in Ef.
    eapply lane_moves; [done|exact El|done|cbn; by rewrite (assoc_L (++))|by repeat constructor|].
    split; cbn [queue blocked finished closed pending]; [|lia|lia|congruence|congruence].
    unfold pending in *. cbn. rewrite (assoc_L (++)). apply Forall_app. split; [done|by repeat constructor].
  - intros [= <-]. apply Z.leb_gt in Ef.
    assert (blocked l = []) as Ebl. { destruct (blocked l) eqn:?; [done|]. assert (Z.of_nat (length (queue l)) = LaneCapacity cfg) by (by apply Hf). lia. }
    replace (processed r) with (processed r ++ []) by apply app_nil_r.
    eapply lane_moves; [done|exact El|done|unfold pending; cbn [queue blocked]; by rewrite Ebl, !app_nil_r|by repeat constructor|].
    rewrite Ebl, Efin. split; cbn [queue blocked finished closed]; [| |done|done|done].
    + unfold pending in *. rewrite Ebl in Hh. cbn. rewrite app_nil_r in *. apply Forall_app. split; [done|by repeat constructor].
    + rewrite length_app. cbn. lia.
Qed.

Lemma flow_step_ok cfg r lb r' : router_ok cfg r -> step cfg r lb = Some r' -> router_ok cfg r'.
Proof.
  intros Hok. destruct lb as [m qos|i| |i]; cbn [step].
  - by apply flow_submit_ok.
  - destruct (lanes r !! i) as [[[|m rest] bl []]|] eqn:El; try done.
    destruct (processOne _ _ m) as [st errs]. intros [= <-].
    pose proof (ro_lanes _ _ Hok _ _ El) as [Hh Hb Hf Hcl Hfin]. cbn [queue blocked finished] in *.
    replace (accepted r) with (accepted r ++ []) by apply app_nil_r.
    assert (forall X (x : list X), take 1 x ++ drop 1 x = x) as Htd by (intros; apply take_drop).
    eapply lane_moves; [done|exact El|done| | |].
    + unfold pending. cbn [queue blocked]. by rewrite app_nil_r, <- (assoc_L (++)), Htd.
    + apply Forall_cons in Hh as [Hm _]. by repeat constructor.
    + unfold pending in *. cbn [queue blocked] in *. apply Forall_cons in Hh as [_ Hh].
      split; cbn [queue blocked finished closed].
      * unfold pending. cbn [queue blocked]. by rewrite <- (assoc_L (++)), Htd.
      * rewrite length_app, length_take. cbn [length] in *. lia.
      * rewrite length_app, length_take. destruct bl as [|b [|b' bl]]; [done|done|].
        intros _. rewrite <- Hf by done. cbn [length]. lia.
      * intros Hc. by rewrite (Hcl Hc).
      * done.
  - destruct (forallb _ _) eqn:Ea; [|done]. intros [= <-]. destruct Hok as [Hl Ho Hall].
    split; cbn [lanes accepted processed]; [|done|done].
    intros i l Hi. destruct (Hl i l Hi) as [Hh Hb Hf Hcl Hfin]. split; cbn [closed]; [done|done|done| |].
    + intros _. rewrite forallb_forall in Ea. specialize (Ea l). destruct (blocked l); [done|].
      ospecialize (Ea _); [|done]. apply list_elem_of_In. by eapply list_elem_of_lookup_2.
    + intros Hx. by destruct (Hfin Hx).
  - destruct (lanes r !! i) as [[[|] [|] []]|] eqn:El; try done. destruct (closed r) eqn:Ec; [|done].
    intros [= <-]. pose proof (with_defaults_positive cfg).
    pose proof (ro_lanes _ _ Hok _ _ El) as [Hh Hb Hf Hcl Hfin].
    replace (processed r) with (processed r ++ []) by apply app_nil_r.
    replace (accepted r) with (accepted r ++ []) by apply app_nil_r.
    eapply lane_moves; [done|exact El|done|done|constructor|]. by split.
Qed.

Lemma flow_reachable_ok cfg0 st r : reachable cfg0 st r -> router_ok (with_defaults cfg0) r /\ length (lanes r) = Z.to_nat (Lanes (with_defaults cfg0)).
Proof.
  induction 1 as [|r lb r' _ [IH Hlen] Hstep].
  - split; [apply new_router_ok|]. cbn. apply length_replicate.
  - split; [by eapply flow_step_ok|]. rewrite <- Hlen. clear IH Hlen.
    destruct lb; cbn [step] in Hstep; unfold Submit in Hstep; repeat case_match; simplify_eq; cbn [lanes]; by rewrite ?length_insert.
Qed.

(** ** Draining *)

Definition lane_work (l : lane) : nat := length (pending l) + (if finished l then 0 else 1).
Definition work (r : router) : nat := sum_list_with lane_work (lanes r).
Definition lane_step (lb : label) : bool := match lb with Deliver _ | Exit _ => true | _ => false end.

Lemma flow_work_insert r i l l' :
  lanes r !! i = Some l -> lane_work l' < lane_work l -> sum_list_with lane_work (<[i := l']> (lanes r)) < work r.
Proof.
  intros Hi Hlt. unfold work. revert i Hi. induction (lanes r) as [|x xs IH]; intros [|i] Hi; simplify_eq/=; [lia|].
  specialize (IH i Hi). lia.
Qed.

Lemma flow_lane_step_work cfg r lb r' : step cfg r lb = Some r' -> lane_step lb = true -> work r' < work r.
Proof.
  intros Hs Hl. destruct lb as [| i| |i]; try done; cbn [step] in Hs.
  - destruct (lanes r !! i) as [[[|m rest] bl []]|] eqn:El; try done.
    destruct (processOne _ _ m). simplify_eq. eapply flow_work_insert; [exact El|].
    unfold lane_work, pending. cbn [queue blocked finished]. rewrite !length_app, length_take, length_drop. cbn [length]. lia.
  - destruct (lanes r !! i) as [[[|] [|] []]|] eqn:El; try done. destruct (closed r); [|done]. simplify_eq.
    eapply flow_work_insert; [exact El|]. cbn. lia.
Qed.

Lemma closed_other_steps cfg r lb r' :
  closed r = true -> step cfg r lb = Some r' -> lane_step lb = false -> r' = r.
Proof.
  intros Hc Hs Hl. destruct lb as [m qos| | |]; try done; cbn [step] in Hs.
  - unfold Submit in Hs. rewrite Hc in Hs. by injection Hs.
  - case_match; [|done]. injection Hs as <-. destruct r. cbn in *. by rewrite Hc.
Qed.

Lemma flow_lane_progress cfg r i l :
  router_ok cfg r -> closed r = true -> lanes r !! i = Some l -> finished l = false ->
  exists lb r', lane_step lb = true /\ step cfg r lb = Some r'.
Proof.
  intros Hok Hc Hi Hf. pose proof (lo_closed _ _ _ _ (ro_lanes _ _ Hok i l Hi) Hc) as Hb.
  destruct l as [[|m q] bl f]; cbn in Hf, Hb; subst.
  - exists (Exit i). cbn [step]. rewrite Hi, Hc. by eexists.
  - exists (Deliver i). cbn [step]. rewrite Hi. destruct (processOne _ _ m). by eexists.
Qed.

Lemma flow_work_zero r : work r = 0 <-> forall i l, lanes r !! i = Some l -> lane_work l = 0.
Proof.
  unfold work. induction (lanes r) as [|x xs IH]; cbn [sum_list_with]; [done|].
  rewrite Nat.eq_add_0, IH. split.
  - intros [Hx Hxs] [|i] l Hi; simplify_eq/=; [done|by eapply Hxs].
  - intros H. split; [by apply (H 0)|]. intros i. exact (H (S i)).
Qed.

Lemma no_pending r : (forall i l, lanes r !! i = Some l -> pending l = []) -> lanes r ≫= pending = [].
Proof.
  induction (lanes r) as [|x xs IH]; intros Hp; [done|]. rewrite bind_cons, (Hp 0 x eq_refl).
  apply IH. intros i l Hi. exact (Hp (S i) l Hi).
Qed.

(** C29. Messages with one key are processed in submission order: the processed
    ones are a prefix of the submitted ones, the rest are in the lane of the
    key in order, no lane holds more than its capacity, and a sender waits
    only at a full lane. *)
Theorem flow_key_order cfg0 st r k :
  reachable cfg0 st r ->
  let cfg := with_defaults cfg0 in
  exists l, lanes r !! home cfg k = Some l /\
    filter (has_key k) (accepted r) = filter (has_key k) (processed r) ++ filter (has_key k) (queue l ++ blocked l) /\
    accepted r ≡ₚ processed r ++ (lanes r ≫= pending) /\
    (Z.of_nat (length (queue l)) <= LaneCapacity cfg)%Z /\
    (blocked l <> [] -> Z.of_nat (length (queue l)) = LaneCapacity cfg).
Proof.
  intros [Hok Hlen]%flow_reachable_ok cfg. pose proof (home_lane cfg k (proj1 (with_defaults_positive cfg0))) as Hk.
  destruct (lookup_lt_is_Some_2 (lanes r) (home cfg k)) as [l Hl]; [by rewrite Hlen|]. exists l.
  destruct (ro_lanes _ _ Hok _ _ Hl). split_and!; [done|by apply (ro_order _ _ Hok)|by eapply ro_all|done|done].
Qed.

(** Draining ends: once the router is closed, every step of a lane uses up
    some of a finite amount of work and any other step changes nothing, a
    step is possible while a lane has not returned, and when the work is used
    up every accepted message was processed. *)
Theorem flow_router_drains cfg0 st r :
  reachable cfg0 st r -> closed r = true ->
  (forall lb r', step (with_defaults cfg0) r lb = Some r' -> if lane_step lb then work r' < work r else r' = r) /\
  (work r <> 0 -> exists lb r', lane_step lb = true /\ step (with_defaults cfg0) r lb = Some r') /\
  (work r = 0 -> accepted r ≡ₚ processed r /\ Forall (fun l => finished l = true) (lanes r)).
Proof.
  intros [Hok _]%flow_reachable_ok Hc. split_and!.
  - intros lb r' Hs. destruct (lane_step lb) eqn:El; [by eapply flow_lane_step_work|by eapply closed_other_steps].
  - intros Hw. destruct (decide (Forall (fun l => finished l = true) (lanes r))) as [Hall|Hnot].
    + destruct Hw. apply flow_work_zero. intros i l Hl.
      rewrite Forall_lookup in Hall. specialize (Hall i l Hl).
      destruct (lo_finished _ _ _ _ (ro_lanes _ _ Hok i l Hl) Hall) as [Hp _]. unfold lane_work. by rewrite Hp, Hall.
    + apply not_Forall_Exists in Hnot; [|apply _]. apply Exists_exists in Hnot as (l & Hin & Hf).
      apply list_elem_of_lookup in Hin as [i Hl]. apply not_true_iff_false in Hf. by eapply flow_lane_progress.
  - intros Hw. pose proof (proj1 (flow_work_zero r) Hw) as Hz. split.
    + rewrite (ro_all _ _ Hok), no_pending; [by rewrite app_nil_r|]. intros i l Hi. specialize (Hz i l Hi).
      unfold lane_work in Hz. apply length_zero_iff_nil. by apply Nat.eq_add_0 in Hz as [? _].
    + apply Forall_lookup. intros i l Hi. specialize (Hz i l Hi). unfold lane_work in Hz. destruct (finished l); [done|lia].
Qed.

End Router.

(** ** A run with three messages on one lane of capacity one *)

Definition sample_router_config : RouterConfig := MkRouterConfig 2 1 OverflowBlock OverflowDrop.
Definition sample_key (m : gostring * Z) : gostring := m.1.
Definition sample_step := step (E := ()) sample_key ([] : list (Block () (gostring * Z) ())) (with_defaults sample_router_config).
Definition run_labels (r : router) (lbs : list label) : option router :=
  foldl (fun acc lb => r ← acc; sample_step r lb) (Some r) lbs.
Definition sample_labels : list (label (Msg := gostring * Z)) :=
  [Send ("a"%go, 1%Z) 0; Send ("a"%go, 2%Z) 0; Send ("b"%go, 9%Z) 1; Send ("a"%go, 3%Z) 1;
   Deliver (home sample_router_config "a"%go); Deliver (home sample_router_config "a"%go); Close].

Lemma run_labels_reachable lbs : forall r r',
  reachable (E := ()) sample_key [] sample_router_config () r -> run_labels r lbs = Some r' ->
  reachable (E := ()) sample_key [] sample_router_config () r'.
Proof.
  induction lbs as [|lb lbs IH]; intros r r' Hr Hx; [by injection Hx as <-|].
  unfold run_labels in Hx. cbn [foldl mbind option_bind] in Hx.
  destruct (sample_step r lb) as [r1|] eqn:E1.
  - eapply IH; [|exact Hx]. by eapply reach_step.
  - clear -Hx. induction lbs; [discriminate|by apply IHlbs].
Qed.

Definition sample_end : router :=
  default (NewRouter sample_router_config ()).2 (run_labels (NewRouter sample_router_config ()).2 sample_labels).

Lemma sample_end_reachable : reachable (E := ()) sample_key [] sample_router_config () sample_end.
Proof.
  apply (run_labels_reachable sample_labels (NewRouter sample_router_config ()).2); [constructor|]. vm_compute. reflexivity.
Qed.

Lemma flow_key_order_witness :
  exists l, lanes sample_end !! home sample_router_config "a"%go = Some l /\
    map snd (filter (has_key sample_key "a"%go) (accepted sample_end)) = [1; 2]%Z /\
    map snd (filter (has_key sample_key "a"%go) (processed sample_end)) = [1; 2]%Z /\
    (Z.of_nat (length (queue l)) <= 1)%Z.
Proof.
  destruct (flow_key_order sample_key [] sample_router_config () sample_end "a"%go sample_end_reachable)
    as (l & Hl & _ & _ & Hb & _).
  exists l. split; [exact Hl|]. split; [vm_compute; reflexivity|]. split; [vm_compute; reflexivity|exact Hb].
Defined.

Lemma flow_router_drains_witness :
  work sample_end = 3 /\ exists lb r', lane_step lb = true /\ sample_step sample_end lb = Some r'.
Proof.
  split; [vm_compute; reflexivity|].
  apply (flow_router_drains sample_key [] sample_router_config () sample_end sample_end_reachable eq_refl).
  vm_compute. discriminate.
Defined.

End FlowRouter.
