(* ===== verification/FlowBlocks.v ===== *)
(** * Flow blocks

    The processing blocks of [internal/flow/blocks]: filter, map, update_metadata,
    split_map, sort, to_json and json_path_map, with their configurations. A
    block is a function of the message; the sort block also of its buffer.
    JSON text and [fmt.Sprint] are the class [FlowText]. *)

From stdpp Require Import sorting.
From S2P Require Import Prelude GoStrings Float64 PayloadValue PayloadJson Rows FlowGraph FlowMessage.

Module FlowBlocks.
Import Payload Json Rows FlowMessage.

Abbreviation config := (gmap gostring generic).

Class FlowText := {
  (** [json.Marshal] of a message's document and of a value, as text. *)
  EncodeWire : wireMessage -> gostring;
  RenderToken : jtoken -> gostring;
  (** [json.Unmarshal] into a [map[string]any]. *)
  ParseObject : gostring -> option (gmap gostring generic);
  (** [fmt.Sprint]. *)
  Sprint_config : generic -> gostring;
  Sprint_datum : datum -> gostring;
}.

(** ** Strings *)

(** [strings.ReplaceAll] for a non-empty [old]: after a match the bytes it
    covered are skipped. *)
Fixpoint replace_from (old new : gostring) (skip : nat) (s : gostring) : gostring :=
  match s with
  | [] => []
  | c :: s' =>
      match skip with
      | S n => replace_from old new n s'
      | O => if Strings.HasPrefix s old then new ++ replace_from old new (length old - 1) s'
             else c :: replace_from old new 0 s'
      end
  end.
Definition ReplaceAll (s old new : gostring) : gostring := replace_from old new 0 s.

(** The text before and after the first occurrence of [sub]. *)
Fixpoint cut_string (s sub : gostring) : option (gostring * gostring) :=
  match Strings.CutPrefix s sub with
  | Some rest => Some ([], rest)
  | None => match s with
            | [] => None
            | c :: s' => (fun x => (c :: x.1, x.2)) <$> cut_string s' sub
            end
  end.

Section Blocks.
Context `{JSONText} `{FlowTime} `{FlowText}.

(** ** Configuration *)

Inductive block_error :=
| ErrConfig
| ErrUnknownType (s : gostring)
| ErrMarshal
| ErrTemplate
| ErrResolve (path : gostring).

Definition stringConfig (cfg : config) (key def : gostring) : gostring :=
  match cfg !! key with Some (GStr s) => s | _ => def end.

Definition string_of (v : generic) : option gostring :=
  match v with GStr s => Some s | GNull => None | v => Some (Sprint_config v) end.
Definition stringMapConfig (cfg : config) (key : gostring) : gmap gostring gostring :=
  match cfg !! key with Some (GMap m) => omap string_of m | _ => ∅ end.
Definition stringSliceConfig (cfg : config) (key : gostring) : list gostring :=
  match cfg !! key with
  | Some (GArr xs) => omap (fun v => match v with GStr s => Some s | _ => None end) xs
  | _ => []
  end.

(** [numAsInt64] of a decoded JSON number. *)
Definition numAsInt64 (v : generic) : option Z :=
  match v with GNum f => Some (int64_of_float f) | _ => None end.

Definition parseTypeName (s : gostring) : result block_error DataType :=
  if decide (s = "map"%go) then Ok TypeMap else or_err (parseDataType s) (ErrUnknownType s).

(** ** Filter *)

Record filterConfig := MkFilterConfig {
  keyPrefix : gostring;
  keyContains : gostring;
  dataType : option DataType;
  fMetadata : gmap gostring gostring;
}.

Definition parseFilterConfig (cfg : config) : result block_error filterConfig :=
  let t := stringConfig cfg "type"%go [] in
  let? dt := if decide (t = []) then Ok None else let? dt := parseTypeName t in Ok (Some dt) in
  let c := MkFilterConfig (stringConfig cfg "key_prefix"%go []) (stringConfig cfg "key_contains"%go []) dt
             (stringMapConfig cfg "metadata"%go) in
  if bool_decide (keyPrefix c = []) && bool_decide (keyContains c = []) && bool_decide (dt = None)
     && bool_decide (fMetadata c = ∅)
  then Err ErrConfig else Ok c.

(** A missing name reads as the empty string of a present map; an empty map is
    taken as the nil one. *)
Definition metadata_is (m : Message) (k want : gostring) : bool :=
  negb (bool_decide (Metadata m = ∅)) && bool_decide (default [] (Metadata m !! k) = want).
Definition match_message (c : filterConfig) (m : Message) : bool :=
  if negb (bool_decide (keyPrefix c = [])) && negb (Strings.HasPrefix (Key m) (keyPrefix c)) then false
  else if negb (bool_decide (keyContains c = [])) && negb (Strings.Contains (Key m) (keyContains c)) then false
  else if match dataType c with Some dt => negb (bool_decide (Type_ m = dt)) | None => false end then false
  else forallb (fun x => metadata_is m x.1 x.2) (map_to_list (fMetadata c)).

Definition Filter (cfg : config) : result block_error (Message -> list Message) :=
  let? c := parseFilterConfig cfg in
  Ok (fun m => if match_message c m then [m] else []).

(** ** Metadata *)

Definition with_metadata (md : gmap gostring gostring) (m : Message) : Message :=
  MkMsg (Key m) md (Type_ m) (Subtype m) (Timestamp m) (Data m) (FieldTypes m) (FieldSubtypes m).
Definition with_key (k : gostring) (m : Message) : Message :=
  MkMsg k (Metadata m) (Type_ m) (Subtype m) (Timestamp m) (Data m) (FieldTypes m) (FieldSubtypes m).

(** Set, then delete. *)
Definition edit_metadata (set : gmap gostring gostring) (del : list gostring) (md : gmap gostring gostring)
    : gmap gostring gostring :=
  foldl (fun md k => delete k md) (set ∪ md) del.

Definition UpdateMetadata (cfg : config) : result block_error (Message -> list Message) :=
  let set := stringMapConfig cfg "set_metadata"%go in
  let del := stringSliceConfig cfg "delete_metadata"%go in
  if bool_decide (set = ∅) && bool_decide (del = []) then Err ErrConfig
  else Ok (fun m => [with_metadata (edit_metadata set del (Metadata m)) m]).

(** ** Map *)

Definition metaPrefix : gostring := "{metadata."%go.

(** The loop of [expandTemplate]; [None] when the fuel runs out. *)
Fixpoint expand_metadata (fuel : nat) (md : gmap gostring gostring) (s : gostring) : option gostring :=
  match fuel with
  | O => None
  | S fuel =>
      match cut_string s metaPrefix with
      | None => Some s
      | Some (before, rest) =>
          let '(name, after, found) := Strings.Cut rest "}" in
          if negb found then Some s
          else expand_metadata fuel md (before ++ default [] (md !! name) ++ after)
      end
  end.
Definition expandTemplate (fuel : nat) (tmpl : gostring) (m : Message) : option gostring :=
  expand_metadata fuel (Metadata m) (ReplaceAll tmpl "{key}"%go (Key m)).

Record mapConfig := MkMapConfig { keyTemplate : gostring; setMetadata : gmap gostring gostring; deleteMetadata : list gostring }.
Definition parseMapConfig (cfg : config) : result block_error mapConfig :=
  let c := MkMapConfig (stringConfig cfg "key"%go []) (stringMapConfig cfg "set_metadata"%go)
             (stringSliceConfig cfg "delete_metadata"%go) in
  if bool_decide (keyTemplate c = []) && bool_decide (setMetadata c = ∅) && bool_decide (deleteMetadata c = [])
  then Err ErrConfig else Ok c.
(** One message; [None] while the template has not been expanded. *)
Definition map_message (fuel : nat) (c : mapConfig) (m : Message) : option (list Message) :=
  key ← if decide (keyTemplate c = []) then Some (Key m) else expandTemplate fuel (keyTemplate c) m;
  Some [with_metadata (edit_metadata (setMetadata c) (deleteMetadata c) (Metadata m)) (with_key key m)].
Definition Map (fuel : nat) (cfg : config) : result block_error (Message -> option (list Message)) :=
  let? c := parseMapConfig cfg in Ok (map_message fuel c).

(** ** Split *)

Definition expandSplitKey (tmpl key field : gostring) : gostring :=
  ReplaceAll (ReplaceAll tmpl "{key}"%go key) "{field}"%go field.

(** A field as a message of its own: the declared type, or the one of the value. *)
Definition split_field (tmpl : gostring) (m : Message) (k : gostring) (v : datum) : Message :=
  let '(dt, data) := match FieldTypes m !! k with
                     | Some dt => (dt, v)
                     | None => match v with
                               | DBool b => (TypeBoolean, DBool b)
                               | DInt i => (TypeInteger, DInt i)
                               | DReal f => (TypeReal, DReal f)
                               | v => (TypeString, DStr (Sprint_datum v))
                               end
                     end in
  MkMsg (expandSplitKey tmpl (Key m) k) (Metadata m) dt (default [] (FieldSubtypes m !! k)) (Timestamp m) data ∅ ∅.
Definition SplitMap (cfg : config) (m : Message) : list Message :=
  let tmpl := stringConfig cfg "key_template"%go "{key}/{field}"%go in
  match Type_ m, Data m with
  | TypeMap, DMap fields => (fun x => split_field tmpl m x.1 x.2) <$> map_to_list fields
  | _, _ => []
  end.

(** ** Sort *)

Record sortConfig := MkSortConfig { windowMs : Z; dedup : bool }.
Definition parseSortConfig (cfg : config) : result block_error sortConfig :=
  let? w := match cfg !! "window_ms"%go with
            | None | Some GNull => Ok 1000%Z
            | Some v => match numAsInt64 v with
                        | Some n => if (n <? 0)%Z then Err ErrConfig else Ok n
                        | None => Err ErrConfig
                        end
            end in
  Ok (MkSortConfig w (match cfg !! "dedup"%go with Some (GBool b) => b | _ => false end)).

Record sortEntry := MkEntry { eMsg : Message; eWire : gostring }.
Definition ts (e : sortEntry) : Z := Timestamp (eMsg e).

(** [sort.Search]: halving [i, j) while the answer is inside. *)
Fixpoint search_loop (fuel i j : nat) (f : nat -> bool) : nat :=
  match fuel with
  | O => i
  | S fuel =>
      if (i <? j)%nat
      then let h := ((i + j) / 2)%nat in if f h then search_loop fuel i h f else search_loop fuel (S h) j f
      else i
  end.
Definition Search (n : nat) (f : nat -> bool) : nat := search_loop n 0 n f.

Definition later_than (buf : list sortEntry) (t : Z) (i : nat) : bool :=
  match buf !! i with Some e => (t <? ts e)%Z | None => false end.

Fixpoint release (limit : Z) (buf : list sortEntry) : list Message * list sortEntry :=
  match buf with
  | e :: (_ :: _) as rest =>
      if (ts e <=? limit)%Z then let '(out, buf) := release limit rest in (eMsg e :: out, buf) else ([], buf)
  | _ => ([], buf)
  end.

Definition Sort (c : sortConfig) (buf : list sortEntry) (m : Message) : result block_error (list Message) * list sortEntry :=
  match MarshalJSON m with
  | None => (Err ErrMarshal, buf)
  | Some w =>
      let wire := EncodeWire w in
      if dedup c && existsb (fun e => bool_decide (eWire e = wire)) buf then (Ok [], buf)
      else
        let i := Search (length buf) (later_than buf (Timestamp m)) in
        let buf := take i buf ++ MkEntry m wire :: drop i buf in
        let newest := match last buf with Some e => Z.max (Timestamp m) (ts e) | None => Timestamp m end in
        let '(out, buf) := release (wrap 64 (newest - wrap 64 (windowMs c * 1000))) buf in
        (Ok out, buf)
  end.

(** A block over a sequence of messages, one at a time: those it took in, all it
    emitted, and its buffer. A message that does not encode is an error and is
    left out; so is one equal to a buffered one, when duplicates are dropped. *)
Definition takes (c : sortConfig) (buf : list sortEntry) (m : Message) : bool :=
  match MarshalJSON m with
  | None => false
  | Some w => negb (dedup c && existsb (fun e => bool_decide (eWire e = EncodeWire w)) buf)
  end.
Fixpoint sort_all (c : sortConfig) (buf : list sortEntry) (ms : list Message)
    : list Message * list Message * list sortEntry :=
  match ms with
  | [] => ([], [], buf)
  | m :: ms =>
      let '(r, buf1) := Sort c buf m in
      let '(taken, more, buf2) := sort_all c buf1 ms in
      (if takes c buf m then m :: taken else taken, match r with Ok out => out ++ more | Err _ => more end, buf2)
  end.

(** ** JSON *)

(** [toJSONBytes]. *)
Definition toJSONBytes (m : Message) : option gostring :=
  RenderToken <$> Marshal (match Type_ m with TypeMap => dataWireMap m | _ => dataWireScalar m end).
Definition ToJSON (m : Message) : result block_error (list Message) :=
  match toJSONBytes m with
  | None => Err ErrMarshal
  | Some b => Ok [MkMsg (Key m) (Metadata m) TypeBinary "application/json"%go (Timestamp m) (DBytes b) ∅ ∅]
  end.

Definition isSegChar (c : ascii) : bool :=
  between "a" "z" c || between "A" "Z" c || between "0" "9" c || bool_decide (c = "_"%char) || bool_decide (c = "-"%char).

(** The segment characters at the start of a text, and the rest. *)
Fixpoint span_seg (s : gostring) : gostring * gostring :=
  match s with
  | c :: s' => if isSegChar c then let '(seg, rest) := span_seg s' in (c :: seg, rest) else ([], s)
  | [] => ([], [])
  end.

(** [matchDottedPath] after its first dot: the segments and what follows. *)
Fixpoint dotted (fuel : nat) (s : gostring) : list gostring * gostring :=
  match fuel with
  | O => ([], s)
  | S fuel =>
      let '(seg, rest) := span_seg s in
      if bool_decide (seg = []) then ([], s)
      else match rest with
           | dot :: c :: _ as tl =>
               if bool_decide (dot = "."%char) && isSegChar c
               then let '(segs, rest') := dotted fuel (drop 1 rest) in (seg :: segs, rest')
               else ([seg], rest)
           | _ => ([seg], rest)
           end
  end.
Definition matchDottedPath (s : gostring) : option (list gostring * gostring) :=
  match s with
  | dot :: s' =>
      if bool_decide (dot = "."%char)
      then match dotted (length s) s' with ([], _) => None | x => Some x end
      else None
  | [] => None
  end.
Definition matchDotSeg (s : gostring) : option (gostring * gostring) :=
  match s with
  | dot :: s' =>
      if bool_decide (dot = "."%char)
      then match span_seg s' with ([], _) => None | x => Some x end
      else None
  | [] => None
  end.

Fixpoint walk_path (cur : datum) (segs : list gostring) : option datum :=
  match segs with
  | [] => Some cur
  | seg :: segs => match cur with DMap level => v ← level !! seg; walk_path v segs | _ => None end
  end.
Definition resolveMessagePath (m : Message) (segs : list gostring) : result block_error datum :=
  or_err (walk_path (Data m) segs) (ErrResolve (Strings.Join segs ".")).
Definition marshalRawJSON (d : datum) : option gostring := RenderToken <$> Marshal (any_of d).

Definition msgPlaceholder : gostring := "$MESSAGE"%go.
Definition metadataPlaceholder : gostring := "$METADATA"%go.
(** The text of a JSON string without its quotes. *)
Definition escaped (s : gostring) : gostring := let q := RenderToken (JStr s) in take (length q - 2) (drop 1 q).

(** The substitution of the placeholder a text that starts with '$' begins with,
    and the text after it. *)
Definition expand_one (m : Message) (s : gostring) : result block_error (gostring * gostring) :=
  match Strings.CutPrefix s msgPlaceholder with
  | Some rest =>
      match matchDottedPath rest with
      | Some (segs, after) =>
          let? v := resolveMessagePath m segs in
          let? raw := or_err (marshalRawJSON v) ErrMarshal in Ok (raw, after)
      | None => let? raw := or_err (toJSONBytes m) ErrMarshal in Ok (raw, rest)
      end
  | None =>
      match Strings.CutPrefix s metadataPlaceholder with
      | Some rest =>
          match matchDotSeg rest with
          | None => Ok ("$"%go, drop 1 s)
          | Some (name, after) =>
              let? v := or_err (Metadata m !! name) (ErrResolve name) in Ok (escaped v, after)
          end
      | None => Ok ("$"%go, drop 1 s)
      end
  end.
Fixpoint expandJSONTemplate (fuel : nat) (m : Message) (tmpl : gostring) : result block_error gostring :=
  match fuel, tmpl with
  | _, [] => Ok []
  | O, _ => Err ErrTemplate
  | S fuel, c :: tmpl' =>
      if negb (bool_decide (c = "$"%char))
      then let? out := expandJSONTemplate fuel m tmpl' in Ok (c :: out)
      else let? x := expand_one m tmpl in
           let? out := expandJSONTemplate fuel m x.2 in Ok (x.1 ++ out)
  end.

Fixpoint datum_any (g : generic) : jany :=
  match g with
  | GNull => AnyNil | GBool b => AnyBool b | GNum f => AnyFloat f | GStr s => AnyString s
  | GArr xs => AnySlice (map datum_any xs) | GMap m => AnyMap (datum_any <$> m)
  end.
Definition inferred (v : generic) : option (DataType * datum) :=
  match v with
  | GNum f => Some (TypeReal, DReal f)
  | GBool b => Some (TypeBoolean, DBool b)
  | GStr s => Some (TypeString, DStr s)
  | v => (fun t => (TypeString, DStr (RenderToken t))) <$> Marshal (datum_any v)
  end.
Definition all_inferred (m : gmap gostring generic) : bool :=
  forallb (fun x => bool_decide (is_Some (inferred x.2))) (map_to_list m).
Definition json_path_map (template : gostring) (m : Message) : result block_error (list Message) :=
  let? rendered := expandJSONTemplate (length template) m template in
  let? parsed := or_err (ParseObject rendered) ErrTemplate in
  if negb (all_inferred parsed) then Err ErrMarshal
  else let fields := omap inferred parsed in
       Ok [MkMsg (Key m) (Metadata m) TypeMap [] (Timestamp m) (DMap (snd <$> fields)) (fst <$> fields) ∅].
Definition JSONPathMap (cfg : config) : result block_error (Message -> result block_error (list Message)) :=
  let template := stringConfig cfg "template"%go [] in
  if decide (template = []) then Err ErrConfig else Ok (json_path_map template).

(** ** Templates *)

Definition braces (s : gostring) : nat := length (filter (fun c => c = "{"%char) s).

Lemma braces_app a b : braces (a ++ b) = braces a + braces b.
Proof. unfold braces. by rewrite filter_app, length_app. Qed.
Lemma braces_none s : "{"%char ∉ s -> braces s = 0.
Proof.
  unfold braces. induction s as [|c s IH]; [done|]. intros Hn. rewrite filter_cons, decide_False by set_solver. apply IH. set_solver.
Qed.

Lemma cut_string_spec s sub before rest : cut_string s sub = Some (before, rest) -> s = before ++ sub ++ rest.
Proof.
  revert before. induction s as [|c s IH]; intros before; simpl.
  - destruct (Strings.CutPrefix [] sub) as [r|] eqn:E; [|done]. intros [= <- <-]. by apply Strings.CutPrefix_spec in E.
  - destruct (Strings.CutPrefix (c :: s) sub) as [r|] eqn:E; [intros [= <- <-]; by apply Strings.CutPrefix_spec in E|].
    destruct (cut_string s sub) as [[b r]|]; [|done]. simpl. intros [= <- <-]. by rewrite (IH b eq_refl).
Qed.

Lemma cut_string_first s sub rest : Strings.CutPrefix s sub = Some rest -> cut_string s sub = Some ([], rest).
Proof. intros E. destruct s; simpl in *; by rewrite E. Qed.

(** Each substitution takes away one brace when no value brings one in. *)
Lemma expand_metadata_total fuel md s :
  (forall k v, md !! k = Some v -> "{"%char ∉ v) -> braces s < fuel -> is_Some (expand_metadata fuel md s).
Proof.
  intros Hmd. revert s. induction fuel as [|fuel IH]; intros s Hb; [lia|]. simpl.
  destruct (cut_string s metaPrefix) as [[before rest]|] eqn:Ec; [|eauto].
  destruct (Strings.Cut rest "}") as [[name after] found] eqn:Er. destruct found; simpl; [|eauto]. apply IH.
  apply cut_string_spec in Ec as ->. apply Strings.Cut_spec in Er as [-> _].
  rewrite !braces_app in Hb. change (braces metaPrefix) with 1 in Hb. rewrite !braces_app.
  assert (braces (default [] (md !! name)) = 0) as ->.
  { destruct (md !! name) as [v|] eqn:Ev; [|done]. by apply braces_none, (Hmd name). }
  change (braces ("}"%char :: after)) with (braces after) in Hb. lia.
Qed.

(** The map block's template is expanded after as many substitutions as it has
    braces, whenever neither the metadata values nor what the key inserts open
    one: the loop ends. *)
Theorem template_expansion_ends tmpl m fuel :
  (forall k v, Metadata m !! k = Some v -> "{"%char ∉ v) -> length (ReplaceAll tmpl "{key}"%go (Key m)) < fuel ->
  exists key, expandTemplate fuel tmpl m = Some key.
Proof.
  intros Hmd Hf. apply expand_metadata_total; [done|]. eapply Nat.le_lt_trans; [|exact Hf]. apply length_filter.
Qed.

Lemma expand_metadata_stuck md name fuel :
  "}"%char ∉ name -> md !! name = Some (metaPrefix ++ name ++ "}"%go) ->
  expand_metadata fuel md (metaPrefix ++ name ++ "}"%go) = None.
Proof.
  intros Hn Hm. induction fuel as [|fuel IH]; [done|]. cbn [expand_metadata].
  rewrite (cut_string_first _ _ (name ++ "}"%go)) by (by apply Strings.CutPrefix_spec).
  rewrite (Strings.Cut_app name [] "}") by done. cbn [negb]. rewrite Hm. simpl. by rewrite app_nil_r.
Qed.

(** A metadata value that spells its own placeholder keeps the loop of the map
    block going for ever: no amount of fuel gives the message's new key. *)
Theorem template_expansion_diverges key t d :
  let m := MkMsg key {[ "a"%go := "{metadata.a}"%go ]} TypeBoolean [] t d ∅ ∅ in
  forall fuel, map_message fuel (MkMapConfig "{metadata.a}"%go ∅ []) m = None.
Proof.
  intros m fuel. unfold map_message, expandTemplate. simpl keyTemplate. rewrite decide_False by done.
  change (ReplaceAll "{metadata.a}"%go "{key}"%go (Key m)) with (metaPrefix ++ "a"%go ++ "}"%go).
  by rewrite expand_metadata_stuck; [|set_solver|].
Qed.

(** *** Metadata edits *)

Lemma delete_all_lookup (del : list gostring) (md : gmap gostring gostring) (k : gostring) :
  foldl (fun md k => delete k md) md del !! k = if decide (k ∈ del) then None else md !! k.
Proof.
  revert md. induction del as [|a del IH]; intros md; simpl; [done|]. rewrite IH.
  destruct (decide (k ∈ del)); [by rewrite decide_True by set_solver|].
  destruct (decide (k = a)) as [->|Hne]; [by rewrite decide_True, lookup_delete_eq by set_solver|].
  by rewrite decide_False, lookup_delete_ne by set_solver.
Qed.

(** After a metadata edit a deleted name is absent even if it was also set, a
    set name has its value, and every other keeps what it had; key, data and
    time are untouched. *)
Theorem metadata_edit_exact cfg f m :
  UpdateMetadata cfg = Ok f -> exists m', f m = [m'] /\ Key m' = Key m /\ Data m' = Data m /\ Timestamp m' = Timestamp m /\
    forall k, Metadata m' !! k =
      if decide (k ∈ stringSliceConfig cfg "delete_metadata"%go) then None
      else match stringMapConfig cfg "set_metadata"%go !! k with Some v => Some v | None => Metadata m !! k end.
Proof.
  unfold UpdateMetadata. destruct (_ && _); [done|]. intros [= <-]. eexists. split_and!; [done..|]. intros k. simpl.
  unfold edit_metadata. rewrite delete_all_lookup. case_decide; [done|]. rewrite lookup_union.
  by destruct (stringMapConfig cfg "set_metadata"%go !! k), (Metadata m !! k).
Qed.

(** ** The sort block *)

(** The reference: each message goes after every one that is not later. *)
Fixpoint place (m : Message) (l : list Message) : list Message :=
  match l with
  | [] => [m]
  | x :: l' => if (Timestamp m <? Timestamp x)%Z then m :: l else x :: place m l'
  end.
Definition arrival_sort (ms : list Message) : list Message := foldl (fun l m => place m l) [] ms.

Abbreviation by_time := (fun a b : Message => (Timestamp a <= Timestamp b)%Z).

Lemma place_perm m l : place m l ≡ₚ m :: l.
Proof. induction l as [|x l IH]; simpl; [done|]. destruct (_ <? _)%Z; [done|]. rewrite IH. apply Permutation_swap. Qed.

Lemma place_sorted m l : StronglySorted by_time l -> StronglySorted by_time (place m l).
Proof.
  induction 1 as [|x l Hs IH Hx]; simpl; [by repeat constructor|]. destruct (Z.ltb_spec (Timestamp m) (Timestamp x)).
  - constructor; [by constructor|]. constructor; [simpl; lia|]. rewrite Forall_forall in *. intros y Hy%Hx. simpl in *. lia.
  - constructor; [done|]. rewrite place_perm. by constructor.
Qed.

Lemma arrival_sort_snoc ms m : arrival_sort (ms ++ [m]) = place m (arrival_sort ms).
Proof. unfold arrival_sort. by rewrite foldl_app. Qed.
Lemma arrival_sort_perm ms : arrival_sort ms ≡ₚ ms.
Proof. induction ms as [|m ms IH] using rev_ind; [done|]. rewrite arrival_sort_snoc, place_perm, IH. apply Permutation_cons_append. Qed.
Lemma arrival_sort_sorted ms : StronglySorted by_time (arrival_sort ms).
Proof. induction ms as [|m ms IH] using rev_ind; [constructor|]. rewrite arrival_sort_snoc. by apply place_sorted. Qed.

Lemma place_after m l1 l2 : Forall (fun x => by_time x m) l1 -> place m (l1 ++ l2) = l1 ++ place m l2.
Proof. induction 1 as [|x l1 Hx _ IH]; simpl; [done|]. destruct (Z.ltb_spec (Timestamp m) (Timestamp x)); [lia|]. by rewrite IH. Qed.
Lemma place_before m l : (forall x, head l = Some x -> (Timestamp m < Timestamp x)%Z) -> place m l = m :: l.
Proof. destruct l as [|x l]; simpl; [done|]. intros Hx. specialize (Hx x eq_refl). by destruct (Z.ltb_spec (Timestamp m) (Timestamp x)); [|lia]. Qed.

Lemma sorted_lookup {A : Type} (R : relation A) (l : list A) i j x y :
  StronglySorted R l -> i < j -> l !! i = Some x -> l !! j = Some y -> R x y.
Proof.
  intros Hs. revert i j. induction Hs as [|a l Hs IH Ha]; intros [|i] [|j] Hij; simpl; try done; [lia| |lia|].
  - intros [= <-] Hj. rewrite Forall_forall in Ha. apply Ha. by eapply list_elem_of_lookup_2.
  - apply IH. lia.
Qed.

(** Halving finds the boundary of a monotone test. *)
Lemma search_loop_spec f n fuel i j :
  (forall a b, a <= b < n -> f a = true -> f b = true) -> i <= j <= n -> j - i <= fuel ->
  (forall k, k < i -> f k = false) -> (forall k, j <= k < n -> f k = true) ->
  let r := search_loop fuel i j f in r <= n /\ (forall k, k < r -> f k = false) /\ (forall k, r <= k < n -> f k = true).
Proof.
  intros Hmono. revert i j. induction fuel as [|fuel IH]; intros i j Hij Hf Hlo Hhi; cbn [search_loop].
  { split; [lia|]. split; [done|]. intros k Hk. apply Hhi. lia. }
  destruct (Nat.ltb_spec i j) as [Hlt|?]; [|split; [lia|split; [done|intros k Hk; apply Hhi; lia]]].
  pose proof (Nat.div_mod_eq (i + j) 2). pose proof (Nat.mod_upper_bound (i + j) 2).
  set (h := ((i + j) / 2)%nat) in *. destruct (f h) eqn:Eh; apply IH; try lia; try done.
  - intros k Hk. apply (Hmono h); [lia|done].
  - intros k Hk. destruct (f k) eqn:Ek; [|done]. assert (f h = true); [|congruence]. apply (Hmono k); [lia|done].
Qed.

Lemma search_places buf m w :
  StronglySorted by_time (eMsg <$> buf) ->
  let i := Search (length buf) (later_than buf (Timestamp m)) in
  eMsg <$> (take i buf ++ MkEntry m w :: drop i buf) = place m (eMsg <$> buf).
Proof.
  intros Hs. unfold Search. edestruct (search_loop_spec (later_than buf (Timestamp m)) (length buf) (length buf) 0 (length buf)) as (Hr & Hlo & Hhi);
    [|lia|lia|lia|lia|].
  { intros a b Hab. unfold later_than. destruct (lookup_lt_is_Some_2 buf b ltac:(lia)) as [eb Eb]. rewrite Eb.
    destruct (buf !! a) as [ea|] eqn:Ea; [|done]. rewrite !Z.ltb_lt. intros Hlt.
    destruct (decide (a = b)) as [->|Hne]; [congruence|].
    assert (by_time (eMsg ea) (eMsg eb)); [|unfold ts in *; lia].
    eapply (sorted_lookup _ _ a b _ _ Hs); [lia|rewrite list_lookup_fmap, Ea; done|rewrite list_lookup_fmap, Eb; done]. }
  set (i := search_loop _ _ _ _) in *. simpl.
  rewrite fmap_app, fmap_cons. rewrite <- (take_drop i buf) at 3. rewrite fmap_app, place_after.
  - f_equal. symmetry. apply place_before. intros x. rewrite fmap_drop. rewrite head_lookup, lookup_drop, Nat.add_0_r, list_lookup_fmap.
    destruct (buf !! i) as [e|] eqn:Ee; [|done]. simpl. intros [= <-]. pose proof (lookup_lt_Some _ _ _ Ee).
    specialize (Hhi i ltac:(lia)). unfold later_than in Hhi. rewrite Ee in Hhi. by apply Z.ltb_lt.
  - rewrite Forall_fmap, Forall_lookup. intros k e [Hk Hki]%lookup_take_Some. specialize (Hlo k Hki). unfold later_than in Hlo.
    rewrite Hk in Hlo. by apply Z.ltb_ge.
Qed.

Lemma release_spec limit buf :
  let x := release limit buf in
  eMsg <$> buf = x.1 ++ (eMsg <$> x.2) /\ Forall (fun m => Timestamp m <= limit)%Z x.1.
Proof.
  induction buf as [|e buf IH]; simpl; [done|]. destruct buf as [|e' buf]; [done|].
  destruct (Z.leb_spec (ts e) limit); [|done]. destruct (release limit (e' :: buf)) as [out b]. simpl in *.
  destruct IH as [IH1 IH2]. split; [by rewrite IH1|by constructor].
Qed.

(** What is released was at the front. *)
Lemma release_rest limit buf e : e ∈ (release limit buf).2 -> e ∈ buf.
Proof.
  induction buf as [|x buf IH]; simpl; [done|]. destruct buf as [|x' buf]; [done|].
  destruct (ts x <=? limit)%Z; [|done]. destruct (release limit (x' :: buf)) as [out b]. intros He. right. by apply IH.
Qed.

(** Messages that are late by no more than the window. *)
Definition within_window (w : Z) (ms : list Message) : Prop :=
  StronglySorted (fun a b => Timestamp a - w <= Timestamp b)%Z ms.
Definition small_times (ms : list Message) : Prop := Forall (fun m => - 2 ^ 62 <= Timestamp m <= 2 ^ 62)%Z ms.

(** Entries hold the encoding of their message. *)
Definition wired (e : sortEntry) : Prop := exists w, MarshalJSON (eMsg e) = Some w /\ eWire e = EncodeWire w.

(** Why a message is left out: it does not encode, or duplicates are dropped and
    it encodes like one that was taken in. *)
Definition left_out (c : sortConfig) (taken : list Message) (m : Message) : Prop :=
  match MarshalJSON m with
  | None => True
  | Some w => dedup c = true /\ exists m' w', m' ∈ taken /\ MarshalJSON m' = Some w' /\ EncodeWire w' = EncodeWire w
  end.

(** A message that is left out changes nothing. *)
Lemma Sort_skip c buf m :
  takes c buf m = false -> Forall wired buf ->
  (Sort c buf m = (Err ErrMarshal, buf) \/ Sort c buf m = (Ok [], buf)) /\ left_out c (eMsg <$> buf) m.
Proof.
  unfold takes, Sort, left_out. destruct (MarshalJSON m) as [w|]; [|by split; [left|]].
  intros Hd%negb_false_iff Hwired. rewrite Hd. split; [by right|]. apply andb_true_iff in Hd as [Hc He]. split; [done|].
  apply existsb_exists in He as (e & He%list_elem_of_In & Hw). bool_hyps. rewrite Forall_forall in Hwired.
  destruct (Hwired e He) as (w' & Hm & Hw'). exists (eMsg e), w'. split_and!; [by apply list_elem_of_fmap_2|done|congruence].
Qed.

(** One message: it is placed in the buffer, and what is released is older than
    some message seen by the window. *)
Lemma Sort_step c buf m :
  takes c buf m = true -> Forall wired buf -> (0 <= windowMs c * 1000 <= 2 ^ 62)%Z ->
  StronglySorted by_time (eMsg <$> buf) -> small_times (m :: (eMsg <$> buf)) ->
  exists out buf', Sort c buf m = (Ok out, buf') /\ Forall wired buf' /\ place m (eMsg <$> buf) = out ++ (eMsg <$> buf') /\
    Forall (fun o => exists x, x ∈ m :: (eMsg <$> buf) /\ Timestamp o <= Timestamp x - windowMs c * 1000)%Z out.
Proof.
  unfold takes, Sort. destruct (MarshalJSON m) as [w|] eqn:Hw; [|done]. intros Hd%negb_true_iff Hwired Hwin Hs Hsm. rewrite Hd.
  pose proof (search_places buf m (EncodeWire w) Hs) as Hp. simpl in Hp. set (buf1 := take _ buf ++ _) in *.
  assert (Forall wired buf1) as Hwired1.
  { apply Forall_app. split; [by apply Forall_take|]. constructor; [by exists w|by apply Forall_drop]. }
  assert (exists x, x ∈ m :: (eMsg <$> buf) /\ match last buf1 with Some e => Z.max (Timestamp m) (ts e) | None => Timestamp m end = Timestamp x) as (x & Hx & ->).
  { destruct (last buf1) as [e|] eqn:El; [|exists m; split; [left|done]].
    assert (eMsg e ∈ m :: (eMsg <$> buf)) as He.
    { rewrite <- place_perm, <- Hp. apply list_elem_of_fmap_2. rewrite last_lookup in El. by eapply list_elem_of_lookup_2. }
    destruct (Z.max_spec (Timestamp m) (ts e)) as [[_ ->]|[_ ->]]; [by exists (eMsg e)|exists m; split; [left|done]]. }
  unfold small_times in Hsm. rewrite Forall_forall in Hsm. specialize (Hsm x Hx). rewrite (wrap_small 64 (windowMs c * 1000)) by (simpl; lia). rewrite wrap_small by (simpl; lia).
  set (limit := (Timestamp x - windowMs c * 1000)%Z). destruct (release_spec limit buf1) as [H1' H2'].
  pose proof (release_rest limit buf1) as Hrest.
  destruct (release limit buf1) as [out buf']. exists out, buf'. split; [done|]. rewrite <- Hp. split_and!; [|done|].
  - rewrite Forall_forall in *. auto.
  - eapply Forall_impl; [exact H2'|]. intros o Ho. exists x. split; [done|]. unfold limit in *. simpl in Ho. lia.
Qed.

Lemma sorted_skip {A : Type} (R : relation A) (k l : list A) x : StronglySorted R (k ++ x :: l) -> StronglySorted R (k ++ l).
Proof.
  intros (Q1 & Q2 & Q3)%StronglySorted_app. inversion_clear Q3. apply StronglySorted_app_2; [|done..].
  intros a b Ha Hb. apply Q1; [done|by right].
Qed.

Lemma left_out_more c l k m : l ⊆ k -> left_out c l m -> left_out c k m.
Proof.
  unfold left_out. intros Hs. destruct (MarshalJSON m); [|done]. intros (Hd & m' & w' & Hm & Hw). split; [done|].
  exists m', w'. split; [by apply Hs|done].
Qed.

Lemma sort_all_spec c ms processed outs buf :
  (0 <= windowMs c * 1000 <= 2 ^ 62)%Z -> within_window (windowMs c * 1000) (processed ++ ms) -> small_times (processed ++ ms) ->
  Forall wired buf -> outs ++ (eMsg <$> buf) = arrival_sort processed ->
  Forall (fun o => exists x, x ∈ processed /\ Timestamp o <= Timestamp x - windowMs c * 1000)%Z outs ->
  let '(taken, out, buf') := sort_all c buf ms in
  (outs ++ out) ++ (eMsg <$> buf') = arrival_sort (processed ++ taken) /\ sublist taken ms /\
  forall m, m ∈ ms -> m ∈ taken \/ left_out c (processed ++ taken) m.
Proof.
  intros Hwin. revert processed outs buf. induction ms as [|m ms IH]; intros processed outs buf Hin Hsm Hwired Heq Hout; cbn [sort_all].
  { rewrite !app_nil_r. split_and!; [done|constructor|by intros ? ?%elem_of_nil]. }
  assert (forall x, x ∈ eMsg <$> buf -> x ∈ processed) as Hbuf.
  { intros x Hx. rewrite <- (arrival_sort_perm processed), <- Heq. apply elem_of_app. by right. }
  destruct (takes c buf m) eqn:Et.
  - assert (Forall (fun o => by_time o m) outs) as Hold.
    { rewrite Forall_forall in *. intros o (x & Hx & Ho)%Hout. assert (Timestamp x - windowMs c * 1000 <= Timestamp m)%Z; [|lia].
      apply StronglySorted_app in Hin as (Hin & _). apply (Hin x m); [done|left]. }
    destruct (Sort_step c buf m) as (out1 & buf1 & -> & Hwired1 & Hpl & Hout1); [done..| | |].
    { pose proof (arrival_sort_sorted processed) as Hs. rewrite <- Heq in Hs. by apply StronglySorted_app_1_r in Hs. }
    { unfold small_times in *. rewrite Forall_forall in *. intros x [->|Hx%Hbuf]%elem_of_cons; apply Hsm; set_solver. }
    specialize (IH (processed ++ [m]) (outs ++ out1) buf1). destruct (sort_all c buf1 ms) as [[taken out2] buf2].
    rewrite <- !app_assoc in IH. cbn [app] in IH. destruct IH as (I1 & I2 & I3); try done.
    + rewrite arrival_sort_snoc, <- Heq, place_after, Hpl by done. done.
    + apply Forall_app. rewrite !Forall_forall in *. split.
      * intros o (x & Hx & Ho)%Hout. exists x. set_solver.
      * intros o (x & Hx & Ho)%Hout1. exists x. split; [|done]. apply elem_of_cons in Hx as [->|Hx%Hbuf]; set_solver.
    + split_and!; [by rewrite <- I1, !app_assoc|by constructor|].
      intros x [->|[?|?]%I3]%elem_of_cons; [left; left|left; by right|by right].
  - destruct (Sort_skip c buf m Et Hwired) as [Hs Hleft].
    specialize (IH processed outs buf). destruct (sort_all c buf ms) as [[taken out2] buf2] eqn:Er.
    destruct IH as (I1 & I2 & I3); try done.
    { by eapply sorted_skip. }
    { unfold small_times in *. rewrite !Forall_app, Forall_cons in *. naive_solver. }
    assert (forall x, x ∈ m :: ms -> x ∈ taken \/ left_out c (processed ++ taken) x) as Hall.
    { intros x [->|?]%elem_of_cons; [right|by apply I3]. eapply left_out_more; [|exact Hleft].
      intros y Hy%Hbuf. apply elem_of_app. by left. }
    destruct Hs as [-> | ->]; rewrite Er; (split_and!; [done|by constructor|done]).
Qed.

(** Without the dropping of duplicates every message that encodes is taken in. *)
Lemma sort_all_plain c ms buf :
  dedup c = false -> Forall (fun m => is_Some (MarshalJSON m)) ms -> (sort_all c buf ms).1.1 = ms.
Proof.
  intros Hd. revert buf. induction ms as [|m ms IH]; intros buf Hm; [done|]. apply Forall_cons in Hm as [[w Hw] Hm]. cbn [sort_all].
  destruct (Sort c buf m) as [r buf1]. specialize (IH buf1 Hm). destruct (sort_all c buf1 ms) as [[taken out] buf2]. simpl in *.
  unfold takes. by rewrite Hw, Hd, IH.
Qed.

(** C30. Messages that reach the sort block one at a time, none late by more than
    the window: what the block has emitted, followed by what it still holds, is
    the stable sort of the messages it took in: the output never goes back in
    time and equal timestamps keep their order of arrival. It takes in every
    message, except one that does not encode and, where duplicates are dropped,
    one that encodes like a message it took in. Timestamps and the window are
    within 2^62 microseconds. *)
Theorem sort_window_exact c ms :
  (0 <= windowMs c * 1000 <= 2 ^ 62)%Z -> small_times ms -> within_window (windowMs c * 1000) ms ->
  let '(taken, out, buf) := sort_all c [] ms in
  out ++ (eMsg <$> buf) = arrival_sort taken /\ StronglySorted by_time out /\ out ++ (eMsg <$> buf) ≡ₚ taken /\
  sublist taken ms /\ (forall m, m ∈ ms -> m ∈ taken \/ left_out c taken m) /\
  (dedup c = false -> Forall (fun m => is_Some (MarshalJSON m)) ms -> taken = ms).
Proof.
  intros Hwin Hsm Hin. pose proof (sort_all_spec c ms [] [] []) as Hs. pose proof (sort_all_plain c ms []) as Hp.
  destruct (sort_all c [] ms) as [[taken out] buf]. destruct Hs as (Heq & Hsub & Hall); try done. simpl in *.
  split_and!; try done.
  - pose proof (arrival_sort_sorted taken) as Hso. rewrite <- Heq in Hso. by apply StronglySorted_app_1_l in Hso.
  - by rewrite Heq, arrival_sort_perm.
Qed.

(** ** JSON templates *)

Lemma span_seg_spec s : s = (span_seg s).1 ++ (span_seg s).2 /\ Forall (fun c => isSegChar c = true) (span_seg s).1 /\
  (forall c r, (span_seg s).2 = c :: r -> isSegChar c = false).
Proof.
  induction s as [|c s IH]; simpl; [done|]. destruct (isSegChar c) eqn:E.
  - destruct (span_seg s) as [seg rest]. simpl in *. destruct IH as (-> & IH2 & IH3). split; [done|]. split; [by constructor|done].
  - simpl. split; [done|]. split; [constructor|]. by intros c' r [= <- <-].
Qed.

Lemma dotted_length fuel s : length (dotted fuel s).2 <= length s.
Proof.
  revert s. induction fuel as [|fuel IH]; intros s; cbn [dotted]; [done|].
  destruct (span_seg_spec s) as (Hs & _). destruct (span_seg s) as [seg rest]. simpl in Hs. subst s.
  destruct (bool_decide _); [done|]. rewrite length_app.
  destruct rest as [|dot [|c rest]]; simpl; [lia|lia|]. destruct (_ && _); simpl; [|lia].
  specialize (IH (c :: rest)). destruct (dotted fuel (c :: rest)) as [segs rest']. simpl in *. lia.
Qed.

(** Each placeholder takes at least its own first byte. *)
Lemma expand_one_shorter m s text after : expand_one m ("$"%char :: s) = Ok (text, after) -> length after <= length s.
Proof.
  unfold expand_one. destruct (Strings.CutPrefix ("$"%char :: s) msgPlaceholder) as [rest|] eqn:E1.
  - apply Strings.CutPrefix_spec in E1. assert (length rest <= length s) as Hl.
    { apply (f_equal length) in E1. rewrite length_app in E1. simpl in E1. lia. }
    unfold matchDottedPath. destruct rest as [|dot rest]; [|case_bool_decide; [pose proof (dotted_length (length (dot :: rest)) rest) as Hd; destruct (dotted (length (dot :: rest)) rest) as [[|seg segs] r]|]];
      intros Hr; apply bindR_Ok in Hr as (v & _ & Hr); try (apply bindR_Ok in Hr as (raw & _ & Hr)); injection Hr as <- <-; simpl in *; lia.
  - destruct (Strings.CutPrefix ("$"%char :: s) metadataPlaceholder) as [rest|] eqn:E2; [|intros [= <- <-]; simpl; by rewrite drop_0].
    apply Strings.CutPrefix_spec in E2. assert (length rest <= length s) as Hl.
    { apply (f_equal length) in E2. rewrite length_app in E2. simpl in E2. lia. }
    unfold matchDotSeg. destruct rest as [|dot rest]; [intros [= <- <-]; simpl; by rewrite drop_0|].
    case_bool_decide; [|intros [= <- <-]; simpl; by rewrite drop_0].
    destruct (span_seg_spec rest) as (Hs & _). destruct (span_seg rest) as [[|c seg] r]; [intros [= <- <-]; simpl; by rewrite drop_0|].
    intros Hr. apply bindR_Ok in Hr as (v & _ & [= <- <-]). simpl in Hs, Hl. rewrite Hs in Hl. simpl in Hl. rewrite length_app in Hl. lia.
Qed.

(** The scan of a template ends within its length: more fuel changes nothing, so
    an error it reports comes from a placeholder. *)
Theorem json_template_ends m tmpl fuel :
  length tmpl <= fuel -> expandJSONTemplate fuel m tmpl = expandJSONTemplate (length tmpl) m tmpl.
Proof.
  assert (forall n fuel tmpl, length tmpl <= n -> n <= fuel -> expandJSONTemplate fuel m tmpl = expandJSONTemplate n m tmpl) as Hall;
    [|intros Hl; by apply Hall].
  clear. induction n as [|n IH]; intros fuel tmpl Hn Hf.
  { destruct tmpl; [|simpl in Hn; lia]. by destruct fuel. }
  destruct tmpl as [|c tmpl]; [by destruct fuel|]. destruct fuel as [|fuel]; [lia|]. simpl in Hn. cbn [expandJSONTemplate].
  case_bool_decide as Hc; simpl; [|by rewrite (IH fuel tmpl) by lia]. subst c.
  destruct (expand_one m ("$"%char :: tmpl)) as [[text after]|e] eqn:E; [|done]. simpl.
  apply expand_one_shorter in E. by rewrite (IH fuel after) by lia.
Qed.

End Blocks.

(** ** Examples *)

Definition flow_text : FlowText := {|
  EncodeWire w := wKey w ++ "@"%char :: Strconv.Itoa (wTimestampUs w);
  RenderToken t := match t with JStr s => ("034"%char :: s) ++ ["034"%char] | JNum s => s | _ => "null"%go end;
  ParseObject _ := None;
  Sprint_config _ := []%go;
  Sprint_datum _ := []%go;
|}.
#[local] Existing Instance flow_text.
#[local] Existing Instance decimal_text.
#[local] Existing Instance nano_clock.

Definition at_time (key : gostring) (t : Z) : Message := MkMsg key ∅ TypeBoolean [] t (DBool true) ∅ ∅.
Definition sample_stream : list Message :=
  [at_time "a"%go 5000; at_time "b"%go 4500; at_time "a"%go 5000; at_time "c"%go 9000; at_time "d"%go 8500].

Lemma sort_window_exact_witness :
  let '(taken, out, buf) := sort_all (MkSortConfig 1 true) [] sample_stream in
  taken = [at_time "a"%go 5000; at_time "b"%go 4500; at_time "c"%go 9000; at_time "d"%go 8500] /\
  Key <$> out ++ (eMsg <$> buf) = ["b"%go; "a"%go; "d"%go; "c"%go].
Proof.
  pose proof (sort_window_exact (MkSortConfig 1 true) sample_stream) as Ht.
  assert ((sort_all (MkSortConfig 1 true) [] sample_stream).1.1 =
    [at_time "a"%go 5000; at_time "b"%go 4500; at_time "c"%go 9000; at_time "d"%go 8500]) as E by (vm_compute; reflexivity).
  destruct (sort_all (MkSortConfig 1 true) [] sample_stream) as [[taken out] buf]. simpl in E. subst taken.
  split; [reflexivity|]. destruct Ht as [Heq _].
  - simpl. lia.
  - apply Forall_forall. intros m Hm. repeat (apply elem_of_cons in Hm as [->|Hm]); [..|by apply elem_of_nil in Hm]; simpl; lia.
  - repeat constructor; simpl; lia.
  - rewrite Heq. vm_compute. reflexivity.
Defined.

(** A message later than the window comes out after younger ones. *)
Theorem late_message_out_of_order :
  (sort_all (MkSortConfig 1 false) [] [at_time "a"%go 5000; at_time "b"%go 9000; at_time "c"%go 2000; at_time "d"%go 9500]).1.2
    = [at_time "a"%go 5000; at_time "c"%go 2000].
Proof. vm_compute. reflexivity. Qed.

Lemma template_expansion_ends_witness :
  exists key, expandTemplate 40 "{key}/{metadata.site}"%go (MkMsg "k"%go {[ "site"%go := "lab"%go ]} TypeBoolean [] 0 (DBool true) ∅ ∅) = Some key.
Proof.
  apply template_expansion_ends.
  - intros k v Hv. simpl in Hv. apply lookup_singleton_Some in Hv as [_ <-]. by apply (bool_decide_unpack _).
  - apply Nat.ltb_lt. vm_compute. reflexivity.
Defined.

Lemma metadata_edit_exact_witness :
  let cfg := {[ "delete_metadata"%go := GArr [GStr "x"%go] ]} : config in
  exists f, UpdateMetadata cfg = Ok f /\ exists m', f (at_time "k"%go 1) = [m'] /\ Metadata m' !! "x"%go = None.
Proof.
  intros cfg. eexists. split; [reflexivity|].
  destruct (metadata_edit_exact cfg _ (at_time "k"%go 1) eq_refl) as (m' & Hm & _ & _ & _ & Hk).
  exists m'. split; [exact Hm|]. rewrite Hk. by rewrite decide_True by (by apply (bool_decide_unpack _)).
Defined.

Lemma json_template_ends_witness :
  expandJSONTemplate 100 (at_time "k"%go 1) "{$MESSAGE}"%go = expandJSONTemplate 10 (at_time "k"%go 1) "{$MESSAGE}"%go.
Proof. apply (json_template_ends (at_time "k"%go 1) "{$MESSAGE}"%go 100). apply Nat.leb_le. vm_compute. reflexivity. Defined.

End FlowBlocks.
