(* ===== verification/ByteOrder.v ===== *)
(** * The byte order of strings

    [slices.Sort] on strings and [ORDER BY] on identifiers compare bytes from
    the left. *)

From stdpp Require Import sorting.
From S2P Require Import Prelude GoStrings.

Module ByteOrder.

Fixpoint bytes_leb (a b : gostring) : bool :=
  match a, b with
  | [], _ => true
  | _ :: _, [] => false
  | x :: a, y :: b =>
      if (byte_val x <? byte_val y)%Z then true
      else if (byte_val y <? byte_val x)%Z then false else bytes_leb a b
  end.
Definition bytes_le (a b : gostring) : Prop := bytes_leb a b = true.
Definition bytes_lt (a b : gostring) : Prop := bytes_le a b /\ a <> b.

#[export] Instance bytes_le_dec : RelDecision bytes_le.
Proof. intros a b. unfold bytes_le. apply _. Defined.
#[export] Instance bytes_lt_dec : RelDecision bytes_lt.
Proof. intros a b. unfold bytes_lt. apply _. Defined.

#[export] Instance bytes_le_total : Total bytes_le.
Proof.
  intros a. induction a as [|x a IH]; intros [|y b]; [by left|by left|by right|]. unfold bytes_le in *. simpl.
  destruct (Z.ltb_spec (byte_val x) (byte_val y)), (Z.ltb_spec (byte_val y) (byte_val x)); first [lia|by left|by right|apply IH].
Qed.

#[export] Instance bytes_le_trans : Transitive bytes_le.
Proof.
  intros a. induction a as [|x a IH]; intros [|y b] [|z c]; unfold bytes_le in *; simpl; try done.
  destruct (Z.ltb_spec (byte_val x) (byte_val y)), (Z.ltb_spec (byte_val y) (byte_val x)),
    (Z.ltb_spec (byte_val y) (byte_val z)), (Z.ltb_spec (byte_val z) (byte_val y)),
    (Z.ltb_spec (byte_val x) (byte_val z)), (Z.ltb_spec (byte_val z) (byte_val x)); try done; try lia.
  apply IH.
Qed.

#[export] Instance bytes_le_antisymm : AntiSymm (=) bytes_le.
Proof.
  intros a. induction a as [|x a IH]; intros [|y b]; unfold bytes_le in *; simpl; try done.
  destruct (Z.ltb_spec (byte_val x) (byte_val y)), (Z.ltb_spec (byte_val y) (byte_val x)); try done; try lia.
  intros H1 H2. f_equal; [apply byte_val_inj; lia|by apply IH].
Qed.

#[export] Instance bytes_le_refl : Reflexive bytes_le.
Proof. intros a. by destruct (total bytes_le a a). Qed.

Definition sort_bytes (l : list gostring) : list gostring := merge_sort bytes_le l.

Lemma sort_bytes_perm l : sort_bytes l ≡ₚ l.
Proof. apply merge_sort_Permutation. Qed.
Lemma sort_bytes_sorted l : StronglySorted bytes_le (sort_bytes l).
Proof. apply StronglySorted_merge_sort; apply _. Qed.

(** A sorted list without repetition increases strictly. *)
Lemma sorted_strict l : StronglySorted bytes_le l -> NoDup l -> StronglySorted bytes_lt l.
Proof.
  induction 1 as [|x l _ IH Hx]; intros Hnd; [constructor|]. apply NoDup_cons in Hnd as [Hn Hnd]. constructor; [by apply IH|].
  apply Forall_forall. intros y Hy. rewrite Forall_forall in Hx. split; [by apply Hx|]. by intros ->.
Qed.

Lemma bytes_lt_not_le a b : bytes_lt a b <-> ~ bytes_le b a.
Proof.
  split.
  - intros [H1 H2] H3. apply H2. by apply (anti_symm bytes_le).
  - intros H. destruct (total bytes_le a b) as [H1|H1]; [|done]. split; [done|]. intros ->. by apply H.
Qed.

End ByteOrder.
