(* ===== verification/Auth.v ===== *)
(** * Authentication and authorization

    [internal/auth]: authorization strings and tokens ([claims.go]), key sets
    and token verification ([jwt.go]), the cache of verified tokens
    ([cache.go]) and the request guard ([middleware.go]). The JWT library, the
    regular-expression compiler, the PEM and X.509 decoders, SHA-256 and the
    LRU container are interfaces with stated laws. *)

From S2P Require Import Prelude GoStrings PayloadJson.

Module Auth.
Import Json.

(** ** Strings *)

(** The UTF-8 forms of the characters [unicode.IsSpace] holds of. *)
Definition space_forms : list gostring :=
  map (fun b => [chr b]) [9; 10; 11; 12; 13; 32]%Z ++
  map (map chr) ([[194; 133]; [194; 160]; [225; 154; 128]; [226; 128; 168]; [226; 128; 169]; [226; 128; 175];
    [226; 129; 159]; [227; 128; 128]] ++ map (fun b => [226; 128; b]) (seqZ 128 11))%Z.

Definition cut_space (s : gostring) : option gostring :=
  head (omap (Strings.CutPrefix s) space_forms).
Definition cut_space_end (s : gostring) : option gostring :=
  (fun r => rev r) <$> head (omap (fun w => Strings.CutPrefix (rev s) (rev w)) space_forms).
Fixpoint trim_by (cut : gostring -> option gostring) (fuel : nat) (s : gostring) : gostring :=
  match fuel with
  | O => s
  | S fuel => match cut s with Some s' => trim_by cut fuel s' | None => s end
  end.
Definition TrimSpace (s : gostring) : gostring :=
  let s := trim_by cut_space (length s) s in trim_by cut_space_end (length s) s.

Definition lower (c : ascii) : ascii :=
  if between "A" "Z" c then chr (byte_val c + 32) else c.
(** [strings.EqualFold] against a text without the letters k and s, which are
    the only ones with case variants outside ASCII. *)
Definition EqualFold (s t : gostring) : bool := bool_decide (map lower s = map lower t).

Fixpoint trim_left (c : ascii) (s : gostring) : gostring :=
  match s with x :: s' => if decide (x = c) then trim_left c s' else s | [] => [] end.
Definition Trim (s : gostring) (c : ascii) : gostring := rev (trim_left c (rev (trim_left c s))).

(** ** Claims *)

Inductive Claim :=
| ClaimAppEngine | ClaimChannels | ClaimFlow | ClaimHousekeeping | ClaimPairing | ClaimRealmManagement.
#[export] Instance Claim_eq_dec : EqDecision Claim.
Proof. solve_decision. Defined.

Definition claim_key (c : Claim) : gostring :=
  match c with
  | ClaimAppEngine => "a_aea"%go | ClaimChannels => "a_ch"%go | ClaimFlow => "a_f"%go
  | ClaimHousekeeping => "a_ha"%go | ClaimPairing => "a_pa"%go | ClaimRealmManagement => "a_rma"%go
  end.

(** An element of a list of strings: null leaves it empty. *)
Definition list_string (t : jtoken) : option gostring :=
  match t with JStr s => Some s | JNull => Some [] | _ => None end.

(** [stringList.UnmarshalJSON] *)
Definition stringList (t : jtoken) : option (list gostring) :=
  match t with
  | JNull => Some []
  | JArr l => mapM list_string l
  | JStr s => Some [s]
  | _ => None
  end.

(** What the JWT library hands to the decoder of the claims: the registered
    times and the members of the document, in its order. *)
Record claims_doc := MkDoc { docExp : option Z; docNbf : option Z; docMembers : list (gostring * jtoken) }.

Record astarteClaims := MkClaims { ExpiresAt : option Z; NotBefore : option Z; authz : Claim -> list gostring }.

Definition all_claims : list Claim :=
  [ClaimAppEngine; ClaimChannels; ClaimFlow; ClaimHousekeeping; ClaimPairing; ClaimRealmManagement].

(** [encoding/json] takes a member for a field whose name differs only by case;
    the letters of the claims fold with ASCII letters only. *)
Definition names_claim (key : gostring) (c : Claim) : bool := EqualFold key (claim_key c).

(** Every member of that name has to decode, and the last one counts. *)
Definition claim_strings (d : claims_doc) (c : Claim) : option (list gostring) :=
  ls ← mapM (fun x => stringList x.2) (filter (fun x => names_claim x.1 c = true) (docMembers d));
  Some (default [] (last ls)).

Definition decodeClaims (d : claims_doc) : option astarteClaims :=
  if forallb (fun c => match claim_strings d c with Some _ => true | None => false end) all_claims
  then Some (MkClaims (docExp d) (docNbf d) (fun c => default [] (claim_strings d c)))
  else None.

Class Regexp := { CompileRE : gostring -> option (gostring -> bool) }.

Record grant := MkGrant { gVerb : gostring -> bool; verbLiteral : gostring; gPath : gostring -> bool }.

(** [strings.SplitN(s, ":", 3)] when it has three parts. *)
Definition split3 (s : gostring) : option (gostring * gostring * gostring) :=
  match Strings.Cut s ":" with
  | (a, rest, true) =>
      match Strings.Cut rest ":" with
      | (b, c, true) => Some (a, b, c)
      | _ => None
      end
  | _ => None
  end.

Section Tokens.
Context `{Regexp}.

Definition anchored (s : gostring) : gostring := "^"%go ++ s ++ "$"%go.

Definition compileGrant (s : gostring) : option grant :=
  '(v, _, p) ← split3 s;
  verb ← CompileRE (anchored v);
  path ← CompileRE (anchored p);
  Some (MkGrant verb v path).

Record Token := MkToken { tExpires : option Z; tGrants : Claim -> list grant }.

Definition newToken (c : astarteClaims) : Token :=
  MkToken (ExpiresAt c) (fun claim => omap compileGrant (authz c claim)).

Definition Authorizes (t : Token) (claim : Claim) (verb authPath : gostring) : bool :=
  existsb (fun g => gVerb g verb && gPath g authPath) (tGrants t claim).

Definition VerbJoin : gostring := "JOIN"%go.
Definition VerbWatch : gostring := "WATCH"%go.

Definition AuthorizesChannel (t : Token) (verb authPath : gostring) : bool :=
  existsb (fun g => bool_decide (verbLiteral g = verb) && gPath g authPath) (tGrants t ClaimChannels).

End Tokens.

(** ** Keys *)

(** [encoding/pem] and [crypto/x509]; a public key is RSA, ECDSA or another. *)
Inductive key_kind := KeyRSA | KeyECDSA | KeyOther.
Class KeyText := {
  PublicKey : Type;
  kind_of : PublicKey -> key_kind;
  PemDecode : gostring -> option (gostring * gostring * gostring);  (** type, bytes, rest *)
  ParsePKIX : gostring -> option PublicKey;
  ParsePKCS1 : gostring -> option PublicKey }.

Inductive auth_error :=
| NoPEMBlock (i : nat) | BadKey (i : nat) | UnsupportedKey (i : nat)
| NoRealmKeys | NoKeyMatched | InvalidToken | TokenExpired.

Section Keys.
Context `{KeyText}.

Definition parsePublicKeyBlock (i : nat) (ty bytes : gostring) : result auth_error PublicKey :=
  if bool_decide (ty = "PUBLIC KEY"%go) then
    match ParsePKIX bytes with
    | None => Err (BadKey i)
    | Some k => match kind_of k with KeyOther => Err (UnsupportedKey i) | _ => Ok k end
    end
  else if bool_decide (ty = "RSA PUBLIC KEY"%go) then or_err (ParsePKCS1 bytes) (BadKey i)
  else Err (UnsupportedKey i).

(** The blocks of one entry. *)
Fixpoint parse_entry (fuel : nat) (i : nat) (rest : gostring) : result auth_error (list PublicKey) :=
  match fuel with
  | O => Ok []
  | S fuel =>
      match PemDecode rest with
      | None => Ok []
      | Some (ty, bytes, rest) =>
          let? k := parsePublicKeyBlock i ty bytes in
          let? ks := parse_entry fuel i rest in
          Ok (k :: ks)
      end
  end.

Fixpoint parse_entries (i : nat) (pems : list gostring) : result auth_error (list PublicKey) :=
  match pems with
  | [] => Ok []
  | entry :: pems =>
      let? ks := parse_entry (S (length entry)) i entry in
      match ks with
      | [] => Err (NoPEMBlock i)
      | _ => let? rest := parse_entries (S i) pems in Ok (ks ++ rest)
      end
  end.

(** A decoded block takes bytes, so an entry's length bounds its blocks. *)
Lemma parse_entry_fuel :
  (forall s ty b rest, PemDecode s = Some (ty, b, rest) -> length rest < length s) ->
  forall f1 f2 i s, length s < f1 -> length s < f2 -> parse_entry f1 i s = parse_entry f2 i s.
Proof.
  intros Hsh. induction f1 as [|f1 IH]; intros [|f2] i s H1 H2; try lia. simpl.
  destruct (PemDecode s) as [[[ty b] rest]|] eqn:E; [|done]. apply Hsh in E.
  destruct (parsePublicKeyBlock i ty b); simpl; [|done]. by rewrite (IH f2 i rest) by lia.
Qed.

Definition ParsePublicKeysPEM (pems : list gostring) : result auth_error (list PublicKey) := parse_entries 0 pems.

End Keys.

(** ** Verification *)

Inductive jwt_error := SignatureInvalid | OtherInvalid.

(** [jwt.Parser.ParseWithClaims] with the allowed signing methods, a key and a
    clock; the library decodes the claims with the given decoder. *)
Class JWT `{KeyText} := {
  ParseWithClaims : (claims_doc -> option astarteClaims) -> gostring -> PublicKey -> Z -> result jwt_error astarteClaims }.

Section Verification.
Context `{Regexp, JWT}.

Fixpoint verify_keys (tokenString : gostring) (keys : list PublicKey) (now : Z) : result auth_error Token :=
  match keys with
  | [] => Err NoKeyMatched
  | key :: keys =>
      match ParseWithClaims decodeClaims tokenString key now with
      | Ok claims => Ok (newToken claims)
      | Err SignatureInvalid => verify_keys tokenString keys now
      | Err OtherInvalid => Err InvalidToken
      end
  end.

Definition Verify (tokenString : gostring) (keys : list PublicKey) (now : Z) : result auth_error Token :=
  match keys with [] => Err NoRealmKeys | _ => verify_keys tokenString keys now end.

End Verification.

(** ** The cache *)

(** [crypto/sha256], as the function that names cache entries. *)
Class Hash := { Digest : Type; sha256 : gostring -> Digest }.

(** The LRU container. [lru_find] is what a lookup would return. *)
Class LRU `{Hash} (V : Type) := {
  lru : Type;
  lru_new : Z -> lru;
  lru_find : lru -> Digest -> option V;
  lru_get : lru -> Digest -> lru * option V;
  lru_add : lru -> Digest -> V -> lru;
  lru_remove : lru -> Digest -> lru }.

Definition DefaultCacheSize : Z := 1024.
Definition nul : ascii := chr 0.

(** The bytes that are hashed. *)
Definition key_text (tokenString : gostring) (keysPEM : list gostring) : gostring :=
  tokenString ++ (keysPEM ≫= fun k => nul :: k).
Definition cacheKey `{Hash} (tokenString : gostring) (keysPEM : list gostring) : Digest :=
  sha256 (key_text tokenString keysPEM).

Section Cache.
Context `{Regexp, JWT, Hash, !LRU Token}.

Definition NewCache (size : Z) : lru := lru_new (if (size <? 1)%Z then DefaultCacheSize else size).

Definition CacheVerify (c : lru) (tokenString : gostring) (keysPEM : list gostring) (now : Z)
    : lru * result auth_error Token :=
  let key := cacheKey tokenString keysPEM in
  match lru_get c key with
  | (c, Some tok) =>
      match tExpires tok with
      | Some exp => if negb (now <? exp)%Z then (lru_remove c key, Err TokenExpired) else (c, Ok tok)
      | None => (c, Ok tok)
      end
  | (c, None) =>
      match ParsePublicKeysPEM keysPEM with
      | Err e => (c, Err e)
      | Ok keys =>
          match Verify tokenString keys now with
          | Err e => (c, Err e)
          | Ok tok => (lru_add c key tok, Ok tok)
          end
      end
  end.

(** What the cache stands for. *)
Definition DirectVerify (tokenString : gostring) (keysPEM : list gostring) (now : Z) : result auth_error Token :=
  let? keys := ParsePublicKeysPEM keysPEM in Verify tokenString keys now.

(** ** The request guard *)

Record request := MkRequest { rMethod : gostring; rPath : gostring; rAuthorization : gostring }.

Fixpoint after_base (segments : list gostring) (base : gostring) : option gostring :=
  match segments with
  | [] => None
  | s :: rest => if decide (s = base) then Some (Strings.Join rest "/") else after_base rest base
  end.
Definition RelativePath (urlPath base : gostring) : option gostring :=
  after_base (Strings.Split (Trim urlPath "/") "/") base.

Definition trim_colon (s : gostring) : gostring :=
  match Strings.CutPrefix (rev s) ":"%go with Some r => rev r | None => s end.

Definition bearerToken (header : gostring) : option gostring :=
  match header with
  | [] => None
  | _ =>
      match Strings.Cut header " " with
      | (scheme, rest, true) =>
          if EqualFold (trim_colon scheme) "bearer"%go
          then match TrimSpace rest with [] => None | token => Some token end
          else None
      | _ => None
      end
  end.

Inductive authResult := authServed (tok : Token) | authFailed | authForbidden.

Definition tryAuthorize (c : lru) (r : request) (claim : Claim) (keysPEM : list gostring) (base : gostring) (now : Z)
    : lru * authResult :=
  match bearerToken (rAuthorization r) with
  | None => (c, authFailed)
  | Some tokenString =>
      match CacheVerify c tokenString keysPEM now with
      | (c, Err _) => (c, authFailed)
      | (c, Ok tok) =>
          match RelativePath (rPath r) base with
          | None => (c, authForbidden)
          | Some authPath =>
              (c, if Authorizes tok claim (rMethod r) authPath then authServed tok else authForbidden)
          end
      end
  end.

Inductive response := Served (tok : Token) | Unauthorized | Forbidden | InternalServerError.

Definition authorize (c : lru) (r : request) (claim : Claim) (keysPEM : list gostring) (base : gostring) (now : Z)
    : lru * response :=
  match tryAuthorize c r claim keysPEM base now with
  | (c, authServed tok) => (c, Served tok)
  | (c, authFailed) => (c, Unauthorized)
  | (c, authForbidden) => (c, Forbidden)
  end.

Fixpoint try_claims (c : lru) (r : request) (claims : list Claim) (keysPEM : list gostring) (realm : gostring) (now : Z)
    : lru * response :=
  match claims with
  | [] => (c, Forbidden)
  | claim :: claims =>
      match tryAuthorize c r claim keysPEM realm now with
      | (c, authServed tok) => (c, Served tok)
      | (c, authFailed) => (c, Unauthorized)
      | (c, authForbidden) => try_claims c r claims keysPEM realm now
      end
  end.

(** The answer of the key source for a realm name. *)
Inductive realm_read := RealmKeys (keysPEM : list gostring) | RealmUnknown | RealmError.

Definition RequireRealmAny (c : lru) (claims : list Claim) (realm : gostring) (row : realm_read) (r : request) (now : Z)
    : lru * response :=
  match realm, claims with
  | [], _ | _, [] => (c, Unauthorized)
  | _, _ =>
      match row with
      | RealmUnknown => (c, Unauthorized)
      | RealmError => (c, InternalServerError)
      | RealmKeys keysPEM => try_claims c r claims keysPEM realm now
      end
  end.

Definition RequireRealm (c : lru) (claim : Claim) := RequireRealmAny c [claim].
Definition RequireStatic (c : lru) (claim : Claim) (keysPEM : list gostring) (r : request) (now : Z) : lru * response :=
  authorize c r claim keysPEM "v1"%go now.

End Cache.

(** ** The laws of the interfaces *)

(** Registered claims are checked without leeway. *)
Definition valid_at (c : astarteClaims) (now : Z) : bool :=
  match ExpiresAt c with Some e => (now <? e)%Z | None => true end &&
  match NotBefore c with Some n => (n <=? now)%Z | None => true end.

(** Whether a token parses and its signature matches does not depend on the
    clock; the times are checked last. *)
Class JWTLaws `{JWT} := {
  jwt_clock dec tok key : exists d, forall now,
    ParseWithClaims dec tok key now =
    match d with Ok c => if valid_at c now then Ok c else Err OtherInvalid | Err e => Err e end }.

(** A container may evict, but never invents or changes an entry. *)
Class LRULaws `{LRU V} := {
  lru_new_find n k : lru_find (lru_new n) k = None;
  lru_get_answer c k : (lru_get c k).2 = lru_find c k;
  lru_get_find c k k' : lru_find (lru_get c k).1 k' = lru_find c k';
  lru_add_find c k v k' w : lru_find (lru_add c k v) k' = Some w -> (k' = k /\ w = v) \/ lru_find c k' = Some w;
  lru_add_hit c k v : lru_find (lru_add c k v) k = Some v;
  lru_remove_find c k k' w : lru_find (lru_remove c k) k' = Some w -> lru_find c k' = Some w }.

(** ** Strings without NUL *)

Definition clean (s : gostring) : Prop := nul ∉ s.

Lemma cut_space_app s r : cut_space s = Some r -> exists w, s = w ++ r.
Proof.
  unfold cut_space. intros Hh. apply head_Some_elem_of, list_elem_of_omap in Hh as (w & _ & Hw).
  exists w. by apply Strings.CutPrefix_spec.
Qed.

Lemma cut_space_end_app s r : cut_space_end s = Some r -> exists w, s = r ++ w.
Proof.
  unfold cut_space_end. intros Hh. apply fmap_Some in Hh as (r' & Hh & ->).
  apply head_Some_elem_of, list_elem_of_omap in Hh as (w & _ & Hw). apply Strings.CutPrefix_spec in Hw.
  exists w. rewrite <- (rev_involutive s), Hw, rev_app_distr, rev_involutive. done.
Qed.

Lemma trim_by_clean cut fuel s :
  (forall x y, cut x = Some y -> clean x -> clean y) -> clean s -> clean (trim_by cut fuel s).
Proof.
  intros Hcut. revert s. induction fuel as [|fuel IH]; intros s Hs; [done|]. simpl.
  destruct (cut s) eqn:E; [|done]. apply IH. by eapply Hcut.
Qed.

Lemma TrimSpace_clean s : clean s -> clean (TrimSpace s).
Proof.
  intros Hs. unfold TrimSpace, clean in *. apply trim_by_clean; [|apply trim_by_clean; [|done]].
  - intros x y [w ->]%cut_space_end_app. unfold clean. set_solver.
  - intros x y [w ->]%cut_space_app. unfold clean. set_solver.
Qed.

Lemma bearerToken_clean h t : clean h -> bearerToken h = Some t -> clean t.
Proof.
  unfold bearerToken. intros Hh. destruct h as [|c h]; [done|].
  destruct (Strings.Cut (c :: h) " ") as [[a b] []] eqn:E; [|done].
  destruct (EqualFold _ _); [|done]. apply Strings.Cut_spec in E.
  pose proof (TrimSpace_clean b) as Hb. destruct (TrimSpace b) eqn:Et; [done|]. intros [= <-]. apply Hb.
  destruct E as [E _]. unfold clean in *. rewrite E, not_elem_of_app, not_elem_of_cons in Hh. by destruct Hh as (_ & _ & ?).
Qed.

(** The hashed text tells the token and the keys apart when neither holds a
    NUL byte. *)
Lemma key_text_inj s ks s' ks' :
  clean s -> clean s' -> Forall clean ks -> Forall clean ks' -> key_text s ks = key_text s' ks' -> s = s' /\ ks = ks'.
Proof.
  assert (forall s ks, clean s -> Forall clean ks -> Strings.Split (key_text s ks) nul = s :: ks) as Hsplit.
  { intros t l Ht Hl. revert t Ht. induction Hl as [|k l Hk Hl IH]; intros t Ht; unfold key_text; simpl.
    - rewrite app_nil_r. by apply Strings.Split_none.
    - rewrite Strings.Split_app by done. f_equal. by apply (IH k). }
  intros H1 H2 H3 H4 E. apply (f_equal (fun x => Strings.Split x nul)) in E. rewrite !Hsplit in E by done.
  by injection E.
Qed.

(** ** The cache refines verification *)

Section Guarantees.
Context `{Regexp, JWT, !JWTLaws, Hash, !LRU Token, !LRULaws}.

Definition expired (tok : Token) (now : Z) : bool :=
  match tExpires tok with Some e => negb (now <? e)%Z | None => false end.

(** A token once verified stays verified until it expires. *)
Lemma verify_later s keys t0 now tok :
  Verify s keys t0 = Ok tok -> (t0 <= now)%Z ->
  Verify s keys now = if expired tok now then Err InvalidToken else Ok tok.
Proof.
  unfold Verify. destruct keys as [|key0 keys0]; [done|].
  generalize (key0 :: keys0) as keys. clear key0 keys0. intros keys Hv Hle.
  induction keys as [|key keys IH]; [done|]. simpl in *.
  destruct (jwt_clock decodeClaims s key) as [d Hd]. rewrite Hd in *.
  destruct d as [c|[]]; [|by apply IH|done].
  destruct (valid_at c t0) eqn:Ev; [|done]. injection Hv as <-. unfold valid_at in *. unfold expired. simpl.
  apply andb_true_iff in Ev as [_ Hn].
  assert (match NotBefore c with Some n => (n <=? now)%Z | None => true end = true) as ->.
  { destruct (NotBefore c); [|done]. apply Z.leb_le in Hn. apply Z.leb_le. lia. }
  rewrite andb_true_r. destruct (ExpiresAt c); [|done]. by destruct (now <? z)%Z.
Qed.

(** The states of a cache in use, with the time of the last call; the clock
    does not go back. *)
Inductive history : Z -> lru -> Prop :=
| hist_new n t : history t (NewCache n)
| hist_verify t c s ks now :
    history t c -> (t <= now)%Z -> clean s -> Forall clean ks -> history now (CacheVerify c s ks now).1.

Definition entry_ok (t : Z) (d : Digest) (tok : Token) : Prop :=
  exists s ks keys t0, d = cacheKey s ks /\ clean s /\ Forall clean ks /\ (t0 <= t)%Z /\
    ParsePublicKeysPEM ks = Ok keys /\ Verify s keys t0 = Ok tok.

Lemma entry_ok_later t t' d tok : (t <= t')%Z -> entry_ok t d tok -> entry_ok t' d tok.
Proof. intros Hle (s & ks & keys & t0 & ? & ? & ? & Ht & ? & ?). exists s, ks, keys, t0. split_and!; (done || lia). Qed.

Lemma history_entries t c : history t c -> forall d tok, lru_find c d = Some tok -> entry_ok t d tok.
Proof.
  induction 1 as [n t|t c s ks now Hc IH Hle Hs Hks]; intros d tok Hf.
  - unfold NewCache in Hf. by rewrite lru_new_find in Hf.
  - assert (forall d tok, lru_find c d = Some tok -> entry_ok now d tok) as IH'.
    { intros d' tok' Hf'. by eapply entry_ok_later, IH. }
    unfold CacheVerify in Hf. pose proof (lru_get_find c (cacheKey s ks)) as Hg.
    pose proof (lru_get_answer c (cacheKey s ks)) as Ha.
    destruct (lru_get c (cacheKey s ks)) as [c' [tok'|]]; simpl in *.
    + repeat case_match; simpl in *; apply IH'; rewrite <- Hg; try done. by eapply lru_remove_find.
    + destruct (ParsePublicKeysPEM ks) as [keys|e] eqn:Ek; [|simpl in *; apply IH'; by rewrite <- Hg].
      destruct (Verify s keys now) as [tok'|e] eqn:Ev; simpl in *; [|apply IH'; by rewrite <- Hg].
      apply lru_add_find in Hf as [[-> ->]|Hf]; [|apply IH'; by rewrite <- Hg].
      exists s, ks, keys, now. split_and!; (done || lia).
Qed.

Lemma cached_verify_spec t c s ks now tok :
  Inj (=) (=) sha256 -> history t c -> (t <= now)%Z -> clean s -> Forall clean ks ->
  (CacheVerify c s ks now).2 = Ok tok <-> DirectVerify s ks now = Ok tok.
Proof.
  intros Hinj Hc Hle Hs Hks. unfold CacheVerify, DirectVerify.
  pose proof (lru_get_answer c (cacheKey s ks)) as Ha.
  destruct (lru_get c (cacheKey s ks)) as [c' o]. simpl in Ha. subst o.
  destruct (lru_find c (cacheKey s ks)) as [tok'|] eqn:Ef.
  - destruct (history_entries t c Hc _ _ Ef) as (s' & ks' & keys & t0 & Hd & Hs' & Hks' & Ht0 & Hp & Hv).
    apply (inj sha256) in Hd. apply key_text_inj in Hd as [<- <-]; [|done..]. rewrite Hp. simpl.
    rewrite (verify_later s keys t0 now tok' Hv) by lia. unfold expired.
    destruct (tExpires tok') as [e|]; [|done]. by destruct (now <? e)%Z.
  - destruct (ParsePublicKeysPEM ks) as [keys|e]; simpl; [|done]. by destruct (Verify s keys now).
Qed.

(** ** The decision of a request *)

(** What a guard decides, without a cache. *)
Definition decision (claims : list Claim) (realm : gostring) (row : realm_read) (r : request) (now : Z) : response :=
  match realm, claims, row with
  | [], _, _ | _, [], _ | _, _, RealmUnknown => Unauthorized
  | _, _, RealmError => InternalServerError
  | _, _, RealmKeys ks =>
      match bearerToken (rAuthorization r) with
      | None => Unauthorized
      | Some s =>
          match DirectVerify s ks now, RelativePath (rPath r) realm with
          | Err _, _ => Unauthorized
          | Ok _, None => Forbidden
          | Ok tok, Some p => if existsb (fun claim => Authorizes tok claim (rMethod r) p) claims then Served tok else Forbidden
          end
      end
  end.

Lemma try_claims_spec t c r claims ks realm now :
  Inj (=) (=) sha256 -> history t c -> (t <= now)%Z -> clean (rAuthorization r) -> Forall clean ks -> claims <> [] ->
  (try_claims c r claims ks realm now).2 =
    match bearerToken (rAuthorization r) with
    | None => Unauthorized
    | Some s =>
        match DirectVerify s ks now, RelativePath (rPath r) realm with
        | Err _, _ => Unauthorized
        | Ok _, None => Forbidden
        | Ok tok, Some p => if existsb (fun claim => Authorizes tok claim (rMethod r) p) claims then Served tok else Forbidden
        end
    end /\ exists t', (t' <= now)%Z /\ history t' (try_claims c r claims ks realm now).1.
Proof.
  intros Hinj Hc Hle Hclean Hks. revert t c Hc Hle. induction claims as [|claim claims IH]; intros t c Hc Hle Hne; [done|].
  cbn [try_claims]. unfold tryAuthorize. destruct (bearerToken (rAuthorization r)) as [s|] eqn:Eb; [|by eauto].
  pose proof (bearerToken_clean _ _ Hclean Eb) as Hs.
  pose proof (fun tok => cached_verify_spec t c s ks now tok Hinj Hc Hle Hs Hks) as Hiff.
  pose proof (hist_verify t c s ks now Hc Hle Hs Hks) as Hc'.
  destruct (CacheVerify c s ks now) as [c' [tok|e]]; simpl in Hiff, Hc'.
  - rewrite (proj1 (Hiff tok) eq_refl). destruct (RelativePath (rPath r) realm) as [p|] eqn:Ep; simpl.
    + destruct (Authorizes tok claim (rMethod r) p) eqn:Ea; simpl; [split; [done|]; exists now; split; [lia|done]|].
      destruct claims as [|c2 claims]; [simpl; split; [done|]; exists now; split; [lia|done]|].
      destruct (IH now c' Hc' ltac:(lia) ltac:(done)) as [-> Hh]. split; [|done].
      by rewrite (proj1 (Hiff tok) eq_refl).
    + destruct claims as [|c2 claims]; [simpl; split; [done|]; exists now; split; [lia|done]|].
      destruct (IH now c' Hc' ltac:(lia) ltac:(done)) as [-> Hh]. split; [|done].
      by rewrite (proj1 (Hiff tok) eq_refl).
  - destruct (DirectVerify s ks now) as [tok|e'] eqn:Ed; [discriminate (proj2 (Hiff tok) eq_refl)|].
    simpl. split; [done|]. exists now. split; [lia|done].
Qed.

(** ** What a grant allows *)

(** An authorization string of three parts whose first and last compile and
    match. *)
Definition grants (strings : list gostring) (verb path : gostring) : Prop :=
  exists v o p fv fp, v ++ ":"%go ++ o ++ ":"%go ++ p ∈ strings /\ ":"%char ∉ v /\ ":"%char ∉ o /\
    CompileRE (anchored v) = Some fv /\ CompileRE (anchored p) = Some fp /\ fv verb = true /\ fp path = true.

Lemma split3_spec s v o p :
  split3 s = Some (v, o, p) <-> s = v ++ ":"%go ++ o ++ ":"%go ++ p /\ ":"%char ∉ v /\ ":"%char ∉ o.
Proof.
  unfold split3. split.
  - destruct (Strings.Cut s ":") as [[a rest] []] eqn:E1; [|done].
    destruct (Strings.Cut rest ":") as [[b c] []] eqn:E2; [|done]. intros [= -> -> ->].
    apply Strings.Cut_spec in E1 as [-> ?], E2 as [-> ?]. done.
  - intros (-> & Hv & Ho). change (v ++ ":"%go ++ o ++ ":"%go ++ p) with (v ++ ":"%char :: (o ++ ":"%char :: p)).
    by rewrite Strings.Cut_app, Strings.Cut_app.
Qed.

Lemma authorizes_iff c claim verb path : Authorizes (newToken c) claim verb path = true <-> grants (authz c claim) verb path.
Proof.
  unfold Authorizes. rewrite existsb_exists. cbn [newToken tGrants]. split.
  - intros (g & Hg & Hm). apply list_elem_of_In, list_elem_of_omap in Hg as (s & Hs & Hg).
    unfold compileGrant in Hg. destruct (split3 s) as [[[v o] p]|] eqn:E3; [|done]. simpl in Hg.
    destruct (CompileRE (anchored v)) as [fv|] eqn:Ev; [|done]. simpl in Hg.
    destruct (CompileRE (anchored p)) as [fp|] eqn:Ep; [|done]. injection Hg as <-.
    apply split3_spec in E3 as (-> & Hv & Ho). apply andb_true_iff in Hm as [Hm1 Hm2].
    by exists v, o, p, fv, fp.
  - intros (v & o & p & fv & fp & Hs & Hv & Ho & Ev & Ep & Hm1 & Hm2). exists (MkGrant fv v fp). split.
    + apply list_elem_of_In, list_elem_of_omap. eexists. split; [exact Hs|]. unfold compileGrant.
      rewrite (proj2 (split3_spec _ v o p)) by done. simpl. by rewrite Ev, Ep.
    + simpl. by rewrite Hm1, Hm2.
Qed.

Lemma verify_key s keys now tok :
  Verify s keys now = Ok tok ->
  exists key c, key ∈ keys /\ ParseWithClaims decodeClaims s key now = Ok c /\ tok = newToken c.
Proof.
  unfold Verify. destruct keys as [|key0 keys0]; [done|]. generalize (key0 :: keys0) as keys. clear key0 keys0.
  induction keys as [|key keys IH]; [done|]. simpl.
  destruct (ParseWithClaims decodeClaims s key now) as [c|[]] eqn:E; [| |done].
  - intros [= <-]. exists key, c. split; [left|done].
  - intros (key' & c & ? & ?)%IH. exists key', c. split; [by right|done].
Qed.

Lemma after_base_spec segs base p :
  after_base segs base = Some p <-> exists pre post, segs = pre ++ base :: post /\ base ∉ pre /\ p = Strings.Join post "/".
Proof.
  induction segs as [|x segs IH]; simpl.
  - split; [done|]. intros ([] & ? & ? & _); done.
  - destruct (decide (x = base)) as [->|Hne].
    + split; [intros [= <-]; exists [], segs; split_and!; [done|by apply not_elem_of_nil|done]|].
      intros ([|y pre] & post & Hs & Hn & ->); simplify_eq/=; [done|]. destruct Hn. left.
    + rewrite IH. split.
      * intros (pre & post & -> & Hn & ->). exists (x :: pre), post. split_and!; [done| |done].
        by rewrite not_elem_of_cons.
      * intros ([|y pre] & post & Hs & Hn & ->); simplify_eq/=. apply not_elem_of_cons in Hn as [_ Hn]. by exists pre, post.
Qed.

(** ** The guarantees *)

(** C25. The cache never changes a decision: after any sequence of verifications
    of tokens and key sets without NUL bytes, with a clock that does not go back
    and a hash without collisions, a guarded request gets the answer of a
    verification made for it alone, a token that expired or whose realm changed
    its keys since it was cached included. *)
Theorem cached_decision_like_fresh t c claims realm row r now :
  Inj (=) (=) sha256 -> history t c -> (t <= now)%Z -> clean (rAuthorization r) ->
  (forall ks, row = RealmKeys ks -> Forall clean ks) ->
  (RequireRealmAny c claims realm row r now).2 = decision claims realm row r now /\
  exists t', (t' <= now)%Z /\ history t' (RequireRealmAny c claims realm row r now).1.
Proof.
  intros Hinj Hc Hle Hclean Hks. unfold RequireRealmAny, decision.
  destruct realm as [|b realm]; [by eauto|]. destruct claims as [|claim claims]; [by eauto|].
  destruct row as [ks| |]; [|by eauto|by eauto]. eapply try_claims_spec; try done. by apply Hks.
Qed.

(** C6. A request reaches the handler only with a grant: its bearer token parses
    with a key of the realm's current key set at this moment, and one of the
    required claims of that token holds an authorization string whose verb and
    path expressions match the method and the part of the path that follows
    the first segment equal to the realm's name. *)
Theorem served_request_authorized t c claims realm ks r now tok :
  Inj (=) (=) sha256 -> history t c -> (t <= now)%Z -> clean (rAuthorization r) -> Forall clean ks ->
  (RequireRealmAny c claims realm (RealmKeys ks) r now).2 = Served tok ->
  exists s keys key doc claim pre post,
    bearerToken (rAuthorization r) = Some s /\ ParsePublicKeysPEM ks = Ok keys /\ key ∈ keys /\
    ParseWithClaims decodeClaims s key now = Ok doc /\ tok = newToken doc /\ claim ∈ claims /\
    Strings.Split (Trim (rPath r) "/") "/" = pre ++ realm :: post /\ realm ∉ pre /\
    grants (authz doc claim) (rMethod r) (Strings.Join post "/").
Proof.
  intros Hinj Hc Hle Hclean Hks. unfold RequireRealmAny.
  destruct realm as [|b realm]; [done|]. destruct claims as [|claim claims]; [done|].
  destruct (try_claims_spec t c r (claim :: claims) ks (b :: realm) now Hinj Hc Hle Hclean Hks) as [-> _]; [done|].
  destruct (bearerToken (rAuthorization r)) as [s|]; [|done]. unfold DirectVerify.
  destruct (ParsePublicKeysPEM ks) as [keys|]; [|done]. cbn [bindR].
  destruct (Verify s keys now) as [tok'|] eqn:Ev; [|done].
  destruct (RelativePath (rPath r) (b :: realm)) as [p|] eqn:Ep; [|done].
  destruct (existsb _ _) eqn:Ee; [|done]. intros [= <-].
  apply verify_key in Ev as (key & doc & Hkey & Hdoc & ->). apply after_base_spec in Ep as (pre & post & Hsp & Hn & ->).
  apply existsb_exists in Ee as (cl & Hcl & Ha). apply authorizes_iff in Ha.
  exists s, keys, key, doc, cl, pre, post. split_and!; try done. by apply list_elem_of_In.
Qed.

(** A token string with a NUL byte is not told apart from a token and a key:
    what was verified for a realm with the keys [k :: ks] answers for the token
    followed by NUL and [k] in a realm with the keys [ks]. *)
Theorem cache_key_collision c s k ks now keys tok :
  ParsePublicKeysPEM (k :: ks) = Ok keys -> Verify s keys now = Ok tok -> expired tok now = false ->
  lru_find c (cacheKey s (k :: ks)) = None ->
  let c1 := (CacheVerify c s (k :: ks) now).1 in
  (CacheVerify c1 (s ++ nul :: k) ks now).2 = Ok tok.
Proof.
  intros Hk Hv He Hnone c1. assert (lru_find c1 (cacheKey s (k :: ks)) = Some tok) as Hf.
  { subst c1. unfold CacheVerify. pose proof (lru_get_answer c (cacheKey s (k :: ks))) as Ha.
    destruct (lru_get c (cacheKey s (k :: ks))) as [c' o]. simpl in Ha. subst o. rewrite Hnone, Hk, Hv. apply lru_add_hit. }
  unfold CacheVerify. replace (cacheKey (s ++ nul :: k) ks) with (cacheKey s (k :: ks)).
  2: { unfold cacheKey, key_text. cbn [mbind list_bind]. by rewrite <- (assoc_L (++)). }
  pose proof (lru_get_answer c1 (cacheKey s (k :: ks))) as Ha.
  destruct (lru_get c1 (cacheKey s (k :: ks))) as [c' o]. simpl in Ha. subst o. rewrite Hf.
  unfold expired in He. destruct (tExpires tok); [|done]. by rewrite He.
Qed.

End Guarantees.

(** ** Instances *)

(** Expressions that are a plain text, or [.*]. *)
Definition plain (c : ascii) : bool :=
  between "a" "z" c || between "A" "Z" c || between "0" "9" c || bool_decide (c ∈ "/_-"%go).
#[local] Instance plain_regexp : Regexp := {|
  CompileRE s :=
    match Strings.CutPrefix s "^"%go with
    | Some r =>
        match Strings.CutPrefix (rev r) "$"%go with
        | Some m =>
            let body := rev m in
            if bool_decide (body = ".*"%go) then Some (fun _ => true)
            else if forallb plain body then Some (fun x => bool_decide (x = body)) else None
        | None => None
        end
    | None => None
    end |}.

#[local] Instance text_keys : KeyText := {|
  PublicKey := gostring;
  kind_of _ := KeyECDSA;
  PemDecode s := match s with [] => None | _ => Some ("PUBLIC KEY"%go, s, []) end;
  ParsePKIX := Some;
  ParsePKCS1 := Some |}.

(** A token signed with a key is the key after a mark; it expires at 100. *)
Definition sample_doc : claims_doc :=
  MkDoc (Some 100%Z) (Some 10%Z) [("iss"%go, JStr "x"%go); ("A_aea"%go, JArr [JStr "POST::.*"%go; JStr "GET::devices/x"%go])].
#[local] Instance marked_jwt : JWT := {|
  ParseWithClaims dec tok key now :=
    if bool_decide (tok = "t!"%go ++ key) then
      match dec sample_doc with
      | Some c => if valid_at c now then Ok c else Err OtherInvalid
      | None => Err OtherInvalid
      end
    else Err SignatureInvalid |}.
#[local] Instance marked_jwt_laws : JWTLaws.
Proof.
  split. intros dec tok key. simpl. destruct (bool_decide _); [|by exists (Err SignatureInvalid)].
  destruct (dec sample_doc) as [c|]; [by exists (Ok c)|by exists (Err OtherInvalid)].
Qed.

#[local] Instance text_hash : Hash := {| Digest := gostring; sha256 s := s |}.

Fixpoint assoc {V} (l : list (gostring * V)) (k : gostring) : option V :=
  match l with [] => None | (k', v) :: l => if decide (k' = k) then Some v else assoc l k end.
#[local] Instance bounded_lru V : LRU V := {|
  lru := Z * list (gostring * V);
  lru_new n := (n, []);
  lru_find c k := assoc c.2 k;
  lru_get c k := (c, assoc c.2 k);
  lru_add c k v := (c.1, take (S (Z.to_nat (c.1 - 1))) ((k, v) :: c.2));
  lru_remove c k := (c.1, filter (fun e => e.1 <> k) c.2) |}.

Lemma assoc_take {V} n (l : list (gostring * V)) k v : assoc (take n l) k = Some v -> assoc l k = Some v.
Proof.
  revert n. induction l as [|[k' w] l IH]; intros [|n]; simpl; try done. destruct (decide (k' = k)); [done|apply IH].
Qed.
Lemma assoc_filter {V} (l : list (gostring * V)) k k' v :
  assoc (filter (fun e => e.1 <> k) l) k' = Some v -> assoc l k' = Some v.
Proof.
  induction l as [|[k1 w] l IH]; [done|]. rewrite filter_cons. simpl.
  destruct (decide (k1 <> k)) as [Hne|Heq%dec_stable]; simpl.
  - destruct (decide (k1 = k')); [done|apply IH].
  - destruct (decide (k1 = k')) as [->|]; [|apply IH]. subst k. clear IH. intros Hf. exfalso. revert Hf.
    induction l as [|[k2 w2] l IH]; [done|]. rewrite filter_cons. simpl. destruct (decide (k2 <> k')) as [Hne|]; [|done].
    simpl. by rewrite decide_False.
Qed.
#[local] Instance bounded_lru_laws V : @LRULaws _ V (bounded_lru V).
Proof.
  split; simpl; try done.
  - intros c k v k' w. destruct (decide (k = k')) as [->|]; [intros [= ->]; by left|]. intros Hf. right. by eapply assoc_take.
  - intros c k v. by rewrite decide_True.
  - intros c k k' w. apply assoc_filter.
Qed.

Definition sample_request (path : gostring) : request := MkRequest "GET"%go path "Bearer: t!k2"%go.
Definition sample_cache : lru := (CacheVerify (NewCache 2) "t!k2"%go ["k1"%go; "k2"%go] 20).1.
Definition answer (r : response) : option Z :=
  match r with Served tok => Some (default 0 (tExpires tok))%Z | Unauthorized => None | Forbidden => Some 403%Z | InternalServerError => Some 500%Z end.

Lemma sample_history : history 20 sample_cache.
Proof.
  apply (hist_verify 20 (NewCache 2)); [constructor|lia|apply (bool_decide_unpack _); vm_compute; exact I|].
  repeat constructor; apply (bool_decide_unpack _); vm_compute; exact I.
Qed.

Lemma cached_decision_like_fresh_witness :
  answer (RequireRealmAny sample_cache [ClaimAppEngine] "r"%go (RealmKeys ["k1"%go; "k2"%go]) (sample_request "/appengine/v1/r/devices/x"%go) 30).2 = Some 100%Z /\
  (RequireRealmAny sample_cache [ClaimAppEngine] "r"%go (RealmKeys ["k1"%go; "k2"%go]) (sample_request "/appengine/v1/r/devices/x"%go) 100).2 = Unauthorized.
Proof.
  split; [vm_compute; reflexivity|].
  etransitivity; [apply (cached_decision_like_fresh 20 sample_cache [ClaimAppEngine] "r"%go (RealmKeys ["k1"%go; "k2"%go]) (sample_request "/appengine/v1/r/devices/x"%go) 100)|vm_compute; reflexivity].
  - by intros x y.
  - exact sample_history.
  - lia.
  - apply (bool_decide_unpack _). vm_compute. exact I.
  - intros ks [= <-]. repeat constructor; apply (bool_decide_unpack _); vm_compute; exact I.
Defined.

Lemma served_request_authorized_witness :
  exists tok s key doc claim post,
    (RequireRealmAny sample_cache [ClaimFlow; ClaimAppEngine] "r"%go (RealmKeys ["k1"%go; "k2"%go]) (sample_request "/appengine/v1/r/devices/x"%go) 30).2 = Served tok /\
    s = "t!k2"%go /\ ParseWithClaims decodeClaims s key 30%Z = Ok doc /\ grants (authz doc claim) "GET"%go post.
Proof.
  destruct (RequireRealmAny sample_cache [ClaimFlow; ClaimAppEngine] "r"%go (RealmKeys ["k1"%go; "k2"%go]) (sample_request "/appengine/v1/r/devices/x"%go) 30).2
    as [tok| | |] eqn:E; [|vm_compute in E; discriminate E..].
  destruct (served_request_authorized 20 sample_cache [ClaimFlow; ClaimAppEngine] "r"%go ["k1"%go; "k2"%go] (sample_request "/appengine/v1/r/devices/x"%go) 30 tok)
    as (s & keys & key & doc & claim & pre & post & Hb & _ & _ & Hd & _ & _ & _ & _ & Hg).
  - by intros x y.
  - exact sample_history.
  - lia.
  - apply (bool_decide_unpack _). vm_compute. exact I.
  - repeat constructor; apply (bool_decide_unpack _); vm_compute; exact I.
  - exact E.
  - exists tok, s, key, doc, claim, (Strings.Join post "/"). split; [reflexivity|]. vm_compute in Hb. injection Hb as <-. done.
Defined.

Definition sample_keys : list PublicKey := ["k2"%go; "k1"%go].

(** The realm with the one key [k1] never signed the token, and accepts it. *)
Lemma cache_key_collision_witness :
  exists tok, (CacheVerify (CacheVerify (NewCache 2) "t!k2"%go ["k2"%go; "k1"%go] 20).1 ("t!k2"%go ++ nul :: "k2"%go) ["k1"%go] 20).2 = Ok tok /\
  is_ok (DirectVerify ("t!k2"%go ++ nul :: "k2"%go) ["k1"%go] 20) = false.
Proof.
  destruct (Verify "t!k2"%go sample_keys 20) as [tok|e] eqn:E; [|vm_compute in E; discriminate E].
  exists tok. split; [|vm_compute; reflexivity].
  apply (cache_key_collision (NewCache 2) "t!k2"%go "k2"%go ["k1"%go] 20 sample_keys tok);
    [reflexivity|exact E| |reflexivity].
  assert (Hx : (match Verify "t!k2"%go sample_keys 20 with Ok tok => expired tok 20 | Err _ => true end) = false) by (vm_compute; reflexivity).
  rewrite E in Hx. exact Hx.
Defined.

End Auth.
