(* ===== verification/TriggerDefs.v ===== *)
(** * Whole trigger definitions

    [Compile] of [internal/engine/triggers/match.go], [parseAction] of
    [actions.go] and the field rules of [validation.go]. A definition is the
    view [encoding/json] decodes; [url.Parse] and [strconv.Quote] are
    functions of the environment. *)

From S2P Require Import Prelude GoStrings Regex DeviceID SchemaTypes Endpoints InterfaceParse.
From S2P Require Import EndpointTrie Compile Float64 PayloadValue Policy Triggers PayloadJson Auth.

Module TriggerDefs.
Import Triggers.

(** ** Documents *)

Record httpAction := MkHTTPAction {
  hURL : gostring;
  hMethod : gostring;
  hPostURL : gostring;
  hStaticHeaders : gmap gostring gostring;
  hIgnoreSSLErrors : bool;
  hTemplate : gostring;
  hTemplateType : gostring;
}.

(** An [action] member: its text, the object it decodes to and the
    [amqp_exchange] it names; [None] is a member of another type. *)
Record actionJSON := MkActionJSON {
  aRaw : gostring;
  aHTTP : option httpAction;
  aAMQPExchange : option gostring;
}.

(** A definition: a [name], [policy] or [simple_triggers] of another type than
    the code decodes is [None], an absent one is empty. *)
Record triggerJSON := MkTriggerJSON {
  tjName : option gostring;
  tjAction : option actionJSON;
  tjPolicy : option gostring;
  tjSimpleTriggers : option (list simpleTriggerConfig);
}.

Class Text := {
  (** [url.Parse]: the scheme and the host. *)
  url_parse : gostring -> option (gostring * gostring);
  Quote : gostring -> gostring;
}.

(** ** Runes *)

(** The bytes of the first character: a malformed one is one byte. *)
Definition rune_width (s : gostring) : nat :=
  match s with
  | [] => 0
  | c :: r =>
      match r with
      | c1 :: r1 =>
          if Payload.in_range 194 223 c && Payload.cont c1 then 2
          else match r1 with
          | c2 :: r2 =>
              if Payload.in_range 224 239 c
                 && Payload.in_range (if (byte_val c =? 224)%Z then 160 else 128) (if (byte_val c =? 237)%Z then 159 else 191) c1
                 && Payload.cont c2 then 3
              else match r2 with
              | c3 :: _ =>
                  if Payload.in_range 240 244 c
                     && Payload.in_range (if (byte_val c =? 240)%Z then 144 else 128) (if (byte_val c =? 244)%Z then 143 else 191) c1
                     && Payload.cont c2 && Payload.cont c3 then 4 else 1
              | [] => 1
              end
          | [] => 1
          end
      | [] => 1
      end
  end.
Fixpoint count_runes (fuel : nat) (s : gostring) : nat :=
  match fuel, s with
  | S fuel, _ :: _ => S (count_runes fuel (drop (rune_width s) s))
  | _, _ => 0
  end.
Definition RuneCountInString (s : gostring) : nat := count_runes (length s) s.

(** [strings.ToLower], up to characters outside ASCII that stay outside: the
    capitals, and the two characters whose lower case is an ASCII letter. *)
Definition dotted_I : gostring := map chr [196; 176]%Z.
Definition kelvin : gostring := map chr [226; 132; 170]%Z.
Fixpoint ToLower (s : gostring) : gostring :=
  match s with
  | [] => []
  | c :: r =>
      match r with
      | c1 :: r1 =>
          if bool_decide ([c; c1] = dotted_I) then "i"%char :: ToLower r1
          else match r1 with
          | c2 :: r2 => if bool_decide ([c; c1; c2] = kelvin) then "k"%char :: ToLower r2 else Auth.lower c :: ToLower r
          | [] => Auth.lower c :: ToLower r
          end
      | [] => [Auth.lower c]
      end
  end.

(** [strings.ToUpper] of the methods the code accepts, which are ASCII. *)
Definition upper (c : ascii) : ascii := if between "a" "z" c then chr (byte_val c - 32) else c.

(** ** Field rules *)

Definition minURLRunes : nat := 8.
Definition maxURLRunes : Z := 8192.
Definition maxHeadersBytes : Z := 8192.
Definition maxTemplateRunes : Z := 1048576.

Definition blockedHeaderNames : list gostring :=
  ["connection"%go; "content-length"%go; "date"%go; "host"%go; "te"%go; "upgrade"%go; "x-forwarded-for"%go;
   "x-forwarded-host"%go; "x-forwarded-proto"%go; "sec-websocket-accept"%go; "proxy-authorization"%go;
   "proxy-authenticate"%go].
Definition httpMethods : list gostring :=
  ["delete"%go; "get"%go; "head"%go; "options"%go; "patch"%go; "post"%go; "put"%go].

Section Compile.
Context `{Text}.

Definition isHTTPURL (raw : gostring) : bool :=
  match url_parse raw with
  | Some (scheme, host) => bool_decide (scheme ∈ ["http"%go; "https"%go]) && negb (blank host)
  | None => false
  end.

Definition validateURLField (field raw : gostring) (fe : fieldErrs) : fieldErrs :=
  let n := RuneCountInString raw in
  let fe := if (n <? minURLRunes)%nat then add fe field "should be at least 8 character(s)"%go
            else add_if (maxURLRunes <? Z.of_nat n)%Z field "should be at most 8192 character(s)"%go fe in
  add_if (negb (isHTTPURL raw)) field "must be a valid http(s) URL"%go fe.

Definition blocked_header (name : gostring) : bool :=
  bool_decide (ToLower (Auth.TrimSpace name) ∈ blockedHeaderNames).
Definition headers_size (headers : gmap gostring gostring) : Z :=
  map_fold (fun name value total => total + Z.of_nat (length name) + 2 + Z.of_nat (length value))%Z 0%Z headers.

Definition validateStaticHeaders (headers : gmap gostring gostring) (fe : fieldErrs) : fieldErrs :=
  let fe := add_if (existsb (fun x => blocked_header x.1) (map_to_list headers)) "http_static_headers"%go
              "must contain only allowed http headers"%go fe in
  add_if (maxHeadersBytes <=? headers_size headers)%Z "http_static_headers"%go
    "headers total size must be lower than 8192"%go fe.

Definition validateTemplate (template : gostring) (fe : fieldErrs) : fieldErrs :=
  add_if (maxTemplateRunes <? Z.of_nat (RuneCountInString template))%Z "template"%go
    "should be at most 1048576 character(s)"%go fe.

(** ** Actions *)

Inductive action_error :=
| ActionFields (fe : fieldErrs)
| MissingAction
| ActionDoesNotParse
| AMQPNotSupported.

Definition template_note (h : httpAction) : list gostring :=
  if negb (blank (hTemplateType h)) && negb (bool_decide (hTemplateType h = "mustache"%go))
  then ["template_type "%go ++ Quote (hTemplateType h) ++ " (default JSON envelope sent)"%go] else [].

(** The legacy action: the modern fields must be blank. *)
Definition legacy_errors (h : httpAction) : fieldErrs :=
  let fe := add_if (negb (blank (hURL h))) "http_url"%go "must be blank"%go ∅ in
  let fe := add_if (negb (blank (hMethod h))) "http_method"%go "must be blank"%go fe in
  let fe := add_if (negb (bool_decide (hStaticHeaders h = ∅))) "http_static_headers"%go "must be blank"%go fe in
  validateTemplate (hTemplate h) (validateURLField "http_post_url"%go (hPostURL h) fe).

Definition modern_errors (h : httpAction) : fieldErrs :=
  let fe := if blank (hMethod h) then add ∅ "http_method"%go "can't be blank"%go
            else add_if (negb (bool_decide (hMethod h ∈ httpMethods))) "http_method"%go "is invalid"%go ∅ in
  let fe := add_if (negb (blank (hPostURL h))) "http_post_url"%go "must be blank"%go fe in
  let fe := validateURLField "http_url"%go (hURL h) fe in
  validateTemplate (hTemplate h) (validateStaticHeaders (hStaticHeaders h) fe).

Definition no_action_errors (fe : fieldErrs) : result action_error () :=
  if decide (fe = ∅) then Ok () else Err (ActionFields fe).

Definition http_action (method url : gostring) (h : httpAction) : Action :=
  MkAction method url (hStaticHeaders h) (hIgnoreSSLErrors h) None (hTemplate h) (hTemplateType h).

Definition parseAction (raw : option actionJSON) : result action_error (Action * list gostring) :=
  let? raw := or_err raw MissingAction in
  let? h := or_err (aHTTP raw) ActionDoesNotParse in
  let unsupported := template_note h in
  if negb (blank (hPostURL h)) then
    no_action_errors (legacy_errors h) ;;?
    Ok (http_action "POST"%go (hPostURL h) h, unsupported)
  else if negb (blank (hURL h)) then
    no_action_errors (modern_errors h) ;;?
    Ok (http_action (map upper (hMethod h)) (hURL h) h, unsupported)
  else
    match aAMQPExchange raw with
    | Some (_ :: _) => Err AMQPNotSupported
    | _ => Ok (MkAction [] [] ∅ false (Some (aRaw raw)) [] [], unsupported)
    end.

(** ** Definitions *)

Record TriggerErrors := MkTriggerErrors {
  teAction : option fieldErrs;
  teSimpleTriggers : list (option fieldErrs);
}.

Inductive compile_error :=
| DoesNotParse
| NoSimpleTriggers
| BadAction (e : action_error)
| BadCondition (i : nat) (e : condition_error)
| Invalid (te : TriggerErrors).

(** One condition after the other; violations go to the condition's index. *)
Fixpoint compile_conditions (i : nat) (t : Trigger) (agg : list (option fieldErrs)) (cs : list simpleTriggerConfig)
    : result compile_error (Trigger * list (option fieldErrs)) :=
  match cs with
  | [] => Ok (t, agg)
  | c :: cs =>
      match compileSimple t c with
      | Ok t => compile_conditions (S i) t agg cs
      | Err (FieldErrors fe) =>
          compile_conditions (S i) t (agg ++ replicate (i - length agg) None ++ [Some fe]) cs
      | Err e => Err (BadCondition i e)
      end
  end.

Definition Compile (name : gostring) (d : triggerJSON) : result compile_error Trigger :=
  let? policy := or_err (tjPolicy d) DoesNotParse in
  let? simple := or_err (tjSimpleTriggers d) DoesNotParse in
  guard_err (negb (length simple =? 0)%nat) NoSimpleTriggers ;;?
  let? (action, unsupported, errs) :=
    match parseAction (tjAction d) with
    | Ok (a, u) => Ok (Some a, u, None)
    | Err (ActionFields fe) => Ok (None, [], Some fe)
    | Err e => Err (BadAction e)
    end in
  let? (t, agg) := compile_conditions 0 (MkTrigger name action unsupported policy [] [] None) [] simple in
  match errs, agg with
  | None, [] => Ok t
  | _, _ => Err (Invalid (MkTriggerErrors errs agg))
  end.

(** ** What a definition compiles to *)

(** A condition on its own: its matchers, or its violations. *)
Definition data_of (c : simpleTriggerConfig) : list dataMatcher :=
  match CompileCondition [] c with Ok s => data s | Err _ => [] end.
Definition device_of (c : simpleTriggerConfig) : list deviceMatcher :=
  match CompileCondition [] c with Ok s => device s | Err _ => [] end.
Definition violations_of (c : simpleTriggerConfig) : option fieldErrs :=
  match CompileCondition [] c with Err (FieldErrors fe) => Some fe | _ => None end.
(** A condition that is not even reported field by field. *)
Definition malformed (c : simpleTriggerConfig) : option condition_error :=
  match CompileCondition [] c with Err (FieldErrors _) => None | Err e => Some e | Ok _ => None end.

Record same_head (t t' : Trigger) : Prop := {
  head_name : tName t' = tName t;
  head_action : tAction t' = tAction t;
  head_policy_name : PolicyName t' = PolicyName t;
  head_policy : policy t' = policy t;
}.
Lemma same_head_trans t1 t2 t3 : same_head t1 t2 -> same_head t2 t3 -> same_head t1 t3.
Proof. intros [] []. split; congruence. Qed.

Lemma note_head t cond what : same_head t (noteUnsupported t cond what).
Proof. unfold noteUnsupported. by repeat case_match. Qed.
Lemma note_data t cond what : data (noteUnsupported t cond what) = data t.
Proof. unfold noteUnsupported. by repeat case_match. Qed.
Lemma note_device t cond what : device (noteUnsupported t cond what) = device t.
Proof. unfold noteUnsupported. by repeat case_match. Qed.

(** What a condition adds to a trigger does not depend on the trigger. *)
Lemma compileSimple_frame t c :
  match CompileCondition [] c with
  | Err e => compileSimple t c = Err e
  | Ok _ => exists t', compileSimple t c = Ok t' /\ same_head t t' /\
              data t' = data t ++ data_of c /\ device t' = device t ++ device_of c
  end.
Proof.
  unfold data_of, device_of, CompileCondition, compileSimple.
  repeat case_bool_decide; [| |done].
  - unfold compileData. destruct (no_field_errors (data_errors c)); simpl; [|done].
    destruct (match cKnownValue c with None => _ | Some _ => _ end); simpl; [|done]. eexists. split; [done|].
    split; [|cbn [data device append_data append_device]; by rewrite !note_data, !note_device, ?app_nil_r].
    eapply same_head_trans; [apply note_head|]. eapply same_head_trans; [apply note_head|]. by split.
  - unfold compileDevice. destruct (no_field_errors (device_errors c)); simpl; [|done]. eexists. split; [done|].
    split; [|cbn [data device append_data append_device]; by rewrite !note_data, !note_device, ?app_nil_r].
    eapply same_head_trans; [apply note_head|]. eapply same_head_trans; [apply note_head|]. by split.
Qed.

(** The violations at an index. *)
Definition at_index (agg : list (option fieldErrs)) (j : nat) : option fieldErrs := mjoin (agg !! j).

Lemma at_index_pad agg i fe j :
  length agg <= i ->
  at_index (agg ++ replicate (i - length agg) None ++ [Some fe]) j = if decide (j = i) then Some fe else at_index agg j.
Proof.
  intros Hl. unfold at_index. destruct (decide (j < length agg)) as [Hj|Hj].
  { rewrite lookup_app_l by lia. by rewrite decide_False by lia. }
  rewrite (lookup_ge_None_2 agg j) by lia. rewrite lookup_app_r by lia.
  destruct (decide (j < i)) as [Hi|Hi].
  { rewrite lookup_app_l by (rewrite length_replicate; lia). rewrite lookup_replicate_2 by lia. by rewrite decide_False by lia. }
  rewrite lookup_app_r by (rewrite length_replicate; lia). rewrite length_replicate.
  destruct (decide (j = i)) as [->|Hne]; [by replace (i - length agg - (i - length agg)) with 0 by lia|].
  by rewrite lookup_ge_None_2 by (simpl; lia).
Qed.

Lemma compile_conditions_spec cs i t agg :
  length agg <= i ->
  match compile_conditions i t agg cs with
  | Ok (t', agg') =>
      Forall (fun c => malformed c = None) cs /\ length agg' <= i + length cs /\
      (forall j, at_index agg' j = if decide (j < i) then at_index agg j else cs !! (j - i) ≫= violations_of) /\
      (agg' = [] <-> agg = [] /\ Forall (fun c => violations_of c = None) cs) /\
      same_head t t' /\
      (Forall (fun c => violations_of c = None) cs ->
         data t' = data t ++ (cs ≫= data_of) /\ device t' = device t ++ (cs ≫= device_of))
  | Err e => exists j c e', cs !! j = Some c /\ malformed c = Some e' /\ e = BadCondition (i + j) e' /\
               Forall (fun c => malformed c = None) (take j cs)
  end.
Proof.
  revert i t agg. induction cs as [|c cs IH]; intros i t agg Hl; cbn [compile_conditions].
  { split_and!; [constructor|simpl; lia| | |by split|].
    - intros j. simpl. case_decide; [done|]. unfold at_index. by rewrite lookup_ge_None_2 by lia.
    - split; [|by intros [? _]]. by split.
    - intros _. by rewrite !app_nil_r. }
  pose proof (compileSimple_frame t c) as Hc.
  destruct (CompileCondition [] c) as [s|e] eqn:Ec.
  - assert (malformed c = None) as Em by (unfold malformed; by rewrite Ec).
    assert (violations_of c = None) as Ev by (unfold violations_of; by rewrite Ec).
    destruct Hc as (t1 & -> & Hh & Hd & Hv). specialize (IH (S i) t1 agg ltac:(lia)).
    destruct (compile_conditions (S i) t1 agg cs) as [[t' agg']|e].
    + destruct IH as (H1 & H2 & H3 & H4 & H5 & H6). split_and!.
      * by constructor.
      * simpl. lia.
      * intros j. rewrite H3. destruct (decide (j < i)), (decide (j < S i)); [done|lia| |].
        -- assert (j = i) as -> by lia. rewrite Nat.sub_diag. simpl. rewrite Ev. unfold at_index. by rewrite lookup_ge_None_2 by lia.
        -- by replace (j - i) with (S (j - S i)) by lia.
      * rewrite H4, Forall_cons. naive_solver.
      * by eapply same_head_trans.
      * intros [_ Hf]%Forall_cons. destruct (H6 Hf) as [-> ->]. rewrite Hd, Hv. simpl. by rewrite <- !app_assoc.
    + destruct IH as (j & c' & e' & H1 & H2 & -> & H4). exists (S j), c', e'. split_and!; [done..|f_equal; lia|].
      simpl. by constructor.
  - rewrite Hc. destruct e as [fe|ty|].
    2,3: exists 0, c; eexists; rewrite Nat.add_0_r; split_and!; [done|unfold malformed; by rewrite Ec|done|constructor].
    assert (malformed c = None) as Em by (unfold malformed; by rewrite Ec).
    assert (violations_of c = Some fe) as Ev by (unfold violations_of; by rewrite Ec).
    specialize (IH (S i) t (agg ++ replicate (i - length agg) None ++ [Some fe])).
    destruct (compile_conditions (S i) t _ cs) as [[t' agg']|e].
    + destruct IH as (H1 & H2 & H3 & H4 & H5 & H6); [rewrite !length_app, length_replicate; simpl; lia|]. split_and!.
      * by constructor.
      * simpl. lia.
      * intros j. rewrite H3. rewrite at_index_pad by done. destruct (decide (j < i)), (decide (j < S i)); [|lia| |].
        -- by rewrite decide_False by lia.
        -- assert (j = i) as -> by lia. rewrite Nat.sub_diag, decide_True by done. simpl. by rewrite Ev.
        -- by replace (j - i) with (S (j - S i)) by lia.
      * rewrite H4. split; [|intros [_ [? _]%Forall_cons]; congruence].
        intros [Hn _]. by destruct agg, (i - length _).
      * done.
      * intros [Hx _]%Forall_cons. congruence.
    + destruct IH as (j & c' & e' & H1 & H2 & -> & H4); [rewrite !length_app, length_replicate; simpl; lia|].
      exists (S j), c', e'. split_and!; [done..|f_equal; lia|]. simpl. by constructor.
Qed.

Lemma compile_spec name d :
  match Compile name d with
  | Ok t => exists policy cs a u, tjPolicy d = Some policy /\ tjSimpleTriggers d = Some cs /\ cs <> [] /\
      parseAction (tjAction d) = Ok (a, u) /\
      Forall (fun c => malformed c = None /\ violations_of c = None) cs /\
      tName t = name /\ tAction t = Some a /\ PolicyName t = policy /\ Triggers.policy t = None /\
      data t = (cs ≫= data_of) /\ device t = (cs ≫= device_of)
  | Err (Invalid te) => exists cs, tjSimpleTriggers d = Some cs /\ Forall (fun c => malformed c = None) cs /\
      (forall i, at_index (teSimpleTriggers te) i = cs !! i ≫= violations_of) /\
      length (teSimpleTriggers te) <= length cs /\
      (forall fe, teAction te = Some fe <-> parseAction (tjAction d) = Err (ActionFields fe)) /\
      (is_Some (teAction te) \/ exists i c, cs !! i = Some c /\ is_Some (violations_of c))
  | Err (BadCondition i e) => exists cs c, tjSimpleTriggers d = Some cs /\ cs !! i = Some c /\ malformed c = Some e
  | Err (BadAction e) => parseAction (tjAction d) = Err e
  | Err NoSimpleTriggers => tjSimpleTriggers d = Some []
  | Err DoesNotParse => tjPolicy d = None \/ tjSimpleTriggers d = None
  end.
Proof.
  unfold Compile. destruct (tjPolicy d) as [policy|]; simpl; [|by left].
  destruct (tjSimpleTriggers d) as [cs|]; simpl; [|by right]. destruct (Nat.eqb_spec (length cs) 0) as [Hl|Hl]; simpl.
  { by apply nil_length_inv in Hl as ->. }
  assert (cs <> []) as Hne by by intros ->.
  destruct (parseAction (tjAction d)) as [[a u]|e] eqn:Ea; simpl.
  - pose proof (compile_conditions_spec cs 0 (MkTrigger name (Some a) u policy [] [] None) [] (le_n 0)) as Hc.
    destruct (compile_conditions _ _ _ cs) as [[t agg]|e]; simpl.
    + destruct Hc as (H1 & H2 & H3 & H4 & [] & H6). destruct agg as [|x agg].
      * destruct (proj1 H4 eq_refl) as [_ Hv]. destruct (H6 Hv). exists policy, cs, a, u. split_and!; try done.
        by apply Forall_and.
      * exists cs. split_and!; [done..| |done| |].
        -- intros i. cbn [teSimpleTriggers]. rewrite H3. simpl. by rewrite Nat.sub_0_r.
        -- done.
        -- right. destruct (decide (Forall (fun c => violations_of c = None) cs)) as [Hf|Hf];
             [by pose proof (proj2 H4 (conj eq_refl Hf))|].
           apply not_Forall_Exists, Exists_exists in Hf as (c & [i Hi]%list_elem_of_lookup & Hv); [|intros c; apply _].
           exists i, c. split; [done|]. simpl in Hv. destruct (violations_of c); [done|by destruct Hv].
    + by destruct Hc as (j & c & e' & H1 & H2 & -> & _); exists cs, c.
  - destruct e as [fe| | |]; [|done..].
    pose proof (compile_conditions_spec cs 0 (MkTrigger name None [] policy [] [] None) [] (le_n 0)) as Hc. simpl.
    destruct (compile_conditions _ _ _ cs) as [[t agg]|e]; simpl.
    + destruct Hc as (H1 & H2 & H3 & H4 & H5 & H6). exists cs. split_and!; [done..| |done| |by left].
      * intros i. cbn [teSimpleTriggers]. rewrite H3. simpl. by rewrite Nat.sub_0_r.
      * intros fe'. cbn. naive_solver.
    + by destruct Hc as (j & c & e' & H1 & H2 & -> & _); exists cs, c.
Qed.

Lemma compile_policy_name name d t : Compile name d = Ok t -> tjPolicy d = Some (PolicyName t).
Proof.
  intros Hc. pose proof (compile_spec name d) as Hs. rewrite Hc in Hs.
  destruct Hs as (p & _ & _ & _ & Hp & _ & _ & _ & _ & _ & _ & <- & _). done.
Qed.

(** A definition compiles exactly when it decodes, declares conditions, and
    neither its action nor any condition violates a rule; the trigger then
    carries the action, the policy name and the matchers of its conditions in
    order. A rejection field by field reports every violation of the
    definition at once, the action's and each condition's at the condition's
    own index. *)
Theorem definition_compiles_exact name d :
  match Compile name d with
  | Ok t => exists policy cs a u, tjPolicy d = Some policy /\ tjSimpleTriggers d = Some cs /\ cs <> [] /\
      parseAction (tjAction d) = Ok (a, u) /\
      Forall (fun c => malformed c = None /\ violations_of c = None) cs /\
      tName t = name /\ tAction t = Some a /\ PolicyName t = policy /\ Triggers.policy t = None /\
      data t = (cs ≫= data_of) /\ device t = (cs ≫= device_of)
  | Err (Invalid te) => exists cs, tjSimpleTriggers d = Some cs /\ Forall (fun c => malformed c = None) cs /\
      (forall i, at_index (teSimpleTriggers te) i = cs !! i ≫= violations_of) /\
      length (teSimpleTriggers te) <= length cs /\
      (forall fe, teAction te = Some fe <-> parseAction (tjAction d) = Err (ActionFields fe)) /\
      (is_Some (teAction te) \/ exists i c, cs !! i = Some c /\ is_Some (violations_of c))
  | Err (BadCondition i e) => exists cs c, tjSimpleTriggers d = Some cs /\ cs !! i = Some c /\ malformed c = Some e
  | Err (BadAction e) => parseAction (tjAction d) = Err e
  | Err NoSimpleTriggers => tjSimpleTriggers d = Some []
  | Err DoesNotParse => tjPolicy d = None \/ tjSimpleTriggers d = None
  end.
Proof. exact (compile_spec name d). Qed.

(** ** What an accepted action may do *)

Lemma url_field_empty field raw fe :
  validateURLField field raw fe = ∅ <->
  8 <= RuneCountInString raw /\ (Z.of_nat (RuneCountInString raw) <= 8192)%Z /\ isHTTPURL raw = true /\ fe = ∅.
Proof.
  unfold validateURLField. rewrite add_if_empty, negb_false_iff. unfold minURLRunes, maxURLRunes.
  destruct (Nat.ltb_spec (RuneCountInString raw) 8).
  - split; [by intros [_ ?%add_nonempty]|lia].
  - rewrite add_if_empty, Z.ltb_ge. naive_solver.
Qed.

Lemma headers_empty headers fe :
  validateStaticHeaders headers fe = ∅ <->
  (forall name v, headers !! name = Some v -> blocked_header name = false) /\ (headers_size headers < 8192)%Z /\ fe = ∅.
Proof.
  unfold validateStaticHeaders. rewrite !add_if_empty, Z.leb_gt. unfold maxHeadersBytes.
  assert (existsb (fun x => blocked_header x.1) (map_to_list headers) = false <->
    forall name v, headers !! name = Some v -> blocked_header name = false) as ->; [|tauto].
  rewrite <- not_true_iff_false, existsb_exists. split.
  - intros Hn name v Hl. destruct (blocked_header name) eqn:E; [|done]. destruct Hn. exists (name, v).
    split; [by apply list_elem_of_In, elem_of_map_to_list|done].
  - intros Hf ([name v] & Hin & Hb). apply list_elem_of_In, elem_of_map_to_list, Hf in Hin. simpl in Hb. congruence.
Qed.

(** An accepted action that is not handed to the forwarder sends to an http or
    https URL with a host, of 8 to 8192 characters, with one of the seven
    methods, and its own headers contain none of the blocked names in any
    letter case or padding and stay under the size limit. *)
Theorem accepted_action_safe raw a u :
  parseAction raw = Ok (a, u) -> Custom a = None ->
  isHTTPURL (URL a) = true /\ 8 <= RuneCountInString (URL a) /\ (Z.of_nat (RuneCountInString (URL a)) <= 8192)%Z /\
  Method a ∈ map (map upper) httpMethods /\
  (forall name v, StaticHeaders a !! name = Some v -> blocked_header name = false) /\
  (headers_size (StaticHeaders a) < 8192)%Z.
Proof.
  unfold parseAction. intros Hp Hc. inv_ok Hp.
  match type of Hp with (if ?b then _ else _) = _ => destruct b eqn:El end.
  - inv_ok Hp. simplify_eq. unfold no_action_errors in Hok1. case_decide as He; [|done]. unfold legacy_errors, validateTemplate in He.
    rewrite add_if_empty, url_field_empty, !add_if_empty in He.
    destruct He as (_ & H1 & H2 & H3 & H4%negb_false_iff%bool_decide_eq_true & _). simpl. rewrite H4. split_and!; [done..| | |].
    + by repeat constructor.
    + intros name v Hl. by rewrite lookup_empty in Hl.
    + unfold headers_size. by rewrite map_fold_empty.
  - match type of Hp with (if ?b then _ else _) = _ => destruct b eqn:Em end.
    + inv_ok Hp. simplify_eq. unfold no_action_errors in Hok1. case_decide as He; [|done]. unfold modern_errors, validateTemplate in He.
      rewrite add_if_empty, headers_empty, url_field_empty, add_if_empty in He.
      destruct He as (_ & H1 & H2 & H3 & H4 & H5 & _ & He). cbn [URL Method StaticHeaders http_action]. split_and!; [done..| |done|done].
      case_match; [by apply add_nonempty in He|]. apply add_if_empty in He as [He%negb_false_iff%bool_decide_eq_true _].
      apply list_elem_of_In, in_map. by apply list_elem_of_In.
    + repeat case_match; by simplify_eq.
Qed.

End Compile.

(** ** A sample *)

#[export] Instance sample_text : Text := {|
  url_parse s := match Strings.CutPrefix s "http://"%go with Some host => Some ("http"%go, host) | None => None end;
  Quote s := s;
|}.

Definition sample_http : actionJSON :=
  MkActionJSON "{}"%go (Some (MkHTTPAction "http://hooks"%go "post"%go [] {["X-Key"%go := "1"%go]} false [] [])) None.

Lemma accepted_action_safe_witness :
  match parseAction (Some sample_http) with Ok (a, _) => Method a = "POST"%go | Err _ => False end /\
  blocked_header " HOST "%go = true /\ blocked_header "X-Key"%go = false.
Proof.
  destruct (parseAction (Some sample_http)) as [[a u]|] eqn:E; [|vm_compute in E; discriminate E].
  split; [vm_compute in E; injection E as <- _; reflexivity|]. split; [vm_compute; reflexivity|].
  assert (Custom a = None /\ StaticHeaders a !! "X-Key"%go = Some "1"%go) as [Hc Hl].
  { split; vm_compute in E; injection E as <- _; reflexivity. }
  exact (proj1 (proj2 (proj2 (proj2 (proj2 (accepted_action_safe _ a u E Hc))))) _ _ Hl).
Defined.

End TriggerDefs.
