(* ===== verification/Channels.v ===== *)
(** * Channels: rooms and sessions of the live socket

    [internal/appengine/channels]: the five-element frames ([protocol.go]),
    rooms that turn bus events into trigger envelopes for their members
    ([room.go]), and the sessions that join rooms and install watches
    ([ws.go]). The system is a state machine whose steps are the critical
    sections of the code; sending on a closed mailbox or closing it twice
    panics in Go: [Panic]. Decoding payloads is an interface. *)

From S2P Require Import Prelude GoStrings SchemaTypes Float64 PayloadValue PayloadJson Rows Triggers Events Auth.

Module Channels.
Import Payload Json Rows Events Auth.

(** ** Frames *)

Definition EventPhxJoin : gostring := "phx_join"%go.
Definition EventPhxReply : gostring := "phx_reply"%go.
Definition EventPhxLeave : gostring := "phx_leave"%go.
Definition EventHeartbeat : gostring := "heartbeat"%go.
Definition TopicHeartbeat : gostring := "phoenix"%go.
Definition EventWatch : gostring := "watch"%go.
Definition EventUnwatch : gostring := "unwatch"%go.
Definition EventNewEvent : gostring := "new_event"%go.

(** An empty payload is [None]. *)
Record Frame := MkFrame {
  JoinRef : option gostring; Ref : option gostring; Topic : gostring; Event_ : gostring; Payload : option jtoken }.

Definition null_string (s : option gostring) : jtoken := match s with Some s => JStr s | None => JNull end.

Definition MarshalJSON (f : Frame) : jtoken :=
  JArr [null_string (JoinRef f); null_string (Ref f); JStr (Topic f); JStr (Event_ f); default (JObj ∅) (Payload f)].

Inductive frame_error := NotAnArray | NotFive (n : nat) | BadJoinRef | BadRef | BadTopic | BadEvent.

Definition unmarshalNullString (t : jtoken) : option (option gostring) :=
  match t with JNull => Some None | JStr s => Some (Some s) | _ => None end.
(** [json.Unmarshal] into a string: null leaves it as it was, empty. *)
Definition plain_string (t : jtoken) : option gostring :=
  match t with JStr s => Some s | JNull => Some [] | _ => None end.

Definition UnmarshalJSON (t : jtoken) : result frame_error Frame :=
  match t with
  | JArr [a; b; c; d; e] =>
      let? jr := or_err (unmarshalNullString a) BadJoinRef in
      let? rr := or_err (unmarshalNullString b) BadRef in
      let? topic := or_err (plain_string c) BadTopic in
      let? event := or_err (plain_string d) BadEvent in
      Ok (MkFrame jr rr topic event (Some e))
  | JArr l => Err (NotFive (length l))
  | JNull => Err (NotFive 0)
  | _ => Err NotAnArray
  end.

Definition Reply (in_ : Frame) (status : gostring) (response : option jtoken) : Frame :=
  MkFrame (JoinRef in_) (Ref in_) (Topic in_) EventPhxReply
    (Some (JObj {["status"%go := JStr status; "response"%go := default (JObj ∅) response]})).
Definition OK (in_ : Frame) : Frame := Reply in_ "ok"%go None.
Definition Err_ (in_ : Frame) (reason : gostring) : Frame :=
  Reply in_ "error"%go (Some (JObj {["reason"%go := JStr reason]})).

(** ** Watches *)

(** The trigger of a request is raw JSON; [None] is an absent member. *)
Record WatchRequest := MkWatch {
  qName : gostring; qDeviceID : gostring; qGroupName : gostring; qTrigger : option jtoken }.
Record triggerShape := MkShape {
  tsType : gostring; tsInterface : gostring; tsMatchPath : gostring; tsGroupName : gostring; tsDeviceID : gostring }.

(** [encoding/json] into the structures of the package. *)
Class ChannelJSON := {
  decode_watch : jtoken -> option WatchRequest;
  decode_name : jtoken -> gostring;
  decode_shape : jtoken -> option triggerShape;
  decode_condition : jtoken -> option Triggers.simpleTriggerConfig;
  encode_event : SimpleEvent -> option jtoken }.

Inductive watch_error := BadTrigger | UnauthorizedTrigger | NestedGroupName | NoTriggerTarget | GroupDeviceNotWildcard.

Record watchEntry := MkEntry { wName : gostring; wDeviceID : gostring; wTrigger : Triggers.Trigger }.

Section Watches.
Context `{ChannelJSON}.

Definition blank (s : gostring) : bool := bool_decide (s = []).

Definition watchAuthPath (req : WatchRequest) : result watch_error gostring :=
  match qTrigger req ≫= decode_shape with
  | None => Err BadTrigger
  | Some ts =>
      let data := bool_decide (tsType ts = "data_trigger"%go) in
      if blank (qGroupName req) && negb (blank (tsGroupName ts)) then Err NestedGroupName
      else if negb (blank (qGroupName req)) then
        if bool_decide (tsType ts = "device_trigger"%go) && negb (blank (tsDeviceID ts))
           && negb (bool_decide (tsDeviceID ts = "*"%go)) then Err GroupDeviceNotWildcard
        else if data then Ok ("groups/"%go ++ qGroupName req ++ "/"%go ++ tsInterface ts ++ tsMatchPath ts)
        else Ok ("groups/"%go ++ qGroupName req)
      else if data then
        if blank (qDeviceID req) then Err NoTriggerTarget
        else Ok (qDeviceID req ++ "/"%go ++ tsInterface ts ++ tsMatchPath ts)
      else if blank (tsDeviceID ts) || negb (bool_decide (tsDeviceID ts = qDeviceID req)) then Err UnauthorizedTrigger
      else Ok (tsDeviceID ts)
  end.

(** [Room.Watch] up to the entry it stores. *)
Definition watch_entry (req : WatchRequest) : option watchEntry :=
  if blank (qName req) then None
  else
    t ← qTrigger req;
    c ← decode_condition t;
    match Triggers.CompileCondition (qName req) c with
    | Ok tg => Some (MkEntry (qName req) (qDeviceID req) tg)
    | Err _ => None
    end.

End Watches.

(** ** Dispatch *)

(** The value of a bus event, as the matchers see it: a [json.Number], a slice
    or a map of [any] is of no type their switches name. *)
Definition bus_value (v : jany) : option Value :=
  match v with
  | AnyNil => None
  | AnyFloat f => Some (VScalar (SDouble f))
  | AnyInt i => Some (VScalar (SInteger i))
  | AnyBool b => Some (VScalar (SBool b))
  | AnyString s => Some (VScalar (SString s))
  | AnyNumber _ | AnySlice _ | AnyMap _ => Some (VObject ∅)
  end.

Definition device_kind (kind : gostring) : bool :=
  bool_decide (kind ∈ [Triggers.OnDeviceConnected; Triggers.OnDeviceDisconnected; Triggers.OnDeviceError]).

(** Whether a watch wants an event. *)
Definition watch_matches (w : watchEntry) (ev : Event) : bool :=
  if negb (blank (wDeviceID w)) && negb (bool_decide (wDeviceID w = bDeviceID ev)) then false
  else if bool_decide (bKind ev = Triggers.OnIncomingData) then
    Triggers.MatchesData (wTrigger w)
      (Triggers.MkDataEvent (bDeviceID ev) Triggers.OnIncomingData (bInterface ev) (bInterfaceMajor ev) (bPath ev)
         (bus_value (bValue ev)))
  else if device_kind (bKind ev) then
    Triggers.MatchesDevice (wTrigger w) (Triggers.MkDeviceEvent (bDeviceID ev) (bKind ev) [] 0)
  else false.

Definition event_body_of (ev : Event) : event_body :=
  if bool_decide (bKind ev = Triggers.OnIncomingData) then IncomingDataEvent (bInterface ev) (bPath ev) (bValue ev)
  else if bool_decide (bKind ev = Triggers.OnDeviceConnected) then DeviceConnectedEvent (bIP ev)
  else if bool_decide (bKind ev = Triggers.OnDeviceDisconnected) then DeviceDisconnectedEvent
  else NewDeviceErrorEvent (bErrorName ev) (bErrorMetadata ev).

Definition envelope (w : watchEntry) (ev : Event) : SimpleEvent :=
  MkEvent (bTimestamp ev) (bDeviceID ev) (wName w) (event_body_of ev).

Definition DefaultMailbox : nat := 64.

Record Member := MkMember {
  mRoom : nat; mCap : nat; mailbox : list SimpleEvent; mOpen : bool; mDropped : nat }.

(** The [select] that sends without blocking. *)
Definition offer (e : SimpleEvent) (m : Member) : Member :=
  if (length (mailbox m) <? mCap m)%nat then MkMember (mRoom m) (mCap m) (mailbox m ++ [e]) (mOpen m) (mDropped m)
  else MkMember (mRoom m) (mCap m) (mailbox m) (mOpen m) (S (mDropped m)).

Definition close_mailbox (m : Member) : Member := MkMember (mRoom m) (mCap m) (mailbox m) false (mDropped m).

(** A room: its watches and members, the bus channel it reads, the event and
    watches being fanned out, and whether it was retired and its loop ended. *)
Record Room := MkRoom {
  rTopic : gostring; rRealm : gostring; watches : gmap gostring watchEntry; members : gset nat;
  rEvents : list Event; rOpen : bool; inflight : option (Event * list watchEntry); retired : bool; over : bool }.

Definition set_watches (r : Room) (w : gmap gostring watchEntry) : Room :=
  MkRoom (rTopic r) (rRealm r) w (members r) (rEvents r) (rOpen r) (inflight r) (retired r) (over r).
Definition set_members (r : Room) (m : gset nat) : Room :=
  MkRoom (rTopic r) (rRealm r) (watches r) m (rEvents r) (rOpen r) (inflight r) (retired r) (over r).
Definition set_events (r : Room) (evs : list Event) (fl : option (Event * list watchEntry)) : Room :=
  MkRoom (rTopic r) (rRealm r) (watches r) (members r) evs (rOpen r) fl (retired r) (over r).
Definition set_retired (r : Room) : Room :=
  MkRoom (rTopic r) (rRealm r) (watches r) (members r) (rEvents r) (rOpen r) (inflight r) true (over r).
Definition set_closed (r : Room) : Room :=
  MkRoom (rTopic r) (rRealm r) (watches r) (members r) (rEvents r) false (inflight r) (retired r) (over r).
Definition set_over (r : Room) : Room :=
  MkRoom (rTopic r) (rRealm r) (watches r) ∅ (rEvents r) (rOpen r) (inflight r) (retired r) true.

(** ** Sessions *)

Section Sessions.
Context `{Regexp, ChannelJSON}.

(** [joined]: the room, the member and the join reference. *)
Record joined := MkJoined { jRoom : nat; jMember : nat; joinRef : option gostring }.

(** A session; [sJoining] is a join that has found its room, and [sPumps] are
    the goroutines that forward mailboxes. *)
Record session := MkSession {
  sRealm : gostring; sTok : Token; sRooms : gmap gostring joined; sJoining : option (Frame * nat);
  sPumps : list (gostring * nat); sOut : list Frame }.

Definition say (s : session) (f : Frame) : session :=
  MkSession (sRealm s) (sTok s) (sRooms s) (sJoining s) (sPumps s) (sOut s ++ [f]).
Definition set_rooms (s : session) (rs : gmap gostring joined) (jn : option (Frame * nat)) : session :=
  MkSession (sRealm s) (sTok s) rs jn (sPumps s) (sOut s).

(** The registry with all rooms and members there ever were, the sessions, and
    the watches that were installed: room, entry, request, realm and token. *)
Record world := MkWorld {
  topics : gmap gostring nat; rooms : list Room; mems : list Member; sessions : list session;
  installed : list (nat * watchEntry * WatchRequest * gostring * Token) }.

Inductive outcome := Next (w : world) | Disabled | Panic.

Definition with_session (w : world) (sid : nat) (s : session) : world :=
  MkWorld (topics w) (rooms w) (mems w) (<[sid := s]> (sessions w)) (installed w).
Definition with_room (w : world) (i : nat) (r : Room) : world :=
  MkWorld (topics w) (<[i := r]> (rooms w)) (mems w) (sessions w) (installed w).

(** [Registry.Join]: the room of a topic, made and subscribed on first use. *)
Definition Join (w : world) (realm topic : gostring) : world * nat :=
  match topics w !! topic with
  | Some i => (w, i)
  | None =>
      let i := length (rooms w) in
      (MkWorld (<[topic := i]> (topics w)) (rooms w ++ [MkRoom topic realm ∅ ∅ [] true None false false]) (mems w)
         (sessions w) (installed w), i)
  end.

Definition AddMember (w : world) (i : nat) (buffer : nat) : option (world * nat) :=
  r ← rooms w !! i;
  let m := length (mems w) in
  Some (MkWorld (topics w) (<[i := set_members r ({[m]} ∪ members r)]> (rooms w))
          (mems w ++ [MkMember i (if (buffer =? 0)%nat then DefaultMailbox else buffer) [] true 0]) (sessions w) (installed w), m).

(** [retire], once: the subscription is released and the topic unregistered. *)
Definition retire (w : world) (i : nat) : world :=
  match rooms w !! i with
  | Some r =>
      if retired r then w
      else MkWorld (delete (rTopic r) (topics w)) (<[i := set_retired r]> (rooms w)) (mems w) (sessions w) (installed w)
  | None => w
  end.

(** [Member.Leave] *)
Definition Leave (w : world) (m : nat) : outcome :=
  match mems w !! m with
  | None => Disabled
  | Some mem =>
      match rooms w !! mRoom mem with
      | None => Disabled
      | Some r =>
          if decide (m ∈ members r) then
            if mOpen mem then
              let r := set_members r (members r ∖ {[m]}) in
              let w := with_room w (mRoom mem) r in
              let w := if decide (members r = ∅) then retire w (mRoom mem) else w in
              Next (MkWorld (topics w) (rooms w) (<[m := close_mailbox mem]> (mems w)) (sessions w) (installed w))
            else Panic
          else Next w
      end
  end.

Definition handleJoin (w : world) (sid : nat) (s : session) (f : Frame) : outcome :=
  match Strings.CutPrefix (Topic f) ("rooms:"%go ++ sRealm s ++ ":"%go) with
  | None | Some [] => Next (with_session w sid (say s (Err_ f "unauthorized"%go)))
  | Some name =>
      if negb (AuthorizesChannel (sTok s) VerbJoin name) then Next (with_session w sid (say s (Err_ f "unauthorized"%go)))
      else
        match sRooms s !! Topic f with
        | Some j =>
            Next (with_session w sid
              (say (set_rooms s (<[Topic f := MkJoined (jRoom j) (jMember j) (Ref f)]> (sRooms s)) (sJoining s)) (OK f)))
        | None =>
            let '(w, i) := Join w (sRealm s) (Topic f) in
            Next (with_session w sid (set_rooms s (sRooms s) (Some (f, i))))
        end
  end.

(** The second half of a join, after [Registry.Join] returned. *)
Definition finishJoin (w : world) (sid : nat) (s : session) (f : Frame) (i : nat) : outcome :=
  match AddMember w i 0 with
  | None => Disabled
  | Some (w, m) =>
      Next (with_session w sid
        (say (MkSession (sRealm s) (sTok s) (<[Topic f := MkJoined i m (Ref f)]> (sRooms s)) None
                (sPumps s ++ [(Topic f, m)]) (sOut s)) (OK f)))
  end.

Definition handleLeave (w : world) (sid : nat) (s : session) (f : Frame) : outcome :=
  match sRooms s !! Topic f with
  | None => Next (with_session w sid (say s (Err_ f "unmatched topic"%go)))
  | Some j =>
      match Leave w (jMember j) with
      | Next w => Next (with_session w sid (say (set_rooms s (delete (Topic f) (sRooms s)) (sJoining s)) (OK f)))
      | o => o
      end
  end.

(** The reply for a watch without a proper target. *)
Definition upstreamChangesetReply : jtoken :=
  JObj {["errors"%go := JObj {["group_name"%go := JArr [JStr "must be present if device_id is not set"%go];
                                "device_id"%go := JArr [JStr "must be present if group_name is not set"%go]]}]}.

Definition watch_error_reply (f : Frame) (e : watch_error) : Frame :=
  match e with
  | UnauthorizedTrigger => Err_ f "unauthorized"%go
  | GroupDeviceNotWildcard => Err_ f "device_id must be * for group triggers"%go
  | NestedGroupName | NoTriggerTarget => Reply f "error"%go (Some upstreamChangesetReply)
  | BadTrigger => Err_ f "invalid simple_trigger"%go
  end.

Definition handleWatch (w : world) (sid : nat) (s : session) (f : Frame) : outcome :=
  match sRooms s !! Topic f with
  | None => Next (with_session w sid (say s (Err_ f "unmatched topic"%go)))
  | Some j =>
      match Payload f ≫= decode_watch with
      | None => Next (with_session w sid (say s (Err_ f "invalid payload"%go)))
      | Some req =>
          match watchAuthPath req with
          | Err e => Next (with_session w sid (say s (watch_error_reply f e)))
          | Ok path =>
              if negb (AuthorizesChannel (sTok s) VerbWatch path) then
                Next (with_session w sid (say s (Err_ f "unauthorized"%go)))
              else
                match watch_entry req, rooms w !! jRoom j with
                | Some e, Some r =>
                    Next (MkWorld (topics w) (<[jRoom j := set_watches r (<[qName req := e]> (watches r))]> (rooms w)) (mems w)
                            (<[sid := say s (OK f)]> (sessions w)) (installed w ++ [(jRoom j, e, req, sRealm s, sTok s)]))
                | None, _ => Next (with_session w sid (say s (Err_ f "invalid trigger"%go)))
                | _, None => Disabled
                end
          end
      end
  end.

Definition handleUnwatch (w : world) (sid : nat) (s : session) (f : Frame) : outcome :=
  match sRooms s !! Topic f with
  | None => Next (with_session w sid (say s (Err_ f "unmatched topic"%go)))
  | Some j =>
      match rooms w !! jRoom j with
      | None => Disabled
      | Some r =>
          let name := match Payload f with Some p => decode_name p | None => [] end in
          Next (with_session (with_room w (jRoom j) (set_watches r (delete name (watches r)))) sid (say s (OK f)))
      end
  end.

(** The dispatch of [loop]. *)
Definition handleFrame (w : world) (sid : nat) (s : session) (f : Frame) : outcome :=
  if bool_decide (Topic f = TopicHeartbeat) && bool_decide (Event_ f = EventHeartbeat) then Next (with_session w sid (say s (OK f)))
  else if bool_decide (Event_ f = EventPhxJoin) then handleJoin w sid s f
  else if bool_decide (Event_ f = EventPhxLeave) then handleLeave w sid s f
  else if bool_decide (Event_ f = EventWatch) then handleWatch w sid s f
  else if bool_decide (Event_ f = EventUnwatch) then handleUnwatch w sid s f
  else match Ref f with Some _ => Next (with_session w sid (say s (Err_ f "unmatched topic"%go))) | None => Next w end.

(** [teardown] leaves the rooms one by one. *)
Fixpoint leave_all (w : world) (ms : list nat) : outcome :=
  match ms with
  | [] => Next w
  | m :: ms => match Leave w m with Next w => leave_all w ms | o => o end
  end.

Definition teardown (w : world) (sid : nat) (s : session) : outcome :=
  match leave_all w (map (fun x => jMember x.2) (map_to_list (sRooms s))) with
  | Next w => Next (with_session w sid (set_rooms s ∅ (sJoining s)))
  | o => o
  end.

(** ** The rooms at work *)

(** The sends of one event for one watch. *)
Definition fan_watch (ev : Event) (ms : gset nat) (mems : list Member) (w : watchEntry) : list Member :=
  if watch_matches w ev then imap (fun i m => if decide (i ∈ ms) then offer (envelope w ev) m else m) mems else mems.

(** All members a fan-out sends to have an open mailbox. *)
Definition all_open (ms : gset nat) (mems : list Member) : bool :=
  forallb (fun i => match mems !! i with Some m => mOpen m | None => false end) (elements ms).

Inductive label :=
| Connect (realm : gostring) (tok : Token)
| Receive (sid : nat) (f : Frame)
| FinishJoin (sid : nat)
| Teardown (sid : nat)
| Pump (sid : nat) (i : nat)
| BusSend (i : nat) (ev : Event)
| BusClose (i : nat)
| Take (i : nat) (order : list gostring)
| Fan (i : nat)
| End_ (i : nat).

(** One round of [pumpEvents]; the goroutine returns when the topic was left. *)
Definition pump (w : world) (sid : nat) (s : session) (i : nat) (topic : gostring) (m : nat) : outcome :=
  match mems w !! m with
  | Some mem =>
      match mailbox mem with
      | e :: rest =>
          let w := MkWorld (topics w) (rooms w) (<[m := MkMember (mRoom mem) (mCap mem) rest (mOpen mem) (mDropped mem)]> (mems w))
                     (sessions w) (installed w) in
          match sRooms s !! topic with
          | Some j =>
              match encode_event e with
              | Some b => Next (with_session w sid (say s (MkFrame (joinRef j) None topic EventNewEvent (Some b))))
              | None => Next w
              end
          | None =>
              Next (with_session w sid (MkSession (sRealm s) (sTok s) (sRooms s) (sJoining s) (delete i (sPumps s)) (sOut s)))
          end
      | [] => Disabled
      end
  | None => Disabled
  end.

Definition step (w : world) (l : label) : outcome :=
  match l with
  | Connect realm tok =>
      Next (MkWorld (topics w) (rooms w) (mems w) (sessions w ++ [MkSession realm tok ∅ None [] []]) (installed w))
  | Receive sid f =>
      match sessions w !! sid with
      | Some s => match sJoining s with None => handleFrame w sid s f | Some _ => Disabled end
      | None => Disabled
      end
  | FinishJoin sid =>
      match sessions w !! sid with
      | Some s => match sJoining s with Some (f, i) => finishJoin w sid s f i | None => Disabled end
      | None => Disabled
      end
  | Teardown sid =>
      match sessions w !! sid with
      | Some s => match sJoining s with None => teardown w sid s | Some _ => Disabled end
      | None => Disabled
      end
  | Pump sid i =>
      match sessions w !! sid with
      | Some s => match sPumps s !! i with Some (topic, m) => pump w sid s i topic m | None => Disabled end
      | None => Disabled
      end
  | BusSend i ev =>
      match rooms w !! i with
      | Some r =>
          if rOpen r && negb (retired r) && bool_decide (bRealm ev = rRealm r)
          then Next (with_room w i (set_events r (rEvents r ++ [ev]) (inflight r))) else Disabled
      | None => Disabled
      end
  | BusClose i =>
      match rooms w !! i with Some r => Next (with_room w i (set_closed r)) | None => Disabled end
  | Take i order =>
      match rooms w !! i with
      | Some r =>
          match rEvents r, inflight r with
          | ev :: rest, None =>
              if bool_decide (NoDup order) && bool_decide (list_to_set order =@{gset gostring} dom (watches r)) then
                Next (with_room w i (set_events r rest (Some (ev, omap (fun n => watches r !! n) order))))
              else Disabled
          | _, _ => Disabled
          end
      | None => Disabled
      end
  | Fan i =>
      match rooms w !! i with
      | Some r =>
          match inflight r with
          | Some (ev, ws) =>
              if all_open (members r) (mems w) then
                Next (MkWorld (topics w) (<[i := set_events r (rEvents r) None]> (rooms w))
                        (foldl (fan_watch ev (members r)) (mems w) ws) (sessions w) (installed w))
              else Panic
          | None => Disabled
          end
      | None => Disabled
      end
  | End_ i =>
      match rooms w !! i with
      | Some r =>
          match rEvents r, inflight r with
          | [], None =>
              if rOpen r || over r then Disabled
              else if all_open (members r) (mems w) then
                let w' := MkWorld (topics w) (<[i := set_over r]> (rooms w))
                            (imap (fun k m => if decide (k ∈ members r) then close_mailbox m else m) (mems w)) (sessions w) (installed w) in
                Next (retire w' i)
              else Panic
          | _, _ => Disabled
          end
      | None => Disabled
      end
  end.

Definition init : world := MkWorld ∅ [] [] [] [].

(** Realm names have no colon: the schema admits lower-case letters and
    digits. *)
Definition label_ok (l : label) : Prop :=
  match l with Connect realm _ => ":"%char ∉ realm | _ => True end.

Inductive reachable : world -> Prop :=
| reach_init : reachable init
| reach_step w l w' : reachable w -> label_ok l -> step w l = Next w' -> reachable w'.

(** ** Provenance *)

(** A topic of a realm, and the room name in it. *)
Definition topic_of (realm name : gostring) : gostring := "rooms:"%go ++ realm ++ ":"%go ++ name.

Lemma topic_of_inj r1 n1 r2 n2 : ":"%char ∉ r1 -> ":"%char ∉ r2 -> topic_of r1 n1 = topic_of r2 n2 -> r1 = r2.
Proof.
  intros H1 H2 E. unfold topic_of in E. apply app_inv_head in E. change (r1 ++ ":"%go ++ n1) with (r1 ++ ":"%char :: n1) in E.
  change (r2 ++ ":"%go ++ n2) with (r2 ++ ":"%char :: n2) in E.
  apply (f_equal (fun x => Strings.Cut x ":")) in E. rewrite !Strings.Cut_app in E by done. by injection E.
Qed.

(** What never changes of a room and a member. *)
Definition is_room (w : world) (i : nat) (topic realm : gostring) : Prop :=
  exists r, rooms w !! i = Some r /\ rTopic r = topic /\ rRealm r = realm.
Definition is_member (w : world) (m i : nat) : Prop := exists mem, mems w !! m = Some mem /\ mRoom mem = i.

Definition extends (w w' : world) : Prop :=
  (forall i t rl, is_room w i t rl -> is_room w' i t rl) /\
  (forall m i, is_member w m i -> is_member w' m i) /\ installed w ⊆ installed w'.

#[export] Instance extends_preorder : PreOrder extends.
Proof.
  split; [by repeat split|]. intros w1 w2 w3 (A1 & A2 & A3) (B1 & B2 & B3). split_and!; [auto|auto|by transitivity (installed w2)].
Qed.

(** A watch that was installed by an authorized request. *)
Definition authorized_watch (w : world) (i : nat) (e : watchEntry) : Prop :=
  exists req realm tok topic path, (i, e, req, realm, tok) ∈ installed w /\ is_room w i topic realm /\
    watch_entry req = Some e /\ watchAuthPath req = Ok path /\ AuthorizesChannel tok VerbWatch path = true.

Definition room_src (w : world) (i : nat) (r : Room) : Prop :=
  (exists name, rTopic r = topic_of (rRealm r) name /\ ":"%char ∉ rRealm r) /\
  Forall (fun ev => bRealm ev = rRealm r) (rEvents r) /\
  (forall n e, watches r !! n = Some e -> authorized_watch w i e) /\
  (forall ev ws, inflight r = Some (ev, ws) -> bRealm ev = rRealm r /\ Forall (authorized_watch w i) ws).

Definition envelope_src (w : world) (i : nat) (e : SimpleEvent) : Prop :=
  exists we ev topic realm, e = envelope we ev /\ watch_matches we ev = true /\ authorized_watch w i we /\
    is_room w i topic realm /\ bRealm ev = realm.

Definition mem_src (w : world) (mem : Member) : Prop :=
  Forall (envelope_src w (mRoom mem)) (mailbox mem) /\ length (mailbox mem) <= mCap mem.

(** A join of a session: its topic is of the session's realm, authorized, and
    that of the room. *)
Definition join_src (w : world) (s : session) (topic : gostring) (i : nat) : Prop :=
  is_room w i topic (sRealm s) /\
  exists name, topic = topic_of (sRealm s) name /\ AuthorizesChannel (sTok s) VerbJoin name = true.

Definition session_src (w : world) (s : session) : Prop :=
  ":"%char ∉ sRealm s /\
  (forall topic j, sRooms s !! topic = Some j -> join_src w s topic (jRoom j) /\ is_member w (jMember j) (jRoom j)) /\
  (forall f i, sJoining s = Some (f, i) -> join_src w s (Topic f) i).

Lemma authorized_watch_ext w w' i e : extends w w' -> authorized_watch w i e -> authorized_watch w' i e.
Proof.
  intros (A1 & A2 & A3) (req & realm & tok & topic & path & Hin & Hr & ?). exists req, realm, tok, topic, path.
  split; [by apply A3|]. split; [by apply A1|done].
Qed.
Lemma room_src_ext w w' i r : extends w w' -> room_src w i r -> room_src w' i r.
Proof.
  intros He (Hn & Hev & Hw & Hf). split_and!; [done|done| |].
  - intros n e Hne. eapply authorized_watch_ext; [done|by eapply Hw].
  - intros ev ws Hx. destruct (Hf ev ws Hx) as [? Hall]. split; [done|]. eapply Forall_impl; [exact Hall|].
    intros e. by apply authorized_watch_ext.
Qed.
Lemma envelope_src_ext w w' i e : extends w w' -> envelope_src w i e -> envelope_src w' i e.
Proof.
  intros He (we & ev & topic & realm & ? & ? & Ha & Hr & ?). exists we, ev, topic, realm.
  split_and!; [done|done|by eapply authorized_watch_ext|by apply He|done].
Qed.
Lemma mem_src_ext w w' mem : extends w w' -> mem_src w mem -> mem_src w' mem.
Proof.
  intros He [Hall Hb]. split; [|done]. eapply Forall_impl; [exact Hall|]. intros e. by apply envelope_src_ext.
Qed.
Lemma session_src_ext w w' s : extends w w' -> session_src w s -> session_src w' s.
Proof.
  intros He (Hc & Hj & Hp). split_and!; [done| |].
  - intros topic j Hx. destruct (Hj topic j Hx) as [[Hr Hn] Hm]. split; [split; [by apply He|done]|by apply He].
  - intros f i Hx. destruct (Hp f i Hx) as [Hr Hn]. split; [by apply He|done].
Qed.

(** ** The invariant *)

Record world_ok (w : world) : Prop := {
  ok_topics : forall t i, topics w !! t = Some i <-> exists r, rooms w !! i = Some r /\ rTopic r = t /\ retired r = false;
  ok_members : forall i r m, rooms w !! i = Some r -> m ∈ members r ->
    exists mem, mems w !! m = Some mem /\ mRoom mem = i /\ mOpen mem = true;
  ok_open : forall m mem, mems w !! m = Some mem -> mOpen mem = true ->
    exists r, rooms w !! mRoom mem = Some r /\ m ∈ members r;
  ok_rooms : forall i r, rooms w !! i = Some r -> room_src w i r;
  ok_mems : forall m mem, mems w !! m = Some mem -> mem_src w mem;
  ok_sessions : forall sid s, sessions w !! sid = Some s -> session_src w s }.

Lemma lookup_insert_cases {A} (l : list A) i x j y :
  <[i := x]> l !! j = Some y -> (i = j /\ y = x /\ j < length l) \/ (i <> j /\ l !! j = Some y).
Proof.
  intros Hx. apply list_lookup_insert_Some in Hx as [(-> & -> & ?)|[? ?]]; [by left|by right].
Qed.

(** A change of sessions only. *)
Lemma session_ok w sid s s' :
  world_ok w -> sessions w !! sid = Some s -> session_src w s' -> world_ok (with_session w sid s').
Proof.
  intros [Ht Hm Ho Hr Hme Hs] Hsid Hs'. split; try done. intros k x Hx. cbn [with_session sessions] in Hx.
  apply lookup_insert_cases in Hx as [(_ & -> & _)|[_ Hx]]; [done|by eapply Hs].
Qed.

(** A change of rooms and members that keeps what rooms are called and who
    belongs where. *)
Definition same_room (x y : Room) : Prop := rTopic y = rTopic x /\ rRealm y = rRealm x /\ retired y = retired x.

Lemma same_room_insert (l : list Room) i r r' :
  l !! i = Some r -> same_room r r' -> Forall2 same_room l (<[i := r']> l).
Proof.
  intros Hi Hs. apply Forall2_same_length_lookup. split; [by rewrite length_insert|]. intros j x y Hx Hy.
  apply lookup_insert_cases in Hy as [(<- & -> & _)|[_ Hy]]; [by simplify_eq|]. simplify_eq. done.
Qed.

Lemma update_ok w rs ms :
  world_ok w -> Forall2 same_room (rooms w) rs -> (forall j y, rs !! j = Some y -> room_src w j y) ->
  (forall m i, is_member w m i -> exists mem, ms !! m = Some mem /\ mRoom mem = i) ->
  (forall m mem, ms !! m = Some mem -> mem_src w mem) ->
  (forall i m, (exists r, rs !! i = Some r /\ m ∈ members r) <->
    (exists mem, ms !! m = Some mem /\ mRoom mem = i /\ mOpen mem = true)) ->
  let w' := MkWorld (topics w) rs ms (sessions w) (installed w) in world_ok w' /\ extends w w'.
Proof.
  intros [Ht Hm Ho Hr Hme Hs] Hrs Hsrc Hkeep Hmsrc Hiff w'.
  assert (extends w w') as Hext.
  { split_and!; [|exact Hkeep|done]. intros j t rl (x & Hx & <- & <-).
    destruct (Forall2_lookup_l _ _ _ _ _ Hrs Hx) as (y & Hy & ? & ? & _). by exists y. }
  split; [|done]. split; cbn [w' topics rooms mems sessions].
  - intros t j. rewrite Ht. split; intros (x & Hx & <- & Hret).
    + destruct (Forall2_lookup_l _ _ _ _ _ Hrs Hx) as (y & ? & ? & ? & ?). exists y. split_and!; [done|done|congruence].
    + destruct (Forall2_lookup_r _ _ _ _ _ Hrs Hx) as (y & ? & ? & ? & ?). exists y. split_and!; [done|done|congruence].
  - intros i r m Hi Hin. apply Hiff. by exists r.
  - intros m mem Hmem Hop. apply Hiff. by exists mem.
  - intros j y Hy. eapply room_src_ext; [exact Hext|by apply Hsrc].
  - intros m mem Hmem. eapply mem_src_ext; [exact Hext|by eapply Hmsrc].
  - intros sid s Hsid. eapply session_src_ext; [exact Hext|by eapply Hs].
Qed.

Lemma ok_iff w : world_ok w -> forall i m, (exists r, rooms w !! i = Some r /\ m ∈ members r) <->
    (exists mem, mems w !! m = Some mem /\ mRoom mem = i /\ mOpen mem = true).
Proof.
  intros Hw i m. split; [intros (r & Hi & Hin); by eapply ok_members|].
  intros (mem & Hmem & <- & Hop). by apply ok_open.
Qed.

(** A change inside one room that keeps its members too. *)
Lemma room_ok w i r r' :
  world_ok w -> rooms w !! i = Some r -> same_room r r' -> members r' = members r -> room_src w i r' ->
  world_ok (with_room w i r') /\ extends w (with_room w i r').
Proof.
  intros Hw Hi Hsame Hmem Hsrc. apply update_ok; [done|by eapply same_room_insert| |done|by eapply ok_mems|].
  - intros j y Hy. apply lookup_insert_cases in Hy as [(<- & -> & _)|[_ Hy]]; [done|by eapply ok_rooms].
  - intros j m. rewrite <- ok_iff by done. split; intros (x & Hx & Hin).
    + apply lookup_insert_cases in Hx as [(<- & -> & _)|[_ Hx]]; [|by exists x]. rewrite Hmem in Hin. by exists r.
    + destruct (decide (i = j)) as [<-|Hne]; [|exists x; by rewrite list_lookup_insert_ne].
      exists r'. rewrite list_lookup_insert_eq by (by eapply lookup_lt_Some). simplify_eq. by rewrite Hmem.
Qed.

Lemma join_ok w realm name w' i :
  world_ok w -> ":"%char ∉ realm -> Join w realm (topic_of realm name) = (w', i) ->
  world_ok w' /\ extends w w' /\ is_room w' i (topic_of realm name) realm /\ sessions w' = sessions w.
Proof.
  intros Hw Hc. unfold Join. destruct (topics w !! topic_of realm name) as [k|] eqn:Et.
  - intros [= <- <-]. split_and!; [done|done| |done]. apply (ok_topics _ Hw) in Et as (r & Hr & Htop & _).
    exists r. split_and!; [done|done|]. destruct (ok_rooms _ Hw _ _ Hr) as ((name' & Hn & Hc') & _).
    rewrite Hn in Htop. by eapply topic_of_inj.
  - intros [= <- <-]. set (r := MkRoom _ _ _ _ _ _ _ _ _). set (w' := MkWorld _ _ _ _ _).
    assert (extends w w') as Hext.
    { split_and!; [|done|done]. intros j t rl (x & Hx & ?). exists x. split; [|done]. cbn. by apply lookup_app_l_Some. }
    assert (forall j x, (rooms w ++ [r]) !! j = Some x -> rooms w !! j = Some x \/ (j = length (rooms w) /\ x = r)) as Hcase.
    { intros j x [Hx|[Hge Hx]]%lookup_app_Some; [by left|]. right. apply list_lookup_singleton_Some in Hx as [? <-]. split; [lia|done]. }
    assert (is_room w' (length (rooms w)) (topic_of realm name) realm) as Hnew.
    { exists r. split_and!; [|done|done]. cbn. by rewrite lookup_app_r, Nat.sub_diag. }
    split_and!; [|done|done|done]. split; cbn [w' topics rooms mems sessions].
    + intros t j. rewrite lookup_insert_Some, (ok_topics _ Hw). split.
      * intros [[<- <-]|[_ (x & Hx & ?)]]; [destruct Hnew as (x & ? & ? & ?); exists r; split_and!; [|done|done]; by rewrite lookup_app_r, Nat.sub_diag|].
        exists x. split; [by apply lookup_app_l_Some|done].
      * intros (x & Hx & Htx & Hret). apply Hcase in Hx as [Hx|[-> ->]]; [|left; done].
        right. split; [|by exists x]. intros <-. apply not_elem_of_dom in Et. destruct Et.
        apply elem_of_dom. exists j. apply (ok_topics _ Hw). by exists x.
    + intros j x m Hx Hin. apply Hcase in Hx as [Hx|[-> ->]]; [by eapply ok_members|]. cbn in Hin. set_solver.
    + intros m mem Hmem Hop. destruct (ok_open _ Hw m mem Hmem Hop) as (x & Hx & ?). exists x.
      split; [by apply lookup_app_l_Some|done].
    + intros j x Hx. eapply room_src_ext; [exact Hext|]. apply Hcase in Hx as [Hx|[-> ->]]; [by eapply ok_rooms|].
      split_and!; [by exists name|done|by intros n e Hne; cbn in Hne; rewrite lookup_empty in Hne|done].
    + intros m mem Hmem. eapply mem_src_ext; [exact Hext|by eapply ok_mems].
    + intros sid s Hsid. eapply session_src_ext; [exact Hext|by eapply ok_sessions].
Qed.

Lemma add_member_ok w i buffer w' m :
  world_ok w -> AddMember w i buffer = Some (w', m) ->
  world_ok w' /\ extends w w' /\ is_member w' m i /\ sessions w' = sessions w.
Proof.
  intros Hw. unfold AddMember. destruct (rooms w !! i) as [r|] eqn:Ei; [|done]. cbn [mbind option_bind].
  intros [= <- <-]. set (mem := MkMember _ _ _ _ _).
  assert (forall m x, (mems w ++ [mem]) !! m = Some x -> mems w !! m = Some x \/ (m = length (mems w) /\ x = mem)) as Hcase.
  { intros j x [Hx|[Hge Hx]]%lookup_app_Some; [by left|]. right. apply list_lookup_singleton_Some in Hx as [? <-]. split; [lia|done]. }
  assert ((mems w ++ [mem]) !! length (mems w) = Some mem) as Hlast by (by rewrite lookup_app_r, Nat.sub_diag).
  destruct (update_ok w (<[i := set_members r ({[length (mems w)]} ∪ members r)]> (rooms w)) (mems w ++ [mem])) as [Hok Hext].
  - done.
  - by eapply same_room_insert.
  - intros j y Hy. apply lookup_insert_cases in Hy as [(<- & -> & _)|[_ Hy]]; [|by eapply ok_rooms]. by apply (ok_rooms _ Hw i r Ei).
  - intros k j (x & Hx & <-). exists x. split; [by apply lookup_app_l_Some|done].
  - intros k x Hx. apply Hcase in Hx as [Hx|[-> ->]]; [by eapply ok_mems|]. split; [constructor|cbn; lia].
  - intros j k. split.
    + intros (y & Hy & Hin). apply lookup_insert_cases in Hy as [(<- & -> & _)|[_ Hy]].
      * cbn in Hin. apply elem_of_union in Hin as [->%elem_of_singleton|Hin]; [by exists mem|].
        destruct (ok_members _ Hw _ _ _ Ei Hin) as (x & ? & ?). exists x. split; [by apply lookup_app_l_Some|done].
      * destruct (ok_members _ Hw _ _ _ Hy Hin) as (x & ? & ?). exists x. split; [by apply lookup_app_l_Some|done].
    + intros (x & Hx & Hroom & Hop). apply Hcase in Hx as [Hx|[-> ->]].
      * destruct (ok_open _ Hw k x Hx Hop) as (y & Hy & Hin). rewrite Hroom in Hy. destruct (decide (i = j)) as [<-|Hne].
        -- eexists. rewrite list_lookup_insert_eq by (by eapply lookup_lt_Some). split; [done|]. cbn. set_solver.
        -- exists y. by rewrite list_lookup_insert_ne.
      * cbn in Hroom. subst j. eexists. rewrite list_lookup_insert_eq by (by eapply lookup_lt_Some). split; [done|]. cbn. set_solver.
  - split_and!; [done|done| |done]. exists mem. by split.
Qed.

Lemma retire_ok w i : world_ok w -> world_ok (retire w i) /\ extends w (retire w i) /\ sessions (retire w i) = sessions w.
Proof.
  intros Hw. unfold retire. destruct (rooms w !! i) as [r|] eqn:Ei; [|done]. destruct (retired r) eqn:Er; [done|].
  set (w' := MkWorld _ _ _ _ _). pose proof (lookup_lt_Some _ _ _ Ei) as Hlt.
  assert (extends w w') as Hext.
  { split_and!; [|done|done]. intros j t rl (x & Hx & <- & <-). destruct (decide (i = j)) as [<-|Hne].
    - exists (set_retired r). cbn. rewrite list_lookup_insert_eq by done. by simplify_eq.
    - exists x. cbn. by rewrite list_lookup_insert_ne. }
  split_and!; [|done|done]. split; cbn [w' topics rooms mems sessions].
  - intros t j. rewrite lookup_delete_Some, (ok_topics _ Hw). split.
    + intros [Hne (x & Hx & Htx & ?)]. exists x. split; [|done]. destruct (decide (i = j)) as [<-|]; [by simplify_eq|].
      by rewrite list_lookup_insert_ne.
    + intros (x & Hx & Htx & Hret). apply lookup_insert_cases in Hx as [(<- & -> & _)|[Hne Hx]]; [done|].
      split; [|by exists x]. intros <-. apply Hne.
      assert (topics w !! rTopic x = Some j) as H1 by (apply (ok_topics _ Hw); by exists x).
      assert (topics w !! rTopic r = Some i) as H2 by (apply (ok_topics _ Hw); by exists r). congruence.
  - intros j x m Hx Hin. apply lookup_insert_cases in Hx as [(<- & -> & _)|[_ Hx]]; by eapply ok_members.
  - intros m mem Hmem Hop. destruct (ok_open _ Hw m mem Hmem Hop) as (x & Hx & ?).
    destruct (decide (i = mRoom mem)) as [Heq|]; [|exists x; by rewrite list_lookup_insert_ne].
    exists (set_retired r). rewrite <- Heq in *. rewrite list_lookup_insert_eq by done. by simplify_eq.
  - intros j x Hx. eapply room_src_ext; [exact Hext|].
    apply lookup_insert_cases in Hx as [(<- & -> & _)|[_ Hx]]; [exact (ok_rooms _ Hw i r Ei)|by eapply ok_rooms].
  - intros m mem Hmem. eapply mem_src_ext; [exact Hext|by eapply ok_mems].
  - intros sid s Hsid. eapply session_src_ext; [exact Hext|by eapply ok_sessions].
Qed.

(** Members that leave a room have their mailbox closed. *)
Lemma close_ok w i r r' gone :
  world_ok w -> rooms w !! i = Some r -> same_room r r' -> members r' = members r ∖ gone -> gone ⊆ members r -> room_src w i r' ->
  let ms := imap (fun k m => if decide (k ∈ gone) then close_mailbox m else m) (mems w) in
  let w' := MkWorld (topics w) (<[i := r']> (rooms w)) ms (sessions w) (installed w) in world_ok w' /\ extends w w'.
Proof.
  intros Hw Hi Hsame Hmem Hgone Hsrc ms w'.
  assert (forall k x, ms !! k = Some x <-> exists m, mems w !! k = Some m /\ x = if decide (k ∈ gone) then close_mailbox m else m) as Hms.
  { intros k x. unfold ms. rewrite list_lookup_imap, fmap_Some. done. }
  apply update_ok; [done|by eapply same_room_insert| | | |].
  - intros j y Hy. apply lookup_insert_cases in Hy as [(<- & -> & _)|[_ Hy]]; [done|by eapply ok_rooms].
  - intros k j (x & Hx & <-). eexists. split; [apply Hms; by exists x|]. by case_decide.
  - intros k x (m & Hm & ->)%Hms. case_decide; exact (ok_mems _ Hw k m Hm).
  - intros j k. split.
    + intros (y & Hy & Hin). apply lookup_insert_cases in Hy as [(<- & -> & _)|[Hne Hy]].
      * rewrite Hmem in Hin. apply elem_of_difference in Hin as [Hin Hng].
        destruct (ok_members _ Hw _ _ _ Hi Hin) as (x & ? & ?). exists x. split; [|done]. apply Hms. exists x. by rewrite decide_False.
      * destruct (ok_members _ Hw _ _ _ Hy Hin) as (x & Hx & Hr & Ho). exists x. split; [|done]. apply Hms. exists x.
        rewrite decide_False; [done|]. intros Hg%Hgone. destruct (ok_members _ Hw _ _ _ Hi Hg) as (x' & ? & ? & ?). congruence.
    + intros (x & (m & Hm & ->)%Hms & Hroom & Hop). case_decide as Hg; [done|].
      destruct (ok_open _ Hw k m Hm Hop) as (y & Hy & Hin). rewrite Hroom in Hy. destruct (decide (i = j)) as [<-|Hne].
      * exists r'. rewrite list_lookup_insert_eq by (by eapply lookup_lt_Some). split; [done|]. rewrite Hmem. simplify_eq. set_solver.
      * exists y. by rewrite list_lookup_insert_ne.
Qed.

Lemma imap_one (l : list Member) m x :
  l !! m = Some x -> imap (fun k y => if decide (k ∈ ({[m]} : gset nat)) then close_mailbox y else y) l = <[m := close_mailbox x]> l.
Proof.
  intros Hm. apply list_eq. intros k. rewrite list_lookup_imap. destruct (decide (m = k)) as [<-|Hne].
  - rewrite list_lookup_insert_eq by (by eapply lookup_lt_Some). rewrite Hm. simpl. rewrite decide_True by set_solver. done.
  - rewrite list_lookup_insert_ne by done. destruct (l !! k); [|done]. simpl. by rewrite decide_False by set_solver.
Qed.

Lemma leave_ok w m :
  world_ok w -> match Leave w m with
                | Next w' => world_ok w' /\ extends w w' /\ sessions w' = sessions w
                | Disabled => mems w !! m = None \/ exists mem, mems w !! m = Some mem /\ rooms w !! mRoom mem = None
                | Panic => False end.
Proof.
  intros Hw. unfold Leave. destruct (mems w !! m) as [mem|] eqn:Em; [|by left].
  destruct (rooms w !! mRoom mem) as [r|] eqn:Er; [|by right; exists mem].
  destruct (decide (m ∈ members r)) as [Hin|]; [|done].
  destruct (close_ok w (mRoom mem) r (set_members r (members r ∖ {[m]})) {[m]} Hw Er) as [Hok Hext].
  { done. } { done. } { set_solver. } { by apply (ok_rooms _ Hw _ _ Er). }
  rewrite (imap_one _ _ _ Em) in Hok, Hext. set (w1 := MkWorld _ _ _ _ _) in Hok, Hext.
  assert (mOpen mem = true) as ->. { by destruct (ok_members _ Hw _ _ _ Er Hin) as (x & ? & ? & ?); simplify_eq. }
  match goal with |- context [MkWorld (topics ?a) _ _ _ _] => set (w2 := a) end.
  destruct (decide (members (set_members r (members r ∖ {[m]})) = ∅)) as [He|He]; subst w2; [|done].
  destruct (retire_ok w1 (mRoom mem) Hok) as (Hok2 & Hext2 & Hs2).
  replace (MkWorld _ _ _ _ _) with (retire w1 (mRoom mem)); [split_and!; [done|by transitivity w1|done]|].
  unfold retire, w1. cbn [rooms with_room topics mems sessions installed].
  destruct (<[_ := _]> _ !! _) as [r0|]; [|done]. by destruct (retired r0).
Qed.

Lemma leave_all_ok ms : forall w,
  world_ok w -> match leave_all w ms with
                | Next w' => world_ok w' /\ extends w w' /\ sessions w' = sessions w
                | Disabled => True
                | Panic => False end.
Proof.
  induction ms as [|m ms IH]; intros w Hw; [done|]. cbn [leave_all]. pose proof (leave_ok w m Hw) as Hl.
  destruct (Leave w m) as [w1| |]; [|done|done]. destruct Hl as (Hw1 & He1 & Hs1). specialize (IH w1 Hw1).
  destruct (leave_all w1 ms) as [w2| |]; [|done|done]. destruct IH as (? & ? & ?).
  split_and!; [done|by transitivity w1|congruence].
Qed.

Lemma all_open_ok w i r : world_ok w -> rooms w !! i = Some r -> all_open (members r) (mems w) = true.
Proof.
  intros Hw Hi. apply forallb_forall. intros m Hm. apply list_elem_of_In, elem_of_elements in Hm.
  by destruct (ok_members _ Hw _ _ _ Hi Hm) as (mem & -> & _ & ->).
Qed.

(** Fanning out one event changes mailboxes only. *)
Definition same_member (x y : Member) : Prop := mRoom y = mRoom x /\ mOpen y = mOpen x.
#[export] Instance same_member_preorder : PreOrder same_member.
Proof. split; [by split|]. intros x y z [? ?] [? ?]. split; congruence. Qed.

Lemma fan_watch_ok w i r ev e ms :
  rooms w !! i = Some r -> bRealm ev = rRealm r -> authorized_watch w i e ->
  (forall m mem, ms !! m = Some mem -> mem_src w mem /\ (m ∈ members r -> mRoom mem = i)) ->
  Forall2 same_member ms (fan_watch ev (members r) ms e) /\
  (forall m mem, fan_watch ev (members r) ms e !! m = Some mem -> mem_src w mem /\ (m ∈ members r -> mRoom mem = i)).
Proof.
  intros Hi Hev He Hms. unfold fan_watch. destruct (watch_matches e ev) eqn:Em; [|split; [reflexivity|done]].
  split.
  - apply Forall2_same_length_lookup. rewrite length_imap. split; [done|]. intros k x y Hx Hy.
    rewrite list_lookup_imap, Hx in Hy. simpl in Hy. injection Hy as <-. case_decide; [|done]. unfold offer. by case_match.
  - intros m mem Hm. rewrite list_lookup_imap in Hm. apply fmap_Some in Hm as (x & Hx & ->).
    destruct (Hms m x Hx) as [[Hall Hb] Hroom]. case_decide as Hin; [|by split]. specialize (Hroom Hin).
    unfold offer. destruct (Nat.ltb_spec (length (mailbox x)) (mCap x)); (split; [|done]).
    + split; cbn [mRoom mCap mailbox].
      * apply Forall_app. split; [done|]. constructor; [|done]. rewrite Hroom.
        exists e, ev, (rTopic r), (rRealm r). split_and!; [done|done|done|by exists r|done].
      * rewrite length_app. simpl. lia.
    + by split.
Qed.

Lemma fan_ok w i r ev ws :
  rooms w !! i = Some r -> bRealm ev = rRealm r -> Forall (authorized_watch w i) ws -> forall ms,
  (forall m mem, ms !! m = Some mem -> mem_src w mem /\ (m ∈ members r -> mRoom mem = i)) ->
  Forall2 same_member ms (foldl (fan_watch ev (members r)) ms ws) /\
  (forall m mem, foldl (fan_watch ev (members r)) ms ws !! m = Some mem -> mem_src w mem).
Proof.
  intros Hi Hev Hws. induction Hws as [|e ws He Hws IH]; intros ms Hms; cbn [foldl].
  - split; [reflexivity|]. intros m mem Hm. by apply (Hms m mem).
  - destruct (fan_watch_ok w i r ev e ms Hi Hev He Hms) as [Hs1 Hm1]. destruct (IH _ Hm1) as [Hs2 Hm2].
    split; [|done]. by etransitivity.
Qed.

(** ** Every step keeps it *)

Definition fine (o : outcome) : Prop := match o with Next w => world_ok w | Disabled => True | Panic => False end.

Lemma say_ok w sid s f : world_ok w -> sessions w !! sid = Some s -> fine (Next (with_session w sid (say s f))).
Proof. intros Hw Hs. eapply session_ok; [done|exact Hs|]. exact (ok_sessions _ Hw sid s Hs). Qed.

Lemma handleJoin_ok w sid s f : world_ok w -> sessions w !! sid = Some s -> fine (handleJoin w sid s f).
Proof.
  intros Hw Hs. unfold handleJoin. destruct (Strings.CutPrefix _ _) as [[|c name]|] eqn:Ec; [by apply say_ok| |by apply say_ok].
  destruct (AuthorizesChannel (sTok s) VerbJoin (c :: name)) eqn:Ea; cbn [negb]; [|by apply say_ok].
  pose proof (ok_sessions _ Hw sid s Hs) as (Hc & Hj & Hp). apply Strings.CutPrefix_spec in Ec.
  assert (Topic f = topic_of (sRealm s) (c :: name)) as Et. { rewrite Ec. unfold topic_of. by rewrite <- !(assoc_L (++)). }
  destruct (sRooms s !! Topic f) as [j|] eqn:Ej.
  - eapply session_ok; [done|exact Hs|]. split_and!; [done| |done]. intros topic j'. cbn [say set_rooms sRooms].
    rewrite lookup_insert_Some. intros [[<- <-]|[_ Hx]]; [exact (Hj _ _ Ej)|exact (Hj _ _ Hx)].
  - rewrite Et. destruct (Join w (sRealm s) (topic_of (sRealm s) (c :: name))) as [w1 i] eqn:Ew.
    destruct (join_ok _ _ _ _ _ Hw Hc Ew) as (Hw1 & Hext & Hr & Hs1).
    eapply session_ok; [done|by rewrite Hs1|]. split_and!; [done| |].
    + intros topic j Hx. by apply (session_src_ext _ _ s Hext (conj Hc (conj Hj Hp))).
    + intros f' i' [= <- <-]. rewrite Et. split; [done|]. by exists (c :: name).
Qed.

Lemma finishJoin_ok w sid s f i :
  world_ok w -> sessions w !! sid = Some s -> sJoining s = Some (f, i) -> fine (finishJoin w sid s f i).
Proof.
  intros Hw Hs Hjn. unfold finishJoin. destruct (AddMember w i 0) as [[w1 m]|] eqn:Ea; [|done].
  destruct (add_member_ok _ _ _ _ _ Hw Ea) as (Hw1 & Hext & Hm & Hs1).
  pose proof (session_src_ext _ _ s Hext (ok_sessions _ Hw sid s Hs)) as (Hc & Hj & Hp).
  eapply session_ok; [done|by rewrite Hs1|]. split_and!; [done| |done]. intros topic j. cbn [say sRooms].
  rewrite lookup_insert_Some. intros [[<- <-]|[_ Hx]]; [|exact (Hj _ _ Hx)]. split; [exact (Hp f i Hjn)|exact Hm].
Qed.

Lemma handleLeave_ok w sid s f : world_ok w -> sessions w !! sid = Some s -> fine (handleLeave w sid s f).
Proof.
  intros Hw Hs. unfold handleLeave. destruct (sRooms s !! Topic f) as [j|]; [|by apply say_ok].
  pose proof (leave_ok w (jMember j) Hw) as Hl. destruct (Leave w (jMember j)) as [w1| |]; [|done|done].
  destruct Hl as (Hw1 & Hext & Hs1). pose proof (session_src_ext _ _ s Hext (ok_sessions _ Hw sid s Hs)) as (Hc & Hj & Hp).
  eapply session_ok; [done|by rewrite Hs1|]. split_and!; [done| |done]. intros topic j'. cbn [say set_rooms sRooms].
  rewrite lookup_delete_Some. intros [_ Hx]. exact (Hj _ _ Hx).
Qed.

(** Installing a watch in a room of the session's realm. *)
Lemma install_ok w sid s f j req e path r :
  world_ok w -> sessions w !! sid = Some s -> sRooms s !! Topic f = Some j -> rooms w !! jRoom j = Some r ->
  watch_entry req = Some e -> watchAuthPath req = Ok path -> AuthorizesChannel (sTok s) VerbWatch path = true ->
  world_ok (MkWorld (topics w) (<[jRoom j := set_watches r (<[qName req := e]> (watches r))]> (rooms w)) (mems w)
    (<[sid := say s (OK f)]> (sessions w)) (installed w ++ [(jRoom j, e, req, sRealm s, sTok s)])).
Proof.
  intros Hw Hs Hj Hr He Hp Ha. set (w1 := MkWorld (topics w) (rooms w) (mems w) (sessions w) (installed w ++ [(jRoom j, e, req, sRealm s, sTok s)])).
  assert (extends w w1) as Hext. { split_and!; [done|done|]. cbn. intros x Hx. apply elem_of_app. by left. }
  pose proof (ok_sessions _ Hw sid s Hs) as (_ & Hjs & _). destruct (Hjs _ _ Hj) as [[Hroom _] _].
  assert (world_ok w1) as Hw1.
  { destruct Hw as [Ht Hm Ho Hrs Hme Hss]. split; try done.
    - intros i x Hx. eapply room_src_ext; [exact Hext|by apply Hrs].
    - intros m x Hx. eapply mem_src_ext; [exact Hext|by eapply Hme]. }
  destruct (room_ok w1 (jRoom j) r (set_watches r (<[qName req := e]> (watches r))) Hw1 Hr) as [Hw2 _].
  { done. } { done. }
  { destruct (ok_rooms _ Hw1 _ _ Hr) as (Hn & Hev & Hwa & Hfl). split_and!; [done|done| |done].
    intros n x. cbn [set_watches watches]. rewrite lookup_insert_Some. intros [[_ <-]|[_ Hx]]; [|by eapply Hwa].
    exists req, (sRealm s), (sTok s), (Topic f), path. split; [|split_and!; try done]. cbn. apply elem_of_app. right. by left. }
  exact (session_ok _ sid s (say s (OK f)) Hw2 Hs (ok_sessions _ Hw2 sid s Hs)).
Qed.

Lemma handleWatch_ok w sid s f : world_ok w -> sessions w !! sid = Some s -> fine (handleWatch w sid s f).
Proof.
  intros Hw Hs. unfold handleWatch. destruct (sRooms s !! Topic f) as [j|] eqn:Ej; [|by apply say_ok].
  destruct (Payload f ≫= decode_watch) as [req|]; [|by apply say_ok].
  destruct (watchAuthPath req) as [path|e] eqn:Ep; [|by apply say_ok].
  destruct (AuthorizesChannel (sTok s) VerbWatch path) eqn:Ea; cbn [negb]; [|by apply say_ok].
  destruct (watch_entry req) as [e|] eqn:Ee; [|by apply say_ok]. destruct (rooms w !! jRoom j) as [r|] eqn:Er; [|done].
  by eapply install_ok.
Qed.

Lemma handleUnwatch_ok w sid s f : world_ok w -> sessions w !! sid = Some s -> fine (handleUnwatch w sid s f).
Proof.
  intros Hw Hs. unfold handleUnwatch. destruct (sRooms s !! Topic f) as [j|] eqn:Ej; [|by apply say_ok].
  destruct (rooms w !! jRoom j) as [r|] eqn:Er; [|done]. set (name := match Payload f with Some _ => _ | None => _ end).
  destruct (room_ok w (jRoom j) r (set_watches r (delete name (watches r))) Hw Er) as [Hw2 _]; [done|done| |by apply say_ok].
  destruct (ok_rooms _ Hw _ _ Er) as (Hn & Hev & Hwa & Hfl). split_and!; [done|done| |done].
  intros n x. cbn [set_watches watches]. rewrite lookup_delete_Some. intros [_ Hx]. by eapply Hwa.
Qed.

Lemma handleFrame_ok w sid s f : world_ok w -> sessions w !! sid = Some s -> fine (handleFrame w sid s f).
Proof.
  intros Hw Hs. unfold handleFrame. repeat case_match; first [by apply say_ok|by apply handleJoin_ok|by apply handleLeave_ok
    |by apply handleWatch_ok|by apply handleUnwatch_ok|done].
Qed.

Lemma pump_ok w sid s i topic m : world_ok w -> sessions w !! sid = Some s -> fine (pump w sid s i topic m).
Proof.
  intros Hw Hs. unfold pump. destruct (mems w !! m) as [mem|] eqn:Em; [|done].
  destruct (mailbox mem) as [|e rest] eqn:Eb; [done|]. set (mem' := MkMember _ _ _ _ _).
  destruct (update_ok w (rooms w) (<[m := mem']> (mems w))) as [Hw1 _]; [done|by apply Forall_Forall2_diag, Forall_true|by eapply ok_rooms| | | |].
  - intros k j (x & Hx & <-). destruct (decide (m = k)) as [<-|Hne]; [|exists x; by rewrite list_lookup_insert_ne].
    exists mem'. rewrite list_lookup_insert_eq by (by eapply lookup_lt_Some). by simplify_eq.
  - intros k x Hx. apply lookup_insert_cases in Hx as [(<- & -> & _)|[_ Hx]]; [|by eapply ok_mems].
    destruct (ok_mems _ Hw _ _ Em) as [Hall Hb]. rewrite Eb in Hall, Hb. apply Forall_cons in Hall as [_ Hall].
    split; [done|]. cbn in *. lia.
  - intros j k. rewrite ok_iff by done. split; intros (x & Hx & Hro & Hop).
    + destruct (decide (m = k)) as [<-|Hne]; [|exists x; by rewrite list_lookup_insert_ne].
      exists mem'. rewrite list_lookup_insert_eq by (by eapply lookup_lt_Some). by simplify_eq.
    + apply lookup_insert_cases in Hx as [(<- & -> & _)|[_ Hx]]; [by exists mem|by exists x].
  - destruct (sRooms s !! topic); [destruct (encode_event e); [by apply say_ok|done]|].
    eapply session_ok; [done|exact Hs|]. exact (ok_sessions _ Hw1 sid s Hs).
Qed.

Lemma take_ok w i r order ev rest :
  world_ok w -> rooms w !! i = Some r -> rEvents r = ev :: rest ->
  world_ok (with_room w i (set_events r rest (Some (ev, omap (fun n => watches r !! n) order)))).
Proof.
  intros Hw Hi He. destruct (ok_rooms _ Hw _ _ Hi) as (Hn & Hev & Hwa & Hfl). rewrite He in Hev.
  apply Forall_cons in Hev as [Hev Hrest]. eapply room_ok; [done|exact Hi|done|done|]. split_and!; [done|done|done|].
  intros ev' ws [= <- <-]. split; [done|]. apply Forall_forall. intros x Hx.
  apply list_elem_of_omap in Hx as (n & _ & Hx). by eapply Hwa.
Qed.

Lemma fan_step_ok w i r ev ws :
  world_ok w -> rooms w !! i = Some r -> inflight r = Some (ev, ws) ->
  world_ok (MkWorld (topics w) (<[i := set_events r (rEvents r) None]> (rooms w))
    (foldl (fan_watch ev (members r)) (mems w) ws) (sessions w) (installed w)).
Proof.
  intros Hw Hi Hfl. destruct (ok_rooms _ Hw _ _ Hi) as (Hn & Hev & Hwa & Hx). destruct (Hx _ _ Hfl) as [Hreal Hws].
  destruct (fan_ok w i r ev ws Hi Hreal Hws (mems w)) as [Hs Hsrc].
  { intros m mem Hm. split; [by eapply ok_mems|]. intros Hin. destruct (ok_members _ Hw _ _ _ Hi Hin) as (x & ? & ? & _). congruence. }
  apply update_ok; [done|by eapply same_room_insert| | |done|].
  - intros j y Hy. apply lookup_insert_cases in Hy as [(<- & -> & _)|[_ Hy]]; [|by eapply ok_rooms]. by split_and!.
  - intros m j (x & Hm & <-). destruct (Forall2_lookup_l _ _ _ _ _ Hs Hm) as (y & Hy & ? & _). by exists y.
  - intros j m. transitivity (exists r, rooms w !! j = Some r /\ m ∈ members r).
    + split; intros (y & Hy & Hin).
      * apply lookup_insert_cases in Hy as [(<- & -> & _)|[_ Hy]]; [by exists r|by exists y].
      * destruct (decide (i = j)) as [<-|Hne]; [|exists y; by rewrite list_lookup_insert_ne].
        eexists. rewrite list_lookup_insert_eq by (by eapply lookup_lt_Some). split; [done|]. by simplify_eq.
    + rewrite ok_iff by done. split; intros (x & Hm & Hro & Hop).
      * destruct (Forall2_lookup_l _ _ _ _ _ Hs Hm) as (y & Hy & E1 & E2). exists y. split_and!; [done|congruence|congruence].
      * destruct (Forall2_lookup_r _ _ _ _ _ Hs Hm) as (y & Hy & E1 & E2). exists y. split_and!; [done|congruence|congruence].
Qed.

Lemma end_ok w i r :
  world_ok w -> rooms w !! i = Some r -> rEvents r = [] -> inflight r = None ->
  world_ok (retire (MkWorld (topics w) (<[i := set_over r]> (rooms w))
    (imap (fun k m => if decide (k ∈ members r) then close_mailbox m else m) (mems w)) (sessions w) (installed w)) i).
Proof.
  intros Hw Hi He Hf. apply retire_ok. eapply close_ok; [done|exact Hi|done| |done|].
  - cbn. set_solver.
  - exact (ok_rooms _ Hw _ _ Hi).
Qed.

Lemma world_step_ok w l : world_ok w -> label_ok l -> fine (step w l).
Proof.
  intros Hw Hl. destruct l as [realm tok|sid f|sid|sid|sid i|i ev|i|i order|i|i]; cbn [step].
  - destruct Hw as [Ht Hm Ho Hr Hme Hs]. split; try done. intros k x Hx. cbn [sessions] in Hx.
    apply lookup_app_Some in Hx as [Hx|[_ Hx]]; [exact (Hs k x Hx)|]. apply list_lookup_singleton_Some in Hx as [_ <-].
    split_and!; [done|by intros topic j Hx; cbn in Hx; rewrite lookup_empty in Hx|done].
  - destruct (sessions w !! sid) as [s|] eqn:Es; [|done]. destruct (sJoining s); [done|]. by apply handleFrame_ok.
  - destruct (sessions w !! sid) as [s|] eqn:Es; [|done]. destruct (sJoining s) as [[f i]|] eqn:Ej; [|done]. by apply finishJoin_ok.
  - destruct (sessions w !! sid) as [s|] eqn:Es; [|done]. destruct (sJoining s) eqn:Ej; [done|]. unfold teardown.
    pose proof (leave_all_ok (map (fun x => jMember x.2) (map_to_list (sRooms s))) w Hw) as Hla.
    destruct (leave_all w _) as [w1| |]; [|done|done]. destruct Hla as (Hw1 & Hext & Hs1).
    pose proof (session_src_ext _ _ s Hext (ok_sessions _ Hw sid s Es)) as (Hc & Hj & Hp).
    eapply session_ok; [done|by rewrite Hs1|]. split_and!; [done|by intros topic j Hx; cbn in Hx; rewrite lookup_empty in Hx|exact Hp].
  - destruct (sessions w !! sid) as [s|] eqn:Es; [|done]. destruct (sPumps s !! i) as [[topic m]|]; [|done]. by apply pump_ok.
  - destruct (rooms w !! i) as [r|] eqn:Er; [|done]. destruct (rOpen r && negb (retired r) && _) eqn:Eb; [|done].
    apply andb_true_iff in Eb as [_ Eb%bool_decide_eq_true]. destruct (ok_rooms _ Hw _ _ Er) as (Hn & Hev & Hwa & Hfl).
    eapply room_ok; [done|exact Er|done|done|]. split_and!; [done| |done|done]. apply Forall_app. split; [done|]. by constructor.
  - destruct (rooms w !! i) as [r|] eqn:Er; [|done]. eapply room_ok; [done|exact Er|done|done|]. exact (ok_rooms _ Hw _ _ Er).
  - destruct (rooms w !! i) as [r|] eqn:Er; [|done]. destruct (rEvents r) as [|ev rest] eqn:Ee; [done|].
    destruct (inflight r); [done|]. destruct (bool_decide _ && _); [|done]. by eapply take_ok.
  - destruct (rooms w !! i) as [r|] eqn:Er; [|done]. destruct (inflight r) as [[ev ws]|] eqn:Ef; [|done].
    rewrite (all_open_ok w i r Hw Er). by eapply fan_step_ok.
  - destruct (rooms w !! i) as [r|] eqn:Er; [|done]. destruct (rEvents r) eqn:Ee; [|done]. destruct (inflight r) eqn:Ef; [done|].
    destruct (rOpen r || over r); [done|]. rewrite (all_open_ok w i r Hw Er). by eapply end_ok.
Qed.

Lemma world_reachable_ok w : reachable w -> world_ok w.
Proof.
  induction 1 as [|w l w' _ IH Hl Hstep].
  - split; cbn; try done. intros t i. rewrite lookup_empty. split; [done|]. by intros (r & ? & _).
  - pose proof (world_step_ok w l IH Hl) as Hf. by rewrite Hstep in Hf.
Qed.

(** ** The guarantees *)

(** The rooms are consistent under every interleaving of frames, joins in
    progress, bus events, fan-outs and shutdowns: no step sends on a closed
    mailbox or closes one twice; a topic is registered exactly for its one
    room that was not retired; a mailbox is open exactly while its member is in
    its room, and never holds more than its capacity. *)
Theorem channel_rooms_consistent w :
  reachable w ->
  (forall l, label_ok l -> step w l <> Panic) /\
  (forall t i, topics w !! t = Some i <-> exists r, rooms w !! i = Some r /\ rTopic r = t /\ retired r = false) /\
  (forall m mem, mems w !! m = Some mem ->
     (mOpen mem = true <-> exists r, rooms w !! mRoom mem = Some r /\ m ∈ members r) /\ length (mailbox mem) <= mCap mem).
Proof.
  intros Hw%world_reachable_ok. split_and!.
  - intros l Hl He. pose proof (world_step_ok w l Hw Hl) as Hf. by rewrite He in Hf.
  - by apply ok_topics.
  - intros m mem Hm. split; [|by eapply ok_mems]. split; [by apply ok_open|]. intros (r & Hr & Hin).
    destruct (ok_members _ Hw _ _ _ Hr Hin) as (x & ? & _ & ?). congruence.
Qed.

(** A watch that names no group is for one device. *)
Lemma device_watch_names_device req path e ev :
  watchAuthPath req = Ok path -> qGroupName req = [] -> watch_entry req = Some e -> watch_matches e ev = true ->
  bDeviceID ev = qDeviceID req.
Proof.
  intros Hp Hg He Hm. assert (qDeviceID req <> []) as Hd.
  { unfold watchAuthPath in Hp. destruct (qTrigger req ≫= decode_shape) as [ts|]; [|done]. rewrite Hg in Hp. unfold blank in Hp.
    rewrite (bool_decide_eq_true_2 ([] = [])) in Hp by done. cbn [andb negb] in Hp.
    intros Hnil. rewrite Hnil in Hp. destruct (negb (bool_decide (tsGroupName ts = []))); [done|].
    destruct (bool_decide (tsType ts = _)); [by rewrite bool_decide_eq_true_2 in Hp|].
    destruct (decide (tsDeviceID ts = [])) as [Hx|Hx];
      [by rewrite (bool_decide_eq_true_2 _ Hx) in Hp|by rewrite !(bool_decide_eq_false_2 _ Hx) in Hp]. }
  assert (wDeviceID e = qDeviceID req) as Hw.
  { unfold watch_entry in He. destruct (blank (qName req)); [done|]. destruct (qTrigger req) as [t|]; [|done]. cbn in He.
    destruct (decode_condition t) as [c|]; [|done]. cbn in He. destruct (Triggers.CompileCondition _ c); [|done]. by injection He as <-. }
  unfold watch_matches, blank in Hm. rewrite Hw in Hm. rewrite (bool_decide_eq_false_2 (qDeviceID req = [])) in Hm by done.
  cbn [negb andb] in Hm. by destruct (bool_decide_reflect (qDeviceID req = bDeviceID ev)).
Qed.

(** C24. What a viewer receives was allowed: every envelope waiting for a session
    in a room it joined, a join its token authorizes, comes from an event of
    the session's own realm and from a watch that a session of this realm
    installed with a token that authorizes the path of the watch; when the
    watch names no group, the event is of the device the path names. *)
Theorem channel_events_authorized w sid s topic j mem e :
  reachable w -> sessions w !! sid = Some s -> sRooms s !! topic = Some j -> mems w !! jMember j = Some mem ->
  e ∈ mailbox mem ->
  exists name we ev req tok path,
    topic = topic_of (sRealm s) name /\ AuthorizesChannel (sTok s) VerbJoin name = true /\
    e = envelope we ev /\ bRealm ev = sRealm s /\
    (jRoom j, we, req, sRealm s, tok) ∈ installed w /\ watch_entry req = Some we /\ watch_matches we ev = true /\
    watchAuthPath req = Ok path /\ AuthorizesChannel tok VerbWatch path = true /\
    (qGroupName req = [] -> evDeviceID e = qDeviceID req).
Proof.
  intros Hw%world_reachable_ok Hs Hj Hm He. destruct (ok_sessions _ Hw _ _ Hs) as (_ & Hjs & _).
  destruct (Hjs _ _ Hj) as [[(r & Hr & _ & Hrealm) (name & Hname & Hjoin)] (mem' & Hm' & Hroom)]. assert (mem' = mem) as -> by congruence.
  destruct (ok_mems _ Hw _ _ Hm) as [Hall _]. rewrite Forall_forall in Hall. rewrite Hroom in Hall.
  destruct (Hall e He) as (we & ev & t1 & rl1 & -> & Hmt & (req & rl2 & tok & t2 & path & Hin & (r2 & Hr2 & _ & Hrl2) & Hwe & Hp & Ha) & (r1 & Hr1 & _ & Hrl1) & Hev).
  assert (rl1 = sRealm s) as -> by congruence. assert (rl2 = sRealm s) as -> by congruence.
  exists name, we, ev, req, tok, path. split_and!; try done. intros Hg. by eapply device_watch_names_device.
Qed.

(** Conditions on long integers never hold on the socket: the bus carries them
    as [json.Number] or text, which no comparison knows, while the same
    condition of a stored trigger sees the integer. *)
Theorem longinteger_watch_never_matches `{JSONText} :
  (forall op k x, op <> Triggers.anyToken -> (- maxSafeInt <= x <= maxSafeInt)%Z ->
     Triggers.valueMatches op (bus_value (jsonable (Some (VScalar (SLong x))))) k = false) /\
  Triggers.valueMatches "=="%go (Some (VScalar (SLong 5))) (Triggers.KNumber (Float64.of_int 5)) = true.
Proof.
  split; [|vm_compute; reflexivity]. intros op k x Hop Hx. cbn [jsonable jsonable_value jsonable_scalar].
  destruct (Z.ltb_spec maxSafeInt x); [lia|]. destruct (Z.ltb_spec x (- maxSafeInt)); [lia|]. cbn [orb bus_value].
  unfold Triggers.valueMatches. rewrite bool_decide_eq_false_2 by done. cbn. repeat case_match; by simplify_eq.
Qed.

(** A frame survives the wire; an absent payload arrives as the empty object. *)
Theorem socket_frame_round_trip f :
  UnmarshalJSON (MarshalJSON f) =
    Ok (MkFrame (JoinRef f) (Ref f) (Topic f) (Event_ f) (Some (default (JObj ∅) (Payload f)))).
Proof. destruct f as [[jr|] [rf|] t ev pl]; reflexivity. Qed.

End Sessions.

(** ** Runs *)

(** Requests and triggers as short arrays. *)
#[local] Instance toy_channel_json : ChannelJSON := {|
  decode_watch t :=
    match t with JArr [JStr n; JStr d; JStr g; tr] => Some (MkWatch n d g (Some tr)) | _ => None end;
  decode_name t := match t with JStr n => n | _ => [] end;
  decode_shape t := match t with JArr [JStr i; JStr p] => Some (MkShape "data_trigger"%go i p [] []) | _ => None end;
  decode_condition t :=
    match t with
    | JArr [JStr i; JStr p] =>
        Some (Triggers.MkConfig "data_trigger"%go Triggers.OnIncomingData [] [] (Some i) (Some 1%Z) p Triggers.anyToken None)
    | _ => None
    end;
  encode_event _ := Some JNull |}.
#[local] Existing Instance Auth.plain_regexp.

Definition viewer : Token :=
  newToken (MkClaims None None (fun c =>
    match c with ClaimChannels => ["JOIN::room"%go; "WATCH::.*"%go] | _ => [] end)).
Definition frame (event : gostring) (payload : option jtoken) : Frame :=
  MkFrame (Some "1"%go) (Some "1"%go) (topic_of "test"%go "room"%go) event payload.
Definition watch_frame (device group : gostring) : Frame :=
  frame EventWatch (Some (JArr [JStr "w"%go; JStr device; JStr group; JArr [JStr "com.Sensor"%go; JStr "/v"%go]])).
Definition data_event (device : gostring) (v : jany) : Event :=
  MkBusEvent Triggers.OnIncomingData "test"%go device "com.Sensor"%go "/v"%go 1 [] [] ∅ v 7.

Fixpoint run (w : world) (ls : list label) : outcome :=
  match ls with [] => Next w | l :: ls => match step w l with Next w => run w ls | o => o end end.

Lemma world_run_reachable ls : forall w w', reachable w -> Forall label_ok ls -> run w ls = Next w' -> reachable w'.
Proof.
  induction ls as [|l ls IH]; intros w w' Hw Hok Hr; [by injection Hr as <-|]. cbn [run] in Hr.
  apply Forall_cons in Hok as [Hl Hok]. destruct (step w l) as [w1| |] eqn:E; [|done|done].
  eapply IH; [|done|exact Hr]. by eapply reach_step.
Qed.

Definition watched (device group from : gostring) : list label :=
  [Connect "test"%go viewer; Receive 0 (frame EventPhxJoin None); FinishJoin 0; Receive 0 (watch_frame device group);
   BusSend 0 (data_event from (AnyBool true)); Take 0 ["w"%go]; Fan 0].
Definition world_after (ls : list label) : world := match run init ls with Next w => w | _ => init end.

Lemma watched_ok device group from : Forall label_ok (watched device group from).
Proof. repeat constructor. apply (bool_decide_unpack _). vm_compute. exact I. Qed.

Definition is_next (o : outcome) : bool := match o with Next _ => true | _ => false end.
Lemma world_after_reachable ls : Forall label_ok ls -> is_next (run init ls) = true -> reachable (world_after ls).
Proof.
  intros Hok Hn. unfold world_after. destruct (run init ls) as [w| |] eqn:E; [|done|done]. by eapply world_run_reachable; [constructor| |].
Qed.
Lemma watched_reachable : reachable (world_after (watched "dev"%go [] "dev"%go)).
Proof. apply world_after_reachable; [apply watched_ok|]. vm_compute. reflexivity. Qed.
Lemma some_default {A} (o : option A) d : (match o with Some _ => true | None => false end) = true -> o = Some (default d o).
Proof. by destruct o. Qed.

Lemma channel_rooms_consistent_witness :
  map (fun m => (mOpen m, length (mailbox m))) (mems (world_after (watched "dev"%go [] "dev"%go))) = [(true, 1)] /\
  step (world_after (watched "dev"%go [] "dev"%go)) (Fan 0) <> Panic.
Proof.
  split; [vm_compute; reflexivity|].
  apply (channel_rooms_consistent (world_after (watched "dev"%go [] "dev"%go)) watched_reachable). exact I.
Defined.

Definition viewer_session : session := default (MkSession [] viewer ∅ None [] []) (sessions (world_after (watched "dev"%go [] "dev"%go)) !! 0).
Definition viewer_member : Member := default (MkMember 0 0 [] false 0) (mems (world_after (watched "dev"%go [] "dev"%go)) !! 0).
Definition viewer_envelope : SimpleEvent := MkEvent 7 "dev"%go "w"%go (IncomingDataEvent "com.Sensor"%go "/v"%go (AnyBool true)).

Lemma channel_events_authorized_witness :
  viewer_envelope ∈ mailbox viewer_member /\
  exists path tok, AuthorizesChannel tok VerbWatch path = true /\
    exists req, watchAuthPath req = Ok path /\ (qGroupName req = [] -> evDeviceID viewer_envelope = qDeviceID req).
Proof.
  split; [vm_compute; left|].
  destruct (channel_events_authorized (world_after (watched "dev"%go [] "dev"%go)) 0 viewer_session
    (topic_of "test"%go "room"%go) (MkJoined 0 0 (Some "1"%go)) viewer_member viewer_envelope)
    as (name & we & ev & req & tok & path & _ & _ & _ & _ & _ & _ & _ & Hp & Ha & Hd).
  - exact watched_reachable.
  - apply some_default. vm_compute. reflexivity.
  - vm_compute. reflexivity.
  - apply some_default. vm_compute. reflexivity.
  - vm_compute. left.
  - exists path, tok. split; [exact Ha|]. exists req. split; [exact Hp|exact Hd].
Defined.

(** A watch on a group sees every device of the realm: the group is part of
    the authorized path and of nothing else. *)
Theorem group_watch_unfiltered :
  watchAuthPath (MkWatch "w"%go [] "g"%go (Some (JArr [JStr "com.Sensor"%go; JStr "/v"%go]))) = Ok "groups/g/com.Sensor/v"%go /\
  (forall n d g t, watch_entry (MkWatch n d g t) = watch_entry (MkWatch n d [] t)) /\
  map (fun m => map evDeviceID (mailbox m)) (mems (world_after (watched [] "g"%go "stranger"%go))) = [["stranger"%go]].
Proof. split_and!; [vm_compute; reflexivity|done|vm_compute; reflexivity]. Qed.

(** A session can join a room that is already dead: when the last member
    leaves between the lookup of the room and the new member's registration,
    the member is in a room that is retired, gets no more events, and is not
    replaced by the next join of the topic. *)
Definition join_meets_leave : list label :=
  [Connect "test"%go viewer; Connect "test"%go viewer; Receive 0 (frame EventPhxJoin None); FinishJoin 0;
   Receive 1 (frame EventPhxJoin None); Receive 0 (frame EventPhxLeave None); FinishJoin 1].

Theorem joined_dead_room :
  let w := world_after join_meets_leave in
  topics w = ∅ /\ map retired (rooms w) = [true] /\
  map (fun s => (fun j => jRoom j) <$> (sRooms s !! topic_of "test"%go "room"%go)) (sessions w) = [None; Some 0] /\
  (forall ev, step w (BusSend 0 ev) = Disabled).
Proof. cbv zeta. split_and!; [vm_compute; reflexivity..|]. intros ev. vm_compute. reflexivity. Qed.

End Channels.
