(* ===== verification/Query.v ===== *)
(** * Reading data

    [internal/appengine/data.go] and [downsample.go]: reading a datastream or
    the properties of an interface, downsampling, and the response formats;
    and the query parameters of [internal/appengine/http.go]. The answers of
    the store are an argument. *)

From stdpp Require Import sorting.
From S2P Require Import Prelude GoStrings SchemaTypes EndpointTrie Compile PayloadValue PayloadJson Rows ByteOrder.

Module Query.
Import Schema Trie Compile Payload Json Rows ByteOrder.

(** ** Downsampling *)

Definition microsecond : Z := 1000.

(** Durations are 64-bit nanoseconds. *)
Definition bucketFor (span points : Z) : Z :=
  if (points <=? 0)%Z then 0%Z
  else if (span <=? 0)%Z then 0%Z
  else
    let bucket := Z.quot span points in
    let bucket := if (wrap 64 (bucket * points) <? span)%Z then wrap 64 (bucket + 1) else bucket in
    if (bucket <? microsecond)%Z then microsecond else bucket.

(** ** Responses *)

(** What a handler marshals: a value, stored JSON, an instant, or structure. *)
Inductive out :=
| ONull
| OVal (v : jany)
| ORaw (j : jtoken)
| OTime (t : Z)
| OSample (v : out) (t : Z)
| OList (l : list out)
| OMap (m : gmap gostring out)
| OTable (rows : list (list out)) (columns : gmap gostring nat) (header : list gostring).

Section Render.
Context `{JSONText}.

(** The typed column of a row in its JSON form. *)
Definition individualValue (r : IndividualRow) : out :=
  match ValueDouble r, ValueInteger r, ValueLonginteger r, ValueBoolean r,
        ValueString r, ValueBinaryblob r, ValueDatetime r, ValueArray r with
  | Some v, _, _, _, _, _, _, _ => OVal (AnyFloat v)
  | _, Some v, _, _, _, _, _, _ => OVal (AnyInt v)
  | _, _, Some v, _, _, _, _, _ => OVal (AnyString (Strconv.Itoa v))
  | _, _, _, Some v, _, _, _, _ => OVal (AnyBool v)
  | _, _, _, _, Some v, _, _, _ => OVal (AnyString v)
  | _, _, _, _, _, Some v, _, _ => OVal (AnyString (EncodeBase64 v))
  | _, _, _, _, _, _, Some v, _ => OVal (AnyString (FormatRFC3339 v))
  | _, _, _, _, _, _, _, Some js => ORaw js
  | _, _, _, _, _, _, _, _ => ONull
  end.

Definition lastSegment (p : gostring) : gostring :=
  match Strings.LastIndexByte p "/" with Some i => drop (S i) p | None => p end.

Definition renderIndividual (rows : list IndividualRow) (path format : gostring) : out :=
  if bool_decide (format = "table"%go) then
    let name := lastSegment path in
    OTable (map (fun r => [OTime (rTS r); individualValue r]) rows)
      (<[name := 1]> {["timestamp"%go := 0]}) ["timestamp"%go; name]
  else if bool_decide (format = "disjoint_tables"%go) then
    OMap {["value"%go := OList (map (fun r => OList [individualValue r; OTime (rTS r)]) rows)]}
  else OList (map (fun r => OSample (individualValue r) (rTS r)) rows).

(** A document; a missing member is nil. *)
Definition document : Type := gmap gostring jtoken.
Definition member (d : document) (name : gostring) : out :=
  match d !! name with Some j => ORaw j | None => ONull end.

(** The columns of a table: the members of the first document and the
    timestamp, sorted. *)
Definition table_header (first : document) : list gostring :=
  sort_bytes (elements ({["timestamp"%go]} ∪ dom first)).

(** A later name replaces an earlier one, as in the loop that fills the map. *)
Fixpoint index_columns (i : nat) (header : list gostring) (m : gmap gostring nat) : gmap gostring nat :=
  match header with [] => m | n :: header => index_columns (S i) header (<[n := i]> m) end.

Definition table_row (header : list gostring) (d : document) (ts : Z) : list out :=
  map (fun name => if bool_decide (name = "timestamp"%go) then OTime ts else member d name) header.

Definition renderObject (docs : list (document * Z)) (format : gostring) : out :=
  match docs with
  | [] => ONull (* not reached: [docs[0]] would be out of range *)
  | (first, _) :: _ =>
      if bool_decide (format = "table"%go) then
        let header := table_header first in
        OTable (map (fun x => table_row header x.1 x.2) docs) (index_columns 0 header ∅) header
      else if bool_decide (format = "disjoint_tables"%go) then
        OMap (map_imap (fun name _ => Some (OList (map (fun x => OList [member x.1 name; OTime x.2]) docs))) first)
      else OList (map (fun x => OMap (<["timestamp"%go := OTime x.2]> (ORaw <$> x.1))) docs)
  end.

(** ** Big integers *)

Definition maxSafeJSONInteger : Z := 9007199254740991.

Record QueryOpts := MkOpts {
  Since : option Z; SinceAfter : option Z; To : option Z; Limit : Z; Descending : bool; DownsamplePoints : Z;
  Format : gostring; DownsampleKey : gostring; RetrieveMetadata : bool;
  AllowBigIntegers : option bool; AllowSafeBigIntegers : option bool }.

Definition bigint_leaf (opts : QueryOpts) (j : jtoken) : jtoken :=
  match j with
  | JNum n =>
      match Strconv.ParseInt n with
      | Err _ => JStr n
      | Ok i =>
          if bool_decide (AllowBigIntegers opts = Some false) then JStr n
          else if bool_decide (AllowSafeBigIntegers opts = Some true) then
            if (maxSafeJSONInteger <? i)%Z || (i <? - maxSafeJSONInteger)%Z then JStr n else JNum n
          else JNum n
      end
  | j => j
  end.

Definition applyBigIntegerOpts (opts : QueryOpts) (colTypes : gmap gostring ValueType) (d : document) : document :=
  map_imap (fun name j => Some (if bool_decide (colTypes !! name = Some LongInteger) then bigint_leaf opts j else j)) d.

End Render.

(** ** The nested tree of an interface *)

Inductive tree (V : Type) := Leaf (v : V) | Node (m : gmap gostring (tree V)).
Arguments Leaf {V} v.
Arguments Node {V} m.

Fixpoint nest_insert {V} (segs : list gostring) (leaf : V) (m : gmap gostring (tree V)) : gmap gostring (tree V) :=
  match segs with
  | [] => m
  | [seg] => <[seg := Leaf leaf]> m
  | seg :: rest =>
      let child := match m !! seg with Some (Node c) => c | _ => ∅ end in
      <[seg := Node (nest_insert rest leaf child)]> m
  end.

Definition path_segs (p : gostring) : list gostring :=
  Strings.Split (match Strings.CutPrefix p "/"%go with Some r => r | None => p end) "/".

(** The leaves in the order the map iteration gives them. *)
Definition nestTree {V} (leaves : list (gostring * V)) : gmap gostring (tree V) :=
  foldl (fun m x => nest_insert (path_segs x.1) x.2 m) ∅ leaves.

(** ** Reading *)

Inductive query_error := NotFound | PathNotFound | Validation (msg : gostring) | BadBucket | BadResolution | StoreFailed | BadDocument.

Record SeriesQuery := MkSeries {
  qPath : gostring; qSince : option Z; qSinceAfter : option Z; qTo : option Z; qLimit : Z; qDescending : bool }.

(** What the store answers for the resolved interface; points are averages. *)
Record reads := MkReads {
  rdSnapshot : result query_error (list IndividualRow);
  rdSpan : SeriesQuery -> result query_error (option (Z * Z));
  rdLTTB : SeriesQuery -> Z -> result query_error (list (Z * Z));
  rdBuckets : SeriesQuery -> Z -> result query_error (list (Z * Z));
  rdObjects : SeriesQuery -> result query_error (list ObjectRow);
  rdSeries : SeriesQuery -> result query_error (list IndividualRow);
  rdProperty : gostring -> result query_error jtoken;
  rdProperties : result query_error (list (gostring * jtoken));
  HasToolkitLTTB : bool }.

(** The guards of the store's downsampling. *)
Definition Downsample (rd : reads) (q : SeriesQuery) (bucket : Z) : result query_error (list (Z * Z)) :=
  if (bucket <=? 0)%Z then Err BadBucket else rdBuckets rd q bucket.
Definition DownsampleLTTB (rd : reads) (q : SeriesQuery) (points : Z) : result query_error (list (Z * Z)) :=
  if (points <? 3)%Z then Err BadResolution else rdLTTB rd q points.

Definition point_samples (points : list (Z * Z)) : out := OList (map (fun p => OSample (OVal (AnyFloat p.2)) p.1) points).

(** The parts of a resolved interface: object aggregation, properties, and the
    types of its columns, re-parsed from the stored definition. *)
Record resolved := MkResolved { isObject : bool; isProperties : bool; columnTypes : option (gmap gostring ValueType) }.

Section Reading.
Context `{JSONText}.

Definition object_documents (rows : list ObjectRow) : option (list (document * Z)) :=
  mapM (fun r => match oValue r with JObj m => Some (m, oTS r) | JNull => Some (∅, oTS r) | _ => None end) rows.

(** [last.Sub(first)], saturated. *)
Definition time_sub (last first : Z) : Z := Z.max int64_min (Z.min int64_max (last - first)).

Fixpoint as_tree (t : tree out) : out :=
  match t with Leaf v => v | Node m => OMap (as_tree <$> m) end.

Definition datastreamData (rd : reads) (r : resolved) (path : gostring) (opts : QueryOpts) : result query_error out :=
  if bool_decide (path = []) && (DownsamplePoints opts =? 0)%Z && negb (isObject r) then
    let? rows := rdSnapshot rd in
    Ok (OMap (as_tree <$> nestTree (map (fun x => (rPath x, OSample (individualValue x) (rTS x))) rows)))
  else
    let q := MkSeries path (Since opts) (SinceAfter opts) (To opts) (Limit opts) (Descending opts) in
    if (0 <? DownsamplePoints opts)%Z then
      if isObject r then Err (Validation "downsample_to is not supported on object-aggregated interfaces"%go)
      else if bool_decide (path = []) then Err (Validation "downsample_to requires an endpoint path"%go)
      else
        let? span := rdSpan rd q in
        match span with
        | None => Ok (OList [])
        | Some (first, last) =>
            if HasToolkitLTTB rd && (3 <=? DownsamplePoints opts)%Z then
              let? points := DownsampleLTTB rd q (DownsamplePoints opts) in Ok (point_samples points)
            else
              let bucket := bucketFor (time_sub last first) (DownsamplePoints opts) in
              let bucket := if (bucket <=? 0)%Z then microsecond else bucket in
              let? points := Downsample rd q bucket in Ok (point_samples points)
        end
    else if isObject r then
      let? rows := rdObjects rd q in
      match rows with
      | [] => if bool_decide (path = []) then Ok (OMap ∅) else Err PathNotFound
      | _ =>
          let? docs := or_err (object_documents rows) BadDocument in
          let? docs :=
            match AllowBigIntegers opts, AllowSafeBigIntegers opts with
            | None, None => Ok docs
            | _, _ =>
                let? types := or_err (columnTypes r) BadDocument in
                Ok (map (fun x => (applyBigIntegerOpts opts types x.1, x.2)) docs)
            end in
          Ok (renderObject docs (Format opts))
      end
    else
      let? rows := rdSeries rd q in Ok (renderIndividual rows path (Format opts)).

Definition propertiesData (rd : reads) (path : gostring) : result query_error out :=
  if negb (bool_decide (path = [])) then let? v := rdProperty rd path in Ok (ORaw v)
  else
    let? props := rdProperties rd in
    Ok (OMap (as_tree <$> nestTree (map (fun p => (p.1, ORaw p.2)) props))).

(** [GetData] and [readResolved], after the interface was resolved. *)
Definition GetData (rd : reads) (r : resolved) (path : gostring) (opts : QueryOpts) : result query_error out :=
  if isProperties r then
    if (0 <? DownsamplePoints opts)%Z then Err (Validation "downsample_to is not supported on properties interfaces"%go)
    else propertiesData rd path
  else datastreamData rd r path opts.

(** ** Query parameters *)

Definition fieldErrs : Type := gmap gostring (list gostring).
Definition addf (fe : fieldErrs) (field msg : gostring) : fieldErrs := <[field := default [] (fe !! field) ++ [msg]]> fe.

Definition time_param (get : gostring -> gostring) (name : gostring) (fe : fieldErrs) : option Z * fieldErrs :=
  match get name with
  | [] => (None, fe)
  | v => match ParseRFC3339 v with Some t => (Some t, fe) | None => (None, addf fe name "is invalid"%go) end
  end.

Definition int_param (get : gostring -> gostring) (name : gostring) (least : Z) (msg : gostring) (fe : fieldErrs) : Z * fieldErrs :=
  match get name with
  | [] => (0%Z, fe)
  | v =>
      match Strconv.Atoi v with
      | Err _ => (0%Z, addf fe name "is invalid"%go)
      | Ok n => if (n <? least)%Z then (0%Z, addf fe name msg) else (n, fe)
      end
  end.

Definition bool_param (get : gostring -> gostring) (name : gostring) (fe : fieldErrs) : option bool * fieldErrs :=
  match get name with
  | [] => (None, fe)
  | v =>
      if bool_decide (v = "true"%go) then (Some true, fe)
      else if bool_decide (v = "false"%go) then (Some false, fe)
      else (None, addf fe name "is invalid"%go)
  end.

Definition formats : list gostring := ["structured"%go; "table"%go; "disjoint_tables"%go].
Definition format_param (get : gostring -> gostring) (fe : fieldErrs) : gostring * fieldErrs :=
  match get "format"%go with
  | [] => ("structured"%go, fe)
  | v => if bool_decide (v ∈ formats) then (v, fe) else ("structured"%go, addf fe "format"%go "is invalid"%go)
  end.

Definition parseQueryOpts (get : gostring -> gostring) : result fieldErrs QueryOpts :=
  let '(since, fe) := time_param get "since"%go ∅ in
  let '(after, fe) := time_param get "since_after"%go fe in
  let '(to, fe) := time_param get "to"%go fe in
  let fe := if negb (bool_decide (get "since"%go = [])) && negb (bool_decide (get "since_after"%go = []))
            then addf fe "since_after"%go "conflicts already set parameter"%go else fe in
  let '(limit, fe) := int_param get "limit"%go 0 "must be greater than or equal to 0"%go fe in
  let '(points, fe) := int_param get "downsample_to"%go 3 "must be greater than 2"%go fe in
  let '(format, fe) := format_param get fe in
  let '(big, fe) := bool_param get "allow_bigintegers"%go fe in
  let '(safe, fe) := bool_param get "allow_safe_bigintegers"%go fe in
  let '(meta, fe) := bool_param get "retrieve_metadata"%go fe in
  let opts := MkOpts since after to limit (negb (bool_decide (get "sort"%go = "ascending"%go))) points format
                (get "downsample_key"%go) (default false meta) big safe in
  if bool_decide (fe = ∅) then Ok opts else Err fe.

End Reading.

(** ** Buckets *)

(** The number of the bucket an instant falls in, from any origin. *)
Definition bucket_index (origin bucket t : Z) : Z := ((t - origin) / bucket)%Z.

Lemma bucketFor_spec span points :
  (0 < points <= int64_max)%Z -> (0 < span <= int64_max)%Z ->
  let b := bucketFor span points in
  (microsecond <= b <= Z.max microsecond span)%Z /\ (span <= b * points)%Z /\ (b = microsecond \/ ((b - 1) * points < span)%Z).
Proof.
  intros Hp Hs b. unfold b, bucketFor, microsecond. unfold int64_max in *. clear b.
  destruct (Z.leb_spec points 0); [lia|]. destruct (Z.leb_spec span 0); [lia|].
  rewrite Z.quot_div_nonneg by lia. set (q := (span / points)%Z).
  assert (q * points <= span < (q + 1) * points)%Z as Hq.
  { unfold q. pose proof (Z.div_mod span points ltac:(lia)). pose proof (Z.mod_pos_bound span points ltac:(lia)). nia. }
  assert (0 <= q <= span)%Z as Hq2 by nia.
  rewrite (wrap_small 64 (q * points)) by (simpl; nia).
  destruct (Z.ltb_spec (q * points) span).
  - assert (points <> 1)%Z by nia. assert (q + 1 <= span)%Z by nia. rewrite (wrap_small 64 (q + 1)) by (simpl; lia).
    destruct (Z.ltb_spec (q + 1) 1000); split_and!; first [lia|nia|right; nia].
  - destruct (Z.ltb_spec q 1000); split_and!; first [lia|nia|right; nia].
Qed.

(** The width chosen for a point count covers the span, by as little as the
    microsecond resolution allows; and however the buckets are aligned, the
    samples between the first and the last instant fall into at most one
    bucket more than was asked for. *)
Theorem downsample_bucket_bound span points origin first t last :
  (0 < points <= int64_max)%Z -> (0 < span <= int64_max)%Z -> (last - first = span)%Z -> (first <= t <= last)%Z ->
  let b := bucketFor span points in
  (microsecond <= b)%Z /\ (span <= b * points)%Z /\ (b = microsecond \/ ((b - 1) * points < span)%Z) /\
  (bucket_index origin b first <= bucket_index origin b t <= bucket_index origin b first + points)%Z.
Proof.
  intros Hp Hs Hd Ht b. destruct (bucketFor_spec span points Hp Hs) as ([Hb _] & Hc & Htight). fold b in Hb, Hc, Htight.
  unfold microsecond in Hb. split_and!; [exact Hb|done|done| |]; unfold bucket_index.
  - apply Z.div_le_mono; lia.
  - rewrite <- Z.div_add by lia. apply Z.div_le_mono; nia.
Qed.

(** The extra bucket happens: four samples asked down to three points stay
    four. *)
Theorem downsample_exceeds_points :
  bucketFor 3000000 3 = 1000000%Z /\
  map (bucket_index 0 (bucketFor 3000000 3)) [500000; 1500000; 2500000; 3500000]%Z = [0; 1; 2; 3]%Z.
Proof. split; vm_compute; reflexivity. Qed.

(** ** The tree *)

Fixpoint tree_at {V} (segs : list gostring) (m : gmap gostring (tree V)) : option (tree V) :=
  match segs with
  | [] => None
  | [seg] => m !! seg
  | seg :: rest => match m !! seg with Some (Node c) => tree_at rest c | _ => None end
  end.

Definition apart (s t : list gostring) : Prop := ~ s `prefix_of` t /\ ~ t `prefix_of` s.

Lemma apart_sym s t : apart s t -> apart t s.
Proof. intros [? ?]. by split. Qed.

Lemma apart_cons x y s t : apart (x :: s) (y :: t) -> x <> y \/ (x = y /\ apart s t).
Proof.
  intros [H1 H2]. destruct (decide (x = y)) as [->|]; [right|by left]. split; [done|].
  split; intros H; [apply H1|apply H2]; by apply prefix_cons.
Qed.

Lemma apart_nil_l t : ~ apart [] t.
Proof. intros [H _]. apply H, prefix_nil. Qed.

(** The insertion at a longer path descends into a node. *)
Lemma nest_insert_cons {V} (x : gostring) (rest : list gostring) (v : V) m :
  rest <> [] -> nest_insert (x :: rest) v m =
    <[x := Node (nest_insert rest v (match m !! x with Some (Node c) => c | _ => ∅ end))]> m.
Proof. by destruct rest. Qed.

Lemma nest_insert_comm {V} s t (v w : V) : forall m,
  apart s t -> nest_insert s v (nest_insert t w m) = nest_insert t w (nest_insert s v m).
Proof.
  revert t. induction s as [|x s IH]; intros [|y t] m Ha; try by destruct (apart_nil_l _ Ha).
  { by destruct (apart_nil_l _ (apart_sym _ _ Ha)). }
  destruct (apart_cons _ _ _ _ Ha) as [Hne|[-> Ha']].
  - assert (forall (z : gostring) (r : list gostring) (u : V) (mm : gmap gostring (tree V)),
      exists tr, nest_insert (z :: r) u mm = <[z := tr]> mm /\
        forall mm', mm' !! z = mm !! z -> nest_insert (z :: r) u mm' = <[z := tr]> mm') as Hform.
    { intros z r u mm. destruct r as [|r0 r]; [by exists (Leaf u)|]. eexists. split; [rewrite nest_insert_cons by done; reflexivity|].
      intros mm' E. rewrite nest_insert_cons by done. by rewrite E. }
    destruct (Hform x s v m) as (tx & Ex & Fx). destruct (Hform y t w m) as (ty & Ey & Fy). rewrite Ex, Ey.
    rewrite (Fx (<[y := ty]> m)) by (by apply lookup_insert_ne). rewrite (Fy (<[x := tx]> m)) by (by apply lookup_insert_ne).
    by apply insert_insert_ne.
  - assert (s <> []) as Hs. { intros ->. by apply (apart_nil_l _ Ha'). }
    assert (t <> []) as Ht. { intros ->. by apply (apart_nil_l _ (apart_sym _ _ Ha')). }
    rewrite !(nest_insert_cons y) by done. rewrite !lookup_insert_eq, !insert_insert_eq. by rewrite IH.
Qed.

Lemma tree_at_cons {V} (x : gostring) (rest : list gostring) (m : gmap gostring (tree V)) :
  rest <> [] -> tree_at (x :: rest) m = match m !! x with Some (Node c) => tree_at rest c | _ => None end.
Proof. by destruct rest. Qed.

Lemma tree_at_empty {V} segs : tree_at segs (∅ : gmap gostring (tree V)) = None.
Proof. destruct segs as [|x [|y segs]]; simpl; [done|apply lookup_empty|by rewrite lookup_empty]. Qed.

Lemma tree_at_insert {V} t (w : V) : forall s v m,
  t <> [] -> tree_at s (nest_insert t w m) = Some (Leaf v) <->
    (s = t /\ v = w) \/ (apart s t /\ tree_at s m = Some (Leaf v)).
Proof.
  induction t as [|y t IH]; intros s v m Hne; [done|]. destruct s as [|x s].
  { cbn. split; [done|]. intros [[? _]|[[H _] _]]; [done|]. destruct H. apply prefix_nil. }
  destruct (decide (t = [])) as [->|Ht].
  - cbn [nest_insert]. destruct (decide (x = y)) as [->|Hxy].
    + split.
      * destruct s as [|z s]; [cbn; rewrite lookup_insert_eq; intros [= ->]; by left|].
        rewrite tree_at_cons by done. by rewrite lookup_insert_eq.
      * intros [[[= ->] ->]|[[_ H] _]]; [cbn; by rewrite lookup_insert_eq|]. destruct H. apply prefix_cons, prefix_nil.
    + split.
      * intros H. right. split; [split; intros [k Hk]; by injection Hk|]. destruct (decide (s = [])) as [->|Hs].
        -- cbn in *. by rewrite lookup_insert_ne in H.
        -- rewrite tree_at_cons in * by done. by rewrite lookup_insert_ne in H.
      * intros [[[= ? _] _]|[_ H]]; [done|]. destruct (decide (s = [])) as [->|Hs].
        -- cbn in *. by rewrite lookup_insert_ne.
        -- rewrite tree_at_cons in * by done. by rewrite lookup_insert_ne.
  - rewrite nest_insert_cons by done. destruct (decide (x = y)) as [->|Hxy].
    + destruct (decide (s = [])) as [->|Hs].
      * cbn. rewrite lookup_insert_eq. split; [done|]. intros [[[= <-] _]|[[H _] _]]; [done|]. destruct H. apply prefix_cons, prefix_nil.
      * rewrite tree_at_cons by done. rewrite lookup_insert_eq, IH by done. split.
        -- intros [[-> ->]|[Ha Hm]]; [by left|]. right. split.
           ++ destruct Ha as [H1 H2]. split; intros H%prefix_cons_inv_2; [by apply H1|by apply H2].
           ++ rewrite tree_at_cons by done. destruct (m !! y) as [[]|]; [by rewrite tree_at_empty in Hm|done|by rewrite tree_at_empty in Hm].
        -- intros [[[= ->] ->]|[Ha Hm]]; [by left|]. right. destruct (apart_cons _ _ _ _ Ha) as [?|[_ Ha']]; [done|].
           split; [done|]. rewrite tree_at_cons in Hm by done. by destruct (m !! y) as [[]|].
    + split.
      * intros H. right. split; [split; intros [k Hk]; by injection Hk|]. destruct (decide (s = [])) as [->|Hs].
        -- cbn in *. by rewrite lookup_insert_ne in H.
        -- rewrite tree_at_cons in * by done. by rewrite lookup_insert_ne in H.
      * intros [[[= ? _] _]|[_ H]]; [done|]. destruct (decide (s = [])) as [->|Hs].
        -- cbn in *. by rewrite lookup_insert_ne.
        -- rewrite tree_at_cons in * by done. by rewrite lookup_insert_ne.
Qed.

Definition separate {V} (ps : list (gostring * V)) : Prop :=
  NoDup ps.*1 /\ forall x y, x ∈ ps -> y ∈ ps -> x.1 <> y.1 -> apart (path_segs x.1) (path_segs y.1).

Lemma separate_perm {V} (ps ps' : list (gostring * V)) : ps ≡ₚ ps' -> separate ps -> separate ps'.
Proof.
  intros Hp [Hnd Ha]. split; [by rewrite <- Hp|]. intros x y Hx Hy. apply Ha; by rewrite Hp.
Qed.

Lemma nest_perm {V} (ps ps' : list (gostring * V)) :
  ps ≡ₚ ps' -> separate ps -> forall m,
  foldl (fun m x => nest_insert (path_segs x.1) x.2 m) m ps = foldl (fun m x => nest_insert (path_segs x.1) x.2 m) m ps'.
Proof.
  induction 1 as [|x ps ps' Hp IH|x y ps|ps1 ps2 ps3 Hp1 IH1 Hp2 IH2]; intros Hs m.
  - done.
  - cbn [foldl]. apply IH. destruct Hs as [Hnd Ha]. split; [by apply NoDup_cons in Hnd as [_ ?]|].
    intros a b Hin1 Hin2. apply Ha; by right.
  - cbn [foldl]. rewrite nest_insert_comm; [done|]. destruct Hs as [Hnd Ha]. apply apart_sym. apply Ha; [left|right; left|].
    apply NoDup_cons in Hnd as [Hn _]. cbn in Hn. intros E. apply Hn. rewrite E. left.
  - rewrite IH1 by done. apply IH2. by eapply separate_perm.
Qed.

Lemma nest_leaves {V} (ps : list (gostring * V)) s v :
  separate ps -> tree_at s (nestTree ps) = Some (Leaf v) <-> exists p, (p, v) ∈ ps /\ path_segs p = s.
Proof.
  induction ps as [|[p w] ps IH] using rev_ind; intros Hs.
  - unfold nestTree. cbn. rewrite tree_at_empty. split; [done|]. by intros (p & Hp%elem_of_nil & _).
  - assert (separate ps) as Hs'.
    { destruct Hs as [Hnd Ha]. rewrite fmap_app in Hnd. apply NoDup_app in Hnd as (Hnd & _ & _). split; [done|].
      intros x y Hx Hy. apply Ha; apply elem_of_app; by left. }
    unfold nestTree. rewrite foldl_app. cbn [foldl fst snd]. fold (nestTree ps).
    rewrite tree_at_insert by apply Strings.Split_nonempty. rewrite IH by done. split.
    + intros [[-> ->]|[_ (q & Hq & <-)]]; [exists p; split; [|done]; apply elem_of_app; right; by left|].
      exists q. split; [|done]. apply elem_of_app. by left.
    + intros (q & [Hq|Hq%list_elem_of_singleton]%elem_of_app & <-); [|injection Hq as -> ->; by left].
      right. split; [|by exists q]. destruct Hs as [Hnd Ha].
      apply (Ha (q, v) (p, w)); [apply elem_of_app; by left|apply elem_of_app; right; by left|].
      cbn. intros ->. rewrite fmap_app in Hnd. apply NoDup_app in Hnd as (_ & Hd & _). apply (Hd p); [|by left].
      by apply (list_elem_of_fmap_2 fst _ (p, v)).
Qed.

(** The interface tree is exact: for paths none of which continues another,
    the tree does not depend on the order in which they are visited, and it
    has a leaf at a path exactly for each of them. *)
Theorem nest_tree_exact {V} (ps ps' : list (gostring * V)) :
  separate ps -> ps ≡ₚ ps' ->
  nestTree ps' = nestTree ps /\
  forall s v, tree_at s (nestTree ps) = Some (Leaf v) <-> exists p, (p, v) ∈ ps /\ path_segs p = s.
Proof.
  intros Hs Hp. split; [|intros s v; by apply nest_leaves]. symmetry. by apply nest_perm.
Qed.

(** When a path continues another, which of the two is shown depends on the
    order the map happens to be walked in. *)
Theorem nest_tree_order_matters :
  tree_at ["a"%go] (nestTree [("/a"%go, 1); ("/a/b"%go, 2)]) <> tree_at ["a"%go] (nestTree [("/a/b"%go, 2); ("/a"%go, 1)]).
Proof. vm_compute. discriminate. Qed.

(** ** Tables *)

Lemma index_columns_spec header : forall i m k j,
  NoDup header -> index_columns i header m !! k = Some j <->
    (exists j', j = i + j' /\ header !! j' = Some k) \/ (k ∉ header /\ m !! k = Some j).
Proof.
  induction header as [|n header IH]; intros i m k j Hnd; cbn [index_columns].
  - split; [intros H; right; split; [apply not_elem_of_nil|done]|]. intros [(j' & _ & H)|[_ H]]; done.
  - apply NoDup_cons in Hnd as [Hn Hnd]. rewrite IH by done. split.
    + intros [(j' & -> & H)|[H1 H2]]; [left; exists (S j'); split; [lia|done]|].
      apply lookup_insert_Some in H2 as [[<- <-]|[Hne H2]]; [left; exists 0; split; [lia|done]|].
      right. split; [|done]. apply not_elem_of_cons. by split.
    + intros [([|j'] & -> & H)|[H1 H2]].
      * injection H as ->. right. split; [done|]. rewrite lookup_insert_eq. f_equal. lia.
      * left. exists j'. split; [lia|done].
      * apply not_elem_of_cons in H1 as [H1 H1']. right. split; [done|]. by rewrite lookup_insert_ne.
Qed.

Lemma table_header_NoDup d : NoDup (table_header d).
Proof. unfold table_header. rewrite sort_bytes_perm. apply NoDup_elements. Qed.

(** A table lines up: the columns are the members of the first document and
    the timestamp, in increasing order and without repetition; the metadata
    gives each column its position; and every row holds, column by column, the
    instant and the members of its own document. *)
Theorem object_table_aligned docs first ts0 rest :
  docs = (first, ts0) :: rest ->
  exists rows columns header, renderObject docs "table"%go = OTable rows columns header /\
    StronglySorted bytes_lt header /\ (forall k, k ∈ header <-> k = "timestamp"%go \/ k ∈ dom first) /\
    (forall k j, columns !! k = Some j <-> header !! j = Some k) /\ length rows = length docs /\
    (forall i d ts j k, docs !! i = Some (d, ts) -> header !! j = Some k ->
       rows !! i ≫= (fun row => row !! j) = Some (if bool_decide (k = "timestamp"%go) then OTime ts else member d k)).
Proof.
  intros ->. eexists _, _, _. split; [reflexivity|]. split_and!.
  - apply sorted_strict; [apply sort_bytes_sorted|apply table_header_NoDup].
  - intros k. unfold table_header. rewrite sort_bytes_perm, elem_of_elements, elem_of_union, elem_of_singleton. done.
  - intros k j. rewrite index_columns_spec by apply table_header_NoDup. rewrite lookup_empty. split.
    + by intros [(j' & -> & H)|[_ H]].
    + intros H. left. by exists j.
  - by rewrite length_map.
  - intros i d ts j k Hd Hk. rewrite lookup_map, Hd. cbn. unfold table_row. by rewrite lookup_map, Hk.
Qed.

(** ** Accepted queries *)

Section Accepted.
Context `{JSONText}.

Lemma addf_nonempty fe f m : addf fe f m <> ∅.
Proof. unfold addf. apply insert_non_empty. Qed.

Lemma time_param_ok get name fe t :
  time_param get name fe = (t, ∅) -> fe = ∅ /\ (t = None <-> get name = []) /\ (forall x, t = Some x -> ParseRFC3339 (get name) = Some x).
Proof.
  unfold time_param. destruct (get name) as [|c v]; [intros [= <- <-]; done|].
  destruct (ParseRFC3339 (c :: v)) as [x|] eqn:E; [|intros [= _ Hne]; by destruct (addf_nonempty _ _ _ Hne)].
  intros [= <- <-]. split_and!; [done|done|]. intros y [= <-]. done.
Qed.
Lemma int_param_ok get name least msg fe n :
  int_param get name least msg fe = (n, ∅) -> fe = ∅ /\ (n = 0%Z \/ (least <= n)%Z) /\ in_int64 n.
Proof.
  assert (in_int64 0) as H00 by (unfold in_int64, int64_min, int64_max; lia).
  unfold int_param. destruct (get name) as [|c v]; [intros [= <- <-]; split_and!; [done|by left|done]|].
  unfold Strconv.Atoi. destruct (Strconv.ParseInt (c :: v)) as [k|] eqn:E; [|intros [= _ Hne]; by destruct (addf_nonempty _ _ _ Hne)].
  destruct (Z.ltb_spec k least); [intros [= _ Hne']; by destruct (addf_nonempty _ _ _ Hne')|].
  intros [= <- <-]. split_and!; [done|by right|by eapply Strconv.ParseInt_range].
Qed.
Lemma bool_param_ok get name fe b : bool_param get name fe = (b, ∅) -> fe = ∅.
Proof.
  unfold bool_param. destruct (get name); [by intros [= _ ->]|]. repeat case_match; try (by intros [= _ ->]).
  intros [= _ Hne]. by destruct (addf_nonempty _ _ _ Hne).
Qed.
Lemma format_param_ok get fe f : format_param get fe = (f, ∅) -> fe = ∅ /\ f ∈ formats.
Proof.
  unfold format_param. destruct (get "format"%go) as [|c v]; [intros [= <- ->]; split; [done|left]|].
  destruct (bool_decide_reflect (c :: v ∈ formats)) as [Hin|]; [by intros [= <- ->]|].
  intros [= _ Hne]. by destruct (addf_nonempty _ _ _ Hne).
Qed.

Lemma parse_query_spec get opts :
  parseQueryOpts get = Ok opts ->
  (0 <= Limit opts <= int64_max)%Z /\ (DownsamplePoints opts = 0 \/ 3 <= DownsamplePoints opts <= int64_max)%Z /\
  Format opts ∈ formats /\ (Since opts = None \/ SinceAfter opts = None).
Proof.
  unfold parseQueryOpts. destruct (time_param get "since"%go ∅) as [since f1] eqn:E1.
  destruct (time_param get "since_after"%go f1) as [after f2] eqn:E2. destruct (time_param get "to"%go f2) as [to f3] eqn:E3.
  set (f4 := if _ && _ then _ else _). destruct (int_param get "limit"%go 0 _ f4) as [limit f5] eqn:E5.
  destruct (int_param get "downsample_to"%go 3 _ f5) as [points f6] eqn:E6. destruct (format_param get f6) as [fmt f7] eqn:E7.
  destruct (bool_param get "allow_bigintegers"%go f7) as [big f8] eqn:E8.
  destruct (bool_param get "allow_safe_bigintegers"%go f8) as [safe f9] eqn:E9.
  destruct (bool_param get "retrieve_metadata"%go f9) as [meta f10] eqn:E10.
  destruct (bool_decide_reflect (f10 = ∅)) as [->|]; [|done]. intros [= <-]. cbn [Limit DownsamplePoints Format Since SinceAfter].
  apply bool_param_ok in E10 as ->. apply bool_param_ok in E9 as ->. apply bool_param_ok in E8 as ->.
  apply format_param_ok in E7 as [-> Hf]. apply int_param_ok in E6 as (-> & Hp & Hpr). apply int_param_ok in E5 as (E4 & Hl & Hlr).
  unfold in_int64, int64_min in Hpr, Hlr. split_and!; [lia|lia|lia|done|].
  subst f4. destruct (bool_decide_reflect (get "since"%go = [])) as [Hs|Hs]; cbn [negb andb] in E4.
  - left. rewrite E4 in E3. apply time_param_ok in E3 as (-> & _). apply time_param_ok in E2 as (-> & _). by apply time_param_ok in E1 as (_ & -> & _).
  - destruct (bool_decide_reflect (get "since_after"%go = [])) as [Ha|Ha]; cbn [negb] in E4; [|by destruct (addf_nonempty _ _ _ E4)].
    right. rewrite E4 in E3. apply time_param_ok in E3 as (-> & _). by apply time_param_ok in E2 as (_ & -> & _).
Qed.

(** The store itself never gives the errors of its guards. *)
Definition plain_error {A} (r : result query_error A) : Prop := r <> Err BadBucket /\ r <> Err BadResolution.
Record plain_reads (rd : reads) : Prop := {
  pr_snapshot : plain_error (rdSnapshot rd);
  pr_span q : plain_error (rdSpan rd q);
  pr_lttb q n : plain_error (rdLTTB rd q n);
  pr_buckets q b : plain_error (rdBuckets rd q b);
  pr_objects q : plain_error (rdObjects rd q);
  pr_series q : plain_error (rdSeries rd q);
  pr_property p : plain_error (rdProperty rd p);
  pr_properties : plain_error (rdProperties rd) }.

Lemma query_plain_bind {A B} (r : result query_error A) (k : A -> result query_error B) :
  plain_error r -> (forall a, r = Ok a -> plain_error (k a)) -> plain_error (bindR r k).
Proof. intros Hr Hk. destruct r as [a|e]; [by apply Hk|]. destruct Hr as [H1 H2]. split; intros [= ->]; [by apply H1|by apply H2]. Qed.
Lemma query_plain_ok {A} (a : A) : plain_error (Ok a).
Proof. done. Qed.

Lemma or_err_plain {A} (o : option A) : plain_error (or_err o BadDocument).
Proof. by destruct o. Qed.

Lemma datastream_plain rd r path opts :
  plain_reads rd -> (DownsamplePoints opts = 0 \/ 3 <= DownsamplePoints opts)%Z -> plain_error (datastreamData rd r path opts).
Proof.
  intros Hrd Hp. unfold datastreamData. case_match; [apply query_plain_bind; [apply Hrd|done]|].
  destruct (Z.ltb_spec 0 (DownsamplePoints opts)).
  - destruct (isObject r); [done|]. case_match; [done|]. apply query_plain_bind; [apply Hrd|]. intros [[first last]|] _; [|done].
    case_match; apply query_plain_bind; try done.
    + unfold DownsampleLTTB. destruct (Z.ltb_spec (DownsamplePoints opts) 3); [lia|apply Hrd].
    + unfold Downsample. destruct (Z.leb_spec (bucketFor (time_sub last first) (DownsamplePoints opts)) 0) as [Hb|Hb].
      * apply Hrd.
      * destruct (Z.leb_spec (bucketFor (time_sub last first) (DownsamplePoints opts)) 0); [lia|apply Hrd].
  - destruct (isObject r); [|apply query_plain_bind; [apply Hrd|done]]. apply query_plain_bind; [apply Hrd|].
    intros [|row rows] _; [by case_match|]. apply query_plain_bind; [apply or_err_plain|]. intros docs _. apply query_plain_bind; [|done].
    repeat case_match; try done; (apply query_plain_bind; [apply or_err_plain|done]).
Qed.

(** An accepted query is in range, and reading with it never runs into the
    guards of the store: the number of points asked for is none or at least
    three, and the bucket width is positive even for a single sample. *)
Theorem accepted_query_in_range get opts rd r path :
  parseQueryOpts get = Ok opts -> plain_reads rd ->
  (0 <= Limit opts)%Z /\ (DownsamplePoints opts = 0 \/ 3 <= DownsamplePoints opts)%Z /\ Format opts ∈ formats /\
  (Since opts = None \/ SinceAfter opts = None) /\
  GetData rd r path opts <> Err BadBucket /\ GetData rd r path opts <> Err BadResolution.
Proof.
  intros (Hl & Hp & Hf & Hs)%parse_query_spec Hrd.
  assert (DownsamplePoints opts = 0 \/ 3 <= DownsamplePoints opts)%Z as Hp' by lia.
  assert (plain_error (GetData rd r path opts)) as [H1 H2]; [|split_and!; try done; lia].
  unfold GetData. destruct (isProperties r); [|by apply datastream_plain]. case_match; [done|]. unfold propertiesData.
  case_match; (apply query_plain_bind; [apply Hrd|done]).
Qed.

(** ** What was written is what is read *)

(** The rendering of a stored value: long integers as text, arrays as the
    JSON they are stored as. *)
Definition read_form (v : Value) : option out :=
  match v with
  | VScalar (SLong x) => Some (OVal (AnyString (Strconv.Itoa x)))
  | VScalar s => Some (OVal (jsonable_scalar s))
  | VSlice a => ORaw <$> Marshal (jsonableSlice a)
  | VObject _ => None
  end.

(** A sample reads back as the value the device sent: the row an accepted
    individual operation is stored as renders to the form of that value. *)
Theorem sample_reads_back op m v row :
  Mapping_ op = Some m -> Value_ op = Some v -> valid_value (cValueType m) v ->
  individualRow op = Ok row -> read_form v = Some (individualValue row) /\ rTS row = TS op /\ rPath row = Path op.
Proof.
  intros Hm Hv Hval. unfold individualRow. rewrite Hm, Hv. destruct (cValueType m) eqn:Et; cbn [IsArray]; intros Hr;
    destruct v as [[]|[]|o]; cbn in Hr; try done; simplify_eq; try (by split_and!; cbn); cbn in Hval; try (by destruct Hval);
    repeat case_match; simplify_eq; cbn in *; try done; split_and!; try done; by simplify_option_eq.
Qed.

End Accepted.

(** ** Witnesses *)

Lemma downsample_bucket_bound_witness :
  let b := bucketFor 10000001 4 in b = 2500001%Z /\ (bucket_index 3 b 20000001 <= bucket_index 3 b 10000000 + 4)%Z.
Proof.
  split; [vm_compute; reflexivity|].
  apply (downsample_bucket_bound 10000001 4 3 10000000 20000001 20000001); unfold int64_max; lia.
Defined.

Definition sample_paths : list (gostring * nat) := [("/a/x"%go, 1); ("/a/y"%go, 2); ("/b"%go, 3)].

Lemma sample_separate : separate sample_paths.
Proof.
  split; [apply (bool_decide_unpack _); vm_compute; exact I|].
  assert (forall x, x ∈ sample_paths -> x = ("/a/x"%go, 1) \/ x = ("/a/y"%go, 2) \/ x = ("/b"%go, 3)) as Hin by set_solver.
  intros x y [ -> | [ -> | -> ] ]%Hin [ -> | [ -> | -> ] ]%Hin Hne; try done; split; intros [k Hk]; vm_compute in Hk; discriminate Hk.
Qed.

Lemma nest_tree_exact_witness :
  nestTree [("/b"%go, 3); ("/a/y"%go, 2); ("/a/x"%go, 1)] = nestTree sample_paths /\
  tree_at ["a"%go; "y"%go] (nestTree sample_paths) = Some (Leaf 2).
Proof.
  destruct (nest_tree_exact sample_paths [("/b"%go, 3); ("/a/y"%go, 2); ("/a/x"%go, 1)]) as [H1 H2].
  - exact sample_separate.
  - exact (Permutation_rev sample_paths).
  - split; [exact H1|]. apply H2. exists "/a/y"%go. split; [right; left|reflexivity].
Defined.

Lemma object_table_aligned_witness :
  exists rows columns header,
    renderObject [({["v"%go := JNum "1"%go; "a"%go := JBool true]}, 5%Z); (∅, 6%Z)] "table"%go = OTable rows columns header /\
    header = ["a"%go; "timestamp"%go; "v"%go] /\ length rows = 2.
Proof.
  destruct (object_table_aligned [({["v"%go := JNum "1"%go; "a"%go := JBool true]}, 5%Z); (∅, 6%Z)]
    {["v"%go := JNum "1"%go; "a"%go := JBool true]} 5 [(∅, 6%Z)] eq_refl) as (rows & columns & header & E & _ & _ & _ & Hl & _).
  exists rows, columns, header. split; [exact E|]. split; [vm_compute in E; injection E as _ _ <-; reflexivity|exact Hl].
Defined.

Definition sample_params (name : gostring) : gostring :=
  if bool_decide (name = "limit"%go) then "5"%go else if bool_decide (name = "downsample_to"%go) then "3"%go else [].
Definition sample_reads : reads :=
  MkReads (Ok []) (fun _ => Ok (Some (7, 7)%Z)) (fun _ _ => Ok []) (fun _ b => Ok [(b, 0)%Z]) (fun _ => Ok []) (fun _ => Ok [])
    (fun _ => Err NotFound) (Ok []) false.

Lemma accepted_query_in_range_witness :
  exists opts, @parseQueryOpts toy_text sample_params = Ok opts /\ (DownsamplePoints opts = 0 \/ 3 <= DownsamplePoints opts)%Z /\
    @GetData toy_text sample_reads (MkResolved false false None) "/v"%go opts = Ok (OList [OSample (OVal (AnyFloat 0)) microsecond]).
Proof.
  destruct (@parseQueryOpts toy_text sample_params) as [opts|] eqn:E; [|vm_compute in E; discriminate E].
  exists opts. split; [reflexivity|]. split.
  - apply (@accepted_query_in_range toy_text sample_params opts sample_reads (MkResolved false false None) "/v"%go); [exact E|].
    by split.
  - vm_compute in E. injection E as <-. vm_compute. reflexivity.
Defined.

Lemma sample_reads_back_witness :
  exists m row, Mapping_ (sample_op OpIndividual (Some (VScalar (SInteger 42)))) = Some m /\
    @individualRow toy_text (sample_op OpIndividual (Some (VScalar (SInteger 42)))) = Ok row /\
    @individualValue toy_text row = OVal (AnyInt 42).
Proof.
  destruct (Mapping_ (sample_op OpIndividual (Some (VScalar (SInteger 42))))) as [m|] eqn:Em; [|vm_compute in Em; discriminate Em].
  destruct (@individualRow toy_text (sample_op OpIndividual (Some (VScalar (SInteger 42))))) as [row|] eqn:Er; [|vm_compute in Er; discriminate Er].
  exists m, row. split; [reflexivity|]. split; [reflexivity|].
  destruct (@sample_reads_back toy_text (sample_op OpIndividual (Some (VScalar (SInteger 42)))) m (VScalar (SInteger 42)) row) as [H _].
  - exact Em.
  - reflexivity.
  - vm_compute in Em. injection Em as <-. split; [reflexivity|]. vm_compute. split; discriminate.
  - exact Er.
  - cbn in H. injection H as <-. reflexivity.
Defined.

End Query.
