(* ===== verification/MetaStore.v ===== *)
(** * The metadata store

    The realms, devices, device groups and interfaces of the database and the
    methods of [internal/store/realms.go], [devices.go], [groups.go] and
    [interfaces.go] over them. A method is one atomic step on the tables: a
    statement or a transaction, with the keys, checks and cascades of the
    schema (migrations 000002 and 000011). The database itself, its clock, its
    sequences and its text collation are the environment's. *)

From stdpp Require Import sorting.
From S2P Require Import Prelude GoStrings DeviceID SchemaTypes Endpoints InterfaceParse Compile Compat Broker Topics ByteOrder Policy Triggers TriggerDefs.

Module MetaStore.
Import Schema Parse ByteOrder.
Import Topics.Introspection.

(** ** Rows *)

Abbreviation ID := DeviceID.ID.

(** [devices.status]. *)
Inductive device_status := DeviceStatusRegistered | DeviceStatusConfirmed | DeviceStatusInhibited.
#[global] Instance device_status_eq_dec : EqDecision device_status.
Proof. solve_decision. Defined.

Record Device := MkDevice {
  CredentialsSecretHash : gostring;
  Status : device_status;
  Introspection : gmap gostring InterfaceVersion;
  OldIntrospection : gmap gostring InterfaceVersion;
  Aliases : gmap gostring gostring;
  Attributes : gmap gostring gostring;
  CertSerial : option gostring;
  CertAKI : option gostring;
  FirstRegistration : Z;
  FirstCredentialsRequest : option Z;
  LastCredentialsRequestIP : option gostring;
  LastConnection : option Z;
  LastDisconnection : option Z;
  LastSeenIP : option gostring;
  Connected : bool;
  TotalReceivedMsgs : Z;
  TotalReceivedBytes : Z;
  PayloadFormatHint : gostring;
}.

Definition set_secret (v : gostring) (d : Device) : Device :=
  MkDevice v (Status d) (Introspection d) (OldIntrospection d) (Aliases d) (Attributes d) (CertSerial d)
    (CertAKI d) (FirstRegistration d) (FirstCredentialsRequest d) (LastCredentialsRequestIP d)
    (LastConnection d) (LastDisconnection d) (LastSeenIP d) (Connected d) (TotalReceivedMsgs d)
    (TotalReceivedBytes d) (PayloadFormatHint d).
Definition set_status (v : device_status) (d : Device) : Device :=
  MkDevice (CredentialsSecretHash d) v (Introspection d) (OldIntrospection d) (Aliases d) (Attributes d)
    (CertSerial d) (CertAKI d) (FirstRegistration d) (FirstCredentialsRequest d)
    (LastCredentialsRequestIP d) (LastConnection d) (LastDisconnection d) (LastSeenIP d) (Connected d)
    (TotalReceivedMsgs d) (TotalReceivedBytes d) (PayloadFormatHint d).
Definition set_introspection (v : gmap gostring InterfaceVersion) (d : Device) : Device :=
  MkDevice (CredentialsSecretHash d) (Status d) v (OldIntrospection d) (Aliases d) (Attributes d)
    (CertSerial d) (CertAKI d) (FirstRegistration d) (FirstCredentialsRequest d)
    (LastCredentialsRequestIP d) (LastConnection d) (LastDisconnection d) (LastSeenIP d) (Connected d)
    (TotalReceivedMsgs d) (TotalReceivedBytes d) (PayloadFormatHint d).
Definition set_old_introspection (v : gmap gostring InterfaceVersion) (d : Device) : Device :=
  MkDevice (CredentialsSecretHash d) (Status d) (Introspection d) v (Aliases d) (Attributes d)
    (CertSerial d) (CertAKI d) (FirstRegistration d) (FirstCredentialsRequest d)
    (LastCredentialsRequestIP d) (LastConnection d) (LastDisconnection d) (LastSeenIP d) (Connected d)
    (TotalReceivedMsgs d) (TotalReceivedBytes d) (PayloadFormatHint d).
Definition set_aliases (v : gmap gostring gostring) (d : Device) : Device :=
  MkDevice (CredentialsSecretHash d) (Status d) (Introspection d) (OldIntrospection d) v (Attributes d)
    (CertSerial d) (CertAKI d) (FirstRegistration d) (FirstCredentialsRequest d)
    (LastCredentialsRequestIP d) (LastConnection d) (LastDisconnection d) (LastSeenIP d) (Connected d)
    (TotalReceivedMsgs d) (TotalReceivedBytes d) (PayloadFormatHint d).
Definition set_attributes (v : gmap gostring gostring) (d : Device) : Device :=
  MkDevice (CredentialsSecretHash d) (Status d) (Introspection d) (OldIntrospection d) (Aliases d) v
    (CertSerial d) (CertAKI d) (FirstRegistration d) (FirstCredentialsRequest d)
    (LastCredentialsRequestIP d) (LastConnection d) (LastDisconnection d) (LastSeenIP d) (Connected d)
    (TotalReceivedMsgs d) (TotalReceivedBytes d) (PayloadFormatHint d).
Definition set_cert (v : option gostring) (d : Device) : Device :=
  MkDevice (CredentialsSecretHash d) (Status d) (Introspection d) (OldIntrospection d) (Aliases d)
    (Attributes d) v (CertAKI d) (FirstRegistration d) (FirstCredentialsRequest d)
    (LastCredentialsRequestIP d) (LastConnection d) (LastDisconnection d) (LastSeenIP d) (Connected d)
    (TotalReceivedMsgs d) (TotalReceivedBytes d) (PayloadFormatHint d).
Definition set_aki (v : option gostring) (d : Device) : Device :=
  MkDevice (CredentialsSecretHash d) (Status d) (Introspection d) (OldIntrospection d) (Aliases d)
    (Attributes d) (CertSerial d) v (FirstRegistration d) (FirstCredentialsRequest d)
    (LastCredentialsRequestIP d) (LastConnection d) (LastDisconnection d) (LastSeenIP d) (Connected d)
    (TotalReceivedMsgs d) (TotalReceivedBytes d) (PayloadFormatHint d).
Definition set_first_request (v : option Z) (d : Device) : Device :=
  MkDevice (CredentialsSecretHash d) (Status d) (Introspection d) (OldIntrospection d) (Aliases d)
    (Attributes d) (CertSerial d) (CertAKI d) (FirstRegistration d) v (LastCredentialsRequestIP d)
    (LastConnection d) (LastDisconnection d) (LastSeenIP d) (Connected d) (TotalReceivedMsgs d)
    (TotalReceivedBytes d) (PayloadFormatHint d).
Definition set_request_ip (v : option gostring) (d : Device) : Device :=
  MkDevice (CredentialsSecretHash d) (Status d) (Introspection d) (OldIntrospection d) (Aliases d)
    (Attributes d) (CertSerial d) (CertAKI d) (FirstRegistration d) (FirstCredentialsRequest d) v
    (LastConnection d) (LastDisconnection d) (LastSeenIP d) (Connected d) (TotalReceivedMsgs d)
    (TotalReceivedBytes d) (PayloadFormatHint d).
Definition set_connection (v : option Z) (d : Device) : Device :=
  MkDevice (CredentialsSecretHash d) (Status d) (Introspection d) (OldIntrospection d) (Aliases d)
    (Attributes d) (CertSerial d) (CertAKI d) (FirstRegistration d) (FirstCredentialsRequest d)
    (LastCredentialsRequestIP d) v (LastDisconnection d) (LastSeenIP d) (Connected d) (TotalReceivedMsgs d)
    (TotalReceivedBytes d) (PayloadFormatHint d).
Definition set_disconnection (v : option Z) (d : Device) : Device :=
  MkDevice (CredentialsSecretHash d) (Status d) (Introspection d) (OldIntrospection d) (Aliases d)
    (Attributes d) (CertSerial d) (CertAKI d) (FirstRegistration d) (FirstCredentialsRequest d)
    (LastCredentialsRequestIP d) (LastConnection d) v (LastSeenIP d) (Connected d) (TotalReceivedMsgs d)
    (TotalReceivedBytes d) (PayloadFormatHint d).
Definition set_ip (v : option gostring) (d : Device) : Device :=
  MkDevice (CredentialsSecretHash d) (Status d) (Introspection d) (OldIntrospection d) (Aliases d)
    (Attributes d) (CertSerial d) (CertAKI d) (FirstRegistration d) (FirstCredentialsRequest d)
    (LastCredentialsRequestIP d) (LastConnection d) (LastDisconnection d) v (Connected d)
    (TotalReceivedMsgs d) (TotalReceivedBytes d) (PayloadFormatHint d).
Definition set_connected (v : bool) (d : Device) : Device :=
  MkDevice (CredentialsSecretHash d) (Status d) (Introspection d) (OldIntrospection d) (Aliases d)
    (Attributes d) (CertSerial d) (CertAKI d) (FirstRegistration d) (FirstCredentialsRequest d)
    (LastCredentialsRequestIP d) (LastConnection d) (LastDisconnection d) (LastSeenIP d) v
    (TotalReceivedMsgs d) (TotalReceivedBytes d) (PayloadFormatHint d).
Definition set_msgs (v : Z) (d : Device) : Device :=
  MkDevice (CredentialsSecretHash d) (Status d) (Introspection d) (OldIntrospection d) (Aliases d)
    (Attributes d) (CertSerial d) (CertAKI d) (FirstRegistration d) (FirstCredentialsRequest d)
    (LastCredentialsRequestIP d) (LastConnection d) (LastDisconnection d) (LastSeenIP d) (Connected d) v
    (TotalReceivedBytes d) (PayloadFormatHint d).
Definition set_bytes (v : Z) (d : Device) : Device :=
  MkDevice (CredentialsSecretHash d) (Status d) (Introspection d) (OldIntrospection d) (Aliases d)
    (Attributes d) (CertSerial d) (CertAKI d) (FirstRegistration d) (FirstCredentialsRequest d)
    (LastCredentialsRequestIP d) (LastConnection d) (LastDisconnection d) (LastSeenIP d) (Connected d)
    (TotalReceivedMsgs d) v (PayloadFormatHint d).
Definition set_hint (v : gostring) (d : Device) : Device :=
  MkDevice (CredentialsSecretHash d) (Status d) (Introspection d) (OldIntrospection d) (Aliases d)
    (Attributes d) (CertSerial d) (CertAKI d) (FirstRegistration d) (FirstCredentialsRequest d)
    (LastCredentialsRequestIP d) (LastConnection d) (LastDisconnection d) (LastSeenIP d) (Connected d)
    (TotalReceivedMsgs d) (TotalReceivedBytes d) v.

Record Realm := MkRealmRow {
  RealmID : Z;
  JWTPublicKeysPEM : list gostring;
  CACertificatePEM : gostring;
  CAPrivateKeySealed : gostring;
  DeviceRegistrationLimit : option Z;
  DatastreamMaximumStorageRetention : option Z;
  CreatedAt : Z;
}.

Record NewRealm := MkNewRealm {
  nrName : gostring;
  nrJWTPublicKeysPEM : list gostring;
  nrCACertificatePEM : gostring;
  nrCAPrivateKeySealed : gostring;
  nrDeviceRegistrationLimit : option Z;
  nrDatastreamMaximumStorageRetention : option Z;
}.

Record Group := MkGroup { GroupID : Z; GroupRealm : Z; GroupName : gostring }.

(** An [endpoints] row: the attributes of the mapping it was inserted for. *)
Record EndpointRow := MkEndpointRow {
  epID : Z;
  epType : ValueType;
  epReliability : Reliability;
  epRetention : Retention;
  epExpiry : Z;
  epPolicy : DatabaseRetentionPolicy;
  epTTL : option Z;
  epExplicitTimestamp : bool;
  epAllowUnset : bool;
}.

(** An [interfaces] row: the stored document; the other columns are generated
    from it. *)
Record InterfaceRow := MkInterfaceRow { ifID : Z; ifDefinition : interfaceJSON }.

Record StoredInterface := MkStored {
  siID : Z;
  siRealmID : Z;
  siName : gostring;
  siMajor : Z;
  siMinor : Z;
  siType : InterfaceType;
  siOwnership : Ownership;
  siAggregation : Aggregation;
  siDefinition : interfaceJSON;
  siEndpoints : gmap gostring Z;
}.

(** The [triggers] and [trigger_policies] rows: the id and the document. *)
Record Hooks := MkHooks {
  triggers : gmap (Z * gostring) (Z * TriggerDefs.triggerJSON);
  policies : gmap (Z * gostring) (Z * Policy.policyJSON);
  next_trigger : Z;
  next_policy : Z;
}.

(** What the data path and the flow service keep: the datastream rows, by the
    columns that deletions go by and their timestamp, and the keys of the
    properties, pipelines, flows and user blocks. The methods of this file only
    delete from these tables. *)
Record SeriesRow := MkSeriesRow {
  srRealm : Z;
  srDevice : ID;
  srInterface : Z;
  srPath : gostring;
  srTs : Z;
}.
Record DataTables := MkDataTables {
  individual_datastreams : list SeriesRow;
  object_datastreams : list SeriesRow;
  property_rows : gset (Z * ID * Z * gostring);
  pipeline_rows : gset (Z * gostring);
  flow_rows : gset (Z * gostring);
  user_block_rows : gset (Z * gostring);
}.

(** The tables by their keys: [group_devices] maps group and device to the
    realm, [endpoints] is by interface; and the identity sequences. *)
Record db := MkDb {
  now : Z;
  realms : gmap gostring Realm;
  devices : gmap (Z * ID) Device;
  groups : gmap (Z * gostring) Z;
  group_devices : gmap (Z * ID) Z;
  interfaces : gmap (Z * gostring * Z) InterfaceRow;
  endpoints : gmap Z (gmap gostring EndpointRow);
  next_realm : Z;
  next_group : Z;
  next_interface : Z;
  next_endpoint : Z;
  hooks : Hooks;
  data : DataTables;
}.

Definition with_realms (m : gmap gostring Realm) (d : db) : db :=
  MkDb (now d) m (devices d) (groups d) (group_devices d) (interfaces d) (endpoints d)
    (next_realm d) (next_group d) (next_interface d) (next_endpoint d) (hooks d) (data d).
Definition with_devices (m : gmap (Z * ID) Device) (d : db) : db :=
  MkDb (now d) (realms d) m (groups d) (group_devices d) (interfaces d) (endpoints d)
    (next_realm d) (next_group d) (next_interface d) (next_endpoint d) (hooks d) (data d).
Definition with_groups (g : gmap (Z * gostring) Z) (m : gmap (Z * ID) Z) (d : db) : db :=
  MkDb (now d) (realms d) (devices d) g m (interfaces d) (endpoints d)
    (next_realm d) (next_group d) (next_interface d) (next_endpoint d) (hooks d) (data d).
Definition with_interfaces (i : gmap (Z * gostring * Z) InterfaceRow)
    (e : gmap Z (gmap gostring EndpointRow)) (nexti nexte : Z) (d : db) : db :=
  MkDb (now d) (realms d) (devices d) (groups d) (group_devices d) i e
    (next_realm d) (next_group d) nexti nexte (hooks d) (data d).

Definition with_hooks (h : Hooks) (d : db) : db :=
  MkDb (now d) (realms d) (devices d) (groups d) (group_devices d) (interfaces d) (endpoints d)
    (next_realm d) (next_group d) (next_interface d) (next_endpoint d) h (data d).
Definition with_data (x : DataTables) (d : db) : db :=
  MkDb (now d) (realms d) (devices d) (groups d) (group_devices d) (interfaces d) (endpoints d)
    (next_realm d) (next_group d) (next_interface d) (next_endpoint d) (hooks d) x.

(** The errors of the store; [ErrDatabase] is any unclassified failure. *)
Inductive store_error :=
| ErrNotFound
| ErrAlreadyExists
| ErrDeviceAlreadyConfirmed
| ErrInvalidRealmName
| ErrInvalidHint
| ErrInterfaceMajorNotZero
| ErrInterfaceInUse
| ErrDropsEndpoint (endpoint : gostring)
| ErrParse (e : build_error)
| ErrDatabase.

(** A method: its answer and the tables after it. *)
Definition method (A : Type) : Type := db -> result store_error A * db.
Definition reads {A} (f : db -> result store_error A) : method A := fun d => (f d, d).

(** What the database decides: [ORDER BY] on text columns follows its
    collation. *)
Class Collation := {
  collate : list gostring -> list gostring;
  collate_perm : forall l, collate l ≡ₚ l;
}.

(** ** Realms *)

(** [CHECK (name ~ '^[a-z][a-z0-9]*$')]. *)
Definition realm_name_ok (s : gostring) : bool := negb (length s =? 0)%nat && Identity.realm_from 0 s.

(** [smallint GENERATED ALWAYS AS IDENTITY]: a sequence value is drawn before
    the row is checked, and the sequence ends. *)
Definition max_smallint : Z := 32767.

Definition CreateRealm (nr : NewRealm) : method Realm := fun d =>
  let id := next_realm d in
  if (max_smallint <? id)%Z then (Err ErrDatabase, d)
  else
    let drawn m := MkDb (now d) m (devices d) (groups d) (group_devices d) (interfaces d) (endpoints d)
                     (id + 1) (next_group d) (next_interface d) (next_endpoint d) (hooks d) (data d) in
    if negb (realm_name_ok (nrName nr)) then (Err ErrInvalidRealmName, drawn (realms d))
    else if decide (is_Some (realms d !! nrName nr)) then (Err ErrAlreadyExists, drawn (realms d))
    else
      let r := MkRealmRow id (nrJWTPublicKeysPEM nr) (nrCACertificatePEM nr) (nrCAPrivateKeySealed nr)
                 (nrDeviceRegistrationLimit nr) (nrDatastreamMaximumStorageRetention nr) (now d) in
      (Ok r, drawn (<[nrName nr := r]> (realms d))).

Definition GetRealmByName (name : gostring) : method Realm :=
  reads (fun d => or_err (realms d !! name) ErrNotFound).

(** [UPDATE realms SET ... WHERE name = $1]. *)
Definition update_realm (name : gostring) (f : Realm -> Realm) : method () := fun d =>
  match realms d !! name with
  | None => (Err ErrNotFound, d)
  | Some r => (Ok (), with_realms (<[name := f r]> (realms d)) d)
  end.

Definition set_keys (keys : list gostring) (r : Realm) : Realm :=
  MkRealmRow (RealmID r) keys (CACertificatePEM r) (CAPrivateKeySealed r)
    (DeviceRegistrationLimit r) (DatastreamMaximumStorageRetention r) (CreatedAt r).
Definition set_limit (l : option Z) (r : Realm) : Realm :=
  MkRealmRow (RealmID r) (JWTPublicKeysPEM r) (CACertificatePEM r) (CAPrivateKeySealed r)
    l (DatastreamMaximumStorageRetention r) (CreatedAt r).
Definition set_retention (x : option Z) (r : Realm) : Realm :=
  MkRealmRow (RealmID r) (JWTPublicKeysPEM r) (CACertificatePEM r) (CAPrivateKeySealed r)
    (DeviceRegistrationLimit r) x (CreatedAt r).

Definition SetRealmJWTPublicKeys (name : gostring) (keys : list gostring) : method () :=
  update_realm name (set_keys keys).

Record RealmPatch := MkRealmPatch {
  PatchJWTPublicKeyPEM : bool;
  SetJWTPublicKeyPEM : gostring;
  PatchRegistrationLimit : bool;
  SetRegistrationLimit : Z;
  ClearRegistrationLimit : bool;
  PatchRetention : bool;
  SetRetention : Z;
  ClearRetention : bool;
}.

(** The columns a patch sets, in the order they are added. *)
Definition patch_columns (p : RealmPatch) : list (Realm -> Realm) :=
  (if PatchJWTPublicKeyPEM p then [set_keys [SetJWTPublicKeyPEM p]] else []) ++
  (if ClearRegistrationLimit p then [set_limit None]
   else if PatchRegistrationLimit p then [set_limit (Some (SetRegistrationLimit p))] else []) ++
  (if ClearRetention p || (PatchRetention p && (SetRetention p <=? 0)%Z) then [set_retention None]
   else if PatchRetention p then [set_retention (Some (SetRetention p))] else []).

(** No statement is sent for an empty patch. *)
Definition UpdateRealm (name : gostring) (p : RealmPatch) : method () := fun d =>
  match patch_columns p with
  | [] => (Ok (), d)
  | cols => update_realm name (fun r => foldl (fun r f => f r) r cols) d
  end.

(** The datastreams have no foreign keys and are deleted by realm, by realm and
    device, or by realm and interface; a property goes with its device and with
    its interface; pipelines, flows and user blocks go with the realm. *)
Definition sweep_realm (rid : Z) (x : DataTables) : DataTables :=
  MkDataTables (filter (fun r => srRealm r <> rid) (individual_datastreams x))
    (filter (fun r => srRealm r <> rid) (object_datastreams x))
    (filter (fun k => k.1.1.1 <> rid) (property_rows x))
    (filter (fun k => k.1 <> rid) (pipeline_rows x)) (filter (fun k => k.1 <> rid) (flow_rows x))
    (filter (fun k => k.1 <> rid) (user_block_rows x)).
Definition sweep_device (rid : Z) (id : ID) (x : DataTables) : DataTables :=
  MkDataTables (filter (fun r => (srRealm r, srDevice r) <> (rid, id)) (individual_datastreams x))
    (filter (fun r => (srRealm r, srDevice r) <> (rid, id)) (object_datastreams x))
    (filter (fun k => k.1.1 <> (rid, id)) (property_rows x))
    (pipeline_rows x) (flow_rows x) (user_block_rows x).
Definition sweep_interface (rid iid : Z) (x : DataTables) : DataTables :=
  MkDataTables (filter (fun r => (srRealm r, srInterface r) <> (rid, iid)) (individual_datastreams x))
    (filter (fun r => (srRealm r, srInterface r) <> (rid, iid)) (object_datastreams x))
    (filter (fun k => k.1.2 <> iid) (property_rows x))
    (pipeline_rows x) (flow_rows x) (user_block_rows x).

(** The datastream rows of the realm, the realm, and everything that cascades
    from it. *)
Definition DeleteRealm (name : gostring) : method () := fun d =>
  match realms d !! name with
  | None => (Err ErrNotFound, d)
  | Some r =>
      let rid := RealmID r in
      let gone := filter (fun x => x.1.1.1 = rid) (interfaces d) in
      (Ok (), MkDb (now d) (delete name (realms d))
         (filter (fun x => x.1.1 <> rid) (devices d))
         (filter (fun x => x.1.1 <> rid) (groups d))
         (filter (fun x => x.2 <> rid) (group_devices d))
         (filter (fun x => x.1.1.1 <> rid) (interfaces d))
         (filter (fun x => x.1 ∉ (ifID <$> (map_to_list gone).*2)) (endpoints d))
         (next_realm d) (next_group d) (next_interface d) (next_endpoint d)
         (MkHooks (filter (fun x => x.1.1 <> rid) (triggers (hooks d)))
            (filter (fun x => x.1.1 <> rid) (policies (hooks d))) (next_trigger (hooks d)) (next_policy (hooks d)))
         (sweep_realm rid (data d)))
  end.

Definition SetRealmCA (name caCertPEM caKeySealed : gostring) : method () :=
  update_realm name (fun r => MkRealmRow (RealmID r) (JWTPublicKeysPEM r) caCertPEM caKeySealed
    (DeviceRegistrationLimit r) (DatastreamMaximumStorageRetention r) (CreatedAt r)).

(** ** Devices *)

Definition realm_exists (d : db) (rid : Z) : bool :=
  existsb (fun x => (RealmID x.2 =? rid)%Z) (map_to_list (realms d)).

(** [INSERT ... ON CONFLICT (realm_id, id) DO UPDATE ... WHERE
    devices.first_credentials_request IS NULL]; the foreign key refuses an
    unknown realm. *)
Definition new_device (secretHash : gostring) (at_ : Z) : Device :=
  MkDevice secretHash DeviceStatusRegistered ∅ ∅ ∅ ∅ None None at_ None None None None None false 0 0 "bson"%go.

Definition RegisterDevice (rid : Z) (id : ID) (secretHash : gostring) : method () := fun d =>
  match devices d !! (rid, id) with
  | Some dev =>
      match FirstCredentialsRequest dev with
      | None =>
          (Ok (), with_devices (<[(rid, id) := set_status DeviceStatusRegistered (set_secret secretHash dev)]>
                    (devices d)) d)
      | Some _ => (Err ErrDeviceAlreadyConfirmed, d)
      end
  | None =>
      if realm_exists d rid then (Ok (), with_devices (<[(rid, id) := new_device secretHash (now d)]> (devices d)) d)
      else (Err ErrDatabase, d)
  end.

(** [UPDATE devices SET ... WHERE realm_id = $1 AND id = $2]. *)
Definition update_device (rid : Z) (id : ID) (f : Device -> Device) : method () := fun d =>
  match devices d !! (rid, id) with
  | None => (Err ErrNotFound, d)
  | Some dev => (Ok (), with_devices (<[(rid, id) := f dev]> (devices d)) d)
  end.

Definition UnregisterDevice (rid : Z) (id : ID) : method () :=
  update_device rid id (fun dev =>
    set_secret [] (set_status DeviceStatusRegistered (set_first_request None (set_cert None (set_aki None dev))))).

Definition GetDevice (rid : Z) (id : ID) : method Device :=
  reads (fun d => or_err (devices d !! (rid, id)) ErrNotFound).

(** The devices of a realm by ascending identifier: [uuid] compares bytes. *)
Definition device_ids (d : db) (rid : Z) : list ID :=
  sort_bytes (omap (fun x => if decide (x.1.1 = rid) then Some x.1.2 else None) (map_to_list (devices d))).

Definition has_alias (alias : gostring) (dev : Device) : bool :=
  existsb (fun x => bool_decide (x.2 = alias)) (map_to_list (Aliases dev)).

Definition GetDeviceByAlias (rid : Z) (alias : gostring) : method (ID * Device) :=
  reads (fun d =>
    or_err (head (omap (fun id => dev ← devices d !! (rid, id);
                          if has_alias alias dev then Some (id, dev) else None) (device_ids d rid))) ErrNotFound).

(** [LIMIT] with a negative count is an error. *)
Definition limited {A} (limit : Z) (l : list A) : result store_error (list A) :=
  if (limit <? 0)%Z then Err ErrDatabase else Ok (take (Z.to_nat limit) l).

Definition ListDevices (rid : Z) (after : option ID) (limit : Z) : method (list (ID * Device)) :=
  reads (fun d =>
    let ids := match after with
               | Some a => filter (fun id => bytes_lt a id) (device_ids d rid)
               | None => device_ids d rid
               end in
    limited limit (omap (fun id => dev ← devices d !! (rid, id); Some (id, dev)) ids)).

Definition CountDevices (rid : Z) : method Z := reads (fun d => Ok (Z.of_nat (length (device_ids d rid)))).

(** The pairs of the current introspection that the new one drops. *)
Definition dropped_by (intro : gmap gostring InterfaceVersion) (x : gostring * InterfaceVersion) : Prop :=
  match intro !! x.1 with Some nv => vMajor nv <> vMajor x.2 | None => True end.
#[global] Instance dropped_by_dec intro x : Decision (dropped_by intro x).
Proof. unfold dropped_by. destruct (intro !! x.1); apply _. Defined.

Definition UpdateIntrospection (rid : Z) (id : ID) (intro : gmap gostring InterfaceVersion)
    : method (gmap gostring InterfaceVersion) := fun d =>
  match devices d !! (rid, id) with
  | None => (Err ErrNotFound, d)
  | Some dev =>
      let removed := filter (dropped_by intro) (Introspection dev) in
      (Ok removed,
       with_devices (<[(rid, id) := set_introspection intro
                                     (set_old_introspection (removed ∪ OldIntrospection dev) dev)]> (devices d)) d)
  end.

Definition SetDeviceInhibited (rid : Z) (id : ID) (inhibited : bool) : method () :=
  update_device rid id (fun dev =>
    set_status (if inhibited then DeviceStatusInhibited
                else match FirstCredentialsRequest dev with
                     | None => DeviceStatusRegistered
                     | Some _ => DeviceStatusConfirmed
                     end) dev).

Definition SetDeviceCredentials (rid : Z) (id : ID) (certSerial certAKI requestIP : gostring) : method () := fun d =>
  update_device rid id (fun dev =>
    set_cert (Some certSerial) (set_aki (Some certAKI)
      (set_first_request (Some (default (now d) (FirstCredentialsRequest dev)))
        (set_request_ip (Some requestIP) (set_status DeviceStatusConfirmed dev))))) d.

Definition SetDeviceConnected (rid : Z) (id : ID) (at_ : Z) (ip : gostring) : method () :=
  update_device rid id (fun dev => set_connected true (set_connection (Some at_) (set_ip (Some ip) dev))).

Definition SetDeviceDisconnected (rid : Z) (id : ID) (at_ : Z) : method () :=
  update_device rid id (fun dev => set_connected false (set_disconnection (Some at_) dev)).

(** A [bigint] column refuses a sum out of range. *)
Definition AddDeviceStats (rid : Z) (id : ID) (msgs bytes : Z) : method () := fun d =>
  match devices d !! (rid, id) with
  | None => (Err ErrNotFound, d)
  | Some dev =>
      let m := (TotalReceivedMsgs dev + msgs)%Z in
      let b := (TotalReceivedBytes dev + bytes)%Z in
      if decide (in_int64 m /\ in_int64 b)
      then (Ok (), with_devices (<[(rid, id) := set_msgs m (set_bytes b dev)]> (devices d)) d)
      else (Err ErrDatabase, d)
  end.

Definition AliasValuesTaken (rid : Z) (id : ID) (values : list gostring) : method bool :=
  reads (fun d => Ok (existsb (fun x =>
    (x.1.1 =? rid)%Z && negb (bool_decide (x.1.2 = id)) && existsb (fun v => has_alias v x.2) values)
    (map_to_list (devices d)))).

(** A merge patch: [None] removes the key. *)
Abbreviation patch := (gmap gostring (option gostring)).

(** [(column - removals) || additions]. *)
Definition removals (p : patch) : gset gostring := dom (filter (fun x => x.2 = None) p).
Definition additions (p : patch) : gmap gostring gostring := omap (fun v => v) p.
Definition patchDeviceJSONB (p : patch) (column : gmap gostring gostring) : gmap gostring gostring :=
  additions p ∪ filter (fun x => x.1 ∉ removals p) column.

Definition PatchDeviceAliases (rid : Z) (id : ID) (p : patch) : method () :=
  update_device rid id (fun dev => set_aliases (patchDeviceJSONB p (Aliases dev)) dev).
Definition PatchDeviceAttributes (rid : Z) (id : ID) (p : patch) : method () :=
  update_device rid id (fun dev => set_attributes (patchDeviceJSONB p (Attributes dev)) dev).

Definition SetPayloadFormatHint (rid : Z) (id : ID) (hint : gostring) : method () := fun d =>
  if decide (hint <> "bson"%go /\ hint <> "json"%go) then (Err ErrInvalidHint, d)
  else update_device rid id (set_hint hint) d.

Definition DeviceStats (rid : Z) : method (Z * Z) :=
  reads (fun d =>
    let mine := filter (fun x => x.1.1 = rid) (map_to_list (devices d)) in
    Ok (Z.of_nat (length mine), Z.of_nat (length (filter (fun x => Connected x.2 = true) mine)))).

(** The datastreams, the properties and the memberships of a device go with it. *)
Definition DeleteDevice (rid : Z) (id : ID) : method () := fun d =>
  match devices d !! (rid, id) with
  | None => (Err ErrNotFound, d)
  | Some _ =>
      (Ok (), with_groups (groups d) (filter (fun x => (x.2, x.1.2) <> (rid, id)) (group_devices d))
                (with_devices (delete (rid, id) (devices d)) (with_data (sweep_device rid id (data d)) d)))
  end.

(** ** Groups *)

Definition CreateGroup (rid : Z) (name : gostring) : method Group := fun d =>
  let gid := next_group d in
  let drawn g := MkDb (now d) (realms d) (devices d) g (group_devices d) (interfaces d) (endpoints d)
                   (next_realm d) (gid + 1) (next_interface d) (next_endpoint d) (hooks d) (data d) in
  if decide (is_Some (groups d !! (rid, name))) then (Err ErrAlreadyExists, drawn (groups d))
  else if realm_exists d rid then (Ok (MkGroup gid rid name), drawn (<[(rid, name) := gid]> (groups d)))
  else (Err ErrDatabase, drawn (groups d)).

Definition GetGroupByName (rid : Z) (name : gostring) : method Group :=
  reads (fun d => or_err (gid ← groups d !! (rid, name); Some (MkGroup gid rid name)) ErrNotFound).

Definition DeleteGroup (rid : Z) (name : gostring) : method () := fun d =>
  match groups d !! (rid, name) with
  | None => (Err ErrNotFound, d)
  | Some gid =>
      (Ok (), with_groups (delete (rid, name) (groups d)) (filter (fun x => x.1.1 <> gid) (group_devices d)) d)
  end.

(** [INSERT ... SELECT g.id, $2, $3 FROM groups g WHERE g.id = $1 AND
    g.realm_id = $2]: no row without the group, then the keys. *)
Definition AddGroupDevice (gid rid : Z) (id : ID) : method () := fun d =>
  if negb (existsb (fun x => (x.2 =? gid)%Z && (x.1.1 =? rid)%Z) (map_to_list (groups d))) then (Err ErrNotFound, d)
  else if decide (is_Some (group_devices d !! (gid, id))) then (Err ErrAlreadyExists, d)
  else if decide (is_Some (devices d !! (rid, id)))
  then (Ok (), with_groups (groups d) (<[(gid, id) := rid]> (group_devices d)) d)
  else (Err ErrNotFound, d).

Definition RemoveGroupDevice (gid rid : Z) (id : ID) : method () := fun d =>
  if decide (group_devices d !! (gid, id) = Some rid)
  then (Ok (), with_groups (groups d) (delete (gid, id) (group_devices d)) d)
  else (Err ErrNotFound, d).

Definition member_ids (d : db) (gid : Z) : list ID :=
  sort_bytes (omap (fun x => if decide (x.1.1 = gid) then Some x.1.2 else None) (map_to_list (group_devices d))).

Definition ListGroupDevices (gid : Z) : method (list ID) := reads (fun d => Ok (member_ids d gid)).

Definition ListGroupDevicesPage (gid offset limit : Z) : method (list ID) :=
  reads (fun d => limited limit (drop (Z.to_nat offset) (member_ids d gid))).

Section Collated.
Context `{Collation}.

Definition ListRealms : method (list gostring) :=
  reads (fun d => Ok (collate (map_to_list (realms d)).*1)).

Definition ListGroups (rid : Z) : method (list gostring) :=
  reads (fun d => Ok (collate (omap (fun x => if decide (x.1.1 = rid) then Some x.1.2 else None)
                                 (map_to_list (groups d))))).

(** The names of the groups whose membership rows name the device. *)
Definition device_groups (d : db) (rid : Z) (id : ID) : list gostring :=
  collate (omap (fun x => if decide (group_devices d !! (x.2, id) = Some rid) then Some x.1.2 else None)
             (map_to_list (groups d))).
Definition ListDeviceGroups (rid : Z) (id : ID) : method (list gostring) :=
  reads (fun d => Ok (device_groups d rid id)).

(** One query for a page of devices; a device in no group has no entry. *)
Definition ListDeviceGroupsBatch (rid : Z) (ids : list ID) : method (gmap ID (list gostring)) :=
  reads (fun d => Ok (list_to_map (omap (fun id =>
    let names := device_groups d rid id in
    if decide (names = []) then None else Some (id, names)) ids))).

End Collated.

(** ** Interfaces *)

Definition endpoint_row (id : Z) (m : Mapping) : EndpointRow :=
  MkEndpointRow id (Type_ m) (Reliability_ m) (Retention_ m) (Expiry m) (DatabaseRetentionPolicy_ m)
    (match DatabaseRetentionPolicy_ m with UseTTL => Some (DatabaseRetentionTTL m) | NoTTL => None end)
    (ExplicitTimestamp m) (AllowUnset m).

(** The columns [expiry] and [database_retention_ttl], and the generated
    [major_version] and [minor_version], are 32-bit integers: a statement with a
    value out of range fails. *)
Definition fits (z : Z) : bool := bool_decide (in_int32 z).
Definition endpoint_fits (m : Mapping) : bool :=
  fits (Expiry m) && match DatabaseRetentionPolicy_ m with UseTTL => fits (DatabaseRetentionTTL m) | NoTTL => true end.

(** [insertEndpoint]: [UNIQUE (interface_id, endpoint)]. *)
Definition insertEndpoint (m : Mapping) (s : option (gmap gostring EndpointRow * Z))
    : option (gmap gostring EndpointRow * Z) :=
  '(eps, next) ← s;
  if decide (is_Some (eps !! Endpoint m)) then None
  else if negb (endpoint_fits m) then None
  else Some (<[Endpoint m := endpoint_row next m]> eps, (next + 1)%Z).

Definition stored (rid : Z) (iface : Interface) (row : InterfaceRow) (eps : gmap gostring EndpointRow)
    : StoredInterface :=
  MkStored (ifID row) rid (Name iface) (Major iface) (Minor iface) (IType iface) (IOwnership iface)
    (IAggregation iface) (ifDefinition row) (epID <$> eps).

(** A transaction that fails leaves the tables, not the sequences. *)
Definition InstallInterface (rid : Z) (definition : interfaceJSON) : method StoredInterface := fun d =>
  match buildInterface definition with
  | Err e => (Err (ErrParse e), d)
  | Ok (iface, _) =>
      let id := next_interface d in
      let drawn i e n := with_interfaces i e (id + 1) n d in
      let key := (rid, Name iface, Major iface) in
      if negb (fits (Major iface) && fits (Minor iface))
      then (Err ErrDatabase, drawn (interfaces d) (endpoints d) (next_endpoint d))
      else if decide (is_Some (interfaces d !! key))
      then (Err ErrAlreadyExists, drawn (interfaces d) (endpoints d) (next_endpoint d))
      else if negb (realm_exists d rid)
      then (Err ErrDatabase, drawn (interfaces d) (endpoints d) (next_endpoint d))
      else
        match foldl (fun s m => insertEndpoint m s) (Some (∅, next_endpoint d)) (Mappings iface) with
        | None => (Err ErrDatabase, drawn (interfaces d) (endpoints d) (next_endpoint d))
        | Some (eps, n) =>
            let row := MkInterfaceRow id definition in
            (Ok (stored rid iface row eps), drawn (<[key := row]> (interfaces d)) (<[id := eps]> (endpoints d)) n)
        end
  end.

(** The endpoint rows of an interface. *)
Definition loadEndpoints (d : db) (id : Z) : gmap gostring EndpointRow := default ∅ (endpoints d !! id).

Definition declares_endpoint (iface : Interface) (endpoint : gostring) : bool :=
  existsb (fun m => bool_decide (Endpoint m = endpoint)) (Mappings iface).

(** An existing endpoint the definition does not declare; the range over the
    map is in any order. *)
Definition dropped_endpoint (existing : gmap gostring EndpointRow) (iface : Interface) : option gostring :=
  head (filter (fun ep => declares_endpoint iface ep = false) (map_to_list existing).*1).

(** New mappings only: [existing] grows along the loop. *)
Definition add_new_endpoint (m : Mapping) (s : option (gmap gostring EndpointRow * Z))
    : option (gmap gostring EndpointRow * Z) :=
  '(eps, next) ← s;
  if decide (is_Some (eps !! Endpoint m)) then Some (eps, next) else insertEndpoint m (Some (eps, next)).

Definition UpdateInterface (rid : Z) (definition : interfaceJSON) : method StoredInterface := fun d =>
  match buildInterface definition with
  | Err e => (Err (ErrParse e), d)
  | Ok (iface, _) =>
      let key := (rid, Name iface, Major iface) in
      if negb (fits (Major iface)) then (Err ErrDatabase, d) else
      match interfaces d !! key with
      | None => (Err ErrNotFound, d)
      | Some row =>
          let existing := loadEndpoints d (ifID row) in
          match dropped_endpoint existing iface with
          | Some ep => (Err (ErrDropsEndpoint ep), d)
          | None =>
              if negb (fits (Minor iface)) then (Err ErrDatabase, d) else
              match foldl (fun s m => add_new_endpoint m s) (Some (existing, next_endpoint d)) (Mappings iface) with
              | None => (Err ErrDatabase, d)
              | Some (eps, n) =>
                  let row' := MkInterfaceRow (ifID row) definition in
                  (Ok (stored rid iface row' eps),
                   with_interfaces (<[key := row']> (interfaces d)) (<[ifID row := eps]> (endpoints d))
                     (next_interface d) n d)
              end
          end
      end
  end.

(** [(introspection->$2->>'major')::int = $3]. *)
Definition interface_in_use (d : db) (rid : Z) (name : gostring) (major : Z) : bool :=
  existsb (fun x => (x.1.1 =? rid)%Z &&
    match Introspection x.2 !! name with Some v => (vMajor v =? major)%Z | None => false end)
    (map_to_list (devices d)).

Definition DeleteInterface (rid : Z) (name : gostring) (major : Z) : method () := fun d =>
  if negb (major =? 0)%Z then (Err ErrInterfaceMajorNotZero, d)
  else match interfaces d !! (rid, name, major) with
  | None => (Err ErrNotFound, d)
  | Some row =>
      if interface_in_use d rid name major then (Err ErrInterfaceInUse, d)
      else (Ok (), with_interfaces (delete (rid, name, major) (interfaces d)) (delete (ifID row) (endpoints d))
                     (next_interface d) (next_endpoint d) (with_data (sweep_interface rid (ifID row) (data d)) d))
  end.

(** The generated columns of a row: a column that is absent from the document
    is null, and a null does not scan into the struct. *)
Definition scanStoredInterface (rid : Z) (row : InterfaceRow) (eps : gmap gostring EndpointRow)
    : option StoredInterface :=
  let def := ifDefinition row in
  name ← jInterfaceName def; major ← jVersionMajor def; minor ← jVersionMinor def;
  type ← jIType def; own ← jOwnership def;
  Some (MkStored (ifID row) rid name major minor type own
          (default AggregationIndividual (jAggregation def)) def (epID <$> eps)).

Definition GetInterface (rid : Z) (name : gostring) (major : Z) : method StoredInterface :=
  reads (fun d =>
    if negb (fits major) then Err ErrDatabase else
    match interfaces d !! (rid, name, major) with
    | None => Err ErrNotFound
    | Some row => or_err (scanStoredInterface rid row (loadEndpoints d (ifID row))) ErrDatabase
    end).

(** The rows of a realm by name and major. *)
Definition interface_keys `{Collation} (d : db) (rid : Z) : list (gostring * Z) :=
  let keys := omap (fun x => if decide (x.1.1.1 = rid) then Some (x.1.1.2, x.1.2) else None)
                (map_to_list (interfaces d)) in
  name ← collate (elements (list_to_set keys.*1 : gset gostring));
  major ← merge_sort Z.le (omap (fun k => if decide (k.1 = name) then Some k.2 else None) keys);
  [(name, major)].

Definition LoadRealmInterfaces `{Collation} (rid : Z) : method (list StoredInterface) :=
  reads (fun d =>
    let rows := omap (fun k => interfaces d !! (rid, k.1, k.2)) (interface_keys d rid) in
    or_err (mapM (fun row => scanStoredInterface rid row (loadEndpoints d (ifID row))) rows) ErrDatabase).

(** ** Triggers and delivery policies *)

Record TriggerRow := MkTriggerRow {
  trID : Z;
  trRealmID : Z;
  trName : gostring;
  trDefinition : TriggerDefs.triggerJSON;
}.
Record TriggerPolicy := MkTriggerPolicy {
  tpID : Z;
  tpRealmID : Z;
  tpName : gostring;
  tpDefinition : Policy.policyJSON;
}.

Definition CreateTrigger (rid : Z) (name : gostring) (definition : TriggerDefs.triggerJSON) : method TriggerRow := fun d =>
  let h := hooks d in
  let id := next_trigger h in
  let drawn t := with_hooks (MkHooks t (policies h) (id + 1) (next_policy h)) d in
  if decide (is_Some (triggers h !! (rid, name))) then (Err ErrAlreadyExists, drawn (triggers h))
  else if realm_exists d rid
  then (Ok (MkTriggerRow id rid name definition), drawn (<[(rid, name) := (id, definition)]> (triggers h)))
  else (Err ErrDatabase, drawn (triggers h)).

Definition GetTrigger (rid : Z) (name : gostring) : method TriggerRow :=
  reads (fun d => or_err (x ← triggers (hooks d) !! (rid, name); Some (MkTriggerRow x.1 rid name x.2)) ErrNotFound).

Definition DeleteTrigger (rid : Z) (name : gostring) : method () := fun d =>
  let h := hooks d in
  match triggers h !! (rid, name) with
  | None => (Err ErrNotFound, d)
  | Some _ => (Ok (), with_hooks (MkHooks (delete (rid, name) (triggers h)) (policies h) (next_trigger h) (next_policy h)) d)
  end.

(** The names of a realm in a table keyed by realm and name. *)
Definition names_of `{Collation} {V} (rid : Z) (m : gmap (Z * gostring) V) : list gostring :=
  collate (omap (fun x => if decide (x.1.1 = rid) then Some x.1.2 else None) (map_to_list m)).

Definition ListTriggers `{Collation} (rid : Z) : method (list TriggerRow) :=
  reads (fun d => Ok (omap (fun n => x ← triggers (hooks d) !! (rid, n); Some (MkTriggerRow x.1 rid n x.2))
                        (names_of rid (triggers (hooks d))))).

Definition CreateTriggerPolicy (rid : Z) (name : gostring) (definition : Policy.policyJSON) : method TriggerPolicy := fun d =>
  let h := hooks d in
  let id := next_policy h in
  let drawn p := with_hooks (MkHooks (triggers h) p (next_trigger h) (id + 1)) d in
  if decide (is_Some (policies h !! (rid, name))) then (Err ErrAlreadyExists, drawn (policies h))
  else if realm_exists d rid
  then (Ok (MkTriggerPolicy id rid name definition), drawn (<[(rid, name) := (id, definition)]> (policies h)))
  else (Err ErrDatabase, drawn (policies h)).

Definition GetTriggerPolicy (rid : Z) (name : gostring) : method TriggerPolicy :=
  reads (fun d => or_err (x ← policies (hooks d) !! (rid, name); Some (MkTriggerPolicy x.1 rid name x.2)) ErrNotFound).

Definition DeleteTriggerPolicy (rid : Z) (name : gostring) : method () := fun d =>
  let h := hooks d in
  match policies h !! (rid, name) with
  | None => (Err ErrNotFound, d)
  | Some _ => (Ok (), with_hooks (MkHooks (triggers h) (delete (rid, name) (policies h)) (next_trigger h) (next_policy h)) d)
  end.

Definition ListTriggerPolicies `{Collation} (rid : Z) : method (list TriggerPolicy) :=
  reads (fun d => Ok (omap (fun n => x ← policies (hooks d) !! (rid, n); Some (MkTriggerPolicy x.1 rid n x.2))
                        (names_of rid (policies (hooks d))))).

(** ** The devices of a realm in order *)

Lemma device_ids_elem d rid id : id ∈ device_ids d rid <-> is_Some (devices d !! (rid, id)).
Proof.
  unfold device_ids. rewrite sort_bytes_perm, list_elem_of_omap. split.
  - intros ([[r i] dev] & Hin & He). simpl in He. case_decide; simplify_eq. apply elem_of_map_to_list in Hin. by exists dev.
  - intros [dev Hd]. exists (rid, id, dev). split; [by apply elem_of_map_to_list|]. simpl. by rewrite decide_True.
Qed.

Lemma omap_NoDup {A B} (f : A -> option B) (l : list A) :
  (forall x y z, f x = Some z -> f y = Some z -> x ∈ l -> y ∈ l -> x = y) -> NoDup l -> NoDup (omap f l).
Proof.
  intros Hf Hnd. induction Hnd as [|x l Hx Hnd IH]; [constructor|]. simpl.
  assert (NoDup (omap f l)) as Hnd'.
  { apply IH. intros a b c ? ? ? ?. eapply Hf; eauto; by right. }
  destruct (f x) as [z|] eqn:E; [|done]. constructor; [|done]. intros (y & Hy & Ey)%list_elem_of_omap.
  assert (x = y) as -> by (eapply Hf; eauto; [left|by right]). done.
Qed.

Lemma device_ids_sorted d rid : StronglySorted bytes_lt (device_ids d rid).
Proof.
  apply sorted_strict; [apply sort_bytes_sorted|]. unfold device_ids. rewrite sort_bytes_perm.
  apply omap_NoDup; [|apply NoDup_map_to_list].
  intros [[r1 i1] d1] [[r2 i2] d2] z H1 H2 L1%elem_of_map_to_list L2%elem_of_map_to_list. simpl in *.
  repeat case_decide; simplify_eq. done.
Qed.


End MetaStore.
