(* ===== verification/MetaWorld.v ===== *)
(** * Requests over the metadata store

    A handler of the management services is a program of store calls; the
    service runs handlers concurrently and the calls of different requests
    interleave. A call answers what its method answers, or fails, after which
    the method may or may not have taken effect. *)

From stdpp Require Import sorting.
From S2P Require Import Prelude GoStrings DeviceID SchemaTypes Endpoints InterfaceParse Topics ByteOrder Policy TriggerDefs MetaStore.

Module MetaWorld.
Import Schema Parse ByteOrder MetaStore.

Section World.
Context `{Collation}.

(** ** Programs *)

Inductive stmt : Type -> Type :=
| SCreateRealm (nr : NewRealm) : stmt Realm
| SGetRealmByName (name : gostring) : stmt Realm
| SListRealms : stmt (list gostring)
| SSetRealmJWTPublicKeys (name : gostring) (keys : list gostring) : stmt ()
| SUpdateRealm (name : gostring) (p : RealmPatch) : stmt ()
| SSetRealmCA (name cert key : gostring) : stmt ()
| SDeleteRealm (name : gostring) : stmt ()
| SRegisterDevice (rid : Z) (id : ID) (hash : gostring) : stmt ()
| SUnregisterDevice (rid : Z) (id : ID) : stmt ()
| SGetDevice (rid : Z) (id : ID) : stmt Device
| SGetDeviceByAlias (rid : Z) (alias : gostring) : stmt (ID * Device)
| SListDevices (rid : Z) (after : option ID) (limit : Z) : stmt (list (ID * Device))
| SCountDevices (rid : Z) : stmt Z
| SUpdateIntrospection (rid : Z) (id : ID) (intro : gmap gostring Topics.Introspection.InterfaceVersion)
    : stmt (gmap gostring Topics.Introspection.InterfaceVersion)
| SSetDeviceInhibited (rid : Z) (id : ID) (inhibited : bool) : stmt ()
| SSetDeviceCredentials (rid : Z) (id : ID) (serial aki ip : gostring) : stmt ()
| SSetDeviceConnected (rid : Z) (id : ID) (at_ : Z) (ip : gostring) : stmt ()
| SSetDeviceDisconnected (rid : Z) (id : ID) (at_ : Z) : stmt ()
| SAddDeviceStats (rid : Z) (id : ID) (msgs bytes : Z) : stmt ()
| SAliasValuesTaken (rid : Z) (id : ID) (values : list gostring) : stmt bool
| SPatchDeviceAliases (rid : Z) (id : ID) (p : patch) : stmt ()
| SPatchDeviceAttributes (rid : Z) (id : ID) (p : patch) : stmt ()
| SSetPayloadFormatHint (rid : Z) (id : ID) (hint : gostring) : stmt ()
| SDeviceStats (rid : Z) : stmt (Z * Z)
| SDeleteDevice (rid : Z) (id : ID) : stmt ()
| SCreateGroup (rid : Z) (name : gostring) : stmt Group
| SGetGroupByName (rid : Z) (name : gostring) : stmt Group
| SDeleteGroup (rid : Z) (name : gostring) : stmt ()
| SListGroups (rid : Z) : stmt (list gostring)
| SAddGroupDevice (gid rid : Z) (id : ID) : stmt ()
| SRemoveGroupDevice (gid rid : Z) (id : ID) : stmt ()
| SListGroupDevices (gid : Z) : stmt (list ID)
| SListGroupDevicesPage (gid offset limit : Z) : stmt (list ID)
| SListDeviceGroups (rid : Z) (id : ID) : stmt (list gostring)
| SListDeviceGroupsBatch (rid : Z) (ids : list ID) : stmt (gmap ID (list gostring))
| SInstallInterface (rid : Z) (def : interfaceJSON) : stmt StoredInterface
| SUpdateInterface (rid : Z) (def : interfaceJSON) : stmt StoredInterface
| SDeleteInterface (rid : Z) (name : gostring) (major : Z) : stmt ()
| SGetInterface (rid : Z) (name : gostring) (major : Z) : stmt StoredInterface
| SLoadRealmInterfaces (rid : Z) : stmt (list StoredInterface)
| SCreateTrigger (rid : Z) (name : gostring) (def : TriggerDefs.triggerJSON) : stmt TriggerRow
| SGetTrigger (rid : Z) (name : gostring) : stmt TriggerRow
| SDeleteTrigger (rid : Z) (name : gostring) : stmt ()
| SListTriggers (rid : Z) : stmt (list TriggerRow)
| SCreateTriggerPolicy (rid : Z) (name : gostring) (def : Policy.policyJSON) : stmt TriggerPolicy
| SGetTriggerPolicy (rid : Z) (name : gostring) : stmt TriggerPolicy
| SDeleteTriggerPolicy (rid : Z) (name : gostring) : stmt ()
| SListTriggerPolicies (rid : Z) : stmt (list TriggerPolicy).

Definition exec {A} (s : stmt A) : method A :=
  match s with
  | SCreateRealm nr => CreateRealm nr
  | SGetRealmByName name => GetRealmByName name
  | SListRealms => ListRealms
  | SSetRealmJWTPublicKeys name keys => SetRealmJWTPublicKeys name keys
  | SUpdateRealm name p => UpdateRealm name p
  | SSetRealmCA name cert key => SetRealmCA name cert key
  | SDeleteRealm name => DeleteRealm name
  | SRegisterDevice rid id hash => RegisterDevice rid id hash
  | SUnregisterDevice rid id => UnregisterDevice rid id
  | SGetDevice rid id => GetDevice rid id
  | SGetDeviceByAlias rid alias => GetDeviceByAlias rid alias
  | SListDevices rid after limit => ListDevices rid after limit
  | SCountDevices rid => CountDevices rid
  | SUpdateIntrospection rid id intro => UpdateIntrospection rid id intro
  | SSetDeviceInhibited rid id b => SetDeviceInhibited rid id b
  | SSetDeviceCredentials rid id serial aki ip => SetDeviceCredentials rid id serial aki ip
  | SSetDeviceConnected rid id at_ ip => SetDeviceConnected rid id at_ ip
  | SSetDeviceDisconnected rid id at_ => SetDeviceDisconnected rid id at_
  | SAddDeviceStats rid id msgs bytes => AddDeviceStats rid id msgs bytes
  | SAliasValuesTaken rid id values => AliasValuesTaken rid id values
  | SPatchDeviceAliases rid id p => PatchDeviceAliases rid id p
  | SPatchDeviceAttributes rid id p => PatchDeviceAttributes rid id p
  | SSetPayloadFormatHint rid id hint => SetPayloadFormatHint rid id hint
  | SDeviceStats rid => DeviceStats rid
  | SDeleteDevice rid id => DeleteDevice rid id
  | SCreateGroup rid name => CreateGroup rid name
  | SGetGroupByName rid name => GetGroupByName rid name
  | SDeleteGroup rid name => DeleteGroup rid name
  | SListGroups rid => ListGroups rid
  | SAddGroupDevice gid rid id => AddGroupDevice gid rid id
  | SRemoveGroupDevice gid rid id => RemoveGroupDevice gid rid id
  | SListGroupDevices gid => ListGroupDevices gid
  | SListGroupDevicesPage gid offset limit => ListGroupDevicesPage gid offset limit
  | SListDeviceGroups rid id => ListDeviceGroups rid id
  | SListDeviceGroupsBatch rid ids => ListDeviceGroupsBatch rid ids
  | SInstallInterface rid def => InstallInterface rid def
  | SUpdateInterface rid def => UpdateInterface rid def
  | SDeleteInterface rid name major => DeleteInterface rid name major
  | SGetInterface rid name major => GetInterface rid name major
  | SLoadRealmInterfaces rid => LoadRealmInterfaces rid
  | SCreateTrigger rid name def => CreateTrigger rid name def
  | SGetTrigger rid name => GetTrigger rid name
  | SDeleteTrigger rid name => DeleteTrigger rid name
  | SListTriggers rid => ListTriggers rid
  | SCreateTriggerPolicy rid name def => CreateTriggerPolicy rid name def
  | SGetTriggerPolicy rid name => GetTriggerPolicy rid name
  | SDeleteTriggerPolicy rid name => DeleteTriggerPolicy rid name
  | SListTriggerPolicies rid => ListTriggerPolicies rid
  end.

(** A request: done with an answer, or a call and what follows. *)
Inductive prog (R : Type) : Type :=
| Ret (r : R)
| Call {A} (s : stmt A) (k : result store_error A -> prog R).
#[global] Arguments Ret {R} r.
#[global] Arguments Call {R A} s k.

(** A call whose failure ends the request. *)
Definition call {R A} (s : stmt A) (fail : store_error -> R) (k : A -> prog R) : prog R :=
  Call s (fun r => match r with Ok a => k a | Err e => Ret (fail e) end).

(** ** A request on its own *)

Fixpoint run {R} (p : prog R) (d : db) : R * db :=
  match p with
  | Ret r => (r, d)
  | Call s k => let '(a, d) := exec s d in run (k a) d
  end.

(** ** Requests together *)

Record world (R : Type) := MkWorld { wdb : db; threads : list (prog R) }.
#[global] Arguments MkWorld {R} _ _.
#[global] Arguments wdb {R} _.
#[global] Arguments threads {R} _.

Definition advance (t : Z) (d : db) : db :=
  MkDb t (realms d) (devices d) (groups d) (group_devices d) (interfaces d) (endpoints d)
    (next_realm d) (next_group d) (next_interface d) (next_endpoint d) (hooks d) (data d).

Inductive step {R} : world R -> world R -> Prop :=
| step_tick t w : step w (MkWorld (advance t (wdb w)) (threads w))
| step_arrive p w : step w (MkWorld (wdb w) (threads w ++ [p]))
| step_call i A (s : stmt A) k w :
    threads w !! i = Some (Call s k) ->
    step w (MkWorld (exec s (wdb w)).2 (<[i := k (exec s (wdb w)).1]> (threads w)))
| step_fail i A (s : stmt A) k w (applied : bool) :
    threads w !! i = Some (Call s k) ->
    step w (MkWorld (if applied then (exec s (wdb w)).2 else wdb w) (<[i := k (Err ErrDatabase)]> (threads w))).

Definition reachable {R} : world R -> world R -> Prop := rtc step.

End World.

(** [let! x := s catch f in k]: [f] turns the store's error into the answer. *)
Notation "'let!' p := s 'catch' f 'in' k" := (call s f (fun x => match x with p => k end))
  (at level 10, p pattern at level 0, s at level 100, f at level 100, k at level 200).

(** ** Integrity *)

Definition has_realm (rs : gmap gostring Realm) (rid : Z) : Prop :=
  exists name r, rs !! name = Some r /\ RealmID r = rid.

(** A device row: a certificate is stamped exactly when credentials were
    requested, and a device that is not inhibited is confirmed exactly then. *)
Record row_ok (dev : Device) : Prop := {
  row_cert : is_Some (CertSerial dev) <-> is_Some (FirstCredentialsRequest dev);
  row_aki : is_Some (CertAKI dev) <-> is_Some (FirstCredentialsRequest dev);
  row_status : Status dev <> DeviceStatusInhibited ->
    (Status dev = DeviceStatusConfirmed <-> is_Some (FirstCredentialsRequest dev));
}.

Record realms_ok (rs : gmap gostring Realm) (next : Z) : Prop := {
  realm_name_valid : forall n r, rs !! n = Some r -> realm_name_ok n = true;
  realm_id_below : forall n r, rs !! n = Some r -> (RealmID r < next)%Z;
  realm_id_unique : forall n1 n2 r1 r2,
    rs !! n1 = Some r1 -> rs !! n2 = Some r2 -> RealmID r1 = RealmID r2 -> n1 = n2;
}.

Definition devices_ok (rs : gmap gostring Realm) (devs : gmap (Z * ID) Device) : Prop :=
  forall rid id dev, devs !! (rid, id) = Some dev -> has_realm rs rid /\ row_ok dev.

Record groups_ok (rs : gmap gostring Realm) (devs : gmap (Z * ID) Device) (gs : gmap (Z * gostring) Z)
    (ms : gmap (Z * ID) Z) (next : Z) : Prop := {
  group_realm : forall rid n gid, gs !! (rid, n) = Some gid -> has_realm rs rid;
  group_id_below : forall k gid, gs !! k = Some gid -> (gid < next)%Z;
  group_id_unique : forall k1 k2 gid, gs !! k1 = Some gid -> gs !! k2 = Some gid -> k1 = k2;
  member_group : forall gid id rid, ms !! (gid, id) = Some rid -> exists n, gs !! (rid, n) = Some gid;
  member_device : forall gid id rid, ms !! (gid, id) = Some rid -> is_Some (devs !! (rid, id));
}.

(** An interface row holds an accepted document under its own name and major
    and one endpoint row per mapping. *)
Definition interface_ok (name : gostring) (major : Z) (row : InterfaceRow) (eps : gmap gostring EndpointRow) : Prop :=
  exists iface canon, buildInterface (ifDefinition row) = Ok (iface, canon) /\
    Name iface = name /\ Major iface = major /\
    (forall ep, is_Some (eps !! ep) <-> ep ∈ Endpoint <$> Mappings iface).

Record interfaces_ok (rs : gmap gostring Realm) (ifs : gmap (Z * gostring * Z) InterfaceRow)
    (eps : gmap Z (gmap gostring EndpointRow)) (nexti nexte : Z) : Prop := {
  interface_realm : forall rid n m row, ifs !! (rid, n, m) = Some row -> has_realm rs rid;
  interface_id_below : forall k row, ifs !! k = Some row -> (ifID row < nexti)%Z;
  interface_id_unique : forall k1 k2 r1 r2,
    ifs !! k1 = Some r1 -> ifs !! k2 = Some r2 -> ifID r1 = ifID r2 -> k1 = k2;
  interface_row : forall rid n m row, ifs !! (rid, n, m) = Some row ->
    exists es, eps !! ifID row = Some es /\ interface_ok n m row es;
  endpoint_owner : forall iid es, eps !! iid = Some es -> exists k row, ifs !! k = Some row /\ ifID row = iid;
  endpoint_id_below : forall iid es ep e, eps !! iid = Some es -> es !! ep = Some e -> (epID e < nexte)%Z;
  endpoint_id_unique : forall i1 i2 es1 es2 p1 p2 e1 e2,
    eps !! i1 = Some es1 -> es1 !! p1 = Some e1 -> eps !! i2 = Some es2 -> es2 !! p2 = Some e2 ->
    epID e1 = epID e2 -> i1 = i2 /\ p1 = p2;
}.

(** A table whose rows are keyed by realm and name and numbered from a
    sequence: its rows belong to realms and have distinct ids. *)
Record rows_ok {A : Type} (rs : gmap gostring Realm) (t : gmap (Z * gostring) (Z * A)) (next : Z) : Prop := {
  row_realm : forall rid n x, t !! (rid, n) = Some x -> has_realm rs rid;
  row_id_below : forall k x, t !! k = Some x -> (x.1 < next)%Z;
  row_id_unique : forall k1 k2 x1 x2, t !! k1 = Some x1 -> t !! k2 = Some x2 -> x1.1 = x2.1 -> k1 = k2;
}.

Record hooks_ok (rs : gmap gostring Realm) (h : Hooks) : Prop := {
  triggers_ok : rows_ok rs (triggers h) (next_trigger h);
  policies_ok : rows_ok rs (policies h) (next_policy h);
}.

Record db_ok (d : db) : Prop := {
  ok_realms : realms_ok (realms d) (next_realm d);
  ok_devices : devices_ok (realms d) (devices d);
  ok_groups : groups_ok (realms d) (devices d) (groups d) (group_devices d) (next_group d);
  ok_interfaces : interfaces_ok (realms d) (interfaces d) (endpoints d) (next_interface d) (next_endpoint d);
  ok_hooks : hooks_ok (realms d) (hooks d);
}.

Lemma realm_exists_spec d rid : realm_exists d rid = true <-> has_realm (realms d) rid.
Proof.
  unfold realm_exists, has_realm. rewrite existsb_exists. split.
  - intros ([n r] & Hin & He). apply list_elem_of_In, elem_of_map_to_list in Hin. apply Z.eqb_eq in He. eauto.
  - intros (n & r & Hn & <-). exists (n, r). split; [|by apply Z.eqb_refl].
    by apply list_elem_of_In, elem_of_map_to_list.
Qed.

(** *** Realms *)

(** Rows that keep their ids keep everything that hangs on them. *)
Lemma realms_ok_sub rs rs' next next' :
  realms_ok rs next -> (next <= next')%Z ->
  (forall n r', rs' !! n = Some r' -> exists r, rs !! n = Some r /\ RealmID r = RealmID r') -> realms_ok rs' next'.
Proof.
  intros [Hn Hb Hu] Hle Hs. split.
  - intros n r (r0 & ? & _)%Hs. eauto.
  - intros n r (r0 & ? & <-)%Hs. specialize (Hb _ _ H). lia.
  - intros n1 n2 r1 r2 (s1 & ? & <-)%Hs (s2 & ? & <-)%Hs. eauto.
Qed.

Lemma devices_ok_grow rs rs' devs :
  (forall rid, has_realm rs rid -> has_realm rs' rid) -> devices_ok rs devs -> devices_ok rs' devs.
Proof. intros Hg Hd rid id dev [??]%Hd. auto. Qed.
Lemma groups_ok_grow rs rs' devs gs ms next :
  (forall rid, has_realm rs rid -> has_realm rs' rid) -> groups_ok rs devs gs ms next -> groups_ok rs' devs gs ms next.
Proof. intros Hg [? ? ? ? ?]. split; eauto. Qed.
Lemma interfaces_ok_grow rs rs' ifs eps ni ne :
  (forall rid, has_realm rs rid -> has_realm rs' rid) ->
  interfaces_ok rs ifs eps ni ne -> interfaces_ok rs' ifs eps ni ne.
Proof. intros Hg [? ? ? ? ? ? ?]. split; eauto. Qed.

Section Rows.
Context {A : Type}.
Implicit Types (rs : gmap gostring Realm) (t : gmap (Z * gostring) (Z * A)).

Lemma rows_ok_grow rs rs' t n :
  (forall rid, has_realm rs rid -> has_realm rs' rid) -> rows_ok rs t n -> rows_ok rs' t n.
Proof. intros Hg [? ? ?]. split; eauto. Qed.

Lemma rows_ok_draw rs t n : rows_ok rs t n -> rows_ok rs t (n + 1).
Proof. intros [? K ?]. split; eauto. intros k x ?%K. lia. Qed.

Lemma rows_ok_sub rs t t' n : t' ⊆ t -> rows_ok rs t n -> rows_ok rs t' n.
Proof.
  intros Hs [? ? ?]. assert (forall k x, t' !! k = Some x -> t !! k = Some x) by (intros; by eapply lookup_weaken).
  split; eauto.
Qed.

Lemma rows_ok_insert rs t n rid name x :
  has_realm rs rid -> rows_ok rs t n -> rows_ok rs (<[(rid, name) := (n, x)]> t) (n + 1).
Proof.
  intros Hr [K1 K2 K3]. split.
  - intros rid' m y [[[= <- <-] _]|[_ ?]]%lookup_insert_Some; eauto.
  - intros k y [[<- <-]|[_ ?%K2]]%lookup_insert_Some; simpl; lia.
  - intros k1 k2 x1 x2 [[<- <-]|[_ H1]]%lookup_insert_Some [[<- <-]|[_ H2]]%lookup_insert_Some; simpl; intros E; eauto.
    + apply K2 in H2. lia.
    + apply K2 in H1. lia.
Qed.

Lemma rows_ok_dropped rs rs' t n gone :
  (forall rid, has_realm rs rid -> rid <> gone -> has_realm rs' rid) ->
  rows_ok rs t n -> rows_ok rs' (filter (fun x => x.1.1 <> gone) t) n.
Proof.
  intros Hk Ht. destruct (rows_ok_sub _ _ (filter (fun x => x.1.1 <> gone) t) _ (map_filter_subseteq _ _) Ht).
  split; eauto. intros rid m x [Hl ?]%map_lookup_filter_Some. eapply Hk; [|done]. by eapply Ht.
Qed.
End Rows.

Lemma hooks_ok_grow rs rs' h :
  (forall rid, has_realm rs rid -> has_realm rs' rid) -> hooks_ok rs h -> hooks_ok rs' h.
Proof. intros Hg [? ?]. split; eauto using rows_ok_grow. Qed.

(** Changing the realms but neither losing an id nor inventing one. *)
Lemma db_ok_realms rs next d :
  db_ok d -> realms_ok rs next -> (forall rid, has_realm (realms d) rid -> has_realm rs rid) ->
  db_ok (MkDb (now d) rs (devices d) (groups d) (group_devices d) (interfaces d) (endpoints d)
           next (next_group d) (next_interface d) (next_endpoint d) (hooks d) (data d)).
Proof.
  intros [? ? ? ? ?] Hr Hg. split; simpl; eauto using devices_ok_grow, groups_ok_grow, interfaces_ok_grow, hooks_ok_grow.
Qed.

Lemma update_realm_ok name f d :
  (forall r, RealmID (f r) = RealmID r) -> db_ok d -> db_ok (update_realm name f d).2.
Proof.
  intros Hf Hd. unfold update_realm. destruct (realms d !! name) as [r|] eqn:E; [|done]. simpl.
  apply db_ok_realms; [done|..].
  - eapply realms_ok_sub; [apply Hd|done|]. intros n r' [[<- <-]|[? ?]]%lookup_insert_Some; eauto.
  - intros rid (n & r0 & Hn & <-). destruct (decide (n = name)) as [->|Hne].
    + simplify_eq. exists name, (f r). by rewrite lookup_insert_eq, Hf.
    + exists n, r0. by rewrite lookup_insert_ne.
Qed.

Lemma CreateRealm_ok nr d : db_ok d -> db_ok (CreateRealm nr d).2.
Proof.
  intros Hd. pose proof (ok_realms _ Hd) as Hr. unfold CreateRealm. case_match; [done|].
  assert (realms_ok (realms d) (next_realm d + 1)) as Hr' by (eapply realms_ok_sub; [done|lia|eauto]).
  destruct (realm_name_ok (nrName nr)) eqn:En; simpl; [|by apply db_ok_realms]. case_decide as Hs; simpl; [by apply db_ok_realms|].
  rewrite <- eq_None_not_Some in Hs. apply db_ok_realms; [done|..].
  - destruct Hr' as [Hn Hb Hu]. split.
    + intros n r [[<- _]|[_ ?]]%lookup_insert_Some; eauto.
    + intros n r [[<- <-]|[_ ?]]%lookup_insert_Some; simpl; [lia|eauto].
    + pose proof (realm_id_below _ _ Hr) as Hb'.
      intros n1 n2 r1 r2 [[<- <-]|[_ H1]]%lookup_insert_Some [[<- <-]|[_ H2]]%lookup_insert_Some; simpl; [done|..|eauto].
      * specialize (Hb' _ _ H2). lia.
      * specialize (Hb' _ _ H1). lia.
  - intros rid (n & r & Hn' & <-). exists n, r. split; [|done]. rewrite lookup_insert_ne; congruence.
Qed.

Lemma DeleteRealm_ok name d : db_ok d -> db_ok (DeleteRealm name d).2.
Proof.
  intros [Hr Hd Hg Hi Hh]. unfold DeleteRealm. destruct (realms d !! name) as [r|] eqn:E; [|by split]. simpl.
  assert (forall rid, has_realm (realms d) rid -> rid <> RealmID r -> has_realm (delete name (realms d)) rid) as Hkeep.
  { intros rid (n & r0 & Hn & <-) Hne. exists n, r0. split; [|done]. rewrite lookup_delete_ne; [done|]. congruence. }
  split; simpl.
  - eapply realms_ok_sub; [done|done|]. intros n r0 [_ ?]%lookup_delete_Some. eauto.
  - intros rid id dev [Hl Hne]%map_lookup_filter_Some. apply Hd in Hl as [??]. auto.
  - destruct Hg as [G1 G2 G3 G4 G5]. split.
    + intros rid n gid [Hl Hne]%map_lookup_filter_Some. eauto.
    + intros k gid [Hl _]%map_lookup_filter_Some. eauto.
    + intros k1 k2 gid [H1 _]%map_lookup_filter_Some [H2 _]%map_lookup_filter_Some. eauto.
    + intros gid id rid [Hl Hne]%map_lookup_filter_Some. destruct (G4 _ _ _ Hl) as [n Hn]. exists n.
      by apply map_lookup_filter_Some.
    + intros gid id rid [Hl Hne]%map_lookup_filter_Some. destruct (G5 _ _ _ Hl) as [dev Hdev]. exists dev.
      by apply map_lookup_filter_Some.
  - destruct Hi as [I1 I2 I3 I4 I5 I6 I7].
    set (gone := ifID <$> (map_to_list (filter (fun x => x.1.1.1 = RealmID r) (interfaces d))).*2).
    assert (forall k row, interfaces d !! k = Some row -> (ifID row ∈ gone <-> k.1.1 = RealmID r)) as Hgone.
    { intros k row Hk. unfold gone. rewrite list_elem_of_fmap. split.
      - intros (row' & Hid & ([k' row''] & -> & Hin)%list_elem_of_fmap). simpl in Hid.
        apply elem_of_map_to_list, map_lookup_filter_Some in Hin as [Hin Hreal]. simpl in Hreal.
        by rewrite (I3 _ _ _ _ Hk Hin Hid).
      - intros Hreal. exists row. split; [done|]. apply list_elem_of_fmap. exists (k, row). split; [done|].
        by apply elem_of_map_to_list, map_lookup_filter_Some. }
    split.
    + intros rid n m row [Hl Hne]%map_lookup_filter_Some. eauto.
    + intros k row [Hl _]%map_lookup_filter_Some. eauto.
    + intros k1 k2 r1 r2 [H1 _]%map_lookup_filter_Some [H2 _]%map_lookup_filter_Some. eauto.
    + intros rid n m row [Hl Hne]%map_lookup_filter_Some. destruct (I4 _ _ _ _ Hl) as (es & He & Hok).
      exists es. split; [|done]. apply map_lookup_filter_Some. split; [done|]. by rewrite (Hgone _ _ Hl).
    + intros iid es [Hl Hne]%map_lookup_filter_Some. destruct (I5 _ _ Hl) as (k & row & Hk & <-).
      exists k, row. split; [|done]. apply map_lookup_filter_Some. split; [done|]. by rewrite <- (Hgone _ _ Hk).
    + intros iid es ep e [Hl _]%map_lookup_filter_Some. eauto.
    + intros i1 i2 es1 es2 p1 p2 e1 e2 [H1 _]%map_lookup_filter_Some ? [H2 _]%map_lookup_filter_Some ?. eauto.
  - destruct Hh as [Ht Hp]. split; simpl; by apply rows_ok_dropped with (realms d).
Qed.

(** *** Devices *)

Lemma groups_ok_devices rs devs devs' gs ms next :
  (forall k, is_Some (devs !! k) -> is_Some (devs' !! k)) ->
  groups_ok rs devs gs ms next -> groups_ok rs devs' gs ms next.
Proof. intros Hk [? ? ? ? ?]. split; eauto. Qed.

Lemma put_device_ok rid id dev d :
  db_ok d -> has_realm (realms d) rid -> row_ok dev -> db_ok (with_devices (<[(rid, id) := dev]> (devices d)) d).
Proof.
  intros [? Hd ? ? ?] Hr Hrow. split; simpl; [done|..|done|done].
  - intros rid' id' dev' [[[= <- <-] <-]|[_ ?]]%lookup_insert_Some; [done|eauto].
  - eapply groups_ok_devices; [|done]. intros k Hk. rewrite lookup_insert_is_Some. destruct (decide ((rid, id) = k)); auto.
Qed.

Lemma update_device_ok rid id f d :
  (forall dev, row_ok dev -> row_ok (f dev)) -> db_ok d -> db_ok (update_device rid id f d).2.
Proof.
  intros Hf Hd. unfold update_device. destruct (devices d !! (rid, id)) as [dev|] eqn:E; [|done]. simpl.
  destruct (ok_devices _ Hd _ _ _ E). apply put_device_ok; auto.
Qed.

Lemma RegisterDevice_ok rid id hash d : db_ok d -> db_ok (RegisterDevice rid id hash d).2.
Proof.
  intros Hd. unfold RegisterDevice. destruct (devices d !! (rid, id)) as [dev|] eqn:E.
  - destruct (ok_devices _ Hd _ _ _ E) as [Hr [H1 H2 H3]].
    destruct (FirstCredentialsRequest dev) eqn:Ef; simpl; [done|]. apply put_device_ok; [done..|].
    split; simpl; rewrite ?Ef; auto. intros _. split; [done|by intros []].
  - destruct (realm_exists d rid) eqn:Er; [|done]. simpl. apply put_device_ok; [done|by apply realm_exists_spec|].
    by split; simpl; rewrite ?is_Some_alt.
Qed.

Lemma DeleteDevice_ok rid id d : db_ok d -> db_ok (DeleteDevice rid id d).2.
Proof.
  intros [? Hd [G1 G2 G3 G4 G5] ?]. unfold DeleteDevice. destruct (devices d !! (rid, id)) eqn:E; [|by split]. simpl.
  split; simpl; [done|..|done|done].
  - intros rid' id' dev [_ ?]%lookup_delete_Some. eauto.
  - split; [eauto..|].
    + intros gid id' rid' [? _]%map_lookup_filter_Some. eauto.
    + intros gid id' rid' [Hl Hne]%map_lookup_filter_Some. simpl in Hne.
      rewrite lookup_delete_ne; [eauto|]. congruence.
Qed.

(** *** Groups *)

Lemma db_ok_groups gs ms next d :
  db_ok d -> groups_ok (realms d) (devices d) gs ms next ->
  db_ok (MkDb (now d) (realms d) (devices d) gs ms (interfaces d) (endpoints d)
           (next_realm d) next (next_interface d) (next_endpoint d) (hooks d) (data d)).
Proof. intros [? ? ? ? ?] Hg. by split. Qed.

Lemma CreateGroup_ok rid name d : db_ok d -> db_ok (CreateGroup rid name d).2.
Proof.
  intros Hd. pose proof (ok_groups _ Hd) as [G1 G2 G3 G4 G5]. unfold CreateGroup.
  assert (groups_ok (realms d) (devices d) (groups d) (group_devices d) (next_group d + 1)) as Hg'.
  { split; eauto. intros k gid ?%G2. lia. }
  case_decide as Hs; [by apply db_ok_groups|]. rewrite <- eq_None_not_Some in Hs.
  destruct (realm_exists d rid) eqn:Er; [|by apply db_ok_groups]. apply realm_exists_spec in Er.
  apply db_ok_groups; [done|]. split.
  - intros rid' n gid [[[= <- <-] _]|[_ ?]]%lookup_insert_Some; eauto.
  - intros k gid [[<- <-]|[_ ?%G2]]%lookup_insert_Some; lia.
  - intros k1 k2 gid [[<- <-]|[_ H1]]%lookup_insert_Some [[<- E2]|[_ H2]]%lookup_insert_Some; [done|..|eauto].
    + apply G2 in H2. lia.
    + subst gid. apply G2 in H1. lia.
  - intros gid id rid' (n & Hn)%G4. exists n. rewrite lookup_insert_ne; [done|]. intros [= -> ->]. congruence.
  - eauto.
Qed.

Lemma DeleteGroup_ok rid name d : db_ok d -> db_ok (DeleteGroup rid name d).2.
Proof.
  intros Hd. pose proof (ok_groups _ Hd) as [G1 G2 G3 G4 G5]. unfold DeleteGroup.
  destruct (groups d !! (rid, name)) as [gid|] eqn:E; [|done]. apply db_ok_groups; [done|]. split.
  - intros rid' n g [_ ?]%lookup_delete_Some. eauto.
  - intros k g [_ ?]%lookup_delete_Some. eauto.
  - intros k1 k2 g [_ ?]%lookup_delete_Some [_ ?]%lookup_delete_Some. eauto.
  - intros g id rid' [Hl Hne]%map_lookup_filter_Some. simpl in Hne. destruct (G4 _ _ _ Hl) as [n Hn]. exists n.
    rewrite lookup_delete_ne; [done|]. intros [= -> ->]. congruence.
  - intros g id rid' [? _]%map_lookup_filter_Some. eauto.
Qed.

Lemma AddGroupDevice_ok gid rid id d : db_ok d -> db_ok (AddGroupDevice gid rid id d).2.
Proof.
  intros Hd. pose proof (ok_groups _ Hd) as [G1 G2 G3 G4 G5]. unfold AddGroupDevice.
  destruct (existsb _ _) eqn:Ee; [|done]. simpl. case_decide; [done|]. case_decide as Hs; [|done].
  apply existsb_exists in Ee as ([[rid' n] gid'] & Hin & Hb). apply list_elem_of_In, elem_of_map_to_list in Hin.
  simpl in Hb. bool_hyps. subst. apply db_ok_groups; [done|]. split; [eauto..| |].
  - intros g i r [[[= <- <-] <-]|[_ ?]]%lookup_insert_Some; eauto.
  - intros g i r [[[= <- <-] <-]|[_ ?]]%lookup_insert_Some; eauto.
Qed.

Lemma RemoveGroupDevice_ok gid rid id d : db_ok d -> db_ok (RemoveGroupDevice gid rid id d).2.
Proof.
  intros Hd. pose proof (ok_groups _ Hd) as [G1 G2 G3 G4 G5]. unfold RemoveGroupDevice. case_decide; [|done].
  apply db_ok_groups; [done|]. split; [eauto..| |]; intros g i r [_ ?]%lookup_delete_Some; eauto.
Qed.

(** *** Interfaces *)

(** Rows added to an interface with fresh ids. *)
Record grown (eps : gmap gostring EndpointRow) (n : Z) (eps' : gmap gostring EndpointRow) (n' : Z) : Prop := {
  grown_le : (n <= n')%Z;
  grown_old : eps ⊆ eps';
  grown_new : forall p e, eps' !! p = Some e -> eps !! p = Some e \/ (n <= epID e < n')%Z;
  grown_unique : forall p1 p2 e1 e2,
    eps' !! p1 = Some e1 -> eps' !! p2 = Some e2 -> (n <= epID e1)%Z -> epID e1 = epID e2 -> p1 = p2;
}.

Definition below (n : Z) (eps : gmap gostring EndpointRow) : Prop :=
  forall p e, eps !! p = Some e -> (epID e < n)%Z.

Lemma grown_refl eps n : below n eps -> grown eps n eps n.
Proof.
  intros Hb. split; [lia|done|auto|]. intros p1 p2 e1 e2 H1 _ Hge _. apply Hb in H1. lia.
Qed.

Lemma grown_below eps n eps' n' : below n eps -> grown eps n eps' n' -> below n' eps'.
Proof. intros Hb [Hle _ Hnew _] p e [H1|H1]%Hnew; [apply Hb in H1|]; lia. Qed.

Lemma grown_insert eps n eps' n' m :
  below n eps -> grown eps n eps' n' -> eps' !! Endpoint m = None ->
  grown eps n (<[Endpoint m := endpoint_row n' m]> eps') (n' + 1).
Proof.
  intros Hb Hg Hnone. pose proof (grown_below _ _ _ _ Hb Hg) as Hb'. destruct Hg as [Hle Hold Hnew Hu]. split; [lia|..].
  - etrans; [exact Hold|]. by apply insert_subseteq.
  - intros p e [[<- <-]|[_ H1]]%lookup_insert_Some; simpl; [right; lia|]. destruct (Hnew _ _ H1); [by left|right; lia].
  - intros p1 p2 e1 e2 [[<- <-]|[_ H1]]%lookup_insert_Some [[<- <-]|[_ H2]]%lookup_insert_Some; simpl; [done|..|eauto].
    + apply Hb' in H2. lia.
    + apply Hb' in H1. lia.
Qed.

Lemma insert_endpoints_None ms : foldl (fun s m => insertEndpoint m s) None ms = None.
Proof. by induction ms. Qed.
Lemma add_endpoints_None ms : foldl (fun s m => add_new_endpoint m s) None ms = None.
Proof. by induction ms. Qed.

Lemma add_endpoints_grown ms eps n eps0 n0 eps' n' :
  below n0 eps0 -> grown eps0 n0 eps n ->
  foldl (fun s m => add_new_endpoint m s) (Some (eps, n)) ms = Some (eps', n') ->
  grown eps0 n0 eps' n' /\
  (forall ep, is_Some (eps' !! ep) <-> is_Some (eps !! ep) \/ ep ∈ Endpoint <$> ms).
Proof.
  intros Hb. revert eps n. induction ms as [|m ms IH]; intros eps n Hg.
  { intros [= <- <-]. split; [done|]. intros ep. set_solver. }
  cbn [foldl]. unfold add_new_endpoint at 2. simpl. case_decide as Hs.
  - intros [Hg' Hd]%IH; [|done]. split; [done|]. intros ep. rewrite Hd. cbn [fmap list_fmap]. rewrite elem_of_cons.
    split; [tauto|]. intros [?|[->|?]]; auto.
  - rewrite <- eq_None_not_Some in Hs. destruct (endpoint_fits m); simpl; [|by rewrite add_endpoints_None].
    intros [Hg' Hd]%IH; [|by apply grown_insert]. split; [done|]. intros ep. rewrite Hd. cbn [fmap list_fmap].
    rewrite elem_of_cons, lookup_insert_is_Some. destruct (decide (Endpoint m = ep)); naive_solver.
Qed.

Lemma insert_is_add ms s x :
  foldl (fun s m => insertEndpoint m s) s ms = Some x -> foldl (fun s m => add_new_endpoint m s) s ms = Some x.
Proof.
  revert s. induction ms as [|m ms IH]; intros s; [done|]. cbn [foldl]. intros Hf.
  replace (add_new_endpoint m s) with (insertEndpoint m s); [by apply IH|].
  destruct s as [[eps n]|]; [|done]. unfold add_new_endpoint. simpl. case_decide; [|done].
  exfalso. simpl in Hf. rewrite decide_True in Hf by done.
  by rewrite insert_endpoints_None in Hf.
Qed.

Lemma loadEndpoints_Some d iid p e :
  loadEndpoints d iid !! p = Some e <-> exists es, endpoints d !! iid = Some es /\ es !! p = Some e.
Proof.
  unfold loadEndpoints. destruct (endpoints d !! iid) as [es|]; simpl.
  - split; [by exists es|]. by intros (? & [= <-] & ?).
  - split; [by intros ?%lookup_empty_Some|]. by intros (? & ? & _).
Qed.

(** One interface row with its endpoints, put in place of itself or new. *)
Lemma put_interface_ok d rid iface canon row eps n :
  db_ok d -> has_realm (realms d) rid -> buildInterface (ifDefinition row) = Ok (iface, canon) ->
  let key := (rid, Name iface, Major iface) in
  let old := loadEndpoints d (ifID row) in
  (forall r, interfaces d !! key = Some r -> ifID r = ifID row) ->
  (interfaces d !! key = None -> (next_interface d <= ifID row)%Z) ->
  grown old (next_endpoint d) eps n ->
  (forall ep, is_Some (eps !! ep) <-> ep ∈ Endpoint <$> Mappings iface) ->
  forall ni, (ifID row < ni)%Z -> (next_interface d <= ni)%Z ->
  db_ok (with_interfaces (<[key := row]> (interfaces d)) (<[ifID row := eps]> (endpoints d)) ni n d).
Proof.
  intros [H1 H2 H3 [I1 I2 I3 I4 I5 I6 I7]] Hr Hb key old Hsame Hfresh Hg Hdom ni Hni Hni'.
  assert (forall k r, interfaces d !! k = Some r -> ifID r = ifID row -> k = key) as Hid.
  { intros k r Hk He. destruct (interfaces d !! key) as [r0|] eqn:E.
    - eapply I3; [exact Hk|exact E|]. by rewrite (Hsame _ eq_refl).
    - specialize (Hfresh eq_refl). apply I2 in Hk. lia. }
  split; simpl; [done..| |done]. split.
  - intros rid' n' m r [[[= <- <- <-] <-]|[_ ?]]%lookup_insert_Some; eauto.
  - intros k r [[<- <-]|[_ ?%I2]]%lookup_insert_Some; lia.
  - intros k1 k2 r1 r2 [[<- <-]|[_ Hk1]]%lookup_insert_Some [[<- <-]|[_ Hk2]]%lookup_insert_Some He; eauto.
    symmetry. eauto.
  - intros rid' n' m r [[[= <- <- <-] <-]|[Hne Hk]]%lookup_insert_Some.
    + exists eps. rewrite lookup_insert_eq. split; [done|]. by exists iface, canon.
    + destruct (I4 _ _ _ _ Hk) as (es & He & Hok). exists es. split; [|done]. rewrite lookup_insert_ne; [done|].
      intros E. apply Hne. symmetry. eapply Hid; [exact Hk|done].
  - intros iid es [[<- <-]|[Hne He]]%lookup_insert_Some.
    + exists key, row. by rewrite lookup_insert_eq.
    + destruct (I5 _ _ He) as (k & r & Hk & <-). exists k, r. split; [|done]. rewrite lookup_insert_ne; [done|].
      intros <-. apply Hne. symmetry. by apply Hsame.
  - destruct Hg as [Hle _ Hnew _]. intros iid es ep e [[<- <-]|[_ He]]%lookup_insert_Some Hp.
    + apply Hnew in Hp as [(es & E & Hp)%loadEndpoints_Some|]; [|lia]. specialize (I6 _ _ _ _ E Hp). lia.
    + specialize (I6 _ _ _ _ He Hp). lia.
  - destruct Hg as [Hle Hsub Hnew Hu].
    assert (forall p e, eps !! p = Some e ->
        (exists es, endpoints d !! ifID row = Some es /\ es !! p = Some e) \/ (next_endpoint d <= epID e)%Z) as Hsplit.
    { intros p e [Hp%loadEndpoints_Some|]%Hnew; [by left|right; lia]. }
    intros i1 i2 es1 es2 p1 p2 e1 e2 [[<- <-]|[Hn1 L1]]%lookup_insert_Some P1 [[<- <-]|[Hn2 L2]]%lookup_insert_Some P2 He;
      [|destruct (Hsplit _ _ P1) as [(es & L & P)|Hge]|destruct (Hsplit _ _ P2) as [(es & L & P)|Hge]|eauto].
    + split; [done|]. destruct (Hsplit _ _ P1) as [(es & L & P)|Hge]; [|eauto].
      destruct (Hsplit _ _ P2) as [(es' & L' & P')|Hge]; [|symmetry; eauto].
      by destruct (I7 _ _ _ _ _ _ _ _ L P L' P' He).
    + destruct (I7 _ _ _ _ _ _ _ _ L P L2 P2 He) as [<- _]. done.
    + specialize (I6 _ _ _ _ L2 P2). lia.
    + destruct (I7 _ _ _ _ _ _ _ _ L1 P1 L P He) as [-> _]. done.
    + specialize (I6 _ _ _ _ L1 P1). lia.
Qed.

Lemma fresh_interface d :
  interfaces_ok (realms d) (interfaces d) (endpoints d) (next_interface d) (next_endpoint d) ->
  loadEndpoints d (next_interface d) = ∅.
Proof.
  intros Hi. unfold loadEndpoints. destruct (endpoints d !! next_interface d) eqn:E; [|done].
  destruct (endpoint_owner _ _ _ _ _ Hi _ _ E) as (k & r & Hk & Hid).
  pose proof (interface_id_below _ _ _ _ _ Hi _ _ Hk). lia.
Qed.

Lemma stored_below d iid :
  interfaces_ok (realms d) (interfaces d) (endpoints d) (next_interface d) (next_endpoint d) ->
  below (next_endpoint d) (loadEndpoints d iid).
Proof. intros Hi p e (es & He & Hp)%loadEndpoints_Some. by eapply (endpoint_id_below _ _ _ _ _ Hi). Qed.

Lemma add_endpoints_empty ms n eps' n' :
  foldl (fun s m => add_new_endpoint m s) (Some (∅, n)) ms = Some (eps', n') ->
  grown ∅ n eps' n' /\ (forall ep, is_Some (eps' !! ep) <-> ep ∈ Endpoint <$> ms).
Proof.
  assert (below n ∅) as Hb by (by intros p e ?%lookup_empty_Some).
  intros [Hg Hd]%(add_endpoints_grown _ _ _ ∅ n); [|done|by apply grown_refl]. split; [done|].
  intros ep. rewrite Hd, lookup_empty, is_Some_alt. simpl. tauto.
Qed.

Lemma interfaces_ok_next rs ifs eps ni ne ni' :
  (ni <= ni')%Z -> interfaces_ok rs ifs eps ni ne -> interfaces_ok rs ifs eps ni' ne.
Proof. intros Hle [? Hb ? ? ? ? ?]. split; eauto. intros k row ?%Hb. lia. Qed.

Lemma InstallInterface_ok rid def d : db_ok d -> db_ok (InstallInterface rid def d).2.
Proof.
  intros Hd. pose proof (ok_interfaces _ Hd) as Hi. unfold InstallInterface.
  destruct (buildInterface def) as [[iface canon]|e] eqn:Eb; [|done].
  assert (db_ok (with_interfaces (interfaces d) (endpoints d) (next_interface d + 1) (next_endpoint d) d)) as Hdrawn.
  { destruct Hd as [? ? ? ?]. split; simpl; try done. eapply interfaces_ok_next; [|done]. lia. }
  destruct (fits (Major iface) && fits (Minor iface)); simpl; [|done].
  case_decide as Hs; [done|]. rewrite <- eq_None_not_Some in Hs.
  destruct (realm_exists d rid) eqn:Er; simpl; [|done]. apply realm_exists_spec in Er.
  destruct (foldl _ _ _) as [[eps n]|] eqn:Ef; [|done]. simpl. apply insert_is_add in Ef.
  destruct (add_endpoints_empty _ _ _ _ Ef) as [Hg Hdom].
  eapply (put_interface_ok d rid iface canon (MkInterfaceRow (next_interface d) def)); simpl; try done; try lia.
  - intros r. by rewrite Hs.
  - by rewrite fresh_interface.
Qed.

Lemma dropped_endpoint_None existing iface :
  dropped_endpoint existing iface = None -> forall ep, is_Some (existing !! ep) -> ep ∈ Endpoint <$> Mappings iface.
Proof.
  unfold dropped_endpoint. intros Hn%head_None ep [e He]. apply list_elem_of_fmap.
  destruct (declares_endpoint iface ep) eqn:E.
  - unfold declares_endpoint in E. apply existsb_exists in E as (m & Hm & Hb). apply list_elem_of_In in Hm. bool_hyps. eauto.
  - exfalso. assert (ep ∈ filter (fun ep => declares_endpoint iface ep = false) (map_to_list existing).*1) as Hin.
    { apply list_elem_of_filter. split; [done|]. apply list_elem_of_fmap. exists (ep, e). split; [done|].
      by apply elem_of_map_to_list. }
    rewrite Hn in Hin. by apply not_elem_of_nil in Hin.
Qed.

Lemma UpdateInterface_ok rid def d : db_ok d -> db_ok (UpdateInterface rid def d).2.
Proof.
  intros Hd. pose proof (ok_interfaces _ Hd) as Hi. unfold UpdateInterface.
  destruct (buildInterface def) as [[iface canon]|e] eqn:Eb; [|done].
  destruct (fits (Major iface)); simpl; [|done]. destruct (interfaces d !! _) as [row|] eqn:Er; [|done].
  destruct (dropped_endpoint _ _) eqn:Ed; [done|]. destruct (fits (Minor iface)); simpl; [|done].
  destruct (foldl _ _ _) as [[eps n]|] eqn:Ef; [|done]. simpl.
  pose proof (stored_below d (ifID row) Hi) as Hbelow.
  destruct (add_endpoints_grown _ _ _ _ _ _ _ Hbelow (grown_refl _ _ Hbelow) Ef) as [Hg Hdom].
  pose proof (interface_id_below _ _ _ _ _ Hi _ _ Er) as Hlt.
  eapply (put_interface_ok d rid iface canon (MkInterfaceRow (ifID row) def)); simpl; try done.
  - eapply (interface_realm _ _ _ _ _ Hi). exact Er.
  - intros r. rewrite Er. by intros [= ->].
  - by rewrite Er.
  - intros ep. rewrite Hdom. split; [|tauto]. intros [?|?]; [|done]. by eapply dropped_endpoint_None.
Qed.

Lemma DeleteInterface_ok rid name major d : db_ok d -> db_ok (DeleteInterface rid name major d).2.
Proof.
  intros Hd. unfold DeleteInterface. case_match; [done|]. destruct (interfaces d !! _) as [row|] eqn:E; [|done].
  destruct (interface_in_use _ _ _ _); [done|]. destruct Hd as [? ? ? [I1 I2 I3 I4 I5 I6 I7]].
  split; simpl; [done..| |done]. split.
  - intros rid' n m r [_ ?]%lookup_delete_Some. eauto.
  - intros k r [_ ?]%lookup_delete_Some. eauto.
  - intros k1 k2 r1 r2 [_ ?]%lookup_delete_Some [_ ?]%lookup_delete_Some. eauto.
  - intros rid' n m r [Hne Hk]%lookup_delete_Some. destruct (I4 _ _ _ _ Hk) as (es & He & Hok). exists es.
    split; [|done]. rewrite lookup_delete_ne; [done|]. intros Eid. apply Hne. by eapply I3.
  - intros iid es [Hne He]%lookup_delete_Some. destruct (I5 _ _ He) as (k & r & Hk & <-). exists k, r. split; [|done].
    rewrite lookup_delete_ne; [done|]. intros <-. simplify_eq.
  - intros iid es ep e [_ ?]%lookup_delete_Some. eauto.
  - intros i1 i2 es1 es2 p1 p2 e1 e2 [_ ?]%lookup_delete_Some ? [_ ?]%lookup_delete_Some ?. eauto.
Qed.

(** *** Triggers and policies *)

Lemma with_hooks_ok h d : db_ok d -> hooks_ok (realms d) h -> db_ok (with_hooks h d).
Proof. intros [? ? ? ? ?] Hh. by split. Qed.

Lemma CreateTrigger_ok rid name def d : db_ok d -> db_ok (CreateTrigger rid name def d).2.
Proof.
  intros Hd. destruct (ok_hooks _ Hd) as [Ht Hp]. unfold CreateTrigger. pose proof (rows_ok_draw _ _ _ Ht).
  case_decide; [by apply with_hooks_ok|]. destruct (realm_exists d rid) eqn:Er; [|by apply with_hooks_ok].
  apply realm_exists_spec in Er. apply with_hooks_ok; [done|]. split; [by apply rows_ok_insert|done].
Qed.

Lemma CreateTriggerPolicy_ok rid name def d : db_ok d -> db_ok (CreateTriggerPolicy rid name def d).2.
Proof.
  intros Hd. destruct (ok_hooks _ Hd) as [Ht Hp]. unfold CreateTriggerPolicy. pose proof (rows_ok_draw _ _ _ Hp).
  case_decide; [by apply with_hooks_ok|]. destruct (realm_exists d rid) eqn:Er; [|by apply with_hooks_ok].
  apply realm_exists_spec in Er. apply with_hooks_ok; [done|]. split; [done|by apply rows_ok_insert].
Qed.

Lemma DeleteTrigger_ok rid name d : db_ok d -> db_ok (DeleteTrigger rid name d).2.
Proof.
  intros Hd. destruct (ok_hooks _ Hd) as [Ht Hp]. unfold DeleteTrigger. case_match; [|done].
  apply with_hooks_ok; [done|]. split; [|done]. eapply rows_ok_sub, Ht. apply delete_subseteq.
Qed.

Lemma DeleteTriggerPolicy_ok rid name d : db_ok d -> db_ok (DeleteTriggerPolicy rid name d).2.
Proof.
  intros Hd. destruct (ok_hooks _ Hd) as [Ht Hp]. unfold DeleteTriggerPolicy. case_match; [|done].
  apply with_hooks_ok; [done|]. split; [done|]. eapply rows_ok_sub, Hp. apply delete_subseteq.
Qed.

(** *** Every step *)

Section Integrity.
Context `{Collation}.

Lemma meta_exec_ok {A} (s : stmt A) d : db_ok d -> db_ok (exec s d).2.
Proof.
  intros Hd. destruct s; simpl; try done;
    try first [by apply CreateRealm_ok|by apply DeleteRealm_ok|by apply RegisterDevice_ok|by apply DeleteDevice_ok
          |by apply CreateGroup_ok|by apply DeleteGroup_ok|by apply AddGroupDevice_ok|by apply RemoveGroupDevice_ok
          |by apply InstallInterface_ok|by apply UpdateInterface_ok|by apply DeleteInterface_ok
          |by apply CreateTrigger_ok|by apply DeleteTrigger_ok|by apply CreateTriggerPolicy_ok|by apply DeleteTriggerPolicy_ok
          |by apply update_realm_ok].
  - unfold UpdateRealm. destruct (patch_columns p) as [|c cs] eqn:E; [done|]. rewrite <- E. apply update_realm_ok; [|done].
    clear. unfold patch_columns. intros r. by repeat case_match.
  - apply update_device_ok; [|done]. intros dev [H1 H2 H3]. by split; simpl; rewrite ?is_Some_alt.
  - unfold UpdateIntrospection. destruct (devices d !! (rid, id)) as [dev|] eqn:E; [|done]. simpl.
    destruct (ok_devices _ Hd _ _ _ E) as [Hr [H1 H2 H3]]. apply put_device_ok; [done..|]. by split.
  - apply update_device_ok; [|done]. intros dev [H1 H2 H3]. split; simpl; [done..|].
    destruct inhibited, (FirstCredentialsRequest dev); simpl; rewrite ?is_Some_alt; done.
  - apply update_device_ok; [|done]. intros dev [H1 H2 H3]. by split; simpl; rewrite ?is_Some_alt.
  - apply update_device_ok; [|done]. intros dev [H1 H2 H3]. by split.
  - apply update_device_ok; [|done]. intros dev [H1 H2 H3]. by split.
  - unfold AddDeviceStats. destruct (devices d !! (rid, id)) as [dev|] eqn:E; [|done]. case_decide; [|done]. simpl.
    destruct (ok_devices _ Hd _ _ _ E) as [Hr [H1 H2 H3]]. apply put_device_ok; [done..|]. by split.
  - apply update_device_ok; [|done]. intros dev [H1 H2 H3]. by split.
  - apply update_device_ok; [|done]. intros dev [H1 H2 H3]. by split.
  - unfold SetPayloadFormatHint. case_decide; [done|]. apply update_device_ok; [|done]. intros dev [H1 H2 H3]. by split.
Qed.

(** What a step does to the tables: time passes, or a method runs. *)
Lemma step_db {R} (w w' : world R) :
  step w w' -> (exists t, wdb w' = advance t (wdb w)) \/ wdb w' = wdb w \/
               exists A (s : stmt A), wdb w' = (exec s (wdb w)).2.
Proof. destruct 1; simpl; [by left; exists t|by right; left|right; right; eauto|]. destruct applied; eauto. Qed.

Lemma reachable_db_ok {R} (w w' : world R) : reachable w w' -> db_ok (wdb w) -> db_ok (wdb w').
Proof.
  induction 1 as [w|w w1 w2 Hs _ IH]; [done|]. intros Hok. apply IH.
  destruct (step_db _ _ Hs) as [[t ->]|[->|(A & s & ->)]]; [destruct Hok; by split|done|by apply meta_exec_ok].
Qed.

(** *** Endpoint ids *)

(** The id of an endpoint row names the interface and the endpoint. *)
Definition names_endpoint (d : db) (id : Z) (x : Z * gostring) : Prop :=
  exists es e, endpoints d !! x.1 = Some es /\ es !! x.2 = Some e /\ epID e = id.

Definition ids_fresh (d d' : db) : Prop :=
  (next_endpoint d <= next_endpoint d')%Z /\
  forall id x, names_endpoint d' id x -> names_endpoint d id x \/ (next_endpoint d <= id)%Z.

Lemma same_endpoints_fresh d d' :
  endpoints d' = endpoints d -> next_endpoint d' = next_endpoint d -> ids_fresh d d'.
Proof. intros E1 E2. unfold ids_fresh, names_endpoint. rewrite E1, E2. split; [lia|auto]. Qed.

Lemma fewer_endpoints_fresh d d' :
  endpoints d' ⊆ endpoints d -> next_endpoint d' = next_endpoint d -> ids_fresh d d'.
Proof.
  intros E1 E2. split; [lia|]. intros id x (es & e & H1 & H2 & H3). left. exists es, e.
  split; [|done]. by eapply lookup_weaken.
Qed.

Lemma put_endpoints_fresh d ifs iid eps ni n :
  grown (loadEndpoints d iid) (next_endpoint d) eps n ->
  ids_fresh d (with_interfaces ifs (<[iid := eps]> (endpoints d)) ni n d).
Proof.
  intros [Hle Hsub Hnew _]. split; [done|]. intros id [i p] (es & e & H1 & H2 & <-). simpl in *.
  apply lookup_insert_Some in H1 as [[<- <-]|[_ H1]].
  - apply Hnew in H2 as [(es & ? & ?)%loadEndpoints_Some|?]; [left; by exists es, e|right; lia].
  - left. by exists es, e.
Qed.

Lemma update_realm_endpoints name f d :
  endpoints (update_realm name f d).2 = endpoints d /\ next_endpoint (update_realm name f d).2 = next_endpoint d.
Proof. unfold update_realm. by case_match. Qed.
Lemma update_device_endpoints rid id f d :
  endpoints (update_device rid id f d).2 = endpoints d /\ next_endpoint (update_device rid id f d).2 = next_endpoint d.
Proof. unfold update_device. by case_match. Qed.

Lemma exec_fresh {A} (s : stmt A) d : db_ok d -> ids_fresh d (exec s d).2.
Proof.
  intros Hd. pose proof (ok_interfaces _ Hd) as Hi.
  destruct s; simpl; try (by apply same_endpoints_fresh);
    try (apply same_endpoints_fresh; first [apply update_realm_endpoints|apply update_device_endpoints]; fail).
  - unfold CreateRealm. repeat case_match; by apply same_endpoints_fresh.
  - unfold UpdateRealm. case_match; [by apply same_endpoints_fresh|]. apply same_endpoints_fresh; apply update_realm_endpoints.
  - unfold DeleteRealm. case_match; [|by apply same_endpoints_fresh]. apply fewer_endpoints_fresh; [|done].
    apply map_filter_subseteq.
  - unfold RegisterDevice. repeat case_match; by apply same_endpoints_fresh.
  - unfold UpdateIntrospection. case_match; by apply same_endpoints_fresh.
  - unfold AddDeviceStats. repeat case_match; by apply same_endpoints_fresh.
  - unfold SetPayloadFormatHint. case_decide; [by apply same_endpoints_fresh|].
    apply same_endpoints_fresh; apply update_device_endpoints.
  - unfold DeleteDevice. case_match; by apply same_endpoints_fresh.
  - unfold CreateGroup. repeat case_match; by apply same_endpoints_fresh.
  - unfold DeleteGroup. case_match; by apply same_endpoints_fresh.
  - unfold AddGroupDevice. repeat case_match; by apply same_endpoints_fresh.
  - unfold RemoveGroupDevice. case_match; by apply same_endpoints_fresh.
  - unfold InstallInterface. destruct (buildInterface def) as [[iface canon]|]; [|by apply same_endpoints_fresh].
    destruct (fits _ && fits _); simpl; [|by apply same_endpoints_fresh].
    case_decide; [by apply same_endpoints_fresh|]. case_match; [by apply same_endpoints_fresh|].
    destruct (foldl _ _ _) as [[eps n']|] eqn:Ef; [|by apply same_endpoints_fresh].
    apply put_endpoints_fresh. apply insert_is_add, add_endpoints_empty in Ef as [Hg _]. by rewrite fresh_interface.
  - unfold UpdateInterface. destruct (buildInterface def) as [[iface canon]|]; [|by apply same_endpoints_fresh].
    destruct (fits (Major iface)); simpl; [|by apply same_endpoints_fresh].
    destruct (interfaces d !! _) as [row|] eqn:Er; [|by apply same_endpoints_fresh].
    case_match; [by apply same_endpoints_fresh|]. destruct (fits (Minor iface)); simpl; [|by apply same_endpoints_fresh].
    destruct (foldl _ _ _) as [[eps n']|] eqn:Ef; [|by apply same_endpoints_fresh]. apply put_endpoints_fresh.
    pose proof (stored_below d (ifID row) Hi) as Hb. by eapply add_endpoints_grown; [exact Hb|by apply grown_refl|].
  - unfold DeleteInterface. repeat case_match; try by apply same_endpoints_fresh.
    apply fewer_endpoints_fresh; [|done]. apply delete_subseteq.
  - unfold CreateTrigger. repeat case_match; by apply same_endpoints_fresh.
  - unfold DeleteTrigger. case_match; by apply same_endpoints_fresh.
  - unfold CreateTriggerPolicy. repeat case_match; by apply same_endpoints_fresh.
  - unfold DeleteTriggerPolicy. case_match; by apply same_endpoints_fresh.
Qed.

Lemma ids_fresh_refl d : ids_fresh d d.
Proof. split; [lia|auto]. Qed.
Lemma ids_fresh_trans d1 d2 d3 : ids_fresh d1 d2 -> ids_fresh d2 d3 -> ids_fresh d1 d3.
Proof.
  intros [L1 N1] [L2 N2]. split; [lia|]. intros id x [Hn|?]%N2; [by apply N1|right; lia].
Qed.

Lemma reachable_fresh {R} (w w' : world R) : reachable w w' -> db_ok (wdb w) -> ids_fresh (wdb w) (wdb w').
Proof.
  induction 1 as [w|w w1 w2 Hs Hr IH]; intros Hok; [apply ids_fresh_refl|]. apply (ids_fresh_trans _ (wdb w1)).
  - destruct (step_db _ _ Hs) as [[t ->]|[->|(A & s & ->)]]; [by apply same_endpoints_fresh|apply ids_fresh_refl|by apply exec_fresh].
  - apply IH. eapply reachable_db_ok; [|exact Hok]. by apply rtc_once.
Qed.

(** A request run on its own is a schedule of the world it is alone in. *)
Lemma run_reachable {R} (p : prog R) d :
  reachable (MkWorld d [p]) (MkWorld (run p d).2 [Ret (run p d).1]).
Proof.
  revert d. induction p as [r|A s k IH]; intros d; [constructor|]. simpl.
  destruct (exec s d) as [a d'] eqn:E. eapply rtc_l; [|apply IH].
  pose proof (step_call 0 A s k (MkWorld d [Call s k]) eq_refl) as Hs. simpl in Hs. by rewrite E in Hs.
Qed.

(** A schedule: which request makes its next call. *)
Definition run_one {R} (w : world R) (i : nat) : world R :=
  match threads w !! i with
  | Some (Call s k) => MkWorld (exec s (wdb w)).2 (<[i := k (exec s (wdb w)).1]> (threads w))
  | _ => w
  end.
Definition schedule {R} (l : list nat) (w : world R) : world R := foldl run_one w l.

Lemma schedule_reachable {R} l (w : world R) : reachable w (schedule l w).
Proof.
  revert w. induction l as [|i l IH]; intros w; [constructor|]. change (schedule (i :: l) w) with (schedule l (run_one w i)).
  unfold run_one. destruct (threads w !! i) as [[r|A s k]|] eqn:E; [apply IH| |apply IH].
  eapply rtc_l; [by apply step_call|]. apply IH.
Qed.

End Integrity.

Definition empty_db : db := MkDb 0 ∅ ∅ ∅ ∅ ∅ ∅ 1 1 1 1 (MkHooks ∅ ∅ 1 1) (MkDataTables [] [] ∅ ∅ ∅ ∅).

Lemma empty_db_ok : db_ok empty_db.
Proof.
  split; [split|unfold devices_ok|split|split|split; split]; cbn; intros *; by intros ?%lookup_empty_Some.
Qed.

(** C7. However requests interleave and whichever calls fail, starting from the
    migrated schema: realm names are valid and realm ids distinct; every
    device and group belongs to a realm and every membership to a group and a
    device of one realm; a device carries a certificate exactly when it has
    requested credentials, and unless it is inhibited it is confirmed exactly
    then; every interface row holds a valid document under its own name and
    major with one endpoint row per mapping; triggers and delivery policies
    belong to a realm; and ids are distinct. *)
Theorem metadata_integrity `{Collation} {R} (ts : list (prog R)) w :
  reachable (MkWorld empty_db ts) w -> db_ok (wdb w).
Proof. intros Hr. by apply (reachable_db_ok _ _ Hr), empty_db_ok. Qed.

(** An endpoint id is never reused: if it names an endpoint of an interface at
    one time and an endpoint of an interface at a later one, through any
    requests and failures, these are the same endpoint of the same interface,
    so stored rows that refer to the id keep their meaning. *)
Theorem endpoint_ids_never_reused `{Collation} {R} (w w' : world R) id x y :
  db_ok (wdb w) -> reachable w w' -> names_endpoint (wdb w) id x -> names_endpoint (wdb w') id y -> x = y.
Proof.
  intros Hok Hr (es & e & H1 & H2 & <-) Hy. destruct x as [i p]. simpl in *.
  pose proof (ok_interfaces _ Hok) as Hi. pose proof (endpoint_id_below _ _ _ _ _ Hi _ _ _ _ H1 H2).
  apply (reachable_fresh _ _ Hr Hok) in Hy as [(es' & e' & H1' & H2' & He)|?]; [|lia]. destruct y as [i' p'].
  by destruct (endpoint_id_unique _ _ _ _ _ Hi _ _ _ _ _ _ _ _ H1 H2 H1' H2' (eq_sym He)) as [-> ->].
Qed.

(** ** A sample *)

#[export] Instance byte_collation : Collation := {| collate := sort_bytes; collate_perm := sort_bytes_perm |}.

Definition sample_mapping (endpoint : gostring) (type : ValueType) : mappingJSON :=
  MkMappingJSON (Some endpoint) None (Some type) None None None None None None None None None [] [].
Definition sample_doc (name : gostring) (major minor : Z) (ms : list mappingJSON) : interfaceJSON :=
  MkInterfaceJSON (Some name) (Some major) (Some minor) (Some Datastream) (Some OwnershipDevice) None None None [] [] ms false.
Definition sample_v1 : interfaceJSON := sample_doc "org.Test"%go 0 1 [sample_mapping "/value"%go Double].
Definition sample_v2 : interfaceJSON :=
  sample_doc "org.Test"%go 0 2 [sample_mapping "/value"%go Double; sample_mapping "/state"%go Boolean].
Definition sample_id (c : ascii) : ID := replicate 16 c.

(** Calls one after the other, whatever they answer. *)
Fixpoint all_calls (l : list (sigT stmt)) : prog () :=
  match l with
  | [] => Ret ()
  | existT _ s :: l => Call s (fun _ => all_calls l)
  end.

Definition sample_realm : NewRealm := MkNewRealm "test"%go ["pem"%go] "ca"%go "key"%go (Some 10%Z) None.
Definition sample_setup : prog () :=
  all_calls [existT _ (SCreateRealm sample_realm); existT _ (SRegisterDevice 1 (sample_id "a") "hash"%go);
    existT _ (SSetDeviceCredentials 1 (sample_id "a") "1"%go "aki"%go "::1"%go);
    existT _ (SCreateGroup 1 "g"%go); existT _ (SAddGroupDevice 1 1 (sample_id "a"));
    existT _ (SInstallInterface 1 sample_v1)].
Definition sample_db : db := (run sample_setup empty_db).2.

Lemma sample_db_ok : db_ok sample_db.
Proof. apply (reachable_db_ok _ _ (run_reachable sample_setup empty_db)), empty_db_ok. Qed.

Lemma metadata_integrity_witness :
  bool_decide (is_Some (devices sample_db !! (1%Z, sample_id "a"))) = true /\ db_ok sample_db.
Proof.
  split; [vm_compute; reflexivity|].
  exact (metadata_integrity [sample_setup] _ (run_reachable sample_setup empty_db)).
Defined.

Lemma endpoint_ids_never_reused_witness :
  let w := MkWorld sample_db [all_calls [existT _ (SUpdateInterface 1 sample_v2)]] in
  let d := (run (all_calls [existT _ (SUpdateInterface 1 sample_v2)]) sample_db).2 in
  (epID <$> loadEndpoints d 1 !! "/value"%go) = Some 1%Z /\ (1%Z, "/value"%go) = (1%Z, "/value"%go).
Proof.
  intros w d. split; [vm_compute; reflexivity|].
  refine (endpoint_ids_never_reused w _ 1 _ _ sample_db_ok (run_reachable _ _) _ _).
  - eexists _, _. split; [vm_compute; reflexivity|]. split; [vm_compute; reflexivity|]. reflexivity.
  - eexists _, _. split; [vm_compute; reflexivity|]. split; [vm_compute; reflexivity|]. reflexivity.
Defined.

End MetaWorld.
