(* ===== verification/AppEngine.v ===== *)
(** * The AppEngine service

    [internal/appengine/service.go]: device status and patches, device groups,
    the two page cursors and the resolution of devices by alias and by group;
    the request checks and the error mapping of [internal/appengine/http.go].
    Handlers are programs over the metadata store; reading data is in
    {!Query}. *)

From stdpp Require Import sorting.
From S2P Require Import Prelude GoStrings DeviceID SchemaTypes Endpoints InterfaceParse Topics ByteOrder MetaStore MetaWorld.

Module AppEngine.
Import Schema Parse ByteOrder MetaStore MetaWorld.
Import Topics.Introspection.

(** ** Errors *)

(** A changeset failure: the field and its messages. *)
Definition FieldErrors : Type := list (gostring * gostring).

Inductive api_error :=
| ErrValidation (detail : gostring)
| ErrInvalidAlias
| ErrAliasAlreadyInUse
| ErrAliasTagNotFound
| ErrInvalidAttributes
| ErrAttributeKeyNotFound
| ErrGroupNotFound
| ErrGroupAlreadyExists
| ErrDeviceAlreadyInGroup
| ErrFields (fe : FieldErrors)
| ErrStore (e : store_error).

(** A group that does not resolve, whatever the store's reason. *)
Definition missingGroup (_ : store_error) : api_error := ErrGroupNotFound.

(** [writeError]: the status and the detail. *)
Inductive response := Detail (status : Z) (detail : gostring) | Fields (status : Z) (fe : FieldErrors).
Definition writeError (e : api_error) : response :=
  match e with
  | ErrFields fe => Fields 422 fe
  | ErrInvalidAlias => Detail 400 "Invalid alias"%go
  | ErrAliasAlreadyInUse => Detail 409 "Alias already in use"%go
  | ErrAliasTagNotFound => Detail 400 "Alias tag not found"%go
  | ErrInvalidAttributes => Detail 400 "Invalid attributes"%go
  | ErrAttributeKeyNotFound => Detail 422 "Attribute key not found"%go
  | ErrValidation detail => Detail 422 detail
  | ErrGroupAlreadyExists => Detail 409 "Group already exists"%go
  | ErrDeviceAlreadyInGroup => Detail 409 "Device already in group"%go
  | ErrStore ErrAlreadyExists => Detail 409 "Already exists"%go
  | ErrGroupNotFound => Detail 404 "Group not found"%go
  | ErrStore ErrNotFound => Detail 404 "Device not found"%go
  | ErrStore _ => Detail 500 "Internal server error"%go
  end.

(** ** Device status *)

Record DeviceStatus := MkDeviceStatus {
  dsID : gostring;
  dsConnected : bool;
  dsIntrospection : gmap gostring InterfaceVersion;
  dsAliases : gmap gostring gostring;
  dsAttributes : gmap gostring gostring;
  dsGroups : list gostring;
  dsCredentialsInhibited : bool;
  dsTotalReceivedMsgs : Z;
  dsTotalReceivedBytes : Z;
  dsFirstRegistration : Z;
  dsFirstCredentialsReq : option Z;
  dsLastConnection : option Z;
  dsLastDisconnection : option Z;
  dsLastSeenIP : option gostring;
  dsPreviousInterfaces : gmap gostring InterfaceVersion;
}.

Definition deviceStatusView (id : ID) (d : Device) (groups : list gostring) : DeviceStatus :=
  MkDeviceStatus (DeviceID.String id) (Connected d) (Introspection d) (Aliases d) (Attributes d) groups
    (bool_decide (Status d = DeviceStatusInhibited)) (TotalReceivedMsgs d) (TotalReceivedBytes d)
    (FirstRegistration d) (FirstCredentialsRequest d) (LastConnection d) (LastDisconnection d)
    (LastSeenIP d) (OldIntrospection d).

Abbreviation answer A := (prog (result api_error A)).
Definition ok {A} (a : A) : answer A := Ret (Ok a).
Definition fail {A} (e : api_error) : answer A := Ret (Err e).
Definition store_err {A} (e : store_error) : result api_error A := Err (ErrStore e).

Definition realmID {A} (realm : gostring) (k : Z -> answer A) : answer A :=
  let! r := SGetRealmByName realm catch store_err in k (RealmID r).

(** A device identifier that does not parse is an unknown device. *)
Definition parsed {A} (deviceID : gostring) (k : ID -> answer A) : answer A :=
  match DeviceID.Parse deviceID with Ok id => k id | Err _ => fail (ErrStore ErrNotFound) end.

Definition deviceStatus (rid : Z) (id : ID) (d : Device) : answer DeviceStatus :=
  let! groups := SListDeviceGroups rid id catch store_err in ok (deviceStatusView id d groups).

Definition deviceStatusBatch {A} (rid : Z) (devs : list (ID * Device)) (k : list DeviceStatus -> answer A) : answer A :=
  let! groups := SListDeviceGroupsBatch rid devs.*1 catch store_err in
  k (map (fun x => deviceStatusView x.1 x.2 (default [] (groups !! x.1))) devs).

Definition GetDevice (realm deviceID : gostring) : answer DeviceStatus :=
  realmID realm (fun rid => parsed deviceID (fun id =>
    let! d := SGetDevice rid id catch store_err in deviceStatus rid id d)).

Definition GetDeviceByAlias (realm alias : gostring) : answer DeviceStatus :=
  realmID realm (fun rid =>
    let! x := SGetDeviceByAlias rid alias catch store_err in deviceStatus rid x.1 x.2).

Definition DevicesStats (realm : gostring) : answer (Z * Z) :=
  realmID realm (fun rid => let! s := SDeviceStats rid catch store_err in ok s).

(** ** Patches *)

Record DevicePatch := MkPatch {
  pAliases : patch;
  pAttributes : patch;
  pCredentialsInhibited : option bool;
}.

Definition blank_alias (x : gostring * option gostring) : bool :=
  bool_decide (x.1 = []) || bool_decide (x.2 = Some []).
Definition blank_key (x : gostring * option gostring) : bool := bool_decide (x.1 = []).
Definition missing_key (column : gmap gostring gostring) (x : gostring * option gostring) : bool :=
  bool_decide (x.2 = None) && bool_decide (column !! x.1 = None).

(** The alias values a patch touches. *)
Definition touched_values (d : Device) (p : patch) : list gostring :=
  omap (fun x => match x.2 with Some v => Some v | None => Aliases d !! x.1 end) (map_to_list p).

Definition aliasValuesTaken (rid : Z) (id : ID) (d : Device) (p : patch) (k : bool -> answer DeviceStatus)
    : answer DeviceStatus :=
  let values := touched_values d p in
  if decide (values = []) then k false
  else let! taken := SAliasValuesTaken rid id values catch store_err in k taken.

(** A write that is skipped when there is nothing to write. *)
Definition write_if {A} (b : bool) (s : stmt ()) (k : answer A) : answer A :=
  if b then let! _ := s catch store_err in k else k.

Definition write_patch (rid : Z) (id : ID) (p : DevicePatch) : answer DeviceStatus :=
  write_if (negb (bool_decide (pAliases p = ∅))) (SPatchDeviceAliases rid id (pAliases p))
    (write_if (negb (bool_decide (pAttributes p = ∅))) (SPatchDeviceAttributes rid id (pAttributes p))
      (write_if (bool_decide (is_Some (pCredentialsInhibited p)))
         (SSetDeviceInhibited rid id (default false (pCredentialsInhibited p)))
         (let! d := SGetDevice rid id catch store_err in deviceStatus rid id d))).

(** Everything after the ownership check. *)
Definition after_ownership (rid : Z) (id : ID) (d : Device) (p : DevicePatch) (taken : bool) : answer DeviceStatus :=
  if taken then fail ErrAliasAlreadyInUse
  else if existsb blank_key (map_to_list (pAttributes p)) then fail ErrInvalidAttributes
  else if existsb (missing_key (Aliases d)) (map_to_list (pAliases p)) then fail ErrAliasTagNotFound
  else if existsb (missing_key (Attributes d)) (map_to_list (pAttributes p)) then fail ErrAttributeKeyNotFound
  else write_patch rid id p.

Definition applyPatch (rid : Z) (id : ID) (d : Device) (p : DevicePatch) : answer DeviceStatus :=
  if existsb blank_alias (map_to_list (pAliases p)) then fail ErrInvalidAlias
  else if decide (pAliases p = ∅) then after_ownership rid id d p false
  else aliasValuesTaken rid id d (pAliases p) (after_ownership rid id d p).

Definition PatchDevice (realm deviceID : gostring) (p : DevicePatch) : answer DeviceStatus :=
  realmID realm (fun rid => parsed deviceID (fun id =>
    let! d := SGetDevice rid id catch store_err in applyPatch rid id d p)).

Definition PatchDeviceByAlias (realm alias : gostring) (p : DevicePatch) : answer DeviceStatus :=
  realmID realm (fun rid =>
    let! x := SGetDeviceByAlias rid alias catch store_err in applyPatch rid x.1 x.2 p).

(** The group first, then the membership. *)
Definition groupMember {A} (realm groupName deviceID : gostring) (k : Z -> ID -> Device -> answer A) : answer A :=
  realmID realm (fun rid =>
    let! _ := SGetGroupByName rid groupName catch (fun e => Err (missingGroup e)) in
    parsed deviceID (fun id =>
      let! groups := SListDeviceGroups rid id catch store_err in
      if negb (bool_decide (groupName ∈ groups)) then fail (ErrStore ErrNotFound)
      else let! d := SGetDevice rid id catch store_err in k rid id d)).

Definition PatchGroupDevice (realm groupName deviceID : gostring) (p : DevicePatch) : answer DeviceStatus :=
  groupMember realm groupName deviceID (fun rid id d => applyPatch rid id d p).

Definition GetGroupDevice (realm groupName deviceID : gostring) : answer DeviceStatus :=
  groupMember realm groupName deviceID deviceStatus.

(** ** Groups *)

Definition not_found (raw : gostring) : gostring := "must exist ("%go ++ raw ++ " not found)"%go.

(** The loop over the listed devices: the failures and the distinct ids. *)
Fixpoint check_devices (rid : Z) (devices : list gostring) (fe : FieldErrors) (ids : list ID)
    (k : FieldErrors -> list ID -> answer ()) : answer () :=
  match devices with
  | [] => k fe ids
  | raw :: devices =>
      match DeviceID.Parse raw with
      | Err _ => check_devices rid devices (fe ++ [("devices"%go, not_found raw)]) ids k
      | Ok id =>
          Call (SGetDevice rid id) (fun r =>
            match r with
            | Err ErrNotFound => check_devices rid devices (fe ++ [("devices"%go, not_found raw)]) ids k
            | Err e => fail (ErrStore e)
            | Ok _ => check_devices rid devices fe (if decide (id ∈ ids) then ids else ids ++ [id]) k
            end)
      end
  end.

Fixpoint add_members (gid rid : Z) (ids : list ID) : answer () :=
  match ids with
  | [] => ok ()
  | id :: ids => let! _ := SAddGroupDevice gid rid id catch store_err in add_members gid rid ids
  end.

Definition group_exists_err {A} (e : store_error) : result api_error A :=
  match e with ErrAlreadyExists => Err ErrGroupAlreadyExists | _ => Err (ErrStore e) end.

Definition CreateGroup (realm name : gostring) (devices : list gostring) : answer () :=
  realmID realm (fun rid =>
    check_devices rid devices [] [] (fun fe ids =>
      if decide (fe <> []) then fail (ErrFields fe)
      else let! g := SCreateGroup rid name catch group_exists_err in add_members (GroupID g) rid ids)).

(** The handler's own checks on the request body. *)
Definition createGroup (realm group_name : gostring) (devices : option (list gostring)) : answer () :=
  if decide (group_name = []) then fail (ErrFields [("group_name"%go, "can't be blank"%go)])
  else match devices with
  | None => fail (ErrFields [("devices"%go, "can't be blank"%go)])
  | Some [] => fail (ErrFields [("devices"%go, "should have at least 1 item(s)"%go)])
  | Some devices => CreateGroup realm group_name devices
  end.

Definition GetGroup (realm name : gostring) : answer () :=
  realmID realm (fun rid =>
    let! _ := SGetGroupByName rid name catch (fun e => Err (missingGroup e)) in ok ()).

Definition ListGroups (realm : gostring) : answer (list gostring) :=
  realmID realm (fun rid => let! names := SListGroups rid catch store_err in ok names).

Definition group {A} (realm name : gostring) (k : Z -> Group -> answer A) : answer A :=
  realmID realm (fun rid => let! g := SGetGroupByName rid name catch store_err in k rid g).

Definition member_exists_err {A} (e : store_error) : result api_error A :=
  match e with ErrAlreadyExists => Err ErrDeviceAlreadyInGroup | _ => Err (ErrStore e) end.

Definition AddGroupDevice (realm name deviceID : gostring) : answer () :=
  group realm name (fun rid g =>
    match DeviceID.Parse deviceID with
    | Err _ => fail (ErrFields [("device_id"%go, "is not a valid device id"%go)])
    | Ok id => let! _ := SAddGroupDevice (GroupID g) rid id catch member_exists_err in ok ()
    end).

Definition RemoveGroupDevice (realm name deviceID : gostring) : answer () :=
  group realm name (fun rid g => parsed deviceID (fun id =>
    let! _ := SRemoveGroupDevice (GroupID g) rid id catch store_err in ok ())).

(** ** Pages *)

Definition DefaultDeviceLimit : Z := 100.

Record DevicePage := MkPage { IDs : list gostring; Statuses : list DeviceStatus; Next : gostring }.

Definition ListDevices (realm after : gostring) (limit : Z) (details : bool) : answer DevicePage :=
  realmID realm (fun rid =>
    let limit := if (limit <=? 0)%Z then DefaultDeviceLimit else limit in
    let page cursor :=
      let! devs := SListDevices rid cursor (wrap 64 (limit + 1)) catch store_err in
      let more := (limit <? Z.of_nat (length devs))%Z in
      let next := if more then from_option (fun x => DeviceID.String x.1) [] (devs !! Z.to_nat (limit - 1)) else [] in
      let devs := if more then take (Z.to_nat limit) devs else devs in
      if negb details then ok (MkPage (map (fun x => DeviceID.String x.1) devs) [] next)
      else deviceStatusBatch rid devs (fun statuses => ok (MkPage [] statuses next)) in
    if decide (after = []) then page None
    else match DeviceID.Parse after with
         | Err _ => fail (ErrValidation "invalid cursor"%go)
         | Ok id => page (Some id)
         end).

(** The cursor of a group: the offset as a version-1 UUID. *)
Definition put_uint32 (z : Z) : gostring :=
  map (fun i => chr (z / 2 ^ i mod 256)) [24; 16; 8; 0]%Z.
Definition uint32_of (s : gostring) : Z := foldl (fun acc c => acc * 256 + byte_val c)%Z 0%Z s.

Definition groupTokenFor (offset : Z) : gostring :=
  DeviceID.UUID (put_uint32 (offset mod 2 ^ 32) ++
    [chr 0; chr 0; chr 16; chr 0; chr 128; chr 0; chr 0; chr 0; chr 0; chr 0; chr 0; chr 0]).

Definition parseGroupToken (s : gostring) : option Z :=
  match DeviceID.FromUUID s with
  | Err _ => None
  | Ok u =>
      c ← u !! 6;
      if negb (Z.shiftr (byte_val c) 4 =? 1)%Z then None else Some (uint32_of (DeviceID.slice u 0 4))
  end.

Fixpoint get_devices (rid : Z) (ids : list ID) (devs : list (ID * Device))
    (k : list (ID * Device) -> answer DevicePage) : answer DevicePage :=
  match ids with
  | [] => k devs
  | id :: ids => let! d := SGetDevice rid id catch store_err in get_devices rid ids (devs ++ [(id, d)]) k
  end.

Definition ListGroupDevices (realm name : gostring) (details : bool) (fromToken : gostring) (limit : Z)
    : answer DevicePage :=
  realmID realm (fun rid =>
    match (if decide (fromToken = []) then Some 0%Z else parseGroupToken fromToken) with
    | None => fail (ErrFields [("from_token"%go, "is invalid"%go)])
    | Some offset =>
        if (limit <? 0)%Z then fail (ErrFields [("limit"%go, "must be greater than or equal to 0"%go)])
        else
          let limit := if (limit =? 0)%Z then DefaultDeviceLimit else limit in
          let! g := SGetGroupByName rid name catch (fun e => Err (missingGroup e)) in
          if details then
            let! ids := SListGroupDevices (GroupID g) catch store_err in
            get_devices rid ids [] (fun devs => deviceStatusBatch rid devs (fun statuses => ok (MkPage [] statuses [])))
          else
            let! rows := SListGroupDevicesPage (GroupID g) offset (wrap 64 (limit + 1)) catch store_err in
            if (limit <? Z.of_nat (length rows))%Z
            then ok (MkPage (map DeviceID.String (take (Z.to_nat limit) rows)) [] (groupTokenFor (offset + limit)))
            else ok (MkPage (map DeviceID.String rows) [] [])
    end).

(** ** Interfaces of a device *)

Record resolved := MkResolved { rRealm : Z; rID : ID; rIface : StoredInterface }.

Definition resolveOnDevice (rid : Z) (id : ID) (d : Device) (ifaceName : gostring) : answer resolved :=
  match Introspection d !! ifaceName with
  | None => fail (ErrStore ErrNotFound)
  | Some v => let! si := SGetInterface rid ifaceName (vMajor v) catch store_err in ok (MkResolved rid id si)
  end.

Definition resolveByAlias (realm alias ifaceName : gostring) : answer resolved :=
  realmID realm (fun rid =>
    let! x := SGetDeviceByAlias rid alias catch store_err in resolveOnDevice rid x.1 x.2 ifaceName).

Definition resolveInGroup (realm groupName deviceID ifaceName : gostring) : answer resolved :=
  groupMember realm groupName deviceID (fun rid id d => resolveOnDevice rid id d ifaceName).

Definition listInterfacesNames (d : Device) : list gostring := sort_bytes (map_to_list (Introspection d)).*1.

Definition ListInterfaces (realm deviceID : gostring) : answer (list gostring) :=
  realmID realm (fun rid => parsed deviceID (fun id =>
    let! d := SGetDevice rid id catch store_err in ok (listInterfacesNames d))).

Definition ListInterfacesByAlias (realm alias : gostring) : answer (list gostring) :=
  realmID realm (fun rid =>
    let! x := SGetDeviceByAlias rid alias catch store_err in ok (listInterfacesNames x.2)).

Definition ListInterfacesInGroup (realm groupName deviceID : gostring) : answer (list gostring) :=
  groupMember realm groupName deviceID (fun _ _ d => ok (listInterfacesNames d)).

(** ** What a patch does *)

Section Patches.
Context `{Collation}.

(** The row after a patch. *)
Definition patched (p : DevicePatch) (dev : Device) : Device :=
  let dev := set_aliases (patchDeviceJSONB (pAliases p) (Aliases dev)) dev in
  let dev := set_attributes (patchDeviceJSONB (pAttributes p) (Attributes dev)) dev in
  match pCredentialsInhibited p with
  | None => dev
  | Some true => set_status DeviceStatusInhibited dev
  | Some false =>
      set_status (if FirstCredentialsRequest dev then DeviceStatusConfirmed else DeviceStatusRegistered) dev
  end.

Definition holds_alias (dev : Device) (v : gostring) : Prop := exists tag, Aliases dev !! tag = Some v.

(** What makes a patch acceptable: no blank tag, value or key; no value it
    sets or removes held by another device of the realm; and everything it
    removes is there. *)
Record admissible (d : db) (rid : Z) (id : ID) (dev : Device) (p : DevicePatch) : Prop := {
  adm_alias : forall tag v, pAliases p !! tag = Some v -> tag <> [] /\ v <> Some [];
  adm_free : forall id' dev' tag v, devices d !! (rid, id') = Some dev' -> id' <> id ->
    (pAliases p !! tag = Some (Some v) \/ pAliases p !! tag = Some None /\ Aliases dev !! tag = Some v) ->
    ~ holds_alias dev' v;
  adm_key : forall key v, pAttributes p !! key = Some v -> key <> [];
  adm_tag_held : forall tag, pAliases p !! tag = Some None -> is_Some (Aliases dev !! tag);
  adm_key_held : forall key, pAttributes p !! key = Some None -> is_Some (Attributes dev !! key);
}.

Lemma patch_lookup p column k :
  patchDeviceJSONB p column !! k = match p !! k with Some (Some v) => Some v | Some None => None | None => column !! k end.
Proof.
  unfold patchDeviceJSONB, additions, removals. rewrite lookup_union, lookup_omap.
  assert (k ∉ dom (filter (fun x : gostring * option gostring => x.2 = None) p) <-> p !! k <> Some None) as Hk.
  { rewrite elem_of_dom, <- eq_None_not_Some, map_lookup_filter_None. simpl. split.
    - intros [Hn|Hne] Hp; [congruence|by apply (Hne None)].
    - intros Hp. right. by intros x Hx ->. }
  destruct (p !! k) as [[v|]|] eqn:E; simpl.
  - by rewrite union_Some_l.
  - rewrite (left_id_L None (∪)). apply map_lookup_filter_None. right. intros x _ Hn. apply Hk in Hn. done.
  - rewrite (left_id_L None (∪)). destruct (column !! k) as [x|] eqn:Ec.
    + apply map_lookup_filter_Some. split; [done|]. simpl. by apply Hk.
    + apply map_lookup_filter_None. by left.
Qed.

Lemma patch_empty column : patchDeviceJSONB ∅ column = column.
Proof. apply map_eq. intros k. by rewrite patch_lookup, lookup_empty. Qed.

Lemma set_aliases_id dev : set_aliases (Aliases dev) dev = dev.
Proof. by destruct dev. Qed.
Lemma set_attributes_id dev : set_attributes (Attributes dev) dev = dev.
Proof. by destruct dev. Qed.

Definition put (rid : Z) (id : ID) (dev : Device) (d : db) : db := with_devices (<[(rid, id) := dev]> (devices d)) d.

Lemma put_put rid id dev dev' d : put rid id dev' (put rid id dev d) = put rid id dev' d.
Proof. unfold put, with_devices. simpl. by rewrite insert_insert_eq. Qed.
Lemma put_same rid id dev d : devices d !! (rid, id) = Some dev -> put rid id dev d = d.
Proof. intros Hd. unfold put, with_devices. rewrite insert_id by done. by destruct d. Qed.

Lemma run_write_if {A} b (s : stmt ()) (k : answer A) d rid id dev dev' :
  devices d !! (rid, id) = Some dev ->
  (b = true -> exec s d = (Ok (), put rid id dev' d)) -> (b = false -> dev' = dev) ->
  run (write_if b s k) d = run k (put rid id dev' d).
Proof.
  intros Hd Hs Hn. unfold write_if. destruct b; simpl.
  - by rewrite Hs.
  - rewrite Hn by done. by rewrite put_same.
Qed.

Lemma run_write_patch rid id dev p d :
  devices d !! (rid, id) = Some dev ->
  run (write_patch rid id p) d =
    (Ok (deviceStatusView id (patched p dev) (device_groups d rid id)), put rid id (patched p dev) d).
Proof.
  intros Hd. unfold write_patch.
  rewrite (run_write_if _ _ _ d rid id dev (set_aliases (patchDeviceJSONB (pAliases p) (Aliases dev)) dev)); [|done|..].
  2:{ intros _. simpl. unfold PatchDeviceAliases, update_device. by rewrite Hd. }
  2:{ intros Hb. bool_hyps. rewrite Hb, patch_empty. apply set_aliases_id. }
  set (dev1 := set_aliases _ dev).
  rewrite (run_write_if _ _ _ (put rid id dev1 d) rid id dev1
             (set_attributes (patchDeviceJSONB (pAttributes p) (Attributes dev)) dev1)); [|simpl; apply lookup_insert_eq|..].
  2:{ intros _. simpl. unfold PatchDeviceAttributes, update_device. simpl. by rewrite lookup_insert_eq. }
  2:{ intros Hb. bool_hyps. rewrite Hb, patch_empty. apply (set_attributes_id dev1). }
  set (dev2 := set_attributes _ dev1). rewrite put_put.
  rewrite (run_write_if _ _ _ (put rid id dev2 d) rid id dev2 (patched p dev)); [|simpl; apply lookup_insert_eq|..].
  2:{ intros Hb. bool_hyps. destruct Hb as [b Hb]. simpl. unfold SetDeviceInhibited, update_device. simpl.
      rewrite lookup_insert_eq. unfold patched. rewrite Hb. simpl. f_equal. f_equal. f_equal.
      destruct b; [done|]. by destruct (FirstCredentialsRequest dev). }
  2:{ intros Hb. bool_hyps. rewrite <- eq_None_not_Some in Hb. unfold patched. by rewrite Hb. }
  rewrite put_put. simpl. unfold MetaStore.GetDevice, reads. simpl. by rewrite lookup_insert_eq.
Qed.

Lemma existsb_map_false {A} (f : gostring * A -> bool) (m : gmap gostring A) :
  existsb f (map_to_list m) = false <-> forall k v, m !! k = Some v -> f (k, v) = false.
Proof.
  rewrite <- not_true_iff_false, existsb_exists. split.
  - intros Hn k v Hk. apply not_true_iff_false. intros Ht. apply Hn. exists (k, v). split; [|done].
    by apply list_elem_of_In, elem_of_map_to_list.
  - intros Hf ([k v] & Hin%list_elem_of_In%elem_of_map_to_list & Ht). by rewrite Hf in Ht.
Qed.

Lemma has_alias_spec v dev : has_alias v dev = true <-> holds_alias dev v.
Proof.
  unfold has_alias, holds_alias. rewrite existsb_exists. split.
  - intros ([tag x] & Hin%list_elem_of_In%elem_of_map_to_list & Hb). bool_hyps. simpl in *. subst. eauto.
  - intros [tag Ht]. exists (tag, v). split; [by apply list_elem_of_In, elem_of_map_to_list|]. by apply bool_decide_eq_true.
Qed.

Lemma alias_taken_spec rid id values d :
  exists taken, MetaStore.AliasValuesTaken rid id values d = (Ok taken, d) /\
  (taken = false <-> forall id' dev' v, devices d !! (rid, id') = Some dev' -> id' <> id -> v ∈ values -> ~ holds_alias dev' v).
Proof.
  eexists. split; [done|]. rewrite <- not_true_iff_false, existsb_exists. split.
  - intros Hn id' dev' v Hd Hne Hv Hh. apply Hn. exists ((rid, id'), dev').
    split; [by apply list_elem_of_In, elem_of_map_to_list|]. simpl.
    rewrite Z.eqb_refl, bool_decide_eq_false_2 by done. simpl. apply existsb_exists. exists v.
    split; [by apply list_elem_of_In|]. by apply has_alias_spec.
  - intros Hf ([[rid' id'] dev'] & Hin%list_elem_of_In%elem_of_map_to_list & Hb). simpl in Hb.
    apply andb_true_iff in Hb as [[Hr Hne]%andb_true_iff Hex]. bool_hyps. subst.
    apply existsb_exists in Hex as (v & Hv%list_elem_of_In & Hh%has_alias_spec). by eapply Hf.
Qed.

Lemma touched_spec dev p v :
  v ∈ touched_values dev p <-> exists tag, p !! tag = Some (Some v) \/ p !! tag = Some None /\ Aliases dev !! tag = Some v.
Proof.
  unfold touched_values. rewrite list_elem_of_omap. split.
  - intros ([tag [x|]] & Hin%elem_of_map_to_list & E); simpl in E; [simplify_eq|]; eauto.
  - intros (tag & [Hp|[Hp Ha]]); [exists (tag, Some v)|exists (tag, None)]; (split; [by apply elem_of_map_to_list|done]).
Qed.

Definition patch_error (e : api_error) : Prop :=
  e ∈ [ErrInvalidAlias; ErrAliasAlreadyInUse; ErrInvalidAttributes; ErrAliasTagNotFound; ErrAttributeKeyNotFound].

Lemma missing_false column p :
  existsb (missing_key column) (map_to_list p) = false <-> forall k, p !! k = Some None -> is_Some (column !! k).
Proof.
  rewrite existsb_map_false. unfold missing_key. simpl. split.
  - intros Hf k Hk. specialize (Hf _ _ Hk). rewrite bool_decide_eq_true_2 in Hf by done. simpl in Hf. bool_hyps.
    by apply not_eq_None_Some.
  - intros Hf k [v|] Hk; simpl; [done|]. apply bool_decide_eq_false. apply not_eq_None_Some. by apply Hf.
Qed.

Lemma applyPatch_spec rid id dev p d :
  devices d !! (rid, id) = Some dev ->
  (admissible d rid id dev p /\ run (applyPatch rid id dev p) d =
     (Ok (deviceStatusView id (patched p dev) (device_groups d rid id)), put rid id (patched p dev) d)) \/
  (~ admissible d rid id dev p /\ exists e, patch_error e /\ run (applyPatch rid id dev p) d = (Err e, d)).
Proof.
  intros Hd. unfold applyPatch.
  destruct (existsb blank_alias _) eqn:Eb.
  { right. split; [|exists ErrInvalidAlias; split; [unfold patch_error; set_solver|done]]. intros [Ha _ _ _ _].
    rewrite <- not_false_iff_true in Eb. apply Eb, existsb_map_false. intros k v Hk. destruct (Ha _ _ Hk).
    unfold blank_alias. simpl. by rewrite !bool_decide_eq_false_2. }
  pose proof (proj1 (existsb_map_false _ _) Eb) as Hblank. clear Eb.
  set (cont := after_ownership rid id dev p).
  destruct (alias_taken_spec rid id (touched_values dev (pAliases p)) d) as (taken & Htaken & Hfree).
  assert (run (if decide (pAliases p = ∅) then cont false else aliasValuesTaken rid id dev (pAliases p) cont) d
          = run (cont taken) d) as ->.
  { assert (touched_values dev (pAliases p) = [] -> taken = false) as Hnone.
    { intros E. apply Hfree. intros id' dev' v _ _ Hv. rewrite E in Hv. by apply not_elem_of_nil in Hv. }
    case_decide as He; [rewrite Hnone; [done|unfold touched_values; by rewrite He, map_to_list_empty]|].
    unfold aliasValuesTaken. case_decide as Ht; [by rewrite Hnone|]. cbn [run call exec]. by rewrite Htaken. }
  unfold cont, after_ownership. clear cont.
  destruct taken.
  { right. split; [|exists ErrAliasAlreadyInUse; split; [unfold patch_error; set_solver|done]]. intros [_ Hf _ _ _].
    enough (true = false) by done. apply Hfree. intros id' dev' v Hd' Hne [tag Hv]%touched_spec. by eapply Hf. }
  pose proof (proj1 Hfree eq_refl) as Hf. clear Hfree Htaken.
  destruct (existsb blank_key _) eqn:Ek.
  { right. split; [|exists ErrInvalidAttributes; split; [unfold patch_error; set_solver|done]]. intros [_ _ Hk _ _].
    rewrite <- not_false_iff_true in Ek. apply Ek, existsb_map_false. intros k v Hv.
    unfold blank_key. apply bool_decide_eq_false. by eapply Hk. }
  destruct (existsb (missing_key (Aliases dev)) _) eqn:Em.
  { right. split; [|exists ErrAliasTagNotFound; split; [unfold patch_error; set_solver|done]]. intros [_ _ _ Ht _].
    rewrite <- not_false_iff_true in Em. by apply Em, missing_false. }
  destruct (existsb (missing_key (Attributes dev)) _) eqn:En.
  { right. split; [|exists ErrAttributeKeyNotFound; split; [unfold patch_error; set_solver|done]]. intros [_ _ _ _ Ht].
    rewrite <- not_false_iff_true in En. by apply En, missing_false. }
  left. split; [|by apply run_write_patch]. split.
  - intros tag v Hv. specialize (Hblank _ _ Hv). unfold blank_alias in Hblank. simpl in Hblank. bool_hyps. done.
  - intros id' dev' tag v Hd' Hne Hv. apply (Hf id' dev' v Hd' Hne). apply touched_spec. by exists tag.
  - intros k v Hv. pose proof (proj1 (existsb_map_false _ _) Ek _ _ Hv) as Hb. unfold blank_key in Hb. by bool_hyps.
  - by apply missing_false.
  - by apply missing_false.
Qed.

(** ** Aliases *)

(** No alias value is held by two devices of a realm. *)
Definition alias_unique (d : db) : Prop :=
  forall rid id1 id2 dev1 dev2 v,
    devices d !! (rid, id1) = Some dev1 -> devices d !! (rid, id2) = Some dev2 ->
    holds_alias dev1 v -> holds_alias dev2 v -> id1 = id2.

Lemma patched_aliases p dev : Aliases (patched p dev) = patchDeviceJSONB (pAliases p) (Aliases dev).
Proof. unfold patched. by destruct (pCredentialsInhibited p) as [[]|]. Qed.

Lemma patched_holds p dev v :
  holds_alias (patched p dev) v -> holds_alias dev v \/ exists tag, pAliases p !! tag = Some (Some v).
Proof.
  intros [tag Ht]. rewrite patched_aliases, patch_lookup in Ht.
  destruct (pAliases p !! tag) as [[x|]|] eqn:E; simplify_eq; [right; by exists tag|left; by exists tag].
Qed.

Lemma applyPatch_unique rid id dev p d :
  devices d !! (rid, id) = Some dev -> alias_unique d -> alias_unique (run (applyPatch rid id dev p) d).2.
Proof.
  intros Hd Hu. destruct (applyPatch_spec rid id dev p d Hd) as [[Ha ->]|(_ & e & _ & ->)]; [|done].
  unfold put. cbn [snd].
  assert (forall id' dev' v, devices d !! (rid, id') = Some dev' -> id' <> id -> holds_alias (patched p dev) v ->
    ~ holds_alias dev' v) as Hfree.
  { intros id' dev' v Hd' Hne [Hold|[tag Hnew]]%patched_holds Hh; [by apply Hne; eapply Hu|].
    eapply (adm_free _ _ _ _ _ Ha); [exact Hd'|done|by left|done]. }
  unfold alias_unique. cbn [with_devices devices].
  intros rid' id1 id2 dev1 dev2 v [[E1 <-]|[N1 D1]]%lookup_insert_Some [[E2 <-]|[N2 D2]]%lookup_insert_Some Q1 Q2; simplify_eq.
  - done.
  - destruct (decide (id2 = id1)) as [->|?]; [done|]. exfalso. by eapply Hfree.
  - destruct (decide (id1 = id2)); [done|]. exfalso. by eapply Hfree.
  - by eapply Hu.
Qed.

(** The requests that change the tables. *)
Inductive request :=
| RPatchDevice (realm deviceID : gostring) (p : DevicePatch)
| RPatchDeviceByAlias (realm alias : gostring) (p : DevicePatch)
| RPatchGroupDevice (realm groupName deviceID : gostring) (p : DevicePatch)
| RCreateGroup (realm name : gostring) (devices : option (list gostring))
| RAddGroupDevice (realm name deviceID : gostring)
| RRemoveGroupDevice (realm name deviceID : gostring).

(** Serving a request on its own: the tables it leaves. *)
Definition serve (d : db) (rq : request) : db :=
  match rq with
  | RPatchDevice realm deviceID p => (run (PatchDevice realm deviceID p) d).2
  | RPatchDeviceByAlias realm alias p => (run (PatchDeviceByAlias realm alias p) d).2
  | RPatchGroupDevice realm groupName deviceID p => (run (PatchGroupDevice realm groupName deviceID p) d).2
  | RCreateGroup realm name devices => (run (createGroup realm name devices) d).2
  | RAddGroupDevice realm name deviceID => (run (AddGroupDevice realm name deviceID) d).2
  | RRemoveGroupDevice realm name deviceID => (run (RemoveGroupDevice realm name deviceID) d).2
  end.

Lemma run_realmID {A} realm (k : Z -> answer A) d :
  (exists e, run (realmID realm k) d = (Err e, d)) \/
  (exists r, realms d !! realm = Some r /\ run (realmID realm k) d = run (k (RealmID r)) d).
Proof.
  unfold realmID. cbn [run call exec]. unfold GetRealmByName, reads.
  destruct (realms d !! realm) as [r|]; simpl; [right; by exists r|left; by eexists].
Qed.

Lemma run_parsed {A} s (k : ID -> answer A) d :
  (exists e, run (parsed s k) d = (Err e, d)) \/ (exists id, DeviceID.Parse s = Ok id /\ run (parsed s k) d = run (k id) d).
Proof. unfold parsed. destruct (DeviceID.Parse s) as [id|]; [right; by exists id|left; by eexists]. Qed.

(** A call that only reads. *)
Lemma run_read {A B} (s : stmt B) (f : store_error -> result api_error A) (k : B -> answer A) d :
  (exec s d).2 = d ->
  (exists e, (exec s d).1 = Err e /\ run (call s f k) d = (f e, d)) \/
  (exists b, (exec s d).1 = Ok b /\ run (call s f k) d = run (k b) d).
Proof.
  intros Hr. unfold call. cbn [run]. destruct (exec s d) as [r d'] eqn:E. simpl in *. subst d'.
  destruct r as [b|e]; [right; by exists b|left; by exists e].
Qed.

(** One step of a handler that reads: it fails with the tables as they are, or
    goes on. *)
Ltac request_step :=
  match goal with
  | |- context [run (realmID ?r ?k) ?d] => destruct (run_realmID r k d) as [[? ->]|(? & ? & ->)]
  | |- context [run (parsed ?s ?k) ?d] => destruct (run_parsed s k d) as [[? ->]|(? & ? & ->)]
  | |- context [run (call ?s ?f ?k) ?d] => destruct (run_read s f k d eq_refl) as [(? & ? & ->)|(? & ? & ->)]
  end.

Lemma run_groupMember {A} realm name s (k : Z -> ID -> Device -> answer A) d :
  (exists e, run (groupMember realm name s k) d = (Err e, d)) \/
  (exists rid id dev, devices d !! (rid, id) = Some dev /\ run (groupMember realm name s k) d = run (k rid id dev) d).
Proof.
  unfold groupMember. request_step; [left; by eexists|]. request_step; [left; by eexists|].
  request_step; [left; by eexists|]. request_step; [left; by eexists|].
  destruct (negb _); [left; by eexists|]. request_step; [left; by eexists|]. right. eexists _, _, _. split; [|done].
  by apply (or_err_Ok _ ErrNotFound).
Qed.

Lemma patch_by_alias_row rid alias d id dev :
  (MetaStore.GetDeviceByAlias rid alias d).1 = Ok (id, dev) ->
  devices d !! (rid, id) = Some dev /\ holds_alias dev alias.
Proof.
  unfold MetaStore.GetDeviceByAlias, reads. simpl. intros Ho%or_err_Ok. apply head_Some_elem_of in Ho.
  apply list_elem_of_omap in Ho as (i & _ & (dv & Hd & Hif)%bind_Some).
  destruct (has_alias alias dv) eqn:Eh; simplify_eq. split; [done|]. by apply has_alias_spec.
Qed.

Lemma check_devices_devices rid l fe ids k d :
  (forall fe ids, devices (run (k fe ids) d).2 = devices d) -> devices (run (check_devices rid l fe ids k) d).2 = devices d.
Proof.
  intros Hk. revert fe ids. induction l as [|raw l IH]; intros fe ids; simpl; [apply Hk|].
  destruct (DeviceID.Parse raw) as [id|]; [|apply IH]. simpl.
  destruct (devices d !! (rid, id)); simpl; apply IH.
Qed.

Lemma add_members_devices gid rid ids d : devices (run (add_members gid rid ids) d).2 = devices d.
Proof.
  revert d. induction ids as [|id ids IH]; intros d; [done|]. simpl.
  destruct (MetaStore.AddGroupDevice gid rid id d) as [r d'] eqn:E.
  assert (devices d' = devices d) as <-.
  { unfold MetaStore.AddGroupDevice in E. repeat case_match; by simplify_eq. }
  destruct r; [apply IH|done].
Qed.

Lemma CreateGroup_devices realm name l d : devices (run (CreateGroup realm name l) d).2 = devices d.
Proof.
  unfold CreateGroup. request_step; [done|]. set (rid := RealmID _).
  apply check_devices_devices. intros fe ids. case_decide; [done|]. cbn [run call exec].
  destruct (MetaStore.CreateGroup rid name d) as [a d'] eqn:E.
  assert (devices d' = devices d) as <- by (unfold MetaStore.CreateGroup in E; repeat case_match; by simplify_eq).
  destruct a as [g|er]; [|by destruct er]. by rewrite add_members_devices.
Qed.

Lemma serve_unique d rq : alias_unique d -> alias_unique (serve d rq).
Proof.
  intros Hu.
  assert (forall d', devices d' = devices d -> alias_unique d') as Hsame by (unfold alias_unique; intros d' ->; exact Hu).
  destruct rq; cbn [serve].
  - unfold PatchDevice. request_step; [done|]. request_step; [done|]. request_step; [done|].
    apply applyPatch_unique; [|done]. by apply (or_err_Ok _ ErrNotFound).
  - unfold PatchDeviceByAlias. request_step; [done|].
    match goal with |- context [run (call ?s ?f ?k) ?d] => destruct (run_read s f k d eq_refl) as [(? & _ & ->)|([i dev] & Hx & ->)] end; [done|].
    apply patch_by_alias_row in Hx as [Hd _]. by apply applyPatch_unique.
  - unfold PatchGroupDevice. destruct (run_groupMember realm groupName deviceID (fun rid id d => applyPatch rid id d p) d)
      as [[e ->]|(rid & id & dev & Hd & ->)]; [done|]. by apply applyPatch_unique.
  - unfold createGroup. case_decide; [done|]. destruct devices0 as [[|x l]|]; [done| |done]. apply Hsame, CreateGroup_devices.
  - unfold AddGroupDevice, group. request_step; [done|]. request_step; [done|].
    destruct (DeviceID.Parse deviceID) as [id|]; [|done]. apply Hsame. cbn [run call exec].
    unfold MetaStore.AddGroupDevice. repeat case_match; by simplify_eq.
  - unfold RemoveGroupDevice, group. request_step; [done|]. request_step; [done|]. request_step; [done|].
    apply Hsame. cbn [run call exec]. unfold MetaStore.RemoveGroupDevice. repeat case_match; by simplify_eq.
Qed.

Lemma by_alias_exact d rid alias id dev :
  alias_unique d ->
  (MetaStore.GetDeviceByAlias rid alias d).1 = Ok (id, dev) <->
  devices d !! (rid, id) = Some dev /\ holds_alias dev alias.
Proof.
  intros Hu. split; [apply patch_by_alias_row|]. intros [Hd Hh].
  assert (exists x, (MetaStore.GetDeviceByAlias rid alias d).1 = Ok x) as [[id' dev'] Hx].
  { unfold MetaStore.GetDeviceByAlias, reads. simpl. set (l := omap _ _). destruct l as [|x l'] eqn:El; [|by exists x].
    exfalso. assert ((id, dev) ∈ l) as Hin; [|rewrite El in Hin; by apply not_elem_of_nil in Hin].
    unfold l. apply list_elem_of_omap. exists id. rewrite Hd. simpl.
    rewrite (proj2 (has_alias_spec _ _) Hh). split; [|done]. unfold device_ids. rewrite sort_bytes_perm.
    apply list_elem_of_omap. exists (rid, id, dev). split; [by apply elem_of_map_to_list|]. simpl. by rewrite decide_True. }
  rewrite Hx. apply patch_by_alias_row in Hx as [Hd' Hh']. assert (id' = id) as -> by (by eapply Hu). congruence.
Qed.

(** C37. Served one at a time, whatever they are and however many, requests keep
    the aliases of a realm unique; and then an alias addresses the one device
    that holds it, or none. *)
Theorem aliases_stay_unique d rqs :
  alias_unique d ->
  alias_unique (foldl serve d rqs) /\
  forall rid alias id dev,
    (exec (SGetDeviceByAlias rid alias) (foldl serve d rqs)).1 = Ok (id, dev) <->
    devices (foldl serve d rqs) !! (rid, id) = Some dev /\ holds_alias dev alias.
Proof.
  intros Hu. assert (alias_unique (foldl serve d rqs)) as Hu'.
  { revert d Hu. induction rqs as [|rq rqs IH]; intros d Hu; [done|]. by apply IH, serve_unique. }
  split; [done|]. intros rid alias id dev. by apply by_alias_exact.
Qed.

(** A patch of a registered device is applied whole or not at all: when it is
    admissible the row becomes the patched one, nothing else changes and the
    answer shows it; otherwise the answer is one of the patch errors and the
    tables are as they were. *)
Theorem device_patch_exact d realm r id dev p :
  realms d !! realm = Some r -> DeviceID.wf_id id -> devices d !! (RealmID r, id) = Some dev ->
  (admissible d (RealmID r) id dev p /\ run (PatchDevice realm (DeviceID.String id) p) d =
     (Ok (deviceStatusView id (patched p dev) (device_groups d (RealmID r) id)), put (RealmID r) id (patched p dev) d)) \/
  (~ admissible d (RealmID r) id dev p /\
   exists e, patch_error e /\ run (PatchDevice realm (DeviceID.String id) p) d = (Err e, d)).
Proof.
  intros Hr Hw Hd. unfold PatchDevice, realmID. cbn [run call exec]. unfold GetRealmByName, reads. rewrite Hr. simpl.
  unfold parsed. rewrite (proj2 (DeviceID.Parse_iff _ id)) by done. cbn [run call exec].
  unfold MetaStore.GetDevice, reads. rewrite Hd. simpl. by apply applyPatch_spec.
Qed.

End Patches.

(** ** Creating a group *)

Section Groups.
Context `{Collation}.

Definition listed_device (d : db) (rid : Z) (raw : gostring) (id : ID) : Prop :=
  DeviceID.Parse raw = Ok id /\ is_Some (devices d !! (rid, id)).

Lemma check_devices_spec rid l fe ids k d :
  (exists l_ids ids', Forall2 (listed_device d rid) l l_ids /\ (forall x, x ∈ ids' <-> x ∈ ids \/ x ∈ l_ids) /\
     (NoDup ids -> NoDup ids') /\ run (check_devices rid l fe ids k) d = run (k fe ids') d) \/
  (exists fe' ids', fe' <> [] /\ run (check_devices rid l fe ids k) d = run (k fe' ids') d).
Proof.
  revert fe ids. induction l as [|raw l IH]; intros fe ids.
  { left. exists [], ids. split_and!; [constructor|set_solver|done|done]. }
  assert (forall ids, (exists l_ids ids', Forall2 (listed_device d rid) l l_ids /\ (forall x, x ∈ ids' <-> x ∈ ids \/ x ∈ l_ids) /\
       (NoDup ids -> NoDup ids') /\
       run (check_devices rid l (fe ++ [("devices"%go, not_found raw)]) ids k) d = run (k (fe ++ [("devices"%go, not_found raw)]) ids') d) \/
      (exists fe' ids', fe' <> [] /\ run (check_devices rid l (fe ++ [("devices"%go, not_found raw)]) ids k) d = run (k fe' ids') d) ->
      exists fe' ids', fe' <> [] /\
        run (check_devices rid l (fe ++ [("devices"%go, not_found raw)]) ids k) d = run (k fe' ids') d) as Hbad.
  { intros ids0 [(? & ids' & _ & _ & _ & ->)|?]; [|done]. eexists _, ids'. split; [|done]. by destruct fe. }
  simpl. destruct (DeviceID.Parse raw) as [id|] eqn:Ep; [|right; apply Hbad, IH]. simpl.
  destruct (devices d !! (rid, id)) as [dev|] eqn:Ed; simpl; [|right; apply Hbad, IH].
  set (ids1 := if decide (id ∈ ids) then ids else ids ++ [id]).
  assert (forall x, x ∈ ids1 <-> x ∈ ids \/ x = id) as Hin.
  { intros x. unfold ids1. case_decide; set_solver. }
  destruct (IH fe ids1) as [(l_ids & ids' & HF & Hx & Hnd & ->)|(fe' & ids' & Hne & ->)]; [left|right; by exists fe', ids'].
  exists (id :: l_ids), ids'. split_and!; [constructor; [|done]; by split|..|done].
  - intros x. rewrite Hx, Hin, elem_of_cons. tauto.
  - intros Hd. apply Hnd. unfold ids1. case_decide; [done|]. apply NoDup_app. split_and!; [done|set_solver|apply NoDup_singleton].
Qed.

Lemma add_members_spec gid rid ids d :
  (exists n, groups d !! (rid, n) = Some gid) -> NoDup ids ->
  (forall id, id ∈ ids -> is_Some (devices d !! (rid, id)) /\ group_devices d !! (gid, id) = None) ->
  exists ms, run (add_members gid rid ids) d = (Ok (), with_groups (groups d) ms d) /\
    forall g id, ms !! (g, id) = if decide (g = gid /\ id ∈ ids) then Some rid else group_devices d !! (g, id).
Proof.
  intros [n Hn] Hnd. revert d Hn. induction Hnd as [|id ids Hid Hnd IH]; intros d Hn Hall.
  { exists (group_devices d). split; [by destruct d|]. intros g x. rewrite decide_False; [done|]. set_solver. }
  cbn [add_members run call exec]. destruct (Hall id) as [Hdev Hmem]; [left|].
  assert (MetaStore.AddGroupDevice gid rid id d = (Ok (), with_groups (groups d) (<[(gid, id) := rid]> (group_devices d)) d)) as ->.
  { unfold MetaStore.AddGroupDevice. rewrite (proj2 (existsb_exists _ _)).
    - simpl. rewrite decide_False by (rewrite Hmem; by intros []). by rewrite decide_True.
    - exists ((rid, n), gid). split; [by apply list_elem_of_In, elem_of_map_to_list|]. simpl. by rewrite !Z.eqb_refl. }
  destruct (IH (with_groups (groups d) (<[(gid, id) := rid]> (group_devices d)) d)) as (ms & -> & Hms).
  - done.
  - intros x Hx. simpl. destruct (Hall x) as [? ?]; [by right|]. split; [done|]. rewrite lookup_insert_ne; [done|]. set_solver.
  - exists ms. split; [done|]. intros g x. rewrite Hms. simpl. repeat case_decide.
    + done.
    + set_solver.
    + destruct H1 as [-> [->|?]%elem_of_cons]; [by rewrite lookup_insert_eq|naive_solver].
    + rewrite lookup_insert_ne; [done|]. set_solver.
Qed.

(** Creating a group, nothing running beside it, is all or nothing: when every
    listed device parses and is registered and the name is free, the group is
    there with exactly these members; otherwise no group and no membership
    changes. *)
Theorem group_created_whole d realm r name l :
  db_ok d -> realms d !! realm = Some r ->
  let rid := RealmID r in
  let '(a, d') := run (CreateGroup realm name l) d in
  (a = Ok () /\ groups d !! (rid, name) = None /\ groups d' = <[(rid, name) := next_group d]> (groups d) /\
   exists ids, Forall2 (listed_device d rid) l ids /\
     forall g id, group_devices d' !! (g, id) =
       if decide (g = next_group d /\ id ∈ ids) then Some rid else group_devices d !! (g, id)) \/
  ((exists e, a = Err e) /\ groups d' = groups d /\ group_devices d' = group_devices d).
Proof.
  intros Hok Hr rid. destruct (run _ d) as [a d'] eqn:Erun. revert Erun.
  unfold CreateGroup, realmID. cbn [run call exec]. unfold GetRealmByName, reads. rewrite Hr. cbn [or_err run]. fold rid.
  set (k := fun (fe : FieldErrors) (ids : list ID) => _).
  destruct (check_devices_spec rid l [] [] k d) as [(l_ids & ids & HF & Hin & Hnd & ->)|(fe & ids & Hne & ->)].
  2:{ unfold k. rewrite decide_True by done. intros [= <- <-]. right. eauto. }
  unfold k. rewrite decide_False by (by intros []). cbn [run call exec]. unfold MetaStore.CreateGroup. case_decide as Hs.
  { intros [= <- <-]. right. eauto. }
  rewrite <- eq_None_not_Some in Hs. rewrite (proj2 (realm_exists_spec d rid)) by (by exists realm, r).
  cbn [GroupID]. set (d1 := MkDb _ _ _ _ _ _ _ _ _ _ _ _ _).
  destruct (add_members_spec (next_group d) rid ids d1) as (ms & Hrun & Hms).
  - exists name. simpl. apply lookup_insert_eq.
  - apply Hnd. constructor.
  - intros id [?%not_elem_of_nil|Hid]%Hin; [done|]. simpl. split.
    + apply list_elem_of_lookup in Hid as [i Hi]. destruct (Forall2_lookup_r _ _ _ _ _ HF Hi) as (raw & _ & _ & ?). done.
    + destruct (group_devices d !! (next_group d, id)) as [x|] eqn:E; [|done].
      destruct (member_group _ _ _ _ _ (ok_groups _ Hok) _ _ _ E) as [n Hn].
      pose proof (group_id_below _ _ _ _ _ (ok_groups _ Hok) _ _ Hn). lia.
  - rewrite Hrun. intros [= <- <-]. left. split_and!; [done..|]. exists l_ids. split; [done|]. intros g id. simpl. rewrite Hms.
    simpl. assert (id ∈ ids <-> id ∈ l_ids) as E by (rewrite Hin; set_solver).
    destruct (decide (g = next_group d /\ id ∈ ids)), (decide (g = next_group d /\ id ∈ l_ids)); naive_solver.
Qed.

End Groups.

(** ** Requests beside each other *)

Definition app_setup : prog () :=
  all_calls [existT _ (SCreateRealm sample_realm);
    existT _ (SRegisterDevice 1 (sample_id "a") "h"%go); existT _ (SRegisterDevice 1 (sample_id "b") "h"%go)].
Definition app_db : db := (run app_setup empty_db).2.
Definition give_alias (tag v : gostring) : DevicePatch := MkPatch {[tag := Some v]} ∅ None.
Definition take_alias (tag : gostring) : DevicePatch := MkPatch {[tag := None]} ∅ None.
Definition name_of (c : ascii) : gostring := DeviceID.String (sample_id c).

(** Two patches that check before either writes give one alias to two devices;
    and from then on removing it from either is refused as already in use. *)
Theorem alias_race :
  let w0 := MkWorld app_db [PatchDevice "test"%go (name_of "a") (give_alias "serial"%go "x"%go);
                            PatchDevice "test"%go (name_of "b") (give_alias "serial"%go "x"%go)] in
  exists w, reachable w0 w /\
    (has_alias "x"%go <$> devices (wdb w) !! (1%Z, sample_id "a")) = Some true /\
    (has_alias "x"%go <$> devices (wdb w) !! (1%Z, sample_id "b")) = Some true /\
    (run (PatchDevice "test"%go (name_of "a") (take_alias "serial"%go)) (wdb w)).1 = Err ErrAliasAlreadyInUse /\
    (run (PatchDevice "test"%go (name_of "b") (take_alias "serial"%go)) (wdb w)).1 = Err ErrAliasAlreadyInUse.
Proof.
  intros w0. exists (schedule [0; 0; 0; 1; 1; 1; 0; 1] w0). split; [apply schedule_reachable|].
  split_and!; vm_compute; reflexivity.
Qed.

(** A device deleted while a group is being created leaves the group with part
    of its members: the request answers that the device is missing, and asking
    again answers that the group exists. *)
Theorem group_left_partial :
  let create := CreateGroup "test"%go "g"%go [name_of "a"; name_of "b"] in
  let remove : answer () := Call (SDeleteDevice 1 (sample_id "b")) (fun _ => ok ()) in
  exists w, reachable (MkWorld app_db [create; remove]) w /\
    threads w = [fail (ErrStore ErrNotFound); ok ()] /\ member_ids (wdb w) 1 = [sample_id "a"] /\
    (run (CreateGroup "test"%go "g"%go [name_of "a"]) (wdb w)).1 = Err ErrGroupAlreadyExists.
Proof.
  intros create remove. exists (schedule [0; 0; 0; 0; 0; 1; 0] (MkWorld app_db [create; remove])).
  split; [apply schedule_reachable|]. split_and!; vm_compute; reflexivity.
Qed.

(** A missing group is reported as such when it is read and as a missing device
    when a member is added or removed; a database failure while a group is
    looked up is reported as a missing group. *)
Theorem group_lookup_answers :
  (run (GetGroup "test"%go "g"%go) app_db).1 = Err ErrGroupNotFound /\
  (run (AddGroupDevice "test"%go "g"%go (name_of "a")) app_db).1 = Err (ErrStore ErrNotFound) /\
  (run (RemoveGroupDevice "test"%go "g"%go (name_of "a")) app_db).1 = Err (ErrStore ErrNotFound) /\
  writeError (ErrStore ErrNotFound) = Detail 404 "Device not found"%go /\
  writeError (missingGroup ErrDatabase) = Detail 404 "Group not found"%go.
Proof. split_and!; vm_compute; reflexivity. Qed.

Lemma no_alias_unique d :
  forallb (fun x => bool_decide (Aliases x.2 = ∅)) (map_to_list (devices d)) = true -> alias_unique d.
Proof.
  rewrite forallb_forall. intros Hf rid id1 id2 dev1 dev2 v H1 _ [tag Ht] _.
  assert (bool_decide (Aliases dev1 = ∅) = true) as Hb.
  { apply (Hf ((rid, id1), dev1)). by apply list_elem_of_In, elem_of_map_to_list. }
  apply bool_decide_eq_true in Hb. rewrite Hb in Ht. by apply lookup_empty_Some in Ht.
Qed.

Lemma aliases_stay_unique_witness :
  let rqs := [RPatchDevice "test"%go (name_of "a") (give_alias "serial"%go "x"%go);
              RPatchDevice "test"%go (name_of "b") (give_alias "serial"%go "x"%go)] in
  (has_alias "x"%go <$> devices (foldl serve app_db rqs) !! (1%Z, sample_id "a")) = Some true /\
  alias_unique (foldl serve app_db rqs).
Proof.
  intros rqs. split; [vm_compute; reflexivity|].
  refine (proj1 (aliases_stay_unique app_db rqs (no_alias_unique app_db _))). vm_compute. reflexivity.
Defined.

Definition app_realm : Realm := MkRealmRow 1 ["pem"%go] "ca"%go "key"%go (Some 10%Z) None 0.

Lemma device_patch_exact_witness :
  let p := give_alias "serial"%go "x"%go in
  let dev := new_device "h"%go 0 in
  (Aliases <$> devices (run (PatchDevice "test"%go (name_of "a") p) app_db).2 !! (1%Z, sample_id "a"))
    = Some {["serial"%go := "x"%go]} /\
  ((admissible app_db 1 (sample_id "a") dev p /\ run (PatchDevice "test"%go (name_of "a") p) app_db =
     (Ok (deviceStatusView (sample_id "a") (patched p dev) (device_groups app_db 1 (sample_id "a"))),
      put 1 (sample_id "a") (patched p dev) app_db)) \/
   (~ admissible app_db 1 (sample_id "a") dev p /\
    exists e, patch_error e /\ run (PatchDevice "test"%go (name_of "a") p) app_db = (Err e, app_db))).
Proof.
  intros p dev. split; [vm_compute; reflexivity|].
  refine (device_patch_exact app_db "test"%go app_realm (sample_id "a") dev p _ _ _); vm_compute; reflexivity.
Defined.

Lemma group_created_whole_witness :
  let '(a, d') := run (CreateGroup "test"%go "g"%go [name_of "b"; name_of "a"; name_of "b"]) app_db in
  a = Ok () /\ member_ids d' 1 = [sample_id "a"; sample_id "b"] /\
  ((a = Ok () /\ groups app_db !! (1%Z, "g"%go) = None) \/ exists e, a = Err e).
Proof.
  pose proof (group_created_whole app_db "test"%go app_realm "g"%go [name_of "b"; name_of "a"; name_of "b"]
    (reachable_db_ok _ _ (run_reachable app_setup empty_db) empty_db_ok) ltac:(vm_compute; reflexivity)) as Hg.
  destruct (run _ app_db) as [a d'] eqn:E. cbn zeta beta iota in Hg.
  assert (a = (run (CreateGroup "test"%go "g"%go [name_of "b"; name_of "a"; name_of "b"]) app_db).1) as Ha by (by rewrite E).
  assert (d' = (run (CreateGroup "test"%go "g"%go [name_of "b"; name_of "a"; name_of "b"]) app_db).2) as Hd by (by rewrite E).
  split; [rewrite Ha; vm_compute; reflexivity|]. split; [rewrite Hd; vm_compute; reflexivity|].
  destruct Hg as [(H1 & H2 & _)|(H1 & _)]; [left; by split|by right].
Defined.

End AppEngine.
