(* ===== verification/Pages.v ===== *)
(** * Page cursors

    The two listings of [internal/appengine/service.go]: devices page by the
    last identifier seen, the devices of a group by an offset. A client follows
    the cursor of each page; the tables may change between its requests. *)

From stdpp Require Import sorting.
From S2P Require Import Prelude GoStrings DeviceID SchemaTypes Endpoints InterfaceParse Topics ByteOrder MetaStore MetaWorld AppEngine.

Module Pages.
Import ByteOrder MetaStore MetaWorld AppEngine.

(** ** The identifiers of a realm *)

Lemma sorted_filter (P : ID -> Prop) `{!forall x, Decision (P x)} l :
  StronglySorted bytes_lt l -> StronglySorted bytes_lt (filter P l).
Proof.
  induction 1 as [|x l Hs IH Hx]; [constructor|]. rewrite filter_cons. case_decide; [|done]. constructor; [done|].
  apply Forall_forall. intros y [_ Hy]%list_elem_of_filter. rewrite Forall_forall in Hx. by apply Hx.
Qed.

(** The identifiers after a cursor. *)
Definition above (lo : option ID) (id : ID) : Prop := match lo with Some a => bytes_lt a id | None => True end.
#[global] Instance above_dec lo id : Decision (above lo id).
Proof. destruct lo; apply _. Defined.

Definition ids_after (d : db) (rid : Z) (lo : option ID) : list ID := filter (above lo) (device_ids d rid).

Lemma ids_after_elem d rid lo id : id ∈ ids_after d rid lo <-> above lo id /\ is_Some (devices d !! (rid, id)).
Proof. unfold ids_after. by rewrite list_elem_of_filter, device_ids_elem. Qed.

Lemma ids_after_sorted d rid lo : StronglySorted bytes_lt (ids_after d rid lo).
Proof. apply sorted_filter, device_ids_sorted. Qed.

(** The rows of a page. *)
Definition rows_after (d : db) (rid : Z) (lo : option ID) : list (ID * Device) :=
  omap (fun id => dev ← devices d !! (rid, id); Some (id, dev)) (ids_after d rid lo).

Lemma rows_of_ids d rid l :
  Forall (fun id => is_Some (devices d !! (rid, id))) l ->
  (omap (fun id => dev ← devices d !! (rid, id); Some (id, dev)) l).*1 = l.
Proof. induction 1 as [|id l [dev Hd] _ IH]; [done|]. simpl. rewrite Hd. simpl. f_equal. exact IH. Qed.

Lemma rows_after_ids d rid lo : (rows_after d rid lo).*1 = ids_after d rid lo.
Proof. apply rows_of_ids, Forall_forall. by intros id [_ ?]%ids_after_elem. Qed.

Lemma exec_ListDevices d rid lo limit :
  (0 <= limit)%Z -> MetaStore.ListDevices rid lo limit d = (Ok (take (Z.to_nat limit) (rows_after d rid lo)), d).
Proof.
  intros Hl. unfold MetaStore.ListDevices, reads, limited. rewrite (proj2 (Z.ltb_ge _ _)) by done.
  do 3 f_equal. unfold rows_after, ids_after. destruct lo as [a|]; simpl; [done|]. rewrite filter_all; [done|]. by apply Forall_true.
Qed.

(** ** One page of devices *)

Section Walk.
Context `{Collation}.

(** The cursor of a page that stops before [lo]'s successor. *)
Definition cursor (lo : option ID) : gostring := from_option DeviceID.String [] lo.

Definition page_ids (d : db) (rid : Z) (lo : option ID) (limit : nat) : list ID := take limit (ids_after d rid lo).
Definition page_next (d : db) (rid : Z) (lo : option ID) (limit : nat) : option ID :=
  if decide (limit < length (ids_after d rid lo)) then ids_after d rid lo !! (limit - 1) else None.

Definition ids_wf (d : db) : Prop := forall rid id, is_Some (devices d !! (rid, id)) -> DeviceID.wf_id id.

Definition page_size (limit : Z) : Z := if (limit <=? 0)%Z then DefaultDeviceLimit else limit.

Lemma ListDevices_page d realm r lo limit :
  realms d !! realm = Some r -> (limit < int64_max)%Z -> (forall a, lo = Some a -> DeviceID.wf_id a) ->
  run (ListDevices realm (cursor lo) limit false) d =
    (Ok (MkPage (map DeviceID.String (page_ids d (RealmID r) lo (Z.to_nat (page_size limit)))) []
           (cursor (page_next d (RealmID r) lo (Z.to_nat (page_size limit))))), d).
Proof.
  intros Hr Hmax Hlo. set (rid := RealmID r). set (n := page_size limit).
  assert (0 < n < int64_max)%Z as Hn.
  { unfold n, page_size, DefaultDeviceLimit, int64_max in *. destruct (Z.leb_spec limit 0); lia. }
  assert (wrap 64 (n + 1) = n + 1)%Z as Hw by (apply wrap_small; unfold int64_max in *; lia).
  unfold ListDevices, realmID. cbn [run call exec]. unfold GetRealmByName, reads. rewrite Hr. cbn [or_err run].
  fold rid. fold (page_size limit). fold n.
  assert (forall lo' (k : DevicePage -> answer DevicePage),
    run (let! devs := SListDevices rid lo' (wrap 64 (n + 1)) catch store_err in
      let more := (n <? Z.of_nat (length devs))%Z in
      let next := if more then from_option (fun x => DeviceID.String x.1) [] (devs !! Z.to_nat (n - 1)) else [] in
      let devs := if more then take (Z.to_nat n) devs else devs in
      if negb false then ok (MkPage (map (fun x => DeviceID.String x.1) devs) [] next)
      else deviceStatusBatch rid devs (fun statuses => ok (MkPage [] statuses next))) d =
    (Ok (MkPage (map DeviceID.String (page_ids d rid lo' (Z.to_nat n))) [] (cursor (page_next d rid lo' (Z.to_nat n)))), d)) as Hpage.
  { intros lo' _. rewrite Hw. cbn [run call exec]. rewrite exec_ListDevices by lia. cbn [run].
    rewrite length_take. replace (Z.to_nat (n + 1)) with (S (Z.to_nat n)) by lia.
    unfold page_ids, page_next. rewrite <- rows_after_ids. set (rows := rows_after d rid lo').
    rewrite length_fmap, list_lookup_fmap, <- fmap_take.
    assert (forall l : list (ID * Device), map (fun x => DeviceID.String x.1) l = map DeviceID.String l.*1) as Hmap.
    { intros l. induction l as [|x l IH]; [done|]. simpl. by rewrite IH. }
    destruct (Z.ltb_spec n (Z.of_nat (Nat.min (S (Z.to_nat n)) (length rows)))) as [Hlt|Hge].
    - rewrite decide_True by lia. rewrite take_take, Nat.min_l by lia. rewrite lookup_take, decide_True by lia.
      replace (Z.to_nat (n - 1)) with (Z.to_nat n - 1) by lia. unfold ok. cbn [negb run]. rewrite Hmap.
      unfold cursor. by destruct (rows !! (Z.to_nat n - 1)).
    - rewrite decide_False by lia. unfold ok. cbn [negb run]. rewrite Hmap, !take_ge by (rewrite ?length_fmap; lia). done. }
  destruct lo as [a|]; simpl.
  - specialize (Hlo a eq_refl). rewrite decide_False.
    + rewrite (proj2 (DeviceID.Parse_iff _ a)) by done. apply (Hpage (Some a) ok).
    + unfold DeviceID.String. intros E%(f_equal length). rewrite Base64.length_encode16 in E by done. done.
  - apply (Hpage None ok).
Qed.

(** ** Following the cursor *)

(** The pages a client collects, the first from the first state of the tables,
    the next from the next, and whether the last page had no cursor. *)
Fixpoint walk (realm : gostring) (limit : Z) (after : gostring) (ds : list db) : option (list (list gostring) * bool) :=
  match ds with
  | [] => Some ([], false)
  | d :: ds =>
      match (run (ListDevices realm after limit false) d).1 with
      | Err _ => None
      | Ok page =>
          if decide (Next page = []) then Some ([IDs page], true)
          else '(rest, fin) ← walk realm limit (Next page) ds; Some (IDs page :: rest, fin)
      end
  end.

(** What the pages after [lo] list. *)
Record listing (ds : list db) (rid : Z) (limit : nat) (lo : option ID) (pages : list (list ID)) (fin : bool) : Prop := {
  listing_sorted : StronglySorted bytes_lt (concat pages);
  listing_above : forall id, id ∈ concat pages -> above lo id;
  listing_known : forall k page, pages !! k = Some page ->
    length page <= limit /\ exists d, ds !! k = Some d /\ forall id, id ∈ page -> is_Some (devices d !! (rid, id));
  listing_all : fin = true -> forall id, above lo id ->
    (forall d, d ∈ take (length pages) ds -> is_Some (devices d !! (rid, id))) -> id ∈ concat pages;
}.

#[local] Instance bytes_lt_trans : Transitive bytes_lt.
Proof.
  intros a b c [H1 N1] [H2 N2]. split; [by etrans|]. intros ->. apply N1. by apply (anti_symm bytes_le).
Qed.

Lemma above_trans lo a b : above lo a -> bytes_lt a b -> above lo b.
Proof. destruct lo as [x|]; simpl; [|done]. intros ? ?. by etrans. Qed.

(** The page that is followed by another ends with the cursor's identifier. *)
Lemma page_split d rid lo limit a :
  (0 < limit) -> page_next d rid lo limit = Some a ->
  above lo a /\ is_Some (devices d !! (rid, a)) /\
  (forall id, id ∈ page_ids d rid lo limit -> id = a \/ bytes_lt id a) /\
  (forall id, id ∈ ids_after d rid lo -> id ∈ page_ids d rid lo limit \/ bytes_lt a id).
Proof.
  unfold page_next, page_ids. intros Hl. case_decide; [|done]. intros Ha.
  pose proof (ids_after_sorted d rid lo) as Hs. pose proof (list_elem_of_lookup_2 _ _ _ Ha) as [? ?]%ids_after_elem.
  pose proof (take_drop_middle _ _ _ Ha) as Hsplit. rewrite <- Hsplit in Hs.
  apply StronglySorted_app in Hs as (Q1 & Q2 & Q3).
  assert (take limit (ids_after d rid lo) = take (limit - 1) (ids_after d rid lo) ++ [a]) as Htake.
  { replace limit with (S (limit - 1)) at 1 by lia. by apply take_S_r. }
  split; [done|]. split; [done|]. rewrite Htake. split.
  - intros id [Hin|<-%list_elem_of_singleton]%elem_of_app; [right|by left]. apply Q1; [done|left].
  - intros id Hin. rewrite <- Hsplit, elem_of_app, elem_of_cons in Hin. rewrite elem_of_app, list_elem_of_singleton.
    destruct Hin as [?|[?|Hin]]; [by left; left|by left; right|right].
    inversion_clear Q3 as [|? ? Hs' Hf]. rewrite Forall_forall in Hf. by apply Hf.
Qed.

Lemma page_next_None d rid lo limit : page_next d rid lo limit = None -> page_ids d rid lo limit = ids_after d rid lo.
Proof.
  unfold page_next, page_ids. case_decide as Hl; [|intros _; apply take_ge; lia].
  intros Hn%lookup_ge_None. apply take_ge. lia.
Qed.

Lemma walk_listing realm rid limit ds lo listed fin :
  (limit < int64_max)%Z -> (forall a, lo = Some a -> DeviceID.wf_id a) ->
  (forall d, d ∈ ds -> ids_wf d /\ exists r, realms d !! realm = Some r /\ RealmID r = rid) ->
  walk realm limit (cursor lo) ds = Some (listed, fin) ->
  exists pages, listed = map (map DeviceID.String) pages /\ listing ds rid (Z.to_nat (page_size limit)) lo pages fin.
Proof.
  intros Hmax. set (n := Z.to_nat (page_size limit)).
  assert (0 < n) as Hn.
  { unfold n, page_size, DefaultDeviceLimit. destruct (Z.leb_spec limit 0); lia. }
  revert lo listed. induction ds as [|d ds IH]; intros lo listed Hlo Hds; cbn [walk].
  { intros [= <- <-]. exists []. split; [done|]. split; [constructor|by intros ? ?%not_elem_of_nil|done|done]. }
  destruct (Hds d) as [Hwf (r & Hr & <-)]; [left|].
  rewrite (ListDevices_page d realm r lo limit) by done. cbn [fst Next IDs]. fold n.
  assert (forall id, id ∈ page_ids d (RealmID r) lo n -> above lo id /\ is_Some (devices d !! (RealmID r, id))) as Hp.
  { intros id Hin. apply ids_after_elem. rewrite <- (take_drop n (ids_after d (RealmID r) lo)). apply elem_of_app. by left. }
  assert (length (page_ids d (RealmID r) lo n) <= n /\ exists d', (d :: ds) !! 0 = Some d' /\
    forall id, id ∈ page_ids d (RealmID r) lo n -> is_Some (devices d' !! (RealmID r, id))) as Hfirst.
  { split; [unfold page_ids; rewrite length_take; lia|]. exists d. split; [done|]. by intros id [_ ?]%Hp. }
  destruct (page_next d (RealmID r) lo n) as [a|] eqn:Ea; simpl.
  - destruct (page_split _ _ _ _ _ Hn Ea) as (Habove & Hknown & Hbelow & Hrest).
    rewrite decide_False.
    2:{ intros E%(f_equal length). unfold DeviceID.String in E. rewrite Base64.length_encode16 in E by (by eapply Hwf). done. }
    intros ([rest f] & Hw & [= <- <-])%bind_Some.
    destruct (IH (Some a) rest) as (pages & -> & [S1 S2 S3 S4]);
      [by intros ? [= <-]; eapply Hwf|intros d' Hd'; apply Hds; by right|done|].
    exists (page_ids d (RealmID r) lo n :: pages). split; [done|]. split; simpl.
    + apply StronglySorted_app_2; [|..|done].
      * intros x y Hx Hy. destruct (Hbelow x Hx) as [->|?]; [by apply S2|]. etrans; [done|]. by apply S2.
      * eapply StronglySorted_app_1_l. unfold page_ids. rewrite take_drop. apply ids_after_sorted.
    + intros id [?|?%S2]%elem_of_app; [by apply Hp|]. by eapply above_trans.
    + intros [|k] page; [intros [= <-]; exact Hfirst|apply S3].
    + intros Hf id Hid Hall. apply elem_of_app.
      destruct (Hrest id) as [?|Hgt]; [apply ids_after_elem; split; [done|apply Hall; left]|by left|right].
      apply S4; [done|done|]. intros d' Hd'. apply Hall. by right.
  - intros [= <- <-]. exists [page_ids d (RealmID r) lo n]. split; [done|].
    split; simpl; rewrite ?app_nil_r; [..|intros _ id Hid Hall; rewrite (page_next_None _ _ _ _ Ea)].
    + rewrite (page_next_None _ _ _ _ Ea). apply ids_after_sorted.
    + by intros id [? _]%Hp.
    + intros [|k] page; [intros [= <-]; exact Hfirst|done].
    + apply ids_after_elem. split; [done|]. apply Hall. left.
Qed.

Lemma sorted_NoDup l : StronglySorted bytes_lt l -> NoDup l.
Proof.
  induction 1 as [|x l _ IH Hx]; constructor; [|done]. intros Hin. rewrite Forall_forall in Hx.
  destruct (Hx x Hin) as [_ ?]. done.
Qed.

Lemma next_page_shorter d rid lo a :
  above lo a -> is_Some (devices d !! (rid, a)) -> length (ids_after d rid (Some a)) < length (ids_after d rid lo).
Proof.
  intros Ha Hd.
  assert (a :: ids_after d rid (Some a) ⊆+ ids_after d rid lo) as Hsub.
  { apply NoDup_submseteq.
    - constructor; [|apply sorted_NoDup, ids_after_sorted]. by intros [[_ ?] _]%ids_after_elem.
    - intros x [->|[Hx Hd']%ids_after_elem]%elem_of_cons; apply ids_after_elem; [done|]. split; [|done].
      by eapply above_trans. }
  apply submseteq_length in Hsub. simpl in Hsub. lia.
Qed.

Lemma walk_ends d realm r limit k lo :
  (limit < int64_max)%Z -> (forall a, lo = Some a -> DeviceID.wf_id a) -> ids_wf d -> realms d !! realm = Some r ->
  length (ids_after d (RealmID r) lo) < k ->
  exists listed, walk realm limit (cursor lo) (replicate k d) = Some (listed, true).
Proof.
  intros Hmax Hlo Hwf Hr. set (n := Z.to_nat (page_size limit)).
  assert (0 < n) as Hn.
  { unfold n, page_size, DefaultDeviceLimit. destruct (Z.leb_spec limit 0); lia. }
  revert lo Hlo. induction k as [|k IH]; intros lo Hlo Hk; [lia|]. cbn [replicate walk].
  rewrite (ListDevices_page d realm r lo limit) by done. cbn [fst Next IDs]. fold n.
  destruct (page_next d (RealmID r) lo n) as [a|] eqn:Ea; simpl.
  - destruct (page_split _ _ _ _ _ Hn Ea) as (Habove & Hknown & _). rewrite decide_False.
    2:{ intros E%(f_equal length). unfold DeviceID.String in E. rewrite Base64.length_encode16 in E by (by eapply Hwf). done. }
    pose proof (next_page_shorter d (RealmID r) lo a Habove Hknown).
    destruct (IH (Some a)) as [rest Hrest]; [by intros ? [= <-]; eapply Hwf|lia|]. simpl in Hrest. rewrite Hrest. simpl. eauto.
  - eauto.
Qed.

(** C36. Following the cursor of the device list until a page has none, with the
    tables changing in any way between the requests as long as the realm keeps
    its id, for any limit below the largest integer: no page is longer than the
    limit; the identifiers come in strictly ascending order, so none is listed
    twice; those of a page were registered in the very state the page was read
    from; and every device registered in each of these states is listed. *)
Theorem device_pages_complete realm rid limit ds listed :
  (limit < int64_max)%Z ->
  (forall d, d ∈ ds -> ids_wf d /\ exists r, realms d !! realm = Some r /\ RealmID r = rid) ->
  walk realm limit [] ds = Some (listed, true) ->
  exists pages, listed = map (map DeviceID.String) pages /\ StronglySorted bytes_lt (concat pages) /\
    (forall k page, pages !! k = Some page -> length page <= Z.to_nat (page_size limit) /\
       exists d, ds !! k = Some d /\ forall id, id ∈ page -> is_Some (devices d !! (rid, id))) /\
    (forall id, (forall d, d ∈ take (length pages) ds -> is_Some (devices d !! (rid, id))) -> id ∈ concat pages).
Proof.
  intros Hmax Hds Hw. destruct (walk_listing realm rid limit ds None listed true Hmax) as (pages & -> & [S1 S2 S3 S4]); [done..|].
  exists pages. split_and!; [done..|]. intros id. by apply S4.
Qed.

Lemma sorted_le l : StronglySorted bytes_lt l -> StronglySorted bytes_le l.
Proof.
  induction 1 as [|x l _ IH Hx]; constructor; [done|]. eapply Forall_impl; [exact Hx|]. by intros y [? _].
Qed.

Lemma sorted_same_elements l k :
  StronglySorted bytes_lt l -> StronglySorted bytes_lt k -> (forall x, x ∈ l <-> x ∈ k) -> l = k.
Proof.
  intros Hl Hk He. apply (StronglySorted_unique bytes_le).
  - by apply sorted_le.
  - by apply sorted_le.
  - apply NoDup_Permutation; [by apply sorted_NoDup..|done].
Qed.

(** On tables that do not change the walk ends after at most one page per
    device and one more, having listed exactly the devices of the realm. *)
Theorem device_pages_end d realm r limit :
  (limit < int64_max)%Z -> ids_wf d -> realms d !! realm = Some r ->
  exists pages, walk realm limit [] (replicate (S (length (device_ids d (RealmID r)))) d) = Some (pages, true) /\
    concat pages = map DeviceID.String (device_ids d (RealmID r)).
Proof.
  intros Hmax Hwf Hr. set (k := S _).
  assert (length (ids_after d (RealmID r) None) < k) as Hk.
  { unfold k, ids_after. rewrite filter_all by (by apply Forall_true). lia. }
  destruct (walk_ends d realm r limit k None) as [listed Hw]; [done..|]. exists listed. split; [exact Hw|].
  assert (forall d', d' ∈ replicate k d -> d' = d) as Hd by (intros d' [-> _]%elem_of_replicate; done).
  destruct (walk_listing realm (RealmID r) limit (replicate k d) None listed true Hmax) as (pages & -> & [S1 S2 S3 S4]).
  { done. }
  { intros d' ->%Hd. eauto. }
  { done. }
  rewrite <- concat_map. f_equal. apply sorted_same_elements; [done|apply device_ids_sorted|].
  intros id. rewrite device_ids_elem. split.
  - intros Hin. apply list_elem_of_In, in_concat in Hin as (page & Hpage & Hin).
    apply list_elem_of_In, list_elem_of_lookup in Hpage as [j Hj]. apply list_elem_of_In in Hin.
    destruct (S3 _ _ Hj) as (_ & d' & ->%list_elem_of_lookup_2%Hd & Hid). by apply Hid.
  - intros Hid. apply S4; [done..|]. intros d' Hd'. rewrite (Hd d'); [done|].
    rewrite <- (take_drop (length pages) (replicate k d)). apply elem_of_app. by left.
Qed.

End Walk.

(** ** The cursor of a group *)

Lemma uint32_put z : (0 <= z < 2 ^ 32)%Z -> uint32_of (put_uint32 z) = z.
Proof.
  intros Hz. unfold put_uint32, uint32_of. cbn [map foldl].
  rewrite !byte_val_chr by (apply Z.mod_pos_bound; lia).
  change (2 ^ 24)%Z with 16777216%Z. change (2 ^ 16)%Z with 65536%Z. change (2 ^ 8)%Z with 256%Z.
  change (2 ^ 0)%Z with 1%Z. change (2 ^ 32)%Z with 4294967296%Z in Hz. Base64.arith.
Qed.

Lemma uint32_range s : length s = 4 -> (0 <= uint32_of s < 2 ^ 32)%Z.
Proof.
  intros Hl. do 5 (destruct s as [|? s]; try done). clear Hl. unfold uint32_of. cbn [foldl].
  Base64.bytes_pos. change (2 ^ 32)%Z with 4294967296%Z. lia.
Qed.

Lemma token_parses offset : parseGroupToken (groupTokenFor offset) = Some (offset mod 2 ^ 32)%Z.
Proof.
  unfold parseGroupToken, groupTokenFor. rewrite DeviceID.FromUUID_UUID by done.
  cbn [put_uint32 map app lookup list_lookup mbind option_bind]. rewrite byte_val_chr by lia. cbn -[uint32_of chr Z.pow Z.div Z.modulo].
  f_equal. apply uint32_put. apply Z.mod_pos_bound. lia.
Qed.

Lemma group_token_nonempty offset : groupTokenFor offset <> [].
Proof. unfold groupTokenFor, DeviceID.UUID. cbn [put_uint32 map app]. by destruct (Hex.encode _). Qed.

(** The offset cursor: a token gives back the offset it was made for, below
    the 32 bits it carries; every accepted token, whoever made it, is an offset
    in that range; and a token is never the empty string that asks for the
    first page. *)
Theorem group_token_round_trip :
  (forall offset, (0 <= offset < 2 ^ 32)%Z -> parseGroupToken (groupTokenFor offset) = Some offset) /\
  (forall s offset, parseGroupToken s = Some offset -> (0 <= offset < 2 ^ 32)%Z) /\
  (forall offset, groupTokenFor offset <> []).
Proof.
  split_and!.
  - intros offset Ho. by rewrite token_parses, Z.mod_small.
  - intros s offset. unfold parseGroupToken. destruct (DeviceID.FromUUID s) as [u|] eqn:E; [|done].
    intros (c & Hc & Hif)%bind_Some. destruct (negb _); [done|]. injection Hif as <-. apply uint32_range.
    apply lookup_lt_Some in Hc. apply DeviceID.length_slice. lia.
  - apply group_token_nonempty.
Qed.

Section GroupWalk.
Context `{Collation}.

Fixpoint group_walk (realm name : gostring) (limit : Z) (token : gostring) (ds : list db)
    : option (list gostring * bool) :=
  match ds with
  | [] => Some ([], false)
  | d :: ds =>
      match (run (ListGroupDevices realm name false token limit) d).1 with
      | Err _ => None
      | Ok page =>
          if decide (Next page = []) then Some (IDs page, true)
          else '(rest, fin) ← group_walk realm name limit (Next page) ds; Some (IDs page ++ rest, fin)
      end
  end.

Definition group_page_size (limit : Z) : Z := if (limit =? 0)%Z then DefaultDeviceLimit else limit.

(** The token that asks for the rows from [offset]. *)
Definition asks (token : gostring) (offset : Z) : Prop :=
  (token = [] /\ offset = 0%Z) \/ (token <> [] /\ parseGroupToken token = Some offset).

Lemma group_page d realm r name gid token offset limit :
  realms d !! realm = Some r -> groups d !! (RealmID r, name) = Some gid ->
  (0 <= limit < int64_max)%Z -> asks token offset -> (0 <= offset)%Z ->
  let n := group_page_size limit in
  let rows := drop (Z.to_nat offset) (member_ids d gid) in
  (run (ListGroupDevices realm name false token limit) d).1 =
    if (n <? Z.of_nat (length rows))%Z
    then Ok (MkPage (map DeviceID.String (take (Z.to_nat n) rows)) [] (groupTokenFor (offset + n)))
    else Ok (MkPage (map DeviceID.String rows) [] []).
Proof.
  intros Hr Hg Hl Htok Ho n rows.
  assert (0 < n < int64_max)%Z as Hn.
  { unfold n, group_page_size, DefaultDeviceLimit, int64_max in *. destruct (Z.eqb_spec limit 0); lia. }
  unfold ListGroupDevices, realmID. cbn [run call exec]. unfold GetRealmByName, reads. rewrite Hr. cbn [or_err run].
  replace (if decide (token = []) then Some 0%Z else parseGroupToken token) with (Some offset)
    by (destruct Htok as [[-> ->]|[? ?]]; [done|by rewrite decide_False]).
  rewrite (proj2 (Z.ltb_ge limit 0)) by lia. fold (group_page_size limit). fold n.
  cbn [run call exec]. unfold GetGroupByName, reads. rewrite Hg. cbn [or_err mbind option_bind run call exec GroupID].
  unfold ListGroupDevicesPage, reads, limited.
  rewrite wrap_small by (unfold int64_max in *; lia). rewrite (proj2 (Z.ltb_ge (n + 1) 0)) by lia.
  fold rows. rewrite length_take. replace (Z.to_nat (n + 1)) with (S (Z.to_nat n)) by lia.
  destruct (Z.ltb_spec n (Z.of_nat (length rows))) as [Hlt|Hge].
  - rewrite (proj2 (Z.ltb_lt _ _)) by lia. unfold ok. cbn [run fst]. by rewrite take_take, Nat.min_l by lia.
  - rewrite (proj2 (Z.ltb_ge _ _)) by lia. unfold ok. cbn [run fst]. by rewrite take_ge by lia.
Qed.

Lemma group_walk_from d realm r name gid limit k token offset :
  realms d !! realm = Some r -> groups d !! (RealmID r, name) = Some gid -> (0 <= limit < int64_max)%Z ->
  (Z.of_nat (length (member_ids d gid)) < 2 ^ 32)%Z -> asks token offset -> (0 <= offset)%Z ->
  length (drop (Z.to_nat offset) (member_ids d gid)) < k ->
  group_walk realm name limit token (replicate k d)
  = Some (map DeviceID.String (drop (Z.to_nat offset) (member_ids d gid)), true).
Proof.
  intros Hr Hg Hl Hsmall. revert token offset. induction k as [|k IH]; intros token offset Htok Ho Hk; [lia|].
  cbn [replicate group_walk]. rewrite (group_page d realm r name gid token offset limit) by done.
  set (n := group_page_size limit). set (rows := drop (Z.to_nat offset) (member_ids d gid)) in *.
  assert (0 < n)%Z as Hn by (unfold n, group_page_size, DefaultDeviceLimit; destruct (Z.eqb_spec limit 0); lia).
  destruct (Z.ltb_spec n (Z.of_nat (length rows))) as [Hlt|Hge]; cbn [Next IDs]; [|done].
  pose proof (length_drop (member_ids d gid) (Z.to_nat offset)) as Hlen. fold rows in Hlen.
  assert (0 <= offset + n < 2 ^ 32)%Z as Hrange by lia.
  rewrite decide_False by (apply group_token_nonempty).
  assert (drop (Z.to_nat (offset + n)) (member_ids d gid) = drop (Z.to_nat n) rows) as Hdrop.
  { unfold rows. rewrite drop_drop. f_equal. lia. }
  rewrite IH with (offset := (offset + n)%Z).
  - rewrite Hdrop. simpl. by rewrite <- map_app, take_drop.
  - right. split; [apply group_token_nonempty|]. by rewrite token_parses, Z.mod_small.
  - lia.
  - rewrite Hdrop, length_drop. lia.
Qed.

(** On a group that does not change, following the token lists exactly its
    members in order and ends, at most one page per member and one more. *)
Theorem group_pages_end d realm r name gid limit :
  realms d !! realm = Some r -> groups d !! (RealmID r, name) = Some gid -> (0 <= limit < int64_max)%Z ->
  (Z.of_nat (length (member_ids d gid)) < 2 ^ 32)%Z ->
  group_walk realm name limit [] (replicate (S (length (member_ids d gid))) d)
  = Some (map DeviceID.String (member_ids d gid), true).
Proof.
  intros Hr Hg Hl Hs. pose proof (group_walk_from d realm r name gid limit (S (length (member_ids d gid))) [] 0 Hr Hg Hl Hs) as Hw.
  rewrite drop_0 in Hw. apply Hw; [by left|lia|lia].
Qed.

End GroupWalk.

(** ** Samples *)

Definition pages_setup : prog () :=
  all_calls [existT _ (SCreateRealm sample_realm);
    existT _ (SRegisterDevice 1 (sample_id "a") "h"%go); existT _ (SRegisterDevice 1 (sample_id "b") "h"%go);
    existT _ (SRegisterDevice 1 (sample_id "c") "h"%go); existT _ (SCreateGroup 1 "g"%go);
    existT _ (SAddGroupDevice 1 1 (sample_id "a")); existT _ (SAddGroupDevice 1 1 (sample_id "b"));
    existT _ (SAddGroupDevice 1 1 (sample_id "c"))].
Definition pages_db : db := (run pages_setup empty_db).2.
(** The first device goes and a fourth is registered. *)
Definition pages_db' : db :=
  (run (all_calls [existT _ (SDeleteDevice 1 (sample_id "a")); existT _ (SRegisterDevice 1 (sample_id "d") "h"%go)])
     pages_db).2.

Definition wf_check (d : db) : bool := forallb (fun x => (length x.1.2 =? 16)%nat) (map_to_list (devices d)).

Lemma wf_checked d : wf_check d = true -> ids_wf d.
Proof.
  unfold wf_check. rewrite forallb_forall. intros Hc rid id [dev Hd]. apply Nat.eqb_eq.
  apply (Hc (rid, id, dev)). by apply list_elem_of_In, elem_of_map_to_list.
Qed.

Definition listed_pages : list (list gostring) :=
  map (map (fun c => DeviceID.String (sample_id c))) [["a"; "b"]; ["c"; "d"]]%char.

Lemma device_pages_complete_witness :
  walk "test"%go 2 [] [pages_db; pages_db'] = Some (listed_pages, true) /\
  exists pages, listed_pages = map (map DeviceID.String) pages /\ StronglySorted bytes_lt (concat pages).
Proof.
  assert (walk "test"%go 2 [] [pages_db; pages_db'] = Some (listed_pages, true)) as Hw by (vm_compute; reflexivity).
  split; [exact Hw|].
  destruct (device_pages_complete "test"%go 1 2 [pages_db; pages_db'] _ ltac:(done)
    ltac:(intros d [->|[->|[]%not_elem_of_nil]%elem_of_cons]%elem_of_cons;
          (split; [apply wf_checked; vm_compute; reflexivity|eexists; split; [vm_compute; reflexivity|reflexivity]])) Hw)
    as (pages & E & S & _). exists pages. split; [exact E|exact S].
Defined.

Lemma device_pages_end_witness :
  exists pages, walk "test"%go 2 [] (replicate (S (length (device_ids pages_db 1))) pages_db) = Some (pages, true) /\
    concat pages = map DeviceID.String (device_ids pages_db 1).
Proof.
  apply (device_pages_end pages_db "test"%go
    (MkRealmRow 1 ["pem"%go] "ca"%go "key"%go (Some 10%Z) None 0) 2); [done| |vm_compute; reflexivity].
  apply wf_checked. vm_compute. reflexivity.
Defined.

Lemma group_pages_end_witness :
  group_walk "test"%go "g"%go 1 [] (replicate (S (length (member_ids pages_db 1))) pages_db)
  = Some (map DeviceID.String (member_ids pages_db 1), true).
Proof.
  apply (group_pages_end pages_db "test"%go
    (MkRealmRow 1 ["pem"%go] "ca"%go "key"%go (Some 10%Z) None 0) "g"%go 1 1); [vm_compute; reflexivity..|vm_compute; split; done|done].
Defined.

(** A group's cursor is an offset: when a member of an earlier page leaves
    between two requests, a device that belongs to the group throughout is
    never listed. *)
Theorem group_page_skips :
  exists d d', member_ids d 1 = map sample_id ["a"; "b"; "c"]%char /\ member_ids d' 1 = map sample_id ["b"; "c"]%char /\
    (run (RemoveGroupDevice "test"%go "g"%go (DeviceID.String (sample_id "a"))) d).2 = d' /\
    group_walk "test"%go "g"%go 1 [] [d; d'] = Some (map (fun c => DeviceID.String (sample_id c)) ["a"; "c"]%char, true).
Proof.
  exists pages_db, (run (RemoveGroupDevice "test"%go "g"%go (DeviceID.String (sample_id "a"))) pages_db).2.
  split_and!; vm_compute; reflexivity.
Qed.

(** The largest limit overflows when one row is added to detect a next page,
    and the listing fails. *)
Theorem largest_limit_fails :
  let d := pages_db in
  (run (ListDevices "test"%go [] int64_max false) d).1 = Err (ErrStore ErrDatabase) /\
  (run (ListGroupDevices "test"%go "g"%go false [] int64_max) d).1 = Err (ErrStore ErrDatabase) /\
  writeError (ErrStore ErrDatabase) = Detail 500 "Internal server error"%go.
Proof. split_and!; vm_compute; reflexivity. Qed.

End Pages.
