(* ===== verification/Pairing.v ===== *)
(** * Pairing

    [internal/pairing/service.go], the certificate authority of
    [internal/pairing/ca/ca.go], the key box of [internal/store/crypto.go] and
    the error mapping of [internal/pairing/http.go]. The handlers are programs
    over the metadata store. Encodings, signatures and hashes are the
    environment's: X.509 certificates are records, bcrypt, AES-GCM and the
    PEM codec are functions with their documented laws, and random draws are
    arguments. *)

From S2P Require Import Prelude GoStrings DeviceID SchemaTypes Endpoints InterfaceParse Broker Topics ByteOrder Auth MetaStore MetaWorld.

Module Pairing.
Import MetaStore MetaWorld.

(** ** Certificates *)

(** What the code reads of an [x509.Certificate]; [SignedBy] is the public key
    its signature verifies under. *)
Record Certificate := MkCertificate {
  SerialNumber : Z;
  CommonName : gostring;
  NotBefore : Z;
  NotAfter : Z;
  IsCA : bool;
  ClientAuth : bool;
  PublicKey : gostring;
  SubjectKeyId : gostring;
  AuthorityKeyId : gostring;
  SignedBy : gostring;
}.

Class Crypto := {
  (** [pem.Decode], the block type and [x509.ParseCertificate]. *)
  ParseCertificatePEM : gostring -> option Certificate;
  encodeCertPEM : Certificate -> gostring;
  (** A request's public key and whether its signature verifies. *)
  parseCSR : gostring -> option (gostring * bool);
  (** The public key of a PKCS#8 ECDSA private key. *)
  ParsePKCS8 : gostring -> option gostring;
  (** [bcrypt], with the salt it draws. *)
  GenerateFromPassword : gostring -> gostring -> option gostring;
  CompareHashAndPassword : gostring -> gostring -> bool;
  (** AES-256-GCM under the master key: nonce, text. *)
  aead_seal : gostring -> gostring -> gostring;
  aead_open : gostring -> gostring -> option gostring;
}.

Class CryptoLaws `{Crypto} := {
  parse_encode : forall c, ParseCertificatePEM (encodeCertPEM c) = Some c;
  compare_hash : forall salt s h, GenerateFromPassword salt s = Some h -> CompareHashAndPassword h s = true;
  hash_nonempty : forall salt s h, GenerateFromPassword salt s = Some h -> h <> [];
  aead_round_trip : forall n p, aead_open n (aead_seal n p) = Some p;
  aead_overhead : forall n p, length (aead_seal n p) = length p + 16;
}.

Section Pairing.
Context `{Collation} `{Crypto}.

(** [big.Int.String] of a 128-bit serial: at most 39 digits. *)
Definition serial_string (n : Z) : gostring := Strconv.format_digits 39 n.
Definition serial_ok (n : Z) : Prop := (0 < n < 2 ^ 128)%Z.

(** *** The key box *)

Definition NonceSize : nat := 12.
Definition Overhead : nat := 16.

Definition Seal (nonce plaintext : gostring) : gostring := nonce ++ aead_seal nonce plaintext.
Definition Open (sealed : gostring) : option gostring :=
  if (length sealed <? NonceSize + Overhead)%nat then None
  else aead_open (take NonceSize sealed) (drop NonceSize sealed).

(** *** The authority *)

Record CA := MkCA { cert : Certificate; certPEM : gostring; keyDER : gostring }.

Definition minute : Z := 60000000000.
Definition DefaultCertTTL : Z := 30 * 24 * 60 * minute.
Definition DefaultCALifetime : Z := 10 * 365 * 24 * 60 * minute.
Definition clockSkewBackdate : Z := 5 * minute.

Inductive ca_error := ErrCAInvalidCSR | ErrCAExpired | ErrCALoad | ErrCASerial.

(** A self-signed authority for drawn key and serial. *)
Definition Generate (realm : gostring) (lifetime at_ : Z) (key pub ski : gostring) (serial : Z) : CA :=
  let lifetime := if (lifetime =? 0)%Z then DefaultCALifetime else lifetime in
  let c := MkCertificate serial ("Astrate Realm "%go ++ realm ++ " CA"%go) (at_ - clockSkewBackdate) (at_ + lifetime)
             true false pub ski ski pub in
  MkCA c (encodeCertPEM c) key.

Definition Load (pem key : gostring) : option CA :=
  c ← ParseCertificatePEM pem;
  pub ← ParsePKCS8 key;
  if decide (pub = PublicKey c) then Some (MkCA c pem key) else None.

(** [SignCSR] at an instant, with the serial it draws. *)
Definition SignCSR (ca : CA) (csrPEM realm deviceID : gostring) (ttl at_ serial : Z)
    : result ca_error (gostring * gostring * gostring * Certificate) :=
  match parseCSR csrPEM with
  | None => Err ErrCAInvalidCSR
  | Some (pub, signed) =>
      if negb signed then Err ErrCAInvalidCSR
      else if (at_ <? NotBefore (cert ca))%Z || (NotAfter (cert ca) <? at_)%Z then Err ErrCAExpired
      else
        let ttl := if (ttl <=? 0)%Z then DefaultCertTTL else ttl in
        let notAfter := if (NotAfter (cert ca) <? at_ + ttl)%Z then NotAfter (cert ca) else (at_ + ttl)%Z in
        let leaf := MkCertificate serial (realm ++ "/"%go ++ deviceID) (at_ - clockSkewBackdate) notAfter
                      false true pub [] (SubjectKeyId (cert ca)) (PublicKey (cert ca)) in
        Ok (encodeCertPEM leaf, serial_string (SerialNumber leaf), Hex.encode (AuthorityKeyId leaf), leaf)
  end.

(** [x509.Certificate.Verify] against one root: the windows of both, the
    signature, which only a certificate with the CA constraint can have made,
    and the extended usage. *)
Inductive verify_error := Expired | Invalid.
Definition in_window (at_ : Z) (c : Certificate) : bool := (NotBefore c <=? at_)%Z && (at_ <=? NotAfter c)%Z.
Definition x509_verify (root leaf : Certificate) (at_ : Z) : result verify_error () :=
  if negb (in_window at_ leaf) then Err Expired
  else if negb (IsCA root && bool_decide (SignedBy leaf = PublicKey root)) then Err Invalid
  else if negb (in_window at_ root) then Err Expired
  else if negb (ClientAuth leaf) then Err Invalid else Ok ().

Definition Verify (ca : CA) (pem : gostring) (at_ : Z) : result verify_error Z :=
  match ParseCertificatePEM pem with
  | None => Err Invalid
  | Some c =>
      if (NotAfter c <? at_)%Z || (at_ <? NotBefore c)%Z then Err Expired
      else let? _ := x509_verify (cert ca) c at_ in Ok (NotAfter c)
  end.

(** ** The service *)

Record Config := MkConfig {
  BrokerURL : gostring;
  CertTTL : Z;
  EnforceLatestCert : bool;
  Version : gostring;
}.

Definition DefaultVersion : gostring := "0.1.0-astrate"%go.

(** The defaults of [New]. *)
Definition with_defaults (cfg : Config) : Config :=
  MkConfig (BrokerURL cfg) (if (CertTTL cfg <=? 0)%Z then DefaultCertTTL else CertTTL cfg) (EnforceLatestCert cfg)
    (if decide (Version cfg = []) then DefaultVersion else Version cfg).

Inductive pairing_error :=
| ErrInvalidHWID
| ErrInvalidPayloadFormat
| ErrAlreadyRegistered
| ErrRegistrationLimitReached
| ErrUnauthorized
| ErrInhibited
| ErrInvalidCSR
| ErrInternal
| ErrPairingStore (e : store_error).

Abbreviation reply A := (prog (result pairing_error A)).
Definition good {A} (a : A) : reply A := Ret (Ok a).
Definition refuse {A} (e : pairing_error) : reply A := Ret (Err e).
Definition from_store {A} (e : store_error) : result pairing_error A := Err (ErrPairingStore e).

(** The secret and the registration to report. *)
Definition Register (realmName hwID initialFormat : gostring) (drawn : option gostring) (salt : gostring)
    : reply (gostring * (gostring * gostring)) :=
  match DeviceID.Parse hwID with
  | Err _ => refuse ErrInvalidHWID
  | Ok id =>
      if negb (bool_decide (initialFormat = [])) && negb (bool_decide (initialFormat = "bson"%go))
         && negb (bool_decide (initialFormat = "json"%go))
      then refuse ErrInvalidPayloadFormat
      else
        let! realm := SGetRealmByName realmName catch from_store in
        let rest :=
          match drawn with
          | None => refuse ErrInternal
          | Some secret =>
              match GenerateFromPassword salt secret with
              | None => refuse ErrInternal
              | Some hash =>
                  let! _ := SRegisterDevice (RealmID realm) id hash catch
                    (fun e => match e with ErrDeviceAlreadyConfirmed => Err ErrAlreadyRegistered | _ => from_store e end) in
                  if decide (initialFormat = []) then good (secret, (realmName, hwID))
                  else let! _ := SSetPayloadFormatHint (RealmID realm) id initialFormat catch from_store in
                       good (secret, (realmName, hwID))
              end
          end in
        match DeviceRegistrationLimit realm with
        | None => rest
        | Some limit =>
            let! n := SCountDevices (RealmID realm) catch from_store in
            if (limit <=? n)%Z then refuse ErrRegistrationLimitReached else rest
        end
  end.

Definition Unregister (realmName deviceID : gostring) : reply () :=
  match DeviceID.Parse deviceID with
  | Err _ => refuse (ErrPairingStore ErrNotFound)
  | Ok id =>
      let! realm := SGetRealmByName realmName catch from_store in
      let! _ := SUnregisterDevice (RealmID realm) id catch from_store in good ()
  end.

(** An unknown realm or device and a wrong secret look the same. *)
Definition hide_missing {A} (e : store_error) : result pairing_error A :=
  match e with ErrNotFound => Err ErrUnauthorized | _ => from_store e end.

Definition authenticateDevice {A} (realmName deviceID secret : gostring) (k : Realm -> ID -> Device -> reply A) : reply A :=
  match DeviceID.Parse deviceID with
  | Err _ => refuse ErrUnauthorized
  | Ok id =>
      let! realm := SGetRealmByName realmName catch hide_missing in
      let! dev := SGetDevice (RealmID realm) id catch hide_missing in
      if decide (CredentialsSecretHash dev = []) then refuse ErrUnauthorized
      else if negb (CompareHashAndPassword (CredentialsSecretHash dev) secret) then refuse ErrUnauthorized
      else k realm id dev
  end.

Definition loadCA (realm : Realm) : option CA :=
  key ← Open (CAPrivateKeySealed realm); Load (CACertificatePEM realm) key.

(** The issued certificate, with what was signed. *)
Definition Credentials (cfg : Config) (realmName deviceID secret csrPEM ip : gostring) (at_ serial : Z)
    : reply (gostring * Certificate) :=
  authenticateDevice realmName deviceID secret (fun realm id dev =>
    if decide (Status dev = DeviceStatusInhibited) then refuse ErrInhibited
    else match loadCA realm with
    | None => refuse ErrInternal
    | Some ca =>
        match SignCSR ca csrPEM realmName (DeviceID.String id) (CertTTL cfg) at_ serial with
        | Err ErrCAInvalidCSR => refuse ErrInvalidCSR
        | Err _ => refuse ErrInternal
        | Ok (pem, ser, aki, leaf) =>
            let! _ := SSetDeviceCredentials (RealmID realm) id ser aki ip catch from_store in good (pem, leaf)
        end
    end).

Record Info := MkInfo { iVersion : gostring; iStatus : gostring; iBrokerURL : gostring; iCACertPEM : gostring }.

Definition GetInfo (cfg : Config) (realmName deviceID secret : gostring) : reply Info :=
  authenticateDevice realmName deviceID secret (fun realm _ dev =>
    let status := match Status dev with
                  | DeviceStatusInhibited => "inhibited"%go
                  | DeviceStatusConfirmed => "confirmed"%go
                  | DeviceStatusRegistered => "pending"%go
                  end in
    good (MkInfo (Version cfg) status (BrokerURL cfg) (CACertificatePEM realm))).

Inductive cause := CauseExpired | CauseInvalid | CauseRevoked.
Inductive VerifyResult := Valid (until : Z) | NotValid (c : cause).

Definition VerifyCredentials (cfg : Config) (realmName deviceID secret clientCrtPEM : gostring) (at_ : Z)
    : reply VerifyResult :=
  authenticateDevice realmName deviceID secret (fun realm _ dev =>
    if decide (Status dev = DeviceStatusInhibited) then refuse ErrInhibited
    else match loadCA realm with
    | None => refuse ErrInternal
    | Some ca =>
        match Verify ca clientCrtPEM at_ with
        | Err Expired => good (NotValid CauseExpired)
        | Err Invalid => good (NotValid CauseInvalid)
        | Ok until =>
            match (if EnforceLatestCert cfg then CertSerial dev else None) with
            | None => good (Valid until)
            | Some latest =>
                match ParseCertificatePEM clientCrtPEM with
                | None => good (NotValid CauseInvalid)
                | Some c =>
                    if decide (serial_string (SerialNumber c) = latest) then good (Valid until)
                    else good (NotValid CauseRevoked)
                end
            end
        end
    end).

(** [writeServiceError]: the status and the field and message, or the detail. *)
Inductive http_error := FieldError (status : Z) (field message : gostring) | DetailError (status : Z) (detail : gostring).
Definition writeServiceError (e : pairing_error) : http_error :=
  match e with
  | ErrInvalidHWID => FieldError 422 "hw_id"%go "is not a valid base64 encoded 128 bits id"%go
  | ErrInvalidPayloadFormat => FieldError 422 "initial_payload_format"%go "is invalid"%go
  | ErrAlreadyRegistered => FieldError 422 "error_name"%go "already_registered"%go
  | ErrRegistrationLimitReached => FieldError 422 "error_name"%go "device_registration_limit_reached"%go
  | ErrInvalidCSR => FieldError 422 "csr"%go "is invalid"%go
  | ErrUnauthorized => DetailError 401 "Unauthorized"%go
  | ErrInhibited => DetailError 403 "Forbidden"%go
  | ErrPairingStore ErrNotFound => DetailError 404 "Device not found"%go
  | _ => DetailError 500 "Internal server error"%go
  end.

(** [bearerSecret] on the [Authorization] header. *)
Definition trim_colon (scheme : gostring) : gostring :=
  match rev scheme with ":"%char :: r => rev r | _ => scheme end.
Definition bearerSecret (header : gostring) : option gostring :=
  let '(scheme, rest, found) := Strings.Cut header " " in
  if negb found then None
  else if negb (Auth.EqualFold (trim_colon scheme) "bearer"%go) then None
  else let secret := Auth.TrimSpace rest in if decide (secret = []) then None else Some secret.

(** ** Numbers and boxes *)

Definition decimal (s : gostring) : Z := foldl (fun acc c => acc * 10 + (byte_val c - 48))%Z 0%Z s.

Lemma decimal_format fuel n :
  (0 < fuel)%nat -> (0 <= n < 10 ^ Z.of_nat fuel)%Z -> decimal (Strconv.format_digits fuel n) = n.
Proof.
  revert n. induction fuel as [|f IH]; intros n Hf Hn; [lia|]. cbn [Strconv.format_digits].
  destruct (Z.ltb_spec n 10) as [Hlt|Hge].
  - unfold decimal. cbn [foldl]. rewrite byte_val_chr; lia.
  - rewrite Nat2Z.inj_succ, Z.pow_succ_r in Hn by lia.
    assert (0 < f)%nat as Hf' by (destruct f; [simpl in Hn; lia|lia]).
    unfold decimal in *. rewrite foldl_app. cbn [foldl]. rewrite IH; [|done|Base64.arith].
    rewrite byte_val_chr by Base64.arith. Base64.arith.
Qed.

Lemma serial_string_inj a b : serial_ok a -> serial_ok b -> serial_string a = serial_string b -> a = b.
Proof.
  assert (forall n, serial_ok n -> decimal (serial_string n) = n) as Hd.
  { intros n Hn. apply decimal_format; [lia|]. unfold serial_ok in Hn.
    change (2 ^ 128)%Z with 340282366920938463463374607431768211456%Z in Hn.
    change (10 ^ Z.of_nat 39)%Z with 1000000000000000000000000000000000000000%Z. lia. }
  intros Ha Hb E. by rewrite <- (Hd a), <- (Hd b), E.
Qed.

Lemma open_seal `{!CryptoLaws} nonce plaintext : length nonce = NonceSize -> Open (Seal nonce plaintext) = Some plaintext.
Proof.
  intros Hn. unfold Open, Seal. rewrite length_app, aead_overhead, Hn.
  rewrite (proj2 (Nat.ltb_ge _ _)) by (unfold NonceSize, Overhead; lia).
  rewrite take_app_length', drop_app_length' by done. apply aead_round_trip.
Qed.

(** ** Who gets in *)

(** The device a request names and authenticates as. *)
Record authentic (d : db) (realmName deviceID secret : gostring) (realm : Realm) (id : ID) (dev : Device) : Prop := {
  auth_id : DeviceID.Parse deviceID = Ok id;
  auth_realm : realms d !! realmName = Some realm;
  auth_device : devices d !! (RealmID realm, id) = Some dev;
  auth_hash : CredentialsSecretHash dev <> [];
  auth_secret : CompareHashAndPassword (CredentialsSecretHash dev) secret = true;
}.

Lemma authenticate_spec {A} d realmName deviceID secret (k : Realm -> ID -> Device -> reply A) :
  (exists realm id dev, authentic d realmName deviceID secret realm id dev /\
     run (authenticateDevice realmName deviceID secret k) d = run (k realm id dev) d) \/
  ((forall realm id dev, ~ authentic d realmName deviceID secret realm id dev) /\
   run (authenticateDevice realmName deviceID secret k) d = (Err ErrUnauthorized, d)).
Proof.
  unfold authenticateDevice. destruct (DeviceID.Parse deviceID) as [id|] eqn:Ep.
  2:{ right. split; [|done]. intros realm id dev [? _ _ _ _]. congruence. }
  cbn [run call exec]. unfold GetRealmByName, reads. destruct (realms d !! realmName) as [realm|] eqn:Er.
  2:{ right. split; [|done]. intros realm id' dev [_ ? _ _ _]. congruence. }
  cbn [or_err run call exec]. unfold GetDevice, reads. destruct (devices d !! (RealmID realm, id)) as [dev|] eqn:Ed.
  2:{ right. split; [|done]. intros realm' id' dev [? ? ? _ _]. congruence. }
  cbn [or_err]. case_decide as Eh.
  { right. split; [|done]. intros realm' id' dev' [? ? ? Hn _]. apply Hn. congruence. }
  destruct (CompareHashAndPassword (CredentialsSecretHash dev) secret) eqn:Ec; simpl.
  - left. by exists realm, id, dev.
  - right. split; [|done]. intros realm' id' dev' [? ? ? _ ?]. congruence.
Qed.

Lemma authentic_unique d realmName deviceID secret r1 i1 d1 r2 i2 d2 :
  authentic d realmName deviceID secret r1 i1 d1 -> authentic d realmName deviceID secret r2 i2 d2 ->
  r1 = r2 /\ i1 = i2 /\ d1 = d2.
Proof. intros [? ? ? _ _] [? ? ? _ _]. simplify_eq. split_and!; congruence. Qed.

(** The row after an issuance. *)
Definition stamped (d : db) (serial aki ip : gostring) (dev : Device) : Device :=
  set_cert (Some serial) (set_aki (Some aki)
    (set_first_request (Some (default (now d) (FirstCredentialsRequest dev)))
      (set_request_ip (Some ip) (set_status DeviceStatusConfirmed dev)))).

Lemma credentials_spec cfg d realmName deviceID secret csr ip at_ serial :
  (exists realm id dev ca pem ser aki leaf,
     authentic d realmName deviceID secret realm id dev /\ Status dev <> DeviceStatusInhibited /\
     loadCA realm = Some ca /\
     SignCSR ca csr realmName (DeviceID.String id) (CertTTL cfg) at_ serial = Ok (pem, ser, aki, leaf) /\
     run (Credentials cfg realmName deviceID secret csr ip at_ serial) d =
       (Ok (pem, leaf), with_devices (<[(RealmID realm, id) := stamped d ser aki ip dev]> (devices d)) d)) \/
  (exists e, run (Credentials cfg realmName deviceID secret csr ip at_ serial) d = (Err e, d) /\
     ((forall realm id dev, ~ authentic d realmName deviceID secret realm id dev) -> e = ErrUnauthorized) /\
     (forall realm id dev, authentic d realmName deviceID secret realm id dev -> e <> ErrUnauthorized /\
        (Status dev = DeviceStatusInhibited <-> e = ErrInhibited))).
Proof.
  unfold Credentials. set (k := fun (realm : Realm) (id : ID) (dev : Device) => _).
  destruct (authenticate_spec d realmName deviceID secret k) as [(realm & id & dev & Ha & ->)|[Hn ->]].
  2:{ right. exists ErrUnauthorized. split_and!; [done..|]. intros r i v Hv. by apply Hn in Hv. }
  assert (forall e, e <> ErrUnauthorized -> (Status dev = DeviceStatusInhibited <-> e = ErrInhibited) ->
    ((forall realm id dev, ~ authentic d realmName deviceID secret realm id dev) -> e = ErrUnauthorized) /\
     (forall realm id dev, authentic d realmName deviceID secret realm id dev -> e <> ErrUnauthorized /\
        (Status dev = DeviceStatusInhibited <-> e = ErrInhibited))) as Herr.
  { intros e He Hs. split; [by intros Hn; apply Hn in Ha|].
    intros r i v Hv. by destruct (authentic_unique _ _ _ _ _ _ _ _ _ _ Ha Hv) as (<- & <- & <-). }
  unfold k. clear k. case_decide as Hs.
  { right. exists ErrInhibited. split; [done|]. by apply Herr. }
  destruct (loadCA realm) as [ca|] eqn:El; [|right; exists ErrInternal; split; [done|]; by apply Herr].
  destruct (SignCSR ca csr realmName (DeviceID.String id) (CertTTL cfg) at_ serial) as [[[[pem ser] aki] leaf]|e] eqn:Es.
  - left. exists realm, id, dev, ca, pem, ser, aki, leaf. split_and!; [done..|].
    cbn [run call exec]. unfold SetDeviceCredentials, update_device. by rewrite (auth_device _ _ _ _ _ _ _ Ha).
  - right. destruct e; [exists ErrInvalidCSR|exists ErrInternal..]; (split; [done|by apply Herr]).
Qed.

(** C23. A credentials request that runs alone, on a store that does not fail:
    credentials are issued only for the device whose stored hash the secret
    matches, and only while it is not inhibited; the request then changes that
    device's row and nothing else. Every other request changes nothing, and an
    unknown realm, an unknown or malformed device, one that is not registered
    and a wrong secret all answer alike. *)
Theorem credentials_need_secret cfg d realmName deviceID secret csr ip at_ serial :
  let '(r, d') := run (Credentials cfg realmName deviceID secret csr ip at_ serial) d in
  (exists pem leaf realm id dev dev', r = Ok (pem, leaf) /\ authentic d realmName deviceID secret realm id dev /\
     Status dev <> DeviceStatusInhibited /\ d' = with_devices (<[(RealmID realm, id) := dev']> (devices d)) d) \/
  (exists e, r = Err e /\ d' = d /\
     (e = ErrUnauthorized <-> forall realm id dev, ~ authentic d realmName deviceID secret realm id dev)).
Proof.
  destruct (credentials_spec cfg d realmName deviceID secret csr ip at_ serial)
    as [(realm & id & dev & ca & pem & ser & aki & leaf & Ha & Hs & _ & _ & ->)|(e & -> & Hn & Ha)].
  - left. by exists pem, leaf, realm, id, dev, (stamped d ser aki ip dev).
  - right. exists e. split_and!; [done..|]. split; [|done]. intros He realm id dev Hv. by apply Ha in Hv as [? _].
Qed.

(** ** The life of a certificate *)

Lemma SignCSR_spec ca csr realm deviceID ttl at_ serial pem ser aki leaf :
  SignCSR ca csr realm deviceID ttl at_ serial = Ok (pem, ser, aki, leaf) ->
  pem = encodeCertPEM leaf /\ ser = serial_string serial /\ SerialNumber leaf = serial /\
  CommonName leaf = realm ++ "/"%go ++ deviceID /\ NotBefore leaf = (at_ - clockSkewBackdate)%Z /\
  (NotBefore (cert ca) <= at_ <= NotAfter leaf)%Z /\ (NotAfter leaf <= NotAfter (cert ca))%Z /\
  ClientAuth leaf = true /\ SignedBy leaf = PublicKey (cert ca).
Proof.
  unfold SignCSR. destruct (parseCSR csr) as [[pub signed]|]; [|done]. destruct (negb signed); [done|].
  destruct (_ || _) eqn:Ew; [done|]. bool_hyps. intros [= <- <- <- <-]. cbn [SerialNumber CommonName NotBefore NotAfter ClientAuth SignedBy].
  assert (0 < if (ttl <=? 0)%Z then DefaultCertTTL else ttl)%Z as Httl.
  { unfold DefaultCertTTL, minute. destruct (Z.leb_spec ttl 0); lia. }
  set (x := if (ttl <=? 0)%Z then _ else _) in *.
  destruct (Z.ltb_spec (NotAfter (cert ca)) (at_ + x)); split_and!; try done; lia.
Qed.

(** The realm's stored certificate, if it parses, is that of an authority, as
    every one that [Generate] mints. *)
Definition stored_authority (d : db) (realmName : gostring) : Prop :=
  forall r c, realms d !! realmName = Some r -> ParseCertificatePEM (CACertificatePEM r) = Some c -> IsCA c = true.

Lemma loadCA_cert r ca : loadCA r = Some ca -> ParseCertificatePEM (CACertificatePEM r) = Some (cert ca).
Proof. unfold loadCA, Load. intros Hl. by simplify_option_eq. Qed.

(** What [VerifyCredentials] answers for a certificate this authority signed. *)
Lemma verify_signed cfg d realmName deviceID secret realm id dev ca pem leaf at_ :
  authentic d realmName deviceID secret realm id dev -> Status dev <> DeviceStatusInhibited -> loadCA realm = Some ca ->
  IsCA (cert ca) = true -> ParseCertificatePEM pem = Some leaf -> ClientAuth leaf = true -> SignedBy leaf = PublicKey (cert ca) ->
  (NotBefore leaf <= at_ <= NotAfter leaf)%Z -> (NotBefore (cert ca) <= at_ <= NotAfter (cert ca))%Z ->
  run (VerifyCredentials cfg realmName deviceID secret pem at_) d =
    (Ok (match (if EnforceLatestCert cfg then CertSerial dev else None) with
         | Some latest => if decide (serial_string (SerialNumber leaf) = latest) then Valid (NotAfter leaf) else NotValid CauseRevoked
         | None => Valid (NotAfter leaf)
         end), d).
Proof.
  intros Ha Hs Hl Hisca Hp Hc Hsig Hw Hw'. unfold VerifyCredentials. set (k := fun (realm : Realm) (_ : ID) (dev : Device) => _).
  destruct (authenticate_spec d realmName deviceID secret k) as [(r & i & v & Hv & ->)|[Hn _]]; [|by apply Hn in Ha].
  destruct (authentic_unique _ _ _ _ _ _ _ _ _ _ Ha Hv) as (<- & <- & <-). unfold k.
  rewrite decide_False, Hl by done. unfold Verify. rewrite Hp.
  rewrite (proj2 (Z.ltb_ge _ _)), (proj2 (Z.ltb_ge _ _)) by lia. simpl.
  unfold x509_verify, in_window. rewrite !(proj2 (Z.leb_le _ _)) by lia. simpl.
  rewrite bool_decide_eq_true_2, Hisca, Hc by done. simpl.
  destruct (if EnforceLatestCert cfg then CertSerial dev else None) as [latest|]; [|done].
  by case_decide.
Qed.

Lemma stamped_authentic d realmName deviceID secret realm id dev ser aki ip :
  authentic d realmName deviceID secret realm id dev ->
  authentic (with_devices (<[(RealmID realm, id) := stamped d ser aki ip dev]> (devices d)) d) realmName deviceID secret
    realm id (stamped d ser aki ip dev).
Proof. intros [? ? ? ? ?]. split; [done|done| |done|done]. simpl. apply lookup_insert_eq. Qed.

(** A certificate from its issuance on: its subject is the base topic the
    broker reads the device's identity from, which it accepts for realm names
    of up to 48 bytes; from the moment it is issued until it expires the
    verification endpoint calls it valid until that time; and when the latest
    certificate is enforced, a later issuance makes it revoked. *)
Theorem issued_certificate_life `{!CryptoLaws} cfg d realmName deviceID secret csr ip at_ serial pem leaf d' :
  db_ok d -> stored_authority d realmName ->
  run (Credentials cfg realmName deviceID secret csr ip at_ serial) d = (Ok (pem, leaf), d') ->
  exists id, DeviceID.Parse deviceID = Ok id /\
    CommonName leaf = Identity.CN (Identity.MkIdentity realmName id) /\
    (Identity.ParseCN (CommonName leaf) = Ok (Identity.MkIdentity realmName id) <-> (length realmName <= 48)%nat) /\
    (at_ <= NotAfter leaf)%Z /\
    (forall t, (at_ <= t <= NotAfter leaf)%Z ->
       run (VerifyCredentials cfg realmName deviceID secret pem t) d' = (Ok (Valid (NotAfter leaf)), d')) /\
    (forall csr2 ip2 at2 serial2 r2 d2 t, EnforceLatestCert cfg = true -> serial_ok serial -> serial_ok serial2 ->
       serial2 <> serial -> run (Credentials cfg realmName deviceID secret csr2 ip2 at2 serial2) d' = (Ok r2, d2) ->
       (at_ <= t <= NotAfter leaf)%Z ->
       run (VerifyCredentials cfg realmName deviceID secret pem t) d2 = (Ok (NotValid CauseRevoked), d2)).
Proof.
  intros Hok Hauth Hrun. destruct (credentials_spec cfg d realmName deviceID secret csr ip at_ serial)
    as [(realm & id & dev & ca & pem0 & ser & aki & leaf0 & Ha & Hs & Hl & Hsign & Hr)|(e & Hr & _)];
    rewrite Hrun in Hr; [injection Hr as <- <- ->|done].
  pose proof (Hauth realm _ (auth_realm _ _ _ _ _ _ _ Ha) (loadCA_cert _ _ Hl)) as Hisca.
  apply SignCSR_spec in Hsign as (-> & -> & Hserial & Hcn & Hnb & Hat & Hna & Hca & Hsig).
  pose proof (stamped_authentic d _ _ _ _ _ _ (serial_string serial) aki ip Ha) as Ha'.
  exists id. split; [apply Ha|]. split; [done|]. split; [|split; [lia|]].
  - rewrite Identity.ParseCN_iff, Hcn. unfold Identity.wf_identity, Identity.validRealmName. simpl.
    pose proof (realm_name_valid _ _ (ok_realms _ Hok) _ _ (auth_realm _ _ _ _ _ _ _ Ha)) as Hname.
    unfold realm_name_ok in Hname. apply andb_true_iff in Hname as [Hne%negb_true_iff Hfrom]. rewrite Hne, Hfrom. unfold Identity.maxRealmNameLen. simpl.
    pose proof (DeviceID.Parse_length _ _ (auth_id _ _ _ _ _ _ _ Ha)).
    destruct (Nat.ltb_spec 48 (length realmName)); split; [by intros [[? _] _]|lia|lia|done].
  - split.
    + intros t Ht. rewrite (verify_signed cfg _ _ _ _ _ _ _ ca _ leaf t Ha'); try done; [|apply parse_encode|unfold clockSkewBackdate, minute in Hnb; lia|lia].
      destruct (EnforceLatestCert cfg); [|done]. simpl. by rewrite Hserial, decide_True.
    + intros csr2 ip2 at2 serial2 r2 d2 t Hen Hok1 Hok2 Hne Hrun2 Ht.
      destruct (credentials_spec cfg (with_devices (<[(RealmID realm, id) := stamped d (serial_string serial) aki ip dev]> (devices d)) d)
        realmName deviceID secret csr2 ip2 at2 serial2)
        as [(realm2 & id2 & dev2 & ca2 & pem2 & ser2 & aki2 & leaf2 & Ha2 & Hs2 & Hl2 & Hsign2 & Hr2)|(e & Hr2 & _)];
        rewrite Hrun2 in Hr2; [injection Hr2 as -> ->|done].
      destruct (authentic_unique _ _ _ _ _ _ _ _ _ _ Ha' Ha2) as (<- & <- & <-).
      apply SignCSR_spec in Hsign2 as (_ & -> & _).
      pose proof (stamped_authentic _ _ _ _ _ _ _ (serial_string serial2) aki2 ip2 Ha2) as Ha3.
      rewrite (verify_signed cfg _ _ _ _ _ _ _ ca _ leaf t Ha3); try done; [|apply parse_encode|unfold clockSkewBackdate, minute in Hnb; lia|lia].
      rewrite Hen. simpl. rewrite Hserial, decide_False; [done|]. intros E. apply Hne. symmetry. by apply serial_string_inj.
Qed.

(** *** Registration *)

Definition device_count (d : db) (rid : Z) : Z := Z.of_nat (length (device_ids d rid)).

Lemma device_ids_NoDup d rid : NoDup (device_ids d rid).
Proof.
  pose proof (device_ids_sorted d rid) as Hs. induction Hs as [|x l _ IH Hx]; constructor; [|done].
  intros Hin. rewrite Forall_forall in Hx. by destruct (Hx x Hin) as [_ ?].
Qed.

Lemma device_count_insert d rid id dev rid' :
  (device_count (with_devices (<[(rid, id) := dev]> (devices d)) d) rid' <= device_count d rid' + 1)%Z.
Proof.
  unfold device_count.
  assert (device_ids (with_devices (<[(rid, id) := dev]> (devices d)) d) rid' ⊆+ id :: device_ids d rid') as Hsub.
  { apply NoDup_submseteq; [apply device_ids_NoDup|]. intros x Hx. apply device_ids_elem in Hx. simpl in Hx.
    apply elem_of_cons. rewrite device_ids_elem. apply lookup_insert_is_Some in Hx as [[= -> ->]|[_ ?]]; auto. }
  apply submseteq_length in Hsub. simpl in Hsub. lia.
Qed.

Lemma device_count_update d rid id dev dev' rid' :
  devices d !! (rid, id) = Some dev ->
  device_count (with_devices (<[(rid, id) := dev']> (devices d)) d) rid' = device_count d rid'.
Proof.
  intros Hd. unfold device_count. f_equal. apply Permutation_length, NoDup_Permutation; [apply device_ids_NoDup..|].
  intros x. rewrite !device_ids_elem. simpl. rewrite lookup_insert_is_Some.
  destruct (decide ((rid, id) = (rid', x))) as [[= -> ->]|?]; [|naive_solver]. rewrite Hd. split; [by eexists|by left].
Qed.

Lemma RegisterDevice_count rid id hash d rid' :
  (device_count (RegisterDevice rid id hash d).2 rid' <= device_count d rid' + 1)%Z /\
  realms (RegisterDevice rid id hash d).2 = realms d.
Proof.
  unfold RegisterDevice. destruct (devices d !! (rid, id)) as [dev|] eqn:Ed.
  - destruct (FirstCredentialsRequest dev); simpl; [split; [lia|done]|]. split; [|done].
    rewrite (device_count_update _ _ _ dev) by done. lia.
  - destruct (realm_exists d rid); simpl; [|split; [lia|done]]. split; [apply device_count_insert|done].
Qed.

Lemma SetPayloadFormatHint_count rid id hint d rid' :
  device_count (SetPayloadFormatHint rid id hint d).2 rid' = device_count d rid'.
Proof.
  unfold SetPayloadFormatHint, update_device. case_decide; [done|]. destruct (devices d !! (rid, id)) as [dev|] eqn:E; [|done].
  simpl. by eapply device_count_update.
Qed.

Lemma Register_count d realmName realm hwID format drawn salt :
  realms d !! realmName = Some realm ->
  let d' := (run (Register realmName hwID format drawn salt) d).2 in
  (device_count d' (RealmID realm) <= device_count d (RealmID realm) \/
   (match DeviceRegistrationLimit realm with Some l => device_count d (RealmID realm) < l | None => True end /\
    device_count d' (RealmID realm) <= device_count d (RealmID realm) + 1))%Z.
Proof.
  intros Hr. unfold Register. destruct (DeviceID.Parse hwID) as [id|]; [|by left]. destruct (_ && _); [by left|].
  cbn [run call exec]. unfold GetRealmByName, reads. rewrite Hr. cbn [or_err].
  set (rest := match drawn with Some _ => _ | None => _ end).
  assert (device_count (run rest d).2 (RealmID realm) <= device_count d (RealmID realm) + 1)%Z as Hrest.
  { unfold rest. destruct drawn as [secret|]; [|simpl; lia]. destruct (GenerateFromPassword salt secret) as [hash|]; [|simpl; lia].
    cbn [run call exec]. pose proof (RegisterDevice_count (RealmID realm) id hash d (RealmID realm)) as [Hc _].
    destruct (RegisterDevice (RealmID realm) id hash d) as [r d1]. simpl in Hc.
    destruct r as [[]|e]; [|by destruct e]. case_decide; [done|]. cbn [run call exec].
    pose proof (SetPayloadFormatHint_count (RealmID realm) id format d1 (RealmID realm)) as Hh.
    destruct (SetPayloadFormatHint (RealmID realm) id format d1) as [r2 d2]. simpl in Hh. destruct r2; simpl; lia. }
  destruct (DeviceRegistrationLimit realm) as [limit|]; [|by right]. cbn [run call exec CountDevices reads].
  fold (device_count d (RealmID realm)). destruct (Z.leb_spec limit (device_count d (RealmID realm))); [by left|by right].
Qed.

Lemma Register_realms realmName hwID format drawn salt d :
  realms (run (Register realmName hwID format drawn salt) d).2 = realms d.
Proof.
  unfold Register. destruct (DeviceID.Parse hwID) as [id|]; [|done]. destruct (_ && _); [done|].
  cbn [run call exec]. unfold GetRealmByName, reads. destruct (realms d !! realmName) as [realm|]; [|done]. cbn [or_err].
  set (rest := match drawn with Some _ => _ | None => _ end).
  assert (realms (run rest d).2 = realms d) as Hrest.
  { unfold rest. destruct drawn as [secret|]; [|done]. destruct (GenerateFromPassword salt secret) as [hash|]; [|done].
    cbn [run call exec]. pose proof (RegisterDevice_count (RealmID realm) id hash d (RealmID realm)) as [_ Hc].
    destruct (RegisterDevice (RealmID realm) id hash d) as [r d1]. simpl in Hc. rewrite <- Hc.
    destruct r as [[]|e]; [|by destruct e]. case_decide; [done|]. cbn [run call exec].
    unfold SetPayloadFormatHint, update_device. case_decide; [done|]. by destruct (devices d1 !! _). }
  destruct (DeviceRegistrationLimit realm) as [limit|]; [|done]. cbn [run call exec CountDevices reads]. by case_match.
Qed.

(** A registration request: hw_id, format, drawn secret and salt. *)
Definition registration : Type := gostring * gostring * option gostring * gostring.
Definition register_one (realmName : gostring) (d : db) (rq : registration) : db :=
  let '(hwID, format, drawn, salt) := rq in (run (Register realmName hwID format drawn salt) d).2.

(** C39. Registrations served one at a time never take a realm over its device
    registration limit. *)
Theorem registration_limit_kept d realmName realm limit rqs :
  realms d !! realmName = Some realm -> DeviceRegistrationLimit realm = Some limit ->
  (device_count d (RealmID realm) <= limit)%Z ->
  (device_count (foldl (register_one realmName) d rqs) (RealmID realm) <= limit)%Z.
Proof.
  intros Hr Hl. revert d Hr. induction rqs as [|[[[hwID format] drawn] salt] rqs IH]; intros d Hr Hc; [done|].
  cbn [foldl register_one]. apply IH; [by rewrite Register_realms|].
  destruct (Register_count d realmName realm hwID format drawn salt Hr) as [?|[Hlt ?]]; [lia|]. rewrite Hl in Hlt. lia.
Qed.

(** The secret a registration answers with authenticates the device at once,
    and until it requests credentials the device is reported as pending. *)
Theorem registered_secret_works `{!CryptoLaws} cfg d realmName hwID format drawn salt secret ev d' :
  run (Register realmName hwID format drawn salt) d = (Ok (secret, ev), d') ->
  exists realm, realms d !! realmName = Some realm /\
    run (GetInfo cfg realmName hwID secret) d' =
      (Ok (MkInfo (Version cfg) "pending"%go (BrokerURL cfg) (CACertificatePEM realm)), d').
Proof.
  intros Hrun. pose proof (Register_realms realmName hwID format drawn salt d) as Hrealms. rewrite Hrun in Hrealms. simpl in Hrealms.
  revert Hrun. unfold Register. destruct (DeviceID.Parse hwID) as [id|] eqn:Ep; [|done]. destruct (_ && _); [done|].
  cbn [run call exec]. unfold GetRealmByName, reads. destruct (realms d !! realmName) as [realm|] eqn:Er; [|done]. cbn [or_err].
  set (rest := match drawn with Some _ => _ | None => _ end). intros Hrun.
  assert (run rest d = (Ok (secret, ev), d')) as Hrest.
  { destruct (DeviceRegistrationLimit realm) as [limit|]; [|done]. cbn [run call exec CountDevices reads] in Hrun. by case_match. }
  clear Hrun. revert Hrest. unfold rest. clear rest. destruct drawn as [s|]; [|done].
  destruct (GenerateFromPassword salt s) as [hash|] eqn:Eh; [|done]. cbn [run call exec].
  destruct (RegisterDevice (RealmID realm) id hash d) as [r d1] eqn:E1.
  destruct r as [[]|e]; [|by destruct e].
  assert (exists dev, devices d1 !! (RealmID realm, id) = Some dev /\ CredentialsSecretHash dev = hash /\
            Status dev = DeviceStatusRegistered) as (dev & Hd1 & Hhash & Hst).
  { unfold RegisterDevice in E1. repeat case_match; simplify_eq; simpl; eexists; (split; [apply lookup_insert_eq|done]). }
  intros Hend. assert (s = secret /\ exists dev', devices d' !! (RealmID realm, id) = Some dev' /\
      CredentialsSecretHash dev' = hash /\ Status dev' = DeviceStatusRegistered) as (-> & dev' & Hd' & Hhash' & Hst').
  { case_decide; [simpl in Hend; simplify_eq; eauto|]. cbn [run call exec] in Hend. unfold SetPayloadFormatHint, update_device in Hend.
    case_decide; [done|]. rewrite Hd1 in Hend. simpl in Hend. simplify_eq. split; [done|].
    exists (set_hint format dev). simpl. by rewrite lookup_insert_eq. }
  exists realm. split; [done|]. unfold GetInfo. set (k := fun (realm : Realm) (_ : ID) (dev : Device) => _).
  destruct (authenticate_spec d' realmName hwID secret k) as [(r & i & v & [A1 A2 A3 A4 A5] & ->)|[Hn _]].
  - unfold k. rewrite Hrealms, Er in A2. injection A2 as <-. assert (i = id) as -> by congruence.
    assert (v = dev') as -> by congruence. by rewrite Hst'.
  - exfalso. apply (Hn realm id dev'). split; [done|by rewrite Hrealms|done|..]; rewrite Hhash'.
    + by eapply hash_nonempty.
    + by eapply compare_hash.
Qed.

End Pairing.

(** ** A sample environment *)

Abbreviation reply A := (prog (result pairing_error A)).

Definition cert_tuple (c : Certificate) :=
  (SerialNumber c, CommonName c, NotBefore c, NotAfter c, IsCA c, ClientAuth c, PublicKey c, SubjectKeyId c, AuthorityKeyId c, SignedBy c).
Definition tuple_cert (x : Z * gostring * Z * Z * bool * bool * gostring * gostring * gostring * gostring) : Certificate :=
  let '(a, b, c, d, e, f, g, h, i, j) := x in MkCertificate a b c d e f g h i j.

Fixpoint bits (p : positive) : gostring :=
  match p with xH => [] | xO p => "0"%char :: bits p | xI p => "1"%char :: bits p end.
Fixpoint unbits (s : gostring) : option positive :=
  match s with
  | [] => Some xH
  | "0"%char :: s => xO <$> unbits s
  | "1"%char :: s => xI <$> unbits s
  | _ => None
  end.

Lemma unbits_bits p : unbits (bits p) = Some p.
Proof. induction p as [p IH|p IH|]; simpl; [by rewrite IH..|done]. Qed.

#[local] Instance sample_crypto : Crypto := {|
  ParseCertificatePEM s := p ← unbits s; tuple_cert <$> decode p;
  encodeCertPEM c := bits (encode (cert_tuple c));
  parseCSR s := Some (s, true);
  ParsePKCS8 key := Some key;
  GenerateFromPassword _ s := Some ("#"%char :: s);
  CompareHashAndPassword h s := bool_decide (h = "#"%char :: s);
  aead_seal _ p := p ++ replicate 16 "x"%char;
  aead_open _ c := Some (take (length c - 16) c);
|}.

#[local] Instance sample_laws : CryptoLaws.
Proof.
  split; simpl.
  - intros c. rewrite unbits_bits. simpl. rewrite decode_encode. by destruct c.
  - intros salt s h [= <-]. by apply bool_decide_eq_true.
  - by intros salt s h [= <-].
  - intros _ p. rewrite length_app. cbn [length]. by rewrite Nat.add_sub, take_app_length.
  - intros _ p. by rewrite length_app.
Qed.

Definition pairing_ca : CA := Generate "test"%go 0 0 "key"%go "key"%go "ski"%go 1.
Definition pairing_realm (limit : option Z) : NewRealm :=
  MkNewRealm "test"%go ["pem"%go] (certPEM pairing_ca) (Seal (replicate 12 "n"%char) (keyDER pairing_ca)) limit None.
Definition hw (c : ascii) : gostring := DeviceID.String (sample_id c).
Definition pairing_setup (limit : option Z) : prog () := all_calls [existT _ (SCreateRealm (pairing_realm limit))].
Definition pairing_db (limit : option Z) : db := (run (pairing_setup limit) empty_db).2.
Definition registered_db : db := (run (Register "test"%go (hw "a") []%go (Some "s3cret"%go) []) (pairing_db None)).2.
Definition pairing_cfg : Config := with_defaults (MkConfig "mqtts://broker:8883"%go 0 true []).
Definition issue (serial : Z) : reply (gostring * Certificate) :=
  Credentials pairing_cfg "test"%go (hw "a") "s3cret"%go "csr"%go "::1"%go 1000 serial.

Lemma registered_db_ok : db_ok registered_db.
Proof.
  apply (reachable_db_ok _ _ (run_reachable _ _)).
  apply (reachable_db_ok _ _ (run_reachable (pairing_setup None) empty_db)), empty_db_ok.
Qed.

Lemma registered_db_authority : stored_authority registered_db "test"%go.
Proof.
  assert ((r ← realms registered_db !! "test"%go; IsCA <$> ParseCertificatePEM (CACertificatePEM r)) = Some true) as E
    by (vm_compute; reflexivity).
  apply bind_Some in E as (r & Hr & (c & Hc & Hisca)%fmap_Some). intros r' c' Hr' Hc'. congruence.
Qed.

Lemma registered_secret_works_witness :
  exists realm, realms (pairing_db None) !! "test"%go = Some realm /\
    run (GetInfo pairing_cfg "test"%go (hw "a") "s3cret"%go) registered_db =
      (Ok (MkInfo DefaultVersion "pending"%go "mqtts://broker:8883"%go (CACertificatePEM realm)), registered_db).
Proof.
  refine (registered_secret_works pairing_cfg (pairing_db None) "test"%go (hw "a") [] (Some "s3cret"%go) [] "s3cret"%go
    ("test"%go, hw "a") registered_db _).
  unfold registered_db. rewrite (surjective_pairing (run _ _)). apply f_equal2; [vm_compute; reflexivity|reflexivity].
Defined.

Lemma registration_limit_kept_witness :
  exists realm, RealmID realm = 1%Z /\ (device_count (foldl (register_one "test"%go) (pairing_db (Some 1%Z))
     [(hw "a", [], Some "s"%go, []); (hw "b", [], Some "t"%go, [])]) (RealmID realm) <= 1)%Z.
Proof.
  assert (((fun r => (RealmID r, DeviceRegistrationLimit r)) <$> realms (pairing_db (Some 1%Z)) !! "test"%go)
    = Some (1%Z, Some 1%Z)) as Hr by (vm_compute; reflexivity).
  apply fmap_Some in Hr as (realm & Hr & E). injection E as Hid Hl. exists realm. split; [by rewrite <- Hid|].
  refine (registration_limit_kept (pairing_db (Some 1%Z)) "test"%go realm 1 _ Hr (eq_sym Hl) _).
  rewrite <- Hid. vm_compute. discriminate.
Defined.

Lemma issued_certificate_life_witness :
  exists id, DeviceID.Parse (hw "a") = Ok id /\
    exists pem leaf, (run (issue 7) registered_db).1 = Ok (pem, leaf) /\
      CommonName leaf = Identity.CN (Identity.MkIdentity "test"%go id).
Proof.
  destruct (run (issue 7) registered_db) as [r d'] eqn:E.
  assert (is_ok (run (issue 7) registered_db).1 = true) as Hr by (vm_compute; reflexivity).
  rewrite E in Hr. destruct r as [[pem leaf]|e]; [|discriminate Hr].
  destruct (issued_certificate_life pairing_cfg registered_db "test"%go (hw "a") "s3cret"%go "csr"%go "::1"%go 1000 7 pem leaf d'
    registered_db_ok registered_db_authority E) as (id & H1 & H2 & _).
  exists id. split; [exact H1|]. exists pem, leaf. split; [reflexivity|exact H2].
Defined.

(** Two registrations that count before either inserts both pass, and the realm
    ends over its limit. *)
Theorem registration_limit_race :
  let w0 := MkWorld (pairing_db (Some 1%Z)) [Register "test"%go (hw "a") [] (Some "s"%go) [];
                                            Register "test"%go (hw "b") [] (Some "t"%go) []] in
  exists w, reachable w0 w /\ device_count (wdb w) 1 = 2%Z /\
    (DeviceRegistrationLimit <$> realms (wdb w) !! "test"%go) = Some (Some 1%Z).
Proof.
  intros w0. exists (schedule [0; 0; 1; 1; 0; 1] w0). split; [apply schedule_reachable|]. split; vm_compute; reflexivity.
Qed.

(** A request that is done and succeeded. *)
Definition answered {A} (p : reply A) : bool := match p with Ret (Ok _) => true | _ => false end.

(** A device inhibited between the check and the stamp of a credentials request
    ends confirmed: the certificate is issued and the inhibition is lost. *)
Theorem inhibition_lost :
  let inhibit : reply (gostring * Certificate) :=
    Call (SSetDeviceInhibited 1 (sample_id "a") true) (fun _ => refuse ErrInternal) in
  exists w, reachable (MkWorld registered_db [issue 7; inhibit]) w /\
    (Status <$> devices (wdb w) !! (1%Z, sample_id "a")) = Some DeviceStatusConfirmed /\
    (answered <$> threads w !! 0) = Some true /\ is_ok (run (issue 8) (wdb w)).1 = true.
Proof.
  intros inhibit. exists (schedule [0; 0; 1; 0] (MkWorld registered_db [issue 7; inhibit])).
  split; [apply schedule_reachable|]. split_and!; vm_compute; reflexivity.
Qed.

(** Registering an inhibited device that has not requested credentials, or
    unregistering an inhibited one, lifts the inhibition. *)
Theorem registration_lifts_inhibition :
  let inhibited := (exec (SSetDeviceInhibited 1 (sample_id "a") true) registered_db).2 in
  (Status <$> devices inhibited !! (1%Z, sample_id "a")) = Some DeviceStatusInhibited /\
  (Status <$> devices (run (Register "test"%go (hw "a") [] (Some "n3w"%go) []) inhibited).2 !! (1%Z, sample_id "a"))
    = Some DeviceStatusRegistered /\
  (Status <$> devices (run (Unregister "test"%go (hw "a")) inhibited).2 !! (1%Z, sample_id "a")) = Some DeviceStatusRegistered.
Proof. split_and!; vm_compute; reflexivity. Qed.

End Pairing.
