(* ===== verification/RealmMgmt.v ===== *)
(** * Realm management

    [internal/realm/service.go] and [detailed.go], and the answers of
    [internal/realm/http.go]. A handler is a program over the metadata store
    that answers together with what it told the rest of the process, in order:
    the notification, the engine's refreshes, the disconnection and the
    deletion events. A failed notification or refresh is logged only, so
    whether it succeeds changes nothing here. *)

From stdpp Require Import sorting.
From S2P Require Import Prelude GoStrings Regex DeviceID SchemaTypes Endpoints InterfaceParse Compile Compat Broker Topics.
From S2P Require Import ByteOrder Policy Triggers TriggerDefs MetaStore MetaWorld.

Module RealmMgmt.
Import Schema Endpoint Parse ByteOrder MetaStore MetaWorld.

(** ** Answers *)

Inductive effect :=
| NotifyInterfacesChanged (rid : Z)
| RefreshInterfaces (rid : Z)
| RefreshTriggers (rid : Z)
| DisconnectDevice (realm : gostring) (id : ID)
| OnDeletionStart (realm device : gostring)
| StoreDelete
| OnDeletionFinish (realm device : gostring).

(** The reasons wrapped in [ErrValidation]. *)
Inductive invalid_reason :=
| InvalidDocument (e : build_error)
| InvalidUpgrade (e : Compat.upgrade_error)
| TriggerDoesNotParse
| TriggerNeedsName
| InvalidTrigger (e : TriggerDefs.compile_error)
| PolicyMissing (policy : gostring)
| InvalidPolicy (e : Policy.policy_error)
| PolicyInUse (trigger : gostring)
| BlankKey.

Inductive realm_error :=
| ErrValidation (r : invalid_reason)
| ErrTriggerFields (te : TriggerDefs.TriggerErrors)
| ErrMaximumDatabaseRetentionExceeded
| ErrNameMismatch
| ErrMajorMismatch
| ErrNameCollision
| errMajorNotFound
| ErrStoredDoesNotParse (e : build_error)
| ErrStore (e : store_error).

Definition answer (A : Type) : Type := result realm_error A * list effect.
Abbreviation reply A := (prog (answer A)).
Definition good {A} (a : A) : reply A := Ret (Ok a, []).
Definition refuse {A} (e : realm_error) : reply A := Ret (Err e, []).
Definition from_store {A} (e : store_error) : answer A := (Err (ErrStore e), []).

(** The seams that are wired. *)
Record Service := MkService { inv : bool; disc : bool; onStart : bool; onFinish : bool }.

Definition told (present : bool) (e : effect) : list effect := if present then [e] else [].

Section Service.
Context `{Collation} `{TriggerDefs.Text}.

Definition interfacesChanged (s : Service) (rid : Z) : list effect :=
  NotifyInterfacesChanged rid :: told (inv s) (RefreshInterfaces rid).
Definition triggersChanged (s : Service) (rid : Z) : list effect :=
  NotifyInterfacesChanged rid :: told (inv s) (RefreshTriggers rid).

(** ** Devices *)

(** The deletion is closed whatever the store answers. *)
Definition DeleteDevice (s : Service) (realm deviceID : gostring) : reply () :=
  let! r := SGetRealmByName realm catch from_store in
  match DeviceID.Parse deviceID with
  | Err _ => refuse (ErrStore ErrNotFound)
  | Ok id =>
      let before := told (disc s) (DisconnectDevice realm id) ++ told (onStart s) (OnDeletionStart realm deviceID) in
      Call (SDeleteDevice (RealmID r) id) (fun res =>
        Ret (match res with Ok _ => Ok () | Err e => Err (ErrStore e) end,
             before ++ [StoreDelete] ++ told (onFinish s) (OnDeletionFinish realm deviceID)))
  end.

(** ** Interfaces *)

(** Names are ASCII: a byte is a rune. *)
Definition normalise_rune (c : ascii) : option ascii :=
  if bool_decide (c = "-"%char) then None
  else Some (if between "A" "Z" c then chr (byte_val c + 32) else c).
Definition normaliseIfaceName (name : gostring) : gostring := omap normalise_rune name.

Definition collides (name : gostring) (si : StoredInterface) : bool :=
  negb (bool_decide (siName si = name)) && bool_decide (normaliseIfaceName (siName si) = normaliseIfaceName name).

Definition checkNameCollision {A} (rid : Z) (name : gostring) (k : reply A) : reply A :=
  let! ifaces := SLoadRealmInterfaces rid catch from_store in
  if existsb (collides name) ifaces then refuse ErrNameCollision else k.

Definition exceeds (ceiling : Z) (m : Mapping) : bool :=
  match DatabaseRetentionPolicy_ m with UseTTL => (ceiling <? DatabaseRetentionTTL m)%Z | NoTTL => false end.
Definition checkRetentionCeiling (r : Realm) (iface : Interface) : bool :=
  match DatastreamMaximumStorageRetention r with
  | None => true
  | Some ceiling => negb (existsb (exceeds ceiling) (Mappings iface))
  end.

(** The document to store: the canonical one when aliases were used. *)
Definition canonical (def : interfaceJSON) (canon : option interfaceJSON) : interfaceJSON :=
  match canon with Some c => reread c | None => def end.

Definition InstallInterface (s : Service) (realm : gostring) (def : interfaceJSON) : reply StoredInterface :=
  let! r := SGetRealmByName realm catch from_store in
  match ParseInterfaceCanonical def with
  | Err e => refuse (ErrValidation (InvalidDocument e))
  | Ok (iface, canon) =>
      checkNameCollision (RealmID r) (Name iface)
        (if negb (checkRetentionCeiling r iface) then refuse ErrMaximumDatabaseRetentionExceeded
         else let! si := SInstallInterface (RealmID r) (canonical def canon) catch from_store in
              Ret (Ok si, interfacesChanged s (RealmID r)))
  end.

Definition UpdateInterface (s : Service) (realm urlName : gostring) (urlMajor : Z) (def : interfaceJSON)
    : reply StoredInterface :=
  let! r := SGetRealmByName realm catch from_store in
  match ParseInterfaceCanonical def with
  | Err e => refuse (ErrValidation (InvalidDocument e))
  | Ok (next, canon) =>
      if negb (bool_decide (Name next = urlName)) then refuse ErrNameMismatch
      else if negb (Major next =? urlMajor)%Z then refuse ErrMajorMismatch
      else if negb (checkRetentionCeiling r next) then refuse ErrMaximumDatabaseRetentionExceeded
      else
        let! stored := SGetInterface (RealmID r) (Name next) (Major next) catch
          (fun e => match e with ErrNotFound => (Err errMajorNotFound, []) | _ => from_store e end) in
        match buildInterface (siDefinition stored) with
        | Err e => refuse (ErrStoredDoesNotParse e)
        | Ok (prev, _) =>
            match Compat.CheckMinorUpgrade (Some prev) (Some next) with
            | Err e => refuse (ErrValidation (InvalidUpgrade e))
            | Ok _ =>
                let! si := SUpdateInterface (RealmID r) (canonical def canon) catch from_store in
                Ret (Ok si, interfacesChanged s (RealmID r))
            end
        end
  end.

Definition DeleteInterface (s : Service) (realm name : gostring) (major : Z) : reply () :=
  let! r := SGetRealmByName realm catch from_store in
  let! _ := SDeleteInterface (RealmID r) name major catch
    (fun e => match e with ErrNotFound => (Err errMajorNotFound, []) | _ => from_store e end) in
  Ret (Ok (), interfacesChanged s (RealmID r)).

(** The names in order of first appearance, then sorted. *)
Definition ListInterfaces (realm : gostring) : reply (list gostring) :=
  let! r := SGetRealmByName realm catch from_store in
  let! ifaces := SLoadRealmInterfaces (RealmID r) catch from_store in
  good (sort_bytes (remove_dups (siName <$> ifaces))).

Definition ListInterfaceMajors (realm name : gostring) : reply (list Z) :=
  let! r := SGetRealmByName realm catch from_store in
  let! ifaces := SLoadRealmInterfaces (RealmID r) catch from_store in
  match omap (fun si => if decide (siName si = name) then Some (siMajor si) else None) ifaces with
  | [] => refuse (ErrStore ErrNotFound)
  | majors => good (merge_sort Z.le majors)
  end.

Definition GetInterface (realm name : gostring) (major : Z) : reply interfaceJSON :=
  let! r := SGetRealmByName realm catch from_store in
  let! si := SGetInterface (RealmID r) name major catch from_store in good (siDefinition si).

(** *** The detailed listing *)

(** [detailed.go]: the document of one interface with its defaults spelled
    out; an empty text is left out. *)
Definition writeDetailedMapping (t : InterfaceType) (m : Mapping) : mappingJSON :=
  match t with
  | Properties =>
      MkMappingJSON (Some (Endpoint m)) None (Some (Type_ m)) None None None None None (Some (AllowUnset m)) None None None [] []
  | Datastream =>
      MkMappingJSON (Some (Endpoint m)) None (Some (Type_ m)) (Some (Reliability_ m)) (Some (Retention_ m))
        (Some (Expiry m)) (Some (DatabaseRetentionPolicy_ m))
        (match DatabaseRetentionPolicy_ m with UseTTL => Some (DatabaseRetentionTTL m) | NoTTL => None end)
        None (Some (ExplicitTimestamp m)) None None [] []
  end.
Definition detailed (iface : Interface) : interfaceJSON :=
  MkInterfaceJSON (Some (Name iface)) (Some (Major iface)) (Some (Minor iface)) (Some (IType iface))
    (Some (IOwnership iface)) None None (Some (IAggregation iface)) (IDescription iface) (IDoc iface)
    (map (writeDetailedMapping (IType iface)) (Mappings iface)) false.
Definition renderDetailedInterface (def : interfaceJSON) : result build_error interfaceJSON :=
  let? (iface, _) := buildInterface def in Ok (detailed iface).

Definition iface_le (a b : StoredInterface) : Prop :=
  if decide (siName a = siName b) then (siMajor a <= siMajor b)%Z else bytes_le (siName a) (siName b).
#[local] Instance iface_le_dec : RelDecision iface_le.
Proof. intros a b. unfold iface_le. case_decide; apply _. Defined.

Fixpoint render_all (l : list StoredInterface) : result build_error (list interfaceJSON) :=
  match l with
  | [] => Ok []
  | si :: l => let? doc := renderDetailedInterface (siDefinition si) in let? docs := render_all l in Ok (doc :: docs)
  end.

Definition ListInterfacesDetailed (realm : gostring) : reply (list interfaceJSON) :=
  let! r := SGetRealmByName realm catch from_store in
  let! ifaces := SLoadRealmInterfaces (RealmID r) catch from_store in
  match render_all (merge_sort iface_le ifaces) with
  | Ok docs => good docs
  | Err e => refuse (ErrStoredDoesNotParse e)
  end.

(** ** Triggers *)

Definition CreateTrigger (s : Service) (realm : gostring) (def : TriggerDefs.triggerJSON) : reply TriggerRow :=
  let! r := SGetRealmByName realm catch from_store in
  match TriggerDefs.tjName def with
  | None => refuse (ErrValidation TriggerDoesNotParse)
  | Some [] => refuse (ErrValidation TriggerNeedsName)
  | Some name =>
      match TriggerDefs.Compile name def with
      | Err (TriggerDefs.Invalid te) => refuse (ErrTriggerFields te)
      | Err e => refuse (ErrValidation (InvalidTrigger e))
      | Ok ct =>
          let install :=
            let! tr := SCreateTrigger (RealmID r) name def catch from_store in
            Ret (Ok tr, triggersChanged s (RealmID r)) in
          match Triggers.PolicyName ct with
          | [] => install
          | policy =>
              let! _ := SGetTriggerPolicy (RealmID r) policy catch
                (fun e => match e with ErrNotFound => (Err (ErrValidation (PolicyMissing policy)), []) | _ => from_store e end) in
              install
          end
      end
  end.

Definition GetTrigger (realm name : gostring) : reply TriggerDefs.triggerJSON :=
  let! r := SGetRealmByName realm catch from_store in
  let! tr := SGetTrigger (RealmID r) name catch from_store in good (trDefinition tr).

Definition DeleteTrigger (s : Service) (realm name : gostring) : reply () :=
  let! r := SGetRealmByName realm catch from_store in
  let! _ := SDeleteTrigger (RealmID r) name catch from_store in
  Ret (Ok (), triggersChanged s (RealmID r)).

Definition ListTriggers (realm : gostring) : reply (list gostring) :=
  let! r := SGetRealmByName realm catch from_store in
  let! trs := SListTriggers (RealmID r) catch from_store in good (sort_bytes (trName <$> trs)).

(** ** Delivery policies *)

Definition CreatePolicy (realm : gostring) (def : Policy.policyJSON) : reply TriggerPolicy :=
  let! r := SGetRealmByName realm catch from_store in
  match Policy.CompilePolicy def with
  | Err e => refuse (ErrValidation (InvalidPolicy e))
  | Ok p => let! tp := SCreateTriggerPolicy (RealmID r) (Policy.Name p) def catch from_store in good tp
  end.

Definition GetPolicy (realm name : gostring) : reply Policy.policyJSON :=
  let! r := SGetRealmByName realm catch from_store in
  let! p := SGetTriggerPolicy (RealmID r) name catch from_store in good (tpDefinition p).

Definition ListPolicies (realm : gostring) : reply (list gostring) :=
  let! r := SGetRealmByName realm catch from_store in
  let! ps := SListTriggerPolicies (RealmID r) catch from_store in good (tpName <$> ps).

(** A stored definition whose policy does not decode is passed over. *)
Definition references (policy : gostring) (tr : TriggerRow) : bool :=
  match TriggerDefs.tjPolicy (trDefinition tr) with Some p => bool_decide (p = policy) | None => false end.

Definition DeletePolicy (realm name : gostring) : reply () :=
  let! r := SGetRealmByName realm catch from_store in
  let! trs := SListTriggers (RealmID r) catch from_store in
  match List.find (references name) trs with
  | Some tr => refuse (ErrValidation (PolicyInUse (trName tr)))
  | None => let! _ := SDeleteTriggerPolicy (RealmID r) name catch from_store in good ()
  end.

(** ** Configuration *)

Definition GetDeviceRegistrationLimit (realm : gostring) : reply (option Z) :=
  let! r := SGetRealmByName realm catch from_store in good (DeviceRegistrationLimit r).

Definition GetDatastreamMaximumStorageRetention (realm : gostring) : reply Z :=
  let! r := SGetRealmByName realm catch from_store in good (default 0%Z (DatastreamMaximumStorageRetention r)).

Definition joinPEM (keys : list gostring) : gostring :=
  match keys with
  | [] => []
  | k :: rest => foldl (fun out k => out ++ [chr 10] ++ k) k rest
  end.

Definition GetAuthKey (realm : gostring) : reply gostring :=
  let! r := SGetRealmByName realm catch from_store in good (joinPEM (JWTPublicKeysPEM r)).

Definition SetAuthKey (realm keyPEM : gostring) : reply () :=
  if decide (keyPEM = []) then refuse (ErrValidation BlankKey)
  else let! _ := SSetRealmJWTPublicKeys realm [keyPEM] catch from_store in good ().

(** ** HTTP answers *)

(** Violations in order of their fields' first appearance. *)
Definition fields : Type := list (gostring * list gostring).
Fixpoint merge_field (field : gostring) (msgs : list gostring) (fs : fields) : fields :=
  match fs with
  | [] => [(field, msgs)]
  | (f, m) :: fs => if decide (f = field) then (f, m ++ msgs) :: fs else (f, m) :: merge_field field msgs fs
  end.
Definition collect (vs : list Violation) : fields :=
  foldl (fun fs v => merge_field (Field v) (Messages v) fs) [] vs.

(** [renderViolationsBody]: the fields of the interface, and an entry per
    mapping when some mapping is at fault. *)
Definition renderViolationsBody (ve : ViolationsError) : fields * option (list fields) :=
  let tops := collect (filter (fun v => (MappingIndex v < 0)%Z) (Violations ve)) in
  let of_mapping i := filter (fun v => MappingIndex v = i) (Violations ve) in
  let entries := (fun i => collect (of_mapping i)) <$> seqZ 0 (MappingCount ve) in
  (tops, if existsb (fun v => (0 <=? MappingIndex v)%Z && (MappingIndex v <? MappingCount ve)%Z) (Violations ve)
         then Some entries else None).

Inductive response :=
| Data (status : Z)
| NoContent
| Detail (status : Z) (detail : gostring)
| FieldErrors (status : Z) (field message : gostring)
| ViolationsBody (body : fields * option (list fields))
| TriggerBody (te : TriggerDefs.TriggerErrors)
| Unprocessable (r : invalid_reason).

Definition BadRequest : response := Detail 400 "Bad request"%go.
Definition NotFoundBody : response := Detail 404 "Not Found"%go.
Definition InternalServerError : response := Detail 500 "Internal server error"%go.
Definition retention_exceeded : response := FieldErrors 422 "error_name"%go "maximum_database_retention_exceeded"%go.

(** The errors that carry violations: [errors.As]. *)
Definition violations_in (e : realm_error) : option ViolationsError :=
  match e with
  | ErrValidation (InvalidDocument (Violated ve)) => Some ve
  | ErrStoredDoesNotParse (Violated ve) => Some ve
  | ErrStore (ErrParse (Violated ve)) => Some ve
  | _ => None
  end.

Definition writeInterfaceError (e : realm_error) : response :=
  match violations_in e with
  | Some ve => ViolationsBody (renderViolationsBody ve)
  | None =>
      match e with
      | ErrMaximumDatabaseRetentionExceeded => retention_exceeded
      | errMajorNotFound => Detail 404 "Interface major not found"%go
      | ErrNameCollision =>
          Detail 409 "Interface name collision detected. Make sure that the difference between two interface names is not limited to the casing or the presence of hyphens."%go
      | ErrNameMismatch => Detail 409 "Interface name doesn't match the one in the interface json"%go
      | ErrMajorMismatch => Detail 409 "Interface major version doesn't match the one in the interface json"%go
      | ErrValidation (InvalidUpgrade Compat.MinorNotIncreased) => Detail 409 "Interface minor version was not increased"%go
      | ErrValidation (InvalidUpgrade Compat.DowngradeNotAllowed) => Detail 409 "Interface downgrade not allowed"%go
      | ErrValidation (InvalidUpgrade (Compat.MissingEndpoint _)) => Detail 409 "Interface update has missing endpoints"%go
      | ErrValidation (InvalidUpgrade (Compat.TypeChanged | Compat.OwnershipChanged | Compat.AggregationChanged
                                       | Compat.AttributeChanged _ _)) =>
          Detail 409 "Interface update contains incompatible endpoint changes"%go
      | ErrStore ErrAlreadyExists => Detail 409 "Interface already exists"%go
      | ErrStore ErrInterfaceMajorNotZero => Detail 403 "Interface can't be deleted"%go
      | ErrStore ErrInterfaceInUse => Detail 403 "Interface can't be deleted since it's currently used"%go
      | ErrValidation r => Unprocessable r
      | ErrStore ErrNotFound => Detail 404 "Interface not found"%go
      | _ => InternalServerError
      end
  end.

Definition writeError (e : realm_error) : response :=
  match violations_in e with
  | Some ve => ViolationsBody (renderViolationsBody ve)
  | None =>
      match e with
      | ErrMaximumDatabaseRetentionExceeded => retention_exceeded
      | ErrValidation r => Unprocessable r
      | ErrStore ErrAlreadyExists => Detail 409 "Already exists"%go
      | ErrStore ErrInterfaceMajorNotZero => Detail 422 "Interface major version is not 0, can't be deleted"%go
      | ErrStore ErrInterfaceInUse => Detail 422 "Cannot delete an interface that is used by a device introspection"%go
      | ErrStore ErrNotFound | errMajorNotFound => NotFoundBody
      | _ => InternalServerError
      end
  end.

Definition majorParam (segment : gostring) : option Z :=
  match Strconv.Atoi segment with
  | Ok major => if (major <? 0)%Z then None else Some major
  | Err _ => None
  end.

(** A handler answers with the response and what was told to the process. *)
Fixpoint after {A B} (p : prog A) (f : A -> B) : prog B :=
  match p with
  | Ret a => Ret (f a)
  | Call s k => Call s (fun r => after (k r) f)
  end.
Definition respond {A} (p : reply A) (ok : A -> response) (err : realm_error -> response) : prog (response * list effect) :=
  after p (fun a => (match a.1 with Ok x => ok x | Err e => err e end, a.2)).

Definition installInterface (s : Service) (realm : gostring) (body : option interfaceJSON) : prog (response * list effect) :=
  match body with
  | None => Ret (BadRequest, [])
  | Some def => respond (InstallInterface s realm def) (fun _ => Data 201) writeInterfaceError
  end.
Definition updateInterface (s : Service) (realm name major : gostring) (body : option interfaceJSON)
    : prog (response * list effect) :=
  match majorParam major with
  | None => Ret (NotFoundBody, [])
  | Some major =>
      match body with
      | None => Ret (BadRequest, [])
      | Some def => respond (UpdateInterface s realm name major def) (fun _ => NoContent) writeInterfaceError
      end
  end.
Definition deleteInterface (s : Service) (realm name major : gostring) : prog (response * list effect) :=
  match majorParam major with
  | None => Ret (NotFoundBody, [])
  | Some major => respond (DeleteInterface s realm name major) (fun _ => NoContent) writeInterfaceError
  end.
Definition deleteDevice (s : Service) (realm device : gostring) : prog (response * list effect) :=
  respond (DeleteDevice s realm device) (fun _ => NoContent)
    (fun e => match e with ErrStore ErrNotFound => Detail 404 "Device not found"%go | _ => writeError e end).
Definition createTrigger (s : Service) (realm : gostring) (body : option TriggerDefs.triggerJSON)
    : prog (response * list effect) :=
  match body with
  | None => Ret (BadRequest, [])
  | Some def => respond (CreateTrigger s realm def) (fun _ => Data 201)
                  (fun e => match e with ErrTriggerFields te => TriggerBody te | _ => writeError e end)
  end.

End Service.

(** ** The detailed listing reads back *)

(** What the listing leaves out of a mapping: its texts, and whether it is
    required and encrypted. *)
Definition plain_mapping (m : Mapping) : Mapping :=
  MkMapping (Endpoint m) (Type_ m) (Reliability_ m) (Retention_ m) (Expiry m) (DatabaseRetentionPolicy_ m)
    (DatabaseRetentionTTL m) (AllowUnset m) (ExplicitTimestamp m) false false [] [].
Definition plain_interface (iface : Interface) : Interface :=
  MkInterface (Name iface) (Major iface) (Minor iface) (IType iface) (IOwnership iface) (IAggregation iface)
    (IDescription iface) (IDoc iface) (map plain_mapping (Mappings iface)).

Lemma plain_wf iface : wf_interface iface -> wf_interface (plain_interface iface).
Proof.
  intros [H1 H2 H3 H4 H5 H6 H7 H8 (segss & S1 & S2 & S3)]. split; simpl; try done.
  - by rewrite length_map.
  - apply Forall_fmap. eapply Forall_impl; [exact H8|]. intros m (_ & _ & Hm). split_and!; [done..|].
    simpl. destruct (IType iface); naive_solver.
  - exists segss. split_and!; [by apply Forall2_fmap_l|done|]. intros Ha. destruct (S3 Ha) as (prefix & attrs & Hf).
    exists prefix, attrs. clear -Hf. revert segss Hf.
    induction (Mappings iface) as [|m ms IH]; intros [|segs segss] Hf; try constructor.
    + by apply Forall_cons in Hf as [? _].
    + apply Forall_cons in Hf as [_ Hf]. by apply IH.
Qed.

Lemma buildMapping_detailed t m i vc :
  wf_mapping t m -> buildMapping (writeDetailedMapping t m) t i vc = buildMapping (mapping_document t (plain_mapping m)) t i vc.
Proof. intros (_ & _ & Ht). destruct t; [|done]. destruct m. simpl in *. by destruct DatabaseRetentionPolicy_. Qed.

Lemma build_mappings_detailed t ms segss i vc used :
  Forall (wf_mapping t) ms -> Forall2 (fun m segs => splitEndpoint (Endpoint m) = Ok segs) ms segss ->
  build_mappings (map (writeDetailedMapping t) ms) t i vc used =
  Ok (zip (map plain_mapping ms) segss, vc, used, map (writeDetailedMapping t) ms).
Proof.
  intros Hw H2. revert i. induction H2 as [|m segs ms segss Hs H2 IH]; intros i; [done|].
  apply Forall_cons in Hw as [Hm Hw]. cbn [map build_mappings].
  assert (resolve_path (writeDetailedMapping t m) = (false, writeDetailedMapping t m)) as -> by by destruct t.
  cbn [bindR]. rewrite buildMapping_detailed by done. rewrite (buildMapping_document t (plain_mapping m) segs); [| |done].
  - cbn [bindR]. by rewrite orb_false_r, IH by done.
  - destruct Hm as (_ & _ & Hm). split_and!; [done..|]. simpl. destruct t; naive_solver.
Qed.

(** The detailed document of a stored interface parses, to the interface
    itself but for the mappings' texts and their required and encrypted
    flags. *)
Theorem detailed_listing_parses def iface canon :
  buildInterface def = Ok (iface, canon) ->
  renderDetailedInterface def = Ok (detailed iface) /\
  buildInterface (detailed iface) = Ok (plain_interface iface, detailed iface).
Proof.
  intros Hb. split; [unfold renderDetailedInterface; by rewrite Hb|].
  pose proof (buildInterface_sound _ _ _ Hb) as Hw. pose proof (buildInterface_complete _ (plain_wf _ Hw)) as Hc.
  pose proof (wf_mappings _ (plain_wf _ Hw)) as Hpm. destruct Hw as [_ _ _ _ _ _ _ Hms (segss & Hsegs & _)]. clear Hb.
  pose proof (fun i vc used => build_mappings_detailed _ _ _ i vc used Hms Hsegs) as Hdet.
  pose proof (fun i vc used => build_mappings_document (IType iface) (map plain_mapping (Mappings iface)) segss i vc used) as Hdoc.
  unfold buildInterface, document in Hc. unfold buildInterface, detailed.
  cbn -[build_mappings errOrNil checkEndpointUniqueness checkObjectAggregation Nat.leb Nat.eqb check_versions Regex.MatchString] in *.
  rewrite !length_map in *. rewrite Hdoc in Hc; [|exact Hpm|by apply Forall2_fmap_l].
  rewrite Hdet. cbn [bindR] in *.
  repeat match goal with
  | Hx : bindR ?x _ = Ok _ |- context [bindR ?x _] => destruct x; [cbn [bindR] in *|discriminate Hx]
  end.
  apply (f_equal (fun r => match r with Ok x => fst x | Err _ => plain_interface iface end)) in Hc. simpl in Hc. by rewrite Hc.
Qed.

Lemma detailed_listing_parses_witness :
  exists iface canon, buildInterface sample_v1 = Ok (iface, canon) /\
    buildInterface (detailed iface) = Ok (plain_interface iface, detailed iface).
Proof.
  destruct (buildInterface sample_v1) as [[iface canon]|] eqn:E; [|vm_compute in E; discriminate E].
  exists iface, canon. split; [reflexivity|exact (proj2 (detailed_listing_parses _ _ _ E))].
Defined.

(** ** Violation bodies *)

(** The messages a body carries for a field. *)
Definition messages_of (f : gostring) (fs : fields) : list gostring :=
  fs ≫= (fun x => if decide (x.1 = f) then x.2 else []).
Definition messages_for (f : gostring) (vs : list Violation) : list gostring :=
  vs ≫= (fun v => if decide (Field v = f) then Messages v else []).

Lemma messages_cons f x fs : messages_of f (x :: fs) = (if decide (x.1 = f) then x.2 else []) ++ messages_of f fs.
Proof. done. Qed.
Lemma messages_absent f fs : f ∉ fs.*1 -> messages_of f fs = [].
Proof.
  induction fs as [|[g m] fs IH]; [done|]. rewrite fmap_cons, not_elem_of_cons, messages_cons. cbn [fst snd]. intros [Hne Hn].
  rewrite decide_False by done. by apply IH.
Qed.

Lemma merge_field_dom f m fs : (merge_field f m fs).*1 = if decide (f ∈ fs.*1) then fs.*1 else fs.*1 ++ [f].
Proof.
  induction fs as [|[g n] fs IH]; [done|]. cbn [merge_field]. rewrite fmap_cons. cbn [fst].
  destruct (decide (g = f)) as [->|Hne]; rewrite fmap_cons; cbn [fst].
  - by rewrite decide_True by (by left).
  - rewrite IH. destruct (decide (f ∈ fs.*1)) as [Hin|Hn].
    + by rewrite decide_True by (by right).
    + rewrite decide_False; [done|]. rewrite not_elem_of_cons. auto.
Qed.

Lemma merge_field_messages f g m fs :
  NoDup fs.*1 -> messages_of g (merge_field f m fs) = messages_of g fs ++ (if decide (f = g) then m else []).
Proof.
  induction fs as [|[h n] fs IH]; intros Hnd.
  { cbn [merge_field]. rewrite messages_cons. cbn [fst snd]. by rewrite app_nil_r. }
  rewrite fmap_cons in Hnd. apply NoDup_cons in Hnd as [Hh Hnd]. cbn [merge_field fst] in *.
  destruct (decide (h = f)) as [->|Hne]; rewrite !messages_cons; cbn [fst snd].
  - destruct (decide (f = g)) as [->|]; [|by rewrite app_nil_r]. rewrite (messages_absent _ _ Hh). by rewrite !app_nil_r.
  - rewrite IH by done. by rewrite app_assoc.
Qed.

Lemma collect_spec vs : NoDup (collect vs).*1 /\
  (forall f, messages_of f (collect vs) = messages_for f vs) /\ (forall f, f ∈ (collect vs).*1 <-> f ∈ Field <$> vs).
Proof.
  unfold collect. induction vs as [|v vs IH] using rev_ind; [split_and!; [constructor|done|done]|].
  rewrite foldl_app. cbn [foldl]. destruct IH as (H1 & H2 & H3). change (foldl _ [] vs) with (collect vs) in *. set (fs := collect vs) in *. split_and!.
  - rewrite merge_field_dom. case_decide as Hd; [done|]. apply NoDup_app. split_and!; [done| |apply NoDup_singleton].
    intros x Hx Hs%list_elem_of_singleton. by subst x.
  - intros f. rewrite merge_field_messages, H2 by done. unfold messages_for. rewrite bind_app. simpl. by rewrite app_nil_r.
  - intros f. rewrite merge_field_dom, fmap_app, elem_of_app. simpl. rewrite list_elem_of_singleton.
    case_decide as Hd; rewrite <- H3; [|by rewrite elem_of_app, list_elem_of_singleton].
    split; [auto|]. by intros [? | ->].
Qed.

(** The body of a rejected document reports each violated field once with all
    its messages in order: the interface's own first, and, when a mapping is
    at fault, one entry per declared mapping at the mapping's position, empty
    for the mappings that are fine. *)
Theorem violations_body_aligned ve :
  let '(tops, entries) := renderViolationsBody ve in
  NoDup tops.*1 /\
  (forall f, messages_of f tops = messages_for f (filter (fun v => (MappingIndex v < 0)%Z) (Violations ve))) /\
  match entries with
  | Some es => Z.of_nat (length es) = Z.max 0 (MappingCount ve) /\
      forall i e, es !! i = Some e -> NoDup e.*1 /\
        (forall f, messages_of f e = messages_for f (filter (fun v => MappingIndex v = Z.of_nat i) (Violations ve))) /\
        (e = [] <-> Forall (fun v => MappingIndex v <> Z.of_nat i) (Violations ve))
  | None => Forall (fun v => ~ (0 <= MappingIndex v < MappingCount ve)%Z) (Violations ve)
  end.
Proof.
  unfold renderViolationsBody. set (bad := fun v => _ && _).
  pose proof (collect_spec (filter (fun v => (MappingIndex v < 0)%Z) (Violations ve))) as (T1 & T2 & _).
  split_and!; [done..|]. destruct (existsb bad (Violations ve)) eqn:Eb.
  - split; [rewrite length_fmap, length_seqZ; lia|]. intros i e He.
    apply list_lookup_fmap_Some in He as (z & -> & Hz). apply lookup_seqZ in Hz as [-> _]. rewrite Z.add_0_l.
    pose proof (collect_spec (filter (fun v => MappingIndex v = Z.of_nat i) (Violations ve))) as (E1 & E2 & E3).
    split_and!; [done..|]. set (vs := filter (fun v => MappingIndex v = Z.of_nat i) (Violations ve)) in *. split.
    + intros Hn. apply Forall_forall. intros v Hv Hi. assert (Field v ∈ (collect vs).*1) as Hin; [|by rewrite Hn in Hin; apply elem_of_nil in Hin].
      apply E3, list_elem_of_fmap_2. by apply list_elem_of_filter.
    + intros Hf. assert (vs = []) as ->; [|done]. destruct vs as [|v vs'] eqn:Ev; [done|].
      assert (v ∈ vs) as [Hi Hv]%list_elem_of_filter by (rewrite Ev; by left). rewrite Forall_forall in Hf. by destruct (Hf v Hv).
  - apply Forall_forall. intros v Hv Hb. apply not_true_iff_false in Eb. apply Eb, existsb_exists. exists v.
    split; [by apply list_elem_of_In|]. unfold bad. apply andb_true_iff. rewrite Z.leb_le, Z.ltb_lt. done.
Qed.

End RealmMgmt.
