(* ===== verification/RealmRules.v ===== *)
(** * What realm management keeps

    The rules the handlers of [internal/realm/service.go] enforce between
    rows: interface names that differ by more than case and hyphens, endpoint
    rows that agree with the stored document, triggers that compile and name
    policies that exist. They hold when requests run one after the other; the
    schedules at the end show how two requests together break them. *)

From stdpp Require Import sorting.
From S2P Require Import Prelude GoStrings DeviceID SchemaTypes Endpoints InterfaceParse Compile Compat Broker Topics.
From S2P Require Import ByteOrder Policy Triggers TriggerDefs MetaStore MetaWorld RealmMgmt.

Module RealmRules.
Import Schema Endpoint Parse ByteOrder MetaStore MetaWorld.

(** ** Programs by the calls they make *)

Section Calls.
Context `{Collation}.

Inductive calls_only (P : forall A, stmt A -> Prop) {R} : prog R -> Prop :=
| calls_ret r : calls_only P (Ret r)
| calls_call A (s : stmt A) k : P A s -> (forall r, calls_only P (k r)) -> calls_only P (Call s k).

Lemma calls_only_call P {R A} (s : stmt A) (fail : store_error -> R) k :
  P A s -> (forall a, calls_only P (k a)) -> calls_only P (call s fail k).
Proof. intros Hs Hk. constructor; [done|]. intros []; [done|constructor]. Qed.

Lemma calls_only_after P {A B} (p : prog A) (f : A -> B) : calls_only P p -> calls_only P (RealmMgmt.after p f).
Proof. induction 1 as [|A' s k Hs Hk IH]; simpl; constructor; auto. Qed.

Lemma run_calls_only P (I : db -> Prop) {R} (p : prog R) d :
  (forall A (s : stmt A) d, P A s -> I d -> I (exec s d).2) -> calls_only P p -> I d -> I (run p d).2.
Proof.
  intros Hex Hp. revert d. induction Hp as [r|A s k Hs Hk IH]; intros d Hd; [done|]. simpl.
  pose proof (Hex _ s d Hs Hd). destruct (exec s d). by apply IH.
Qed.

Lemma run_after {A B} (p : prog A) (f : A -> B) d :
  run (RealmMgmt.after p f) d = (f (run p d).1, (run p d).2).
Proof. revert d. induction p as [r|A' s k IH]; intros d; simpl; [done|]. destruct (exec s d). apply IH. Qed.

Lemma run_db_ok {R} (p : prog R) d : db_ok d -> db_ok (run p d).2.
Proof.
  apply (run_calls_only (fun _ _ => True)); [intros; by apply meta_exec_ok|].
  induction p; by constructor.
Qed.

End Calls.

(** Discharges [calls_only] along a program. *)
Ltac calls := repeat match goal with
  | |- calls_only _ (call _ _ _) => apply calls_only_call; [reflexivity|intros]
  | |- calls_only _ (Ret _) => constructor
  | |- calls_only _ (Call _ _) => constructor; [reflexivity|intros]
  | |- calls_only _ (match ?x with _ => _ end) => destruct x
  end.

(** ** The rules *)


Section Rules.
Context `{Collation} `{TriggerDefs.Text}.

(** An endpoint row carries the attributes of the mapping it stands for. *)
Definition rows_agree (d : db) : Prop :=
  forall k row iface canon m e, interfaces d !! k = Some row -> buildInterface (ifDefinition row) = Ok (iface, canon) ->
    m ∈ Mappings iface -> loadEndpoints d (ifID row) !! Endpoint m = Some e -> e = endpoint_row (epID e) m.

Definition names_apart (d : db) : Prop :=
  forall rid n1 m1 n2 m2, is_Some (interfaces d !! (rid, n1, m1)) -> is_Some (interfaces d !! (rid, n2, m2)) ->
    RealmMgmt.normaliseIfaceName n1 = RealmMgmt.normaliseIfaceName n2 -> n1 = n2.

(** A stored trigger is one the engine compiles under its name, and the policy
    it names is there. *)
Definition trigger_ok (h : Hooks) (rid : Z) (name : gostring) (def : TriggerDefs.triggerJSON) : Prop :=
  exists t, TriggerDefs.Compile name def = Ok t /\
    (Triggers.PolicyName t = [] \/ is_Some (policies h !! (rid, Triggers.PolicyName t))).

Record realm_rules (d : db) : Prop := {
  rule_names : names_apart d;
  rule_rows : rows_agree d;
  rule_triggers : forall rid n id def, triggers (hooks d) !! (rid, n) = Some (id, def) -> trigger_ok (hooks d) rid n def;
  rule_policies : forall rid n id def, policies (hooks d) !! (rid, n) = Some (id, def) ->
    exists p, Policy.CompilePolicy def = Ok p /\ Policy.Name p = n;
}.

(** The calls that only the guarded handlers make. *)
Definition guarded {A} (s : stmt A) : bool :=
  match s with
  | SInstallInterface _ _ | SUpdateInterface _ _ | SCreateTrigger _ _ _ | SCreateTriggerPolicy _ _ _
  | SDeleteTriggerPolicy _ _ => true
  | _ => false
  end.
Definition unguarded : forall A, stmt A -> Prop := fun _ s => guarded s = false.

(** A call that is not guarded can only remove interfaces, triggers and
    policies, the last only with their realm. *)
Record shrinks (d d' : db) : Prop := {
  sh_interfaces : interfaces d' ⊆ interfaces d;
  sh_endpoints : forall k row, interfaces d' !! k = Some row -> loadEndpoints d' (ifID row) = loadEndpoints d (ifID row);
  sh_triggers : triggers (hooks d') ⊆ triggers (hooks d);
  sh_policies : policies (hooks d') ⊆ policies (hooks d);
  sh_kept : forall rid n x, triggers (hooks d') !! (rid, n) = Some x ->
    forall p, is_Some (policies (hooks d) !! (rid, p)) -> is_Some (policies (hooks d') !! (rid, p));
}.

Lemma same_tables_shrink d d' :
  interfaces d' = interfaces d -> endpoints d' = endpoints d -> hooks d' = hooks d -> shrinks d d'.
Proof. intros E1 E2 E3. unfold loadEndpoints. split; unfold loadEndpoints; by rewrite ?E1, ?E2, ?E3. Qed.

Lemma update_realm_tables name f d :
  interfaces (update_realm name f d).2 = interfaces d /\ endpoints (update_realm name f d).2 = endpoints d /\
  hooks (update_realm name f d).2 = hooks d.
Proof. unfold update_realm. by case_match. Qed.
Lemma update_device_tables rid id f d :
  interfaces (update_device rid id f d).2 = interfaces d /\ endpoints (update_device rid id f d).2 = endpoints d /\
  hooks (update_device rid id f d).2 = hooks d.
Proof. unfold update_device. by case_match. Qed.

Lemma DeleteRealm_shrinks name d : db_ok d -> shrinks d (DeleteRealm name d).2.
Proof.
  intros Hd. pose proof (interface_id_unique _ _ _ _ _ (ok_interfaces _ Hd)) as Hu.
  unfold DeleteRealm. destruct (realms d !! name) as [r|]; [|by apply same_tables_shrink]. split; simpl.
  - apply map_filter_subseteq.
  - intros k row [Hk Hne]%map_lookup_filter_Some. unfold loadEndpoints. f_equal. simpl.
    destruct (endpoints d !! ifID row) as [es|] eqn:Ee.
    + apply map_lookup_filter_Some. split; [done|]. simpl. intros (row' & Hid & ([k' x] & -> & Hin)%list_elem_of_fmap)%list_elem_of_fmap.
      apply elem_of_map_to_list, map_lookup_filter_Some in Hin as [Hin Hr]. simpl in *.
      apply Hne. by rewrite (Hu _ _ _ _ Hk Hin Hid).
    + apply map_lookup_filter_None. by left.
  - apply map_filter_subseteq.
  - apply map_filter_subseteq.
  - intros rid n x [_ Hne]%map_lookup_filter_Some p [y Hy]. exists y. by apply map_lookup_filter_Some.
Qed.

Lemma DeleteInterface_shrinks rid name major d : db_ok d -> shrinks d (DeleteInterface rid name major d).2.
Proof.
  intros Hd. pose proof (interface_id_unique _ _ _ _ _ (ok_interfaces _ Hd)) as Hu.
  unfold DeleteInterface. case_match; [by apply same_tables_shrink|].
  destruct (interfaces d !! _) as [row|] eqn:E; [|by apply same_tables_shrink]. case_match; [by apply same_tables_shrink|].
  split; simpl; [apply delete_subseteq| |done..].
  intros k row' [Hne Hk]%lookup_delete_Some. unfold loadEndpoints. simpl. rewrite lookup_delete_ne; [done|].
  intros Eid. apply Hne. by eapply Hu.
Qed.

Lemma exec_shrinks {A} (s : stmt A) d : db_ok d -> guarded s = false -> shrinks d (exec s d).2.
Proof.
  intros Hd Hg. destruct s; try discriminate Hg; clear Hg; simpl; try (by apply same_tables_shrink);
    try (apply same_tables_shrink; first [apply update_realm_tables|apply update_device_tables]; fail);
    try (by apply DeleteRealm_shrinks); try (by apply DeleteInterface_shrinks).
  - unfold CreateRealm. repeat case_match; by apply same_tables_shrink.
  - unfold UpdateRealm. case_match; [by apply same_tables_shrink|]. apply same_tables_shrink; apply update_realm_tables.
  - unfold RegisterDevice. repeat case_match; by apply same_tables_shrink.
  - unfold UpdateIntrospection. case_match; by apply same_tables_shrink.
  - unfold AddDeviceStats. repeat case_match; by apply same_tables_shrink.
  - unfold SetPayloadFormatHint. case_decide; [by apply same_tables_shrink|].
    apply same_tables_shrink; apply update_device_tables.
  - unfold DeleteDevice. case_match; by apply same_tables_shrink.
  - unfold CreateGroup. repeat case_match; by apply same_tables_shrink.
  - unfold DeleteGroup. case_match; by apply same_tables_shrink.
  - unfold AddGroupDevice. repeat case_match; by apply same_tables_shrink.
  - unfold RemoveGroupDevice. case_match; by apply same_tables_shrink.
  - unfold DeleteTrigger. case_match; [|by apply same_tables_shrink]. split; simpl; [done..| |done|].
    + apply delete_subseteq.
    + intros rid' n x [_ ?]%lookup_delete_Some. eauto.
Qed.

Lemma shrinks_rules d d' : shrinks d d' -> realm_rules d -> realm_rules d'.
Proof.
  intros [S1 S2 S3 S4 S5] [R1 R2 R3 R4]. split.
  - intros rid n1 m1 n2 m2 [x1 H1] [x2 H2]. apply (lookup_weaken _ _ _ _ H1) in S1 as H1'.
    apply (lookup_weaken _ _ _ _ H2) in S1 as H2'. by apply (R1 rid n1 m1 n2 m2).
  - intros k row iface canon m e Hk Hb Hm He. rewrite (S2 _ _ Hk) in He. eapply R2; [|done..]. by eapply lookup_weaken.
  - intros rid n id def Ht. destruct (R3 rid n id def) as (t & Hc & Hp); [by eapply lookup_weaken|].
    exists t. split; [done|]. destruct Hp as [?|Hp]; [by left|]. right. by eapply S5.
  - intros rid n id def Hp. eapply R4. by eapply lookup_weaken.
Qed.

(** Whatever else a request does, if it makes none of the guarded calls it
    keeps the rules. *)
Lemma unguarded_rules {R} (p : prog R) d :
  calls_only unguarded p -> db_ok d -> realm_rules d -> realm_rules (run p d).2.
Proof.
  intros Hp Hd Hr. apply (run_calls_only unguarded (fun d => db_ok d /\ realm_rules d)); [|done|done].
  intros A s d' Hs [Hok Hr']. split; [by apply meta_exec_ok|]. eapply shrinks_rules; [by apply exec_shrinks|done].
Qed.

(** ** Reading interfaces *)

Lemma interface_keys_elem d rid n m : (n, m) ∈ interface_keys d rid <-> is_Some (interfaces d !! (rid, n, m)).
Proof.
  unfold interface_keys. set (keys := omap _ _).
  assert (forall x, x ∈ keys <-> is_Some (interfaces d !! (rid, x.1, x.2))) as Hkeys.
  { intros [n' m']. unfold keys. rewrite list_elem_of_omap. split.
    - intros ([[[r a] b] row] & Hin & He). simpl in He. case_decide; simplify_eq. apply elem_of_map_to_list in Hin. by exists row.
    - intros [row Hr]. exists (rid, n', m', row). split; [by apply elem_of_map_to_list|]. simpl. by rewrite decide_True. }
  rewrite <- (Hkeys (n, m)). rewrite list_elem_of_bind. split.
  - intros (name & (major & Hin & Hm)%list_elem_of_bind & Hname). apply list_elem_of_singleton in Hin as [= -> ->].
    rewrite merge_sort_Permutation in Hm. apply list_elem_of_omap in Hm as ([n' m'] & Hk & He). simpl in He.
    case_decide; by simplify_eq.
  - intros Hin. exists n. split.
    + apply list_elem_of_bind. exists m. split; [by apply list_elem_of_singleton|]. rewrite merge_sort_Permutation.
      apply list_elem_of_omap. exists (n, m). split; [done|]. simpl. by rewrite decide_True.
    + rewrite collate_perm, elem_of_elements, elem_of_list_to_set. apply list_elem_of_fmap. by exists (n, m).
Qed.

Lemma build_fields raw iface canon : buildInterface raw = Ok (iface, canon) ->
  jInterfaceName raw = Some (Name iface) /\ jVersionMajor raw = Some (Major iface) /\
  jVersionMinor raw = Some (Minor iface) /\ jIType raw = Some (IType iface).
Proof.
  unfold buildInterface. destruct (resolve_quality raw _) as [[own0 u1] vc1].
  destruct (resolve_aggregate raw u1 vc1) as [[agg0 u2] vc2]. intros Hb. inv_ok Hb.
  destruct a10 as [[[ms vc3] u3] mjs]. inv_ok Hb. by simplify_eq/=.
Qed.

Lemma scan_name rid row eps si : scanStoredInterface rid row eps = Some si ->
  jInterfaceName (ifDefinition row) = Some (siName si) /\ siDefinition si = ifDefinition row.
Proof. unfold scanStoredInterface. intros Hs. by simplify_option_eq. Qed.

(** The listing of a realm misses no interface. *)
Lemma listing_complete d rid l n m :
  db_ok d -> (LoadRealmInterfaces rid d).1 = Ok l -> is_Some (interfaces d !! (rid, n, m)) ->
  exists si, si ∈ l /\ siName si = n.
Proof.
  intros Hd Hl [row Hr]. unfold LoadRealmInterfaces, reads in Hl. simpl in Hl.
  destruct (mapM _ _) as [sis|] eqn:Em; [|done]. injection Hl as ->.
  apply mapM_Some_1 in Em.
  assert (row ∈ omap (fun k => interfaces d !! (rid, k.1, k.2)) (interface_keys d rid)) as [i Hi]%list_elem_of_lookup.
  { apply list_elem_of_omap. exists (n, m). split; [|done]. apply interface_keys_elem. by exists row. }
  destruct (Forall2_lookup_l _ _ _ _ _ Em Hi) as (si & Hsi & Hs). exists si.
  split; [by eapply list_elem_of_lookup_2|]. apply scan_name in Hs as [Hn _].
  destruct (interface_row _ _ _ _ _ (ok_interfaces _ Hd) _ _ _ _ Hr) as (es & _ & iface & canon & Hb & <- & _ & _).
  apply build_fields in Hb as [Hb _]. congruence.
Qed.

(** ** Installing *)

(** What a successful store install does. *)
Lemma store_install_ok rid def d si d' :
  MetaStore.InstallInterface rid def d = (Ok si, d') ->
  exists iface canon eps n, buildInterface def = Ok (iface, canon) /\
    fits (Major iface) = true /\ interfaces d !! (rid, Name iface, Major iface) = None /\
    foldl (fun s m => insertEndpoint m s) (Some (∅, next_endpoint d)) (Mappings iface) = Some (eps, n) /\
    d' = with_interfaces (<[(rid, Name iface, Major iface) := MkInterfaceRow (next_interface d) def]> (interfaces d))
           (<[next_interface d := eps]> (endpoints d)) (next_interface d + 1) n d.
Proof.
  unfold MetaStore.InstallInterface. destruct (buildInterface def) as [[iface canon]|]; [|done].
  destruct (fits (Major iface)) eqn:Ei, (fits (Minor iface)); simpl; try done.
  case_decide as Hn; [done|]. case_match; [done|]. destruct (foldl _ _ _) as [[eps n]|] eqn:Ef; [|done].
  intros [= <- <-]. exists iface, canon, eps, n. split_and!; [done|done|by apply eq_None_not_Some|done..].
Qed.

(** Refused, the tables but for the sequences are as before. *)
Definition same_rows (d d' : db) : Prop :=
  data d' = data d /\ now d' = now d /\ realms d' = realms d /\ devices d' = devices d /\ groups d' = groups d /\
  group_devices d' = group_devices d /\ interfaces d' = interfaces d /\ endpoints d' = endpoints d /\
  triggers (hooks d') = triggers (hooks d) /\ policies (hooks d') = policies (hooks d).
Lemma same_rows_refl d : same_rows d d.
Proof. done. Qed.
Lemma same_rows_rules d d' : same_rows d d' -> realm_rules d -> realm_rules d'.
Proof.
  intros (_ & _ & _ & _ & _ & _ & E1 & E2 & E3 & E4) [R1 R2 R3 R4]. split.
  - unfold names_apart. by rewrite E1.
  - unfold rows_agree, loadEndpoints. by rewrite E1, E2.
  - intros rid n id def. rewrite E3. intros (t & Hc & Hp)%R3. exists t. split; [done|]. by rewrite E4.
  - intros rid n id def. rewrite E4. apply R4.
Qed.

Lemma install_refused rid def d e d' :
  MetaStore.InstallInterface rid def d = (Err e, d') -> same_rows d d'.
Proof.
  unfold MetaStore.InstallInterface. destruct (buildInterface def) as [[iface canon]|]; [|by intros [= _ <-]].
  destruct (fits _ && fits _); simpl; [|by intros [= _ <-]].
  case_decide; [by intros [= _ <-]|]. case_match; [by intros [= _ <-]|].
  destruct (foldl _ _ _) as [[eps n]|]; [done|by intros [= _ <-]].
Qed.

(** The rows inserted for a list of mappings. *)
Lemma insert_endpoints_rows ms eps n eps' n' :
  foldl (fun s m => insertEndpoint m s) (Some (eps, n)) ms = Some (eps', n') ->
  eps ⊆ eps' /\
  (forall ep e, eps' !! ep = Some e -> eps !! ep = Some e \/ exists m, m ∈ ms /\ Endpoint m = ep /\ e = endpoint_row (epID e) m).
Proof.
  revert eps n. induction ms as [|m ms IH]; intros eps n; cbn [foldl].
  { intros [= <- <-]. split; [done|auto]. }
  unfold insertEndpoint at 2. simpl. case_decide as Hn.
  { by rewrite insert_endpoints_None. }
  destruct (endpoint_fits m); simpl; [|by rewrite insert_endpoints_None].
  rewrite <- eq_None_not_Some in Hn. intros [Hsub Hnew]%IH. split.
  - etrans; [|exact Hsub]. by apply insert_subseteq.
  - intros ep e [[[<- <-]|[_ ?]]%lookup_insert_Some|(m' & Hm' & Ee)]%Hnew; [right; exists m|by left|right; exists m'].
    + split; [by left|done].
    + split; [by right|done].
Qed.

Lemma endpoint_names_distinct iface m m' :
  wf_interface iface -> m ∈ Mappings iface -> m' ∈ Mappings iface -> Compat.same_endpoint m m' -> m = m'.
Proof.
  intros Hw Hm Hm' Hs. pose proof (Compat.wf_distinct_keys _ Hw) as Hd.
  destruct (Compat.wf_has_key _ _ Hw Hm) as [key Hk]. pose proof (proj1 (Compat.same_endpoint_key _ _ _ Hk) Hs) as Hk'.
  clear Hs. unfold Compat.distinct_keys in Hd. revert Hm Hm'.
  induction Hd as [|x ms Hx Hd IH]; intros Hm Hm'; [by apply elem_of_nil in Hm|].
  rewrite Forall_forall in Hx. apply elem_of_cons in Hm as [->|Hm], Hm' as [->|Hm']; [done|..|by apply IH].
  - by destruct (Hx _ Hm' _ Hk Hk').
  - by destruct (Hx _ Hm _ Hk' Hk).
Qed.

Lemma same_text_same_endpoint iface m m' :
  wf_interface iface -> m ∈ Mappings iface -> Endpoint m' = Endpoint m -> Compat.same_endpoint m m'.
Proof.
  intros Hw Hm He. destruct (Compat.wf_has_key _ _ Hw Hm) as (key & segs & Hs & _). exists segs, segs.
  rewrite He. split_and!; [done..|]. unfold same_shape. apply Forall_Forall2_diag. apply Forall_forall. by intros x _.
Qed.

Lemma canonical_build def iface canon :
  aliases def = false -> ParseInterfaceCanonical def = Ok (iface, canon) ->
  exists c, buildInterface (RealmMgmt.canonical def canon) = Ok (iface, c) /\ alias_free (RealmMgmt.canonical def canon).
Proof.
  intros Ha Hp. unfold ParseInterfaceCanonical in Hp. destruct (buildInterface def) as [[i raw']|] eqn:Eb; [|done]. simpl in Hp.
  destruct (buildInterface_reread _ _ _ Ha Eb) as (H1 & H2 & H3).
  destruct (aliases raw') eqn:Er; simpl in Hp; simplify_eq; simpl.
  - exists (reread raw'). split; [done|]. exact H1.
  - exists raw'. split; [done|]. by apply H2.
Qed.

(** A request to install either does so, past every check, or changes no row
    and tells nobody. *)
Lemma install_spec s realm def d :
  (exists r iface canon l si d', realms d !! realm = Some r /\ ParseInterfaceCanonical def = Ok (iface, canon) /\
     (LoadRealmInterfaces (RealmID r) d).1 = Ok l /\ existsb (RealmMgmt.collides (Name iface)) l = false /\
     RealmMgmt.checkRetentionCeiling r iface = true /\
     MetaStore.InstallInterface (RealmID r) (RealmMgmt.canonical def canon) d = (Ok si, d') /\
     run (RealmMgmt.InstallInterface s realm def) d = ((Ok si, RealmMgmt.interfacesChanged s (RealmID r)), d')) \/
  (exists e d', run (RealmMgmt.InstallInterface s realm def) d = ((Err e, []), d') /\ same_rows d d').
Proof.
  unfold RealmMgmt.InstallInterface, RealmMgmt.checkNameCollision. cbn [run call exec]. unfold GetRealmByName, reads.
  destruct (realms d !! realm) as [r|] eqn:Er; cbn [or_err]; [|right; by eexists _, d].
  destruct (ParseInterfaceCanonical def) as [[iface canon]|]; cbn [run]; [|right; by eexists _, d].
  cbn [call run exec]. destruct (LoadRealmInterfaces (RealmID r) d) as [res d1] eqn:El.
  assert (d1 = d) as -> by (unfold LoadRealmInterfaces, reads in El; by simplify_eq).
  destruct res as [l|e]; [|right; by eexists _, d]. destruct (existsb _ l) eqn:Ec; [right; by eexists _, d|].
  destruct (RealmMgmt.checkRetentionCeiling r iface) eqn:Et; cbn [negb]; [|right; by eexists _, d].
  cbn [call run exec]. destruct (MetaStore.InstallInterface _ _ d) as [[si|e] d'] eqn:Ei.
  - left. exists r, iface, canon, l, si, d'. split_and!; rewrite ?El; done.
  - right. eexists _, d'. split; [done|]. by eapply install_refused.
Qed.

Lemma install_rules s realm def d :
  aliases def = false -> db_ok d -> realm_rules d -> realm_rules (run (RealmMgmt.InstallInterface s realm def) d).2.
Proof.
  intros Ha Hd Hr. destruct (install_spec s realm def d)
    as [(r & iface & canon & l & si & d' & _ & Hp & Hl & Hc & _ & Hi & ->)|(e & d' & -> & Hs)]; [|by eapply same_rows_rules].
  simpl. destruct (canonical_build _ _ _ Ha Hp) as (c & Hb & _).
  apply store_install_ok in Hi as (iface' & canon' & eps & n & Hb' & _ & Hnone & Hf & ->). rewrite Hb in Hb'. simplify_eq.
  destruct Hr as [R1 R2 R3 R4]. split; simpl; [| |done|done].
  - assert (forall n2 m2, is_Some (interfaces d !! (RealmID r, n2, m2)) ->
      RealmMgmt.normaliseIfaceName n2 = RealmMgmt.normaliseIfaceName (Name iface') -> n2 = Name iface') as Hapart.
    { intros n2 m2 H2 Hn. destruct (listing_complete _ _ _ _ _ Hd Hl H2) as (x & Hx & <-).
      destruct (decide (siName x = Name iface')) as [|Hne]; [done|exfalso]. apply not_true_iff_false in Hc. apply Hc.
      apply existsb_exists. exists x. split; [by apply list_elem_of_In|]. unfold RealmMgmt.collides.
      by rewrite (bool_decide_eq_false_2 _ Hne), (bool_decide_eq_true_2 _ Hn). }
    intros rid n1 m1 n2 m2. cbn [with_interfaces interfaces]. intros [H1|[_ H1]]%lookup_insert_is_Some [H2|[_ H2]]%lookup_insert_is_Some Hn; simplify_eq.
    + done.
    + symmetry. by eapply Hapart.
    + by eapply Hapart.
    + by apply (R1 rid n1 m1 n2 m2).
  - intros k row iface canon0 m e Hk Hb' Hm He. unfold loadEndpoints in He. cbn [with_interfaces interfaces endpoints] in Hk, He.
    pose proof (ok_interfaces _ Hd) as Hi.
    apply lookup_insert_Some in Hk as [[<- <-]|[_ Hk]]; simpl in *.
    + rewrite lookup_insert_eq in He. simpl in He. rewrite Hb in Hb'. simplify_eq.
      apply insert_endpoints_rows in Hf as [_ Hnew]. apply Hnew in He as [He|(m' & Hm' & Ee & ->)]; [by rewrite lookup_empty in He|].
      pose proof (buildInterface_sound _ _ _ Hb) as Hw.
      assert (m' = m) as -> by (eapply endpoint_names_distinct; [done..|by eapply same_text_same_endpoint]). done.
    + rewrite lookup_insert_ne in He by (pose proof (interface_id_below _ _ _ _ _ Hi _ _ Hk); lia). by eapply R2.
Qed.

(** ** Upgrading *)

Lemma store_update_ok rid def d si d' :
  MetaStore.UpdateInterface rid def d = (Ok si, d') ->
  exists iface canon row eps n, buildInterface def = Ok (iface, canon) /\
    interfaces d !! (rid, Name iface, Major iface) = Some row /\ dropped_endpoint (loadEndpoints d (ifID row)) iface = None /\
    foldl (fun s m => add_new_endpoint m s) (Some (loadEndpoints d (ifID row), next_endpoint d)) (Mappings iface) = Some (eps, n) /\
    d' = with_interfaces (<[(rid, Name iface, Major iface) := MkInterfaceRow (ifID row) def]> (interfaces d))
           (<[ifID row := eps]> (endpoints d)) (next_interface d) n d.
Proof.
  unfold MetaStore.UpdateInterface. destruct (buildInterface def) as [[iface canon]|]; [|done].
  destruct (fits (Major iface)); simpl; [|done]. destruct (interfaces d !! _) as [row|] eqn:Er; [|done].
  destruct (dropped_endpoint _ _) eqn:Ed; [done|]. destruct (fits (Minor iface)); simpl; [|done].
  destruct (foldl _ _ _) as [[eps n]|] eqn:Ef; [|done]. intros [= <- <-]. by exists iface, canon, row, eps, n.
Qed.

Lemma update_refused rid def d e d' : MetaStore.UpdateInterface rid def d = (Err e, d') -> d' = d.
Proof. unfold MetaStore.UpdateInterface. intros Hu. repeat case_match; by simplify_eq. Qed.

Lemma add_endpoints_rows ms eps n eps' n' :
  foldl (fun s m => add_new_endpoint m s) (Some (eps, n)) ms = Some (eps', n') ->
  eps ⊆ eps' /\
  (forall ep e, eps' !! ep = Some e -> eps !! ep = Some e \/ exists m, m ∈ ms /\ Endpoint m = ep /\ e = endpoint_row (epID e) m).
Proof.
  revert eps n. induction ms as [|m ms IH]; intros eps n; cbn [foldl].
  { intros [= <- <-]. split; [done|auto]. }
  unfold add_new_endpoint at 2. simpl. case_decide as Hn.
  { intros [Hsub Hnew]%IH. split; [done|]. intros ep e [?|(m' & Hm' & Ee)]%Hnew; [by left|right; exists m'].
    split; [by right|done]. }
  destruct (endpoint_fits m); simpl; [|by rewrite add_endpoints_None].
  rewrite <- eq_None_not_Some in Hn. intros [Hsub Hnew]%IH. split.
  - etrans; [|exact Hsub]. by apply insert_subseteq.
  - intros ep e [[[<- <-]|[_ ?]]%lookup_insert_Some|(m' & Hm' & Ee)]%Hnew; [right; exists m|by left|right; exists m'].
    + split; [by left|done].
    + split; [by right|done].
Qed.

(** The upgrade a request asks for: the stored document and the next one. *)
Record upgrade_request (d : db) (realm name : gostring) (major : Z) (def : interfaceJSON)
    (r : Realm) (row : InterfaceRow) (prev next : Interface) (canon : option interfaceJSON) : Prop := {
  up_realm : realms d !! realm = Some r;
  up_parse : ParseInterfaceCanonical def = Ok (next, canon);
  up_name : Name next = name;
  up_major : Major next = major;
  up_row : interfaces d !! (RealmID r, name, major) = Some row;
  up_prev : exists c, buildInterface (ifDefinition row) = Ok (prev, c);
}.

Lemma update_spec s realm name major def d :
  (exists r row prev next canon si d', upgrade_request d realm name major def r row prev next canon /\
     RealmMgmt.checkRetentionCeiling r next = true /\ Compat.CheckMinorUpgrade (Some prev) (Some next) = Ok () /\
     MetaStore.UpdateInterface (RealmID r) (RealmMgmt.canonical def canon) d = (Ok si, d') /\
     run (RealmMgmt.UpdateInterface s realm name major def) d = ((Ok si, RealmMgmt.interfacesChanged s (RealmID r)), d')) \/
  (exists e, run (RealmMgmt.UpdateInterface s realm name major def) d = ((Err e, []), d) /\
     (forall ue, e = RealmMgmt.ErrValidation (RealmMgmt.InvalidUpgrade ue) ->
        exists r row prev next canon, upgrade_request d realm name major def r row prev next canon /\
          Compat.CheckMinorUpgrade (Some prev) (Some next) = Err ue)).
Proof.
  unfold RealmMgmt.UpdateInterface. cbn [run call exec]. unfold GetRealmByName, reads.
  destruct (realms d !! realm) as [r|] eqn:Er; cbn [or_err]; [|right; by eexists].
  destruct (ParseInterfaceCanonical def) as [[next canon]|] eqn:Ep; [|right; by eexists].
  case_bool_decide as En; cbn [negb]; [|right; by eexists].
  destruct (Z.eqb_spec (Major next) major) as [Em|]; cbn [negb]; [|right; by eexists].
  destruct (RealmMgmt.checkRetentionCeiling r next) eqn:Et; cbn [negb]; [|right; by eexists].
  cbn [call run exec]. unfold MetaStore.GetInterface, reads. rewrite En, Em.
  destruct (fits major) eqn:Ei; cbn [negb]; [|right; by eexists].
  destruct (interfaces d !! _) as [row|] eqn:Eh; [|right; by eexists].
  destruct (scanStoredInterface _ _ _) as [st|] eqn:Es; cbn [or_err]; [|right; by eexists].
  apply scan_name in Es as [_ ->]. destruct (buildInterface (ifDefinition row)) as [[prev c]|] eqn:Eb; [|right; by eexists].
  assert (upgrade_request d realm name major def r row prev next canon) as Hreq by (split; eauto).
  destruct (Compat.CheckMinorUpgrade (Some prev) (Some next)) as [[]|ue] eqn:Ec.
  - cbn [call run exec]. destruct (MetaStore.UpdateInterface _ _ d) as [[si|e] d'] eqn:Eu.
    + left. exists r, row, prev, next, canon, si, d'. by split_and!.
    + right. apply update_refused in Eu as ->. by eexists.
  - right. eexists. split; [done|]. intros ? [= <-]. by exists r, row, prev, next, canon.
Qed.

Lemma semantic_row id m m' : Compat.semantic m = Compat.semantic m' -> endpoint_row id m = endpoint_row id m'.
Proof. destruct m, m'. unfold Compat.semantic, endpoint_row. simpl. intros Hs. by simplify_eq. Qed.

Lemma same_endpoint_text om m nm : Endpoint om = Endpoint m -> Compat.same_endpoint om nm -> Compat.same_endpoint m nm.
Proof. intros He (s1 & s2 & H1 & H2 & Hs). exists s1, s2. by rewrite <- He. Qed.

Lemma update_rules s realm name major def d :
  aliases def = false -> db_ok d -> realm_rules d ->
  realm_rules (run (RealmMgmt.UpdateInterface s realm name major def) d).2.
Proof.
  intros Ha Hd Hr. destruct (update_spec s realm name major def d)
    as [(r & row & prev & next & canon & si & d' & [Hre Hp <- <- Hrow [c Hprev]] & _ & Hc & Hu & ->)|(e & -> & _)]; [|done].
  simpl. destruct (canonical_build _ _ _ Ha Hp) as (c' & Hb & _).
  apply store_update_ok in Hu as (iface & canon' & row' & eps & n & Hb' & Hrow' & _ & Hf & ->). rewrite Hb in Hb'. simplify_eq.
  destruct Hr as [R1 R2 R3 R4]. pose proof (ok_interfaces _ Hd) as Hi.
  pose proof (buildInterface_sound _ _ _ Hb) as Hwn. pose proof (buildInterface_sound _ _ _ Hprev) as Hwp.
  apply (Compat.check_upgrade_additive _ _ Hwp Hwn) in Hc.
  split; simpl; [| |done|done].
  - intros rid n1 m1 n2 m2. cbn [with_interfaces interfaces]. intros H1 H2. apply (R1 rid n1 m1 n2 m2);
      [apply lookup_insert_is_Some in H1 as [[= <- <- <-]|[_ ?]]|apply lookup_insert_is_Some in H2 as [[= <- <- <-]|[_ ?]]]; done.
  - intros k row0 iface0 canon0 m e Hk Hb' Hm He. unfold loadEndpoints in He. cbn [with_interfaces interfaces endpoints] in Hk, He.
    apply lookup_insert_Some in Hk as [[<- <-]|[Hne Hk]]; simpl in *.
    2:{ rewrite lookup_insert_ne in He; [by eapply R2|]. intros Eid. apply Hne. by eapply (interface_id_unique _ _ _ _ _ Hi). }
    rewrite lookup_insert_eq in He. simpl in He. rewrite Hb in Hb'. simplify_eq.
    apply add_endpoints_rows in Hf as [_ Hnew]. apply Hnew in He as [He|(m' & Hm' & Ee & ->)].
    2:{ assert (m' = m) as -> by (eapply (endpoint_names_distinct _ _ _ Hwn); [done..|exact (same_text_same_endpoint _ _ _ Hwn Hm' (eq_sym Ee))]). done. }
    destruct (interface_row _ _ _ _ _ Hi _ _ _ _ Hrow) as (es & Hes & i0 & c0 & Hb0 & _ & _ & Hdom).
    unfold loadEndpoints in He. rewrite Hes in He. simpl in He. rewrite Hprev in Hb0. injection Hb0 as <- <-.
    assert (Endpoint m ∈ Endpoint <$> Mappings prev) as (om & Ho & Hom)%list_elem_of_fmap by (apply Hdom; by eexists).
    assert (e = endpoint_row (epID e) om) as Hrow0.
    { eapply (R2 _ _ _ _ om); [exact Hrow|exact Hprev|done|]. unfold loadEndpoints. rewrite Hes. simpl. by rewrite <- Ho. }
    destruct (Compat.add_mappings _ _ Hc om Hom) as (nm & Hnm & Hse & Hsem).
    assert (m = nm) as <-.
    { eapply endpoint_names_distinct; [exact Hwn|done..|]. by eapply same_endpoint_text. }
    rewrite Hrow0 at 1. by apply semantic_row.
Qed.

(** ** Triggers and policies *)

Lemma names_of_elem {V} (rid : Z) (m : gmap (Z * gostring) V) (n : gostring) : n ∈ names_of rid m <-> is_Some (m !! (rid, n)).
Proof.
  unfold names_of. rewrite collate_perm, list_elem_of_omap. split.
  - intros ([[r k] v] & Hin & He). simpl in He. case_decide; simplify_eq. apply elem_of_map_to_list in Hin. by exists v.
  - intros [v Hv]. exists (rid, n, v). split; [by apply elem_of_map_to_list|]. simpl. by rewrite decide_True.
Qed.

Lemma list_triggers_elem rid d l n id def :
  (MetaStore.ListTriggers rid d).1 = Ok l -> triggers (hooks d) !! (rid, n) = Some (id, def) ->
  MkTriggerRow id rid n def ∈ l.
Proof.
  unfold MetaStore.ListTriggers, reads. simpl. intros [= <-] Ht. apply list_elem_of_omap. exists n.
  split; [apply names_of_elem; by eexists|]. by rewrite Ht.
Qed.

Lemma create_trigger_spec s realm def d :
  (exists r name t tr d', realms d !! realm = Some r /\ TriggerDefs.tjName def = Some name /\ name <> [] /\
     TriggerDefs.Compile name def = Ok t /\
     (Triggers.PolicyName t = [] \/ is_Some (policies (hooks d) !! (RealmID r, Triggers.PolicyName t))) /\
     MetaStore.CreateTrigger (RealmID r) name def d = (Ok tr, d') /\
     run (RealmMgmt.CreateTrigger s realm def) d = ((Ok tr, RealmMgmt.triggersChanged s (RealmID r)), d')) \/
  (exists e d', run (RealmMgmt.CreateTrigger s realm def) d = ((Err e, []), d') /\ same_rows d d').
Proof.
  unfold RealmMgmt.CreateTrigger. cbn [run call exec]. unfold GetRealmByName, reads.
  destruct (realms d !! realm) as [r|] eqn:Er; cbn [or_err]; [|right; by eexists _, d].
  destruct (TriggerDefs.tjName def) as [[|c name]|] eqn:En; [right; by eexists _, d| |right; by eexists _, d].
  destruct (TriggerDefs.Compile (c :: name) def) as [t|e] eqn:Ec; [|destruct e; right; by eexists _, d].
  assert (forall p, (Triggers.PolicyName t = [] \/ is_Some (policies (hooks d) !! (RealmID r, Triggers.PolicyName t))) ->
    p = (let! tr := SCreateTrigger (RealmID r) (c :: name) def catch RealmMgmt.from_store in
         Ret (Ok tr, RealmMgmt.triggersChanged s (RealmID r))) ->
    (exists r0 name0 t0 tr d', Some r = Some r0 /\ Some (c :: name) = Some name0 /\ name0 <> [] /\
       TriggerDefs.Compile name0 def = Ok t0 /\
       (Triggers.PolicyName t0 = [] \/ is_Some (policies (hooks d) !! (RealmID r0, Triggers.PolicyName t0))) /\
       MetaStore.CreateTrigger (RealmID r0) name0 def d = (Ok tr, d') /\
       run p d = ((Ok tr, RealmMgmt.triggersChanged s (RealmID r0)), d')) \/
    (exists e d', run p d = ((Err e, []), d') /\ same_rows d d')) as Hinst.
  { intros p Hpol ->. cbn [run call exec]. destruct (MetaStore.CreateTrigger _ _ _ d) as [[tr|e] d'] eqn:Et.
    - left. exists r, (c :: name), t, tr, d'. by split_and!.
    - right. exists (RealmMgmt.ErrStore e), d'. split; [done|]. unfold MetaStore.CreateTrigger in Et.
      repeat case_match; by simplify_eq. }
  destruct (Triggers.PolicyName t) as [|pc pol] eqn:Epol; [by apply Hinst; [left|]|].
  cbn [run call exec]. unfold MetaStore.GetTriggerPolicy, reads.
  destruct (policies (hooks d) !! (RealmID r, pc :: pol)) as [x|] eqn:Ex; cbn [mbind option_bind or_err]; [|right; by eexists _, d].
  apply Hinst; [by right|done].
Qed.

Lemma create_trigger_rules s realm def d :
  realm_rules d -> realm_rules (run (RealmMgmt.CreateTrigger s realm def) d).2.
Proof.
  intros Hr. destruct (create_trigger_spec s realm def d)
    as [(r & name & t & tr & d' & _ & _ & _ & Hc & Hp & Ht & ->)|(e & d' & -> & Hs)]; [|by eapply same_rows_rules].
  simpl. unfold MetaStore.CreateTrigger in Ht. case_decide; [done|]. destruct (realm_exists d _); [|done]. injection Ht as <- <-.
  destruct Hr as [R1 R2 R3 R4]. split; [done|done| |done]. simpl.
  intros rid n id def' [[[= <- <-] [= <- <-]]|[_ Hk]]%lookup_insert_Some; [by exists t|by eapply R3].
Qed.

Lemma create_policy_rules realm def d : realm_rules d -> realm_rules (run (RealmMgmt.CreatePolicy realm def) d).2.
Proof.
  intros Hr. unfold RealmMgmt.CreatePolicy. cbn [run call exec]. unfold GetRealmByName, reads.
  destruct (realms d !! realm) as [r|]; cbn [or_err]; [|done]. destruct (Policy.CompilePolicy def) as [p|] eqn:Ec; [|done].
  cbn [run call exec]. unfold MetaStore.CreateTriggerPolicy. case_decide; [by apply (same_rows_rules d)|].
  destruct (realm_exists d _); [|by apply (same_rows_rules d)].
  destruct Hr as [R1 R2 R3 R4]. split; [done|done|..]; simpl.
  - intros rid n id def' (t & Hc & Hp)%R3. exists t. split; [done|]. destruct Hp as [?|Hp]; [by left|right].
    apply lookup_insert_is_Some. destruct (decide ((RealmID r, Policy.Name p) = (rid, Triggers.PolicyName t))); auto.
  - intros rid n id def' [[[= <- <-] [= <- <-]]|[_ Hk]]%lookup_insert_Some; [by exists p|by eapply R4].
Qed.

Lemma delete_policy_rules realm name d : realm_rules d -> realm_rules (run (RealmMgmt.DeletePolicy realm name) d).2.
Proof.
  intros Hr. unfold RealmMgmt.DeletePolicy. cbn [run call exec]. unfold GetRealmByName, reads.
  destruct (realms d !! realm) as [r|]; cbn [or_err]; [|done]. cbn [run call exec].
  destruct (MetaStore.ListTriggers (RealmID r) d) as [[l|e] d1] eqn:El; [|unfold MetaStore.ListTriggers, reads in El; by simplify_eq].
  assert (d1 = d) as -> by (unfold MetaStore.ListTriggers, reads in El; by simplify_eq). cbn [call run].
  destruct (List.find (RealmMgmt.references name) l) as [tr|] eqn:Ef; [done|]. cbn [call run exec]. unfold DeleteTriggerPolicy.
  destruct (policies (hooks d) !! (RealmID r, name)) eqn:Ep; [|done]. simpl. destruct Hr as [R1 R2 R3 R4].
  split; [done|done|..]; simpl.
  - intros rid n id def Ht. destruct (R3 _ _ _ _ Ht) as (t & Hc & Hp). exists t. split; [done|].
    destruct Hp as [?|Hp]; [by left|right]. simpl. rewrite lookup_delete_ne; [done|]. intros [= <- ->].
    assert (MkTriggerRow id (RealmID r) n def ∈ l) as Hin by (eapply list_triggers_elem; [by rewrite El|done]).
    apply list_elem_of_In in Hin. apply (List.find_none _ _ Ef) in Hin. unfold RealmMgmt.references in Hin. simpl in Hin.
    rewrite (TriggerDefs.compile_policy_name _ _ _ Hc), bool_decide_eq_true_2 in Hin; done.
  - intros rid n id def [_ Hk]%lookup_delete_Some. by eapply R4.
Qed.

(** ** Requests one after the other *)

(** The guarded handlers, on documents as they are decoded, and any request
    that makes no guarded call of its own. *)
Inductive request : prog () -> Prop :=
| req_install s realm def : aliases def = false -> request (RealmMgmt.after (RealmMgmt.InstallInterface s realm def) (fun _ => ()))
| req_update s realm name major def :
    aliases def = false -> request (RealmMgmt.after (RealmMgmt.UpdateInterface s realm name major def) (fun _ => ()))
| req_create_trigger s realm def : request (RealmMgmt.after (RealmMgmt.CreateTrigger s realm def) (fun _ => ()))
| req_create_policy realm def : request (RealmMgmt.after (RealmMgmt.CreatePolicy realm def) (fun _ => ()))
| req_delete_policy realm name : request (RealmMgmt.after (RealmMgmt.DeletePolicy realm name) (fun _ => ()))
| req_other p : calls_only unguarded p -> request p.

Definition serve (l : list (prog ())) (d : db) : db := foldl (fun d p => (run p d).2) d l.

Lemma request_rules p d : request p -> db_ok d -> realm_rules d -> realm_rules (run p d).2.
Proof.
  intros Hp Hd Hr. destruct Hp; rewrite ?run_after; simpl.
  - by apply install_rules.
  - by apply update_rules.
  - by apply create_trigger_rules.
  - by apply create_policy_rules.
  - by apply delete_policy_rules.
  - by apply unguarded_rules.
Qed.

Lemma serve_rules l d : Forall request l -> db_ok d -> realm_rules d -> db_ok (serve l d) /\ realm_rules (serve l d).
Proof.
  intros Hl. revert d. induction Hl as [|p l Hp Hl IH]; intros d Hd Hr; [done|].
  apply IH; [by apply run_db_ok|by apply request_rules].
Qed.

Lemma empty_rules : realm_rules empty_db.
Proof. split; unfold names_apart, rows_agree; cbn; intros *; [intros [x Hx]|..]; try intros Hx; by apply lookup_empty_Some in Hx. Qed.

(** The other handlers of the service make no guarded call. *)
Lemma other_requests s realm name major device key :
  calls_only unguarded (RealmMgmt.DeleteDevice s realm device) /\
  calls_only unguarded (RealmMgmt.DeleteInterface s realm name major) /\
  calls_only unguarded (RealmMgmt.DeleteTrigger s realm name) /\
  calls_only unguarded (RealmMgmt.SetAuthKey realm key) /\
  calls_only unguarded (RealmMgmt.ListInterfaces realm) /\
  calls_only unguarded (RealmMgmt.ListInterfacesDetailed realm) /\
  calls_only unguarded (RealmMgmt.ListInterfaceMajors realm name) /\
  calls_only unguarded (RealmMgmt.GetInterface realm name major) /\
  calls_only unguarded (RealmMgmt.GetTrigger realm name) /\
  calls_only unguarded (RealmMgmt.ListTriggers realm) /\
  calls_only unguarded (RealmMgmt.GetPolicy realm name) /\
  calls_only unguarded (RealmMgmt.ListPolicies realm) /\
  calls_only unguarded (RealmMgmt.GetAuthKey realm) /\
  calls_only unguarded (RealmMgmt.GetDeviceRegistrationLimit realm) /\
  calls_only unguarded (RealmMgmt.GetDatastreamMaximumStorageRetention realm).
Proof.
  split_and!; unfold RealmMgmt.DeleteDevice, RealmMgmt.DeleteInterface, RealmMgmt.DeleteTrigger, RealmMgmt.SetAuthKey,
    RealmMgmt.ListInterfaces, RealmMgmt.ListInterfacesDetailed, RealmMgmt.ListInterfaceMajors, RealmMgmt.GetInterface,
    RealmMgmt.GetTrigger, RealmMgmt.ListTriggers, RealmMgmt.GetPolicy, RealmMgmt.ListPolicies, RealmMgmt.GetAuthKey,
    RealmMgmt.GetDeviceRegistrationLimit, RealmMgmt.GetDatastreamMaximumStorageRetention, RealmMgmt.good, RealmMgmt.refuse;
    cbv zeta; calls.
Qed.

(** C15. Served one at a time from the migrated schema, whatever the requests are:
    no two interfaces of a realm differ only by case or hyphens, every endpoint
    row carries the attributes of the mapping the stored document declares,
    every stored trigger compiles under its name and names no policy that is
    not there, and every stored policy compiles under its name. *)
Theorem realm_rules_kept l : Forall request l -> realm_rules (serve l empty_db).
Proof. intros Hl. by apply (serve_rules l empty_db Hl empty_db_ok empty_rules). Qed.

(** ** What an upgrade does *)

Lemma load_other d ifs iid eps ni n k :
  k <> iid -> loadEndpoints (with_interfaces ifs (<[iid := eps]> (endpoints d)) ni n d) k = loadEndpoints d k.
Proof. intros Hk. unfold loadEndpoints. simpl. by rewrite lookup_insert_ne. Qed.
Lemma load_put d ifs iid eps ni n :
  loadEndpoints (with_interfaces ifs (<[iid := eps]> (endpoints d)) ni n d) iid = eps.
Proof. unfold loadEndpoints. simpl. by rewrite lookup_insert_eq. Qed.

(** C16. A PUT, run alone on a store that does not fail, either replaces the
    stored document by an additive upgrade of it, keeping the row's id, every
    endpoint row and every other interface, and announces it; or it changes
    nothing and announces nothing, and is refused as an upgrade only when it is
    not an additive one. The document is as decoding gives it: the flag by which
    the parser notes an alias it has replaced is clear. *)
Theorem interface_upgrade_exact s realm name major def d :
  aliases def = false ->
  match run (RealmMgmt.UpdateInterface s realm name major def) d with
  | ((Ok si, told), d') => exists r row prev next canon, upgrade_request d realm name major def r row prev next canon /\
      Compat.additive prev next /\ siID si = ifID row /\ told = RealmMgmt.interfacesChanged s (RealmID r) /\
      interfaces d' = <[(RealmID r, name, major) := MkInterfaceRow (ifID row) (RealmMgmt.canonical def canon)]> (interfaces d) /\
      loadEndpoints d (ifID row) ⊆ loadEndpoints d' (ifID row) /\
      (forall k, k <> ifID row -> loadEndpoints d' k = loadEndpoints d k)
  | ((Err e, told), d') => d' = d /\ told = [] /\
      forall ue, e = RealmMgmt.ErrValidation (RealmMgmt.InvalidUpgrade ue) ->
        exists r row prev next canon, upgrade_request d realm name major def r row prev next canon /\ ~ Compat.additive prev next
  end.
Proof.
  intros Ha. destruct (update_spec s realm name major def d)
    as [(r & row & prev & next & canon & si & d' & Hreq & _ & Hc & Hu & ->)|(e & -> & He)].
  - pose proof Hreq as [_ Hp Hn Hm Hrow [c Hprev]]. destruct (canonical_build _ _ _ Ha Hp) as (c' & Hb & _).
    pose proof (buildInterface_sound _ _ _ Hb) as Hwn. pose proof (buildInterface_sound _ _ _ Hprev) as Hwp.
    exists r, row, prev, next, canon. split; [done|]. split; [by apply Compat.check_upgrade_additive|].
    pose proof Hu as Hu'. apply store_update_ok in Hu as (iface & canon' & row' & eps & n & Hb' & Hrow' & _ & Hf & ->).
    rewrite Hb in Hb'. injection Hb' as <- <-. rewrite Hn, Hm, Hrow in Hrow'. injection Hrow' as <-. split_and!.
    + unfold MetaStore.UpdateInterface in Hu'. rewrite Hb, Hn, Hm, Hrow in Hu'. repeat case_match; by simplify_eq.
    + done.
    + simpl. by rewrite Hn, Hm.
    + rewrite load_put. by apply add_endpoints_rows in Hf as [? _].
    + intros k Hk. by rewrite load_other.
  - split_and!; [done..|]. intros ue (r & row & prev & next & canon & Hreq & Hc)%He.
    exists r, row, prev, next, canon. split; [done|]. destruct Hreq as [_ Hp _ _ _ [c Hprev]].
    destruct (canonical_build _ _ _ Ha Hp) as (c' & Hb & _). intros Hadd.
    apply (Compat.check_upgrade_additive _ _ (buildInterface_sound _ _ _ Hprev) (buildInterface_sound _ _ _ Hb)) in Hadd. congruence.
Qed.

(** ** Why an upgrade is refused *)

Lemma check_mappings_reason table ms ue :
  Forall (fun m => exists key, Compat.has_key m key) ms -> Compat.check_mappings table ms = Err ue ->
  (exists ep, ue = Compat.MissingEndpoint ep) \/ (exists ep attr, ue = Compat.AttributeChanged ep attr).
Proof.
  induction ms as [|m ms IH]; intros Hk; simpl; [done|]. apply Forall_cons in Hk as [[key Hkey] Hk].
  rewrite (proj2 (Compat.normalizedKey_spec m key) Hkey). simpl. destruct (table !! key) as [nm|]; simpl; [|intros [= <-]; eauto].
  destruct (Compat.sameMappingAttributes m nm) as [[]|e] eqn:Es; simpl; [auto|]. intros [= <-].
  unfold Compat.sameMappingAttributes in Es. case_decide; [done|]. injection Es as <-. right. eauto.
Qed.

Definition conflict (e : RealmMgmt.realm_error) : Prop :=
  exists detail, RealmMgmt.writeInterfaceError e = RealmMgmt.Detail 409 detail.

Lemma upgrade_reason prev next ue :
  wf_interface prev -> wf_interface next -> Name next = Name prev -> Major next = Major prev ->
  Compat.CheckMinorUpgrade (Some prev) (Some next) = Err ue ->
  conflict (RealmMgmt.ErrValidation (RealmMgmt.InvalidUpgrade ue)).
Proof.
  intros Hp Hn En Em. unfold Compat.CheckMinorUpgrade, conflict. rewrite bool_decide_eq_true_2, Em, Z.eqb_refl by done. simpl.
  destruct (negb (Minor next =? Minor prev)%Z); simpl; [|intros [= <-]; by eexists].
  destruct (negb (Minor next <? Minor prev)%Z); simpl; [|intros [= <-]; by eexists].
  case_bool_decide; simpl; [|intros [= <-]; by eexists]. case_bool_decide; simpl; [|intros [= <-]; by eexists].
  case_bool_decide; simpl; [|intros [= <-]; by eexists].
  destruct (Compat.index_mappings_spec (Mappings next) ∅) as (table & -> & _).
  { apply Forall_forall. intros m. by apply Compat.wf_has_key. }
  { by apply Compat.wf_distinct_keys. }
  simpl. intros [[ep ->]|(ep & attr & ->)]%check_mappings_reason; [by eexists..|].
  apply Forall_forall. intros m. by apply Compat.wf_has_key.
Qed.

(** C40. A PUT, run alone on a store that does not fail, that the service's check
    refuses as an upgrade changes nothing and is answered 409, as a conflict with
    the installed version. *)
Theorem refused_upgrade_conflicts s realm name major def d ue told d' :
  aliases def = false -> db_ok d ->
  run (RealmMgmt.UpdateInterface s realm name major def) d =
    ((Err (RealmMgmt.ErrValidation (RealmMgmt.InvalidUpgrade ue)), told), d') ->
  d' = d /\ told = [] /\ conflict (RealmMgmt.ErrValidation (RealmMgmt.InvalidUpgrade ue)).
Proof.
  intros Ha Hd Hrun. destruct (update_spec s realm name major def d)
    as [(? & ? & ? & ? & ? & ? & ? & _ & _ & _ & _ & Hr)|(e & Hr & He)]; rewrite Hr in Hrun; simplify_eq.
  destruct (He ue eq_refl) as (r & row & prev & next & canon & [_ Hp Hn Hm Hrow [c Hprev]] & Hc). split_and!; [done..|].
  destruct (canonical_build _ _ _ Ha Hp) as (c' & Hb & _).
  destruct (interface_row _ _ _ _ _ (ok_interfaces _ Hd) _ _ _ _ Hrow) as (es & _ & i0 & c0 & Hb0 & Hn0 & Hm0 & _).
  rewrite Hprev in Hb0. injection Hb0 as <- <-. subst name major.
  by eapply upgrade_reason; [eapply buildInterface_sound..| | |exact Hc].
Qed.

(** ** What an install does *)

Lemma resolve_quality_free raw vc : jQuality raw = None -> (resolve_quality raw vc).1.1 = jOwnership raw.
Proof. unfold resolve_quality. intros ->. by repeat case_match. Qed.

Lemma scan_alias_free rid id def iface canon eps :
  buildInterface def = Ok (iface, canon) -> alias_free def ->
  exists si, scanStoredInterface rid (MkInterfaceRow id def) eps = Some si /\ siDefinition si = def.
Proof.
  intros Hb Ha. pose proof (build_fields _ _ _ Hb) as (H1 & H2 & H3 & H4).
  assert (exists own, jOwnership def = Some own) as [own Hown].
  { unfold buildInterface in Hb. destruct (resolve_quality def _) as [[own0 u1] vc1] eqn:Eq.
    pose proof (resolve_quality_free def (MkViolations [] 0) (proj1 Ha)) as Hf. rewrite Eq in Hf. simpl in Hf.
    destruct (resolve_aggregate def u1 vc1) as [[agg0 u2] vc2]. inv_ok Hb. rewrite <- Hf. destruct own0; [by eexists|done]. }
  unfold scanStoredInterface. simpl. rewrite H1, H2, H3, H4, Hown. simpl. by eexists.
Qed.

(** A POST either stores the document, in its canonical form, under a name and
    a major that were free, with no TTL above the realm's ceiling, announces
    it, and a GET then answers exactly that document; or it changes no row and
    announces nothing. *)
Theorem interface_install_exact s realm def d :
  aliases def = false ->
  match run (RealmMgmt.InstallInterface s realm def) d with
  | ((Ok si, told), d') => exists r iface canon, realms d !! realm = Some r /\
      ParseInterfaceCanonical def = Ok (iface, canon) /\
      interfaces d !! (RealmID r, Name iface, Major iface) = None /\
      (forall ceiling m, DatastreamMaximumStorageRetention r = Some ceiling -> m ∈ Mappings iface ->
         DatabaseRetentionPolicy_ m = UseTTL -> (DatabaseRetentionTTL m <= ceiling)%Z) /\
      told = RealmMgmt.interfacesChanged s (RealmID r) /\
      interfaces d' = <[(RealmID r, Name iface, Major iface) := MkInterfaceRow (next_interface d) (RealmMgmt.canonical def canon)]> (interfaces d) /\
      run (RealmMgmt.GetInterface realm (Name iface) (Major iface)) d' = ((Ok (RealmMgmt.canonical def canon), []), d')
  | ((Err e, told), d') => same_rows d d' /\ told = []
  end.
Proof.
  intros Ha. destruct (install_spec s realm def d)
    as [(r & iface & canon & l & si & d' & Hr & Hp & _ & _ & Ht & Hi & ->)|(e & d' & -> & Hs)]; [|done].
  destruct (canonical_build _ _ _ Ha Hp) as (c & Hb & Hfree).
  apply store_install_ok in Hi as (iface' & canon' & eps & n & Hb' & Hi & Hnone & _ & ->). rewrite Hb in Hb'. injection Hb' as <- <-.
  exists r, iface, canon. split_and!; [done..| |done|done|].
  - intros ceiling m Hc Hm Hpol. unfold RealmMgmt.checkRetentionCeiling in Ht. rewrite Hc in Ht.
    apply negb_true_iff, not_true_iff_false in Ht. rewrite existsb_exists in Ht.
    destruct (Z.le_gt_cases (DatabaseRetentionTTL m) ceiling) as [|Hgt]; [done|]. destruct Ht. exists m.
    split; [by apply list_elem_of_In|]. unfold RealmMgmt.exceeds. rewrite Hpol. by apply Z.ltb_lt.
  - unfold RealmMgmt.GetInterface. cbn [run call exec]. unfold GetRealmByName, reads. cbn [realms with_interfaces]. rewrite Hr.
    cbn [or_err run call exec]. unfold MetaStore.GetInterface, reads. rewrite Hi. cbn [negb interfaces with_interfaces]. rewrite lookup_insert_eq.
    destruct (scan_alias_free (RealmID r) (next_interface d) _ _ _
      (loadEndpoints (with_interfaces (<[(RealmID r, Name iface, Major iface) := MkInterfaceRow (next_interface d) (RealmMgmt.canonical def canon)]> (interfaces d))
           (<[next_interface d := eps]> (endpoints d)) (next_interface d + 1) n d) (next_interface d)) Hb Hfree) as (si' & Hsc & Hdef).
    cbn [ifID]. rewrite Hsc. cbn [or_err run RealmMgmt.good]. by rewrite Hdef.
Qed.

End Rules.

(** ** Samples *)

#[local] Existing Instance TriggerDefs.sample_text.

Definition wired : RealmMgmt.Service := RealmMgmt.MkService true true true true.
Definition quietly {A} (p : prog (RealmMgmt.answer A)) : prog () := RealmMgmt.after p (fun _ => ()).

Definition sample_trigger : TriggerDefs.triggerJSON :=
  TriggerDefs.MkTriggerJSON (Some "t"%go) (Some TriggerDefs.sample_http) (Some "retry.5xx"%go)
    (Some [Triggers.MkConfig "device_trigger"%go "device_connected"%go [] [] None None [] [] None]).

Definition create_sample : prog () := all_calls [existT _ (SCreateRealm sample_realm)].
Definition sample_requests : list (prog ()) :=
  [create_sample; quietly (RealmMgmt.InstallInterface wired "test"%go sample_v1);
   quietly (RealmMgmt.UpdateInterface wired "test"%go "org.Test"%go 0 sample_v2);
   quietly (RealmMgmt.CreatePolicy "test"%go (Policy.sample_doc None));
   quietly (RealmMgmt.CreateTrigger wired "test"%go sample_trigger);
   quietly (RealmMgmt.DeletePolicy "test"%go "retry.5xx"%go)].

Lemma sample_requests_ok : Forall request sample_requests.
Proof.
  unfold sample_requests. repeat constructor.
Qed.

Definition kept_all (d : db) : bool :=
  bool_decide (is_Some (policies (hooks d) !! (1%Z, "retry.5xx"%go))) &&
  bool_decide (is_Some (triggers (hooks d) !! (1%Z, "t"%go))) &&
  bool_decide (is_Some (loadEndpoints d 1 !! "/state"%go)).

Lemma realm_rules_kept_witness :
  kept_all (serve sample_requests empty_db) = true /\ realm_rules (serve sample_requests empty_db).
Proof. split; [vm_compute; reflexivity|exact (realm_rules_kept sample_requests sample_requests_ok)]. Defined.

Definition one_interface : db := serve (take 2 sample_requests) empty_db.

Definition answered {A} (r : RealmMgmt.answer A * db) : option (list RealmMgmt.effect) :=
  match r with ((Ok _, told), _) => Some told | _ => None end.

Lemma interface_upgrade_exact_witness :
  answered (run (RealmMgmt.UpdateInterface wired "test"%go "org.Test"%go 0 sample_v2) one_interface) =
    Some [RealmMgmt.NotifyInterfacesChanged 1; RealmMgmt.RefreshInterfaces 1] /\
  exists prev next, Compat.additive prev next.
Proof.
  pose proof (interface_upgrade_exact wired "test"%go "org.Test"%go 0 sample_v2 one_interface eq_refl) as Ht.
  assert (answered (run (RealmMgmt.UpdateInterface wired "test"%go "org.Test"%go 0 sample_v2) one_interface) =
    Some [RealmMgmt.NotifyInterfacesChanged 1; RealmMgmt.RefreshInterfaces 1]) as Ha by (vm_compute; reflexivity).
  split; [exact Ha|].
  destruct (run (RealmMgmt.UpdateInterface wired "test"%go "org.Test"%go 0 sample_v2) one_interface) as [[[si|e] told] d'].
  - destruct Ht as (r & row & prev & next & canon & _ & Hadd & _). exists prev, next. exact Hadd.
  - discriminate Ha.
Defined.

Lemma interface_install_exact_witness :
  answered (run (RealmMgmt.InstallInterface wired "test"%go sample_v1) (serve [create_sample] empty_db)) =
    Some [RealmMgmt.NotifyInterfacesChanged 1; RealmMgmt.RefreshInterfaces 1] /\
  exists iface canon, ParseInterfaceCanonical sample_v1 = Ok (iface, canon).
Proof.
  pose proof (interface_install_exact wired "test"%go sample_v1 (serve [create_sample] empty_db) eq_refl) as Ht.
  assert (answered (run (RealmMgmt.InstallInterface wired "test"%go sample_v1) (serve [create_sample] empty_db)) =
    Some [RealmMgmt.NotifyInterfacesChanged 1; RealmMgmt.RefreshInterfaces 1]) as Ha by (vm_compute; reflexivity).
  split; [exact Ha|].
  destruct (run (RealmMgmt.InstallInterface wired "test"%go sample_v1) (serve [create_sample] empty_db)) as [[[si|e] told] d'].
  - destruct Ht as (r & iface & canon & _ & Hp & _). exists iface, canon. exact Hp.
  - discriminate Ha.
Defined.

Definition shrunk : interfaceJSON := sample_doc "org.Test"%go 0 2 [sample_mapping "/other"%go Double].

Lemma one_interface_ok : db_ok one_interface.
Proof. repeat apply run_db_ok. apply empty_db_ok. Qed.

Lemma refused_upgrade_conflicts_witness :
  conflict (RealmMgmt.ErrValidation (RealmMgmt.InvalidUpgrade (Compat.MissingEndpoint "/value"%go))).
Proof.
  apply (refused_upgrade_conflicts wired "test"%go "org.Test"%go 0 shrunk one_interface
    (Compat.MissingEndpoint "/value"%go) [] one_interface eq_refl one_interface_ok).
  rewrite (surjective_pairing (run _ _)). f_equal; vm_compute; reflexivity.
Defined.

(** ** Requests together *)

(** Two installs that each look before the other writes leave two names that
    differ only by case. *)
Theorem name_collision_race :
  let w := schedule [0; 0; 1; 1; 0; 1]
    (MkWorld (serve [create_sample] empty_db)
       [quietly (RealmMgmt.InstallInterface wired "test"%go sample_v1);
        quietly (RealmMgmt.InstallInterface wired "test"%go (sample_doc "org.test"%go 0 1 [sample_mapping "/value"%go Double]))]) in
  ~ names_apart (wdb w).
Proof.
  intros w Hn. assert ("org.Test"%go = "org.test"%go); [|done].
  apply (Hn 1%Z _ 0%Z _ 0%Z); [apply (bool_decide_eq_true_1 (is_Some _)); vm_compute; reflexivity..|vm_compute; reflexivity].
Qed.

Definition sample_v3 : interfaceJSON :=
  sample_doc "org.Test"%go 0 3 [sample_mapping "/value"%go Double; sample_mapping "/state"%go Integer].

(** Two upgrades checked against the same stored version both apply: the
    endpoint row keeps the type of the first while the document declares the
    second's. *)
Theorem upgrade_race :
  let w := schedule [0; 0; 1; 1; 0; 1]
    (MkWorld one_interface
       [quietly (RealmMgmt.UpdateInterface wired "test"%go "org.Test"%go 0 sample_v2);
        quietly (RealmMgmt.UpdateInterface wired "test"%go "org.Test"%go 0 sample_v3)]) in
  (epType <$> loadEndpoints (wdb w) 1 !! "/state"%go) = Some Boolean /\
  (interfaces (wdb w) !! (1%Z, "org.Test"%go, 0%Z)) = Some (MkInterfaceRow 1 sample_v3) /\ ~ rows_agree (wdb w).
Proof.
  intros w. assert ((epType <$> loadEndpoints (wdb w) 1 !! "/state"%go) = Some Boolean) as He by (vm_compute; reflexivity).
  assert ((interfaces (wdb w) !! (1%Z, "org.Test"%go, 0%Z)) = Some (MkInterfaceRow 1 sample_v3)) as Hr by (vm_compute; reflexivity).
  clearbody w. split; [exact He|]. split; [exact Hr|]. intros Hag.
  destruct (buildInterface sample_v3) as [[iface canon]|] eqn:Eb; [|vm_compute in Eb; discriminate Eb].
  destruct (loadEndpoints (wdb w) 1 !! "/state"%go) as [e|] eqn:El; [|discriminate He]. injection He as He.
  destruct (Mappings iface !! 1) as [m|] eqn:Em; [|vm_compute in Eb; injection Eb as <- _; discriminate Em].
  assert (Endpoint m = "/state"%go /\ Type_ m = Integer) as [Hep Hty].
  { clear -Eb Em. vm_compute in Eb. injection Eb as <- _. injection Em as <-. split; reflexivity. }
  specialize (Hag _ _ _ _ m e Hr Eb (list_elem_of_lookup_2 _ _ _ Em)). rewrite Hep in Hag. specialize (Hag El).
  rewrite Hag in He. simpl in He. congruence.
Qed.

(** A trigger created while its policy is deleted is left naming a policy that
    is gone. *)
Theorem policy_race :
  let w := schedule [0; 0; 1; 1; 1; 0]
    (MkWorld (serve (take 4 sample_requests) empty_db)
       [quietly (RealmMgmt.CreateTrigger wired "test"%go sample_trigger);
        quietly (RealmMgmt.DeletePolicy "test"%go "retry.5xx"%go)]) in
  bool_decide (is_Some (triggers (hooks (wdb w)) !! (1%Z, "t"%go))) = true /\
  policies (hooks (wdb w)) !! (1%Z, "retry.5xx"%go) = None.
Proof. intros w. split; vm_compute; reflexivity. Qed.

(** Renaming a placeholder is an additive upgrade, and the request that does
    it is answered with an internal error: the store pairs endpoints by their
    text. *)
Theorem placeholder_rename_fails :
  let v minor ph := sample_doc "org.Test"%go 0 minor [sample_mapping ph Double] in
  let d := serve [create_sample; quietly (RealmMgmt.InstallInterface wired "test"%go (v 1%Z "/%{a}/x"%go))] empty_db in
  (match buildInterface (v 1%Z "/%{a}/x"%go), buildInterface (v 2%Z "/%{b}/x"%go) with
   | Ok (prev, _), Ok (next, _) => Compat.CheckMinorUpgrade (Some prev) (Some next)
   | _, _ => Err Compat.UpgradeNil
   end) = Ok () /\
  (run (RealmMgmt.updateInterface wired "test"%go "org.Test"%go "0"%go (Some (v 2%Z "/%{b}/x"%go))) d).1 =
    (RealmMgmt.InternalServerError, []).
Proof. split; vm_compute; reflexivity. Qed.

End RealmRules.
