(* ===== verification/Housekeeping.v ===== *)
(** * Housekeeping

    [internal/housekeeping/service.go] and the answers of
    [internal/housekeeping/http.go]: realms are created with an authority of
    their own, patched, listed and deleted. The broker's reload after a change
    is reported beside the answer; its failure is only logged. *)

From S2P Require Import Prelude GoStrings DeviceID SchemaTypes Endpoints InterfaceParse Broker Topics ByteOrder Auth.
From S2P Require Import Policy Triggers TriggerDefs MetaStore MetaWorld Pairing RealmMgmt RealmRules.

Module Housekeeping.
Import ByteOrder MetaStore MetaWorld.

(** ** The service *)

Inductive hk_invalid := BlankName | BlankKey | NegativeLimit | NegativeRetention | InvalidName.
Inductive hk_error :=
| ErrValidation (r : hk_invalid)
| ErrDeletionDisabled
| ErrConnectedDevicesPresent
| ErrMint
| ErrStore (e : store_error).

Record RealmView := MkRealmView {
  vName : gostring;
  vJWTPublicKeyPEM : gostring;
  vDeviceRegistrationLimit : option Z;
  vDatastreamMaximumStorageRetention : option Z;
}.

Record Service := MkService {
  reloader : bool;
  defaultRetention : option Z;
  deletionDisabled : bool;
}.

(** Whether [ReloadRealms] was called. *)
Definition answer (A : Type) : Type := result hk_error A * bool.
Abbreviation reply A := (prog (answer A)).
Definition refuse {A} (e : hk_error) : reply A := Ret (Err e, false).
Definition from_store {A} (e : store_error) : answer A := (Err (ErrStore e), false).

Definition view (name : gostring) (r : Realm) : RealmView :=
  MkRealmView name (default [] (head (JWTPublicKeysPEM r))) (DeviceRegistrationLimit r) (DatastreamMaximumStorageRetention r).

Definition negative (o : option Z) : bool := match o with Some v => (v <? 0)%Z | None => false end.

(** What minting draws: the key pair, its identifier, the serial and the nonce
    of the seal. *)
Record draw := MkDraw { dKey : gostring; dPub : gostring; dSki : gostring; dSerial : Z; dNonce : gostring }.

Section Service.
Context `{Collation} `{Pairing.Crypto}.

Definition CreateRealm (s : Service) (name jwtPublicKeyPEM : gostring) (regLimit retention : option Z)
    (drawn : option draw) (at_ : Z) : reply RealmView :=
  if decide (name = []) then refuse (ErrValidation BlankName)
  else if decide (jwtPublicKeyPEM = []) then refuse (ErrValidation BlankKey)
  else if negative regLimit then refuse (ErrValidation NegativeLimit)
  else if negative retention then refuse (ErrValidation NegativeRetention)
  else
    let retention := match retention with None => defaultRetention s | Some _ => retention end in
    match drawn with
    | None => refuse ErrMint
    | Some dr =>
        let ca := Pairing.Generate name 0 at_ (dKey dr) (dPub dr) (dSki dr) (dSerial dr) in
        let sealed := Pairing.Seal (dNonce dr) (Pairing.keyDER ca) in
        let! r := SCreateRealm (MkNewRealm name [jwtPublicKeyPEM] (Pairing.certPEM ca) sealed regLimit retention) catch
          (fun e => match e with ErrInvalidRealmName => (Err (ErrValidation InvalidName), false) | _ => from_store e end) in
        Ret (Ok (view name r), reloader s)
    end.

Definition UpdateRealm (name : gostring) (p : RealmPatch) : reply () :=
  if PatchJWTPublicKeyPEM p && bool_decide (SetJWTPublicKeyPEM p = []) then refuse (ErrValidation BlankKey)
  else if PatchRegistrationLimit p && (SetRegistrationLimit p <? 0)%Z then refuse (ErrValidation NegativeLimit)
  else if PatchRetention p && (SetRetention p <? 0)%Z then refuse (ErrValidation NegativeRetention)
  else let! _ := SUpdateRealm name p catch from_store in Ret (Ok (), false).

Definition GetRealm (name : gostring) : reply RealmView :=
  let! r := SGetRealmByName name catch from_store in Ret (Ok (view name r), false).

Definition ListRealms : reply (list gostring) :=
  let! names := SListRealms catch from_store in Ret (Ok (sort_bytes names), false).

Definition DeleteRealm (s : Service) (name : gostring) : reply () :=
  if deletionDisabled s then refuse ErrDeletionDisabled
  else
    let! r := SGetRealmByName name catch from_store in
    let! (_, connected) := SDeviceStats (RealmID r) catch from_store in
    if (0 <? connected)%Z then refuse ErrConnectedDevicesPresent
    else let! _ := SDeleteRealm name catch from_store in Ret (Ok (), reloader s).

(** ** PATCH *)

(** A field of the body: absent, null, or a value. *)
Inductive opt (A : Type) := Absent | Null | Val (a : A).
#[global] Arguments Absent {A}.
#[global] Arguments Null {A}.
#[global] Arguments Val {A} a.

Record patchBody := MkPatchBody {
  pbJWTPublicKeyPEM : opt gostring;
  pbDeviceRegistrationLimit : opt Z;
  pbDatastreamMaximumStorageRetention : opt Z;
}.

(** The request: [None] is a body that is too large or not an object under
    [data]; then its member names, and the typed view unless a member has
    another type. *)
Record patchRequest := MkPatchRequest { prFields : list gostring; prBody : option patchBody }.

Definition patchAllowedFields : list gostring :=
  ["jwt_public_key_pem"%go; "device_registration_limit"%go; "datastream_maximum_storage_retention"%go].

Inductive response :=
| Status (status : Z)
| Detail (status : Z) (detail : gostring)
| FieldErrors (status : Z) (field message : gostring)
| Unprocessable (r : hk_invalid).

Definition BadRequest : response := Detail 400 "Bad request"%go.

Definition writeError (e : hk_error) : response :=
  match e with
  | ErrDeletionDisabled => Detail 405 "Realm deletion disabled"%go
  | ErrConnectedDevicesPresent => FieldErrors 422 "error_name"%go "connected_devices_present"%go
  | ErrValidation r => Unprocessable r
  | ErrStore ErrAlreadyExists => Detail 409 "Realm already exists"%go
  | ErrStore ErrNotFound => Detail 404 "Not Found"%go
  | _ => Detail 500 "Internal server error"%go
  end.

(** A null key decodes to the empty string. *)
Definition realm_update (pb : patchBody) : RealmPatch :=
  let '(pj, sj) := match pbJWTPublicKeyPEM pb with Absent => (false, []) | Null => (true, []) | Val k => (true, k) end in
  let '(pl, sl, cl) := match pbDeviceRegistrationLimit pb with
    | Absent => (false, 0%Z, false) | Null => (false, 0%Z, true) | Val v => (true, v, false) end in
  let '(pr, sr, cr) := match pbDatastreamMaximumStorageRetention pb with
    | Absent => (false, 0%Z, false) | Null => (false, 0%Z, true)
    | Val v => if (v =? 0)%Z then (false, 0%Z, true) else (true, v, false) end in
  MkRealmPatch pj sj pl sl cl pr sr cr.

Definition blank_key (o : opt gostring) : bool :=
  match o with Absent => false | Null => true | Val k => bool_decide (k = []) end.
Definition below_zero (o : opt Z) : bool := match o with Val v => (v <? 0)%Z | _ => false end.

Definition patchRealm (name : gostring) (req : option patchRequest) : prog response :=
  match req with
  | None => Ret BadRequest
  | Some req =>
      if negb (forallb (fun k => bool_decide (k ∈ patchAllowedFields)) (prFields req))
      then Ret (FieldErrors 422 "error_name"%go "invalid_update_parameters"%go)
      else match prBody req with
      | None => Ret BadRequest
      | Some pb =>
          if blank_key (pbJWTPublicKeyPEM pb) then Ret (FieldErrors 422 "jwt_public_key_pem"%go "can't be blank"%go)
          else if below_zero (pbDeviceRegistrationLimit pb) then Ret (FieldErrors 422 "device_registration_limit"%go "is invalid"%go)
          else if below_zero (pbDatastreamMaximumStorageRetention pb)
          then Ret (FieldErrors 422 "datastream_maximum_storage_retention"%go "is invalid"%go)
          else RealmMgmt.after (UpdateRealm name (realm_update pb))
                 (fun a => match a.1 with Ok _ => Status 200 | Err e => writeError e end)
      end
  end.

(** ** A created realm *)

Lemma load_generated `{!Pairing.CryptoLaws} name at_ dr id keys limit retention created :
  length (dNonce dr) = Pairing.NonceSize -> Pairing.ParsePKCS8 (dKey dr) = Some (dPub dr) ->
  let ca := Pairing.Generate name 0 at_ (dKey dr) (dPub dr) (dSki dr) (dSerial dr) in
  Pairing.loadCA (MkRealmRow id keys (Pairing.certPEM ca) (Pairing.Seal (dNonce dr) (Pairing.keyDER ca)) limit retention created) = Some ca.
Proof.
  intros Hn Hk ca. unfold Pairing.loadCA. cbn [CAPrivateKeySealed CACertificatePEM]. rewrite Pairing.open_seal by done.
  simpl. unfold Pairing.Load. rewrite Pairing.parse_encode. simpl. rewrite Hk. simpl. by rewrite decide_True.
Qed.

Lemma loadCA_fields (r r' : Realm) :
  CAPrivateKeySealed r = CAPrivateKeySealed r' -> CACertificatePEM r = CACertificatePEM r' -> Pairing.loadCA r = Pairing.loadCA r'.
Proof. unfold Pairing.loadCA. by intros -> ->. Qed.

(** A realm that is created can be read back as it was answered, its stored
    authority opens and loads to the one that was minted, so its devices can
    be issued certificates, and no other realm is touched. *)
Theorem created_realm_works `{!Pairing.CryptoLaws} s name key limit retention dr at_ d v reload d' :
  length (dNonce dr) = Pairing.NonceSize -> Pairing.ParsePKCS8 (dKey dr) = Some (dPub dr) ->
  run (CreateRealm s name key limit retention (Some dr) at_) d = ((Ok v, reload), d') ->
  exists r, realms d !! name = None /\ realms d' = <[name := r]> (realms d) /\ devices d' = devices d /\
    reload = reloader s /\ v = MkRealmView name key limit (match retention with None => defaultRetention s | Some _ => retention end) /\
    run (GetRealm name) d' = ((Ok v, false), d') /\
    Pairing.loadCA r = Some (Pairing.Generate name 0 at_ (dKey dr) (dPub dr) (dSki dr) (dSerial dr)).
Proof.
  intros Hn Hk. unfold CreateRealm. case_decide; [done|]. case_decide; [done|]. destruct (negative limit); [done|].
  destruct (negative retention); [done|]. cbn [run call exec]. unfold MetaStore.CreateRealm.
  destruct (_ <? _)%Z; [done|]. cbn [nrName]. destruct (realm_name_ok name); [|done]. cbn [negb]. case_decide as Hs; [done|].
  rewrite <- eq_None_not_Some in Hs. cbn [run nrJWTPublicKeysPEM nrCACertificatePEM nrCAPrivateKeySealed nrDeviceRegistrationLimit nrDatastreamMaximumStorageRetention].
  intros [= <- <- <-]. eexists. split; [done|]. split; [reflexivity|]. split_and!; [done..| |].
  - unfold GetRealm. cbn [run call exec]. unfold GetRealmByName, reads. cbn [realms]. by rewrite lookup_insert_eq.
  - rewrite <- (load_generated name at_ dr (next_realm d) [key] limit retention 0 Hn Hk). by apply loadCA_fields.
Qed.

(** ** A patched realm *)

(** The row a patch leaves. *)
Definition patched (pb : patchBody) (r : Realm) : Realm :=
  MkRealmRow (RealmID r)
    (match pbJWTPublicKeyPEM pb with Val k => [k] | _ => JWTPublicKeysPEM r end)
    (CACertificatePEM r) (CAPrivateKeySealed r)
    (match pbDeviceRegistrationLimit pb with Absent => DeviceRegistrationLimit r | Null => None | Val v => Some v end)
    (match pbDatastreamMaximumStorageRetention pb with
     | Absent => DatastreamMaximumStorageRetention r | Null => None
     | Val v => if (v =? 0)%Z then None else Some v end)
    (CreatedAt r).
Definition empty_patch (pb : patchBody) : bool :=
  match pbJWTPublicKeyPEM pb, pbDeviceRegistrationLimit pb, pbDatastreamMaximumStorageRetention pb with
  | Absent, Absent, Absent => true
  | _, _, _ => false
  end.
Record patch_valid (pb : patchBody) : Prop := {
  pv_key : blank_key (pbJWTPublicKeyPEM pb) = false;
  pv_limit : below_zero (pbDeviceRegistrationLimit pb) = false;
  pv_retention : below_zero (pbDatastreamMaximumStorageRetention pb) = false;
}.

Lemma update_valid pb name d : patch_valid pb ->
  run (UpdateRealm name (realm_update pb)) d =
  match MetaStore.UpdateRealm name (realm_update pb) d with (Ok _, d') => ((Ok (), false), d') | (Err e, d') => (from_store e, d') end.
Proof.
  intros [Hk Hl Hr]. unfold UpdateRealm.
  assert ((PatchJWTPublicKeyPEM (realm_update pb) && bool_decide (SetJWTPublicKeyPEM (realm_update pb) = [])) = false /\
          (PatchRegistrationLimit (realm_update pb) && (SetRegistrationLimit (realm_update pb) <? 0)%Z) = false /\
          (PatchRetention (realm_update pb) && (SetRetention (realm_update pb) <? 0)%Z) = false) as (-> & -> & ->).
  { destruct pb as [pj pl pr]. unfold realm_update. cbn in *.
    destruct pj, pl, pr; cbn in *; try (destruct (_ =? 0)%Z eqn:?); cbn; split_and!; done. }
  cbn [run call exec]. by destruct (MetaStore.UpdateRealm _ _ d) as [[[]|e] d'].
Qed.

Lemma patch_columns_apply pb r : patch_valid pb ->
  foldl (fun r f => f r) r (patch_columns (realm_update pb)) = patched pb r /\
  (patch_columns (realm_update pb) = [] <-> empty_patch pb = true).
Proof.
  intros [Hk Hl Hr]. destruct pb as [pj pl pr], r. unfold realm_update, patched, empty_patch. cbn in *.
  destruct pj, pl, pr as [| |v]; cbn in *; try discriminate Hk; try (destruct (Z.eqb_spec v 0) as [->|]; cbn);
    try (destruct (Z.leb_spec v 0) as [|]; cbn; [apply Z.ltb_ge in Hr; lia|]); by split.
Qed.

(** A valid PATCH of allowed fields changes exactly the fields it names: an
    absent field stays, null removes a limit, a retention of zero removes the
    ceiling; nothing else of the realm and no other row changes. An unknown
    realm is answered 404 unless the patch is empty, which is always answered
    200. *)
Theorem realm_patch_exact name fields pb d :
  forallb (fun k => bool_decide (k ∈ patchAllowedFields)) fields = true -> patch_valid pb ->
  run (patchRealm name (Some (MkPatchRequest fields (Some pb)))) d =
  match realms d !! name with
  | Some r => (Status 200, with_realms (<[name := patched pb r]> (realms d)) d)
  | None => (if empty_patch pb then Status 200 else Detail 404 "Not Found"%go, d)
  end.
Proof.
  intros Hf Hv. unfold patchRealm. cbn [prFields prBody]. rewrite Hf. cbn [negb]. pose proof Hv as [-> -> ->].
  rewrite RealmRules.run_after, update_valid by done. unfold MetaStore.UpdateRealm.
  destruct (patch_columns (realm_update pb)) as [|c cs] eqn:Ec.
  - cbn. destruct (realms d !! name) as [r|] eqn:Er.
    + destruct (patch_columns_apply pb r Hv) as [Hp _]. rewrite Ec in Hp. cbn in Hp. rewrite <- Hp, insert_id by done. by destruct d.
    + destruct (patch_columns_apply pb (MkRealmRow 0 [] [] [] None None 0) Hv) as [_ Hp]. by rewrite (proj1 Hp Ec).
  - unfold update_realm. destruct (realms d !! name) as [r|] eqn:Er.
    + rewrite <- Ec, (proj1 (patch_columns_apply pb r Hv)). done.
    + destruct (patch_columns_apply pb (MkRealmRow 0 [] [] [] None None 0) Hv) as [_ Hp].
      destruct (empty_patch pb); [by rewrite (proj2 Hp eq_refl) in Ec|done].
Qed.

(** ** A deleted realm *)

(** Nothing of the realm is left. *)
Record no_trace (rid : Z) (d : db) : Prop := {
  nt_devices : forall id, devices d !! (rid, id) = None;
  nt_groups : forall n, groups d !! (rid, n) = None;
  nt_members : forall k, group_devices d !! k <> Some rid;
  nt_interfaces : forall n m, interfaces d !! (rid, n, m) = None;
  nt_triggers : forall n, triggers (hooks d) !! (rid, n) = None;
  nt_policies : forall n, policies (hooks d) !! (rid, n) = None;
  nt_individual : Forall (fun x => srRealm x <> rid) (individual_datastreams (data d));
  nt_object : Forall (fun x => srRealm x <> rid) (object_datastreams (data d));
  nt_properties : forall id i p, (rid, id, i, p) ∉ property_rows (data d);
  nt_pipelines : forall n, (rid, n) ∉ pipeline_rows (data d);
  nt_flows : forall n, (rid, n) ∉ flow_rows (data d);
  nt_user_blocks : forall n, (rid, n) ∉ user_block_rows (data d);
}.
(** Nor are the endpoints of its interfaces. *)
Definition endpoints_gone (rid : Z) (d d' : db) : Prop :=
  forall n m row, interfaces d !! (rid, n, m) = Some row -> endpoints d' !! ifID row = None.
(** The datastream rows of a realm, in their order. *)
Definition rows_of (rid : Z) (l : list SeriesRow) : list SeriesRow := filter (fun x => srRealm x = rid) l.

(** The rows of every other realm are the same. *)
Record others_kept (rid : Z) (d d' : db) : Prop := {
  ok_dev : forall r id, r <> rid -> devices d' !! (r, id) = devices d !! (r, id);
  ok_grp : forall r n, r <> rid -> groups d' !! (r, n) = groups d !! (r, n);
  ok_mem : forall k r, r <> rid -> group_devices d' !! k = Some r <-> group_devices d !! k = Some r;
  ok_ifs : forall r n m, r <> rid -> interfaces d' !! (r, n, m) = interfaces d !! (r, n, m);
  ok_eps : forall r n m row, r <> rid -> interfaces d !! (r, n, m) = Some row ->
    loadEndpoints d' (ifID row) = loadEndpoints d (ifID row);
  ok_trg : forall r n, r <> rid -> triggers (hooks d') !! (r, n) = triggers (hooks d) !! (r, n);
  ok_pol : forall r n, r <> rid -> policies (hooks d') !! (r, n) = policies (hooks d) !! (r, n);
  ok_ind : forall r, r <> rid -> rows_of r (individual_datastreams (data d')) = rows_of r (individual_datastreams (data d));
  ok_obj : forall r, r <> rid -> rows_of r (object_datastreams (data d')) = rows_of r (object_datastreams (data d));
  ok_prp : forall r id i p, r <> rid -> (r, id, i, p) ∈ property_rows (data d') <-> (r, id, i, p) ∈ property_rows (data d);
  ok_pip : forall r n, r <> rid -> (r, n) ∈ pipeline_rows (data d') <-> (r, n) ∈ pipeline_rows (data d);
  ok_flw : forall r n, r <> rid -> (r, n) ∈ flow_rows (data d') <-> (r, n) ∈ flow_rows (data d);
  ok_usr : forall r n, r <> rid -> (r, n) ∈ user_block_rows (data d') <-> (r, n) ∈ user_block_rows (data d);
}.

Lemma filter_keep {K A} `{Countable K} (P : K * A -> Prop) `{forall x, Decision (P x)} (m : gmap K A) k :
  (forall a, P (k, a)) -> filter P m !! k = m !! k.
Proof.
  intros HP. destruct (m !! k) as [a|] eqn:E.
  - by apply map_lookup_filter_Some.
  - apply map_lookup_filter_None. by left.
Qed.
Lemma filter_drop {K A} `{Countable K} (P : K * A -> Prop) `{forall x, Decision (P x)} (m : gmap K A) k :
  (forall a, ~ P (k, a)) -> filter P m !! k = None.
Proof. intros HP. apply map_lookup_filter_None. right. auto. Qed.

Lemma swept_rows rid l : Forall (fun x => srRealm x <> rid) (filter (fun x => srRealm x <> rid) l).
Proof. apply Forall_forall. by intros x [Hx _]%list_elem_of_filter. Qed.
Lemma kept_rows rid r l : r <> rid -> rows_of r (filter (fun x => srRealm x <> rid) l) = rows_of r l.
Proof.
  intros Hr. unfold rows_of. rewrite list_filter_filter. apply list_filter_iff. intros x. split; [by intros [? _]|].
  intros <-. done.
Qed.

Lemma delete_realm_rows name r d :
  db_ok d -> realms d !! name = Some r ->
  exists d', MetaStore.DeleteRealm name d = (Ok (), d') /\ realms d' = delete name (realms d) /\
    no_trace (RealmID r) d' /\ endpoints_gone (RealmID r) d d' /\ others_kept (RealmID r) d d'.
Proof.
  intros Hd Hr. pose proof (RealmRules.DeleteRealm_shrinks name d Hd) as Hs. unfold MetaStore.DeleteRealm in *. rewrite Hr in *.
  eexists. split; [reflexivity|]. simpl in Hs. split; [done|]. split_and!.
  - split; simpl; intros; try (apply swept_rows); try (apply filter_drop; simpl; intros; naive_solver).
    { intros [_ Hn]%map_lookup_filter_Some. by simpl in Hn. }
    all: rewrite elem_of_filter; simpl; intros [Hn _]; done.
  - intros n m row Hrow. apply map_lookup_filter_None. right. intros es _ Hn. apply Hn. apply list_elem_of_fmap.
    exists row. split; [done|]. apply list_elem_of_fmap. exists ((RealmID r, n, m), row). split; [done|].
    by apply elem_of_map_to_list, map_lookup_filter_Some.
  - split; simpl; intros; try (by apply kept_rows); try (apply filter_keep; simpl; done);
      try (rewrite elem_of_filter; simpl; split; [by intros [_ ?]|done]).
    + rewrite map_lookup_filter_Some. naive_solver.
    + assert (interfaces d !! (r0, n, m) = Some row) as Hrow by done.
      apply (RealmRules.sh_endpoints _ _ Hs (r0, n, m)). by apply map_lookup_filter_Some.
Qed.

(** C38. A realm is deleted only when deletion is enabled and none of its devices
    is connected; then nothing of it is left: no device, group, membership,
    interface, endpoint, trigger, policy, datastream row, property, pipeline,
    flow or user block; every row of the other realms is as before, and the
    broker is told. Otherwise nothing changes. The request runs alone and the
    store does not fail. *)
Theorem realm_deleted_whole s name d :
  db_ok d ->
  match run (DeleteRealm s name) d with
  | ((Ok _, reload), d') => exists r, realms d !! name = Some r /\ deletionDisabled s = false /\ reload = reloader s /\
      (forall id dev, devices d !! (RealmID r, id) = Some dev -> Connected dev = false) /\
      realms d' = delete name (realms d) /\ no_trace (RealmID r) d' /\ endpoints_gone (RealmID r) d d' /\
      others_kept (RealmID r) d d'
  | ((Err e, reload), d') => d' = d /\ reload = false /\
      (e = ErrStore ErrNotFound <-> realms d !! name = None /\ deletionDisabled s = false)
  end.
Proof.
  intros Hd. unfold DeleteRealm. destruct (deletionDisabled s) eqn:Es; [split_and!; [done..|naive_solver]|].
  cbn [run call exec]. unfold GetRealmByName, reads. destruct (realms d !! name) as [r|] eqn:Er; cbn [or_err]; [|by split_and!].
  cbn [run call exec]. unfold DeviceStats, reads. set (mine := filter _ (map_to_list (devices d))).
  destruct (0 <? _)%Z eqn:Ec; [split_and!; [done..|naive_solver]|].
  cbn [run call exec]. destruct (delete_realm_rows name r d Hd Er) as (d' & Hdel & H1 & H2 & H3 & H4). rewrite Hdel. cbn [run].
  exists r. split_and!; [done..| |done|done|done|done]. intros id dev Hdev. destruct (Connected dev) eqn:Econ; [|done]. exfalso.
  apply Z.ltb_ge in Ec. assert ((RealmID r, id, dev) ∈ filter (fun x => Connected x.2 = true) mine) as Hin.
  { apply list_elem_of_filter. split; [done|]. apply list_elem_of_filter. split; [done|]. by apply elem_of_map_to_list. }
  destruct (filter _ mine); [by apply elem_of_nil in Hin|simpl in Ec; lia].
Qed.

(** Housekeeping makes no guarded call. *)
Lemma housekeeping_unguarded s name key limit retention drawn at_ p :
  RealmRules.calls_only RealmRules.unguarded (CreateRealm s name key limit retention drawn at_) /\
  RealmRules.calls_only RealmRules.unguarded (UpdateRealm name p) /\
  RealmRules.calls_only RealmRules.unguarded (DeleteRealm s name) /\
  RealmRules.calls_only RealmRules.unguarded (GetRealm name) /\
  RealmRules.calls_only RealmRules.unguarded ListRealms.
Proof.
  split_and!; unfold CreateRealm, UpdateRealm, DeleteRealm, GetRealm, ListRealms, refuse; cbv zeta; RealmRules.calls.
Qed.

End Service.

(** ** Samples *)

#[local] Existing Instance Pairing.sample_crypto.
#[local] Existing Instance Pairing.sample_laws.

Definition plain_service : Service := MkService true None false.
Definition sample_draw : draw := MkDraw "key"%go "key"%go "ski"%go 7 (replicate 12 "n"%char).
Definition create_test (retention : option Z) : reply RealmView :=
  CreateRealm plain_service "test"%go "pem"%go (Some 5%Z) retention (Some sample_draw) 0.
Definition created (retention : option Z) : db := (run (create_test retention) empty_db).2.

Lemma created_ok retention : db_ok (created retention).
Proof. apply RealmRules.run_db_ok, empty_db_ok. Qed.

Lemma created_realm_works_witness :
  exists r, realms (created None) !! "test"%go = Some r /\
    Pairing.loadCA r = Some (Pairing.Generate "test"%go 0 0 "key"%go "key"%go "ski"%go 7).
Proof.
  destruct (created_realm_works plain_service "test"%go "pem"%go (Some 5%Z) None sample_draw 0 empty_db
    (MkRealmView "test"%go "pem"%go (Some 5%Z) None) true (created None)) as (r & _ & Hr & _ & _ & _ & _ & Hl).
  - reflexivity.
  - reflexivity.
  - unfold created. rewrite (surjective_pairing (run _ _)). apply f_equal2; [vm_compute; reflexivity|reflexivity].
  - exists r. split; [rewrite Hr; apply lookup_insert_eq|exact Hl].
Defined.

Definition sample_patch : patchBody := MkPatchBody Absent Null (Val 86400%Z).

Lemma realm_patch_exact_witness :
  exists r, realms (created None) !! "test"%go = Some r /\ DeviceRegistrationLimit (patched sample_patch r) = None /\
  run (patchRealm "test"%go (Some (MkPatchRequest ["device_registration_limit"%go; "datastream_maximum_storage_retention"%go] (Some sample_patch)))) (created None) =
    (Status 200, with_realms (<["test"%go := patched sample_patch r]> (realms (created None))) (created None)).
Proof.
  destruct (realms (created None) !! "test"%go) as [r|] eqn:Er.
  - exists r. split; [reflexivity|]. split; [reflexivity|].
    rewrite (realm_patch_exact "test"%go ["device_registration_limit"%go; "datastream_maximum_storage_retention"%go]
      sample_patch (created None)); [by rewrite Er|vm_compute; reflexivity|split; vm_compute; reflexivity].
  - exfalso. apply (f_equal (fun o => match o with Some _ => true | None => false end)) in Er. vm_compute in Er. discriminate Er.
Defined.

(** The realm with a reading, a property and a flow. *)
Definition busy_realm : db :=
  with_data (MkDataTables [MkSeriesRow 1 (sample_id "a") 1 "/x"%go 5] [] {[(1%Z, sample_id "a", 1%Z, "/p"%go)]} ∅
    {[(1%Z, "f"%go)]} ∅) (created None).
Lemma busy_realm_ok : db_ok busy_realm.
Proof. destruct (created_ok None). by split. Qed.

Lemma realm_deleted_whole_witness :
  match run (DeleteRealm plain_service "test"%go) busy_realm with
  | ((Ok _, _), d') => exists r, realms busy_realm !! "test"%go = Some r /\ no_trace (RealmID r) d'
  | _ => False
  end.
Proof.
  pose proof (realm_deleted_whole plain_service "test"%go busy_realm busy_realm_ok) as Ht.
  assert (match run (DeleteRealm plain_service "test"%go) busy_realm with ((Ok _, _), _) => true | _ => false end = true)
    as Ho by (vm_compute; reflexivity).
  destruct (run (DeleteRealm plain_service "test"%go) busy_realm) as [[[u|e] b] d']; [|discriminate Ho].
  destruct Ht as (r & Hr & _ & _ & _ & _ & Hn & _). exists r. split; [exact Hr|exact Hn].
Defined.

(** ** Zero is two things *)

Definition kept_for (ttl : Z) : InterfaceParse.Parse.interfaceJSON :=
  sample_doc "org.Test"%go 0 1 [InterfaceParse.Parse.MkMappingJSON (Some "/value"%go) None (Some SchemaTypes.Schema.Double) None None None
    (Some SchemaTypes.Schema.UseTTL) (Some ttl) None None None None [] []].

(** A realm created with a retention ceiling of zero refuses every interface
    with a TTL, though its configuration reads zero like a realm without a
    ceiling; the same zero in a PATCH removes the ceiling. *)
Theorem zero_retention_differs :
  let install d := (run (RealmMgmt.InstallInterface RealmRules.wired "test"%go (kept_for 60)) d).1.1 in
  let config d := (run (RealmMgmt.GetDatastreamMaximumStorageRetention "test"%go) d).1.1 in
  let zero := MkPatchRequest ["datastream_maximum_storage_retention"%go] (Some (MkPatchBody Absent Absent (Val 0%Z))) in
  let patched := (run (patchRealm "test"%go (Some zero)) (created (Some 0%Z))).2 in
  install (created (Some 0%Z)) = Err RealmMgmt.ErrMaximumDatabaseRetentionExceeded /\
  config (created (Some 0%Z)) = Ok 0%Z /\ config (created None) = Ok 0%Z /\
  (exists si, install patched = Ok si) /\ config patched = Ok 0%Z.
Proof.
  split_and!; [vm_compute; reflexivity..| |vm_compute; reflexivity].
  match goal with |- exists si, ?r = Ok si => destruct r as [si|e] eqn:E; [by exists si|] end.
  apply (f_equal (fun r => match r with Ok _ => true | Err _ => false end)) in E. vm_compute in E. discriminate E.
Qed.

End Housekeeping.
