(* ===== verification/Sessions.v ===== *)
(** * Device sessions of the broker

    The hooks of [internal/broker/authhook.go], [aclhook.go], [lifecycle.go]
    and [broker.go], and the packet of [publisher.go]. The MQTT server invokes
    hooks from many goroutines. A hook is a program whose actions are the store
    calls and the critical sections on the broker's memory; the actions of
    different hooks interleave. The MQTT and TLS libraries are the environment:
    they decide which hook runs when, for which client, and how a certificate
    chain with intermediates verifies. *)

From S2P Require Import Prelude GoStrings DeviceID SchemaTypes Endpoints InterfaceParse Broker Topics ByteOrder MetaStore MetaWorld Pairing.

Module Sessions.
Import Schema Parse Identity ACL MetaStore MetaWorld.
Import Topics.Introspection.

Abbreviation Certificate := Pairing.Certificate.
Abbreviation Ownership := Schema.Ownership.

(** ** Data *)

(** What the code reads of an [mqtt.Client]; hooks hold its pointer. *)
Record Client := MkClient {
  ClientID : gostring;
  (** The peer certificates of a [tls.Conn]; [None] for a plaintext one. *)
  Peers : option (list Certificate);
  Listener : gostring;
  Remote : gostring;
  Inline : bool;
}.
Abbreviation client_ptr := nat.

Record realmCA := MkRealmCA { rcID : Z; rcName : gostring; rcCert : Certificate }.

(** A session: the fields that never change, and the address of the two behind
    its mutex. *)
Record deviceSession := MkSession {
  sess : nat;
  identity : Identity;
  realmID : Z;
  client : client_ptr;
  remote : gostring;
}.

Abbreviation ownerships := (gmap gostring Ownership).

Inductive LifecycleEventType := EventDeviceConnected | EventDeviceDisconnected.
Record LifecycleEvent := MkLifecycle {
  leType : LifecycleEventType;
  leRealm : gostring;
  leDevice : ID;
  (** [None] is the zero address. *)
  leRemoteIP : option gostring;
  leAt : Z;
}.

Record InboundMessage := MkInbound {
  imRealm : gostring;
  imDevice : ID;
  imTopic : gostring;
  imPayload : gostring;
  imQoS : Z;
  imReceivedAt : Z;
}.

(** What the code reads of a packet. *)
Record Packet := MkPacket {
  isConnect : bool;
  ClientIdentifier : gostring;
  TopicName : gostring;
  Payload : gostring;
  Qos : Z;
}.

(** The memory hooks share: the realm pools, the registry, the mutable part of
    the sessions, the offline cache with its entries, the sink and the intake,
    the channels the engine and [Close] close, and the server's own flags. *)
Record mem := MkMem {
  byName : gmap gostring realmCA;
  tlsCAs : list Certificate;
  sessions : gmap gostring deviceSession;
  intros : gmap nat (ownerships * Z);
  next_sess : nat;
  entries : gmap gostring nat;
  offline : gmap nat (ownerships * Z);
  next_entry : nat;
  sink : list LifecycleEvent;
  submitted : list (client_ptr * InboundMessage);
  acked : gset nat;
  closing : bool;
  taken : gset client_ptr;
  kicked : list client_ptr;
}.

Definition with_pools (b : gmap gostring realmCA) (u : list Certificate) (m : mem) : mem :=
  MkMem b u (sessions m) (intros m) (next_sess m) (entries m) (offline m) (next_entry m)
    (sink m) (submitted m) (acked m) (closing m) (taken m) (kicked m).
Definition with_sessions (s : gmap gostring deviceSession) (i : gmap nat (ownerships * Z)) (n : nat) (m : mem) : mem :=
  MkMem (byName m) (tlsCAs m) s i n (entries m) (offline m) (next_entry m)
    (sink m) (submitted m) (acked m) (closing m) (taken m) (kicked m).
Definition with_offline (e : gmap gostring nat) (o : gmap nat (ownerships * Z)) (n : nat) (m : mem) : mem :=
  MkMem (byName m) (tlsCAs m) (sessions m) (intros m) (next_sess m) e o n
    (sink m) (submitted m) (acked m) (closing m) (taken m) (kicked m).
Definition with_log (s : list LifecycleEvent) (sub : list (client_ptr * InboundMessage)) (m : mem) : mem :=
  MkMem (byName m) (tlsCAs m) (sessions m) (intros m) (next_sess m) (entries m) (offline m) (next_entry m)
    s sub (acked m) (closing m) (taken m) (kicked m).
Definition with_server (a : gset nat) (c : bool) (t : gset client_ptr) (k : list client_ptr) (m : mem) : mem :=
  MkMem (byName m) (tlsCAs m) (sessions m) (intros m) (next_sess m) (entries m) (offline m) (next_entry m)
    (sink m) (submitted m) a c t k.

(** ** Hooks *)

Section Hooks.
Context `{Collation} `{Pairing.Crypto}.

(** [Mem f]: one critical section, which may read the clock; [Wait]: the
    [select] of a publish on its own acknowledgment and on shutdown. *)
Inductive hook (R : Type) : Type :=
| Done (r : R)
| Store {A} (s : stmt A) (k : result store_error A -> hook R)
| Rows (k : result store_error (list (gostring * Realm)) -> hook R)
| Mem {A : Set} (f : Z -> mem -> A * mem) (k : A -> hook R)
| Wait (msg : nat) (k : bool -> hook R).
#[global] Arguments Done {R} r.
#[global] Arguments Store {R A} s k.
#[global] Arguments Rows {R} k.
#[global] Arguments Mem {R A} f k.
#[global] Arguments Wait {R} msg k.

(** [time.Now]. *)
Definition clock (t : Z) (m : mem) : Z * mem := (t, m).

(** [Store.ListRealms] with the rows the broker reads. *)
Definition ListRealms (d : db) : list (gostring * Realm) :=
  omap (fun name => r ← realms d !! name; Some (name, r)) (collate (map_to_list (realms d)).*1).

(** What the libraries decide: verification of a leaf with intermediates under
    one root at an instant, and the address of an "ip:port" remote. *)
Class Net := {
  VerifyChain : Certificate -> list Certificate -> Certificate -> Z -> bool;
  (** Without intermediates it is the verification against the root. *)
  VerifyChain_leaf : forall root leaf at_, VerifyChain root [] leaf at_ = is_ok (Pairing.x509_verify root leaf at_);
  ParseAddrPort : gostring -> option gostring;
}.
Context `{Net}.

(** The configuration of the hooks: [pairing.enforce_latest_cert], the plaintext
    listener ("" when [insecure_dev_mode] is off), and whether a sink is set. *)
Record authHook := MkAuthHook { enforceLatestCert : bool; devListenerID : gostring; hasSink : bool }.
Variable h : authHook.
Variable clients : client_ptr -> Client.

(** *** Realm pools *)

Fixpoint load_pools (rows : list (gostring * Realm)) (acc : gmap gostring realmCA) : gmap gostring realmCA :=
  match rows with
  | [] => acc
  | (name, r) :: rows =>
      match Pairing.ParseCertificatePEM (CACertificatePEM r) with
      | None => load_pools rows acc
      | Some c => load_pools rows (<[name := MkRealmCA (RealmID r) name c]> acc)
      end
  end.
Definition rebuildTLSLocked (m : gmap gostring realmCA) : list Certificate := rcCert <$> (map_to_list m).*2.
Definition Reload {R : Type} (k : option store_error -> hook R) : hook R :=
  Rows (fun r => match r with
    | Err e => k (Some e)
    | Ok rows =>
        let b := load_pools rows ∅ in
        Mem (fun _ m => ((), with_pools b (rebuildTLSLocked b) m)) (fun _ => k None)
    end).
Definition Lookup (name : gostring) (m : mem) : option realmCA := byName m !! name.

(** *** Interface ownership *)

Fixpoint load_each {R : Type} (rid : Z) (l : list (gostring * InterfaceVersion)) (acc : ownerships)
    (k : ownerships -> hook R) : hook R :=
  match l with
  | [] => k acc
  | (name, ver) :: l =>
      Store (SGetInterface rid name (vMajor ver)) (fun r => match r with
        | Err _ => load_each rid l acc k
        | Ok si => load_each rid l (<[name := siOwnership si]> acc) k
        end)
  end.
Definition loadOwnership {R : Type} (rid : Z) (intro : gmap gostring InterfaceVersion) (k : ownerships -> hook R) : hook R :=
  load_each rid (map_to_list intro) ∅ k.

Definition introspectionReloadDebounce : Z := 1000000000.
Definition offlineACLCacheTTL : Z := 10000000000.

Definition ownershipOf (s : deviceSession) (iface : gostring) (m : mem) : option Ownership :=
  own ← intros m !! sess s; own.1 !! iface.

Definition set_intro (s : deviceSession) (own : ownerships) (t : Z) (m : mem) : mem :=
  with_sessions (sessions m) (<[sess s := (own, t)]> (intros m)) (next_sess m) m.

Definition refresh {R : Type} (s : deviceSession) (k : option store_error -> hook R) : hook R :=
  Store (SGetDevice (realmID s) (DeviceID_ (identity s))) (fun r => match r with
    | Err e => k (Some e)
    | Ok dev =>
        loadOwnership (realmID s) (Introspection dev) (fun own =>
          Mem (fun t m => ((), set_intro s own t m)) (fun _ => k None))
    end).

(** The slot is claimed before the slow reload. *)
Definition claim_reload (s : deviceSession) (t : Z) (m : mem) : bool * mem :=
  match intros m !! sess s with
  | None => (false, m)
  | Some (own, last) =>
      if (introspectionReloadDebounce <=? t - last)%Z then (true, set_intro s own t m) else (false, m)
  end.
Definition refreshIfStale {R : Type} (s : deviceSession) (k : hook R) : hook R :=
  Mem (claim_reload s) (fun stale => if stale : bool then refresh s (fun _ => k) else k).

(** *** The registry *)

Definition get (clientID : gostring) (m : mem) : option deviceSession := sessions m !! clientID.
Definition count (m : mem) : nat := size (sessions m).
(** [put] of a session created here with its ownership map. *)
Definition put (i : Identity) (rid : Z) (cl : client_ptr) (rem : gostring) (own : ownerships) (t : Z) (m : mem) : () * mem :=
  let s := MkSession (next_sess m) i rid cl rem in
  ((), with_sessions (<[CN i := s]> (sessions m)) (<[next_sess m := (own, t)]> (intros m)) (S (next_sess m)) m).
Definition removeIfOwner (clientID : gostring) (cl : client_ptr) (m : mem) : option deviceSession * mem :=
  match sessions m !! clientID with
  | Some s => if decide (client s = cl)
              then (Some s, with_sessions (delete clientID (sessions m)) (intros m) (next_sess m) m)
              else (None, m)
  | None => (None, m)
  end.

(** *** Authentication *)

(** The CONNECT identifier of a TLS client becomes its certificate's CN. *)
Definition OnPacketRead (cl : Client) (pk : Packet) : Packet :=
  if negb (isConnect pk) then pk
  else match Peers cl with
       | Some (leaf :: _) =>
           if is_ok (ParseCN (Pairing.CommonName leaf))
           then MkPacket (isConnect pk) (Pairing.CommonName leaf) (TopicName pk) (Payload pk) (Qos pk)
           else pk
       | _ => pk
       end.

Definition isLatestCert (leaf : Certificate) (dev : Device) : bool :=
  match CertSerial dev, CertAKI dev with
  | Some serial, Some aki =>
      bool_decide (Pairing.serial_string (Pairing.SerialNumber leaf) = serial)
      && bool_decide (Hex.encode (Pairing.AuthorityKeyId leaf) = aki)
  | _, _ => false
  end.

Definition remoteAddr (r : gostring) : gostring := default "0.0.0.0"%go (ParseAddrPort r).

Definition admit_session (cl : client_ptr) (i : Identity) (rid : Z) (dev : Device) : hook bool :=
  loadOwnership rid (Introspection dev) (fun own =>
    Mem (put i rid cl (remoteAddr (Remote (clients cl))) own) (fun _ => Done true)).

(** The checks both paths share from the device lookup on. *)
Definition admit_device (cl : client_ptr) (i : Identity) (rid : Z) (latest : Device -> bool) : hook bool :=
  Store (SGetDevice rid (DeviceID_ i)) (fun r => match r with
    | Err _ => Done false
    | Ok dev =>
        if decide (Status dev = DeviceStatusInhibited) then Done false
        else if negb (latest dev) then Done false
        else admit_session cl i rid dev
    end).

Definition OnConnectAuthenticate (cl : client_ptr) : hook bool :=
  match Peers (clients cl) with
  | Some [] => Done false
  | Some (leaf :: rest) =>
      match ParseCN (Pairing.CommonName leaf) with
      | Err _ => Done false
      | Ok i =>
          Mem (fun _ m => (Lookup (Identity.Realm i) m, m)) (fun x => match x with
            | None => Done false
            | Some rc =>
                Mem clock (fun t =>
                  if negb (VerifyChain (rcCert rc) rest leaf t) then Done false
                  else admit_device cl i (rcID rc) (fun dev => negb (enforceLatestCert h) || isLatestCert leaf dev))
            end)
      end
  | None =>
      if bool_decide (devListenerID h = []) || negb (bool_decide (Listener (clients cl) = devListenerID h))
      then Done false
      else match ParseCN (ClientID (clients cl)) with
           | Err _ => Done false
           | Ok i =>
               Mem (fun _ m => (Lookup (Identity.Realm i) m, m)) (fun x => match x with
                 | None => Done false
                 | Some rc => admit_device cl i (rcID rc) (fun _ => true)
                 end)
           end
  end.

(** *** Access control *)

(** [checkACL] with an ownership function that acts: it is asked once at most. *)
Definition checkACL_hook {R : Type} (base topic : gostring) (write : bool)
    (ownership : gostring -> (option Ownership -> hook R) -> hook R) (k : bool -> hook R) : hook R :=
  if bool_decide (topic = []) || (maxTopicBytes <? length topic)%nat then k false
  else if write then
    if decide (topic = base) then k true
    else
      match Strings.CutPrefix topic (base ++ "/"%go) with
      | None => k false
      | Some rest =>
          if bool_decide (rest = "capabilities"%go) || bool_decide (rest = "control/emptyCache"%go)
             || bool_decide (rest = "control/producer/properties"%go)
          then k true
          else
            let '(iface, path, found) := Strings.Cut rest "/" in
            if negb found || bool_decide (path = []) then k false
            else ownership iface (fun own => k (bool_decide (own = Some OwnershipDevice)))
      end
  else
    match Strings.CutPrefix topic (base ++ "/"%go) with
    | None => k false
    | Some rest =>
        if Strings.ContainsAny topic "+#"%go then k true
        else if decide (rest = "control/consumer/properties"%go) then k true
        else
          let '(iface, _, _) := Strings.Cut rest "/" in
          ownership iface (fun own => k (bool_decide (own = Some OwnershipServer)))
    end.

(** The offline cache: a fresh entry answers, anything else is replaced by an
    empty one before the load. *)
Definition claim_entry (cn : gostring) (t : Z) (m : mem) : (nat * bool) * mem :=
  let claim := ((next_entry m, false),
                with_offline (<[cn := next_entry m]> (entries m)) (<[next_entry m := (∅, t)]> (offline m))
                  (S (next_entry m)) m) in
  match entries m !! cn with
  | None => claim
  | Some e => match offline m !! e with
              | Some (_, loadedAt) => if (t - loadedAt <? offlineACLCacheTTL)%Z then ((e, true), m) else claim
              | None => claim
              end
  end.
Definition fill_entry (e : nat) (own : ownerships) (m : mem) : mem :=
  with_offline (entries m) (alter (fun x => (own, x.2)) e (offline m)) (next_entry m) m.

Definition entry_ownership (e : nat) (iface : gostring) (m : mem) : option Ownership :=
  own ← offline m !! e; own.1 !! iface.

Definition load {R : Type} (cn : gostring) (k : ownerships -> hook R) : hook R :=
  match ParseCN cn with
  | Err _ => k ∅
  | Ok i =>
      Mem (fun _ m => (Lookup (Identity.Realm i) m, m)) (fun x => match x with
        | None => k ∅
        | Some rc =>
            Store (SGetDevice (rcID rc) (DeviceID_ i)) (fun r => match r with
              | Err _ => k ∅
              | Ok dev => loadOwnership (rcID rc) (Introspection dev) k
              end)
        end)
  end.
Definition offline_ownershipOf {R : Type} (cn iface : gostring) (k : option Ownership -> hook R) : hook R :=
  Mem (claim_entry cn) (fun x => match x with
    | (e, true) => Mem (fun _ m => (entry_ownership e iface m, m)) k
    | (e, false) =>
        load cn (fun own => Mem (fun _ m => ((), fill_entry e own m)) (fun _ => k (own !! iface)))
    end).

Definition live_ownershipOf {R : Type} (s : deviceSession) (iface : gostring) (k : option Ownership -> hook R) : hook R :=
  Mem (fun _ m => (ownershipOf s iface m, m)) (fun own => match own with
    | Some _ => k own
    | None => refreshIfStale s (Mem (fun _ m => (ownershipOf s iface m, m)) k)
    end).

(** The session of a client, if the registry's entry is this connection's. *)
Definition own_session {R : Type} (cl : client_ptr) (k : option deviceSession -> hook R) : hook R :=
  Mem (fun _ m => (get (ClientID (clients cl)) m, m)) (fun o =>
    k (s ← o; if decide (client s = cl) then Some s else None)).

Definition OnACLCheck (cl : client_ptr) (topic : gostring) (write : bool) : hook bool :=
  if Inline (clients cl) then Done true
  else own_session cl (fun o => match o with
    | Some s => checkACL_hook (BaseTopic (identity s)) topic write (live_ownershipOf s) Done
    | None =>
        if write then Done false
        else checkACL_hook (ClientID (clients cl)) topic write (offline_ownershipOf (ClientID (clients cl))) Done
    end).

(** *** Lifecycle *)

Definition emit (e : LifecycleEvent) (m : mem) : mem :=
  if hasSink h then with_log (sink m ++ [e]) (submitted m) m else m.

(** A failed update is logged; the event is emitted all the same. *)
Definition OnSessionEstablished (cl : client_ptr) : hook () :=
  own_session cl (fun o => match o with
    | None => Done ()
    | Some s =>
        Mem clock (fun at_ =>
          Store (SSetDeviceConnected (realmID s) (DeviceID_ (identity s)) at_ (remote s)) (fun _ =>
            Mem (fun _ m => ((), emit (MkLifecycle EventDeviceConnected (Identity.Realm (identity s))
                                         (DeviceID_ (identity s)) (Some (remote s)) at_) m)) Done))
    end).

Definition OnDisconnect (cl : client_ptr) : hook () :=
  Mem (fun _ m => (bool_decide (cl ∈ taken m), m)) (fun takenOver : bool =>
    if takenOver then Done ()
    else Mem (fun _ m => removeIfOwner (ClientID (clients cl)) cl m) (fun o => match o with
      | None => Done ()
      | Some s =>
          Mem clock (fun at_ =>
            Store (SSetDeviceDisconnected (realmID s) (DeviceID_ (identity s)) at_) (fun _ =>
              Mem (fun _ m => ((), emit (MkLifecycle EventDeviceDisconnected (Identity.Realm (identity s))
                                           (DeviceID_ (identity s)) None at_) m)) Done))
      end)).

(** *** Intake *)

(** [Forward] hands the packet to the server, [SuccessIgnore] acknowledges and
    consumes it, [RejectPacket] drops it unacknowledged. *)
Inductive publish_code := Forward | SuccessIgnore | RejectPacket.

Definition submit (cl : client_ptr) (msg : InboundMessage) (m : mem) : nat * mem :=
  (length (submitted m), with_log (sink m) (submitted m ++ [(cl, msg)]) m).

Definition OnPublish (cl : client_ptr) (pk : Packet) : hook publish_code :=
  if Inline (clients cl) then Done Forward
  else own_session cl (fun o => match o with
    | None => Done RejectPacket
    | Some s =>
        Mem clock (fun at_ =>
          Mem (fun _ m => submit cl (MkInbound (Identity.Realm (identity s)) (DeviceID_ (identity s)) (TopicName pk)
                                       (Payload pk) (Qos pk) at_) m) (fun msg =>
            if (Qos pk =? 0)%Z then Done SuccessIgnore
            else Wait msg (fun ack : bool => Done (if ack then SuccessIgnore else RejectPacket))))
    end).

(** *** The facade *)

Definition DisconnectDevice (realm : gostring) (id : ID) : hook () :=
  Mem (fun _ m => (get (CN (MkIdentity realm id)) m, m)) (fun o => match o with
    | None => Done ()
    | Some s => Mem (fun _ m => ((), with_server (acked m) (closing m) (taken m) (kicked m ++ [client s]) m)) Done
    end).

Definition RefreshIntrospection (realm : gostring) (id : ID) : hook (option store_error) :=
  Mem (fun _ m => (get (CN (MkIdentity realm id)) m, m)) (fun o => match o with
    | None => Done None
    | Some s => refresh s Done
    end).

Definition ReloadRealms : hook (option store_error) := Reload Done.

(** ** All hooks together *)

Inductive invocation :=
| CAuth (cl : client_ptr)
| CACL (cl : client_ptr) (topic : gostring) (write : bool)
| CEstablished (cl : client_ptr)
| CDisconnect (cl : client_ptr)
| CPublish (cl : client_ptr) (pk : Packet)
| CKick (realm : gostring) (id : ID)
| CRefresh (realm : gostring) (id : ID)
| CReload.

Inductive answer :=
| AAllowed (b : bool)
| ACode (c : publish_code)
| AUnit
| AErr (e : option store_error).

Fixpoint then_answer {R : Type} (f : R -> answer) (p : hook R) : hook answer :=
  match p with
  | Done r => Done (f r)
  | Store s k => Store s (fun r => then_answer f (k r))
  | Rows k => Rows (fun r => then_answer f (k r))
  | Mem g k => Mem g (fun a => then_answer f (k a))
  | Wait i k => Wait i (fun b => then_answer f (k b))
  end.

Definition body (c : invocation) : hook answer :=
  match c with
  | CAuth cl => then_answer AAllowed (OnConnectAuthenticate cl)
  | CACL cl topic write => then_answer AAllowed (OnACLCheck cl topic write)
  | CEstablished cl => then_answer (fun _ => AUnit) (OnSessionEstablished cl)
  | CDisconnect cl => then_answer (fun _ => AUnit) (OnDisconnect cl)
  | CPublish cl pk => then_answer ACode (OnPublish cl pk)
  | CKick realm id => then_answer (fun _ => AUnit) (DisconnectDevice realm id)
  | CRefresh realm id => then_answer AErr (RefreshIntrospection realm id)
  | CReload => then_answer AErr ReloadRealms
  end.

Record world := MkWorld {
  wmem : mem;
  wdb : db;
  running : list (invocation * hook answer);
  answered : list (invocation * answer);
}.

Definition empty_mem : mem := MkMem ∅ [] ∅ ∅ 0 ∅ ∅ 0 [] [] ∅ false ∅ [].

(** Other parts of the program and the MQTT server: store calls, a message of
    the intake acknowledged, shutdown, a connection marked as taken over. *)
Inductive environment : mem -> db -> mem -> db -> Prop :=
| env_store A (s : stmt A) m d : environment m d m (exec s d).2
| env_tick t m d : environment m d m (advance t d)
| env_ack msg m d :
    environment m d (with_server (acked m ∪ {[msg]}) (closing m) (taken m) (kicked m) m) d
| env_close m d : environment m d (with_server (acked m) true (taken m) (kicked m) m) d
| env_takeover cl m d :
    environment m d (with_server (acked m) (closing m) (taken m ∪ {[cl]}) (kicked m) m) d.

(** One action of a hook. A failed store call may have taken effect. *)
Inductive acts : mem -> db -> hook answer -> mem -> db -> hook answer -> Prop :=
| act_mem (A : Set) (f : Z -> mem -> A * mem) k t m d : acts m d (Mem f k) (f t m).2 d (k (f t m).1)
| act_store A (s : stmt A) k m d : acts m d (Store s k) m (exec s d).2 (k (exec s d).1)
| act_fail A (s : stmt A) k (applied : bool) m d :
    acts m d (Store s k) m (if applied then (exec s d).2 else d) (k (Err ErrDatabase))
| act_rows k m d : acts m d (Rows k) m d (k (Ok (ListRealms d)))
| act_rows_fail k m d : acts m d (Rows k) m d (k (Err ErrDatabase))
| act_acked msg k m d : msg ∈ acked m -> acts m d (Wait msg k) m d (k true)
| act_closing msg k m d : closing m = true -> acts m d (Wait msg k) m d (k false).

Inductive step : world -> world -> Prop :=
| step_env w m d :
    environment (wmem w) (wdb w) m d -> step w (MkWorld m d (running w) (answered w))
| step_invoke c w : step w (MkWorld (wmem w) (wdb w) (running w ++ [(c, body c)]) (answered w))
| step_act i c p m d p' w :
    running w !! i = Some (c, p) -> acts (wmem w) (wdb w) p m d p' ->
    step w (MkWorld m d (<[i := (c, p')]> (running w)) (answered w))
| step_done i c r w :
    running w !! i = Some (c, Done r) ->
    step w (MkWorld (wmem w) (wdb w) (delete i (running w)) (answered w ++ [(c, r)])).

(** ** Rely and guarantee *)

(** What only grows while hooks run: the messages handed over and their
    acknowledgments. *)
Record grows (m m' : mem) : Prop := {
  grows_acked : acked m ⊆ acked m';
  grows_submitted : submitted m `prefix_of` submitted m';
}.
#[local] Instance grows_preorder : PreOrder grows.
Proof. split; [by split|]. intros a b c [??] [??]. split; by etrans. Qed.

Section Safety.
(** The certificates that have been the authority of a realm. *)
Variable anchor : gostring -> Certificate -> Prop.
Definition db_anchored (d : db) : Prop := forall name r c,
  realms d !! name = Some r -> Pairing.ParseCertificatePEM (CACertificatePEM r) = Some c -> anchor name c.

(** A connection may act as a device: its leaf certificate carries the name and
    verified under an authority of the realm, or it came in plaintext through
    the development listener under that name. *)
Definition entitled (cl : client_ptr) (i : Identity) : Prop :=
  wf_identity i /\
  match Peers (clients cl) with
  | Some [] => False
  | Some (leaf :: rest) => Pairing.CommonName leaf = CN i /\
      exists root at_, anchor (Identity.Realm i) root /\ VerifyChain root rest leaf at_ = true
  | None => devListenerID h <> [] /\ Listener (clients cl) = devListenerID h /\ ClientID (clients cl) = CN i
  end.

Record mem_ok (m : mem) : Prop := {
  pools_anchored : forall name rc, byName m !! name = Some rc -> anchor name (rcCert rc);
  sessions_entitled : forall k s, sessions m !! k = Some s -> k = CN (identity s) /\ entitled (client s) (identity s);
  intake_entitled : forall cl msg, (cl, msg) ∈ submitted m ->
    exists i, entitled cl i /\ ClientID (clients cl) = CN i /\ imRealm msg = Identity.Realm i /\ imDevice msg = DeviceID_ i;
}.

(** What a hook may do to a registered session: replace it by one of the
    connection it admits, or remove the one of the connection that ends. *)
Definition may_change (c : invocation) (k : gostring) (s : deviceSession) (m' : mem) : Prop :=
  match c with
  | CAuth cl => exists s', sessions m' !! k = Some s' /\ client s' = cl
  | CDisconnect cl => client s = cl /\ k = ClientID (clients cl)
  | _ => False
  end.
Definition guarantees (c : invocation) (m m' : mem) : Prop := forall k s,
  sessions m !! k = Some s -> sessions m' !! k = Some s \/ may_change c k s m'.

(** What an answer says about the memory it was given in. *)
Definition answer_ok (c : invocation) (m : mem) (r : answer) : Prop :=
  match c, r with
  | CAuth cl, AAllowed true => exists i, entitled cl i
  | CACL cl topic _, AAllowed true => Inline (clients cl) = true \/ topic = ClientID (clients cl) \/
      exists rest, topic = ClientID (clients cl) ++ "/"%char :: rest
  | CPublish cl pk, ACode SuccessIgnore =>
      exists n msg, submitted m !! n = Some (cl, msg) /\ imTopic msg = TopicName pk /\ imPayload msg = Payload pk /\
        imQoS msg = Qos pk /\ (Qos pk <> 0%Z -> n ∈ acked m)
  | _, _ => True
  end.

Lemma answer_ok_grows c m m' r : grows m m' -> answer_ok c m r -> answer_ok c m' r.
Proof.
  intros [Ha Hs]. destruct c, r as [[]|[]| |]; simpl; try done.
  intros (n & msg & Hn & Ht & Hp & Hq & Hk). exists n, msg. split; [by eapply prefix_lookup_Some|]. set_solver.
Qed.

(** A program that keeps the memory in order from [m] on, whatever the others
    do between its actions. *)
Fixpoint safe {R : Type} (c : invocation) (Q : mem -> R -> Prop) (m0 : mem) (p : hook R) : Prop :=
  match p with
  | Done r => forall m, grows m0 m -> Q m r
  | Store _ k => forall r, safe c Q m0 (k r)
  | Rows k => forall r, (forall rows, r = Ok rows -> exists d, rows = ListRealms d /\ db_anchored d) -> safe c Q m0 (k r)
  | Mem f k => forall t m, grows m0 m -> mem_ok m ->
      let x := f t m in mem_ok x.2 /\ grows m x.2 /\ guarantees c m x.2 /\ safe c Q x.2 (k x.1)
  | Wait n k => forall m b, grows m0 m -> (b = true -> n ∈ acked m) -> safe c Q m (k b)
  end.

Lemma safe_grows {R : Type} c (Q : mem -> R -> Prop) (p : hook R) m0 m :
  safe c Q m0 p -> grows m0 m -> safe c Q m p.
Proof.
  revert m0 m. induction p as [r|A s k IH|k IH|A f k IH|n k IH]; intros m0 m; simpl.
  - intros HQ Hg m' Hm. apply HQ. by etrans.
  - eauto.
  - eauto.
  - intros HS Hg t m' Hm Hok. apply HS; [by etrans|done].
  - intros HS Hg m' b Hm. apply HS. by etrans.
Qed.

Lemma safe_then {R : Type} c (f : R -> answer) (Q : mem -> answer -> Prop) p m :
  safe c (fun m r => Q m (f r)) m p -> safe c Q m (then_answer f p).
Proof.
  revert m. induction p as [r|A s k IH|k IH|A g k IH|n k IH]; intros m; simpl; [done|..]; intros HS.
  - intros r. apply IH, HS.
  - intros r Hr. by apply IH, HS.
  - intros t m' Hg Hok. destruct (HS t m' Hg Hok) as (? & ? & ? & ?). eauto 6.
  - intros m' b Hg Hb. by apply IH, HS.
Qed.

(** A critical section that only reads. *)
Lemma safe_read {R : Type} {A : Set} c (Q : mem -> R -> Prop) (f : Z -> mem -> A) k m0 :
  (forall t m, grows m0 m -> mem_ok m -> safe c Q m (k (f t m))) -> safe c Q m0 (Mem (fun t m => (f t m, m)) k).
Proof. intros HS t m Hg Hok. simpl. split_and!; [done|done|by left|auto]. Qed.

(** One that leaves the registry alone. *)
Lemma safe_write {R : Type} {A : Set} c (Q : mem -> R -> Prop) (f : Z -> mem -> A * mem) k m0 :
  (forall t m, grows m0 m -> mem_ok m -> mem_ok (f t m).2 /\ grows m (f t m).2 /\ sessions (f t m).2 = sessions m /\
     safe c Q (f t m).2 (k (f t m).1)) -> safe c Q m0 (Mem f k).
Proof.
  intros HS t m Hg Hok. destruct (HS t m Hg Hok) as (? & ? & Hs & ?). simpl. split_and!; [done..| |done].
  intros key s. rewrite Hs. by left.
Qed.

Lemma safe_own_session {R : Type} c (Q : mem -> R -> Prop) cl k m0 :
  (forall m o, grows m0 m -> mem_ok m ->
     (forall s, o = Some s -> client s = cl /\ sessions m !! ClientID (clients cl) = Some s) -> safe c Q m (k o)) ->
  safe c Q m0 (own_session cl k).
Proof.
  intros HS. apply safe_read. intros t m Hg Hok. apply HS; [done..|]. unfold get.
  intros s. destruct (sessions m !! _) as [s'|]; simpl; [|done]. case_decide; [|done]. intros [= <-]. done.
Qed.

Lemma safe_load {R : Type} c (Q : mem -> R -> Prop) rid intro k m :
  (forall own, safe c Q m (k own)) -> safe c Q m (loadOwnership rid intro k).
Proof.
  intros HS. unfold loadOwnership. generalize (∅ : ownerships) as acc.
  induction (map_to_list intro) as [|[name ver] l IH]; intros acc; simpl; [done|]. intros [si|e]; apply IH.
Qed.

Lemma mem_ok_frame m m' :
  mem_ok m -> byName m' = byName m -> sessions m' = sessions m -> submitted m' = submitted m -> mem_ok m'.
Proof. intros [Hp Hs Hi] E1 E2 E3. split; rewrite ?E1, ?E2, ?E3; done. Qed.
Lemma grows_frame m m' : acked m' = acked m -> submitted m' = submitted m -> grows m m'.
Proof. intros E1 E2. split; [by rewrite E1|by rewrite E2]. Qed.

(** A section that touches neither the registry, the pools nor the intake. *)
Lemma safe_frame {R : Type} {A : Set} c (Q : mem -> R -> Prop) (f : Z -> mem -> A * mem) k m0 :
  (forall t m, byName (f t m).2 = byName m /\ sessions (f t m).2 = sessions m /\
     submitted (f t m).2 = submitted m /\ acked (f t m).2 = acked m) ->
  (forall t m, grows m0 m -> mem_ok m -> safe c Q (f t m).2 (k (f t m).1)) -> safe c Q m0 (Mem f k).
Proof.
  intros Hf HS. apply safe_write. intros t m Hg Hok. destruct (Hf t m) as (? & ? & ? & ?).
  split_and!; [by eapply mem_ok_frame|by apply grows_frame|done|auto].
Qed.

Lemma safe_refresh {R : Type} c (Q : mem -> R -> Prop) s k m0 :
  (forall m e, grows m0 m -> safe c Q m (k e)) -> safe c Q m0 (refresh s k).
Proof.
  intros HS [dev|e]; [|by apply HS]. apply safe_load. intros own. apply safe_frame; [done|].
  intros t m Hg _. apply HS. etrans; [exact Hg|by apply grows_frame].
Qed.

Lemma safe_refreshIfStale {R : Type} c (Q : mem -> R -> Prop) s k m0 :
  (forall m, grows m0 m -> safe c Q m k) -> safe c Q m0 (refreshIfStale s k).
Proof.
  intros HS. apply safe_frame.
  - intros t m. unfold claim_reload. destruct (intros m !! sess s) as [[own last]|]; [|done]. by case_match.
  - intros t m Hg _. set (x := claim_reload s t m). assert (grows m x.2) as Hx.
    { unfold x, claim_reload. destruct (intros m !! sess s) as [[own last]|]; [|done]. case_match; [|done]. by apply grows_frame. }
    destruct x as [[] m']; simpl in *.
    + apply (safe_refresh c Q s (fun _ => k)). intros m1 _ ?. apply HS. etrans; [exact Hg|]. by etrans.
    + apply HS. by etrans.
Qed.

(** Whatever the ownership function does, only the base topic and what is below
    it is allowed. *)
Definition below (base topic : gostring) : Prop := topic = base \/ exists rest, topic = base ++ "/"%char :: rest.

Lemma safe_checkACL {R : Type} c (Q : mem -> R -> Prop) base topic write ownership k m0 :
  (forall iface kk, (forall m o, grows m0 m -> safe c Q m (kk o)) -> safe c Q m0 (ownership iface kk)) ->
  (forall b m, (b = true -> below base topic) -> grows m0 m -> safe c Q m (k b)) ->
  safe c Q m0 (checkACL_hook base topic write ownership k).
Proof.
  intros Ho Hk. unfold checkACL_hook. destruct (_ || _); [by apply Hk|].
  assert (forall rest, Strings.CutPrefix topic (base ++ "/"%go) = Some rest -> below base topic) as Hc.
  { intros rest ->%Strings.CutPrefix_spec. right. exists rest. by rewrite <- app_assoc. }
  destruct write; [case_decide; [apply Hk; [by left|done]|]|];
    (destruct (Strings.CutPrefix topic (base ++ "/"%go)) as [rest|]; [|by apply Hk]; specialize (Hc _ eq_refl)).
  - destruct (_ || _ || _); [by apply Hk|]. destruct (Strings.Cut rest "/") as [[iface path] found].
    destruct (_ || _); [by apply Hk|]. apply Ho. intros m o ?. by apply Hk.
  - destruct (Strings.ContainsAny _ _); [by apply Hk|]. case_decide; [by apply Hk|].
    destruct (Strings.Cut rest "/") as [[iface path] found]. apply Ho. intros m o ?. by apply Hk.
Qed.

Lemma safe_live {R : Type} c (Q : mem -> R -> Prop) s iface k m0 :
  (forall m o, grows m0 m -> safe c Q m (k o)) -> safe c Q m0 (live_ownershipOf s iface k).
Proof.
  intros HS. apply safe_read. intros t m Hg _. destruct (ownershipOf s iface m); [by apply HS|].
  apply safe_refreshIfStale. intros m1 Hm. apply safe_read. intros t2 m2 Hm2 _. apply HS. etrans; [exact Hg|]. by etrans.
Qed.

Lemma safe_load_offline {R : Type} c (Q : mem -> R -> Prop) cn k m0 :
  (forall m o, grows m0 m -> safe c Q m (k o)) -> safe c Q m0 (load cn k).
Proof.
  intros HS. unfold load. destruct (ParseCN cn) as [i|]; [|by apply HS]. apply safe_read. intros t m Hg _.
  destruct (Lookup _ m) as [rc|]; [|by apply HS]. intros [dev|e]; [|by apply HS]. apply safe_load. intros own. by apply HS.
Qed.

Lemma claim_entry_frame cn t m :
  let m' := (claim_entry cn t m).2 in
  byName m' = byName m /\ sessions m' = sessions m /\ submitted m' = submitted m /\ acked m' = acked m.
Proof.
  unfold claim_entry. destruct (entries m !! cn) as [e|]; [|done]. destruct (offline m !! e) as [[? ?]|]; [|done].
  by case_match.
Qed.

Lemma safe_offline {R : Type} c (Q : mem -> R -> Prop) cn iface k m0 :
  (forall m o, grows m0 m -> safe c Q m (k o)) -> safe c Q m0 (offline_ownershipOf cn iface k).
Proof.
  intros HS. apply safe_frame; [intros; apply claim_entry_frame|]. intros t m Hg _.
  pose proof (claim_entry_frame cn t m) as (_ & _ & Hs & Ha).
  destruct (claim_entry cn t m) as [[e []] m']; simpl in *;
    (assert (grows m0 m') as Hm by (etrans; [exact Hg|by apply grows_frame])).
  - apply safe_read. intros t2 m2 Hm2 _. apply HS. by etrans.
  - apply safe_load_offline. intros m2 own Hm2. apply safe_frame; [done|]. intros t3 m3 Hm3 _. apply HS.
    etrans; [exact Hm|]. etrans; [exact Hm2|]. etrans; [exact Hm3|]. by apply grows_frame.
Qed.

(** ** Every hook keeps the memory in order *)

Lemma put_session_ok i rid cl rem own t m : entitled cl i -> mem_ok m -> mem_ok (put i rid cl rem own t m).2.
Proof.
  intros He [Hp Hs Hi]. split; simpl; [done| |done].
  intros k s [[<- <-]|[_ ?]]%lookup_insert_Some; [done|auto].
Qed.

Lemma safe_admit cl i rid latest m0 :
  entitled cl i -> safe (CAuth cl) (fun m r => answer_ok (CAuth cl) m (AAllowed r)) m0 (admit_device cl i rid latest).
Proof.
  intros He [dev|e]; [|done]. case_decide; [done|]. destruct (latest dev); [|done].
  apply safe_load. intros own t m Hg Hok. simpl. split_and!.
  - by apply (put_session_ok i rid cl _ own t m).
  - by apply grows_frame.
  - intros k s Hs. destruct (decide (k = CN i)) as [->|Hne].
    + right. eexists. split; [apply lookup_insert_eq|done].
    + left. simpl. by rewrite lookup_insert_ne.
  - intros m1 _. eauto.
Qed.

Lemma safe_auth cl m0 :
  safe (CAuth cl) (fun m r => answer_ok (CAuth cl) m (AAllowed r)) m0 (OnConnectAuthenticate cl).
Proof.
  unfold OnConnectAuthenticate. destruct (Peers (clients cl)) as [[|leaf rest]|] eqn:Ep; [done|..].
  - destruct (ParseCN _) as [i|] eqn:En; [|done]. apply ParseCN_iff in En as [Hw Hn].
    apply safe_read. intros t m Hg Hok. unfold Lookup. destruct (byName m !! _) as [rc|] eqn:El; [|done].
    apply (safe_read _ _ (fun t _ => t)). intros at_ m' _ _.
    destruct (VerifyChain (rcCert rc) rest leaf at_) eqn:Ev; [|done]. apply safe_admit. split; [done|].
    rewrite Ep. split; [done|]. exists (rcCert rc), at_. split; [by eapply pools_anchored|done].
  - destruct (_ || _) eqn:Ed; [done|]. bool_hyps. destruct (ParseCN _) as [i|] eqn:En; [|done].
    apply ParseCN_iff in En as [Hw Hn]. apply safe_read. intros t m Hg Hok. unfold Lookup.
    destruct (byName m !! _) as [rc|] eqn:El; [|done]. apply safe_admit. split; [done|]. by rewrite Ep.
Qed.

Lemma safe_acl cl topic write m0 :
  safe (CACL cl topic write) (fun m r => answer_ok (CACL cl topic write) m (AAllowed r)) m0 (OnACLCheck cl topic write).
Proof.
  unfold OnACLCheck. destruct (Inline (clients cl)) eqn:Ei; [by left|].
  assert (forall b m m1, (b = true -> below (ClientID (clients cl)) topic) -> grows m m1 ->
    safe (CACL cl topic write) (fun m r => answer_ok (CACL cl topic write) m (AAllowed r)) m1 (Done b)) as Hd.
  { intros [] m m1 Hb _ m2 _; [|done]. right. by apply Hb. }
  apply safe_own_session. intros m [s|] Hg Hok Hs.
  - destruct (Hs s eq_refl) as [Hcl Hl]. destruct (sessions_entitled _ Hok _ _ Hl) as [Hk _].
    apply safe_checkACL; [intros iface kk; apply safe_live|]. intros b m1 Hb. apply Hd. unfold BaseTopic in Hb. by rewrite Hk.
  - destruct write; [done|]. apply safe_checkACL; [intros iface kk; apply safe_offline|]. intros b m1 Hb. by apply Hd.
Qed.

Lemma emit_frame e m : byName (emit e m) = byName m /\ sessions (emit e m) = sessions m /\
  submitted (emit e m) = submitted m /\ acked (emit e m) = acked m.
Proof. unfold emit. by destruct (hasSink h). Qed.

Lemma safe_established cl m0 : safe (CEstablished cl) (fun m r => answer_ok (CEstablished cl) m AUnit) m0 (OnSessionEstablished cl).
Proof.
  apply safe_own_session. intros m [s|] Hg Hok Hs; [|done]. apply (safe_read _ _ (fun t _ => t)).
  intros at_ m1 _ _ r. apply safe_frame; [intros; apply emit_frame|done].
Qed.

Lemma safe_disconnect cl m0 : safe (CDisconnect cl) (fun m r => answer_ok (CDisconnect cl) m AUnit) m0 (OnDisconnect cl).
Proof.
  apply safe_read. intros t m Hg Hok. destruct (bool_decide _); [done|]. intros t1 m1 Hg1 Hok1. unfold removeIfOwner.
  destruct (sessions m1 !! ClientID (clients cl)) as [s|] eqn:El; cbn [fst snd]; [|split_and!; [done|done|by left|done]].
  case_decide as Hc; cbn [fst snd]; [|split_and!; [done|done|by left|done]]. split_and!.
  - destruct Hok1 as [Hp Hs Hi]. split; simpl; [done| |done]. intros k s' [_ ?]%lookup_delete_Some. auto.
  - by apply grows_frame.
  - intros k s' Hk. destruct (decide (k = ClientID (clients cl))) as [->|Hne]; [|left; simpl; by rewrite lookup_delete_ne].
    right. simpl. split; congruence.
  - apply (safe_read _ _ (fun t _ => t)). intros at_ m2 _ _ r. apply safe_frame; [intros; apply emit_frame|done].
Qed.

Lemma safe_publish cl pk m0 : safe (CPublish cl pk) (fun m r => answer_ok (CPublish cl pk) m (ACode r)) m0 (OnPublish cl pk).
Proof.
  unfold OnPublish. destruct (Inline (clients cl)); [done|]. apply safe_own_session. intros m [s|] Hg Hok Hs; [|done].
  destruct (Hs s eq_refl) as [Hcl Hl]. destruct (sessions_entitled _ Hok _ _ Hl) as [Hk He]. rewrite Hcl in He.
  apply (safe_read _ _ (fun t _ => t)). intros at_ m1 _ _. apply safe_write. intros t m2 _ Hok2.
  set (msg := MkInbound _ _ _ _ _ _). assert (submitted m2 `prefix_of` submitted m2 ++ [(cl, msg)]) as Hpre by (by eexists).
  unfold submit. cbn [fst snd]. split_and!; [|by split|done|].
  - destruct Hok2 as [Hp Hs2 Hi]. split; simpl; [done..|]. intros cl' msg' [?|Hin]%elem_of_app; [auto|].
    apply list_elem_of_singleton in Hin as [= -> ->]. exists (identity s). done.
  - set (n := length (submitted m2)). assert (forall m3, grows (submit cl msg m2).2 m3 -> (Qos pk <> 0%Z -> n ∈ acked m3) ->
      answer_ok (CPublish cl pk) m3 (ACode SuccessIgnore)) as Hd.
    { intros m3 Hg3 Ha. exists n, msg. split; [|done]. eapply prefix_lookup_Some; [|apply Hg3]. simpl.
      by apply list_lookup_middle. }
    destruct (Z.eqb_spec (Qos pk) 0) as [Hq|Hq]; [intros m3 Hm3; by apply Hd|].
    intros m3 [] Hm3 Hb m4 Hm4; [|done]. apply Hd; [by etrans|]. intros _. apply Hm4, Hb. done.
Qed.

Lemma load_pools_anchored d acc :
  db_anchored d -> (forall name rc, acc !! name = Some rc -> anchor name (rcCert rc)) ->
  forall name rc, load_pools (ListRealms d) acc !! name = Some rc -> anchor name (rcCert rc).
Proof.
  intros Hd. unfold ListRealms. generalize (collate (map_to_list (realms d)).*1) as names. intros names.
  revert acc. induction names as [|n names IH]; intros acc Ha; simpl; [done|].
  destruct (realms d !! n) as [r|] eqn:Er; simpl; [|by apply IH].
  destruct (Pairing.ParseCertificatePEM (CACertificatePEM r)) as [c|] eqn:Ec; [|by apply IH].
  apply IH. intros name rc [[<- <-]|[_ ?]]%lookup_insert_Some; [by eapply Hd|auto].
Qed.

Lemma safe_reload m0 : safe CReload (fun m r => answer_ok CReload m (AErr r)) m0 ReloadRealms.
Proof.
  intros [rows|e] Hr; [|done]. destruct (Hr rows eq_refl) as (d & -> & Hd). apply safe_write. intros t m Hg Hok. simpl.
  split_and!; [|by apply grows_frame|done|done]. destruct Hok as [Hp Hs Hi]. split; simpl; [|done..].
  by apply load_pools_anchored.
Qed.

Lemma body_safe c m : safe c (answer_ok c) m (body c).
Proof.
  destruct c as [cl|cl topic write|cl|cl|cl pk|realm id|realm id|]; unfold body; apply safe_then.
  - apply safe_auth.
  - apply safe_acl.
  - apply safe_established.
  - apply safe_disconnect.
  - apply safe_publish.
  - apply safe_read. intros t m' Hg _. destruct (get _ m'); [|done]. by apply safe_frame.
  - apply safe_read. intros t m' Hg _. destruct (get _ m'); [|done]. by apply safe_refresh.
  - apply safe_reload.
Qed.

(** ** Reachable states *)

(** A step in which the authorities in the store stay among the anchors. *)
Definition astep (w w' : world) : Prop := step w w' /\ db_anchored (wdb w').
Definition start (d : db) : world := MkWorld empty_mem d [] [].

Record world_ok (w : world) : Prop := {
  world_mem : mem_ok (wmem w);
  world_db : db_anchored (wdb w);
  world_running : Forall (fun x => safe x.1 (answer_ok x.1) (wmem w) x.2) (running w);
  world_answered : Forall (fun x => answer_ok x.1 (wmem w) x.2) (answered w);
}.

Lemma acts_safe c Q m d p m' d' p' :
  mem_ok m -> db_anchored d -> safe c Q m p -> acts m d p m' d' p' ->
  mem_ok m' /\ grows m m' /\ guarantees c m m' /\ safe c Q m' p'.
Proof.
  intros Hok Hd HS Ha. destruct Ha; simpl in HS.
  - by apply HS.
  - split_and!; [done|done|by left|apply HS].
  - split_and!; [done|done|by left|apply HS].
  - split_and!; [done|done|by left|]. apply HS. intros rows [= <-]. eauto.
  - split_and!; [done|done|by left|]. by apply HS.
  - split_and!; [done|done|by left|]. by apply (HS m true).
  - split_and!; [done|done|by left|]. by apply (HS m false).
Qed.

Lemma environment_ok m d m' d' :
  environment m d m' d' -> mem_ok m -> mem_ok m' /\ grows m m' /\ sessions m' = sessions m.
Proof. intros He [Hp Hs Hi]. destruct He; simpl; (split_and!; [by split|split; simpl; set_solver|done]). Qed.

Lemma running_grows m m' (l : list (invocation * hook answer)) :
  grows m m' -> Forall (fun x => safe x.1 (answer_ok x.1) m x.2) l -> Forall (fun x => safe x.1 (answer_ok x.1) m' x.2) l.
Proof. intros Hg Hl. apply (Forall_impl _ _ _ Hl). intros x ?. by eapply safe_grows. Qed.
Lemma answered_grows m m' (l : list (invocation * answer)) :
  grows m m' -> Forall (fun x => answer_ok x.1 m x.2) l -> Forall (fun x => answer_ok x.1 m' x.2) l.
Proof. intros Hg Hl. apply (Forall_impl _ _ _ Hl). intros x. by apply answer_ok_grows. Qed.

(** A step keeps everything in order and changes a session only as the hook
    that acts may. *)
Lemma astep_ok w w' :
  world_ok w -> astep w w' ->
  world_ok w' /\ forall k s, sessions (wmem w) !! k = Some s -> sessions (wmem w') !! k = Some s \/
    exists i c p, running w !! i = Some (c, p) /\ may_change c k s (wmem w').
Proof.
  intros [Hm Hd Hr Ha] [Hst Hd']. destruct Hst as [w m d He|c w|i c p m d p' w Hi Hact|i c r w Hi]; simpl in *.
  - destruct (environment_ok _ _ _ _ He Hm) as (Hok & Hg & Hs). split; [|intros k s; rewrite Hs; by left].
    split; simpl; [done|done|by eapply running_grows|by eapply answered_grows].
  - split; [|by left]. split; simpl; [done..| |done]. apply Forall_app. split; [done|].
    apply Forall_singleton, body_safe.
  - pose proof (Forall_lookup_1 _ _ _ _ Hr Hi) as HS.
    destruct (acts_safe _ _ _ _ _ _ _ _ Hm Hd HS Hact) as (Hok & Hg & Hgu & HS'). split.
    + split; simpl; [done|done| |by eapply answered_grows]. apply Forall_insert; [by eapply running_grows|done].
    + intros k s [?|?]%Hgu; [by left|right; eauto 6].
  - pose proof (Forall_lookup_1 _ _ _ _ Hr Hi) as HS. split; [|by left]. split; simpl; [done|done|by apply Forall_delete|].
    apply Forall_app. split; [done|]. apply Forall_singleton. by apply HS.
Qed.

Lemma broker_reachable_ok d w : db_anchored d -> rtc astep (start d) w -> world_ok w.
Proof.
  intros Hd Hr. cut (forall w0 w, rtc astep w0 w -> world_ok w0 -> world_ok w).
  { intros Hall. apply (Hall _ _ Hr). split; [|done|constructor..]. split; simpl; [by intros ??..|by intros ?? ?%elem_of_nil]. }
  clear. intros w0 w. induction 1 as [|w0 w1 w Hst _ IH]; [done|]. intros Hw. apply IH. by destruct (astep_ok _ _ Hw Hst).
Qed.

(** C4. However connections, store changes, reloads and shutdown interleave: a
    session is registered under the name of its device, and its connection
    presented a certificate with that name that verified under an authority of
    the realm, or is a plaintext one of the development listener; and every
    message handed to the engine carries the device of the connection that
    published it, which is the one its client identifier names. *)
Theorem live_sessions_entitled d w :
  db_anchored d -> rtc astep (start d) w ->
  (forall k s, sessions (wmem w) !! k = Some s -> k = CN (identity s) /\ entitled (client s) (identity s)) /\
  (forall cl msg, (cl, msg) ∈ submitted (wmem w) -> exists i, entitled cl i /\ ClientID (clients cl) = CN i /\
     imRealm msg = Identity.Realm i /\ imDevice msg = DeviceID_ i).
Proof. intros Hd Hr. destruct (broker_reachable_ok _ _ Hd Hr) as [[_ Hs Hi] _ _ _]. done. Qed.

(** C22. A registered session changes only in two ways: a newly admitted connection
    of the same device takes its place, or the disconnect of its own connection
    removes it. The disconnect of a connection that was replaced never evicts
    its successor. *)
Theorem takeover_keeps_session d w w' k s :
  db_anchored d -> rtc astep (start d) w -> astep w w' -> sessions (wmem w) !! k = Some s ->
  sessions (wmem w') !! k <> Some s ->
  exists i c p, running w !! i = Some (c, p) /\
    ((exists s', c = CAuth (client s') /\ sessions (wmem w') !! k = Some s') \/
     (c = CDisconnect (client s) /\ k = ClientID (clients (client s)))).
Proof.
  intros Hd Hr Hst Hk Hn. destruct (astep_ok _ _ (broker_reachable_ok _ _ Hd Hr) Hst) as [_ Hc].
  destruct (Hc k s Hk) as [?|(i & c & p & Hi & Hm)]; [done|]. exists i, c, p. split; [done|].
  destruct c; simpl in Hm; try done.
  - left. destruct Hm as (s' & ? & <-). eauto.
  - right. by destruct Hm as [<- ->].
Qed.

(** C13. What the hooks answered, in any execution: a connection let in is entitled
    to its device; a topic allowed to a device connection is its client
    identifier or below it; a publish acknowledged to a device was handed to the
    engine with its topic, payload and quality of service, and above quality of
    service 0 the engine had acknowledged it. *)
Theorem hook_answers_sound d w c r :
  db_anchored d -> rtc astep (start d) w -> (c, r) ∈ answered w -> answer_ok c (wmem w) r.
Proof.
  intros Hd Hr Hin. pose proof (world_answered _ (broker_reachable_ok _ _ Hd Hr)) as Ha.
  rewrite Forall_forall in Ha. exact (Ha _ Hin).
Qed.

End Safety.

(** ** A hook on its own *)

(** At instant [t], with every store call answered; [None] while it waits. *)
Fixpoint hrun {R : Type} (t : Z) (p : hook R) (m : mem) (d : db) : option (R * mem * db) :=
  match p with
  | Done r => Some (r, m, d)
  | Store s k => hrun t (k (exec s d).1) m (exec s d).2
  | Rows k => hrun t (k (Ok (ListRealms d))) m d
  | Mem f k => hrun t (k (f t m).1) (f t m).2 d
  | Wait n k => if decide (n ∈ acked m) then hrun t (k true) m d
                else if closing m then hrun t (k false) m d else None
  end.

(** The ownership of the introspected interfaces that are installed. *)
Definition owned (d : db) (rid : Z) (intro : gmap gostring InterfaceVersion) : ownerships :=
  map_imap (fun name ver => match (GetInterface rid name (vMajor ver) d).1 with
                            | Ok si => Some (siOwnership si) | Err _ => None end) intro.

Lemma hrun_load {R : Type} (t rid : Z) (intro : gmap gostring InterfaceVersion) (k : ownerships -> hook R) (m : mem) (d : db) :
  hrun t (loadOwnership rid intro k) m d = hrun t (k (owned d rid intro)) m d.
Proof.
  unfold loadOwnership.
  assert (forall l acc, NoDup l.*1 -> (forall n, n ∈ l.*1 -> acc !! n = None) ->
    hrun t (load_each rid l acc k) m d = hrun t (k (owned d rid (list_to_map l) ∪ acc)) m d) as Hl.
  { induction l as [|[name ver] l IH]; intros acc Hnd Hacc; simpl.
    - replace (owned d rid ∅ ∪ acc) with acc; [done|]. unfold owned. by rewrite map_imap_empty, (left_id_L ∅ (∪)).
    - apply NoDup_cons in Hnd as [Hn Hnd].
      assert (owned d rid (<[name := ver]> (list_to_map l)) ∪ acc =
        owned d rid (list_to_map l) ∪ match (GetInterface rid name (vMajor ver) d).1 with
                                      | Ok si => <[name := siOwnership si]> acc | Err _ => acc end) as ->.
      { apply map_eq. intros j. rewrite !lookup_union. unfold owned. rewrite !map_lookup_imap.
        destruct (decide (j = name)) as [->|Hj].
        - rewrite lookup_insert_eq. rewrite (not_elem_of_list_to_map_1 (M := gmap gostring) l name) by done. cbn [mbind option_bind].
          rewrite Hacc by left. destruct (GetInterface rid name (vMajor ver) d).1; [by rewrite lookup_insert_eq|by rewrite Hacc by left].
        - rewrite lookup_insert_ne by done. destruct (GetInterface rid name (vMajor ver) d).1; [by rewrite lookup_insert_ne by done|done]. }
      change (hrun t (match (GetInterface rid name (vMajor ver) d).1 with
        | Ok si => load_each rid l (<[name := siOwnership si]> acc) k | Err _ => load_each rid l acc k end) m d =
        hrun t (k (owned d rid (list_to_map l) ∪ match (GetInterface rid name (vMajor ver) d).1 with
                                      | Ok si => <[name := siOwnership si]> acc | Err _ => acc end)) m d).
      destruct (GetInterface rid name (vMajor ver) d).1; apply IH; [done| |done|].
      + intros n Hin. rewrite lookup_insert_ne by (intros ->; done). apply Hacc. by right.
      + intros n Hin. apply Hacc. by right. }
  rewrite Hl; [|apply NoDup_fst_map_to_list|done]. by rewrite list_to_map_to_list, (right_id_L ∅ _).
Qed.

Lemma load_pools_spec d name :
  load_pools (ListRealms d) ∅ !! name =
    (r ← realms d !! name; c ← Pairing.ParseCertificatePEM (CACertificatePEM r); Some (MkRealmCA (RealmID r) name c)).
Proof.
  unfold ListRealms.
  assert (forall names acc, load_pools (omap (fun n => r ← realms d !! n; Some (n, r)) names) acc !! name =
    match (if decide (name ∈ names) then r ← realms d !! name; c ← Pairing.ParseCertificatePEM (CACertificatePEM r);
             Some (MkRealmCA (RealmID r) name c) else None) with Some x => Some x | None => acc !! name end) as Hn.
  { induction names as [|n names IH]; intros acc; simpl; [done|].
    destruct (decide (name = n)) as [<-|Hne].
    - rewrite (decide_True (P := name ∈ name :: names)) by left.
      destruct (realms d !! name) as [r|] eqn:Er; simpl; [|rewrite IH; by destruct (decide (name ∈ names))].
      destruct (Pairing.ParseCertificatePEM (CACertificatePEM r)) as [c|] eqn:Ec; simpl; rewrite IH;
        destruct (decide (name ∈ names)); simpl; rewrite ?Ec; simpl; rewrite ?lookup_insert_eq; done.
    - rewrite (decide_ext (name ∈ n :: names) (name ∈ names)) by set_solver.
      destruct (realms d !! n) as [r|]; simpl; [|apply IH].
      destruct (Pairing.ParseCertificatePEM (CACertificatePEM r)) as [c|]; [|apply IH].
      rewrite IH. by rewrite lookup_insert_ne. }
  rewrite Hn, lookup_empty. case_decide as Hin; [by destruct (_ ≫= _)|].
  destruct (realms d !! name) as [r|] eqn:Er; [|done]. exfalso. apply Hin. rewrite collate_perm.
  apply list_elem_of_fmap. exists (name, r). split; [done|]. by apply elem_of_map_to_list.
Qed.

(** ** Who gets in *)

(** The connection may come in now: the realm is loaded, the device exists and
    is not inhibited, and the credentials are right. *)
Record admissible (t : Z) (m : mem) (d : db) (cl : client_ptr) (i : Identity) (rc : realmCA) (dev : Device) : Prop := {
  adm_identity : wf_identity i;
  adm_realm : byName m !! Identity.Realm i = Some rc;
  adm_device : devices d !! (rcID rc, DeviceID_ i) = Some dev;
  adm_status : Status dev <> DeviceStatusInhibited;
  adm_credentials : match Peers (clients cl) with
    | Some [] => False
    | Some (leaf :: rest) =>
        Pairing.CommonName leaf = CN i /\ VerifyChain (rcCert rc) rest leaf t = true /\
        (enforceLatestCert h = true ->
           CertSerial dev = Some (Pairing.serial_string (Pairing.SerialNumber leaf)) /\
           CertAKI dev = Some (Hex.encode (Pairing.AuthorityKeyId leaf)))
    | None => devListenerID h <> [] /\ Listener (clients cl) = devListenerID h /\ ClientID (clients cl) = CN i
    end;
}.

Lemma isLatestCert_spec leaf dev :
  isLatestCert leaf dev = true <->
  CertSerial dev = Some (Pairing.serial_string (Pairing.SerialNumber leaf)) /\
  CertAKI dev = Some (Hex.encode (Pairing.AuthorityKeyId leaf)).
Proof.
  unfold isLatestCert. destruct (CertSerial dev) as [serial|], (CertAKI dev) as [aki|]; try naive_solver.
  rewrite andb_true_iff, !bool_decide_eq_true. naive_solver.
Qed.

Lemma hrun_admit cl i rid latest t m d :
  hrun t (admit_device cl i rid latest) m d =
    match devices d !! (rid, DeviceID_ i) with
    | Some dev =>
        if decide (Status dev <> DeviceStatusInhibited /\ latest dev = true)
        then Some (true, (put i rid cl (remoteAddr (Remote (clients cl))) (owned d rid (Introspection dev)) t m).2, d)
        else Some (false, m, d)
    | None => Some (false, m, d)
    end.
Proof.
  unfold admit_device. cbn [hrun exec]. unfold GetDevice, reads. cbn [fst snd].
  destruct (devices d !! _) as [dev|]; [|done]. cbn [or_err]. case_decide as Hs; [rewrite decide_False by tauto; done|].
  destruct (latest dev); [|rewrite decide_False by naive_solver; done]. rewrite decide_True by done.
  cbn [negb]. unfold admit_session. rewrite hrun_load. reflexivity.
Qed.

(** The outcome of a connection. *)
Definition connected (t : Z) (m : mem) (d : db) (cl : client_ptr) (r : option (bool * mem * db)) : Prop :=
  (exists i rc dev, admissible t m d cl i rc dev /\
     r = Some (true, (put i (rcID rc) cl (remoteAddr (Remote (clients cl))) (owned d (rcID rc) (Introspection dev)) t m).2, d)) \/
  ((forall i rc dev, ~ admissible t m d cl i rc dev) /\ r = Some (false, m, d)).

(** Both paths, from the realm lookup on. *)
Lemma connected_from t m d cl i (good : realmCA -> bool) (latest : Device -> bool) :
  (forall j rc dev, admissible t m d cl j rc dev <->
     j = i /\ byName m !! Identity.Realm i = Some rc /\ devices d !! (rcID rc, DeviceID_ i) = Some dev /\
     Status dev <> DeviceStatusInhibited /\ good rc = true /\ latest dev = true) ->
  connected t m d cl
    match byName m !! Identity.Realm i with
    | None => Some (false, m, d)
    | Some rc => if good rc then hrun t (admit_device cl i (rcID rc) latest) m d else Some (false, m, d)
    end.
Proof.
  intros Hadm. unfold connected. destruct (byName m !! _) as [rc|] eqn:Er.
  2:{ right. split; [|done]. intros j rc dev (_ & ? & _)%Hadm. done. }
  destruct (good rc) eqn:Eg.
  2:{ right. split; [|done]. intros j rc' dev (_ & ? & _ & _ & ? & _)%Hadm. congruence. }
  rewrite hrun_admit. destruct (devices d !! _) as [dev|] eqn:Ed.
  2:{ right. split; [|done]. intros j rc' dev (_ & ? & ? & _)%Hadm. by simplify_eq. }
  case_decide as Hd.
  - left. exists i, rc, dev. split; [|done]. apply Hadm. by destruct Hd.
  - right. split; [|done]. intros j rc' dev' (_ & ? & ? & ? & _ & ?)%Hadm. simplify_eq. naive_solver.
Qed.

Lemma CN_inj i j : wf_identity i -> wf_identity j -> CN i = CN j -> i = j.
Proof.
  intros Hi Hj E. assert (ParseCN (CN i) = Ok i) as E1 by (by apply ParseCN_iff).
  rewrite E, (proj2 (ParseCN_iff _ j)) in E1 by done. congruence.
Qed.

Lemma connect_spec t m d cl : connected t m d cl (hrun t (OnConnectAuthenticate cl) m d).
Proof.
  assert (forall r, (forall i rc dev, ~ admissible t m d cl i rc dev) -> r = Some (false, m, d) -> connected t m d cl r) as Hno
    by (by right).
  unfold OnConnectAuthenticate. destruct (Peers (clients cl)) as [[|leaf rest]|] eqn:Ep.
  - apply Hno; [|done]. intros i rc dev [_ _ _ _ Hc]. by rewrite Ep in Hc.
  - destruct (ParseCN _) as [i|e] eqn:En.
    2:{ apply Hno; [|done]. intros i rc dev [Hw _ _ _ Hc]. rewrite Ep in Hc. destruct Hc as [Hcn _].
        by rewrite Hcn, (proj2 (ParseCN_iff _ i)) in En. }
    apply ParseCN_iff in En as [Hw Hn]. eassert (connected t m d cl _) as Hfrom; [apply (connected_from t m d cl i
      (fun rc => VerifyChain (rcCert rc) rest leaf t) (fun dev => negb (enforceLatestCert h) || isLatestCert leaf dev))|].
    + intros j rc dev. rewrite orb_true_iff, negb_true_iff, isLatestCert_spec. split.
      * intros [Hwj Hr Hd Hs Hc]. rewrite Ep, Hn in Hc. destruct Hc as (Hij & Hv & Hl).
        rewrite (CN_inj _ _ Hw Hwj Hij) in *. split_and!; try done. destruct (enforceLatestCert h); auto.
      * intros (-> & Hr & Hd & Hs & Hv & Hl). split; try done. rewrite Ep. split_and!; [done..|]. intros He. destruct Hl as [Hl|Hl]; [congruence|done].
    + cbn [hrun fst snd]. unfold Lookup. destruct (byName m !! _) as [rc|]; [|exact Hfrom].
      unfold clock. cbn [hrun fst snd]. by destruct (VerifyChain (rcCert rc) rest leaf t).
  - destruct (_ || _) eqn:El.
    { apply Hno; [|done]. intros i rc dev [_ _ _ _ Hc]. rewrite Ep in Hc. destruct Hc as (Hd & Hl & _).
      apply orb_true_iff in El as [?|?]; bool_hyps; done. }
    bool_hyps. destruct (ParseCN _) as [i|e] eqn:En.
    2:{ apply Hno; [|done]. intros i rc dev [Hw _ _ _ Hc]. rewrite Ep in Hc. destruct Hc as (_ & _ & Hn).
        by rewrite Hn, (proj2 (ParseCN_iff _ i)) in En. }
    apply ParseCN_iff in En as [Hw Hn]. eassert (connected t m d cl _) as Hfrom; [apply (connected_from t m d cl i (fun _ => true) (fun _ => true))|].
    + intros j rc dev. split.
      * intros [Hwj Hr Hd Hs Hc]. rewrite Ep, Hn in Hc. destruct Hc as (_ & _ & Hij).
        rewrite (CN_inj _ _ Hw Hwj Hij) in *. done.
      * intros (-> & Hr & Hd & Hs & _). split; try done. by rewrite Ep.
    + cbn [hrun fst snd]. unfold Lookup. by destruct (byName m !! _) as [rc|].
Qed.


(** *** With the certificates pairing issues *)

Lemma SignCSR_aki ca csr realm deviceID ttl at_ serial pem ser aki leaf :
  Pairing.SignCSR ca csr realm deviceID ttl at_ serial = Ok (pem, ser, aki, leaf) -> aki = Hex.encode (Pairing.AuthorityKeyId leaf).
Proof.
  unfold Pairing.SignCSR. destruct (Pairing.parseCSR csr) as [[pub signed]|]; [|done]. destruct (negb signed); [done|].
  destruct (_ || _); [done|]. by intros [= _ _ <- <-].
Qed.


Lemma realm_name_broker d name r :
  db_ok d -> realms d !! name = Some r -> length name <= 48 -> validRealmName name = true.
Proof.
  intros Hok Hr Hlen. pose proof (realm_name_valid _ _ (ok_realms _ Hok) _ _ Hr) as Hn. unfold realm_name_ok in Hn.
  apply andb_true_iff in Hn as [Hne%negb_true_iff Hfrom]. unfold validRealmName, maxRealmNameLen. rewrite Hne, Hfrom. simpl.
  by destruct (Nat.ltb_spec 48 (length name)); [lia|].
Qed.

(** What an issuance leaves behind. *)
Lemma issuance_facts cfg d realmName deviceID secret csr ip at_ serial pem leaf d' :
  run (Pairing.Credentials cfg realmName deviceID secret csr ip at_ serial) d = (Ok (pem, leaf), d') ->
  exists realm id dev ca, DeviceID.Parse deviceID = Ok id /\ realms d !! realmName = Some realm /\ realms d' = realms d /\
    Pairing.ParseCertificatePEM (CACertificatePEM realm) = Some (Pairing.cert ca) /\
    devices d' !! (RealmID realm, id) = Some dev /\ Status dev <> DeviceStatusInhibited /\
    CertSerial dev = Some (Pairing.serial_string serial) /\ CertAKI dev = Some (Hex.encode (Pairing.AuthorityKeyId leaf)) /\
    Pairing.SerialNumber leaf = serial /\ Pairing.CommonName leaf = CN (MkIdentity realmName id) /\
    (Pairing.IsCA (Pairing.cert ca) = true -> forall t, (at_ <= t <= Pairing.NotAfter leaf)%Z -> Pairing.x509_verify (Pairing.cert ca) leaf t = Ok ()).
Proof.
  intros Hrun. destruct (Pairing.credentials_spec cfg d realmName deviceID secret csr ip at_ serial)
    as [(realm & id & dev & ca & pem0 & ser & aki & leaf0 & Ha & Hs & Hl & Hsign & Hr)|(e & Hr & _)];
    rewrite Hrun in Hr; [injection Hr as <- <- ->|done].
  pose proof (SignCSR_aki _ _ _ _ _ _ _ _ _ _ _ Hsign) as ->.
  apply Pairing.SignCSR_spec in Hsign as (-> & -> & Hserial & Hcn & Hnb & Hat & Hna & Hca & Hsig).
  exists realm, id, (Pairing.stamped d (Pairing.serial_string serial) (Hex.encode (Pairing.AuthorityKeyId leaf)) ip dev), ca.
  split_and!; try done; [apply Ha|apply Ha|by apply Pairing.loadCA_cert|apply lookup_insert_eq|]. intros Hisca t Ht.
  unfold Pairing.x509_verify, Pairing.in_window, Pairing.clockSkewBackdate, Pairing.minute in *.
  rewrite !(proj2 (Z.leb_le _ _)) by lia. simpl. by rewrite bool_decide_eq_true_2, Hisca, Hca.
Qed.

(** C14. Issuance and connection together, for a realm with a name of at most 48
    bytes whose stored certificate is an authority's, on the tables as the
    issuance left them and with the broker's authorities loaded from them: a
    client that presents a certificate pairing issued gets in from the moment it
    is issued until it expires, whether or not the latest one is enforced, and
    its session is registered under the device's name; once another certificate
    has been issued to it, enforcement keeps the first one out. *)
Theorem issued_certificate_connects cfg d realmName deviceID secret csr ip at_ serial pem leaf d' m cl t :
  db_ok d -> Pairing.stored_authority d realmName -> length realmName <= 48 ->
  run (Pairing.Credentials cfg realmName deviceID secret csr ip at_ serial) d = (Ok (pem, leaf), d') ->
  byName m = load_pools (ListRealms d') ∅ -> Peers (clients cl) = Some [leaf] ->
  (at_ <= t <= Pairing.NotAfter leaf)%Z ->
  exists id, DeviceID.Parse deviceID = Ok id /\
  (exists m', hrun t (OnConnectAuthenticate cl) m d' = Some (true, m', d') /\
     exists s, sessions m' !! CN (MkIdentity realmName id) = Some s /\ client s = cl) /\
  (forall csr2 ip2 at2 serial2 r2 d2, enforceLatestCert h = true -> Pairing.serial_ok serial -> Pairing.serial_ok serial2 ->
     serial2 <> serial -> run (Pairing.Credentials cfg realmName deviceID secret csr2 ip2 at2 serial2) d' = (Ok r2, d2) ->
     hrun t (OnConnectAuthenticate cl) m d2 = Some (false, m, d2)).
Proof.
  intros Hok Hauth Hlen Hrun Hpools Hpeers Ht.
  destruct (issuance_facts _ _ _ _ _ _ _ _ _ _ _ _ Hrun)
    as (realm & id & dev & ca & Hid & Hrealm & Hrs & Hca & Hdev & Hs & Hser & Haki & Hserial & Hcn & Hver).
  assert (wf_identity (MkIdentity realmName id)) as Hw.
  { split; [by eapply realm_name_broker|]. by eapply DeviceID.Parse_length. }
  assert (byName m !! realmName = Some (MkRealmCA (RealmID realm) realmName (Pairing.cert ca))) as Hrc.
  { rewrite Hpools, load_pools_spec, Hrs, Hrealm. simpl. by rewrite Hca. }
  assert (forall d i rc dv, admissible t m d cl i rc dv -> i = MkIdentity realmName id) as Hi.
  { intros d0 i rc dv [Hwi _ _ _ Hcr]. rewrite Hpeers, Hcn in Hcr. apply CN_inj; [done..|]. by destruct Hcr. }
  exists id. split; [done|]. split.
  - destruct (connect_spec t m d' cl) as [(i & rc & dv & Hadm & Hc)|[Hn _]].
    + eexists. split; [exact Hc|]. rewrite (Hi _ _ _ _ Hadm). eexists. split; [apply lookup_insert_eq|done].
    + exfalso. eapply (Hn (MkIdentity realmName id) _ dev). split; [done|exact Hrc|done|done|].
      rewrite Hpeers, VerifyChain_leaf, Hserial. simpl. rewrite Hver; [done| |done]. by eapply Hauth.
  - intros csr2 ip2 at2 serial2 [pem2 leaf2] d2 He Ho1 Ho2 Hne Hrun2.
    destruct (issuance_facts _ _ _ _ _ _ _ _ _ _ _ _ Hrun2)
      as (realm2 & id2 & dev2 & ca2 & Hid2 & Hrealm2 & _ & _ & Hdev2 & _ & Hser2 & _).
    assert (realm2 = realm) as -> by congruence. assert (id2 = id) as -> by congruence.
    destruct (connect_spec t m d2 cl) as [(i & rc & dv & Hadm & _)|[_ Hc]]; [|exact Hc]. exfalso.
    rewrite (Hi _ _ _ _ Hadm) in Hadm. destruct Hadm as [_ Hri Hdv _ Hcr]. simpl in Hri, Hdv. rewrite Hrc in Hri.
    injection Hri as <-. simpl in Hdv. rewrite Hpeers in Hcr. destruct Hcr as (_ & _ & Hlat). destruct (Hlat He) as [Hl _].
    assert (Pairing.serial_string serial2 = Pairing.serial_string serial) as E by congruence.
    by apply Hne, Pairing.serial_string_inj.
Qed.

(** *** Schedules *)

(** A hook is invoked; the one at a position acts at an instant, or ends; a
    message is acknowledged. *)
Inductive event := EInvoke (c : invocation) | EAct (i : nat) (t : Z) | EAck (n : nat).

Definition act_on (w : world) (e : event) : world :=
  match e with
  | EInvoke c => MkWorld (wmem w) (wdb w) (running w ++ [(c, body c)]) (answered w)
  | EAck n => let m := wmem w in
      MkWorld (with_server (acked m ∪ {[n]}) (closing m) (taken m) (kicked m) m) (wdb w) (running w) (answered w)
  | EAct i t =>
      let put_back m d c p := MkWorld m d (<[i := (c, p)]> (running w)) (answered w) in
      match running w !! i with
      | Some (c, Done r) => MkWorld (wmem w) (wdb w) (delete i (running w)) (answered w ++ [(c, r)])
      | Some (c, Store s k) => put_back (wmem w) (exec s (wdb w)).2 c (k (exec s (wdb w)).1)
      | Some (c, Rows k) => put_back (wmem w) (wdb w) c (k (Ok (ListRealms (wdb w))))
      | Some (c, Mem f k) => put_back (f t (wmem w)).2 (wdb w) c (k (f t (wmem w)).1)
      | Some (c, Wait n k) => if decide (n ∈ acked (wmem w)) then put_back (wmem w) (wdb w) c (k true) else w
      | None => w
      end
  end.
Definition play (l : list event) (w : world) : world := foldl act_on w l.

Lemma act_on_step w e : act_on w e = w \/ step w (act_on w e).
Proof.
  destruct e as [c|i t|n]; simpl; [right; constructor| |right; constructor; constructor].
  destruct (running w !! i) as [[c [r|A s k|k|A f k|n k]]|] eqn:E; [..|by left];
    [right; by apply step_done|right; eapply step_act; [exact E|constructor]..|].
  case_decide; [|by left]. right. eapply step_act; [exact E|]. by constructor.
Qed.

Lemma play_reachable l w : rtc step w (play l w).
Proof.
  revert w. induction l as [|e l IH]; intros w; [constructor|]. change (play (e :: l) w) with (play l (act_on w e)).
  destruct (act_on_step w e) as [Hw|Hw]; [rewrite Hw; apply IH|eapply rtc_l; [exact Hw|apply IH]].
Qed.

Lemma play_snoc l e w : play (l ++ [e]) w = act_on (play l w) e.
Proof. unfold play. by rewrite foldl_app. Qed.

End Hooks.

(** ** Server-side publishes *)

(** The packet [Publisher.Publish] injects. *)
Record OutboundPacket := MkOutbound {
  opTopic : gostring;
  opPayload : gostring;
  opQos : Z;
  opRetain : bool;
  opPacketID : Z;
  MessageExpiryInterval : Z;
}.

Definition second : Z := 1000000000.
Definition max_uint32 : Z := 2 ^ 32 - 1.

Definition Publish (topic payload : gostring) (qos : Z) (retain : bool) (expiry : Z) : OutboundPacket :=
  let qos := if (2 <? qos)%Z then 2%Z else qos in
  MkOutbound topic payload qos retain qos
    (if (0 <? expiry)%Z
     then let secs := Z.quot (wrap 64 (expiry + second - 1)) second in
          let secs := if (max_uint32 <? secs)%Z then max_uint32 else secs in
          (secs mod 2 ^ 32)%Z
     else 0%Z).

(** The quality of service is one of the three, the packet identifier is set
    exactly above 0, and a positive expiry becomes the least number of whole
    seconds that covers it, at least one and capped at the largest interval;
    every expiry that is a second below the largest duration is in range. *)
Theorem publish_expiry_rounds_up topic payload qos retain expiry :
  (0 <= qos <= 255)%Z -> (expiry <= 2 ^ 63 - second)%Z ->
  let pk := Publish topic payload qos retain expiry in
  (0 <= opQos pk <= 2)%Z /\ (opPacketID pk = 0 <-> opQos pk = 0)%Z /\
  (expiry <= 0 -> MessageExpiryInterval pk = 0)%Z /\
  (0 < expiry -> 1 <= MessageExpiryInterval pk <= max_uint32 /\
     (MessageExpiryInterval pk - 1) * second < expiry /\
     (expiry <= MessageExpiryInterval pk * second \/ MessageExpiryInterval pk = max_uint32))%Z.
Proof.
  intros Hq He. simpl. unfold second, max_uint32 in *. split; [destruct (Z.ltb_spec 2 qos); lia|]. split; [done|].
  split; [intros; by destruct (Z.ltb_spec 0 expiry); [lia|]|]. intros Hpos. destruct (Z.ltb_spec 0 expiry); [|lia].
  rewrite (wrap_small 64) by lia.
  pose proof (Z.quot_div_nonneg (expiry + 1000000000 - 1) 1000000000) as Hq'. rewrite Hq' by lia. clear Hq'.
  pose proof (Z.div_mod (expiry + 1000000000 - 1) 1000000000) as Hdm.
  pose proof (Z.mod_pos_bound (expiry + 1000000000 - 1) 1000000000) as Hmb.
  set (q := ((expiry + 1000000000 - 1) / 1000000000)%Z) in *.
  destruct (Z.ltb_spec (2 ^ 32 - 1) q).
  - rewrite Z.mod_small by lia. lia.
  - rewrite Z.mod_small by lia. lia.
Qed.

(** ** A sample *)

#[local] Existing Instance Pairing.sample_crypto.
#[local] Existing Instance Pairing.sample_laws.

#[local] Instance sample_net : Net.
Proof.
  refine {| VerifyChain root _ leaf at_ := is_ok (Pairing.x509_verify root leaf at_); ParseAddrPort _ := None |}. done.
Defined.

Definition dev_mode : authHook := MkAuthHook true "dev"%go true.
Definition sample_device : Identity := MkIdentity "test"%go (sample_id "a").
Definition dev_clients (_ : client_ptr) : Client := MkClient (CN sample_device) None "dev"%go "10.0.0.1:5000"%go false.

Definition server_doc : interfaceJSON :=
  MkInterfaceJSON (Some "org.Server"%go) (Some 0%Z) (Some 1%Z) (Some Datastream) (Some OwnershipServer) None None None [] []
    [sample_mapping "/value"%go Double] false.
Definition broker_db : db :=
  (run (all_calls [existT _ (SInstallInterface 1 server_doc);
                   existT _ (SUpdateIntrospection 1 (sample_id "a") {[ "org.Server"%go := MkVersion 0 1 ]})])
       Pairing.registered_db).2.

(** A hook invoked at position [i] and run to its end. *)
Definition whole (i : nat) (t : Z) (c : invocation) : list event := EInvoke c :: replicate 12 (EAct i t).
Definition sample_play (l : list event) : world := play dev_mode dev_clients l (start broker_db).
Definition trusted (_ : gostring) (_ : Certificate) : Prop := True.

Lemma sample_reachable l : rtc (astep dev_mode dev_clients trusted) (start broker_db) (sample_play l).
Proof.
  apply (rtc_subrel (step dev_mode dev_clients)); [|apply play_reachable]. intros w w' Hst. by split.
Qed.

Definition boot : list event := whole 0 0 CReload ++ whole 0 10 (CAuth 0) ++ whole 0 20 (CEstablished 0).
Definition server_topic : gostring := CN sample_device ++ "/org.Server/value"%go.

Lemma live_sessions_entitled_witness :
  bool_decide (is_Some (sessions (wmem (sample_play boot)) !! CN sample_device)) = true /\
  forall k s, sessions (wmem (sample_play boot)) !! k = Some s -> k = CN (identity s).
Proof.
  split; [vm_compute; reflexivity|]. intros k s Hk.
  refine (proj1 (proj1 (live_sessions_entitled dev_mode dev_clients trusted broker_db (sample_play boot) _ (sample_reachable boot)) k s Hk)).
  by intros name r c.
Defined.

(** The second connection of the device takes the place of the first. *)
Definition second_auth : list event := boot ++ EInvoke (CAuth 1) :: replicate 3 (EAct 0 30).

Lemma takeover_keeps_session_witness :
  exists k s, sessions (wmem (sample_play second_auth)) !! k = Some s /\
    exists i c p, running (sample_play second_auth) !! i = Some (c, p) /\
    ((exists s', c = CAuth (client s') /\ sessions (wmem (sample_play (second_auth ++ [EAct 0 30]))) !! k = Some s') \/
     (c = CDisconnect (client s) /\ k = ClientID (dev_clients (client s)))).
Proof.
  set (w := sample_play second_auth). set (w' := sample_play (second_auth ++ [EAct 0 30])).
  assert (client <$> sessions (wmem w) !! CN sample_device = Some 0) as E1 by (vm_compute; reflexivity).
  assert (client <$> sessions (wmem w') !! CN sample_device = Some 1) as E2 by (vm_compute; reflexivity).
  apply fmap_Some in E1 as (s & Es & Ec). exists (CN sample_device), s. split; [exact Es|].
  refine (takeover_keeps_session dev_mode dev_clients trusted broker_db w w' _ s _ (sample_reachable _) _ Es _).
  - by intros name r c.
  - split; [|by intros name r c]. assert (w' = act_on dev_mode dev_clients w (EAct 0 30)) as Hw' by apply play_snoc.
    destruct (act_on_step dev_mode dev_clients w (EAct 0 30)) as [Hsame|Hst]; [exfalso|rewrite Hw'; exact Hst].
    rewrite Hw', Hsame, Es in E2. simpl in E2. congruence.
  - intros E. rewrite E in E2. simpl in E2. congruence.
Defined.

Definition sample_publish : invocation :=
  CPublish 0 (MkPacket false [] (CN sample_device ++ "/org.Test/value"%go) "7"%go 1).
Definition publishing : list event := boot ++ EInvoke sample_publish :: replicate 3 (EAct 0 40) ++ [EAck 0; EAct 0 50; EAct 0 50].

Lemma hook_answers_sound_witness :
  (fun x => match x with ACode SuccessIgnore => true | _ => false end) <$> last (answered (sample_play publishing)).*2 = Some true /\
  forall r, (sample_publish, r) ∈ answered (sample_play publishing) ->
    answer_ok dev_mode dev_clients trusted sample_publish (wmem (sample_play publishing)) r.
Proof.
  split; [vm_compute; reflexivity|]. intros r Hin.
  refine (hook_answers_sound dev_mode dev_clients trusted broker_db (sample_play publishing) sample_publish r _ (sample_reachable _) Hin).
  by intros name r' c.
Defined.

(** The disconnect of a connection that ended by itself is recorded in two
    actions: the device may come back in between, and ends up with a live
    session while its row says disconnected and the last event is
    device_disconnected. *)
Theorem stale_disconnect_recorded :
  exists w, rtc (step dev_mode dev_clients) (start broker_db) w /\ length (running w) = 0 /\
    client <$> sessions (wmem w) !! CN sample_device = Some 1 /\
    Connected <$> devices (wdb w) !! (1%Z, sample_id "a") = Some false /\
    leType <$> sink (wmem w) = [EventDeviceConnected; EventDeviceConnected; EventDeviceDisconnected].
Proof.
  exists (sample_play (boot ++ EInvoke (CDisconnect 0) :: replicate 3 (EAct 0 30) ++ whole 1 40 (CAuth 1) ++
                       whole 1 50 (CEstablished 1) ++ replicate 4 (EAct 0 60))).
  split; [apply play_reachable|]. vm_compute. done.
Qed.

(** While the permissions of an offline device are being loaded its entry is
    empty: a second delivery on the same topic is denied, although the device
    introspected the interface all along and the first delivery is allowed. *)
Theorem offline_load_denies :
  let deliver := CACL 0 server_topic false in
  exists w, rtc (step dev_mode dev_clients) (start broker_db) w /\ length (running w) = 0 /\
    (forall s, sessions (wmem w) !! CN sample_device <> Some s) /\
    (fun x => match x with AAllowed b => b | _ => false end) <$> drop 1 (answered w).*2 = [false; true].
Proof.
  intros deliver. exists (sample_play (whole 0 0 CReload ++ EInvoke deliver :: replicate 2 (EAct 0 10) ++
    whole 1 20 deliver ++ replicate 9 (EAct 0 30))).
  split; [apply play_reachable|]. split; [vm_compute; reflexivity|]. split; [vm_compute; discriminate|vm_compute; reflexivity].
Qed.

Lemma publish_expiry_rounds_up_witness :
  (1 <= MessageExpiryInterval (Publish [] [] 1 false 1500000000) <= max_uint32)%Z /\
  MessageExpiryInterval (Publish [] [] 1 false 1500000000) = 2%Z.
Proof.
  split; [|vm_compute; reflexivity].
  apply (publish_expiry_rounds_up [] [] 1 false 1500000000); [lia|unfold second; lia|lia].
Defined.

(** An expiry in the last second of the range overflows before the division:
    the interval is not the one asked for. *)
Theorem longest_expiry_wraps :
  MessageExpiryInterval (Publish [] [] 1 false (9223372036 * second)) = 3661529852%Z /\
  MessageExpiryInterval (Publish [] [] 1 false (9223372035 * second)) = max_uint32.
Proof. split; vm_compute; reflexivity. Qed.

(** A TLS client with the certificate [Pairing.issue] returned. *)
Definition tls_clients (leaf : Certificate) (_ : client_ptr) : Client :=
  MkClient (CN sample_device) (Some [leaf]) "mtls"%go [] false.

Lemma issued_certificate_connects_witness :
  exists pem leaf d' m', run (Pairing.issue 7) Pairing.registered_db = (Ok (pem, leaf), d') /\
    hrun 2000 (OnConnectAuthenticate (MkAuthHook true [] false) (tls_clients leaf) 0)
      (with_pools (load_pools (ListRealms d') ∅) [] empty_mem) d' = Some (true, m', d').
Proof.
  destruct (run (Pairing.issue 7) Pairing.registered_db) as [r d'] eqn:E.
  assert (match (run (Pairing.issue 7) Pairing.registered_db).1 with Ok x => (2000 <=? Pairing.NotAfter x.2)%Z | Err _ => false end = true) as Hr
    by (vm_compute; reflexivity).
  rewrite E in Hr. destruct r as [[pem leaf]|e]; [|discriminate Hr]. simpl in Hr. apply Z.leb_le in Hr.
  exists pem, leaf, d'.
  destruct (issued_certificate_connects (MkAuthHook true [] false) (tls_clients leaf) Pairing.pairing_cfg Pairing.registered_db
    "test"%go (Pairing.hw "a") "s3cret"%go "csr"%go "::1"%go 1000 7 pem leaf d'
    (with_pools (load_pools (ListRealms d') ∅) [] empty_mem) 0 2000 Pairing.registered_db_ok Pairing.registered_db_authority ltac:(simpl; lia) E eq_refl eq_refl
    ltac:(lia)) as (id & _ & (m' & Hc & _) & _).
  exists m'. split; [reflexivity|exact Hc].
Defined.

End Sessions.
