(* ===== verification/SessionStore.v ===== *)
(** * The session store of the broker

    [internal/broker/sessionstore.go]: the client, subscription, inflight and
    retained buckets of the bbolt file and the hooks of the MQTT server over
    them. A bucket is a map from byte strings; its cursor visits keys in byte
    order and a transaction is atomic. Records are kept as their decoded values;
    a value that does not decode is [None]. *)

From stdpp Require Import sorting.
From S2P Require Import Prelude GoStrings ByteOrder.

Module SessionStore.
Import ByteOrder.

(** ** Records *)

(** The record tags of the storage package. *)
Inductive record_tag := InflightKey | RetainedKey.

Record FixedHeader := MkHeader { fhType : Z; fhQos : Z; fhRetain : bool; fhDup : bool }.

Record MessageProperties := MkProps {
  PayloadFormat : Z;
  PayloadFormatFlag : bool;
  MessageExpiryInterval : Z;
  ContentType : gostring;
  ResponseTopic : gostring;
  CorrelationData : gostring;
  User : list (gostring * gostring);
}.

(** What is read of a [packets.Packet]. *)
Record Packet := MkPacket {
  pkOrigin : gostring;
  pkTopicName : gostring;
  pkPayload : gostring;
  pkCreated : Z;
  pkPacketID : Z;
  pkHeader : FixedHeader;
  pkProperties : MessageProperties;
  pkExpiry : Z;
  pkProtocolVersion : Z;
}.

(** [storage.Message]. *)
Record Message := MkMessage {
  mT : record_tag;
  mClient : gostring;
  mOrigin : gostring;
  mTopicName : gostring;
  mPayload : gostring;
  mCreated : Z;
  mPacketID : Z;
  mHeader : FixedHeader;
  mProperties : MessageProperties;
}.

Record storedMessage := MkStoredMessage { message : Message; Expiry : Z; ProtocolVersion : Z; Seq : Z }.

(** [storage.Client] as filled from the connection. *)
Record ClientRecord := MkClientRecord {
  cID : gostring;
  cRemote : gostring;
  cListener : gostring;
  cUsername : gostring;
  cClean : bool;
  cProtocolVersion : Z;
  cSessionExpiryInterval : Z;
  cSessionExpiryIntervalFlag : bool;
  cReceiveMaximum : Z;
  cTopicAliasMaximum : Z;
  cMaximumPacketSize : Z;
}.

(** One filter of a SUBSCRIBE packet, and [storage.Subscription]. *)
Record FilterReq := MkFilterReq { fFilter : gostring; fIdentifier : Z; fRetainHandling : Z; fRetainAsPublished : bool; fNoLocal : bool }.
Record Subscription := MkSubscription { sClient : gostring; sReq : FilterReq; sQos : Z }.

Definition messageRecord (pk : Packet) (clientID : gostring) (typ : record_tag) (seq : Z) : storedMessage :=
  MkStoredMessage
    (MkMessage typ clientID (pkOrigin pk) (pkTopicName pk) (pkPayload pk) (pkCreated pk) (pkPacketID pk)
       (pkHeader pk) (pkProperties pk))
    (pkExpiry pk) (pkProtocolVersion pk) seq.

(** ** The store *)

(** [db] is false before [Init] and after [Stop]; [sequence] is the counter of
    the inflight bucket. *)
Record sessionStore := MkStore {
  db : bool;
  clients : gmap gostring (option ClientRecord);
  subscriptions : gmap gostring (option Subscription);
  inflight : gmap gostring (option storedMessage);
  retained : gmap gostring (option storedMessage);
  sequence : Z;
}.

Definition with_clients (m : gmap gostring (option ClientRecord)) (s : sessionStore) : sessionStore :=
  MkStore (db s) m (subscriptions s) (inflight s) (retained s) (sequence s).
Definition with_subscriptions (m : gmap gostring (option Subscription)) (s : sessionStore) : sessionStore :=
  MkStore (db s) (clients s) m (inflight s) (retained s) (sequence s).
Definition with_inflight (m : gmap gostring (option storedMessage)) (seq : Z) (s : sessionStore) : sessionStore :=
  MkStore (db s) (clients s) (subscriptions s) m (retained s) seq.
Definition with_retained (m : gmap gostring (option storedMessage)) (s : sessionStore) : sessionStore :=
  MkStore (db s) (clients s) (subscriptions s) (inflight s) m (sequence s).

Definition keySep : ascii := "000"%char.
Definition compositeKey (clientID suffix : gostring) : gostring := clientID ++ keySep :: suffix.
(** Big-endian, two bytes. *)
Definition put_uint16 (z : Z) : gostring := [chr (z / 256 mod 256); chr (z mod 256)].
Definition inflightKey (clientID : gostring) (packetID : Z) : gostring := compositeKey clientID (put_uint16 packetID).

(** [Bucket.Put]: an empty key and one above 32768 bytes are refused. *)
Definition MaxKeySize : nat := 32768.
Definition key_ok (key : gostring) : bool := negb (bool_decide (key = [])) && (length key <=? MaxKeySize)%nat.
Definition bput {A} (key : gostring) (v : A) (m : gmap gostring (option A)) : gmap gostring (option A) :=
  if key_ok key then <[key := Some v]> m else m.

(** The keys of a bucket as a cursor visits them, and from [Seek] on while they
    have the prefix. *)
Definition bucket_keys {A} (m : gmap gostring A) : list gostring := sort_bytes (map_to_list m).*1.
Fixpoint while_prefix (prefix : gostring) (keys : list gostring) : list gostring :=
  match keys with
  | [] => []
  | k :: keys => if Strings.HasPrefix k prefix then k :: while_prefix prefix keys else []
  end.
Fixpoint seek (prefix : gostring) (keys : list gostring) : list gostring :=
  match keys with
  | [] => []
  | k :: keys => if bool_decide (bytes_le prefix k) then k :: keys else seek prefix keys
  end.
Definition prefix_scan {A} (prefix : gostring) (m : gmap gostring A) : list gostring :=
  while_prefix prefix (seek prefix (bucket_keys m)).
Definition delete_keys {A} (keys : list gostring) (m : gmap gostring A) : gmap gostring A :=
  foldl (fun m k => delete k m) m keys.

(** *** Hooks that write *)

(** A closed store ignores every write. *)
Definition guarded (f : sessionStore -> sessionStore) (s : sessionStore) : sessionStore := if db s then f s else s.

Definition OnSessionEstablished (rec : ClientRecord) : sessionStore -> sessionStore :=
  guarded (fun s => with_clients (bput (cID rec) rec (clients s)) s).

Definition dropClient (clientID : gostring) : sessionStore -> sessionStore :=
  guarded (fun s =>
    let prefix := compositeKey clientID [] in
    MkStore (db s) (delete clientID (clients s))
      (delete_keys (prefix_scan prefix (subscriptions s)) (subscriptions s))
      (delete_keys (prefix_scan prefix (inflight s)) (inflight s)) (retained s) (sequence s)).

Definition OnDisconnect (clientID : gostring) (takenOver expire : bool) (s : sessionStore) : sessionStore :=
  if negb expire || takenOver then s else dropClient clientID s.
Definition OnClientExpired (clientID : gostring) : sessionStore -> sessionStore := dropClient clientID.

(** The first failure code. *)
Definition ErrUnspecifiedError : Z := 128.
Fixpoint OnSubscribed (clientID : gostring) (filters : list FilterReq) (reasonCodes : list Z) (s : sessionStore) : sessionStore :=
  match filters, reasonCodes with
  | f :: filters, code :: reasonCodes =>
      let s := if (ErrUnspecifiedError <=? code)%Z then s
               else guarded (fun s => with_subscriptions
                      (bput (compositeKey clientID (fFilter f)) (MkSubscription clientID f code) (subscriptions s)) s) s in
      OnSubscribed clientID filters reasonCodes s
  | _, _ => s
  end.
Definition OnUnsubscribed (clientID : gostring) (filters : list gostring) (s : sessionStore) : sessionStore :=
  foldl (fun s f => guarded (fun s => with_subscriptions (delete (compositeKey clientID f) (subscriptions s)) s) s) s filters.

Definition OnRetainedExpired (filter : gostring) : sessionStore -> sessionStore :=
  guarded (fun s => with_retained (delete filter (retained s)) s).
Definition OnRetainMessage (pk : Packet) (r : Z) : sessionStore -> sessionStore :=
  if (r =? -1)%Z then OnRetainedExpired (pkTopicName pk)
  else guarded (fun s => with_retained (bput (pkTopicName pk) (messageRecord pk [] RetainedKey 0) (retained s)) s).

(** [NextSequence] is committed with the record or not at all. *)
Definition OnQosPublish (clientID : gostring) (pk : Packet) : sessionStore -> sessionStore :=
  guarded (fun s =>
    let key := inflightKey clientID (pkPacketID pk) in
    let seq := match inflight s !! key with Some (Some old) => Seq old | _ => 0%Z end in
    let '(seq, next) := if (seq =? 0)%Z then ((sequence s + 1) mod 2 ^ 64, (sequence s + 1) mod 2 ^ 64)%Z else (seq, sequence s) in
    if key_ok key
    then with_inflight (<[key := Some (messageRecord pk clientID InflightKey seq)]> (inflight s)) next s
    else s).
Definition OnQosComplete (clientID : gostring) (packetID : Z) : sessionStore -> sessionStore :=
  guarded (fun s => with_inflight (delete (inflightKey clientID packetID) (inflight s)) (sequence s) s).
Definition OnQosDropped (clientID : gostring) (packetID : Z) : sessionStore -> sessionStore := OnQosComplete clientID packetID.

Definition expired (now : Z) (rec : storedMessage) : bool := (0 <? Expiry rec)%Z && (Expiry rec <=? now)%Z.

(** The expired records of a scan, with the packets to forget; one that does not
    decode is skipped. *)
Fixpoint prune (now : Z) (keys : list gostring) (m : gmap gostring (option storedMessage)) (pids : list Z)
    : list Z * gmap gostring (option storedMessage) :=
  match keys with
  | [] => (pids, m)
  | k :: keys =>
      match m !! k with
      | Some (Some rec) =>
          if expired now rec then prune now keys (delete k m) (pids ++ [mPacketID (message rec)]) else prune now keys m pids
      | _ => prune now keys m pids
      end
  end.
(** [old] is the number of messages in flight of the client's earlier session,
    if there is one; the packets are forgotten by it too. *)
Definition OnSessionEstablish (clientID : gostring) (old : option nat) (now : Z) (s : sessionStore) : list Z * sessionStore :=
  match old with
  | Some (S _) =>
      if db s
      then let '(pids, m) := prune now (prefix_scan (compositeKey clientID []) (inflight s)) (inflight s) [] in
           (pids, with_inflight m (sequence s) s)
      else ([], s)
  | _ => ([], s)
  end.

(** *** Hooks that restore *)

Inductive restore_error := ErrDBFileNotOpen | ErrDecode.

Fixpoint decode_all {A} (keys : list gostring) (m : gmap gostring (option A)) : result restore_error (list A) :=
  match keys with
  | [] => Ok []
  | k :: keys =>
      match m !! k with
      | Some (Some rec) => let? out := decode_all keys m in Ok (rec :: out)
      | _ => Err ErrDecode
      end
  end.
Definition StoredClients (s : sessionStore) : result restore_error (list ClientRecord) :=
  if db s then decode_all (bucket_keys (clients s)) (clients s) else Err ErrDBFileNotOpen.
Definition StoredSubscriptions (s : sessionStore) : result restore_error (list Subscription) :=
  if db s then decode_all (bucket_keys (subscriptions s)) (subscriptions s) else Err ErrDBFileNotOpen.

(** A record that does not decode fails the load, and its transaction. *)
Fixpoint load_live (now : Z) (keys : list gostring) (m : gmap gostring (option storedMessage))
    : result restore_error (list storedMessage * gmap gostring (option storedMessage)) :=
  match keys with
  | [] => Ok ([], m)
  | k :: keys =>
      match m !! k with
      | Some (Some rec) =>
          if expired now rec then load_live now keys (delete k m)
          else let? x := load_live now keys m in Ok (rec :: x.1, x.2)
      | _ => Err ErrDecode
      end
  end.

(** Insertion of one record from the right of the sorted part (kept reversed):
    swaps while the one before has a larger [Seq]. *)
Fixpoint swap_down (r : storedMessage) (before : list storedMessage) : list storedMessage :=
  match before with
  | [] => [r]
  | b :: before' => if (Seq r <? Seq b)%Z then b :: swap_down r before' else r :: before
  end.
Definition insertion_sort (group : list storedMessage) : list storedMessage :=
  rev (foldl (fun sorted r => swap_down r sorted) [] group).

Definition set_created (created : Z) (m : Message) : Message :=
  MkMessage (mT m) (mClient m) (mOrigin m) (mTopicName m) (mPayload m) created (mPacketID m) (mHeader m) (mProperties m).
(** [Created] made strictly increasing; [prev] is [None] before the first. *)
Fixpoint renumber (prev : option Z) (group : list Message) : list Message :=
  match group with
  | [] => []
  | msg :: group =>
      let msg := match prev with
                 | Some p => if (mCreated msg <=? p)%Z then set_created (wrap 64 (p + 1)) msg else msg
                 | None => msg
                 end in
      msg :: renumber (Some (mCreated msg)) group
  end.

(** The clients in the order their first record appears. *)
Fixpoint first_seen (recs : list storedMessage) (seen : list gostring) : list gostring :=
  match recs with
  | [] => seen
  | r :: recs => first_seen recs (if decide (mClient (message r) ∈ seen) then seen else seen ++ [mClient (message r)])
  end.
Definition of_client (id : gostring) (recs : list storedMessage) : list storedMessage :=
  filter (fun r => mClient (message r) = id) recs.
Definition normalizeInflightOrder (recs : list storedMessage) : list Message :=
  id ← first_seen recs []; renumber None (message <$> insertion_sort (of_client id recs)).

Definition StoredInflightMessages (now : Z) (s : sessionStore) : result restore_error (list Message) * sessionStore :=
  if db s
  then match load_live now (bucket_keys (inflight s)) (inflight s) with
       | Ok (live, m) => (Ok (normalizeInflightOrder live), with_inflight m (sequence s) s)
       | Err e => (Err e, s)
       end
  else (Err ErrDBFileNotOpen, s).
Definition StoredRetainedMessages (now : Z) (s : sessionStore) : result restore_error (list Message) * sessionStore :=
  if db s
  then match load_live now (bucket_keys (retained s)) (retained s) with
       | Ok (live, m) => (Ok (message <$> live), with_retained m s)
       | Err e => (Err e, s)
       end
  else (Err ErrDBFileNotOpen, s).

(** [Init] on an existing or a new file, and [Stop]. *)
Definition Init (s : sessionStore) : sessionStore :=
  MkStore true (clients s) (subscriptions s) (inflight s) (retained s) (sequence s).
Definition Stop (s : sessionStore) : sessionStore :=
  MkStore false (clients s) (subscriptions s) (inflight s) (retained s) (sequence s).
Definition new_file : sessionStore := Init (MkStore false ∅ ∅ ∅ ∅ 0).

(** ** Keys *)

Definition wf_packet_id (p : Z) : Prop := (0 <= p < 2 ^ 16)%Z.

Lemma put_uint16_inj p q : wf_packet_id p -> wf_packet_id q -> put_uint16 p = put_uint16 q -> p = q.
Proof.
  unfold wf_packet_id. intros Hp Hq. unfold put_uint16. intros [= H1 H2]. apply (f_equal byte_val) in H1, H2.
  rewrite !byte_val_chr in H1, H2 by (apply Z.mod_pos_bound; lia). rewrite !(Z.mod_small (_ / 256)) in H1 by (split; [apply Z.div_pos|apply Z.div_lt_upper_bound]; lia).
  pose proof (Z.div_mod p 256). pose proof (Z.div_mod q 256). lia.
Qed.

Lemma inflightKey_inj c p c' p' :
  wf_packet_id p -> wf_packet_id p' -> inflightKey c p = inflightKey c' p' -> c = c' /\ p = p'.
Proof.
  intros Hp Hp'. unfold inflightKey, compositeKey. intros E. apply app_inj_2 in E as [-> [= E]]; [|done].
  split; [done|]. apply put_uint16_inj; [done..|]. unfold put_uint16. congruence.
Qed.

Lemma composite_prefix c c' suffix :
  keySep ∉ c -> keySep ∉ c' -> Strings.HasPrefix (compositeKey c' suffix) (compositeKey c []) = true <-> c' = c.
Proof.
  intros Hc Hc'. rewrite Strings.HasPrefix_spec. unfold compositeKey. split.
  - intros [r Hr]. rewrite <- app_assoc in Hr. simpl in Hr.
    revert c Hc Hr. induction c' as [|x c' IH]; intros [|y c] Hc Hr; simpl in *; [done|..].
    + injection Hr as <- _. set_solver.
    + injection Hr as -> _. set_solver.
    + injection Hr as -> Hr. f_equal. apply IH; [set_solver|set_solver|done].
  - intros ->. exists suffix. by rewrite <- app_assoc.
Qed.

(** Byte order and prefixes. *)
Lemma prefix_le k p : Strings.HasPrefix k p = true -> bytes_le p k.
Proof.
  rewrite Strings.HasPrefix_spec. intros [r ->]. induction p as [|x p IH]; unfold bytes_le; simpl; [done|].
  by rewrite !Z.ltb_irrefl.
Qed.

Lemma prefix_convex p a b :
  bytes_le p a -> bytes_le a b -> Strings.HasPrefix b p = true -> Strings.HasPrefix a p = true.
Proof.
  rewrite !Strings.HasPrefix_spec. intros H1 H2 [r ->]. revert a H1 H2.
  induction p as [|x p IH]; intros a H1 H2; [by exists a|]. destruct a as [|y a]; [done|].
  unfold bytes_le in *. simpl in *.
  destruct (Z.ltb_spec (byte_val x) (byte_val y)); [by destruct (Z.ltb_spec (byte_val y) (byte_val x)); [lia|]|].
  destruct (Z.ltb_spec (byte_val y) (byte_val x)); [done|].
  assert (y = x) as -> by (apply byte_val_inj; lia). rewrite ?Z.ltb_irrefl in *. destruct (IH a H1 H2) as [r' ->]. by exists r'.
Qed.

Lemma seek_elem p keys k :
  StronglySorted bytes_le keys -> Strings.HasPrefix k p = true -> k ∈ seek p keys <-> k ∈ keys.
Proof.
  intros Hs Hp. induction Hs as [|a keys Hs IH Ha]; simpl; [done|]. case_bool_decide as Hle; [done|].
  rewrite IH, elem_of_cons. split; [by right|]. intros [->|?]; [|done]. by apply prefix_le in Hp.
Qed.

Lemma seek_sorted p keys :
  StronglySorted bytes_le keys -> StronglySorted bytes_le (seek p keys) /\ Forall (bytes_le p) (seek p keys).
Proof.
  induction 1 as [|a keys Hs IH Ha]; simpl; [split; constructor|]. case_bool_decide as Hle; [|done].
  split; [by constructor|]. constructor; [done|]. eapply Forall_impl; [exact Ha|]. intros b ?. by etrans.
Qed.

Lemma while_prefix_elem p keys k :
  StronglySorted bytes_le keys -> Forall (bytes_le p) keys ->
  k ∈ while_prefix p keys <-> k ∈ keys /\ Strings.HasPrefix k p = true.
Proof.
  induction 1 as [|a keys Hs IH Ha]; simpl; [set_solver|]. intros [Hpa Hp]%Forall_cons.
  destruct (Strings.HasPrefix a p) eqn:E.
  - rewrite !elem_of_cons, IH by done. naive_solver.
  - split; [by intros ?%elem_of_nil|]. intros [[->|Hin]%elem_of_cons Hk]; [congruence|].
    rewrite Forall_forall in Ha. assert (Strings.HasPrefix a p = true); [|congruence].
    eapply prefix_convex; [exact Hpa|by apply Ha|done].
Qed.

Lemma bucket_keys_elem {A} (m : gmap gostring A) k : k ∈ bucket_keys m <-> is_Some (m !! k).
Proof.
  unfold bucket_keys. rewrite sort_bytes_perm, list_elem_of_fmap. split.
  - intros ([k' v] & -> & Hin). apply elem_of_map_to_list in Hin. eauto.
  - intros [v Hv]. exists (k, v). split; [done|]. by apply elem_of_map_to_list.
Qed.
Lemma bucket_keys_NoDup {A} (m : gmap gostring A) : NoDup (bucket_keys m).
Proof. unfold bucket_keys. rewrite sort_bytes_perm. apply NoDup_fst_map_to_list. Qed.

(** A scan from a prefix visits exactly the keys that have it. *)
Lemma prefix_scan_elem {A} (p : gostring) (m : gmap gostring A) (k : gostring) :
  k ∈ prefix_scan p m <-> is_Some (m !! k) /\ Strings.HasPrefix k p = true.
Proof.
  unfold prefix_scan. pose proof (sort_bytes_sorted (map_to_list m).*1) as Hs. fold (bucket_keys m) in Hs.
  destruct (seek_sorted p _ Hs). rewrite while_prefix_elem, <- bucket_keys_elem by done.
  split; intros [? ?]; (split; [by eapply seek_elem|done]).
Qed.

Lemma delete_keys_lookup {A} (keys : list gostring) (m : gmap gostring A) (k : gostring) :
  delete_keys keys m !! k = if decide (k ∈ keys) then None else m !! k.
Proof.
  unfold delete_keys. revert m. induction keys as [|a keys IH]; intros m; simpl; [done|]. rewrite IH.
  destruct (decide (k ∈ keys)); [by rewrite decide_True by set_solver|].
  destruct (decide (k = a)) as [->|Hne].
  - rewrite decide_True by set_solver. apply lookup_delete_eq.
  - rewrite decide_False by set_solver. by apply lookup_delete_ne.
Qed.

(** ** The promise: a queue *)

(** What the offline queue means: the messages waiting, oldest first. *)
Record queued := MkQueued { qClient : gostring; qPacket : Packet }.

Definition same_slot (c : gostring) (pid : Z) (x : queued) : Prop := qClient x = c /\ pkPacketID (qPacket x) = pid.
#[global] Instance same_slot_dec c pid x : Decision (same_slot c pid x).
Proof. unfold same_slot. apply _. Defined.

(** A resend takes the place of the message with its identifier; a new message
    goes to the end. *)
Definition enqueue (c : gostring) (pk : Packet) (q : list queued) : list queued :=
  if decide (Exists (same_slot c (pkPacketID pk)) q)
  then (fun x => if decide (same_slot c (pkPacketID pk) x) then MkQueued c pk else x) <$> q
  else q ++ [MkQueued c pk].
Definition remove (c : gostring) (pid : Z) (q : list queued) : list queued := filter (fun x => ~ same_slot c pid x) q.
Definition forget (c : gostring) (q : list queued) : list queued := filter (fun x => qClient x <> c) q.
Definition late (now : Z) (x : queued) : Prop := (0 < pkExpiry (qPacket x) <= now)%Z.
#[global] Instance late_dec now x : Decision (late now x).
Proof. unfold late. apply _. Defined.
Definition expire (now : Z) (q : list queued) : list queued := filter (fun x => ~ late now x) q.
Definition expire_of (c : gostring) (now : Z) (q : list queued) : list queued :=
  filter (fun x => ~ (qClient x = c /\ late now x)) q.

(** The hooks in the order the server calls them; [OpRestart] is a shutdown and
    a start that loads the queue. *)
Inductive op :=
| OpEstablished (rec : ClientRecord)
| OpDisconnect (c : gostring) (takenOver expire : bool)
| OpClientExpired (c : gostring)
| OpSubscribed (c : gostring) (filters : list FilterReq) (codes : list Z)
| OpUnsubscribed (c : gostring) (filters : list gostring)
| OpRetain (pk : Packet) (r : Z)
| OpRetainedExpired (topic : gostring)
| OpPublish (c : gostring) (pk : Packet)
| OpComplete (c : gostring) (pid : Z)
| OpDropped (c : gostring) (pid : Z)
| OpSession (c : gostring) (old : option nat) (now : Z)
| OpRestart (now : Z).

Definition apply_op (s : sessionStore) (o : op) : sessionStore :=
  match o with
  | OpEstablished rec => OnSessionEstablished rec s
  | OpDisconnect c taken exp => OnDisconnect c taken exp s
  | OpClientExpired c => OnClientExpired c s
  | OpSubscribed c fs codes => OnSubscribed c fs codes s
  | OpUnsubscribed c fs => OnUnsubscribed c fs s
  | OpRetain pk r => OnRetainMessage pk r s
  | OpRetainedExpired t => OnRetainedExpired t s
  | OpPublish c pk => OnQosPublish c pk s
  | OpComplete c pid => OnQosComplete c pid s
  | OpDropped c pid => OnQosDropped c pid s
  | OpSession c old now => (OnSessionEstablish c old now s).2
  | OpRestart now => (StoredInflightMessages now (Init (Stop s))).2
  end.

Definition spec_op (q : list queued) (o : op) : list queued :=
  match o with
  | OpDisconnect c taken exp => if negb exp || taken then q else forget c q
  | OpClientExpired c => forget c q
  | OpPublish c pk => enqueue c pk q
  | OpComplete c pid | OpDropped c pid => remove c pid q
  | OpSession c (Some (S _)) now => expire_of c now q
  | OpRestart now => expire now q
  | _ => q
  end.

(** Client identifiers without NUL and short enough for a key, as MQTT
    identifiers derived from names are; packet identifiers of two bytes. *)
Definition wf_client (c : gostring) : Prop := keySep ∉ c /\ length c + 3 <= MaxKeySize.
Definition wf_op (o : op) : Prop :=
  match o with
  | OpDisconnect c _ _ | OpClientExpired c | OpSession c _ _ => wf_client c
  | OpPublish c pk => wf_client c /\ wf_packet_id (pkPacketID pk)
  | OpComplete c pid | OpDropped c pid => wf_packet_id pid
  | _ => True
  end.

(** ** The store keeps it *)

Definition wf_queued (x : queued) : Prop := wf_client (qClient x) /\ wf_packet_id (pkPacketID (qPacket x)).
Definition qkey (x : queued) : gostring := inflightKey (qClient x) (pkPacketID (qPacket x)).
Definition qrecord (x : queued * Z) : storedMessage := messageRecord (qPacket x.1) (qClient x.1) InflightKey x.2.

(** The inflight bucket holds the queue, each message with its number. *)
Record represents (s : sessionStore) (Q : list (queued * Z)) : Prop := {
  rep_open : db s = true;
  rep_map : forall k v, inflight s !! k = Some v <-> exists x, x ∈ Q /\ k = qkey x.1 /\ v = Some (qrecord x);
  rep_keys : NoDup (qkey <$> Q.*1);
  rep_seq : StronglySorted Z.lt Q.*2;
  rep_bound : forall n, n ∈ Q.*2 -> (0 < n <= sequence s)%Z;
  rep_wf : Forall wf_queued Q.*1;
  rep_next : (0 <= sequence s)%Z;
}.

Lemma qkey_slot x c pid :
  wf_queued x -> wf_packet_id pid -> qkey x = inflightKey c pid <-> same_slot c pid x.
Proof.
  intros [_ Hw] Hp. unfold qkey, same_slot. split; [by intros ?%inflightKey_inj|]. by intros [-> ->].
Qed.

Lemma rep_lookup s Q x : represents s Q -> x ∈ Q -> inflight s !! qkey x.1 = Some (Some (qrecord x)).
Proof. intros Hr Hx. apply (rep_map _ _ Hr). eauto. Qed.

Lemma rep_wf_elem s Q x : represents s Q -> x ∈ Q -> wf_queued x.1.
Proof. intros Hr Hx. pose proof (rep_wf _ _ Hr) as Hw. rewrite Forall_forall in Hw. apply Hw, list_elem_of_fmap. eauto. Qed.

Lemma filter_keeps_sorted {A} (R : relation A) (P : A -> Prop) `{forall x, Decision (P x)} l :
  StronglySorted R l -> StronglySorted R (filter P l).
Proof.
  induction 1 as [|a l Hs IH Ha]; [constructor|]. rewrite filter_cons. case_decide; [|done]. constructor; [done|].
  rewrite Forall_forall in *. intros y Hy%list_elem_of_filter. apply Ha. tauto.
Qed.

Lemma fmap_filter_sublist {A B} (f : A -> B) (P : A -> Prop) `{forall x, Decision (P x)} l :
  f <$> filter P l `sublist_of` f <$> l.
Proof. induction l as [|a l IH]; [constructor|]. rewrite filter_cons. case_decide; simpl; by constructor. Qed.

Lemma sorted_sublist {A} (R : relation A) l l' : l `sublist_of` l' -> StronglySorted R l' -> StronglySorted R l.
Proof.
  induction 1 as [|a l l' Hl IH|a l l' Hl IH]; intros Hs; inversion_clear Hs; [constructor| |auto].
  constructor; [auto|]. rewrite Forall_forall in *. intros y Hy. apply H0. by eapply elem_of_sublist.
Qed.

(** Removing some messages from both. *)
Lemma rep_filter s s' Q (P : queued * Z -> Prop) `{forall x, Decision (P x)} :
  represents s Q -> db s' = true -> sequence s' = sequence s ->
  (forall k, inflight s' !! k = None \/ inflight s' !! k = inflight s !! k) ->
  (forall x, x ∈ Q -> inflight s' !! qkey x.1 = None <-> ~ P x) ->
  represents s' (filter P Q).
Proof.
  intros [Ho Hm Hk Hs Hb Hw Hn] Ho' Hseq Hsub Hdel.
  pose proof (fmap_filter_sublist snd P Q) as Hsnd.
  pose proof (fmap_filter_sublist fst P Q) as Hfst. split; [done|..].
  - intros k v. split.
    + intros Hv. destruct (Hsub k) as [?|Hsame]; [congruence|]. rewrite Hsame in Hv.
      destruct (proj1 (Hm k v) Hv) as (x & Hx & -> & ->). exists x. rewrite list_elem_of_filter. split_and!; [|done..].
      destruct (decide (P x)) as [?|HP]; [done|]. apply (Hdel x Hx) in HP. rewrite Hsame in HP. congruence.
    + intros (x & [HP Hx]%list_elem_of_filter & -> & ->). destruct (Hsub (qkey x.1)) as [HN|Hsame].
      * by apply (Hdel x Hx) in HN.
      * rewrite Hsame. apply Hm. eauto.
  - eapply sublist_NoDup; [exact Hk|]. by apply fmap_sublist.
  - by eapply sorted_sublist.
  - intros n Hin. rewrite Hseq. apply Hb. by eapply elem_of_sublist.
  - rewrite Forall_forall in *. intros x Hx. apply Hw. by eapply elem_of_sublist.
  - by rewrite Hseq.
Qed.

Lemma rep_frame s s' Q :
  represents s Q -> db s' = db s -> inflight s' = inflight s -> sequence s' = sequence s -> represents s' Q.
Proof. intros [? ? ? ? ? ? ?] E1 E2 E3. split; rewrite ?E1, ?E2, ?E3; done. Qed.

(** Hooks on the other buckets. *)
Definition same_queue (s s' : sessionStore) : Prop := db s' = db s /\ inflight s' = inflight s /\ sequence s' = sequence s.

Lemma guarded_same f s :
  (forall s, same_queue s (f s)) -> same_queue s (guarded f s).
Proof. intros Hf. unfold guarded. destruct (db s); [apply Hf|done]. Qed.

Lemma OnSubscribed_same c fs codes s : same_queue s (OnSubscribed c fs codes s).
Proof.
  revert codes s. induction fs as [|f fs IH]; intros [|code codes] s; simpl; try done.
  set (s1 := if (_ <=? _)%Z then s else _). assert (same_queue s s1) as (E1 & E2 & E3).
  { unfold s1. destruct (_ <=? _)%Z; [done|]. by apply guarded_same. }
  destruct (IH codes s1) as (F1 & F2 & F3). unfold same_queue. by rewrite F1, F2, F3.
Qed.

Lemma OnUnsubscribed_same c fs s : same_queue s (OnUnsubscribed c fs s).
Proof.
  unfold OnUnsubscribed. revert s. induction fs as [|f fs IH]; intros s; simpl; [done|].
  set (s1 := guarded _ s). assert (same_queue s s1) as (E1 & E2 & E3) by (by apply guarded_same).
  destruct (IH s1) as (F1 & F2 & F3). unfold same_queue. by rewrite F1, F2, F3.
Qed.

Lemma OnRetainMessage_same pk r s : same_queue s (OnRetainMessage pk r s).
Proof. unfold OnRetainMessage. destruct (_ =? _)%Z; [unfold OnRetainedExpired|]; by apply guarded_same. Qed.

(** *** Removals *)

Lemma rep_complete s Q c pid :
  represents s Q -> wf_packet_id pid -> represents (OnQosComplete c pid s) (filter (fun x => ~ same_slot c pid x.1) Q).
Proof.
  intros Hr Hp. unfold OnQosComplete, guarded. rewrite (rep_open _ _ Hr).
  apply (rep_filter s _ Q (fun x => ~ same_slot c pid x.1)); [done|first [done|apply Hr]|done|..]; simpl.
  - intros k. destruct (decide (k = inflightKey c pid)) as [->|Hne]; [left; apply lookup_delete_eq|right; by apply lookup_delete_ne].
  - intros x Hx. pose proof (qkey_slot x.1 c pid (rep_wf_elem _ _ _ Hr Hx) Hp) as Hq.
    destruct (decide (same_slot c pid x.1)) as [Hs|Hs].
    + rewrite (proj2 Hq Hs), lookup_delete_eq. naive_solver.
    + rewrite lookup_delete_ne by (intros E; by apply Hs, Hq). rewrite (rep_lookup _ _ _ Hr Hx). naive_solver.
Qed.

(** The key of a message has the prefix of its client and of no other. *)
Lemma qkey_prefix c x :
  wf_client c -> wf_queued x -> Strings.HasPrefix (qkey x) (compositeKey c []) = true <-> qClient x = c.
Proof. intros [Hc _] [[Hx _] _]. by apply composite_prefix. Qed.

Lemma rep_drop s Q c :
  represents s Q -> wf_client c -> represents (dropClient c s) (filter (fun x => qClient x.1 <> c) Q).
Proof.
  intros Hr Hc. unfold dropClient, guarded. rewrite (rep_open _ _ Hr).
  apply (rep_filter s _ Q (fun x => qClient x.1 <> c)); [done|first [done|apply Hr]|done|..]; simpl.
  - intros k. rewrite delete_keys_lookup. case_decide; [by left|by right].
  - intros x Hx. pose proof (qkey_prefix c x.1 Hc (rep_wf_elem _ _ _ Hr Hx)) as Hq.
    rewrite delete_keys_lookup, (rep_lookup _ _ _ Hr Hx).
    destruct (decide (qkey x.1 ∈ _)) as [Hin|Hin]; rewrite prefix_scan_elem, Hq in Hin.
    + naive_solver.
    + rewrite (rep_lookup _ _ _ Hr Hx) in Hin. naive_solver.
Qed.

(** *** Expiry *)

Definition expired_at (now : Z) (m : gmap gostring (option storedMessage)) (k : gostring) : bool :=
  match m !! k with Some (Some rec) => expired now rec | _ => false end.

Lemma prune_lookup now keys m pids k :
  (prune now keys m pids).2 !! k = if bool_decide (k ∈ keys) && expired_at now m k then None else m !! k.
Proof.
  revert m pids. induction keys as [|a keys IH]; intros m pids; cbn [prune]; [done|].
  assert (expired_at now m a = false -> forall pids, (prune now keys m pids).2 !! k =
    if bool_decide (k ∈ a :: keys) && expired_at now m k then None else m !! k) as Hskip.
  { intros Ha pids'. rewrite IH. destruct (decide (k = a)) as [->|Hne]; [by rewrite Ha, !andb_false_r|].
    by rewrite (bool_decide_ext (k ∈ a :: keys) (k ∈ keys)) by set_solver. }
  unfold expired_at in Hskip at 1. destruct (m !! a) as [[rec|]|] eqn:Ea; [|by apply Hskip..].
  destruct (expired now rec) eqn:Ex; [|by apply Hskip]. rewrite IH. unfold expired_at.
  destruct (decide (k = a)) as [->|Hne].
  - by rewrite lookup_delete_eq, Ea, Ex, andb_false_r, bool_decide_eq_true_2 by left.
  - by rewrite lookup_delete_ne, (bool_decide_ext (k ∈ a :: keys) (k ∈ keys)) by set_solver.
Qed.

Lemma expired_late now x : expired now (qrecord x) = true <-> late now x.1.
Proof. unfold expired, late. simpl. rewrite andb_true_iff, Z.ltb_lt, Z.leb_le. done. Qed.

Lemma expired_at_late s Q now x : represents s Q -> x ∈ Q -> expired_at now (inflight s) (qkey x.1) = true <-> late now x.1.
Proof. intros Hr Hx. unfold expired_at. rewrite (rep_lookup _ _ _ Hr Hx). apply expired_late. Qed.

Lemma rep_session s Q c n now :
  represents s Q -> wf_client c ->
  represents (OnSessionEstablish c (Some (S n)) now s).2 (filter (fun x => ~ (qClient x.1 = c /\ late now x.1)) Q).
Proof.
  intros Hr Hc. unfold OnSessionEstablish. rewrite (rep_open _ _ Hr).
  set (keys := prefix_scan _ _). pose proof (prune_lookup now keys (inflight s) []) as Hl.
  destruct (prune now keys (inflight s) []) as [pids m]. simpl in *.
  apply (rep_filter s _ Q (fun x => ~ (qClient x.1 = c /\ late now x.1))); [done|first [done|apply Hr]|done|..]; simpl.
  - intros k. rewrite Hl. destruct (_ && _); [by left|by right].
  - intros x Hx. rewrite Hl, (rep_lookup _ _ _ Hr Hx). unfold keys.
    pose proof (qkey_prefix c x.1 Hc (rep_wf_elem _ _ _ Hr Hx)) as Hq. pose proof (expired_at_late _ _ now _ Hr Hx) as He.
    destruct (_ && _) eqn:Hd; [|apply not_true_iff_false in Hd];
      rewrite andb_true_iff, bool_decide_eq_true, prefix_scan_elem, Hq, He, (rep_lookup _ _ _ Hr Hx) in Hd; naive_solver.
Qed.

(** *** Publishes *)

Lemma inflight_key_ok c pid : wf_client c -> key_ok (inflightKey c pid) = true.
Proof.
  intros [_ Hl]. unfold key_ok, inflightKey, compositeKey, put_uint16.
  rewrite bool_decide_eq_false_2 by (by destruct c). rewrite (proj2 (Nat.leb_le _ _)); [done|]. rewrite length_app. simpl. lia.
Qed.

Definition resend (c : gostring) (pk : Packet) (x : queued * Z) : queued * Z :=
  (if decide (same_slot c (pkPacketID pk) x.1) then MkQueued c pk else x.1, x.2).

Lemma resend_key c pk x : qkey (resend c pk x).1 = qkey x.1.
Proof. unfold resend. simpl. case_decide as Hs; [|done]. destruct Hs as [<- Hp]. unfold qkey. simpl. by rewrite Hp. Qed.

Lemma rep_resend s Q c pk x0 :
  represents s Q -> wf_client c -> wf_packet_id (pkPacketID pk) -> x0 ∈ Q -> same_slot c (pkPacketID pk) x0.1 ->
  represents (with_inflight (<[inflightKey c (pkPacketID pk) := Some (messageRecord pk c InflightKey x0.2)]> (inflight s)) (sequence s) s)
    (resend c pk <$> Q).
Proof.
  intros Hr Hc Hp Hx0 Hs0. pose proof Hr as [Ho Hm Hk Hs Hb Hw Hn]. set (key := inflightKey c (pkPacketID pk)).
  assert (forall x, x ∈ Q -> qkey x.1 = key <-> same_slot c (pkPacketID pk) x.1) as Hslot
    by (intros x Hx; apply qkey_slot; [by eapply rep_wf_elem|done]).
  assert ((resend c pk <$> Q).*2 = Q.*2) as E2 by (rewrite <- list_fmap_compose; done).
  assert (qkey <$> (resend c pk <$> Q).*1 = qkey <$> Q.*1) as E1.
  { rewrite <- !list_fmap_compose. apply list_fmap_ext. intros i x _. apply resend_key. }
  split; simpl; rewrite ?E1, ?E2; try done.
  - intros k v. rewrite lookup_insert_Some. split.
    + intros [[<- <-]|[Hne Hv]].
      * exists (resend c pk x0). rewrite resend_key. split; [by apply list_elem_of_fmap_2|]. split; [symmetry; by apply Hslot|].
        unfold resend, qrecord. simpl. by rewrite decide_True.
      * apply Hm in Hv as (x & Hx & -> & ->). exists (resend c pk x). rewrite resend_key. split; [by apply list_elem_of_fmap_2|].
        split; [done|]. unfold resend, qrecord. simpl. rewrite decide_False; [done|]. intros Hsl. by apply Hne, eq_sym, Hslot.
    + intros (y & (x & -> & Hx)%list_elem_of_fmap & -> & ->). rewrite resend_key.
      destruct (decide (same_slot c (pkPacketID pk) x.1)) as [Hsl|Hsl].
      * left. split; [symmetry; by apply Hslot|]. pose proof (rep_lookup _ _ _ Hr Hx) as L1. pose proof (rep_lookup _ _ _ Hr Hx0) as L2.
        rewrite (proj2 (Hslot x Hx) Hsl) in L1. rewrite (proj2 (Hslot x0 Hx0) Hs0), L1 in L2. injection L2 as L2.
        unfold resend, qrecord. simpl. rewrite decide_True by done. simpl. assert (x.2 = x0.2) as -> by congruence. done.
      * right. split; [intros E; by apply Hsl, Hslot|]. unfold resend, qrecord. simpl. rewrite decide_False by done. by apply rep_lookup with Q.
  - rewrite Forall_forall in *. intros z (y & -> & (x & -> & Hx)%list_elem_of_fmap)%list_elem_of_fmap.
    unfold resend. simpl. case_decide; [by split|]. apply Hw, list_elem_of_fmap. eauto.
Qed.

Lemma sorted_snoc {A} (R : relation A) l a :
  StronglySorted R l -> Forall (fun y => R y a) l -> StronglySorted R (l ++ [a]).
Proof.
  induction 1 as [|x l Hs IH Hx]; simpl; [by repeat constructor|]. intros [Hxa Hl]%Forall_cons. constructor; [by apply IH|].
  apply Forall_app. split; [done|by constructor].
Qed.

Lemma rep_append s Q c pk n :
  represents s Q -> wf_client c -> wf_packet_id (pkPacketID pk) -> n = (sequence s + 1)%Z ->
  inflight s !! inflightKey c (pkPacketID pk) = None ->
  represents (with_inflight (<[inflightKey c (pkPacketID pk) := Some (messageRecord pk c InflightKey n)]> (inflight s)) n s)
    (Q ++ [(MkQueued c pk, n)]).
Proof.
  intros [Ho Hm Hk Hs Hb Hw Hn] Hc Hp -> Hnone.
  assert (forall x, x ∈ Q -> qkey x.1 <> inflightKey c (pkPacketID pk)) as Hfresh.
  { intros x Hx E. assert (inflight s !! qkey x.1 = Some (Some (qrecord x))) as L by (apply Hm; eauto). congruence. }
  split; simpl; rewrite ?fmap_app; try done.
  - intros k v. rewrite lookup_insert_Some. split.
    + intros [[<- <-]|[Hne (x & Hx & -> & ->)%Hm]].
      * eexists. split; [apply elem_of_app; right; by apply list_elem_of_singleton|done].
      * exists x. split; [apply elem_of_app; by left|done].
    + intros (x & [Hx| ->%list_elem_of_singleton]%elem_of_app & -> & ->); [right|by left].
      split; [intros E; by eapply Hfresh|]. apply Hm. eauto.
  - apply NoDup_app. split_and!; [done| |apply NoDup_singleton]. simpl. intros k (y & -> & Hy)%list_elem_of_fmap Hin%list_elem_of_singleton.
    apply list_elem_of_fmap in Hy as (x & -> & Hx). by eapply Hfresh.
  - apply sorted_snoc; [done|]. rewrite Forall_forall. intros y Hy%Hb. simpl. lia.
  - intros n [Hin%Hb|Hin%list_elem_of_singleton]%elem_of_app; simpl in *; lia.
  - apply Forall_app. split; [done|]. apply Forall_singleton. by split.
  - lia.
Qed.

Lemma rep_publish s Q c pk :
  represents s Q -> wf_client c -> wf_packet_id (pkPacketID pk) -> (sequence s + 1 < 2 ^ 64)%Z ->
  exists Q', represents (OnQosPublish c pk s) Q' /\ Q'.*1 = enqueue c pk Q.*1 /\ (sequence (OnQosPublish c pk s) <= sequence s + 1)%Z.
Proof.
  intros Hr Hc Hp Hseq. unfold OnQosPublish, guarded. rewrite (rep_open _ _ Hr), inflight_key_ok by done. unfold enqueue.
  case_decide as Hex.
  - apply Exists_exists in Hex as (y & (x0 & -> & Hx0)%list_elem_of_fmap & Hs0).
    exists (resend c pk <$> Q). assert (inflight s !! inflightKey c (pkPacketID pk) = Some (Some (qrecord x0))) as ->.
    { rewrite <- (rep_lookup _ _ _ Hr Hx0). f_equal. symmetry. apply qkey_slot; [by eapply rep_wf_elem|done..]. }
    assert (0 < x0.2 <= sequence s)%Z as Hx by (apply (rep_bound _ _ Hr), list_elem_of_fmap; eauto).
    simpl. destruct (Z.eqb_spec x0.2 0); [lia|]. split; [by apply rep_resend|]. split; [|simpl; lia].
    by rewrite <- !list_fmap_compose.
  - exists (Q ++ [(MkQueued c pk, sequence s + 1)%Z]).
    assert (inflight s !! inflightKey c (pkPacketID pk) = None) as Hnone.
    { apply eq_None_not_Some. intros [v Hv]. apply (rep_map _ _ Hr) in Hv as (x & Hx & Hk & _). apply Hex, Exists_exists.
      exists x.1. split; [apply list_elem_of_fmap; eauto|]. apply qkey_slot; [by eapply rep_wf_elem|done|done]. }
    rewrite Hnone. simpl. pose proof (rep_next _ _ Hr). rewrite !Z.mod_small by lia.
    split; [by apply rep_append|]. split; [by rewrite fmap_app|simpl; lia].
Qed.

(** *** Loading *)

Definition live_at (now : Z) (m : gmap gostring (option storedMessage)) (k : gostring) : option storedMessage :=
  match m !! k with Some (Some rec) => if expired now rec then None else Some rec | _ => None end.

Lemma omap_ext_in {A B : Type} (f g : A -> option B) (l : list A) : (forall x, x ∈ l -> f x = g x) -> omap f l = omap g l.
Proof.
  induction l as [|a l IH]; intros Hfg; csimpl; [done|]. rewrite (Hfg a) by left.
  rewrite IH; [done|]. intros x Hx. apply Hfg. by right.
Qed.

Lemma load_live_spec (now : Z) (keys : list gostring) (m : gmap gostring (option storedMessage)) :
  NoDup keys -> (forall k, k ∈ keys -> exists rec, m !! k = Some (Some rec)) ->
  exists m', load_live now keys m = Ok (omap (live_at now m) keys, m') /\
    forall k, m' !! k = if bool_decide (k ∈ keys) && expired_at now m k then None else m !! k.
Proof.
  revert m. induction keys as [|a keys IH]; intros m Hnd Hall; cbn [load_live].
  { exists m. done. }
  apply NoDup_cons in Hnd as [Ha Hnd]. destruct (Hall a) as [rec Hrec]; [left|]. rewrite Hrec. simpl.
  unfold live_at at 1. rewrite Hrec. destruct (expired now rec) eqn:Ex.
  - destruct (IH (delete a m)) as (m' & Hl & Hm'); [done|..].
    { intros k Hk. rewrite lookup_delete_ne by (intros ->; done). apply Hall. by right. }
    exists m'. split.
    + rewrite Hl. f_equal. f_equal. apply omap_ext_in. intros k Hk. unfold live_at.
      by rewrite lookup_delete_ne by (intros ->; done).
    + intros k. rewrite Hm'. unfold expired_at. destruct (decide (k = a)) as [->|Hne].
      * rewrite lookup_delete_eq, Hrec, Ex, andb_false_r, (bool_decide_eq_true_2 (a ∈ a :: keys)) by left. done.
      * by rewrite lookup_delete_ne, (bool_decide_ext (k ∈ a :: keys) (k ∈ keys)) by set_solver.
  - destruct (IH m) as (m' & Hl & Hm'); [done|intros k Hk; apply Hall; by right|]. exists m'. rewrite Hl. split; [done|].
    intros k. rewrite Hm'. destruct (decide (k = a)) as [->|Hne].
    + unfold expired_at. by rewrite Hrec, Ex, !andb_false_r.
    + by rewrite (bool_decide_ext (k ∈ a :: keys) (k ∈ keys)) by set_solver.
Qed.

Lemma rep_bucket_keys s Q : represents s Q -> bucket_keys (inflight s) ≡ₚ qkey <$> Q.*1.
Proof.
  intros Hr. apply NoDup_Permutation; [apply bucket_keys_NoDup|apply Hr|]. intros k. rewrite bucket_keys_elem. split.
  - intros [v (x & Hx & -> & _)%(rep_map _ _ Hr)]. apply list_elem_of_fmap_2, list_elem_of_fmap. eauto.
  - intros (y & -> & (x & -> & Hx)%list_elem_of_fmap)%list_elem_of_fmap. rewrite (rep_lookup _ _ _ Hr Hx). eauto.
Qed.

Lemma rep_live s Q now :
  represents s Q -> omap (live_at now (inflight s)) (bucket_keys (inflight s)) ≡ₚ qrecord <$> filter (fun x => ~ late now x.1) Q.
Proof.
  intros Hr. rewrite (rep_bucket_keys _ _ Hr).
  assert (forall x, x ∈ Q -> live_at now (inflight s) (qkey x.1) = if decide (late now x.1) then None else Some (qrecord x)) as Hx.
  { intros x Hx. unfold live_at. rewrite (rep_lookup _ _ _ Hr Hx). pose proof (expired_late now x) as He.
    destruct (expired now (qrecord x)); case_decide; naive_solver. }
  clear Hr. induction Q as [|x Q IH]; [done|]. simpl. rewrite Hx by left. rewrite filter_cons.
  destruct (decide (late now x.1)); [rewrite decide_False by tauto|rewrite decide_True by done; simpl; apply Permutation_cons; [done|]];
    apply IH; intros y Hy; apply Hx; by right.
Qed.

Lemma rep_load s Q now :
  represents s Q ->
  exists live, StoredInflightMessages now s = (Ok (normalizeInflightOrder live), (StoredInflightMessages now s).2) /\
    live ≡ₚ qrecord <$> filter (fun x => ~ late now x.1) Q /\
    represents (StoredInflightMessages now s).2 (filter (fun x => ~ late now x.1) Q) /\
    sequence (StoredInflightMessages now s).2 = sequence s.
Proof.
  intros Hr. unfold StoredInflightMessages. rewrite (rep_open _ _ Hr).
  destruct (load_live_spec now (bucket_keys (inflight s)) (inflight s)) as (m' & -> & Hm').
  { apply bucket_keys_NoDup. }
  { intros k [v Hv]%bucket_keys_elem. apply (rep_map _ _ Hr) in Hv as Hv'. destruct Hv' as (x & _ & _ & ->). eauto. }
  eexists. split; [done|]. split; [by apply rep_live|]. split; [|done].
  apply (rep_filter s _ Q (fun x => ~ late now x.1)); [done|first [done|apply Hr]|done|..]; simpl.
  - intros k. rewrite Hm'. destruct (_ && _); [by left|by right].
  - intros x Hx. rewrite Hm', (rep_lookup _ _ _ Hr Hx). pose proof (expired_at_late _ _ now _ Hr Hx) as He.
    rewrite bool_decide_eq_true_2 by (apply bucket_keys_elem; rewrite (rep_lookup _ _ _ Hr Hx); eauto). simpl.
    destruct (expired_at now (inflight s) (qkey x.1)); naive_solver.
Qed.

(** *** Every hook *)

Lemma fst_filter (P' : queued * Z -> Prop) (P : queued -> Prop) `{forall x, Decision (P' x)} `{forall x, Decision (P x)} Q :
  (forall x, P' x <-> P x.1) -> (filter P' Q).*1 = filter P Q.*1.
Proof.
  intros HP. induction Q as [|x Q IH]; [done|]. rewrite fmap_cons, !filter_cons.
  destruct (decide (P' x)) as [Hx|Hx]; rewrite HP in Hx; [rewrite decide_True by done|by rewrite decide_False].
  rewrite fmap_cons. by rewrite IH.
Qed.

Lemma OnSessionEstablish_sequence c old now s : sequence (OnSessionEstablish c old now s).2 = sequence s.
Proof.
  unfold OnSessionEstablish. destruct old as [[|n]|]; [done| |done]. destruct (db s); [|done].
  by destruct (prune _ _ _ _) as [pids m].
Qed.

Lemma rep_op s Q o :
  represents s Q -> wf_op o -> (sequence s + 1 < 2 ^ 64)%Z ->
  exists Q', represents (apply_op s o) Q' /\ Q'.*1 = spec_op Q.*1 o /\ (sequence (apply_op s o) <= sequence s + 1)%Z.
Proof.
  intros Hr Hw Hseq.
  assert (forall s', same_queue s s' -> exists Q', represents s' Q' /\ Q'.*1 = Q.*1 /\ (sequence s' <= sequence s + 1)%Z) as Hsame.
  { intros s' (E1 & E2 & E3). exists Q. split_and!; [by eapply rep_frame|done|lia]. }
  assert (forall c, wf_client c -> exists Q', represents (dropClient c s) Q' /\ Q'.*1 = forget c Q.*1 /\
    (sequence (dropClient c s) <= sequence s + 1)%Z) as Hdrop.
  { intros c Hc. exists (filter (fun x => qClient x.1 <> c) Q). split_and!; [by apply rep_drop|by apply fst_filter|].
    unfold dropClient, guarded. rewrite (rep_open _ _ Hr). simpl. lia. }
  assert (forall c pid, wf_packet_id pid -> exists Q', represents (OnQosComplete c pid s) Q' /\ Q'.*1 = remove c pid Q.*1 /\
    (sequence (OnQosComplete c pid s) <= sequence s + 1)%Z) as Hcomp.
  { intros c pid Hp. eexists. split_and!; [by apply rep_complete|by apply fst_filter|].
    unfold OnQosComplete, guarded. rewrite (rep_open _ _ Hr). simpl. lia. }
  destruct o as [rec|c tk ex|c|c fs codes|c fs|pk r|t|c pk|c pid|c pid|c [[|n]|] now|now]; simpl in *; auto.
  - apply Hsame. by apply guarded_same.
  - unfold OnDisconnect. destruct (negb ex || tk); [by apply Hsame|by apply Hdrop].
  - apply Hsame, OnSubscribed_same.
  - apply Hsame, OnUnsubscribed_same.
  - apply Hsame, OnRetainMessage_same.
  - apply Hsame. by apply guarded_same.
  - destruct Hw. by apply rep_publish.
  - by apply Hsame.
  - eexists. split_and!; [exact (rep_session s Q c n now Hr Hw)|by apply fst_filter|].
    pose proof (OnSessionEstablish_sequence c (Some (S n)) now s) as Hs. simpl in Hs. rewrite Hs. lia.
  - by apply Hsame.
  - assert (represents (Init (Stop s)) Q) as Hr' by (by eapply rep_frame; [|rewrite (rep_open _ _ Hr)|..]).
    destruct (rep_load _ _ now Hr') as (live & _ & _ & Hrep & Hs). eexists. split_and!; [exact Hrep|by apply fst_filter|].
    rewrite Hs. simpl. lia.
Qed.

Lemma rep_new : represents new_file [].
Proof.
  split; simpl; [done| |constructor|constructor| |constructor|done].
  - intros k v. split; [done|]. by intros (x & ?%elem_of_nil & _).
  - by intros n ?%elem_of_nil.
Qed.

Lemma rep_ops ops s Q :
  represents s Q -> Forall wf_op ops -> (sequence s + Z.of_nat (length ops) < 2 ^ 64)%Z ->
  exists Q', represents (foldl apply_op s ops) Q' /\ Q'.*1 = foldl spec_op Q.*1 ops.
Proof.
  revert s Q. induction ops as [|o ops IH]; intros s Q Hr Hw Hlen; simpl in *; [eauto|].
  apply Forall_cons in Hw as [Ho Hw]. destruct (rep_op s Q o) as (Q' & Hr' & <- & Hs); [done..|lia|]. apply IH; [done..|lia].
Qed.

(** ** Replay order *)

Abbreviation seq_le := (fun a b : storedMessage => (Seq a <= Seq b)%Z).
Abbreviation seq_lt := (fun a b : storedMessage => (Seq a < Seq b)%Z).

Lemma swap_down_perm r l : swap_down r l ≡ₚ r :: l.
Proof. induction l as [|b l IH]; simpl; [done|]. destruct (_ <? _)%Z; [|done]. rewrite IH. apply Permutation_swap. Qed.

Lemma swap_down_sorted r l : StronglySorted (flip seq_le) l -> StronglySorted (flip seq_le) (swap_down r l).
Proof.
  induction 1 as [|b l Hs IH Hb]; simpl; [by repeat constructor|]. destruct (Z.ltb_spec (Seq r) (Seq b)).
  - constructor; [done|]. rewrite swap_down_perm. constructor; [simpl; lia|done].
  - constructor; [by constructor|]. constructor; [done|]. rewrite Forall_forall in *. intros y Hy%Hb. simpl in *. lia.
Qed.

Lemma sorted_rev {A} (R : relation A) l : StronglySorted (flip R) l -> StronglySorted R (rev l).
Proof.
  induction 1 as [|a l Hs IH Ha]; simpl; [constructor|]. apply sorted_snoc; [done|]. rewrite Forall_forall in *.
  intros y Hy. apply Ha. by rewrite Permutation_rev.
Qed.

Lemma insertion_sort_spec l : insertion_sort l ≡ₚ l /\ StronglySorted seq_le (insertion_sort l).
Proof.
  unfold insertion_sort.
  assert (forall acc, StronglySorted (flip seq_le) acc ->
    foldl (fun sorted r => swap_down r sorted) acc l ≡ₚ acc ++ l /\
    StronglySorted (flip seq_le) (foldl (fun sorted r => swap_down r sorted) acc l)) as Hall.
  { induction l as [|a l IH]; intros acc Hacc; simpl; [by rewrite app_nil_r|].
    destruct (IH (swap_down a acc)) as [Hp Hs]; [by apply swap_down_sorted|]. split; [|done].
    rewrite Hp, swap_down_perm. simpl. apply Permutation_middle. }
  destruct (Hall [] ltac:(constructor)) as [Hp Hs]. split; [by rewrite <- Permutation_rev|by apply sorted_rev].
Qed.

Lemma sorted_unique l l' : l ≡ₚ l' -> StronglySorted seq_le l -> StronglySorted seq_lt l' -> l = l'.
Proof.
  revert l. induction l' as [|a' l' IH]; intros l Hp Hs Hs'; [by apply Permutation_nil_r in Hp|].
  destruct l as [|a l]; [by apply Permutation_nil_l in Hp|]. inversion_clear Hs as [|?? Hs1 Ha]. inversion_clear Hs' as [|?? Hs2 Ha'].
  rewrite Forall_forall in Ha, Ha'.
  assert (a = a') as ->; [|f_equal; apply IH; [by apply Permutation_cons_inv in Hp|done..]].
  assert (a ∈ a' :: l') as [?|Hin]%elem_of_cons by (rewrite <- Hp; left); [done|].
  assert (a' ∈ a :: l) as [?|Hin']%elem_of_cons by (rewrite Hp; left); [done|]. apply Ha' in Hin. apply Ha in Hin'. simpl in *. lia.
Qed.

(** *** Renumbering *)

Lemma renumber_client prev id l : Forall (fun m => mClient m = id) l -> Forall (fun m => mClient m = id) (renumber prev l).
Proof.
  intros Hl. revert prev. induction Hl as [|m l Hm Hl IH]; intros prev; simpl; [constructor|]. constructor; [|apply IH].
  destruct prev; [|done]. by case_match.
Qed.

(** Only [Created] changes, never backwards, and it increases strictly. *)
Definition small (B : Z) (m : Message) : Prop := (0 <= mCreated m <= B)%Z.
Definition numbered (l l' : list Message) : Prop :=
  Forall2 (fun m m' => m' = set_created (mCreated m') m /\ (mCreated m <= mCreated m')%Z) l l' /\
  StronglySorted (fun a b => mCreated a < mCreated b)%Z l'.

Lemma renumber_spec B l prev :
  Forall (small B) l -> (forall p, prev = Some p -> 0 <= p <= B)%Z -> (B + Z.of_nat (length l) < 2 ^ 63)%Z ->
  numbered l (renumber prev l) /\ (forall p, prev = Some p -> Forall (fun m => p < mCreated m)%Z (renumber prev l)).
Proof.
  intros Hl. revert B prev Hl. induction l as [|m l IH]; intros B prev Hl Hp Hb; simpl.
  { split; [split; constructor|constructor]. }
  apply Forall_cons in Hl as [Hm Hl]. unfold small in Hm.
  set (m' := match prev with Some p => _ | None => m end).
  assert (m' = set_created (mCreated m') m /\ (mCreated m <= mCreated m' <= B + 1)%Z /\ (forall p, prev = Some p -> (p < mCreated m')%Z)) as (E1 & E2 & E3).
  { unfold m'. destruct prev as [p|]; [|split; [by destruct m|split; [lia|done]]]. specialize (Hp p eq_refl).
    destruct (Z.leb_spec (mCreated m) p); simpl; [rewrite wrap_small by (simpl in *; lia)|]; (split; [by destruct m|split; [lia|]]); intros q [= <-]; lia. }
  destruct (IH (B + 1)%Z (Some (mCreated m'))) as [[H1 H2] H3].
  { eapply Forall_impl; [exact Hl|]. unfold small. lia. }
  { intros p [= <-]. lia. }
  { simpl in Hb. lia. }
  specialize (H3 _ eq_refl). split; [split; [constructor; [split; [done|lia]|done]|by constructor]|].
  intros p Hpp. specialize (E3 p Hpp). constructor; [done|]. eapply Forall_impl; [exact H3|]. simpl. lia.
Qed.

(** *** One client's messages of a load *)

Lemma first_seen_spec recs seen :
  NoDup seen -> NoDup (first_seen recs seen) /\ (forall c, c ∈ first_seen recs seen <-> c ∈ seen \/ exists r, r ∈ recs /\ mClient (message r) = c).
Proof.
  revert seen. induction recs as [|r recs IH]; intros seen Hnd; simpl.
  { split; [done|]. intros c. split; [by left|]. intros [?|(r & ?%elem_of_nil & _)]; done. }
  case_decide as Hin.
  - destruct (IH seen Hnd) as [H1 H2]. split; [done|]. intros c. rewrite H2. set_solver.
  - destruct (IH (seen ++ [mClient (message r)])) as [H1 H2].
    { apply NoDup_app. split_and!; [done| |apply NoDup_singleton]. set_solver. }
    split; [done|]. intros c. rewrite H2. set_solver.
Qed.

Lemma filter_groups (f : gostring -> list Message) ids c :
  NoDup ids -> (forall id, Forall (fun m => mClient m = id) (f id)) -> (c ∉ ids -> f c = []) ->
  filter (fun m => mClient m = c) (id ← ids; f id) = f c.
Proof.
  intros Hnd Hf. induction Hnd as [|a ids Ha Hnd IH]; intros Hc; [by rewrite Hc by apply not_elem_of_nil|].
  assert (forall id, filter (fun m => mClient m = c) (f id) = if decide (id = c) then f id else []) as Hid.
  { intros id. specialize (Hf id). induction Hf as [|m l Hm Hl IHl]; [by case_decide|]. rewrite filter_cons, IHl, Hm. by case_decide. }
  rewrite bind_cons, filter_app, Hid. case_decide as Hac.
  - subst a. assert (filter (fun m => mClient m = c) (id ← ids; f id) = []) as ->; [|by rewrite app_nil_r].
    clear IH Hnd. induction ids as [|b ids IH]; [done|]. rewrite bind_cons, filter_app, Hid, decide_False, IH by set_solver. done.
  - simpl. apply IH. intros Hn. apply Hc. set_solver.
Qed.

Lemma normalize_client recs c :
  filter (fun m => mClient m = c) (normalizeInflightOrder recs) = renumber None (message <$> insertion_sort (of_client c recs)).
Proof.
  unfold normalizeInflightOrder. destruct (first_seen_spec recs []) as [Hnd Hin]; [constructor|].
  apply (filter_groups (fun id => renumber None (message <$> insertion_sort (of_client id recs)))); [done|..].
  - intros id. apply renumber_client. rewrite Forall_fmap, (proj1 (insertion_sort_spec _)), Forall_forall.
    by intros r [? _]%list_elem_of_filter.
  - intros Hc. destruct (of_client c recs) as [|r l] eqn:E; [done|]. exfalso. apply Hc, Hin. right. exists r.
    assert (r ∈ of_client c recs) as [? ?]%list_elem_of_filter by (rewrite E; left). done.
Qed.

(** The message of a queue element, as it was handed to the store. *)
Definition queued_message (x : queued) : Message := message (messageRecord (qPacket x) (qClient x) InflightKey 0).

Lemma of_client_sorted Q c now :
  StronglySorted Z.lt Q.*2 -> StronglySorted seq_lt (of_client c (qrecord <$> filter (fun x => ~ late now x.1) Q)).
Proof.
  intros Hs. apply filter_keeps_sorted. assert (StronglySorted (fun a b : queued * Z => a.2 < b.2)%Z Q) as Hq.
  { induction Q as [|x Q IH]; [constructor|]. simpl in Hs. inversion_clear Hs as [|?? Hs' Hx]. constructor; [by apply IH|].
    by rewrite Forall_fmap in Hx. }
  apply (filter_keeps_sorted _ (fun x => ~ late now x.1)) in Hq. induction Hq as [|x l Hl IH Hx]; [constructor|].
  rewrite fmap_cons. constructor; [done|]. apply Forall_fmap. exact Hx.
Qed.

(** C8. After any sequence of hooks, restarts and expiries, loading the file gives
    every client exactly the messages of its queue that have not expired, in
    the order they were first queued, resends in the place of the original;
    only their creation stamps are renumbered. *)
Theorem restart_replays_queue ops now :
  Forall wf_op ops -> (Z.of_nat (length ops) < 2 ^ 64)%Z ->
  exists msgs, (StoredInflightMessages now (foldl apply_op new_file ops)).1 = Ok msgs /\
    forall c, filter (fun m => mClient m = c) msgs =
      renumber None (queued_message <$> filter (fun x => qClient x = c) (expire now (foldl spec_op [] ops))).
Proof.
  intros Hw Hlen. destruct (rep_ops ops new_file [] rep_new Hw) as (Q & Hr & HQ); [simpl; lia|]. simpl in HQ.
  destruct (rep_load _ _ now Hr) as (live & -> & Hp & _). eexists. split; [done|]. intros c.
  rewrite normalize_client. f_equal. destruct (insertion_sort_spec (of_client c live)) as [Hsp Hss].
  rewrite (sorted_unique (insertion_sort (of_client c live)) (of_client c (qrecord <$> filter (fun x => ~ late now x.1) Q)));
    [|by rewrite Hsp; unfold of_client; rewrite Hp|done|apply of_client_sorted, Hr].
  rewrite <- HQ. clear. unfold expire. induction Q as [|x Q IH]; [done|]. rewrite fmap_cons, !filter_cons.
  destruct (decide (¬ late now x.1)); [|done]. rewrite fmap_cons. unfold of_client. rewrite !filter_cons. simpl.
  case_decide; [rewrite !fmap_cons; f_equal|]; apply IH.
Qed.

(** The order the server replays in: it sorts by [uint16(Created)]. *)
Definition replay_key (m : Message) : Z := (mCreated m mod 2 ^ 16)%Z.

(** Renumbering changes only the creation stamps, never backwards, and leaves
    them strictly increasing; so the server's own sort keeps the queueing order
    of a queue whose stamps agree above their low 16 bits. *)
Theorem replay_order_kept B msgs :
  Forall (small B) msgs -> (B + Z.of_nat (length msgs) < 2 ^ 63)%Z ->
  numbered msgs (renumber None msgs) /\
  forall w, Forall (fun m => mCreated m / 2 ^ 16 = w)%Z (renumber None msgs) ->
    StronglySorted (fun a b => replay_key a < replay_key b)%Z (renumber None msgs).
Proof.
  intros Hs Hb. destruct (renumber_spec B msgs None) as [Hn _]; [done..|]. split; [done|]. intros w Hw.
  destruct Hn as [_ Hn]. induction Hn as [|m l Hl IH Hm]; [constructor|]. apply Forall_cons in Hw as [Hmw Hw].
  constructor; [by apply IH|]. rewrite Forall_forall in *. intros y Hy. pose proof (Hm y Hy). pose proof (Hw y Hy).
  unfold replay_key. pose proof (Z.div_mod (mCreated m) (2 ^ 16)). pose proof (Z.div_mod (mCreated y) (2 ^ 16)). lia.
Qed.

(** Dropping a client removes its record, its subscriptions and its queue, and
    nothing of any other client. *)
Theorem drop_client_exact s c :
  db s = true -> keySep ∉ c ->
  let s' := dropClient c s in
  clients s' = delete c (clients s) /\ retained s' = retained s /\
  forall c' suffix, keySep ∉ c' ->
    subscriptions s' !! compositeKey c' suffix =
      (if decide (c' = c) then None else subscriptions s !! compositeKey c' suffix) /\
    inflight s' !! compositeKey c' suffix = (if decide (c' = c) then None else inflight s !! compositeKey c' suffix).
Proof.
  intros Ho Hc. unfold dropClient, guarded. rewrite Ho. split; [done|]. split; [done|]. intros c' suffix Hc'. simpl.
  assert (forall A (m : gmap gostring A), delete_keys (prefix_scan (compositeKey c []) m) m !! compositeKey c' suffix =
    if decide (c' = c) then None else m !! compositeKey c' suffix) as Hl; [|by rewrite !Hl].
  intros A m. rewrite delete_keys_lookup. case_decide as Hin; rewrite prefix_scan_elem, composite_prefix in Hin by done.
  - by rewrite decide_True by tauto.
  - case_decide; [|done]. apply eq_None_not_Some. tauto.
Qed.

(** ** A sample *)

Definition sample_packet (pid created expiry : Z) (payload : gostring) : Packet :=
  MkPacket []%go "test/dev/org.Server/value"%go payload created pid (MkHeader 3 1 false false)
    (MkProps 0 false 0 [] [] [] []) expiry 5.
Definition sample_ops : list op :=
  [OpPublish "b"%go (sample_packet 1 100 0 "one"%go); OpPublish "a"%go (sample_packet 9 100 0 "x"%go);
   OpPublish "b"%go (sample_packet 2 100 150 "late"%go); OpPublish "b"%go (sample_packet 7 100 0 "two"%go);
   OpPublish "b"%go (sample_packet 1 120 0 "one again"%go); OpComplete "a"%go 9; OpRestart 110].

Lemma sample_ops_wf : Forall wf_op sample_ops.
Proof.
  assert (forall c, c ∈ ["a"%go; "b"%go] -> wf_client c) as Hc.
  { intros c Hc. apply elem_of_cons in Hc as [->|[->|?%elem_of_nil]%elem_of_cons]; [..|done];
      (split; [by apply (bool_decide_unpack _)|apply Nat.leb_le; vm_compute; reflexivity]). }
  assert (wf_client "a"%go /\ wf_client "b"%go) as [Ha Hb] by (split; apply Hc; set_solver). clear Hc.
  apply Forall_forall. intros o Ho. repeat (apply elem_of_cons in Ho as [->|Ho]); [..|by apply elem_of_nil in Ho];
    cbn [wf_op pkPacketID sample_packet]; unfold wf_packet_id; repeat (split; try assumption); lia.
Qed.

Lemma restart_replays_queue_witness :
  exists msgs, (StoredInflightMessages 200 (foldl apply_op new_file sample_ops)).1 = Ok msgs /\
    mPayload <$> filter (fun m => mClient m = "b"%go) msgs = ["one again"%go; "two"%go].
Proof.
  destruct (restart_replays_queue sample_ops 200 sample_ops_wf) as (msgs & Hm & Hc); [simpl; lia|].
  exists msgs. split; [exact Hm|]. rewrite Hc. vm_compute. reflexivity.
Defined.

Lemma replay_order_kept_witness :
  numbered (queued_message <$> [MkQueued "b"%go (sample_packet 1 100 0 []); MkQueued "b"%go (sample_packet 2 100 0 [])])
    (renumber None (queued_message <$> [MkQueued "b"%go (sample_packet 1 100 0 []); MkQueued "b"%go (sample_packet 2 100 0 [])])).
Proof.
  apply (replay_order_kept 100); [|simpl; lia].
  apply Forall_cons; split; [unfold small; simpl; lia|]. apply Forall_singleton. unfold small. simpl. lia.
Defined.

Lemma drop_client_exact_witness :
  inflight (dropClient "b"%go (foldl apply_op new_file sample_ops)) !! compositeKey "b"%go (put_uint16 7) = None /\
  bool_decide (is_Some (inflight (foldl apply_op new_file sample_ops) !! compositeKey "b"%go (put_uint16 7))) = true.
Proof.
  assert (keySep ∉ "b"%go) as Hb by (by apply (bool_decide_unpack _)).
  split; [|vm_compute; reflexivity].
  destruct (drop_client_exact (foldl apply_op new_file sample_ops) "b"%go eq_refl Hb) as (_ & _ & H).
  destruct (H "b"%go (put_uint16 7) Hb) as [_ E]. exact E.
Defined.

(** A queue that crosses a multiple of 65536 seconds, about every eighteen
    hours, is replayed out of order: the later message has the smaller key. *)
Theorem replay_wraps :
  let q := queued_message <$> [MkQueued "b"%go (sample_packet 1 65535 0 "first"%go); MkQueued "b"%go (sample_packet 2 65536 0 "second"%go)] in
  mPayload <$> renumber None q = ["first"%go; "second"%go] /\ replay_key <$> renumber None q = [65535%Z; 0%Z].
Proof. vm_compute. done. Qed.

End SessionStore.
