(* ===== verification/Config.v ===== *)
(** * Configuration

    [internal/config/config.go] and the cross-origin middleware of
    [internal/httpx/cors.go] that the configuration drives: the defaults, the
    overlay of the file and of the environment, the checks of [validate], and
    the keys resolved from files. The TOML decoder, [url.Parse] and the file
    system are the class [Platform]; the environment is a finite map. *)

From S2P Require Import Prelude GoStrings Float64 Auth.

Module Config.

(** ** The configuration *)

Definition Duration : Type := Z.

Record HTTPConfig := MkHTTP {
  hAddr : gostring;
  hTLSCertFile : gostring;
  hTLSKeyFile : gostring;
  CORSAllowedOrigins : list gostring;
}.

Record MQTTConfig := MkMQTT {
  mAddr : gostring;
  mTLSCertFile : gostring;
  mTLSKeyFile : gostring;
  InsecureDevMode : bool;
  DevAddr : gostring;
  SessionStorePath : gostring;
  AdvertisedURL : gostring;
  MaxPacketBytes : Z;
}.

Record EngineConfig := MkEngine {
  Shards : Z;
  ShardQueue : Z;
  BatchMaxRows : Z;
  BatchMaxWait : Duration;
  MaxPayloadBytes : Z;
}.

Record PairingConfig := MkPairing {
  CertTTL : Duration;
  EnforceLatestCert : bool;
  RegisterRate : Float64.float64;
  RegisterBurst : Z;
  CredentialsRate : Float64.float64;
  CredentialsBurst : Z;
  BcryptCost : Z;
}.

Record HousekeepingConfig := MkHousekeeping {
  JWTPublicKeys : list gostring;
  JWTPublicKeyFiles : list gostring;
  DefaultDatastreamMaximumStorageRetention : option Z;
  RealmDeletionDisabled : bool;
}.

Record RealmConfig := MkRealm {
  rName : gostring;
  rJWTPublicKey : gostring;
  rJWTPublicKeyFile : gostring;
  rDeviceRegistrationLimit : option Z;
}.

Record LogConfig := MkLog { Level : gostring; Format : gostring }.

Record ForwardConfig := MkForward {
  Kind : gostring;
  URL : gostring;
  Method : gostring;
  StaticHeaders : gmap gostring gostring;
  Subject : gostring;
}.

(** The sections with one field (database, storage, security, triggers) are
    that field. *)
Record Config := MkConfig {
  HTTP : HTTPConfig;
  MQTT : MQTTConfig;
  DSN : gostring;
  Engine : EngineConfig;
  Pairing : PairingConfig;
  Housekeeping : HousekeepingConfig;
  Retention : Duration;
  MasterKeyFile : gostring;
  RealmC : RealmConfig;
  Log : LogConfig;
  Forward : ForwardConfig;
}.

Definition millisecond : Z := 1000000.
Definition hour : Z := 3600000000000.
Definition five : Float64.float64 := Float64.of_int 5.

Definition Default : Config :=
  MkConfig
    (MkHTTP ":8080"%go [] [] [])
    (MkMQTT ":8883"%go [] [] false ":1883"%go "sessions.db"%go [] (272 * 1024)%Z)
    []
    (MkEngine 16 4096 64 (50 * millisecond)%Z (64 * 1024)%Z)
    (MkPairing (30 * 24 * hour)%Z false five 10 five 10 10)
    (MkHousekeeping [] [] None false)
    0%Z []
    (MkRealm [] [] [] None)
    (MkLog "info"%go "json"%go)
    (MkForward [] [] [] ∅ []).

(** ** The environment *)

Abbreviation environment := (gmap gostring gostring).

(** [os.LookupEnv] into a string field. *)
Definition str (env : environment) (v dst : gostring) : gostring := default dst (env !! v).

(** The value of [strconv.ParseBool], which is [false] beside an error. *)
Definition ParseBool (s : gostring) : bool :=
  bool_decide (s ∈ ["1"%go; "t"%go; "T"%go; "TRUE"%go; "true"%go; "True"%go]).

Inductive config_error :=
| ErrReading
| ErrRetention (v : gostring)
| ErrDeletionGate (v : gostring)
| ErrDSN | ErrHTTPAddr | ErrSessionStore | ErrMQTTTLS | ErrHTTPTLS
| ErrOrigin (o : gostring)
| ErrShards
| ErrForwardKind (k : gostring)
| ErrForwardURLMissing | ErrForwardURL (u : gostring) | ErrForwardMethod (m : gostring) | ErrForwardSubject
| ErrRealmKey
| ErrLogLevel (l : gostring) | ErrLogFormat (f : gostring)
| ErrKeyFile (f : gostring).

Definition env_origins (v : gostring) : list gostring :=
  filter (fun o => o <> []) (map Auth.TrimSpace (Strings.Split v ","%char)).

Definition retention_vars : list gostring :=
  ["ASTRATE_HOUSEKEEPING_DEFAULT_DATASTREAM_MAXIMUM_STORAGE_RETENTION"%go;
   "HOUSEKEEPING_DEFAULT_DATASTREAM_MAXIMUM_STORAGE_RETENTION"%go].
Definition retention_text (env : environment) : gostring :=
  foldl (fun acc v => match env !! v with Some (c :: t) => c :: t | _ => acc end) [] retention_vars.

Definition env_retention (env : environment) (old : option Z) : result config_error (option Z) :=
  match retention_text env with
  | [] => Ok old
  | v => match Strconv.ParseInt v with
         | Ok n => if (n <? 0)%Z then Err (ErrRetention v) else Ok (Some n)
         | Err _ => Err (ErrRetention v)
         end
  end.

Definition env_deletion (env : environment) (old : bool) : result config_error bool :=
  match env !! "ASTRATE_HOUSEKEEPING_REALM_DELETION_DISABLED"%go with
  | None => Ok old
  | Some v =>
      if decide (v ∈ ["1"%go; "true"%go; "TRUE"%go; "True"%go]) then Ok true
      else if decide (v ∈ ["0"%go; "false"%go; []]) then Ok false
      else Err (ErrDeletionGate v)
  end.

Definition env_shards (env : environment) (old : Z) : Z :=
  match env !! "ASTRATE_ENGINE_SHARDS"%go with
  | Some v => match Strconv.Atoi v with Ok n => n | Err _ => old end
  | None => old
  end.

Definition applyEnv (env : environment) (cfg : Config) : result config_error Config :=
  let s := str env in
  let http := HTTP cfg in
  let http := MkHTTP (s "ASTRATE_HTTP_ADDR"%go (hAddr http)) (s "ASTRATE_HTTP_TLS_CERT_FILE"%go (hTLSCertFile http))
                (s "ASTRATE_HTTP_TLS_KEY_FILE"%go (hTLSKeyFile http))
                (match env !! "ASTRATE_HTTP_CORS_ALLOWED_ORIGINS"%go with
                 | Some v => env_origins v | None => CORSAllowedOrigins http end) in
  let mqtt := MQTT cfg in
  let mqtt := MkMQTT (s "ASTRATE_MQTT_ADDR"%go (mAddr mqtt)) (s "ASTRATE_MQTT_TLS_CERT_FILE"%go (mTLSCertFile mqtt))
                (s "ASTRATE_MQTT_TLS_KEY_FILE"%go (mTLSKeyFile mqtt))
                (match env !! "ASTRATE_MQTT_INSECURE_DEV_MODE"%go with
                 | Some v => ParseBool v | None => InsecureDevMode mqtt end)
                (DevAddr mqtt) (s "ASTRATE_MQTT_SESSION_STORE_PATH"%go (SessionStorePath mqtt))
                (s "ASTRATE_MQTT_ADVERTISED_URL"%go (AdvertisedURL mqtt)) (MaxPacketBytes mqtt) in
  let eng := Engine cfg in
  let eng := MkEngine (env_shards env (Shards eng)) (ShardQueue eng) (BatchMaxRows eng) (BatchMaxWait eng)
               (MaxPayloadBytes eng) in
  let realm := RealmC cfg in
  let realm := MkRealm (s "ASTRATE_REALM_NAME"%go (rName realm)) (s "ASTRATE_REALM_JWT_PUBLIC_KEY"%go (rJWTPublicKey realm))
                 (s "ASTRATE_REALM_JWT_PUBLIC_KEY_FILE"%go (rJWTPublicKeyFile realm)) (rDeviceRegistrationLimit realm) in
  let log := MkLog (s "ASTRATE_LOG_LEVEL"%go (Level (Log cfg))) (s "ASTRATE_LOG_FORMAT"%go (Format (Log cfg))) in
  let hk := Housekeeping cfg in
  let? retention := env_retention env (DefaultDatastreamMaximumStorageRetention hk) in
  let? disabled := env_deletion env (RealmDeletionDisabled hk) in
  Ok (MkConfig http mqtt (s "ASTRATE_DATABASE_DSN"%go (DSN cfg)) eng (Pairing cfg)
        (MkHousekeeping (JWTPublicKeys hk) (JWTPublicKeyFiles hk) retention disabled)
        (Retention cfg) (s "ASTRATE_SECURITY_MASTER_KEY_FILE"%go (MasterKeyFile cfg)) realm log (Forward cfg)).

(** ** Checks *)

(** The parts of a parsed URL the checks look at. *)
Record url := MkURL { Scheme : gostring; Host : gostring; Path : gostring; RawQuery : gostring; Fragment : gostring }.

(** What the process is given: the TOML decoder, which overwrites the fields
    the file names, the URL parser and the files. *)
Class Platform := {
  DecodeFile : gostring -> Config -> option Config;
  url_Parse : gostring -> option url;
  ReadFile : gostring -> option gostring;
}.

(** [strings.ToUpper], up to characters outside ASCII that stay outside: the
    small letters, and the two characters whose capital is an ASCII letter. *)
Definition dotless_i : gostring := map chr [196; 177]%Z.
Definition long_s : gostring := map chr [197; 191]%Z.
Definition upper (c : ascii) : ascii := if between "a" "z" c then chr (byte_val c - 32) else c.
Fixpoint ToUpper (s : gostring) : gostring :=
  match s with
  | [] => []
  | c :: r =>
      match r with
      | c1 :: r1 =>
          if bool_decide ([c; c1] = dotless_i) then "I"%char :: ToUpper r1
          else if bool_decide ([c; c1] = long_s) then "S"%char :: ToUpper r1
          else upper c :: ToUpper r
      | [] => [upper c]
      end
  end.

Abbreviation blank s := (bool_decide (s = @nil ascii)).

Definition HTTPMethods : list gostring :=
  ["DELETE"%go; "GET"%go; "HEAD"%go; "OPTIONS"%go; "PATCH"%go; "POST"%go; "PUT"%go].

Section Load.
Context `{Platform}.

Definition origin_bad (o : gostring) : bool :=
  match url_Parse o with
  | Some u => blank (Scheme u) || blank (Host u) || negb (blank (Path u)) || negb (blank (RawQuery u))
              || negb (blank (Fragment u))
  | None => true
  end.
Fixpoint check_origins (l : list gostring) : result config_error () :=
  match l with
  | [] => Ok ()
  | o :: l => if decide (o = "*"%go) then check_origins l
              else if origin_bad o then Err (ErrOrigin o) else check_origins l
  end.

Definition forward_url_bad (raw : gostring) : bool :=
  match url_Parse raw with
  | Some u => (negb (bool_decide (Scheme u = "http"%go)) && negb (bool_decide (Scheme u = "https"%go))) || blank (Host u)
  | None => true
  end.

Definition check_forward (f : ForwardConfig) : result config_error () :=
  let? _ := guard_err (bool_decide (Kind f ∈ [[]; "http"%go; "nats"%go])) (ErrForwardKind (Kind f)) in
  let? _ :=
    if decide (Kind f = "http"%go) then
      let? _ := guard_err (negb (blank (URL f))) ErrForwardURLMissing in
      let? _ := guard_err (negb (forward_url_bad (URL f))) (ErrForwardURL (URL f)) in
      guard_err (blank (Method f) || bool_decide (ToUpper (Method f) ∈ HTTPMethods)) (ErrForwardMethod (Method f))
    else Ok () in
  if decide (Kind f = "nats"%go) then
    let? _ := guard_err (negb (blank (URL f))) ErrForwardURLMissing in
    guard_err (negb (blank (Subject f))) ErrForwardSubject
  else Ok ().

Definition validate (c : Config) : result config_error () :=
  let? _ := guard_err (negb (blank (DSN c))) ErrDSN in
  let? _ := guard_err (negb (blank (hAddr (HTTP c)))) ErrHTTPAddr in
  let? _ := guard_err (negb (blank (SessionStorePath (MQTT c)))) ErrSessionStore in
  let? _ := guard_err (negb (negb (InsecureDevMode (MQTT c)) && (blank (mTLSCertFile (MQTT c)) || blank (mTLSKeyFile (MQTT c)))))
              ErrMQTTTLS in
  let? _ := guard_err (Bool.eqb (blank (hTLSCertFile (HTTP c))) (blank (hTLSKeyFile (HTTP c)))) ErrHTTPTLS in
  let? _ := check_origins (CORSAllowedOrigins (HTTP c)) in
  let? _ := guard_err (negb (Shards (Engine c) <=? 0)%Z) ErrShards in
  let? _ := check_forward (Forward c) in
  let? _ := guard_err (negb (negb (blank (rName (RealmC c))) && blank (rJWTPublicKey (RealmC c))
                             && blank (rJWTPublicKeyFile (RealmC c)))) ErrRealmKey in
  let? _ := guard_err (bool_decide (Level (Log c) ∈ ["debug"%go; "info"%go; "warn"%go; "error"%go]))
              (ErrLogLevel (Level (Log c))) in
  guard_err (bool_decide (Format (Log c) ∈ ["json"%go; "text"%go])) (ErrLogFormat (Format (Log c))).

Definition Load (path : gostring) (env : environment) : result config_error Config :=
  let? cfg := match path with
              | [] => Ok Default
              | _ => or_err (DecodeFile path Default) ErrReading
              end in
  let? cfg := applyEnv env cfg in
  let? _ := validate cfg in
  Ok cfg.

(** ** Keys *)

Fixpoint read_keys (keys files : list gostring) : result config_error (list gostring) :=
  match files with
  | [] => Ok keys
  | f :: files => match ReadFile f with
                  | None => Err (ErrKeyFile f)
                  | Some b => read_keys (keys ++ [Auth.TrimSpace b]) files
                  end
  end.
Definition HousekeepingKeys (c : Config) : result config_error (list gostring) :=
  read_keys (JWTPublicKeys (Housekeeping c)) (JWTPublicKeyFiles (Housekeeping c)).

Definition RealmJWTPublicKey (c : Config) : result config_error gostring :=
  let r := RealmC c in
  if negb (blank (rJWTPublicKey r)) then Ok (rJWTPublicKey r)
  else if blank (rJWTPublicKeyFile r) then Ok []
  else match ReadFile (rJWTPublicKeyFile r) with
       | None => Err (ErrKeyFile (rJWTPublicKeyFile r))
       | Some b => Ok (Auth.TrimSpace b)
       end.
End Load.

(** ** Cross-origin requests *)

(** Headers by canonical name. *)
Abbreviation header := (gmap gostring (list gostring)).
Definition Get (h : header) (k : gostring) : gostring :=
  match h !! k with Some (v :: _) => v | _ => [] end.
Definition hSet (k v : gostring) (h : header) : header := <[k := [v]]> h.
Definition hAdd (k v : gostring) (h : header) : header := <[k := default [] (h !! k) ++ [v]]> h.

Record request := MkRequest { rqMethod : gostring; rqHeader : header }.
Record response := MkResponse { rsHeader : header; rsStatus : option Z }.
Definition WriteHeader (code : Z) (w : response) : response :=
  MkResponse (rsHeader w) (match rsStatus w with None => Some code | s => s end).
Definition handler : Type := request -> response -> response.

Definition allow_step (st : bool * gset gostring) (o : gostring) : bool * gset gostring :=
  if decide (o = "*"%go) then (true, st.2) else (st.1, {[o]} ∪ st.2).

Definition AllowOrigin : gostring := "Access-Control-Allow-Origin"%go.

Definition stamp (wildcard : bool) (origin : gostring) (h : header) : header :=
  if wildcard then hSet AllowOrigin "*"%go h
  else hAdd "Vary"%go "Origin"%go (hSet AllowOrigin origin h).
Definition preflight (r : request) : bool :=
  bool_decide (rqMethod r = "OPTIONS"%go) && negb (blank (Get (rqHeader r) "Access-Control-Request-Method"%go)).
Definition answer_preflight (h : header) : header :=
  hSet "Access-Control-Max-Age"%go "600"%go
    (hSet "Access-Control-Allow-Headers"%go "Authorization, Content-Type"%go
       (hSet "Access-Control-Allow-Methods"%go "GET, POST, PUT, PATCH, DELETE, OPTIONS"%go h)).

Definition CORS (allowedOrigins : list gostring) (next : handler) : handler := fun r w =>
  let '(wildcard, allowed) := foldl allow_step (false, ∅) allowedOrigins in
  let origin := Get (rqHeader r) "Origin"%go in
  if blank origin || (negb wildcard && negb (bool_decide (origin ∈ allowed))) then next r w
  else
    let w := MkResponse (stamp wildcard origin (rsHeader w)) (rsStatus w) in
    if preflight r then WriteHeader 204 (MkResponse (answer_preflight (rsHeader w)) (rsStatus w))
    else next r w.

(** ** What a loaded configuration is *)

(** The string fields the environment overrides. *)
Definition string_vars : list (gostring * (Config -> gostring)) :=
  [("ASTRATE_HTTP_ADDR"%go, fun c => hAddr (HTTP c));
   ("ASTRATE_HTTP_TLS_CERT_FILE"%go, fun c => hTLSCertFile (HTTP c));
   ("ASTRATE_HTTP_TLS_KEY_FILE"%go, fun c => hTLSKeyFile (HTTP c));
   ("ASTRATE_MQTT_ADDR"%go, fun c => mAddr (MQTT c));
   ("ASTRATE_MQTT_TLS_CERT_FILE"%go, fun c => mTLSCertFile (MQTT c));
   ("ASTRATE_MQTT_TLS_KEY_FILE"%go, fun c => mTLSKeyFile (MQTT c));
   ("ASTRATE_MQTT_SESSION_STORE_PATH"%go, fun c => SessionStorePath (MQTT c));
   ("ASTRATE_MQTT_ADVERTISED_URL"%go, fun c => AdvertisedURL (MQTT c));
   ("ASTRATE_DATABASE_DSN"%go, DSN);
   ("ASTRATE_SECURITY_MASTER_KEY_FILE"%go, MasterKeyFile);
   ("ASTRATE_REALM_NAME"%go, fun c => rName (RealmC c));
   ("ASTRATE_REALM_JWT_PUBLIC_KEY"%go, fun c => rJWTPublicKey (RealmC c));
   ("ASTRATE_REALM_JWT_PUBLIC_KEY_FILE"%go, fun c => rJWTPublicKeyFile (RealmC c));
   ("ASTRATE_LOG_LEVEL"%go, fun c => Level (Log c));
   ("ASTRATE_LOG_FORMAT"%go, fun c => Format (Log c))].

(** The fields no variable reaches. *)
Definition fixed_fields (c : Config) :=
  (Pairing c, Retention c, Forward c, (DevAddr (MQTT c), MaxPacketBytes (MQTT c)),
   (ShardQueue (Engine c), BatchMaxRows (Engine c), BatchMaxWait (Engine c), MaxPayloadBytes (Engine c)),
   (JWTPublicKeys (Housekeeping c), JWTPublicKeyFiles (Housekeeping c)), rDeviceRegistrationLimit (RealmC c)).

(** The retention a non-empty variable gives, the bare name first. *)
Definition retention_source (env : environment) (v : gostring) : Prop :=
  v <> [] /\
  (env !! "HOUSEKEEPING_DEFAULT_DATASTREAM_MAXIMUM_STORAGE_RETENTION"%go = Some v \/
   (default [] (env !! "HOUSEKEEPING_DEFAULT_DATASTREAM_MAXIMUM_STORAGE_RETENTION"%go) = [] /\
    env !! "ASTRATE_HOUSEKEEPING_DEFAULT_DATASTREAM_MAXIMUM_STORAGE_RETENTION"%go = Some v)).

Definition gate_reads (v : gostring) (b : bool) : Prop :=
  if b then v ∈ ["1"%go; "true"%go; "TRUE"%go; "True"%go] else v ∈ ["0"%go; "false"%go; []].

(** [c] is [base] with the environment over it. *)
Record overlaid (env : environment) (base c : Config) : Prop := {
  ov_strings : forall v get, (v, get) ∈ string_vars -> get c = default (get base) (env !! v);
  ov_origins : CORSAllowedOrigins (HTTP c) =
    from_option env_origins (CORSAllowedOrigins (HTTP base)) (env !! "ASTRATE_HTTP_CORS_ALLOWED_ORIGINS"%go);
  ov_dev : InsecureDevMode (MQTT c) =
    from_option ParseBool (InsecureDevMode (MQTT base)) (env !! "ASTRATE_MQTT_INSECURE_DEV_MODE"%go);
  ov_shards : Shards (Engine c) = env_shards env (Shards (Engine base));
  ov_retention : forall v, retention_source env v ->
    exists n, Strconv.ParseInt v = Ok n /\ (0 <= n)%Z /\
      DefaultDatastreamMaximumStorageRetention (Housekeeping c) = Some n;
  ov_retention_kept : (forall v, ~ retention_source env v) ->
    DefaultDatastreamMaximumStorageRetention (Housekeeping c) =
    DefaultDatastreamMaximumStorageRetention (Housekeeping base);
  ov_gate : match env !! "ASTRATE_HOUSEKEEPING_REALM_DELETION_DISABLED"%go with
            | Some v => gate_reads v (RealmDeletionDisabled (Housekeeping c))
            | None => RealmDeletionDisabled (Housekeeping c) = RealmDeletionDisabled (Housekeeping base)
            end;
  ov_fixed : fixed_fields c = fixed_fields base;
}.

Section Usable.
Context `{Platform}.

Definition absolute_origin (o : gostring) : Prop :=
  exists u, url_Parse o = Some u /\ Scheme u <> [] /\ Host u <> [] /\ Path u = [] /\ RawQuery u = [] /\ Fragment u = [].

Definition http_url (raw : gostring) : Prop :=
  raw <> [] /\ exists u, url_Parse raw = Some u /\ (Scheme u = "http"%go \/ Scheme u = "https"%go) /\ Host u <> [].

Definition forward_ok (f : ForwardConfig) : Prop :=
  Kind f = [] \/
  (Kind f = "http"%go /\ http_url (URL f) /\ (Method f = [] \/ ToUpper (Method f) ∈ HTTPMethods)) \/
  (Kind f = "nats"%go /\ URL f <> [] /\ Subject f <> []).

(** The rules of a configuration the process can run with. *)
Record usable (c : Config) : Prop := {
  us_dsn : DSN c <> [];
  us_addr : hAddr (HTTP c) <> [];
  us_store : SessionStorePath (MQTT c) <> [];
  us_mqtt : InsecureDevMode (MQTT c) = true \/ (mTLSCertFile (MQTT c) <> [] /\ mTLSKeyFile (MQTT c) <> []);
  us_http : hTLSCertFile (HTTP c) = [] <-> hTLSKeyFile (HTTP c) = [];
  us_origins : forall o, o ∈ CORSAllowedOrigins (HTTP c) -> o = "*"%go \/ absolute_origin o;
  us_shards : (0 < Shards (Engine c))%Z;
  us_forward : forward_ok (Forward c);
  us_realm : rName (RealmC c) <> [] -> rJWTPublicKey (RealmC c) <> [] \/ rJWTPublicKeyFile (RealmC c) <> [];
  us_level : Level (Log c) ∈ ["debug"%go; "info"%go; "warn"%go; "error"%go];
  us_format : Format (Log c) ∈ ["json"%go; "text"%go];
}.
End Usable.

(** ** Lemmas *)

Lemma negb_blank (s : gostring) : negb (blank s) = true <-> s <> [].
Proof. rewrite negb_true_iff. apply bool_decide_eq_false. Qed.

Lemma then_Ok (r k : result config_error ()) : (let? _ := r in k) = Ok () <-> r = Ok () /\ k = Ok ().
Proof. rewrite bindR_Ok. split; [intros ([] & ? & ?); tauto|naive_solver]. Qed.

Section Validate.
Context `{Platform}.

Lemma origin_bad_spec o : origin_bad o = false <-> absolute_origin o.
Proof.
  unfold origin_bad, absolute_origin. destruct (url_Parse o) as [u|]; [|split; [done|by intros (? & ? & _)]].
  rewrite !orb_false_iff, !negb_false_iff, !bool_decide_eq_false, !bool_decide_eq_true. split.
  - intros [[[[? ?] ?] ?] ?]. by exists u.
  - by intros (? & [= <-] & ? & ? & ? & ? & ?).
Qed.

Lemma check_origins_spec l : check_origins l = Ok () <-> forall o, o ∈ l -> o = "*"%go \/ absolute_origin o.
Proof.
  induction l as [|o l IH]; cbn [check_origins].
  - split; [|done]. intros _ o Ho. by apply not_elem_of_nil in Ho.
  - setoid_rewrite elem_of_cons. destruct (decide (o = "*"%go)) as [->|Hne].
    + rewrite IH. naive_solver.
    + destruct (origin_bad o) eqn:E.
      * split; [done|]. intros Ho. destruct (Ho o (or_introl eq_refl)) as [|Ha%origin_bad_spec]; congruence.
      * apply origin_bad_spec in E. rewrite IH. naive_solver.
Qed.

Lemma forward_url_spec raw :
  (negb (blank raw) = true /\ negb (forward_url_bad raw) = true) <-> http_url raw.
Proof.
  rewrite negb_blank. unfold forward_url_bad, http_url. destruct (url_Parse raw) as [u|].
  - rewrite negb_true_iff, orb_false_iff, andb_false_iff, !negb_false_iff, !bool_decide_eq_true, bool_decide_eq_false.
    naive_solver.
  - naive_solver.
Qed.

Lemma check_forward_spec f : check_forward f = Ok () <-> forward_ok f.
Proof.
  unfold check_forward, forward_ok. rewrite !then_Ok, guard_err_Ok, bool_decide_eq_true, !elem_of_cons, elem_of_nil.
  destruct (decide (Kind f = "http"%go)) as [->|Nh]; [|destruct (decide (Kind f = "nats"%go)) as [->|Nn]].
  - rewrite !then_Ok, !guard_err_Ok, <- forward_url_spec, orb_true_iff, !bool_decide_eq_true.
    rewrite decide_False by done. naive_solver.
  - rewrite !then_Ok, !guard_err_Ok, !negb_blank. naive_solver.
  - naive_solver.
Qed.

Lemma validate_usable c : validate c = Ok () <-> usable c.
Proof.
  unfold validate. rewrite !then_Ok, !guard_err_Ok, !negb_blank, check_origins_spec, check_forward_spec.
  rewrite negb_true_iff, andb_false_iff, negb_false_iff, orb_false_iff, !bool_decide_eq_false, eqb_true_iff.
  rewrite negb_true_iff, Z.leb_gt, negb_true_iff, !andb_false_iff, negb_false_iff, !bool_decide_eq_true, !bool_decide_eq_false.
  split.
  - intros (? & ? & ? & ? & E & ? & ? & ? & R & ? & ?). split; try done; [|].
    + rewrite <- (bool_decide_eq_true (hTLSCertFile _ = [])), <- (bool_decide_eq_true (hTLSKeyFile _ = [])). by rewrite E.
    + intros Hn. destruct R as [[?|?]|?]; [done|by left|by right].
  - intros [? ? ? ? E ? ? ? R ? ?]. repeat split; try done; [|].
    + by apply bool_decide_ext.
    + destruct (decide (rName (RealmC c) = [])); [by left; left|]. destruct R as [?|?]; [done|by left; right|by right].
Qed.
End Validate.

(** *** The environment *)

Lemma retention_text_source env : retention_text env <> [] -> retention_source env (retention_text env).
Proof.
  unfold retention_source, retention_text, retention_vars. cbn [foldl].
  destruct (env !! _) as [[|? ?]|], (env !! _) as [[|? ?]|]; naive_solver.
Qed.

Lemma retention_source_text env v : retention_source env v -> retention_text env = v.
Proof.
  unfold retention_source, retention_text, retention_vars. cbn [foldl].
  destruct (env !! _) as [[|? ?]|], (env !! _) as [[|? ?]|]; naive_solver.
Qed.

Lemma env_retention_spec env old r :
  env_retention env old = Ok r <->
  (forall v, retention_source env v -> exists n, Strconv.ParseInt v = Ok n /\ (0 <= n)%Z /\ r = Some n) /\
  ((forall v, ~ retention_source env v) -> r = old).
Proof.
  pose proof (retention_text_source env) as H1. pose proof (retention_source_text env) as H2.
  unfold env_retention. destruct (retention_text env) as [|c t].
  - assert (forall v, ~ retention_source env v) as Hno by (intros v Hv; destruct (Hv) as [? _]; apply H2 in Hv; congruence).
    naive_solver.
  - specialize (H1 ltac:(done)). split.
    + intros Hr. split; [|intros Hno; by destruct (Hno _ H1)]. intros v <-%H2. destruct (Strconv.ParseInt _) as [n|]; [|done].
      destruct (Z.ltb_spec n 0); [done|]. exists n. naive_solver.
    + intros [Hs _]. destruct (Hs _ H1) as (n & -> & ? & ->). destruct (Z.ltb_spec n 0); [lia|done].
Qed.

Lemma env_deletion_spec env old b :
  env_deletion env old = Ok b <->
  match env !! "ASTRATE_HOUSEKEEPING_REALM_DELETION_DISABLED"%go with
  | Some v => gate_reads v b
  | None => b = old
  end.
Proof.
  unfold env_deletion, gate_reads. destruct (env !! _) as [v|]; [|naive_solver].
  destruct (decide (v ∈ ["1"%go; _; _; _])) as [Ht|Ht].
  - assert (v ∉ ["0"%go; "false"%go; []]); [|destruct b; naive_solver].
    repeat (apply elem_of_cons in Ht as [->|Ht]; [by apply (bool_decide_unpack _)|]). by apply not_elem_of_nil in Ht.
  - destruct (decide (v ∈ ["0"%go; _; _])); destruct b; naive_solver.
Qed.

Lemma applyEnv_spec env base c : applyEnv env base = Ok c <-> overlaid env base c.
Proof.
  unfold applyEnv. rewrite bindR_Ok. setoid_rewrite bindR_Ok. setoid_rewrite env_retention_spec.
  setoid_rewrite env_deletion_spec. split.
  - intros (r & [Hr1 Hr2] & b & Hb & [= <-]). split; try done.
    intros v get Hin. unfold string_vars in Hin.
    repeat (apply elem_of_cons in Hin as [[= -> ->]|Hin]; [reflexivity|]). by apply not_elem_of_nil in Hin.
  - intros [Hs Ho Hd Hn Hr1 Hr2 Hg Hf]. eexists. split; [exact (conj Hr1 Hr2)|]. eexists. split; [exact Hg|].
    assert (Forall (fun '(v, get) => str env v (get base) = get c) string_vars) as HF.
    { apply Forall_forall. intros [v get] Hin. symmetry. by apply Hs. }
    unfold string_vars in HF. rewrite !Forall_cons in HF. destruct_and! HF. clear Hs Hr1 Hr2 Hg.
    destruct c as [[? ? ? ?] [? ? ? ? ? ? ? ?] ? [? ? ? ? ?] ? [? ? ? ?] ? ? [? ? ? ?] [? ?] ?]. cbn in *.
    unfold fixed_fields in Hf. cbn in Hf. simplify_eq. destruct (env !! _), (env !! _); reflexivity.
Qed.

(** *** Cross-origin requests *)

Lemma allow_fold l st :
  let '(w, a) := foldl allow_step st l in
  (w = true <-> st.1 = true \/ "*"%go ∈ l) /\ forall o, o ∈ a <-> o ∈ st.2 \/ (o <> "*"%go /\ o ∈ l).
Proof.
  revert st. induction l as [|x l IH]; intros [w0 a0]; cbn [foldl fst snd].
  - split; [|intros o]; rewrite elem_of_nil; tauto.
  - specialize (IH (allow_step (w0, a0) x)). destruct (foldl allow_step (allow_step (w0, a0) x) l) as [w a].
    destruct IH as [IH1 IH2]. unfold allow_step in IH1, IH2. case_decide; subst; cbn [fst snd] in IH1, IH2.
    + split; [rewrite IH1, elem_of_cons; tauto|]. intros o. rewrite (IH2 o), elem_of_cons. naive_solver.
    + split; [rewrite IH1, elem_of_cons; naive_solver|]. intros o. rewrite (IH2 o), elem_of_cons. set_solver.
Qed.

(** An origin the list admits. *)
Definition allowed_origin (l : list gostring) (o : gostring) : Prop := o <> [] /\ ("*"%go ∈ l \/ o ∈ l).

Definition origin_answer (l : list gostring) (o : gostring) : gostring :=
  if decide ("*"%go ∈ l) then "*"%go else o.

Lemma allowed_spec l o :
  let '(w, a) := foldl allow_step (false, ∅) l in
  w = bool_decide ("*"%go ∈ l) /\
  (blank o || (negb w && negb (bool_decide (o ∈ a))) = false <-> allowed_origin l o).
Proof.
  pose proof (allow_fold l (false, ∅)) as Hf. destruct (foldl _ _ _) as [w a]. cbn [fst snd] in Hf. destruct Hf as [H1 H2].
  assert (w = bool_decide ("*"%go ∈ l)) as Hw.
  { destruct w; symmetry; [apply bool_decide_eq_true|apply bool_decide_eq_false]; naive_solver. }
  split; [done|]. unfold allowed_origin. rewrite orb_false_iff, bool_decide_eq_false, andb_false_iff, !negb_false_iff, bool_decide_eq_true.
  rewrite H1, H2, elem_of_empty. destruct (decide (o = "*"%go)) as [->|Ho]; intuition congruence.
Qed.

(** A request from an origin the configuration lists is answered with that
    origin, or with the wildcard, in the allow header, and a preflight among
    them is answered without the handler behind; every other request goes to
    that handler untouched. *)
Theorem cors_exact l next r w :
  let o := Get (rqHeader r) "Origin"%go in
  (~ allowed_origin l o -> CORS l next r w = next r w) /\
  (allowed_origin l o -> exists h,
     Get h AllowOrigin = origin_answer l o /\ (forall k, k <> AllowOrigin -> k <> "Vary"%go -> h !! k = rsHeader w !! k) /\
     CORS l next r w = if preflight r then WriteHeader 204 (MkResponse (answer_preflight h) (rsStatus w))
                       else next r (MkResponse h (rsStatus w))).
Proof.
  intros o. unfold CORS, origin_answer. pose proof (allowed_spec l o) as Ha. destruct (foldl _ _ _) as [wild a].
  fold o. destruct Ha as [-> Ha]. split; intros Ho.
  - rewrite <- Ha, not_false_iff_true in Ho. by rewrite Ho.
  - apply Ha in Ho. rewrite Ho. eexists. split_and!; [| |reflexivity].
    + unfold stamp, hSet, hAdd, Get. rewrite bool_decide_decide. destruct (decide _); [by rewrite lookup_insert_eq|].
      by rewrite lookup_insert_ne, lookup_insert_eq.
    + intros k Hk Hv. unfold stamp, hSet, hAdd. destruct (bool_decide ("*"%go ∈ l));
      by rewrite !lookup_insert_ne by (done || congruence).
Qed.

(** *** Variables that matter *)

Definition all_vars : list gostring :=
  string_vars.*1 ++
  ["ASTRATE_HTTP_CORS_ALLOWED_ORIGINS"%go; "ASTRATE_MQTT_INSECURE_DEV_MODE"%go; "ASTRATE_ENGINE_SHARDS"%go;
   "ASTRATE_HOUSEKEEPING_REALM_DELETION_DISABLED"%go] ++ retention_vars.

Lemma applyEnv_agree env env' base :
  (forall v, v ∈ all_vars -> env !! v = env' !! v) -> applyEnv env base = applyEnv env' base.
Proof.
  intros Ha. apply Forall_forall in Ha. unfold all_vars, string_vars, retention_vars in Ha. cbn [fmap list_fmap app fst] in Ha.
  rewrite !Forall_cons in Ha. destruct_and! Ha.
  unfold applyEnv, env_retention, retention_text, retention_vars, env_deletion, env_shards, str. cbn [foldl].
  repeat match goal with H : env !! _ = env' !! _ |- _ => rewrite H; clear H end. reflexivity.
Qed.

(** *** Loading *)

Section Loading.
Context `{Platform}.

(** The configuration the overlay starts from. *)
Definition base_config (path : gostring) (base : Config) : Prop :=
  (path = [] /\ base = Default) \/ (path <> [] /\ DecodeFile path Default = Some base).

(** Loading gives a configuration exactly when the file decodes, every
    fail-loud variable is well formed and the outcome is usable; then each
    field is the variable's value where one is set, the file's where it names
    the field, and the default otherwise. *)
Theorem load_exact path env c :
  Load path env = Ok c <-> exists base, base_config path base /\ overlaid env base c /\ usable c.
Proof.
  unfold Load, base_config. split.
  - intros (base & Hb & (c' & Ho%applyEnv_spec & ([] & Hv%validate_usable & [= <-])%bindR_Ok)%bindR_Ok)%bindR_Ok.
    exists base. split; [|done].
    destruct path as [|? ?]; [left; naive_solver|]. right. destruct (DecodeFile _ _); naive_solver.
  - intros (base & Hb & Ho%applyEnv_spec & Hv%validate_usable). apply bindR_Ok. exists base. split.
    + destruct Hb as [[-> ->]|[Hp E]]; [done|]. destruct path; [done|]. by rewrite E.
    + by rewrite Ho; cbn [bindR]; rewrite Hv.
Qed.

(** Only a database and the broker's certificate and key have to be given:
    whatever else the process environment holds, if no other variable of the
    program is set the defaults complete the configuration. *)
Theorem minimal_environment_loads env dsn cert key :
  let given : environment := <["ASTRATE_DATABASE_DSN"%go := dsn]> (<["ASTRATE_MQTT_TLS_CERT_FILE"%go := cert]>
                 (<["ASTRATE_MQTT_TLS_KEY_FILE"%go := key]> ∅)) in
  dsn <> [] -> cert <> [] -> key <> [] -> (forall v, v ∈ all_vars -> env !! v = given !! v) ->
  Load [] env = Ok (MkConfig (HTTP Default)
    (MkMQTT ":8883"%go cert key false ":1883"%go "sessions.db"%go [] (272 * 1024)%Z) dsn
    (Engine Default) (Pairing Default) (Housekeeping Default) 0%Z [] (RealmC Default) (Log Default) (Forward Default)).
Proof.
  intros given Hd Hc Hk Ha. unfold Load. cbn [bindR]. rewrite (applyEnv_agree _ _ _ Ha).
  destruct dsn as [|d dsn], cert as [|c cert], key as [|k key]; done.
Qed.

(** An origin that a loaded configuration lets through is answered with the
    wildcard or is an absolute origin. *)
Theorem loaded_origins_absolute path env c o :
  Load path env = Ok c -> allowed_origin (CORSAllowedOrigins (HTTP c)) o ->
  origin_answer (CORSAllowedOrigins (HTTP c)) o = "*"%go \/ absolute_origin o.
Proof.
  intros (base & _ & _ & Hu)%load_exact [_ Ho]. unfold origin_answer. case_decide; [by left|].
  destruct Ho as [?|Ho]; [done|]. by apply (us_origins _ Hu).
Qed.
End Loading.

(** ** Concrete configurations *)

(** A file that turns the deletion gate on, asks for a negative default
    retention and runs in development mode. *)
Definition odd_file (base : Config) : Config :=
  MkConfig (HTTP base) (MkMQTT ":8883"%go [] [] true ":1883"%go "sessions.db"%go [] (272 * 1024)%Z) "postgres://db"%go
    (Engine base) (Pairing base) (MkHousekeeping [] [] (Some (-5)%Z) true) 0%Z [] (RealmC base) (Log base) (Forward base).

#[local] Instance odd_platform : Platform := {
  DecodeFile _ base := Some (odd_file base);
  url_Parse s := match Strings.CutPrefix s "http://"%go with Some h => Some (MkURL "http"%go h [] [] []) | None => None end;
  ReadFile _ := None;
}.

(** An empty gate variable is not the same as none: it reopens the deletion
    that the file disabled. *)
Example empty_gate_reopens :
  (Load "astrate.toml"%go ∅ = Ok (odd_file Default)) /\
  exists c, Load "astrate.toml"%go {["ASTRATE_HOUSEKEEPING_REALM_DELETION_DISABLED"%go := []]} = Ok c /\
    RealmDeletionDisabled (Housekeeping c) = false.
Proof. split; [by vm_compute|]. eexists. split; by vm_compute. Qed.

(** A negative default retention is refused from the environment and taken
    from the file. *)
Example file_retention_unchecked :
  DefaultDatastreamMaximumStorageRetention (Housekeeping (odd_file Default)) = Some (-5)%Z /\
  Load "astrate.toml"%go ∅ = Ok (odd_file Default) /\
  Load "astrate.toml"%go {["HOUSEKEEPING_DEFAULT_DATASTREAM_MAXIMUM_STORAGE_RETENTION"%go := "-5"%go]} =
    Err (ErrRetention "-5"%go).
Proof. split_and!; by vm_compute. Qed.

(** A malformed number of shards is ignored, and a malformed development mode
    turns it off. *)
Example malformed_overrides :
  (exists c, Load "astrate.toml"%go {["ASTRATE_ENGINE_SHARDS"%go := "8x"%go]} = Ok c /\ Shards (Engine c) = 16%Z) /\
  Load "astrate.toml"%go {["ASTRATE_MQTT_INSECURE_DEV_MODE"%go := "yes"%go]} = Err ErrMQTTTLS.
Proof. split; [eexists; split|]; by vm_compute. Qed.

Definition two_origins : environment := {["ASTRATE_HTTP_CORS_ALLOWED_ORIGINS"%go := "http://a, http://b"%go]}.
Definition two_origins_config : Config := match Load "astrate.toml"%go two_origins with Ok c => c | Err _ => Default end.

Lemma loaded_origins_absolute_witness :
  origin_answer (CORSAllowedOrigins (HTTP two_origins_config)) "http://b"%go = "*"%go \/ absolute_origin "http://b"%go.
Proof.
  apply (loaded_origins_absolute "astrate.toml"%go two_origins); [by vm_compute|].
  split; [done|]. right. by apply (bool_decide_unpack _).
Defined.
End Config.
